(* ===== verification/_CoqProject ===== *)
-Q . S2P
Prelude.v
PyValue.v
EventProtocol.v
Authority.v
Journal.v
Process.v
Dispatcher.v
AgentOS.v
AgentOSInv.v
AgentOSAuthz.v
AgentOSOps.v
Agent.v
Bash.v
BashInv.v
BashProps.v
Json.v
JsonRound.v
Sha256.v
Codec.v
LlmTypes.v
LlmStream.v
LlmRuntime.v
LlmEnvelope.v
LlmOpenAI.v
LlmParsers.v
LlmProvider.v
LlmAnthropic.v
LlmAnthropicStream.v
LlmDevice.v
LegacyTask.v
LegacyTransaction.v
LegacyKb.v
LegacyPatch.v
LegacyAgentState.v
LegacyPredicate.v
LegacyOutbox.v
LegacyOps.v
LegacyBudget.v
LegacyScheduler.v
LegacyRecords.v
LegacyGraph.v
LegacyAgentTree.v
LegacyResolve.v
LegacyOrg.v
LegacyOrgInv.v
LegacyMail.v
LegacyClock.v
LegacyReliability.v
LegacyContinuation.v
LegacyIngress.v
LegacyManifest.v
LegacyTools.v
LegacyDispatch.v
LegacyIngest.v
LegacyRouting.v
LegacyHuman.v
LegacyMemory.v
LegacyRecall.v
LegacyMemoryTools.v
LegacyContext.v
LegacyCredentials.v
LegacyJournal.v
LegacyStores.v
