(* ===== verification/Prelude.v ===== *)
(** * My-Team: a verification library for the AgentOS kernel and its devices

    My-Team runs a team of LLM agents as processes of a small operating system.  Processes
    exchange events, dicts with a source, a target, a kind and a payload.  The kernel
    (src/src/my_team/kernel/) validates every event, adds the sender's rights, records it
    and routes it.  Devices serve requests of agents: the bash device runs shell jobs, the
    LLM device calls model providers.

    ** Files and what they model

    Foundations:
    - [Prelude]: exceptions, the result type [res], the state-and-error monad [M], ordered
      dictionaries, string operations, generic lemmas and the tactics;
    - [PyValue]: the Python values events are made of and the built-ins applied to them;
    - [Json], [Sha256]: the functions of Python's [json] and [hashlib] the LLM adapters use,
      written out from the standards, since tool arguments and cache keys go through them;
    - [JsonRound]: the JSON reader gives back what the writer wrote;
    - [Codec]: base64 with Python's lenient reader, and HMAC, from the standards.

    Kernel, under src/src/my_team/kernel/:
    - [EventProtocol] (event_protocol.py, event_validator.py): [validate_event] and the rules;
    - [Authority] (authority.py): the registry and the grants, every command and query, and
      [_build_inject], which tells an agent what changed for it;
    - [Journal] (journal.py): one row per handled event;
    - [Process] (process.py, sandbox_entry.py): identities, private homes, mount anchors and
      the sandbox command line;
    - [Dispatcher] (process.py, BucketDispatcher): the per-source queues as a step system;
    - [AgentOS] (agent_os.py, process_handle.py): the kernel's state and handlers, composed
      with [Authority], [Journal], [Process] and [Dispatcher]; [booted] is the kernel once a
      configuration is set up, and [kstep] interleaves its loop with the workers of its devices;
    - [AgentOSInv], [AgentOSAuthz], [AgentOSOps]: the kernel's theorems.

    Agent and devices:
    - [Agent] (agent/agent.py): injected entries, task matching, tool results;
    - [Bash], [BashInv], [BashProps] (device/bash/device.py): the job pool, its step system
      [bstep], its invariant and its properties;
    - [LlmTypes] (device/llm/vendor/types and the small helpers of vendor/adapters);
    - [LlmStream] (adapters/stream.py): the bridge from provider events to agent events;
    - [LlmRuntime], [LlmEnvelope] (adapters/env.py, retry.py): configuration, retries, waits,
      and the shape of a provider call that both adapters have;
    - [LlmOpenAI], [LlmParsers], [LlmProvider] (adapters/openai_compatible.py): conversion,
      the two stream parsers behind the class [StreamParser] with its laws [ParserLaws], and
      the request loop, generic in the parser;
    - [LlmAnthropic], [LlmAnthropicStream] (adapters/anthropic.py);
    - [LlmDevice] (device/llm/device.py): a request event to its reply.

    The previous architecture, under src/src/legacy/, which the current program does not
    import but the repository keeps:
    - [LegacyTask] (models/task.py, task_tree.py): task lifecycle and the task tree;
    - [LegacyTransaction] (transaction.py): the buffer of staged effects of a tick; its
      [commit_phase] has the calls of simulation.py in their order;
    - [LegacyKb] (shared_kb.py, the record of audit.py): permissions, locks with leases,
      versions, resources and the tool handlers, one of which stages an effect;
    - [LegacyRecords] (record_store.py): typed records with a replayable ledger; its
      [apply_effect] and [_rollback] are the branches of simulation.py for record effects;
    - [LegacyPatch] (patch_ops.py): unified diffs;
    - [LegacyAgentState] (agent_state.py): the agent state machine and its audit log;
    - [LegacyPredicate] (predicate.py): the predicate language of level L0;
    - [LegacyOutbox] (outbox.py), [LegacyOps] (pending_ops.py): mails and requests to the
      outside with their retries, timeouts and replays;
    - [LegacyBudget] (budget.py): prices, usage, the admission check;
    - [LegacyScheduler] (scheduler.py, models/activation.py): wake events and the ready set;
      its [run_tick] has the scheduler calls of a tick of simulation.py;
    - [LegacyContinuation] (models/continuation.py): where an agent stands between two
      activations, with the machine of [LegacyAgentState];
    - [LegacyGraph]: the cycle search that the next two share;
    - [LegacyAgentTree] (agent_tree.py): the tree of configured agents;
    - [LegacyOrg], [LegacyOrgInv] (devices/base.py, devices/authority.py, models/position.py,
      devices/org.py): devices, two layers of grants, positions and their governance;
    - [LegacyResolve] (authority.py): the resolution of decisions over tiers of grants;
    - [LegacyMail] (models/email.py, mailbox.py): mails as shared objects, mailboxes, delivery;
    - [LegacyClock] (tick_engine.py, calendar.py): ticks, business time, rules that fire;
    - [LegacyReliability] (reliability.py, audit.py): retries, timeouts, the crash guard;
    - [LegacyManifest] (tool_manifest.py, sandbox_spec.py): contracts of tools;
    - [LegacyTools] (ToolRegistry of agent_runtime.py): registered tools and their execution;
    - [LegacyDispatch] (executor_registry.py, integration.py): capacities, quotas, and the
      dispatch phase of a tick of simulation.py;
    - [LegacyIngress] (ingress.py): the buffer of platform events, with restarts;
    - [LegacyIngest], [LegacyRouting] ([_phase_ingest] and [_consume_ingress] of simulation.py):
      how what happened outside reaches operations, agents and human workers;
    - [LegacyHuman] (human_control.py): the commands and views of a person in charge;
    - [LegacyMemory] (models/memory.py, memory_store.py): what an agent remembers, as chains of
      versions, with the undo of every write;
    - [LegacyRecall] (memory_recall.py): the index of triggers and the engine that finds
      memories, written against the class [RecallBackend] of backends;
    - [LegacyMemoryTools] (memory_tools.py, consolidation.py): the tools an agent works on its
      memory with, and sessions of consolidation with the code of simulation.py behind them;
    - [LegacyContext] (context_compiler.py): what an agent sees in a tick, and the Observe phase;
    - [LegacyCredentials] (credential_store.py): secrets behind the class [BackendLaws] of
      backends, with the encrypted file and its cipher;
    - [LegacyJournal] (journal.py, audit.py): one record per tick, and what simulation.py
      captures into it;
    - [LegacyStores] (persistence.py, asset_store.py): the saved components and the assets.

    ** How state and operations correspond to the code

    A class's attributes are the fields of a record with the attributes' names ([authority],
    [journal], [kernel], [disp], [bash], [assistant_message], ...); methods keep their
    names.  A method that raises runs in [M S], where a raised exception keeps the changes
    made before it, as in Python.  Dicts whose order can be observed are association lists
    ([dict]).  Where the code shares objects, the model has a store and numbers refer to
    entries of it: the process table behind the handles, the job store of the bash device, the
    heap of mails, the ingress buffer a restart replaces under the human control plane.
    Asyncio tasks are entries of a state whose steps are the code between two awaits; a
    label of [dstep], [kstep] or [bstep] names the task that runs and what the environment
    returns to it, and the theorems quantify over every sequence of labels.

    ** What the theorems show

    - Kernel safety: an event of an unprivileged source changes neither members nor grants
      (C1); the auth field a device sees is the sender's rights as the Authority has them
      (C2); the kernel identities survive every event (C5) and an identity has at most one
      live process (C6), both once a configuration with distinct identities, none of them the
      kernel's, is set up; the journal only grows, whatever the configuration (C7); handling terminates with
      the nesting depth the model allows ([process_depth_enough]).
    - The Authority implements an abstract organisation, a set of members and a set of
      grants (C3), and an injection is the exact difference of what the agent sees (C4).
    - The dispatcher is first in first out per source and drains (C8, C9); it keeps its bound
      ([dispatcher_bounded]).
    - The bash pool is bounded and serial per source, answers each job once, and keeps its
      deadlines bounded unless an extension by NaN is requested (C11-C13).
    - The LLM adapters emit well-formed streams whose final message is the streamed content
      (C14, C15, C17, C19), send boundedly many requests (C16), keep the provider's limits
      (C18), and the device answers every request (C20).
    - The commit phase is atomic per group and gives each resource one winner (C27); the
      knowledge base loses no update (C28) and a lock holds to the end of its lease
      ([kb_lock_exclusive]).
    - Organisations: what any sequence of operations keeps (C21), the exact condition of
      accepting a tree (C23), decisions that do not depend on the order of the grants (C29).
    - Predicates: parsing is total ([parse_total]), an accepted predicate evaluates or reports
      a type (C31), and the canonical form keeps the meaning.
    - A rolled back tick leaves the records and the ledger as they were (C32), and the ledger
      replays to the current records (C38) as long as no delta meets a missing record and no
      member of an atomic group fails while it is applied.
    - Tasks: the cascade of a cancellation in trees without cycles (C33), and the walk of [update_status]; a patch does
      what its hunks say.
    - Mails wait or are delivered exactly once (C25), go out at most once per key (C36) and do
      not wait for ever (C37); a schedule fires each occurrence once (C24).
    - The outside: events of platforms are handed over exactly once (C35), an operation that
      ended is settled and its result delivered or refused when usage reports are numbers (C39),
      a human action reaches its
      assignee or is refused ([human_action_routed]), a handler of a tool runs only for a granted and, where the
      policy says so, approved call (C30).
    - Memory: whatever the tools do, chains stay well formed and the indices follow the memories
      (C10); a recall finds what a scan of the memory would find (C34); undoing a tick's writes
      restores every chain ([memory_rolled_back]); an exit from a consolidation stores its
      summary or changes nothing ([exit_outcome]); a context keeps its budgets and shows an
      agent no mail and no lock token of another ([fixed_injection_exact],
      [detail_budget_exact], [compile_confined]).
    - Stores: what was put into the encrypted file resolves (C26) and a crash within a put leaves the
      file as before or as after ([put_crash_safe]); the gate answers as resolving does
      ([gate_exact]); the journal has one record per tick and the events of each ([journal_exact]);
      saved components are loaded again, all or none ([save_load], [save_atomic]), assets lie under
      their hashes ([put_get]) and survive a snapshot ([assets_restored]).
    - Admitted rounds keep the budget caps ([admission_keeps_caps]); a tick settles every wake
      event and activates the most urgent agents within the capacity (C40).
    - The others state the exact outcome of single operations, error paths included; further
      theorems next to the definitions are not numbered.
    - Some theorems record behaviour that differs from what the documents say; the
      manifest's findings name them.

    ** Bounds and fuel

    Handling an event may emit one reply through the kernel, whose handling emits nothing:
    the nesting bound [DEPTH] is 1, enough by [process_depth_enough].  The JSON reader runs
    on twice the length of the text plus one.  The request loop of a provider takes any fuel;
    when it is spent the outcome is [out_of_fuel], which is none of the program's.  By the
    retry limit fuel for [max_retries + 1] rounds is enough, and C16 and C19 hold for any more.
    A wait polls once per 0.05 s of its delay; lemmas next to the definitions show that more
    changes nothing.  Runs of the step systems have no bound.  The search of
    [update_status] visits twelve statuses ([WALK] is 13); the loops over a task tree have the
    number of tasks plus two, enough on trees by their theorems; the predicate parser has the
    number of tokens plus three, enough by [parse_total].  The cycle search has as many levels as
    there are white nodes ([visit_spec]), loops over an agent tree the number of agents, the
    traversal of a subtree the number of paths below its root, the keystream one round more than
    the bytes asked for, the search for the next day of a
    weekly rule eight days; theorems of their files show that none is met.

    ** What is not modelled, and why

    - Sockets, pickling, threads, file descriptors, [exec] and the HTTP client: third-party
      code and the operating system.  What the code relies on is a parameter: the module a
      device file loads, the response to each request ([post]), the subprocess and the clock
      (labels of [bstep]), the validation library behind wire messages ([parse_blocks]).
    - [terminate] waits for the process inside one step.  A journal row keeps its event as
      a value; its JSON text is not a string of the model.
    - A float is the rational it denotes: rounding is left out, and so are NaN and the
      infinities, which the JSON reader refuses, but for the numbers of a request to the bash
      device, where they matter ([pyfloat]).  [lower] and [int] know ASCII letters and digits only;
      bracketed IPv6 hosts are not parsed.
    - Configuration parsing and start-up (main.py), the httpx factory (adapters/http.py) and
      the kanban scripts are glue.
    - Of src/src/legacy/: level L1 of the predicates (Python's own parser and a subprocess),
      the prose of the invert contract, entity registration of the device classes, saving and
      loading through the validation library.  Of simulation.py the Decide, Validate and Act
      phases, deadlines, worker pools and saved state: they call handlers given at run time
      and the modules that follow.
    - Handlers that read files and start processes (agent_tools, sandbox_tools, file_ops,
      python_worker), prompts and test doubles (prompt_templates, fake_llm, llm_agent), the
      private directories of agents (private_store) and the control services (control_plane,
      llm_gateway, llm_dispatcher).  The router of
      untyped commands and the view of the task tree of human_control.py are left out.
    - Times of the previous architecture are ticks or instants of one clock. *)

From stdpp Require Import base gmap strings list.
From Stdlib Require Import ZArith Sorted.

(* ------------------------------------------------------------------ *)
(** ** Exceptions and the state-and-error monad *)

(** The exception classes the modelled sources raise or catch.  [OutOfFuel] is none of them: it
    marks a loop of the model whose fuel is spent. *)
Inductive exn_class :=
| ValueError | KeyError | TypeError | AttributeError | IndexError
| FileNotFoundError | OSError | NotImplementedError | EventError
| AssertionError | RuntimeError | PermissionError | Sqlite3Error | OverflowError
| SystemExit | ValidationError | OutOfFuel.

Record exn := Exn { exn_cls : exn_class; exn_msg : string }.

Inductive res (A : Type) :=
| Ok (a : A)
| Raise (e : exn).
Arguments Ok {A} a.
Arguments Raise {A} e.

(** [M S A]: a computation on a store [S] that returns or raises.  The store is
    returned in both cases: a Python exception does not undo what ran before it. *)
Definition M (S A : Type) : Type := S → res A * S.

#[global] Instance res_ret : MRet res := λ A a, Ok a.
#[global] Instance res_bind : MBind res := λ A B f m,
  match m with Ok a => f a | Raise e => Raise e end.
#[global] Instance res_fmap : FMap res := λ A B f m,
  match m with Ok a => Ok (f a) | Raise e => Raise e end.

#[global] Instance M_ret {S} : MRet (M S) := λ A a s, (Ok a, s).
#[global] Instance M_bind {S} : MBind (M S) := λ A B f m s,
  match m s with
  | (Ok a, s') => f a s'
  | (Raise e, s') => (Raise e, s')
  end.

Definition raise {S A} (c : exn_class) (msg : string) : M S A :=
  λ s, (Raise (Exn c msg), s).
Definition lift {S A} (r : res A) : M S A := λ s, (r, s).
Definition gets {S A} (f : S → A) : M S A := λ s, (Ok (f s), s).
Definition modify {S} (f : S → S) : M S () := λ s, (Ok (), f s).

(** [try: m except Exception as exc: h exc] *)
Definition try_catch {S A} (m : M S A) (h : exn → M S A) : M S A := λ s,
  match m s with
  | (Ok a, s') => (Ok a, s')
  | (Raise e, s') => h e s'
  end.

(** [if c: raise ValueError(msg)] *)
Definition guard_raise {S} (c : bool) (k : exn_class) (msg : string) : M S () :=
  if c then raise k msg else mret ().

(** [for x in l: f x], stopping at the first exception. *)
Fixpoint mfor {S A} (l : list A) (f : A → M S ()) : M S () :=
  match l with
  | [] => mret ()
  | x :: l' => f x ;; mfor l' f
  end.

Fixpoint res_mapM {A B} (f : A → res B) (l : list A) : res (list B) :=
  match l with
  | [] => Ok []
  | x :: l' => y ← f x; ys ← res_mapM f l'; Ok (y :: ys)
  end.

(* ------------------------------------------------------------------ *)
(** ** Ordered dictionaries

    A Python [dict] iterates in insertion order and an assignment to a present
    key keeps its place; the model is an association list without duplicate keys. *)

Abbreviation dict V := (list (string * V)).

Section Dict.
Context {V : Type}.
Implicit Types (d : list (string * V)) (k : string).

Fixpoint dget k d : option V :=
  match d with
  | [] => None
  | (k', v) :: d' => if decide (k = k') then Some v else dget k d'
  end.

Fixpoint dset k (v : V) d : list (string * V) :=
  match d with
  | [] => [(k, v)]
  | (k', v') :: d' => if decide (k = k') then (k, v) :: d' else (k', v') :: dset k v d'
  end.

Fixpoint dpop k d : list (string * V) :=
  match d with
  | [] => []
  | (k', v') :: d' => if decide (k = k') then dpop k d' else (k', v') :: dpop k d'
  end.

Definition dkeys d : list string := map fst d.
Definition dvalues d : list V := map snd d.
Definition dmem k d : bool := match dget k d with Some _ => true | None => false end.
End Dict.

(* ------------------------------------------------------------------ *)
(** ** Strings

    A Python [str] is modelled by the bytes of its UTF-8 encoding; the operations
    below (containment, prefix, replacement, concatenation and the order used by
    [sorted]) agree on code points and on their encoding. *)

Fixpoint str_contains (sub s : string) : bool :=
  String.prefix sub s ||
  match s with EmptyString => false | String _ s' => str_contains sub s' end.

Definition nonempty (s : string) : bool := negb (bool_decide (s = ""%string)).

Lemma str_app_nil_r (s : string) : (s +:+ "" = s)%string.
Proof. induction s as [|c s IH]; [done|]. change (String c (s +:+ "") = String c s). by rewrite IH. Qed.
Lemma str_app_assoc (s t u : string) : (s +:+ t) +:+ u = s +:+ (t +:+ u).
Proof.
  induction s as [|c s IH]; [done|].
  change (String c ((s +:+ t) +:+ u) = String c (s +:+ (t +:+ u))). by rewrite IH.
Qed.
Lemma length_str_app (s t : string) : String.length (s +:+ t) = (String.length s + String.length t)%nat.
Proof. induction s as [|c s IH]; [done|]. change (String c s +:+ t) with (String c (s +:+ t)). cbn. by rewrite IH. Qed.
Lemma substring_all s : String.substring 0 (String.length s) s = s.
Proof. induction s as [|c s IH]; [done|]. cbn. by rewrite IH. Qed.
(** What follows a prefix. *)
Lemma substring_app p t :
  String.substring (String.length p) (String.length (p +:+ t) - String.length p) (p +:+ t) = t.
Proof.
  induction p as [|c p IH]; cbn [String.length].
  - change (EmptyString +:+ t) with t. rewrite Nat.sub_0_r. apply substring_all.
  - change (String c p +:+ t) with (String c (p +:+ t)). cbn [String.length Nat.sub String.substring]. apply IH.
Qed.
Lemma prefix_app p t : String.prefix p (p +:+ t) = true.
Proof.
  induction p as [|c p IH]; [by destruct t|]. change (String c p +:+ t) with (String c (p +:+ t)).
  cbn [String.prefix]. destruct (Ascii.ascii_dec c c); [apply IH|done].
Qed.
Lemma str_contains_refl s : str_contains s s = true.
Proof.
  pose proof (prefix_app s EmptyString) as H. rewrite str_app_nil_r in H.
  destruct s; [done|]. cbn [str_contains]. by rewrite H.
Qed.

(** [sorted] on strings and on pairs of strings: insertion sort by [leb]. *)
Section Sort.
Context {A : Type} (leb : A → A → bool).
Fixpoint insert_sorted (x : A) (l : list A) : list A :=
  match l with
  | [] => [x]
  | y :: l' => if leb x y then x :: y :: l' else y :: insert_sorted x l'
  end.
Fixpoint py_sorted (l : list A) : list A :=
  match l with
  | [] => []
  | x :: l' => insert_sorted x (py_sorted l')
  end.
End Sort.

Definition pair_leb (a b : string * string) : bool :=
  match String.compare a.1 b.1 with
  | Lt => true
  | Gt => false
  | Eq => String.leb a.2 b.2
  end.

(* ------------------------------------------------------------------ *)
(** ** Lemmas on dictionaries *)

Section DictLemmas.
Context {V : Type}.
Implicit Types (d : list (string * V)) (k : string).

Lemma dget_dset k k' v d :
  dget k' (dset k v d) = if decide (k' = k) then Some v else dget k' d.
Proof.
  induction d as [|[k1 v1] d IH]; simpl; [done|].
  repeat (case_decide; simplify_eq/=; try done).
Qed.
Lemma dget_dset_eq k v d : dget k (dset k v d) = Some v.
Proof. rewrite dget_dset. by case_decide. Qed.
Lemma dget_dset_ne k k' v d : k' ≠ k → dget k' (dset k v d) = dget k' d.
Proof. intros. rewrite dget_dset. by case_decide. Qed.

Lemma dget_dpop k k' d :
  dget k' (dpop k d) = if decide (k' = k) then None else dget k' d.
Proof.
  induction d as [|[k1 v1] d IH]; simpl.
  - by case_decide.
  - repeat (case_decide; simplify_eq/=; try done).
Qed.
Lemma dget_dpop_eq k d : dget k (dpop k d) = None.
Proof. rewrite dget_dpop. by case_decide. Qed.
Lemma dget_dpop_ne k k' d : k' ≠ k → dget k' (dpop k d) = dget k' d.
Proof. intros. rewrite dget_dpop. by case_decide. Qed.

Lemma dget_Some_elem k v d : dget k d = Some v → (k, v) ∈ d.
Proof.
  induction d as [|[k1 v1] d IH]; simpl; [done|].
  case_decide; intros; simplify_eq; [left|right; auto].
Qed.
Lemma dget_None_keys k d : dget k d = None ↔ k ∉ dkeys d.
Proof.
  induction d as [|[k1 v1] d IH]; simpl; [split; [intros _; by apply not_elem_of_nil|done]|].
  rewrite not_elem_of_cons. case_decide; naive_solver.
Qed.
Lemma dmem_keys k d : dmem k d = true ↔ k ∈ dkeys d.
Proof.
  unfold dmem. destruct (dget k d) eqn:E.
  - split; [intros _|done]. apply dget_Some_elem in E.
    apply list_elem_of_fmap. by exists (k, v).
  - apply dget_None_keys in E. naive_solver.
Qed.
Lemma dmem_false k d : dmem k d = false ↔ dget k d = None.
Proof. unfold dmem. destruct (dget k d); naive_solver. Qed.

Lemma elem_dget k v d : NoDup (dkeys d) → (k, v) ∈ d → dget k d = Some v.
Proof.
  induction d as [|[k1 v1] d IH]; simpl; [by intros ? ?%elem_of_nil|].
  intros [Hn ?]%NoDup_cons [?|Hin]%elem_of_cons; simplify_eq.
  - by case_decide.
  - case_decide as Hk; [|auto]. subst. destruct Hn.
    apply list_elem_of_fmap. by exists (k1, v).
Qed.

Lemma dkeys_dset k v d :
  dkeys (dset k v d) = if decide (k ∈ dkeys d) then dkeys d else dkeys d ++ [k].
Proof.
  induction d as [|[k1 v1] d IH]; simpl.
  - done.
  - destruct (decide (k = k1)) as [->|Hk]; simpl.
    + rewrite decide_True; [done|left].
    + rewrite IH. repeat case_decide; set_solver.
Qed.
Lemma dkeys_dset_NoDup k v d : NoDup (dkeys d) → NoDup (dkeys (dset k v d)).
Proof.
  intros Hn. rewrite dkeys_dset. case_decide; [done|].
  apply NoDup_app. split; [done|]. split; [|apply NoDup_singleton].
  intros x Hx ->%list_elem_of_singleton. done.
Qed.
Lemma elem_dkeys_dpop k k' d : k' ∈ dkeys (dpop k d) ↔ k' ≠ k ∧ k' ∈ dkeys d.
Proof.
  rewrite <-!dmem_keys. unfold dmem. rewrite dget_dpop. case_decide; naive_solver.
Qed.
Lemma dkeys_dpop_NoDup k d : NoDup (dkeys d) → NoDup (dkeys (dpop k d)).
Proof.
  induction d as [|[k1 v1] d IH]; simpl; [done|].
  intros [Hn ?]%NoDup_cons. case_decide; [auto|]. simpl.
  apply NoDup_cons. split; [|auto]. intros [_ ?]%elem_dkeys_dpop. done.
Qed.
Lemma dpop_id k d : k ∉ dkeys d → dpop k d = d.
Proof.
  induction d as [|[k1 v1] d IH]; simpl; [done|].
  intros [? ?]%not_elem_of_cons. rewrite decide_False by done. by rewrite IH.
Qed.
End DictLemmas.

(* ------------------------------------------------------------------ *)
(** ** Reasoning on computations

    [stable R m]: every run of [m], returning or raising, relates the store it
    starts from to the store it leaves by the preorder [R].  An invariant [I] is
    the instance [R s s' := I s → I s']. *)

Definition stable {S A} (R : relation S) (m : M S A) : Prop := ∀ s, R s (m s).2.
Definition keeps {S} (I : S → Prop) : relation S := λ s s', I s → I s'.

#[global] Instance keeps_preorder {S} (I : S → Prop) : PreOrder (keeps I).
Proof. split; unfold keeps; [intros s H; exact H|intros s t u H1 H2 H; auto]. Qed.

Create HintDb stable.

Section Stable.
Context {S : Type} (R : relation S) `{!PreOrder R}.

Lemma stable_ret {A} (a : A) : stable R (mret a : M S A).
Proof. intros s. reflexivity. Qed.
Lemma stable_raise {A} c msg : stable R (raise c msg : M S A).
Proof. intros s. reflexivity. Qed.
Lemma stable_lift {A} (r : res A) : stable R (lift r : M S A).
Proof. intros s. reflexivity. Qed.
Lemma stable_gets {A} (f : S → A) : stable R (gets f).
Proof. intros s. reflexivity. Qed.
Lemma stable_guard c k msg : stable R (guard_raise c k msg : M S ()).
Proof. unfold guard_raise. destruct c; [apply stable_raise|apply stable_ret]. Qed.
Lemma stable_bind {A B} (m : M S A) (f : A → M S B) :
  stable R m → (∀ a, stable R (f a)) → stable R (m ≫= f).
Proof.
  intros Hm Hf s. unfold mbind, M_bind. specialize (Hm s).
  destruct (m s) as [[a|e] s']; simpl in *; [|done].
  etrans; [done|apply Hf].
Qed.
Lemma stable_try {A} (m : M S A) (h : exn → M S A) :
  stable R m → (∀ e, stable R (h e)) → stable R (try_catch m h).
Proof.
  intros Hm Hh s. unfold try_catch. specialize (Hm s).
  destruct (m s) as [[a|e] s']; simpl in *; [done|]. etrans; [done|apply Hh].
Qed.
Lemma stable_mfor {A} (l : list A) (f : A → M S ()) :
  (∀ x, stable R (f x)) → stable R (mfor l f).
Proof.
  intros Hf. induction l as [|x l IH]; simpl; [apply stable_ret|].
  apply stable_bind; auto.
Qed.
Lemma stable_if {A} (b : bool) (m1 m2 : M S A) :
  stable R m1 → stable R m2 → stable R (if b then m1 else m2).
Proof. by destruct b. Qed.
Lemma stable_modify (f : S → S) : (∀ s, R s (f s)) → stable R (modify f).
Proof. intros H s. apply H. Qed.
End Stable.

#[export] Hint Resolve stable_ret stable_raise stable_lift stable_gets stable_guard : stable.

(** Discharge a [stable] goal by the structure of the computation; the calls it is built
    of are looked up in the database. *)
Ltac stable_step :=
  lazymatch goal with
  | |- stable _ (mbind _ _) => apply stable_bind; [typeclasses eauto| |intros ?]
  | |- stable _ (mret _) => apply stable_ret; typeclasses eauto
  | |- stable _ (lift _) => apply stable_lift; typeclasses eauto
  | |- stable _ (gets _) => apply stable_gets; typeclasses eauto
  | |- stable _ (raise _ _) => apply stable_raise; typeclasses eauto
  | |- stable _ (guard_raise _ _ _) => apply stable_guard; typeclasses eauto
  | |- stable _ (mfor _ _) => apply stable_mfor; [typeclasses eauto|intros ?]
  | |- stable _ (try_catch _ _) => apply stable_try; [typeclasses eauto| |intros ?]
  | |- stable _ (match ?x with _ => _ end) => destruct x
  | |- stable _ _ => solve [eauto 5 with stable typeclass_instances]
  end.
Ltac stable_tac := repeat stable_step.

(** Break a run of a bind into its two runs. *)
Lemma run_bind {S A B} (m : M S A) (f : A → M S B) s :
  (m ≫= f) s = match m s with
               | (Ok a, s') => f a s'
               | (Raise e, s') => (Raise e, s')
               end.
Proof. done. Qed.

Lemma run_bind_ok {S A B} (m : M S A) (f : A → M S B) s b s' :
  (m ≫= f) s = (Ok b, s') → ∃ a s1, m s = (Ok a, s1) ∧ f a s1 = (Ok b, s').
Proof. rewrite run_bind. destruct (m s) as [[a|] s1]; [eauto|done]. Qed.

(* ------------------------------------------------------------------ *)
(** ** Triples

    [triple P m Q E]: from a store satisfying [P], [m] returns some [a] in a store
    satisfying [Q a], or raises in a store satisfying [E]. *)

Definition triple {S A} (P : S → Prop) (m : M S A) (Q : A → S → Prop) (E : S → Prop) : Prop :=
  ∀ s, P s → match m s with (Ok a, s') => Q a s' | (Raise _, s') => E s' end.

Create HintDb triple.

Section Triple.
Context {S : Type}.
Implicit Types (P E : S → Prop).

Lemma triple_ret {A} P (a : A) (Q : A → S → Prop) E :
  (∀ s, P s → Q a s) → triple P (mret a) Q E.
Proof. intros H s. apply H. Qed.
Lemma triple_raise {A} P c msg (Q : A → S → Prop) E :
  (∀ s, P s → E s) → triple P (raise c msg) Q E.
Proof. intros H s. apply H. Qed.
Lemma triple_lift {A} P (r : res A) (Q : A → S → Prop) E :
  (∀ a s, r = Ok a → P s → Q a s) → (∀ s, P s → E s) → triple P (lift r) Q E.
Proof. intros H1 H2 s Hs. unfold lift. destruct r; auto. Qed.
Lemma triple_gets {A} P (f : S → A) (Q : A → S → Prop) E :
  (∀ s, P s → Q (f s) s) → triple P (gets f) Q E.
Proof. intros H s. apply H. Qed.
Lemma triple_modify P (f : S → S) (Q : () → S → Prop) E :
  (∀ s, P s → Q () (f s)) → triple P (modify f) Q E.
Proof. intros H s. apply H. Qed.
Lemma triple_guard P (c : bool) k msg (Q : () → S → Prop) E :
  (∀ s, c = false → P s → Q () s) → (∀ s, c = true → P s → E s) →
  triple P (guard_raise c k msg) Q E.
Proof. intros H1 H2 s Hs. unfold guard_raise. destruct c; simpl; auto. Qed.
Lemma triple_bind {A B} P (m : M S A) (f : A → M S B) (Q : A → S → Prop)
    (R : B → S → Prop) E :
  triple P m Q E → (∀ a, triple (Q a) (f a) R E) → triple P (m ≫= f) R E.
Proof.
  intros Hm Hf s Hs. unfold mbind, M_bind. specialize (Hm s Hs).
  destruct (m s) as [[a|e] s']; [|done]. by apply Hf.
Qed.
Lemma triple_conseq {A} P P' (m : M S A) (Q Q' : A → S → Prop) E E' :
  triple P' m Q' E' → (∀ s, P s → P' s) → (∀ a s, Q' a s → Q a s) → (∀ s, E' s → E s) →
  triple P m Q E.
Proof.
  intros Hm HP HQ HE s Hs. specialize (Hm s (HP s Hs)).
  destruct (m s) as [[a|e] s']; auto.
Qed.
Lemma triple_try {A} P (m : M S A) (h : exn → M S A) (Q : A → S → Prop) E E' :
  triple P m Q E' → (∀ e, triple E' (h e) Q E) → triple P (try_catch m h) Q E.
Proof.
  intros Hm Hh s Hs. unfold try_catch. specialize (Hm s Hs).
  destruct (m s) as [[a|e] s']; [done|]. by apply Hh.
Qed.
Lemma triple_mfor {A} P (l : list A) (f : A → M S ()) E :
  (∀ x, x ∈ l → triple P (f x) (λ _, P) E) → triple P (mfor l f) (λ _, P) E.
Proof.
  intros Hf. induction l as [|x l IH]; simpl; [by apply triple_ret|].
  eapply triple_bind; [apply Hf; left|]. intros []. apply IH. intros y Hy. apply Hf. by right.
Qed.
Lemma triple_pure {A} (φ : Prop) P (m : M S A) (Q : A → S → Prop) E :
  (φ → triple P m Q E) → triple (λ s, φ ∧ P s) m Q E.
Proof. intros H s [Hφ Hs]. by apply H. Qed.
Lemma triple_stable {A} P (m : M S A) :
  stable (keeps P) m ↔ triple P m (λ _, P) P.
Proof.
  split; intros H s Hs; specialize (H s).
  - specialize (H Hs). by destruct (m s) as [[] ?].
  - specialize (H Hs). by destruct (m s) as [[] ?].
Qed.
End Triple.

(** Structural steps of a triple whose three conditions are one invariant. *)
Ltac triple_step :=
  first
    [ eapply triple_bind; [|intros ?]
    | apply triple_ret; try done
    | apply triple_raise; try done
    | apply triple_lift; try done
    | apply triple_gets; try done
    | apply triple_guard; try done
    | apply triple_mfor; intros ? ? ].

(* ------------------------------------------------------------------ *)
(** ** Lemmas on sorting *)

Section SortLemmas.
Context {A : Type} (leb : A → A → bool).
Lemma insert_sorted_elem x y l : y ∈ insert_sorted leb x l ↔ y = x ∨ y ∈ l.
Proof.
  induction l as [|z l IH]; simpl; [set_solver|]. destruct (leb x z); set_solver.
Qed.
Lemma py_sorted_elem y l : y ∈ py_sorted leb l ↔ y ∈ l.
Proof.
  induction l as [|z l IH]; simpl; [done|].
  rewrite insert_sorted_elem, elem_of_cons, IH. done.
Qed.
Lemma insert_sorted_perm x l : insert_sorted leb x l ≡ₚ x :: l.
Proof.
  induction l as [|z l IH]; simpl; [done|]. destruct (leb x z); [done|].
  rewrite IH. apply perm_swap.
Qed.
Lemma py_sorted_perm l : py_sorted leb l ≡ₚ l.
Proof.
  induction l as [|z l IH]; simpl; [done|]. by rewrite insert_sorted_perm, IH.
Qed.
End SortLemmas.

Lemma string_leb_refl s : String.leb s s = true.
Proof. by destruct (String.leb_total s s). Qed.
Lemma string_leb_trans s t u :
  String.leb s t = true → String.leb t u = true → String.leb s u = true.
Proof.
  unfold String.leb. revert t u. induction s as [|a s IH]; intros [|b t] [|c u]; simpl; try done.
  unfold Ascii.compare.
  destruct (N.compare_spec (Ascii.N_of_ascii a) (Ascii.N_of_ascii b)),
    (N.compare_spec (Ascii.N_of_ascii b) (Ascii.N_of_ascii c)),
    (N.compare_spec (Ascii.N_of_ascii a) (Ascii.N_of_ascii c)); try done; try lia; apply IH.
Qed.

(** The head of a sorted list is its least element. *)
Lemma py_sorted_head {A} (leb : A → A → bool) l w rest :
  (∀ x y, leb x y = true ∨ leb y x = true) →
  (∀ x y z, leb x y = true → leb y z = true → leb x z = true) →
  py_sorted leb l = w :: rest → ∀ x, x ∈ l → leb w x = true.
Proof.
  intros Ht Htr. revert w rest. induction l as [|a l IH]; simpl; intros w rest Hs x Hx;
    [by apply elem_of_nil in Hx|].
  destruct (py_sorted leb l) as [|v vs] eqn:E; simpl in Hs.
  - assert (l = []) as ->.
    { destruct l as [|b l]; [done|]. exfalso. apply (elem_of_nil b). rewrite <-E.
      apply py_sorted_elem. left. }
    simplify_eq. apply list_elem_of_singleton in Hx as ->. by destruct (Ht w w).
  - specialize (IH v vs eq_refl).
    destruct (leb a v) eqn:Eav; simplify_eq; apply elem_of_cons in Hx as [->|Hx].
    + by destruct (Ht w w).
    + eauto.
    + destruct (Ht w a) as [|H]; [done|congruence].
    + eauto.
Qed.

(** A sorted list is sorted. *)
Lemma py_sorted_sorted {A} (leb : A → A → bool) l :
  (∀ x y, leb x y = true ∨ leb y x = true) →
  (∀ x y z, leb x y = true → leb y z = true → leb x z = true) →
  StronglySorted (λ x y, leb x y = true) (py_sorted leb l).
Proof.
  intros Ht Htr. induction l as [|a l IH]; simpl; [constructor|].
  induction IH as [|v vs Hs IHs Hv]; simpl; [by repeat constructor|].
  destruct (leb a v) eqn:Eav.
  - constructor; [by constructor|]. constructor; [done|].
    eapply Forall_impl; [done|]. intros x Hx. by eapply Htr.
  - constructor; [done|]. apply Forall_forall. intros x. rewrite insert_sorted_elem.
    intros [->|Hx]; [by destruct (Ht a v); [congruence|]|]. rewrite Forall_forall in Hv. by apply Hv.
Qed.

(** ** Lemmas on lists and dictionaries the components share *)

Lemma dset_new {V} k (v : V) d : k ∉ dkeys d → dset k v d = (d ++ [(k, v)])%list.
Proof.
  induction d as [|[k' v'] d IH]; simpl; [done|]. intros [? ?]%not_elem_of_cons.
  rewrite decide_False by done. by rewrite IH.
Qed.

Lemma elem_of_rev {A} (x : A) l : x ∈ rev l ↔ x ∈ l.
Proof. by rewrite !list_elem_of_In, <-in_rev. Qed.
Lemma elem_of_bfilter {A} (f : A → bool) (x : A) l : x ∈ List.filter f l ↔ x ∈ l ∧ f x = true.
Proof. by rewrite !list_elem_of_In, List.filter_In. Qed.
Lemma filter_none {A} (f : A → bool) (l : list A) : (∀ x, x ∈ l → f x = false) → List.filter f l = [].
Proof.
  induction l as [|x l IH]; intros H; [done|]. simpl. rewrite H by left. apply IH. intros y Hy. apply H. by right.
Qed.
Lemma filter_all {A} (f : A → bool) (l : list A) : (∀ x, x ∈ l → f x = true) → List.filter f l = l.
Proof.
  induction l as [|x l IH]; intros H; [done|]. simpl. rewrite H by left. f_equal. apply IH. intros y Hy. apply H. by right.
Qed.
Lemma dget_keys {V} k (v : V) (d : dict V) : dget k d = Some v → k ∈ dkeys d.
Proof. intros H. apply dmem_keys. unfold dmem. by rewrite H. Qed.
Lemma keys_dget {V} k (d : dict V) : k ∈ dkeys d → ∃ v, dget k d = Some v.
Proof. intros H%dmem_keys. unfold dmem in H. destruct (dget k d); [eauto|done]. Qed.
