(* ===== verification/PyValue.v ===== *)
(** * Dynamic Python values

    Event payloads, tool and scope declarations and provider messages are untyped
    dictionaries in the source.  [value] is the universe they live in, with the
    built-in operations the modelled code applies to them: truth testing,
    [isinstance], hashing, [.get], subscripting, [repr]. *)

From stdpp Require Import base gmap strings list pretty.
From Stdlib Require Import ZArith QArith Ascii.
From S2P Require Import Prelude.

Local Open Scope string_scope.

Unset Elimination Schemes.
Inductive value : Type :=
| VNone
| VBool (b : bool)
| VInt (z : Z)
| VFloat (q : Q)
| VStr (s : string)
| VList (l : list value)
| VDict (d : list (string * value)).
Set Elimination Schemes.

Section ValueInd.
Variable P : value → Prop.
Hypothesis HNone : P VNone.
Hypothesis HBool : ∀ b, P (VBool b).
Hypothesis HInt : ∀ z, P (VInt z).
Hypothesis HFloat : ∀ q, P (VFloat q).
Hypothesis HStr : ∀ s, P (VStr s).
Hypothesis HList : ∀ l, Forall P l → P (VList l).
Hypothesis HDict : ∀ d, Forall (λ kv, P kv.2) d → P (VDict d).

Fixpoint value_ind (v : value) : P v :=
  match v with
  | VNone => HNone
  | VBool b => HBool b
  | VInt z => HInt z
  | VFloat q => HFloat q
  | VStr s => HStr s
  | VList l => HList l
      ((fix go l : Forall P l :=
          match l with
          | [] => Forall_nil_2 P
          | x :: l' => Forall_cons_2 P x l' (value_ind x) (go l')
          end) l)
  | VDict d => HDict d
      ((fix go d : Forall (λ kv, P kv.2) d :=
          match d with
          | [] => Forall_nil_2 _
          | kv :: d' => Forall_cons_2 _ kv d' (value_ind kv.2) (go d')
          end) d)
  end.
End ValueInd.

(** [type(v).__name__] *)
Definition type_name (v : value) : string :=
  match v with
  | VNone => "NoneType" | VBool _ => "bool" | VInt _ => "int" | VFloat _ => "float"
  | VStr _ => "str" | VList _ => "list" | VDict _ => "dict"
  end.

(** [bool(v)] *)
Definition truthy (v : value) : bool :=
  match v with
  | VNone => false
  | VBool b => b
  | VInt z => negb (z =? 0)%Z
  | VFloat q => negb (Qnum q =? 0)%Z
  | VStr s => nonempty s
  | VList l => match l with [] => false | _ => true end
  | VDict d => match d with [] => false | _ => true end
  end.

(** [hash(v)] succeeds *)
Definition hashable (v : value) : bool :=
  match v with VList _ | VDict _ => false | _ => true end.

Definition is_str (v : value) : bool := match v with VStr _ => true | _ => false end.
Definition is_dict (v : value) : bool := match v with VDict _ => true | _ => false end.
Definition is_list (v : value) : bool := match v with VList _ => true | _ => false end.
Definition is_none (v : value) : bool := match v with VNone => true | _ => false end.
(** [isinstance(v, str) and v] *)
Definition is_nonempty_str (v : value) : bool :=
  match v with VStr s => nonempty s | _ => false end.
Definition as_str (v : value) : option string :=
  match v with VStr s => Some s | _ => None end.

(** [v == "s"] *)
Definition veq_str (v : value) (s : string) : bool :=
  match v with VStr s' => bool_decide (s' = s) | _ => false end.

Definition opt_or_none (o : option value) : value := default VNone o.

(** [v.get(k)] and [v.get(k, dflt)]: an [AttributeError] unless [v] is a dict. *)
Definition py_get_or (v : value) (k : string) (dflt : value) : res value :=
  match v with
  | VDict d => Ok (default dflt (dget k d))
  | _ => Raise (Exn AttributeError ("'" +:+ type_name v +:+ "' object has no attribute 'get'"))
  end.
Definition py_get (v : value) (k : string) : res value := py_get_or v k VNone.

(** [v in S] for a set or dict of strings: hashing [v] may fail. *)
Definition py_in (v : value) (names : list string) : res bool :=
  if hashable v
  then Ok (match v with VStr s => bool_decide (s ∈ names) | _ => false end)
  else Raise (Exn TypeError ("unhashable type: '" +:+ type_name v +:+ "'")).

(** *** [repr] *)

Definition ascii_quote : ascii := "'"%char.
Definition ascii_dquote : ascii := Ascii.ascii_of_nat 34.

Fixpoint str_has (c : ascii) (s : string) : bool :=
  match s with EmptyString => false | String a s' => bool_decide (a = c) || str_has c s' end.

Definition hex_digit (n : nat) : string :=
  match n with
  | 0 => "0" | 1 => "1" | 2 => "2" | 3 => "3" | 4 => "4" | 5 => "5" | 6 => "6" | 7 => "7"
  | 8 => "8" | 9 => "9" | 10 => "a" | 11 => "b" | 12 => "c" | 13 => "d" | 14 => "e" | _ => "f"
  end%nat.

Definition repr_char (q : ascii) (c : ascii) : string :=
  let n := Ascii.nat_of_ascii c in
  if bool_decide (c = q) || (n =? 92)%nat then String "\"%char (String c EmptyString)
  else if (n =? 10)%nat then "\n" else if (n =? 13)%nat then "\r"
  else if (n =? 9)%nat then "\t"
  else if (n <? 32)%nat || (n =? 127)%nat
  then "\x" +:+ hex_digit (n / 16) +:+ hex_digit (n mod 16)
  else String c EmptyString.

Fixpoint repr_body (q : ascii) (s : string) : string :=
  match s with EmptyString => "" | String c s' => repr_char q c +:+ repr_body q s' end.

Definition repr_str (s : string) : string :=
  let q := if str_has ascii_quote s && negb (str_has ascii_dquote s)
           then ascii_dquote else ascii_quote in
  String q (repr_body q s +:+ String q EmptyString).

Fixpoint str_join (sep : string) (l : list string) : string :=
  match l with
  | [] => ""
  | [x] => x
  | x :: l' => x +:+ sep +:+ str_join sep l'
  end.

Fixpoint repr (v : value) : string :=
  match v with
  | VNone => "None"
  | VBool true => "True"
  | VBool false => "False"
  | VInt z => pretty z
  | VFloat q => pretty (Qnum q) +:+ "/" +:+ pretty (Z.pos (Qden q))
  | VStr s => repr_str s
  | VList l => "[" +:+ str_join ", " (map repr l) +:+ "]"
  | VDict d => "{" +:+ str_join ", "
                 (map (λ kv, repr_str kv.1 +:+ ": " +:+ repr kv.2) d) +:+ "}"
  end.

(** [v[k]] for a string key *)
Definition py_index (v : value) (k : string) : res value :=
  match v with
  | VDict d => match dget k d with
               | Some x => Ok x
               | None => Raise (Exn KeyError (repr_str k))
               end
  | VList _ => Raise (Exn TypeError "list indices must be integers or slices, not str")
  | VStr _ => Raise (Exn TypeError "string indices must be integers, not 'str'")
  | _ => Raise (Exn TypeError ("'" +:+ type_name v +:+ "' object is not subscriptable"))
  end.

(** [v[k] = x]: item assignment on a dict. *)
Definition vset (k : string) (x v : value) : value :=
  match v with VDict d => VDict (dset k x d) | _ => v end.

(** A dict literal with string values for the common case. *)
Definition vget (v : value) (k : string) : option value :=
  match v with VDict d => dget k d | _ => None end.

(** *** Characters and white space *)

(** The bytes of one code point together: [list(s)] on a string. *)
Definition utf8_cont (c : Ascii.ascii) : bool :=
  let n := Ascii.nat_of_ascii c in (128 <=? n)%nat && (n <? 192)%nat.
Definition starts_cont (s : string) : bool :=
  match s with String c _ => utf8_cont c | EmptyString => false end.
Fixpoint utf8_chars (s : string) : list string :=
  match s with
  | EmptyString => []
  | String c s' =>
      match utf8_chars s' with
      | x :: rest => if starts_cont s' then String c x :: rest
                     else String c EmptyString :: x :: rest
      | [] => [String c EmptyString]
      end
  end.

(** [s.strip()]: the white space of Unicode, in UTF-8. *)
Definition byte_str (l : list nat) : string :=
  fold_right (λ n s, String (Ascii.ascii_of_nat n) s) EmptyString l.
Definition WHITESPACE : list string :=
  map byte_str
    ([[9]; [10]; [11]; [12]; [13]; [28]; [29]; [30]; [31]; [32];
      [194; 133]; [194; 160]; [225; 154; 128]] ++
     map (λ n, [226; 128; n]) (seq 128 11) ++
     [[226; 128; 168]; [226; 128; 169]; [226; 128; 175]; [226; 129; 159]; [227; 128; 128]])%nat%list.
Fixpoint lstrip (l : list string) : list string :=
  match l with
  | [] => []
  | c :: l' => if bool_decide (c ∈ WHITESPACE) then lstrip l' else l
  end.
Definition strip (s : string) : string :=
  fold_right String.append "" (rev (lstrip (rev (lstrip (utf8_chars s))))).

(** A number: [isinstance(v, (int, float))], booleans included. *)
Definition as_number (v : value) : option Q :=
  match v with
  | VBool b => Some (if b then 1 else 0)%Q
  | VInt z => Some (inject_Z z)
  | VFloat q => Some q
  | _ => None
  end.

(** [v == w]: numbers of different types compare by value. *)
Fixpoint py_eq (v w : value) : bool :=
  match v, w with
  | VNone, VNone => true
  | VStr s, VStr t => bool_decide (s = t)
  | VList l, VList l' =>
      (fix go l l' := match l, l' with
                      | [], [] => true
                      | x :: l, y :: l' => py_eq x y && go l l'
                      | _, _ => false
                      end) l l'
  | VDict d, VDict d' =>
      (length d =? length d')%nat &&
      forallb (λ kv, match dget kv.1 d' with Some y => py_eq kv.2 y | None => false end) d
  | _, _ => match as_number v, as_number w with
            | Some p, Some q => Qeq_bool p q
            | _, _ => false
            end
  end.

(** ** Lemmas *)

Lemma py_get_ok v k r : py_get v k = Ok r ↔ ∃ d, v = VDict d ∧ r = default VNone (dget k d).
Proof. unfold py_get, py_get_or. destruct v; naive_solver. Qed.

Lemma py_get_dict d k : py_get (VDict d) k = Ok (default VNone (dget k d)).
Proof. done. Qed.

Lemma vget_vset_eq k x d : vget (vset k x (VDict d)) k = Some x.
Proof. apply dget_dset_eq. Qed.
Lemma vget_vset_ne k k' x v : k' ≠ k → vget (vset k x v) k' = vget v k'.
Proof. intros. destruct v; simpl; try done. by apply dget_dset_ne. Qed.

Lemma is_nonempty_str_true v : is_nonempty_str v = true ↔ ∃ s, v = VStr s ∧ s ≠ "".
Proof.
  destruct v; simpl; try naive_solver. unfold nonempty.
  rewrite negb_true_iff, bool_decide_eq_false. naive_solver.
Qed.
Lemma veq_str_true v s : veq_str v s = true ↔ v = VStr s.
Proof.
  destruct v; simpl; try naive_solver. rewrite bool_decide_eq_true. naive_solver.
Qed.
Lemma py_in_true v l : py_in v l = Ok true ↔ ∃ s, v = VStr s ∧ s ∈ l.
Proof.
  unfold py_in. destruct v; simpl; try naive_solver.
  split; [intros [= H%bool_decide_eq_true]; eauto|].
  intros (?&[= <-]&?). by rewrite bool_decide_eq_true_2.
Qed.

(** ** Bytes *)

Local Open Scope nat_scope.

(** [bytes.decode("utf-8", "replace")]: a partial sequence is the bytes read of it, the
    range of the next byte and how many are missing; U+FFFD stands for one that breaks. *)
Definition in_range (lo hi : nat) (b : Ascii.ascii) : bool :=
  let n := Ascii.nat_of_ascii b in (lo <=? n) && (n <=? hi).
Definition FFFD : string :=
  String (Ascii.ascii_of_nat 239) (String (Ascii.ascii_of_nat 191) (String (Ascii.ascii_of_nat 189) EmptyString)).

Record partial := Partial { pt_seen : string; pt_lo : nat; pt_hi : nat; pt_missing : nat }.

Definition lead_byte (b : Ascii.ascii) : option partial :=
  let start lo hi n := Some (Partial (String b EmptyString) lo hi n) in
  if in_range 194 223 b then start 128 191 1
  else if in_range 224 224 b then start 160 191 2
  else if in_range 225 236 b then start 128 191 2
  else if in_range 237 237 b then start 128 159 2
  else if in_range 238 239 b then start 128 191 2
  else if in_range 240 240 b then start 144 191 3
  else if in_range 241 243 b then start 128 191 3
  else if in_range 244 244 b then start 128 143 3
  else None.

Definition decode_start (b : Ascii.ascii) : string * option partial :=
  if in_range 0 127 b then (String b EmptyString, None)
  else match lead_byte b with Some p => ("", Some p) | None => (FFFD, None) end.

Definition decode_byte (st : option partial) (b : Ascii.ascii) : string * option partial :=
  match st with
  | None => decode_start b
  | Some p =>
      if in_range (pt_lo p) (pt_hi p) b then
        let seen := pt_seen p +:+ String b EmptyString in
        match pt_missing p with
        | S (S n) => ("", Some (Partial seen 128 191 (S n)))
        | _ => (seen, None)
        end
      else let '(s, st') := decode_start b in (FFFD +:+ s, st')
  end.

Fixpoint decode_from (st : option partial) (l : list Ascii.ascii) : string :=
  match l with
  | [] => match st with None => "" | Some _ => FFFD end
  | b :: l' => let '(s, st') := decode_byte st b in s +:+ decode_from st' l'
  end.
Definition decode (l : list Ascii.ascii) : string := decode_from None l.
