(* ===== verification/EventProtocol.v ===== *)
(** * Events and their validation (kernel/event_protocol.py, kernel/event_validator.py)

    An event is a dict [(source, target, kind, payload)].  The kernel accepts an
    event when every rule of its rule list accepts it; a rule rejects with an
    [EventError], and may itself fail with another exception on a value it does
    not expect, which the rules do not catch. *)

From stdpp Require Import base gmap strings list.
From S2P Require Import Prelude PyValue.

Local Open Scope string_scope.

(** The sentinel of a legal silent reply. *)
Definition VOID : value := VStr "VOID".

(** [{source, target, kind, payload}] literals, in the key order of the sources. *)
Definition mk_event (source target kind : string) (payload : value) : value :=
  VDict [("source", VStr source); ("target", VStr target); ("kind", VStr kind);
         ("payload", payload)].
(** A reply, without a source: the host stamps it. *)
Definition mk_reply (target : value) (kind : string) (payload : value) : value :=
  VDict [("target", target); ("kind", VStr kind); ("payload", payload)].

Definition SYSTEM_COMMANDS : list string :=
  ["terminate"; "install_device"; "uninstall_device"; "grant_scope"; "revoke_scope"].
Definition KERNEL_COMMANDS : list string :=
  ["install_device"; "uninstall_device"; "grant_scope"; "revoke_scope"].
Definition KIND_LEVELS : list string := ["system"; "application"].

(** [sorted(names)] as it is printed by an f-string. *)
Definition sorted_repr (names : list string) : string :=
  repr (VList (map VStr (py_sorted String.leb names))).

(** The rule classes; the last two hold the registry they consult. *)
Inductive rule :=
| IsDict | HasSource | HasTarget | KnownKind | SystemCommand
| SourceRegistered (registry : list string)
| TargetRegistered (registry : list string).

Definition event_error (msg : string) : res () := Raise (Exn EventError msg).

Definition validate_IsDict (event : value) : res () :=
  if is_dict event then Ok ()
  else event_error ("事件必须是 dict，got " +:+ type_name event).

Definition validate_HasSource (event : value) : res () :=
  source ← py_get event "source";
  if is_nonempty_str source then Ok ()
  else event_error ("source 必须是非空字符串，got " +:+ repr source).

Definition validate_HasTarget (event : value) : res () :=
  target ← py_get event "target";
  if is_nonempty_str target then Ok ()
  else event_error ("target 必须是非空字符串，got " +:+ repr target).

Definition validate_KnownKind (event : value) : res () :=
  kind ← py_get event "kind";
  known ← py_in kind KIND_LEVELS;
  if (known : bool) then Ok ()
  else event_error ("未知 kind 层级: " +:+ repr kind +:+ "（合法: "
                    +:+ sorted_repr KIND_LEVELS +:+ "）").

Definition validate_SystemCommand (event : value) : res () :=
  kind ← py_get event "kind";
  if negb (veq_str kind "system") then Ok () else
  payload ← py_get_or event "payload" (VDict []);
  command ← py_get payload "command";
  known ← py_in command SYSTEM_COMMANDS;
  if negb known
  then event_error ("未知 system command: " +:+ repr command +:+ "（合法: "
                    +:+ sorted_repr SYSTEM_COMMANDS +:+ "）")
  else
    kernel_only ← py_in command KERNEL_COMMANDS;
    target ← py_get event "target";
    if kernel_only && negb (veq_str target "kernel")
    then event_error ("系统命令 " +:+ repr command +:+ " 仅可寻址 kernel，got " +:+ repr target)
    else Ok ().

Definition validate_SourceRegistered (registry : list string) (event : value) : res () :=
  source ← py_get event "source";
  known ← py_in source registry;
  if (known : bool) then Ok () else event_error ("source 未注册: " +:+ repr source).

Definition validate_TargetRegistered (registry : list string) (event : value) : res () :=
  target ← py_get event "target";
  known ← py_in target registry;
  if (known : bool) then Ok () else event_error ("target 未注册: " +:+ repr target).

Definition rule_validate (r : rule) (event : value) : res () :=
  match r with
  | IsDict => validate_IsDict event
  | HasSource => validate_HasSource event
  | HasTarget => validate_HasTarget event
  | KnownKind => validate_KnownKind event
  | SystemCommand => validate_SystemCommand event
  | SourceRegistered reg => validate_SourceRegistered reg event
  | TargetRegistered reg => validate_TargetRegistered reg event
  end.

Definition DEFAULT_RULES : list rule :=
  [IsDict; HasSource; HasTarget; KnownKind; SystemCommand].

Fixpoint run_rules (rules : list rule) (event : value) : res () :=
  match rules with
  | [] => Ok ()
  | r :: rs => _ ← rule_validate r event; run_rules rs event
  end.

(** [validate_event(event, rules)]: an empty rule list means the default one. *)
Definition validate_event (event : value) (rules : list rule) : res value :=
  _ ← run_rules (match rules with [] => DEFAULT_RULES | _ => rules end) event;
  Ok event.

(** The rule list of the kernel (AgentOS.__init__). *)
Definition kernel_rules (registry : list string) : list rule :=
  DEFAULT_RULES ++ [SourceRegistered registry; TargetRegistered registry].

(** ** What the kernel's rules accept *)

(** The addressing part of a well-formed event. *)
Definition well_addressed (registry : list string) (d : dict value) : Prop :=
  ∃ s t, dget "source" d = Some (VStr s) ∧ s ≠ "" ∧ s ∈ registry ∧
         dget "target" d = Some (VStr t) ∧ t ≠ "" ∧ t ∈ registry.

(** The command part: a system event carries a known command, and all of those but
    [terminate] address the kernel. *)
Definition well_commanded (d : dict value) : Prop :=
  dget "kind" d = Some (VStr "application") ∨
  (dget "kind" d = Some (VStr "system") ∧
   ∃ p c, dget "payload" d = Some (VDict p) ∧ dget "command" p = Some (VStr c) ∧
          c ∈ SYSTEM_COMMANDS ∧
          (c ∈ KERNEL_COMMANDS → dget "target" d = Some (VStr "kernel"))).

Definition raises_only_event_error (r : res value) : Prop :=
  match r with Ok _ => True | Raise e => exn_cls e = EventError end.

(** ** Lemmas *)

Lemma default_str (o : option value) (s : string) : default VNone o = VStr s → o = Some (VStr s).
Proof. destruct o; naive_solver. Qed.

Lemma bind_ok {A B} (m : res A) (f : A → res B) b :
  (m ≫= f) = Ok b ↔ ∃ a, m = Ok a ∧ f a = Ok b.
Proof. destruct m; simpl; naive_solver. Qed.

Lemma validate_HasSource_ok d :
  validate_HasSource (VDict d) = Ok () ↔ ∃ s, dget "source" d = Some (VStr s) ∧ s ≠ "".
Proof.
  unfold validate_HasSource. simpl. destruct (is_nonempty_str _) eqn:E.
  - apply is_nonempty_str_true in E as (s & Hs & ?). apply default_str in Hs. naive_solver.
  - split; [done|]. intros (s & Hs & Hne).
    rewrite Hs in E. simpl in E. unfold nonempty in E.
    rewrite negb_false_iff, bool_decide_eq_true in E. done.
Qed.
Lemma validate_HasTarget_ok d :
  validate_HasTarget (VDict d) = Ok () ↔ ∃ s, dget "target" d = Some (VStr s) ∧ s ≠ "".
Proof.
  unfold validate_HasTarget. simpl. destruct (is_nonempty_str _) eqn:E.
  - apply is_nonempty_str_true in E as (s & Hs & ?). apply default_str in Hs. naive_solver.
  - split; [done|]. intros (s & Hs & Hne).
    rewrite Hs in E. simpl in E. unfold nonempty in E.
    rewrite negb_false_iff, bool_decide_eq_true in E. done.
Qed.
Lemma validate_registered_ok k reg d (msg : value → string) :
  (x ← py_get (VDict d) k; known ← py_in x reg;
   if (known : bool) then Ok () else event_error (msg x)) = Ok () ↔
  ∃ s, dget k d = Some (VStr s) ∧ s ∈ reg.
Proof.
  simpl. split.
  - intros ([|] & Hin & ?)%bind_ok; [|done].
    apply py_in_true in Hin as (s & Hs & ?). apply default_str in Hs. eauto.
  - intros (s & -> & Hin). simpl. unfold py_in. simpl.
    by rewrite bool_decide_eq_true_2.
Qed.
Lemma validate_KnownKind_ok d :
  validate_KnownKind (VDict d) = Ok () ↔
  dget "kind" d = Some (VStr "system") ∨ dget "kind" d = Some (VStr "application").
Proof.
  unfold validate_KnownKind.
  rewrite (validate_registered_ok "kind" KIND_LEVELS d (λ kind,
    "未知 kind 层级: " +:+ repr kind +:+ "（合法: " +:+ sorted_repr KIND_LEVELS +:+ "）")).
  unfold KIND_LEVELS. set_solver.
Qed.

Lemma validate_SystemCommand_app d :
  dget "kind" d = Some (VStr "application") → validate_SystemCommand (VDict d) = Ok ().
Proof. intros Hk. unfold validate_SystemCommand. simpl. by rewrite Hk. Qed.

Lemma validate_SystemCommand_sys d :
  dget "kind" d = Some (VStr "system") →
  validate_SystemCommand (VDict d) = Ok () ↔
  ∃ p c, dget "payload" d = Some (VDict p) ∧ dget "command" p = Some (VStr c) ∧
         c ∈ SYSTEM_COMMANDS ∧
         (c ∈ KERNEL_COMMANDS → dget "target" d = Some (VStr "kernel")).
Proof.
  intros Hk. unfold validate_SystemCommand. simpl. rewrite Hk. simpl.
  split.
  - intros (cmd & Hc & (known & Hin & H)%bind_ok)%bind_ok.
    destruct known; simpl in H; [|done].
    apply py_in_true in Hin as (c & -> & Hin).
    apply py_get_ok in Hc as (p & Hp & Hc). symmetry in Hc. apply default_str in Hc.
    exists p, c. destruct (dget "payload" d) as [pl|] eqn:Epl; simpl in Hp; simplify_eq.
    split_and!; [done..|]. intros HK.
    unfold py_in in H. simpl in H. rewrite (bool_decide_eq_true_2 (c ∈ KERNEL_COMMANDS)) in H by done.
    simpl in H. destruct (veq_str _ "kernel") eqn:Et; simpl in H; [|done].
    apply veq_str_true in Et. by apply default_str in Et.
  - intros (p & c & -> & Hc & Hin & Ht). simpl. rewrite Hc. simpl. unfold py_in. simpl.
    rewrite bool_decide_eq_true_2 by done. simpl.
    destruct (bool_decide_reflect (c ∈ KERNEL_COMMANDS)) as [HK|]; simpl; [|done].
    rewrite (Ht HK). done.
Qed.

Lemma validate_SystemCommand_ok d :
  validate_KnownKind (VDict d) = Ok () →
  validate_SystemCommand (VDict d) = Ok () ↔ well_commanded d.
Proof.
  intros [Hk|Hk]%validate_KnownKind_ok; unfold well_commanded.
  - rewrite validate_SystemCommand_sys by done. naive_solver.
  - rewrite validate_SystemCommand_app by done. naive_solver.
Qed.

Lemma run_rules_cons r rs e :
  run_rules (r :: rs) e = Ok () ↔ rule_validate r e = Ok () ∧ run_rules rs e = Ok ().
Proof.
  simpl. rewrite bind_ok. split; [intros ([] & ? & ?); done|]. intros [? ?]. by exists ().
Qed.

Lemma run_rules_raise r rs e ex :
  run_rules (r :: rs) e = Raise ex ↔
  rule_validate r e = Raise ex ∨ (rule_validate r e = Ok () ∧ run_rules rs e = Raise ex).
Proof. simpl. destruct (rule_validate r e) as [[]|]; simpl; naive_solver. Qed.

Lemma validate_event_raise e rs ex :
  rs ≠ [] → validate_event e rs = Raise ex ↔ run_rules rs e = Raise ex.
Proof.
  intros. unfold validate_event. destruct rs; [done|].
  destruct (run_rules _ e) as [[]|]; simpl; naive_solver.
Qed.

Lemma validate_event_rules e rs v :
  rs ≠ [] → validate_event e rs = Ok v ↔ v = e ∧ run_rules rs e = Ok ().
Proof.
  intros Hne. unfold validate_event. rewrite bind_ok. destruct rs; [done|].
  split; [intros ([] & ? & [= ->]); done|intros [-> ?]; by exists ()].
Qed.

(** An event the rules fail on with an exception of their own. *)
Definition escapes_validation (d : dict value) : Prop :=
  (∃ k, dget "kind" d = Some k ∧ hashable k = false) ∨
  (dget "kind" d = Some (VStr "system") ∧
   ∃ p, dget "payload" d = Some p ∧
        (is_dict p = false ∨
         ∃ c, vget p "command" = Some c ∧ hashable c = false)).

Lemma py_in_hashable v l : hashable v = true → ∃ b, py_in v l = Ok b.
Proof. intros H. unfold py_in. rewrite H. eauto. Qed.

Lemma KnownKind_raise d ex :
  validate_KnownKind (VDict d) = Raise ex →
  (exn_cls ex = EventError ∧ ∃ k, default VNone (dget "kind" d) = k ∧ hashable k = true) ∨
  (exn_cls ex ≠ EventError ∧ ∃ k, dget "kind" d = Some k ∧ hashable k = false).
Proof.
  unfold validate_KnownKind, event_error. simpl. unfold py_in.
  destruct (hashable (default VNone (dget "kind" d))) eqn:Hh; simpl.
  - intros H. left. split; [|eauto]. repeat (case_match; simplify_eq/=; try done).
  - intros [= <-]. right. split; [done|].
    destruct (dget "kind" d); naive_solver.
Qed.

Lemma SystemCommand_raise d ex :
  validate_SystemCommand (VDict d) = Raise ex →
  exn_cls ex ≠ EventError ↔
  (dget "kind" d = Some (VStr "system") ∧
   ∃ p, dget "payload" d = Some p ∧
        (is_dict p = false ∨ ∃ c, vget p "command" = Some c ∧ hashable c = false)).
Proof.
  unfold validate_SystemCommand, event_error. simpl.
  destruct (veq_str (default VNone (dget "kind" d)) "system") eqn:Ek; simpl; [|done].
  apply veq_str_true, default_str in Ek.
  destruct (dget "payload" d) as [p|] eqn:Ep; simpl; [|intros [= <-]; naive_solver].
  destruct p as [| | | | | |pd]; simpl; try (intros [= <-]; naive_solver).
  unfold py_in. destruct (hashable (default VNone (dget "command" pd))) eqn:Hh; simpl.
  - intros Hr. split; intros Hx.
    + exfalso. apply Hx. repeat (case_match; simplify_eq/=; try done).
    + destruct Hx as (_ & p & [= <-] & [Hp|(c & Hc & Hu)]); simplify_eq/=.
      rewrite Hc in Hh. simpl in Hh. congruence.
  - intros [= <-]. split; [|done]. intros _. split; [done|].
    exists (VDict pd). split; [done|]. right. simpl.
    destruct (dget "command" pd); naive_solver.
Qed.

Lemma HasSource_raise d ex : validate_HasSource (VDict d) = Raise ex → exn_cls ex = EventError.
Proof. unfold validate_HasSource, event_error. simpl. case_match; naive_solver. Qed.
Lemma HasTarget_raise d ex : validate_HasTarget (VDict d) = Raise ex → exn_cls ex = EventError.
Proof. unfold validate_HasTarget, event_error. simpl. case_match; naive_solver. Qed.
Lemma registered_raise k reg d s (msg : value → string) ex :
  dget k d = Some (VStr s) →
  (x ← py_get (VDict d) k; known ← py_in x reg;
   if (known : bool) then Ok () else event_error (msg x)) = Raise ex →
  exn_cls ex = EventError.
Proof. intros Hs. unfold event_error. simpl. rewrite Hs. simpl. case_match; naive_solver. Qed.

(** The rules after the shape checks, on an event whose source and target are strings. *)
Lemma tail_rules_escape registry d s t ex :
  dget "source" d = Some (VStr s) → dget "target" d = Some (VStr t) →
  run_rules [KnownKind; SystemCommand; SourceRegistered registry; TargetRegistered registry]
    (VDict d) = Raise ex →
  exn_cls ex ≠ EventError → escapes_validation d.
Proof.
  intros Hs Ht. rewrite !run_rules_raise. cbn [rule_validate].
  intros [H|[_ [H|[_ [H|[_ [H|[_ H]]]]]]]] Hne.
  - left. apply KnownKind_raise in H. naive_solver.
  - right. by apply (SystemCommand_raise d ex).
  - by eapply (registered_raise "source") in H.
  - by eapply (registered_raise "target") in H.
  - done.
Qed.
Lemma escapes_raises registry d :
  escapes_validation d →
  ∃ ex, run_rules [KnownKind; SystemCommand; SourceRegistered registry; TargetRegistered registry]
          (VDict d) = Raise ex ∧ exn_cls ex ≠ EventError.
Proof.
  intros [(k & Hk & Hh)|(Hk & p & Hp & Hc)].
  - eexists. rewrite run_rules_raise. cbn [rule_validate]. split; [left|].
    + unfold validate_KnownKind. simpl. rewrite Hk. simpl. unfold py_in. by rewrite Hh.
    + done.
  - destruct (validate_SystemCommand (VDict d)) as [[]|ex] eqn:E.
    + apply validate_SystemCommand_sys in E as (p' & c & Hp' & Hc' & _); [|done].
      simplify_eq. simpl in Hc. destruct Hc as [|(c' & ? & ?)]; simplify_eq/=.
    + exists ex. split; [|apply (SystemCommand_raise d ex); naive_solver].
      rewrite !run_rules_raise. cbn [rule_validate]. right. split; [|by left].
      apply validate_KnownKind_ok. by left.
Qed.

(** ** Properties *)

(** The kernel's rule list accepts an event exactly when it is a dict whose source
    and target are non-empty strings naming registered entities, whose kind is one of
    the two levels, and which, when it is a system event, carries a known command that
    addresses the kernel unless it is [terminate]; the event is returned unchanged. *)
Theorem kernel_rules_accept_iff (registry : list string) (event v : value) :
  validate_event event (kernel_rules registry) = Ok v ↔
  v = event ∧ ∃ d, event = VDict d ∧ well_addressed registry d ∧ well_commanded d.
Proof.
  rewrite validate_event_rules by done. unfold kernel_rules, DEFAULT_RULES.
  cbn [app]. rewrite !run_rules_cons. cbn [rule_validate].
  destruct event as [| | | | | |d]; try (simpl; naive_solver).
  unfold validate_SourceRegistered, validate_TargetRegistered.
  rewrite !(validate_registered_ok _ _ _ (λ x, _)), validate_HasSource_ok, validate_HasTarget_ok.
  split.
  - intros (-> & _ & (s & Hs & ?) & (t & Ht & ?) & Hk & Hc & (s' & ? & ?) & (t' & ? & ?) & _).
    split; [done|]. exists d. split; [done|]. rewrite validate_SystemCommand_ok in Hc by done.
    simplify_eq. split; [|done]. exists s, t. done.
  - intros (-> & ? & [= <-] & (s & t & Hs & ? & ? & Ht & ? & ?) & Hc).
    assert (Hk : validate_KnownKind (VDict d) = Ok ()).
    { apply validate_KnownKind_ok. unfold well_commanded in Hc. naive_solver. }
    rewrite validate_SystemCommand_ok by done. split_and!; eauto.
Qed.

(** The rules fail with an exception that is not an [EventError] exactly on the
    events with non-empty string source and target that carry an unhashable kind, or
    that are system events whose payload is not a dict or whose command is unhashable;
    on every other event a rejection is an [EventError]. *)
Theorem kernel_rules_escape_iff (registry : list string) (event : value) :
  (∃ ex, validate_event event (kernel_rules registry) = Raise ex ∧ exn_cls ex ≠ EventError) ↔
  ∃ d s t, event = VDict d ∧ dget "source" d = Some (VStr s) ∧ s ≠ "" ∧
           dget "target" d = Some (VStr t) ∧ t ≠ "" ∧ escapes_validation d.
Proof.
  setoid_rewrite validate_event_raise; [|done]. unfold kernel_rules, DEFAULT_RULES. cbn [app].
  split.
  - intros (ex & H & Hne). destruct event as [| | | | | |d];
      try (by (apply run_rules_raise in H as [[= <-]|[? _]])).
    rewrite !(run_rules_raise IsDict), !(run_rules_raise HasSource),
      !(run_rules_raise HasTarget) in H. cbn [rule_validate] in H.
    destruct H as [?|[_ [H|[Hs [H|[Ht H]]]]]]; [done| | |].
    + by apply HasSource_raise in H.
    + by apply HasTarget_raise in H.
    + apply validate_HasSource_ok in Hs as (s & Hs & ?).
      apply validate_HasTarget_ok in Ht as (t & Ht & ?).
      exists d, s, t. split_and!; [done..|]. by eapply tail_rules_escape.
  - intros (d & s & t & -> & Hs & ? & Ht & ? & Hesc).
    destruct (escapes_raises registry d Hesc) as (ex & Hex & Hne).
    exists ex. split; [|done].
    rewrite !(run_rules_raise IsDict), !(run_rules_raise HasSource), !(run_rules_raise HasTarget).
    cbn [rule_validate]. right. split; [done|]. right.
    split; [apply validate_HasSource_ok; eauto|]. right.
    split; [apply validate_HasTarget_ok; eauto|done].
Qed.
