(* ===== verification/Authority.v ===== *)
(** * The Authority device (kernel/authority.py)

    The registry of identities and the authorisation store of the system: who is
    registered and at which position, which [(device, token)] scopes each position
    holds, and what was last injected into each agent.  Only the kernel may issue
    commands; every other source is refused. *)

From stdpp Require Import base gmap strings list.
From S2P Require Import Prelude PyValue EventProtocol.

Local Open Scope string_scope.

Definition ROOT_POSITION : string := "root".
Definition ORG_DEVICE : string := "org".

(** The entry of [_identities]: a device has no position. *)
Record info := Info {
  i_tools : list value;
  i_scopes : list value;
  i_agent : bool;
  i_position : option string
}.

(** [_grants] maps a position to the set of its [(device, token)] pairs; [_injected]
    maps an agent to its entries by name. *)
Record authority := mkAuthority {
  _identities : dict info;
  _grants : dict (gset (string * string));
  _injected : dict (dict value)
}.

Definition authority_init : authority := mkAuthority [] [] [].

Definition set_identities (f : dict info → dict info) (a : authority) : authority :=
  mkAuthority (f (_identities a)) (_grants a) (_injected a).
Definition set_grants (f : dict (gset (string * string)) → dict (gset (string * string)))
    (a : authority) : authority :=
  mkAuthority (_identities a) (f (_grants a)) (_injected a).
Definition set_injected (f : dict (dict value) → dict (dict value)) (a : authority) : authority :=
  mkAuthority (_identities a) (_grants a) (f (_injected a)).

(** [self._grants.get(position, set())] *)
Definition grants_of (a : authority) (p : string) : gset (string * string) :=
  default ∅ (dget p (_grants a)).

(** ** The commands, on typed arguments *)

Definition register_request (identity : string) (i : info) : authority → authority :=
  set_identities (dset identity i).

Definition drop_device (identity : string) (g : gset (string * string)) :
    gset (string * string) := filter (λ dt, dt.1 ≠ identity) g.

Definition unregister_request (identity : string) (a : authority) : authority :=
  set_grants (map (λ pg, (pg.1, drop_device identity pg.2)))
    (set_identities (dpop identity) a).

Definition grant_request (position device token : string) (a : authority) : authority :=
  set_grants (dset position ({[(device, token)]} ∪ grants_of a position)) a.

Definition revoke_request (position device token : string) (a : authority) : authority :=
  match dget position (_grants a) with
  | Some g => set_grants (dset position (g ∖ {[(device, token)]})) a
  | None => a
  end.

Definition device_grants (identity : string) (a : authority) : list (string * string) :=
  flat_map (λ pg, map (λ dt, (pg.1, dt.2))
                    (List.filter (λ dt, bool_decide (dt.1 = identity)) (elements pg.2)))
    (_grants a).

Definition position_of (a : authority) (identity : string) : option string :=
  match dget identity (_identities a) with Some i => i_position i | None => None end.

Definition _authorized (a : authority) (identity scope : string) : bool :=
  match position_of a identity with
  | Some p => bool_decide (p = ROOT_POSITION) ||
              (nonempty p && bool_decide ((ORG_DEVICE, scope) ∈ grants_of a p))
  | None => false
  end.

Definition scope_value (dt : string * string) : value :=
  VDict [("device", VStr dt.1); ("token", VStr dt.2)].

(** The scopes of a caller, sorted. *)
Definition scopes_of (a : authority) (identity : string) : list (string * string) :=
  match position_of a identity with
  | Some p => py_sorted pair_leb (elements (grants_of a p))
  | None => []
  end.

Definition opt_str (o : option string) : value :=
  match o with Some s => VStr s | None => VNone end.

Definition _auth_context (a : authority) (identity : string) : value :=
  VDict [("position", opt_str (position_of a identity));
         ("scopes", VList (map scope_value (scopes_of a identity)))].

Definition agents_request (a : authority) : list string :=
  map fst (List.filter (λ ii, i_agent ii.2) (_identities a)).

(** ** Injection *)

(** [list(v)] *)
Definition py_list (v : value) : res (list value) :=
  match v with
  | VList l => Ok l
  | VStr s => Ok (map VStr (utf8_chars s))
  | VDict d => Ok (map VStr (dkeys d))
  | _ => Raise (Exn TypeError ("'" +:+ type_name v +:+ "' object is not iterable"))
  end.

(** [v or dflt] *)
Definition py_or (v dflt : value) : value := if truthy v then v else dflt.

(** A dict key or a name is a string in the model; other values are refused. *)
Definition need_str (v : value) : res string :=
  match v with
  | VStr s => Ok s
  | _ => Raise (Exn TypeError ("unhashable type: '" +:+ type_name v +:+ "'"))
  end.

Definition _entry (device_id : string) (tool : value) : res value :=
  name ← (v ← py_index tool "name"; need_str v);
  description ← py_get_or tool "description" (VStr "");
  parameters ← py_get_or tool "parameters" (VDict []);
  trigger ← (v ← py_get tool "trigger"; py_list (py_or v (VList [])));
  priority ← py_get_or tool "priority" (VInt 10);
  Ok (VDict [
    ("entry_id", VStr ("tool:" +:+ device_id +:+ ":" +:+ name));
    ("type", VStr "tool");
    ("content", VDict [("name", VStr name); ("description", description);
                       ("parameters", parameters)]);
    ("trigger", VList trigger);
    ("priority", priority);
    ("associated", VList [VStr device_id]);
    ("version", VInt 1); ("links", VList []); ("deleted_at", VNone)]).

Definition perm_name (device_id token : string) : string := device_id +:+ ":" +:+ token.

Definition _perm_entry (device_id : string) (scope : value) : res value :=
  token ← (v ← py_index scope "token"; need_str v);
  description ← py_get_or scope "explanation" (VStr "");
  Ok (VDict [
    ("entry_id", VStr ("perm:" +:+ device_id +:+ ":" +:+ token));
    ("type", VStr "skill");
    ("content", VDict [("name", VStr (perm_name device_id token)); ("description", description);
                       ("parameters", VDict [])]);
    ("trigger", VList []);
    ("priority", VInt 10);
    ("associated", VList [VStr device_id]);
    ("version", VInt 1); ("links", VList []); ("deleted_at", VNone)]).

(** [by_device]: the granted tokens by device. *)
Definition by_device (grants : gset (string * string)) : dict (list string) :=
  fold_left (λ (d : dict (list string)) (dt : string * string), dset dt.1 (default [] (dget dt.1 d) ++ [dt.2])%list d) (elements grants) [].

Fixpoint add_tools (dev_id : string) (tools : list value) (new : dict value) : res (dict value) :=
  match tools with
  | [] => Ok new
  | tool :: rest =>
      e ← _entry dev_id tool;
      name ← (v ← py_index tool "name"; need_str v);
      add_tools dev_id rest (dset name e new)
  end.

Fixpoint tool_entries (bd : dict (list string)) (ids : dict info) (new : dict value) :
    res (dict value) :=
  match ids with
  | [] => Ok new
  | (dev_id, dev) :: rest =>
      if i_agent dev || negb (dmem dev_id bd) then tool_entries bd rest new
      else new' ← add_tools dev_id (i_tools dev) new; tool_entries bd rest new'
  end.

Fixpoint add_scopes (dev_id : string) (granted : list string) (scopes : list value)
    (new : dict value) : res (dict value) :=
  match scopes with
  | [] => Ok new
  | scope :: rest =>
      token ← py_index scope "token";
      if existsb (veq_str token) granted
      then e ← _perm_entry dev_id scope;
           t ← need_str token;
           add_scopes dev_id granted rest (dset (perm_name dev_id t) e new)
      else add_scopes dev_id granted rest new
  end.

Fixpoint skill_entries (bd : dict (list string)) (ids : dict info) (devs : list string)
    (new : dict value) : res (dict value) :=
  match devs with
  | [] => Ok new
  | dev_id :: rest =>
      match dget dev_id ids with
      | Some dev =>
          if i_agent dev then skill_entries bd ids rest new
          else new' ← add_scopes dev_id (default [] (dget dev_id bd)) (i_scopes dev) new;
               skill_entries bd ids rest new'
      | None => skill_entries bd ids rest new
      end
  end.

(** The entries an agent at position [p] may see. *)
Definition visible_entries (a : authority) (p : option string) : res (dict value) :=
  let grants := match p with Some p => grants_of a p | None => ∅ end in
  let bd := by_device grants in
  new ← tool_entries bd (_identities a) [];
  skill_entries bd (_identities a) (py_sorted String.leb (dkeys bd)) new.

Definition inject_event (agent : string) (entries : list value) (evict : list string) : value :=
  mk_reply (VStr agent) "application"
    (VDict [("command", VStr "inject"); ("entries", VList entries);
            ("evict", VList (map VStr evict))]).

Definition _build_inject (agent : string) : M authority value := λ a,
  match dget agent (_identities a) with
  | None => (Raise (Exn KeyError (repr_str agent)), a)
  | Some i =>
      match visible_entries a (i_position i) with
      | Raise e => (Raise e, a)
      | Ok new =>
          let old := default [] (dget agent (_injected a)) in
          let evict := List.filter (λ n, negb (dmem n new)) (dkeys old) in
          (Ok (inject_event agent (dvalues new) evict),
           set_injected (dset agent new) a)
      end
  end.

(** ** The command surface *)

Definition kernel_reply (k : string) (v : value) : value :=
  mk_reply (VStr "kernel") "application" (VDict [(k, v)]).

Definition payload_str (payload : value) (k : string) : M authority string :=
  lift (v ← py_index payload k; need_str v).

Definition as_list (v : value) : res (list value) :=
  match v with
  | VList l => Ok l
  | _ => if truthy v then Raise (Exn TypeError "list expected") else Ok []
  end.

Definition as_position (v : value) : res (option string) :=
  match v with
  | VStr s => Ok (Some s)
  | VNone => Ok None
  | _ => Raise (Exn TypeError "position must be a string")
  end.

Definition grant_value (pt : string * string) : value :=
  VDict [("position", VStr pt.1); ("token", VStr pt.2)].

Definition authority_command (command : value) (payload : value) : M authority value :=
  if veq_str command "register_request" then
    identity ← payload_str payload "identity";
    tools ← lift (v ← py_get payload "tools"; as_list v);
    scopes ← lift (v ← py_get payload "scopes"; as_list v);
    agent ← lift (py_get payload "agent");
    position ← lift (v ← py_get payload "position"; as_position v);
    modify (register_request identity (Info tools scopes (truthy agent) position)) ;;
    mret VOID
  else if veq_str command "unregister_request" then
    identity ← payload_str payload "identity";
    modify (unregister_request identity) ;; mret VOID
  else if veq_str command "grant_request" then
    position ← payload_str payload "position";
    device ← payload_str payload "device";
    token ← payload_str payload "token";
    modify (grant_request position device token) ;; mret VOID
  else if veq_str command "revoke_request" then
    position ← payload_str payload "position";
    device ← payload_str payload "device";
    token ← payload_str payload "token";
    modify (revoke_request position device token) ;; mret VOID
  else if veq_str command "device_grants_request" then
    identity ← payload_str payload "identity";
    gs ← gets (device_grants identity);
    mret (kernel_reply "grants" (VList (map grant_value gs)))
  else if veq_str command "authorize_request" then
    identity ← payload_str payload "identity";
    scope ← payload_str payload "scope";
    ok ← gets (λ a, _authorized a identity scope);
    mret (kernel_reply "allowed" (VBool ok))
  else if veq_str command "auth_request" then
    identity ← payload_str payload "identity";
    c ← gets (λ a, _auth_context a identity);
    mret (kernel_reply "auth" c)
  else if veq_str command "inject_request" then
    agent ← payload_str payload "agent";
    _build_inject agent
  else if veq_str command "agents_request" then
    l ← gets agents_request;
    mret (kernel_reply "agents" (VList (map VStr l)))
  else mret VOID.

Definition denied (source : value) : value :=
  mk_reply source "application"
    (VDict [("command", VStr "denied"); ("reason", VStr "Authority 命令面仅内核可调")]).

Definition authority_respond (event : value) : M authority value :=
  source ← lift (py_get event "source");
  if negb (veq_str source "system") then
    source ← lift (py_index event "source"); mret (denied source)
  else
    payload ← lift (py_index event "payload");
    command ← lift (py_get payload "command");
    authority_command command payload.

(** ** The abstract organisation the Authority promises

    An organisation is a finite map of members and a set of
    [(position, (device, token))] grants; the commands are set operations on it. *)

Record org := mkOrg {
  org_members : gmap string info;
  org_grants : gset (string * (string * string))
}.

Inductive org_cmd :=
| CRegister (identity : string) (i : info)
| CUnregister (identity : string)
| CGrant (position device token : string)
| CRevoke (position device token : string).

Definition org_step (c : org_cmd) (o : org) : org :=
  match c with
  | CRegister id i => mkOrg (<[id := i]> (org_members o)) (org_grants o)
  | CUnregister id =>
      mkOrg (delete id (org_members o)) (filter (λ g, g.2.1 ≠ id) (org_grants o))
  | CGrant p d t => mkOrg (org_members o) ({[(p, (d, t))]} ∪ org_grants o)
  | CRevoke p d t => mkOrg (org_members o) (org_grants o ∖ {[(p, (d, t))]})
  end.

(** A member may run an organisation command when it is root or its position holds
    the scope on the [org] device. *)
Definition org_allows (o : org) (identity scope : string) : Prop :=
  ∃ i p, org_members o !! identity = Some i ∧ i_position i = Some p ∧
         (p = ROOT_POSITION ∨ (p ≠ "" ∧ (p, (ORG_DEVICE, scope)) ∈ org_grants o)).

Definition grant_triples (g : dict (gset (string * string))) :
    list (string * (string * string)) :=
  flat_map (λ pg, map (λ dt, (pg.1, dt)) (elements pg.2)) g.

Definition abs_org (a : authority) : org :=
  mkOrg (list_to_map (_identities a)) (list_to_set (grant_triples (_grants a))).

(** The event by which the kernel issues a command. *)
Definition system_command (payload : dict value) : value :=
  mk_event "system" "authority" "system" (VDict payload).

Definition org_payload (c : org_cmd) : dict value :=
  match c with
  | CRegister id i =>
      [("command", VStr "register_request"); ("identity", VStr id);
       ("tools", VList (i_tools i)); ("agent", VBool (i_agent i));
       ("position", opt_str (i_position i)); ("scopes", VList (i_scopes i))]
  | CUnregister id => [("command", VStr "unregister_request"); ("identity", VStr id)]
  | CGrant p d t => [("command", VStr "grant_request"); ("position", VStr p);
                     ("device", VStr d); ("token", VStr t)]
  | CRevoke p d t => [("command", VStr "revoke_request"); ("position", VStr p);
                      ("device", VStr d); ("token", VStr t)]
  end.

Definition org_cmd_effect (c : org_cmd) : authority → authority :=
  match c with
  | CRegister id i => register_request id i
  | CUnregister id => unregister_request id
  | CGrant p d t => grant_request p d t
  | CRevoke p d t => revoke_request p d t
  end.

(** The three dictionaries have no duplicate key. *)
Record authority_wf (a : authority) : Prop := {
  wf_identities : NoDup (dkeys (_identities a));
  wf_grants : NoDup (dkeys (_grants a));
  wf_injected : NoDup (dkeys (_injected a))
}.

(** ** Lemmas on the commands *)

Lemma respond_org_cmd c a :
  authority_respond (system_command (org_payload c)) a = (Ok VOID, org_cmd_effect c a).
Proof. destruct c as [id [ts ss ag [p|]]| | |]; done. Qed.

Lemma respond_device_grants id a :
  authority_respond (system_command
    [("command", VStr "device_grants_request"); ("identity", VStr id)]) a =
  (Ok (kernel_reply "grants" (VList (map grant_value (device_grants id a)))), a).
Proof. done. Qed.
Lemma respond_authorize id scope a :
  authority_respond (system_command
    [("command", VStr "authorize_request"); ("identity", VStr id); ("scope", VStr scope)]) a =
  (Ok (kernel_reply "allowed" (VBool (_authorized a id scope))), a).
Proof. done. Qed.
Lemma respond_auth id a :
  authority_respond (system_command
    [("command", VStr "auth_request"); ("identity", VStr id)]) a =
  (Ok (kernel_reply "auth" (_auth_context a id)), a).
Proof. done. Qed.
Lemma respond_inject ag a :
  authority_respond (system_command
    [("command", VStr "inject_request"); ("agent", VStr ag)]) a = _build_inject ag a.
Proof. done. Qed.
Lemma respond_agents a :
  authority_respond (system_command [("command", VStr "agents_request")]) a =
  (Ok (kernel_reply "agents" (VList (map VStr (agents_request a)))), a).
Proof. done. Qed.

Lemma dget_map_values {V W} (f : V → W) k (d : dict V) :
  dget k (map (λ kv, (kv.1, f kv.2)) d) = f <$> dget k d.
Proof. induction d as [|[k1 v1] d IH]; simpl; [done|]. by case_decide. Qed.

Lemma grants_of_register id i a p : grants_of (register_request id i a) p = grants_of a p.
Proof. done. Qed.
Lemma grants_of_grant p d t a q :
  grants_of (grant_request p d t a) q =
  if decide (q = p) then {[(d, t)]} ∪ grants_of a p else grants_of a q.
Proof. unfold grants_of, grant_request. simpl. rewrite dget_dset. by case_decide. Qed.
Lemma grants_of_revoke p d t a q :
  grants_of (revoke_request p d t a) q =
  if decide (q = p) then grants_of a p ∖ {[(d, t)]} else grants_of a q.
Proof.
  unfold grants_of, revoke_request. destruct (dget p (_grants a)) as [g|] eqn:E; simpl.
  - rewrite dget_dset. by case_decide.
  - case_decide; [|done]. subst. rewrite E. simpl. set_solver.
Qed.
Lemma grants_of_unregister id a q :
  grants_of (unregister_request id a) q = drop_device id (grants_of a q).
Proof.
  unfold grants_of, unregister_request, drop_device. simpl. rewrite dget_map_values.
  destruct (dget q (_grants a)); simpl; set_solver.
Qed.
Lemma elem_drop_device id d t g : (d, t) ∈ drop_device id g ↔ d ≠ id ∧ (d, t) ∈ g.
Proof. unfold drop_device. by rewrite elem_of_filter. Qed.

Lemma elem_grant_triples p dt g :
  NoDup (dkeys g) → (p, dt) ∈ grant_triples g ↔ dt ∈ (default ∅ (dget p g) : gset _).
Proof.
  unfold grant_triples. induction g as [|[q s] g IH]; simpl; [intros _; set_solver|].
  intros [Hq Hn]%NoDup_cons. rewrite elem_of_app. specialize (IH Hn).
  rewrite list_elem_of_fmap. case_decide; simplify_eq/=.
  - split.
    + intros [(? & [= <-] & ?%elem_of_elements)|Hin%IH]; [done|].
      apply dget_None_keys in Hq. rewrite Hq in Hin. set_solver.
    + intros. left. exists dt. by rewrite elem_of_elements.
  - rewrite IH. split; [intros [(? & [= ->] & _)|?]; done|eauto].
Qed.

Lemma abs_grants_elem a p dt :
  authority_wf a → (p, dt) ∈ org_grants (abs_org a) ↔ dt ∈ grants_of a p.
Proof.
  intros [_ Hg _]. simpl. rewrite elem_of_list_to_set. by apply elem_grant_triples.
Qed.

Lemma list_to_map_dict {V} (d : dict V) k :
  NoDup (dkeys d) → (list_to_map d : gmap string V) !! k = dget k d.
Proof.
  intros Hn. destruct (dget k d) as [v|] eqn:E.
  - apply elem_of_list_to_map; [done|]. by apply dget_Some_elem.
  - apply not_elem_of_list_to_map. by apply dget_None_keys.
Qed.
Lemma abs_members_lookup a id :
  authority_wf a → org_members (abs_org a) !! id = dget id (_identities a).
Proof. intros [Hi _ _]. by apply list_to_map_dict. Qed.

Lemma dkeys_map_values {V W} (f : V → W) (d : dict V) :
  dkeys (map (λ kv, (kv.1, f kv.2)) d) = dkeys d.
Proof. unfold dkeys. by rewrite map_map. Qed.

Lemma wf_init : authority_wf authority_init.
Proof. split; apply NoDup_nil_2. Qed.

Lemma wf_org_cmd c a : authority_wf a → authority_wf (org_cmd_effect c a).
Proof.
  intros [Hi Hg Hj]. destruct c as [id i|id|p d t|p d t]; simpl.
  - split; simpl; [by apply dkeys_dset_NoDup|done..].
  - split; simpl; [by apply dkeys_dpop_NoDup|by rewrite dkeys_map_values|done].
  - split; simpl; [done|by apply dkeys_dset_NoDup|done].
  - unfold revoke_request. destruct (dget p (_grants a)); [|done].
    split; simpl; [done|by apply dkeys_dset_NoDup|done].
Qed.

Lemma wf_build_inject ag a : authority_wf a → authority_wf (_build_inject ag a).2.
Proof.
  intros [Hi Hg Hj]. unfold _build_inject.
  destruct (dget ag (_identities a)); [|done].
  destruct (visible_entries a _); [|done]. simpl.
  split; simpl; [done..|by apply dkeys_dset_NoDup].
Qed.

Lemma wf_respond e : stable (keeps authority_wf) (authority_respond e).
Proof.
  unfold authority_respond, authority_command, payload_str.
  repeat first
    [ apply stable_bind; [typeclasses eauto| |intros ?]
    | apply stable_if
    | apply stable_lift | apply stable_gets | apply stable_ret
    | apply stable_modify; intros st Hst ];
    try typeclasses eauto.
  - exact (wf_org_cmd (CRegister _ _) st Hst).
  - exact (wf_org_cmd (CUnregister _) st Hst).
  - exact (wf_org_cmd (CGrant _ _ _) st Hst).
  - exact (wf_org_cmd (CRevoke _ _ _) st Hst).
  - by apply wf_build_inject.
Qed.

(** ** Lemmas on injection *)

Definition bd_add (d : dict (list string)) (dt : string * string) : dict (list string) :=
  dset dt.1 (default [] (dget dt.1 d) ++ [dt.2])%list d.

Lemma by_device_fold_elem l d0 dev tok :
  tok ∈ default [] (dget dev (fold_left bd_add l d0)) ↔
  tok ∈ default [] (dget dev d0) ∨ (dev, tok) ∈ l.
Proof.
  revert d0. induction l as [|[d t] l IH]; intros d0; simpl; [set_solver|].
  rewrite IH. unfold bd_add at 1. simpl. rewrite dget_dset.
  case_decide; subst; simpl; set_solver.
Qed.
Lemma by_device_fold_mem l d0 dev :
  dmem dev (fold_left bd_add l d0) = true ↔
  dmem dev d0 = true ∨ ∃ tok, (dev, tok) ∈ l.
Proof.
  revert d0. induction l as [|[d t] l IH]; intros d0; simpl; [set_solver|].
  rewrite IH. unfold bd_add at 1, dmem. simpl. rewrite dget_dset.
  case_decide; subst; simpl; set_solver.
Qed.
Lemma by_device_elem g dev tok :
  tok ∈ default [] (dget dev (by_device g)) ↔ (dev, tok) ∈ g.
Proof.
  unfold by_device. rewrite (by_device_fold_elem _ [] dev tok). simpl.
  rewrite elem_of_elements. set_solver.
Qed.
Lemma by_device_mem g dev : dmem dev (by_device g) = true ↔ ∃ tok, (dev, tok) ∈ g.
Proof.
  unfold by_device. rewrite (by_device_fold_mem _ [] dev). simpl.
  setoid_rewrite elem_of_elements. naive_solver.
Qed.

(** [entry_name e n]: the name an agent files the entry under. *)
Definition entry_name (e : value) (n : string) : Prop :=
  ∃ c, vget e "content" = Some c ∧ vget c "name" = Some (VStr n).

(** Where an entry comes from: a tool or a declared and granted scope of a registered
    device on which the grants [g] hold some token. *)
Definition entry_of_tool (ids : dict info) (g : gset (string * string))
    (n : string) (e : value) : Prop :=
  ∃ dev i tool tok, (dev, i) ∈ ids ∧ i_agent i = false ∧ (dev, tok) ∈ g ∧
    tool ∈ i_tools i ∧ py_index tool "name" = Ok (VStr n) ∧ _entry dev tool = Ok e.
Definition entry_of_scope (ids : dict info) (g : gset (string * string))
    (n : string) (e : value) : Prop :=
  ∃ dev i scope tok, dget dev ids = Some i ∧ i_agent i = false ∧ (dev, tok) ∈ g ∧
    scope ∈ i_scopes i ∧ py_index scope "token" = Ok (VStr tok) ∧
    n = perm_name dev tok ∧ _perm_entry dev scope = Ok e.
Definition entry_ok ids g n e : Prop := entry_of_tool ids g n e ∨ entry_of_scope ids g n e.

Definition all_entries (P : string → value → Prop) (d : dict value) : Prop :=
  ∀ n e, dget n d = Some e → P n e.

Lemma all_entries_dset (P : string → value → Prop) n e d :
  all_entries P d → P n e → all_entries P (dset n e d).
Proof. intros H Hn m x. rewrite dget_dset. case_decide; naive_solver. Qed.

Lemma need_str_ok v s : need_str v = Ok s → v = VStr s.
Proof. destruct v; naive_solver. Qed.

Lemma entry_inv dev tool e :
  _entry dev tool = Ok e →
  ∃ n, py_index tool "name" = Ok (VStr n) ∧ entry_name e n ∧
       vget e "associated" = Some (VList [VStr dev]) ∧ vget e "type" = Some (VStr "tool").
Proof.
  unfold _entry. intros (n & (v & Hv & Hs%need_str_ok)%bind_ok & H)%bind_ok. subst.
  repeat apply bind_ok in H as (? & _ & H). simplify_eq/=.
  exists n. split_and!; [done| |done|done]. eexists. done.
Qed.
Lemma perm_entry_inv dev scope e tok :
  _perm_entry dev scope = Ok e → py_index scope "token" = Ok (VStr tok) →
  entry_name e (perm_name dev tok) ∧
  vget e "associated" = Some (VList [VStr dev]) ∧ vget e "type" = Some (VStr "skill").
Proof.
  unfold _perm_entry. intros (n & (v & Hv & Hs%need_str_ok)%bind_ok & H)%bind_ok Ht.
  rewrite Hv in Ht. simplify_eq. apply bind_ok in H as (? & _ & H). simplify_eq/=.
  split_and!; [|done|done]. eexists. done.
Qed.

Lemma entry_ok_name ids g n e : entry_ok ids g n e → entry_name e n.
Proof.
  intros [(dev & i & tool & tok & _ & _ & _ & _ & Hn & (n' & ? & ? & _)%entry_inv)
         |(dev & i & sc & tok & _ & _ & _ & _ & Ht & -> & He)].
  - congruence.
  - by eapply perm_entry_inv.
Qed.

Section Visible.
Context (ids : dict info) (g : gset (string * string)).
Let P := entry_ok ids g.

Lemma add_tools_sound dev i tok tools new new' :
  (dev, i) ∈ ids → i_agent i = false → (dev, tok) ∈ g →
  (∀ tool, tool ∈ tools → tool ∈ i_tools i) →
  all_entries P new → add_tools dev tools new = Ok new' → all_entries P new'.
Proof.
  intros Hi Ha Hg. revert new. induction tools as [|tool tools IH]; intros new Hsub Hnew; simpl.
  - by intros [= <-].
  - intros (e & He & (n & (v & Hv & ->%need_str_ok)%bind_ok & H)%bind_ok)%bind_ok.
    eapply IH; [set_solver| |exact H]. apply all_entries_dset; [done|].
    left. exists dev, i, tool, tok. split_and!; try done. apply Hsub. left.
Qed.

Lemma add_scopes_sound dev i granted scopes new new' :
  dget dev ids = Some i → i_agent i = false →
  (∀ tok, tok ∈ granted → (dev, tok) ∈ g) →
  (∀ sc, sc ∈ scopes → sc ∈ i_scopes i) →
  all_entries P new → add_scopes dev granted scopes new = Ok new' → all_entries P new'.
Proof.
  intros Hi Ha Hg. revert new. induction scopes as [|sc scopes IH]; intros new Hsub Hnew; simpl.
  - by intros [= <-].
  - intros (v & Hv & H)%bind_ok. destruct (existsb (veq_str v) granted) eqn:Ex;
      [|eapply IH; [set_solver|done..]].
    apply bind_ok in H as (e & He & (t & ->%need_str_ok & H)%bind_ok).
    eapply IH; [set_solver| |exact H]. apply all_entries_dset; [done|].
    apply existsb_exists in Ex as (t' & Hin & [= ->]%veq_str_true).
    right. exists dev, i, sc, t'. split_and!; try done; [|apply Hsub; left].
    apply Hg. by apply list_elem_of_In.
Qed.

Lemma tool_entries_sound l new new' :
  (∀ x, x ∈ l → x ∈ ids) → all_entries P new →
  tool_entries (by_device g) l new = Ok new' → all_entries P new'.
Proof.
  revert new. induction l as [|[dev i] l IH]; intros new Hsub Hnew; simpl.
  - by intros [= <-].
  - destruct (i_agent i) eqn:Ha; simpl; [apply IH; set_solver|].
    destruct (dmem dev (by_device g)) eqn:Hm; simpl; [|apply IH; set_solver].
    apply by_device_mem in Hm as (tok & Hg).
    intros (new1 & H1 & H)%bind_ok. eapply IH; [set_solver| |exact H].
    eapply add_tools_sound; [apply Hsub; left|done..].
Qed.

Lemma skill_entries_sound devs new new' :
  all_entries P new →
  skill_entries (by_device g) ids devs new = Ok new' → all_entries P new'.
Proof.
  revert new. induction devs as [|dev devs IH]; intros new Hnew; simpl.
  - by intros [= <-].
  - destruct (dget dev ids) as [i|] eqn:Hi; [|by apply IH].
    destruct (i_agent i) eqn:Ha; [by apply IH|].
    intros (new1 & H1 & H)%bind_ok. eapply IH; [|exact H].
    eapply add_scopes_sound; [done|done| |done|done|exact H1].
    intros tok. apply by_device_elem.
Qed.
End Visible.

Lemma dmem_dset n m e (d : dict value) : dmem n (dset m e d) = true ↔ n = m ∨ dmem n d = true.
Proof. unfold dmem. rewrite dget_dset. case_decide; naive_solver. Qed.

Lemma add_tools_keys dev tools new new' n :
  add_tools dev tools new = Ok new' →
  dmem n new' = true ↔
  dmem n new = true ∨ ∃ tool, tool ∈ tools ∧ py_index tool "name" = Ok (VStr n).
Proof.
  revert new. induction tools as [|tool tools IH]; intros new; simpl.
  - intros [= <-]. set_solver.
  - intros (e & He & (m & (v & Hv & ->%need_str_ok)%bind_ok & H)%bind_ok)%bind_ok.
    rewrite (IH _ H), dmem_dset. split.
    + intros [[->|?]|(tool' & ? & ?)]; [right; exists tool; split; [left|done]|by left|].
      right. exists tool'. split; [by right|done].
    + intros [?|(tool' & [->|?]%elem_of_cons & ?)]; [by left; right|left; left; congruence|].
      right. eauto.
Qed.

Lemma add_scopes_keys dev granted scopes new new' n :
  add_scopes dev granted scopes new = Ok new' →
  dmem n new' = true ↔
  dmem n new = true ∨
  ∃ sc tok, sc ∈ scopes ∧ py_index sc "token" = Ok (VStr tok) ∧ tok ∈ granted ∧
            n = perm_name dev tok.
Proof.
  revert new. induction scopes as [|sc scopes IH]; intros new; simpl.
  - intros [= <-]. set_solver.
  - intros (v & Hv & H)%bind_ok. setoid_rewrite elem_of_cons.
    destruct (existsb (veq_str v) granted) eqn:Ex.
    + apply bind_ok in H as (e & He & (t & ->%need_str_ok & H)%bind_ok).
      apply existsb_exists in Ex as (t' & Hin%list_elem_of_In & [= ->]%veq_str_true).
      rewrite (IH _ H), dmem_dset. split.
      * intros [[->|?]|(sc' & tok & ? & ? & ? & ?)]; [right; by exists sc, t'; eauto|by left|].
        right. exists sc', tok. eauto.
      * intros [?|(sc' & tok & [->|?] & ? & ? & ->)]; [by left; right| |].
        -- left; left. congruence.
        -- right. exists sc', tok. eauto.
    + rewrite (IH _ H). split.
      * intros [?|(sc' & tok & ? & ? & ? & ?)]; [by left|]. right. exists sc', tok. eauto.
      * intros [?|(sc' & tok & [->|?] & ? & Hin & ->)]; [by left| |right; exists sc', tok; eauto].
        simplify_eq. exfalso. apply not_true_iff_false in Ex. apply Ex.
        apply existsb_exists. exists tok. split; [by apply list_elem_of_In|].
        apply veq_str_true. congruence.
Qed.

Lemma tool_entries_keys bd l new new' n :
  tool_entries bd l new = Ok new' →
  dmem n new' = true ↔
  dmem n new = true ∨
  ∃ dev i tool, (dev, i) ∈ l ∧ i_agent i = false ∧ dmem dev bd = true ∧
                tool ∈ i_tools i ∧ py_index tool "name" = Ok (VStr n).
Proof.
  revert new. induction l as [|[dev i] l IH]; intros new; simpl.
  - intros [= <-]. set_solver.
  - setoid_rewrite elem_of_cons.
    destruct (i_agent i) eqn:Ha; simpl.
    { intros H; rewrite (IH _ H). f_equiv. split; intros (d' & i' & t' & Hin & ? & ?).
      - exists d', i', t'. eauto.
      - destruct Hin as [[= -> ->]|?]; [congruence|]. exists d', i', t'. eauto. }
    destruct (dmem dev bd) eqn:Hm; simpl.
    2: { intros H; rewrite (IH _ H). f_equiv. split; intros (d' & i' & t' & Hin & ? & ? & ?).
      - exists d', i', t'. eauto.
      - destruct Hin as [[= -> ->]|?]; [congruence|]. exists d', i', t'. eauto. }
    intros (new1 & H1 & H)%bind_ok. rewrite (IH _ H), (add_tools_keys _ _ _ _ _ H1).
    split.
    + intros [[?|(tool & ? & ?)]|(d' & i' & t' & ? & ?)]; [by left| |right; exists d', i', t'; eauto].
      right. exists dev, i, tool. split_and!; auto.
    + intros [?|(d' & i' & t' & [[= -> ->]|?] & ? & ? & ? & ?)]; [by left; left|left; right; eauto|].
      right. exists d', i', t'. split_and!; auto.
Qed.

Lemma skill_entries_keys bd ids devs new new' n :
  skill_entries bd ids devs new = Ok new' →
  dmem n new' = true ↔
  dmem n new = true ∨
  ∃ dev i sc tok, dev ∈ devs ∧ dget dev ids = Some i ∧ i_agent i = false ∧
    sc ∈ i_scopes i ∧ py_index sc "token" = Ok (VStr tok) ∧
    tok ∈ default [] (dget dev bd) ∧ n = perm_name dev tok.
Proof.
  revert new. induction devs as [|dev devs IH]; intros new; simpl.
  - intros [= <-]. set_solver.
  - setoid_rewrite elem_of_cons.
    destruct (dget dev ids) as [i|] eqn:Hi.
    2: { intros H; rewrite (IH _ H). f_equiv. split; intros (d' & i' & sc & tok & Hin & Hd & ?).
      - exists d', i', sc, tok. eauto.
      - destruct Hin as [->|?]; [congruence|]. exists d', i', sc, tok. eauto. }
    destruct (i_agent i) eqn:Ha.
    { intros H; rewrite (IH _ H). f_equiv. split; intros (d' & i' & sc & tok & Hin & Hd & Hg & ?).
      - exists d', i', sc, tok. eauto.
      - destruct Hin as [->|?]; [congruence|]. exists d', i', sc, tok. eauto. }
    intros (new1 & H1 & H)%bind_ok. rewrite (IH _ H), (add_scopes_keys _ _ _ _ _ _ H1).
    split.
    + intros [[?|(sc & tok & ? & ? & ? & ?)]|(d' & i' & sc & tok & ? & ?)]; [by left| |].
      * right. exists dev, i, sc, tok. split_and!; auto.
      * right. exists d', i', sc, tok. destruct_and!. split_and!; auto.
    + intros [?|(d' & i' & sc & tok & [->|?] & ? & ? & ? & ? & ? & ?)]; [by left; left| |].
      * simplify_eq. left; right. exists sc, tok. split_and!; auto.
      * right. exists d', i', sc, tok. split_and!; auto.
Qed.

Lemma add_tools_nodup dev tools new new' :
  add_tools dev tools new = Ok new' → NoDup (dkeys new) → NoDup (dkeys new').
Proof.
  revert new. induction tools as [|tool tools IH]; intros new; simpl; [by intros [= <-]|].
  intros (e & He & (m & _ & H)%bind_ok)%bind_ok Hn. eapply IH; [done|].
  by apply dkeys_dset_NoDup.
Qed.
Lemma add_scopes_nodup dev granted scopes new new' :
  add_scopes dev granted scopes new = Ok new' → NoDup (dkeys new) → NoDup (dkeys new').
Proof.
  revert new. induction scopes as [|sc scopes IH]; intros new; simpl; [by intros [= <-]|].
  intros (v & Hv & H)%bind_ok Hn. destruct (existsb _ _); [|by eapply IH].
  apply bind_ok in H as (e & He & (t & _ & H)%bind_ok). eapply IH; [done|].
  by apply dkeys_dset_NoDup.
Qed.
Lemma tool_entries_nodup bd l new new' :
  tool_entries bd l new = Ok new' → NoDup (dkeys new) → NoDup (dkeys new').
Proof.
  revert new. induction l as [|[dev i] l IH]; intros new; simpl; [by intros [= <-]|].
  case_match; [by apply IH|]. intros (new1 & H1 & H2)%bind_ok Hn.
  eapply IH; [done|]. by eapply add_tools_nodup.
Qed.
Lemma skill_entries_nodup bd ids devs new new' :
  skill_entries bd ids devs new = Ok new' → NoDup (dkeys new) → NoDup (dkeys new').
Proof.
  revert new. induction devs as [|dev devs IH]; intros new; simpl; [by intros [= <-]|].
  case_match; [|by apply IH]. case_match; [by apply IH|]. intros (new1 & H1 & H2)%bind_ok Hn.
  eapply IH; [done|]. by eapply add_scopes_nodup.
Qed.

Lemma visible_entries_nodup a p new : visible_entries a p = Ok new → NoDup (dkeys new).
Proof.
  unfold visible_entries. intros (new1 & H1 & H)%bind_ok.
  eapply skill_entries_nodup; [done|]. eapply tool_entries_nodup; [done|apply NoDup_nil_2].
Qed.
Lemma visible_entries_sound a p new :
  visible_entries a (Some p) = Ok new → all_entries (entry_ok (_identities a) (grants_of a p)) new.
Proof.
  unfold visible_entries. intros (new1 & H1 & H)%bind_ok.
  eapply skill_entries_sound; [|done]. eapply tool_entries_sound; [done| |done].
  intros n e. done.
Qed.

(** The keys an agent at a position sees: the names of the tools of every granted
    device and one skill per granted and declared scope. *)
Lemma visible_entries_keys a p new n :
  authority_wf a → visible_entries a (Some p) = Ok new →
  dmem n new = true ↔
  (∃ dev i tool tok, dget dev (_identities a) = Some i ∧ i_agent i = false ∧
     (dev, tok) ∈ grants_of a p ∧ tool ∈ i_tools i ∧ py_index tool "name" = Ok (VStr n)) ∨
  (∃ dev i sc tok, dget dev (_identities a) = Some i ∧ i_agent i = false ∧
     (dev, tok) ∈ grants_of a p ∧ sc ∈ i_scopes i ∧ py_index sc "token" = Ok (VStr tok) ∧
     n = perm_name dev tok).
Proof.
  intros Hwf. unfold visible_entries. intros (new1 & H1 & H)%bind_ok.
  rewrite (skill_entries_keys _ _ _ _ _ _ H), (tool_entries_keys _ _ _ _ _ H1). split.
  - intros [[?|(dev & i & tool & Hin & ? & (tok & Hg)%by_device_mem & ? & ?)]
           |(dev & i & sc & tok & _ & ? & ? & ? & ? & Hg%by_device_elem & ?)]; [done| |].
    + left. exists dev, i, tool, tok. split_and!; auto.
      apply elem_dget; [apply Hwf|done].
    + right. exists dev, i, sc, tok. split_and!; auto.
  - intros [(dev & i & tool & tok & Hd & ? & Hg & ? & ?)|(dev & i & sc & tok & Hd & ? & Hg & ? & ? & ?)].
    + left; right. exists dev, i, tool. split_and!; auto; [by apply dget_Some_elem|].
      apply by_device_mem. eauto.
    + right. exists dev, i, sc, tok. split_and!; auto; [|by apply by_device_elem].
      rewrite py_sorted_elem. apply dmem_keys, by_device_mem. eauto.
Qed.

(** ** Properties *)

(** A request from any source but the kernel leaves the Authority's state as it is
    and is answered with a refusal addressed to that source. *)
Theorem authority_external_denied (d : dict value) (s : string) (a : authority) :
  dget "source" d = Some (VStr s) → s ≠ "system" →
  authority_respond (VDict d) a = (Ok (denied (VStr s)), a).
Proof.
  intros Hs Hne. unfold authority_respond, mbind, M_bind, lift, py_get, py_get_or, py_index.
  rewrite Hs. simpl. rewrite bool_decide_eq_false_2 by done. done.
Qed.

Lemma authority_external_denied_witness :
  authority_respond (mk_event "worker" "authority" "application"
    (VDict [("command", VStr "grant_request"); ("position", VStr "worker");
            ("device", VStr "org"); ("token", VStr "grant")])) authority_init
  = (Ok (denied (VStr "worker")), authority_init).
Proof. apply (authority_external_denied _ "worker"); [reflexivity|discriminate]. Defined.

(** C3: each organisation command of the kernel is carried out exactly as on the abstract
    organisation (a finite map of members and a set of grants): registration inserts,
    unregistration deletes the member and every grant on it, grant and revoke add and
    remove one triple, and nothing else changes; the state stays well formed. *)
Theorem authority_refines_org (c : org_cmd) (a : authority) :
  authority_wf a →
  ∃ a', authority_respond (system_command (org_payload c)) a = (Ok VOID, a') ∧
        authority_wf a' ∧ abs_org a' = org_step c (abs_org a) ∧ _injected a' = _injected a.
Proof.
  intros Hwf. exists (org_cmd_effect c a). pose proof (wf_org_cmd c a Hwf) as Hwf'.
  split_and!; [apply respond_org_cmd|done| |].
  2: { destruct c as [| |p d t|p d t]; try done. simpl. unfold revoke_request. by case_match. }
  assert (Hm : org_members (abs_org (org_cmd_effect c a)) = org_members (org_step c (abs_org a))).
  { apply map_eq. intros id. rewrite abs_members_lookup by done.
    destruct c as [id' i|id'|p d t|p d t]; simpl;
      rewrite ?lookup_insert, ?lookup_delete, ?list_to_map_dict by apply Hwf.
    - rewrite dget_dset. repeat case_decide; congruence.
    - rewrite dget_dpop. repeat case_decide; congruence.
    - done.
    - unfold revoke_request. by case_match. }
  assert (Hg : org_grants (abs_org (org_cmd_effect c a)) = org_grants (org_step c (abs_org a))).
  { apply set_eq. intros [p [d t]]. rewrite abs_grants_elem by done.
    destruct c as [id' i|id'|p' d' t'|p' d' t']; cbn [org_cmd_effect org_step org_grants].
    - by rewrite abs_grants_elem.
    - rewrite grants_of_unregister, elem_of_filter, abs_grants_elem, elem_drop_device by done. done.
    - rewrite grants_of_grant, elem_of_union, abs_grants_elem by done. case_decide; set_solver.
    - rewrite grants_of_revoke, elem_of_difference, abs_grants_elem by done.
      case_decide; set_solver. }
  destruct (abs_org (org_cmd_effect c a)), (org_step c (abs_org a)). simpl in *. congruence.
Qed.

Lemma authority_refines_org_witness :
  ∃ a', authority_respond (system_command (org_payload (CGrant "worker" "echo" "public")))
          authority_init = (Ok VOID, a') ∧
        authority_wf a' ∧
        abs_org a' = org_step (CGrant "worker" "echo" "public") (abs_org authority_init) ∧
        _injected a' = _injected authority_init.
Proof. apply (authority_refines_org _ authority_init). exact wf_init. Defined.

(** The Authority allows an organisation command exactly to the registered members
    that are root or whose non-empty position holds that scope on the [org] device. *)
Theorem authorize_request_correct (a : authority) (identity scope : string) :
  authority_wf a →
  (authority_respond (system_command
     [("command", VStr "authorize_request"); ("identity", VStr identity); ("scope", VStr scope)]) a
   = (Ok (kernel_reply "allowed" (VBool true)), a)) ↔
  org_allows (abs_org a) identity scope.
Proof.
  intros Hwf. rewrite respond_authorize.
  assert ((Ok (kernel_reply "allowed" (VBool (_authorized a identity scope))), a)
          = (Ok (kernel_reply "allowed" (VBool true)), a) ↔ _authorized a identity scope = true)
    as -> by (split; [by intros [= ->]|by intros ->]).
  unfold _authorized, position_of, org_allows. setoid_rewrite abs_members_lookup; [|done].
  destruct (dget identity (_identities a)) as [i|]; [|naive_solver].
  destruct (i_position i) as [p|] eqn:Ep; [|naive_solver].
  rewrite orb_true_iff, andb_true_iff, !bool_decide_eq_true. unfold nonempty.
  rewrite negb_true_iff, bool_decide_eq_false. rewrite <-abs_grants_elem by done. naive_solver.
Qed.

Lemma authorize_request_witness :
  let a := grant_request "hr" "org" "install"
             (register_request "bob" (Info [] [] true (Some "hr")) authority_init) in
  org_allows (abs_org a) "bob" "install".
Proof.
  apply authorize_request_correct; [|reflexivity].
  apply (wf_org_cmd (CGrant _ _ _)), (wf_org_cmd (CRegister _ _)), wf_init.
Defined.

(** C4: injection is deny-by-default and complete: the entries an agent receives are filed
    under the names of the tools of exactly those registered devices on which its position
    holds a scope, and one skill per scope that is both granted and declared; each entry
    is associated with the device it comes from, and entries of an earlier injection whose
    names are gone are listed for eviction. *)
Theorem build_inject_exact (agent p : string) (i : info) (a a' : authority) (r : value) :
  authority_wf a → dget agent (_identities a) = Some i → i_position i = Some p →
  _build_inject agent a = (Ok r, a') →
  ∃ new evict,
    r = inject_event agent (dvalues new) evict ∧ a' = set_injected (dset agent new) a ∧
    all_entries (entry_ok (_identities a) (grants_of a p)) new ∧
    (∀ n, dmem n new = true ↔
       (∃ dev j tool tok, dget dev (_identities a) = Some j ∧ i_agent j = false ∧
          (dev, tok) ∈ grants_of a p ∧ tool ∈ i_tools j ∧ py_index tool "name" = Ok (VStr n)) ∨
       (∃ dev j sc tok, dget dev (_identities a) = Some j ∧ i_agent j = false ∧
          (dev, tok) ∈ grants_of a p ∧ sc ∈ i_scopes j ∧ py_index sc "token" = Ok (VStr tok) ∧
          n = perm_name dev tok)) ∧
    (∀ n, n ∈ evict ↔ n ∈ dkeys (default [] (dget agent (_injected a))) ∧ dmem n new = false).
Proof.
  intros Hwf Hi Hp. unfold _build_inject. rewrite Hi, Hp.
  destruct (visible_entries a (Some p)) as [new|] eqn:Hv; [|done]. intros [= <- <-].
  eexists new, _. split_and!; [done..| | |].
  - by apply visible_entries_sound.
  - intros n. by apply visible_entries_keys.
  - intros n. rewrite !list_elem_of_In, filter_In, negb_true_iff. done.
Qed.

(** A worker granted [public] on [echo], which declares one tool and two scopes. *)
Definition example_authority : authority :=
  grant_request "worker" "echo" "public"
    (register_request "echo"
       (Info [VDict [("name", VStr "echo"); ("trigger", VList [VStr "echo"])]]
             [VDict [("token", VStr "public")]; VDict [("token", VStr "maintain")]] false None)
       (register_request "alice" (Info [] [] true (Some "worker")) authority_init)).

Lemma example_authority_wf : authority_wf example_authority.
Proof.
  apply (wf_org_cmd (CGrant _ _ _)), (wf_org_cmd (CRegister _ _)), (wf_org_cmd (CRegister _ _)),
    wf_init.
Qed.

Lemma build_inject_exact_witness :
  ∃ new evict a' r,
    _build_inject "alice" example_authority = (Ok r, a') ∧
    r = inject_event "alice" (dvalues new) evict ∧
    dkeys (default [] (dget "alice" (_injected a'))) = ["echo"; "echo:public"].
Proof.
  destruct (_build_inject "alice" example_authority) as [[r|ex] a'] eqn:E;
    [|vm_compute in E; discriminate].
  destruct (build_inject_exact "alice" "worker" (Info [] [] true (Some "worker"))
              example_authority a' r example_authority_wf eq_refl eq_refl E)
    as (new & evict & Hr & _).
  exists new, evict, a', r. split; [reflexivity|]. split; [exact Hr|].
  vm_compute in E. injection E as _ <-. reflexivity.
Defined.
