(* ===== verification/Journal.v ===== *)
(** * The Journal device (kernel/journal.py)

    One row per event the kernel handled, in a table with an autoincremented key.
    SQLite binds only [None], numbers and strings: a row whose source, target, kind,
    outcome or reason is a list or a dict, or an integer wider than 64 bits, is refused
    by the driver with an exception. *)

From stdpp Require Import base gmap strings list.
From Stdlib Require Import ZArith.
From S2P Require Import Prelude PyValue EventProtocol.

Local Open Scope string_scope.

Record row := Row {
  r_seq : nat;
  r_ts : string;
  r_source : value;
  r_target : value;
  r_kind : value;
  r_payload : value;    (* the event whose JSON text is stored *)
  r_outcome : value;
  r_reason : value
}.

(** [j_now] is the reading of the clock at the insertion. *)
Record journal := mkJournal {
  j_rows : list row;
  j_now : string
}.

Definition journal_init : journal := mkJournal [] "".

(** [sqlite3] parameter binding *)
Definition sqlite_bind (n : string) (v : value) : res value :=
  match v with
  | VList _ | VDict _ =>
      Raise (Exn Sqlite3Error ("Error binding parameter " +:+ n +:+ ": type '"
                               +:+ type_name v +:+ "' is not supported"))
  | VInt z => if ((- 2 ^ 63 <=? z) && (z <? 2 ^ 63))%Z then Ok v
              else Raise (Exn OverflowError "Python int too large to convert to SQLite INTEGER")
  | _ => Ok v
  end.

Definition journal_insert (e outcome reason : value) (j : journal) : res journal :=
  source ← py_get e "source";
  target ← py_get e "target";
  kind ← py_get e "kind";
  source ← sqlite_bind "2" source;
  target ← sqlite_bind "3" target;
  kind ← sqlite_bind "4" kind;
  outcome ← sqlite_bind "6" outcome;
  reason ← sqlite_bind "7" reason;
  Ok (mkJournal (j_rows j ++ [Row (S (length (j_rows j))) (j_now j) source target kind e
                                  outcome reason]) (j_now j)).

Definition journal_respond (event : value) : M journal value := λ j,
  match payload ← py_index event "payload"; command ← py_get payload "command";
        Ok (payload, command) with
  | Raise e => (Raise e, j)
  | Ok (payload, command) =>
      if veq_str command "journal_record" then
        match e ← py_get payload "event";
              outcome ← py_get payload "outcome";
              reason ← py_get payload "reason";
              journal_insert (if truthy e then e else VDict []) outcome reason j with
        | Raise e => (Raise e, j)
        | Ok j' => (Ok VOID, j')
        end
      else (Ok VOID, j)
  end.

(** The record command the kernel issues (AgentOS._record). *)
Definition record_event (event : value) (outcome : string) (reason : value) : value :=
  mk_event "system" "journal" "system"
    (VDict [("command", VStr "journal_record"); ("event", event);
            ("outcome", VStr outcome); ("reason", reason)]).

(** ** Lemmas *)

(** The values SQLite can store. *)
Definition bindable (v : value) : bool :=
  match v with
  | VList _ | VDict _ => false
  | VInt z => ((- 2 ^ 63 <=? z) && (z <? 2 ^ 63))%Z
  | _ => true
  end.

Lemma sqlite_bind_ok n v : bindable v = true → sqlite_bind n v = Ok v.
Proof. destruct v; simpl; try done. by intros ->. Qed.
Lemma sqlite_bind_raise n v :
  bindable v = false → ∃ e, sqlite_bind n v = Raise e ∧ exn_cls e ≠ EventError.
Proof. destruct v; simpl; try done; [intros ->|..]; eauto. Qed.

Definition field (d : dict value) (k : string) : value := default VNone (dget k d).

Definition recordable (d : dict value) : bool :=
  bindable (field d "source") && bindable (field d "target") && bindable (field d "kind").

Lemma record_ok d outcome reason j :
  d ≠ [] → recordable d = true → bindable reason = true →
  journal_respond (record_event (VDict d) outcome reason) j =
  (Ok VOID, mkJournal (j_rows j ++ [Row (S (length (j_rows j))) (j_now j) (field d "source")
      (field d "target") (field d "kind") (VDict d) (VStr outcome) reason])%list (j_now j)).
Proof.
  intros Hne [[Hs Ht]%andb_true_iff Hk]%andb_true_iff Hr.
  unfold journal_respond. simpl. destruct d as [|kv d]; [done|].
  unfold journal_insert. cbn [py_get py_get_or mbind res_bind].
  fold (field (kv :: d) "source") (field (kv :: d) "target") (field (kv :: d) "kind").
  by rewrite !sqlite_bind_ok by done.
Qed.

Lemma record_fail d outcome reason j :
  d ≠ [] → recordable d = false →
  ∃ e, journal_respond (record_event (VDict d) outcome reason) j = (Raise e, j).
Proof.
  intros Hne Hr. unfold journal_respond. simpl. destruct d as [|kv d]; [done|].
  unfold journal_insert. cbn [py_get py_get_or mbind res_bind].
  fold (field (kv :: d) "source") (field (kv :: d) "target") (field (kv :: d) "kind").
  unfold recordable in Hr.
  destruct (bindable (field (kv :: d) "source")) eqn:Hs.
  2: { destruct (sqlite_bind_raise "2" _ Hs) as (e & -> & _). simpl. eauto. }
  rewrite (sqlite_bind_ok "2" (field (kv :: d) "source")) by done. cbn [mbind res_bind].
  destruct (bindable (field (kv :: d) "target")) eqn:Ht.
  2: { destruct (sqlite_bind_raise "3" _ Ht) as (e & -> & _). simpl. eauto. }
  rewrite (sqlite_bind_ok "3" (field (kv :: d) "target")) by done. cbn [mbind res_bind].
  destruct (bindable (field (kv :: d) "kind")) eqn:Hk; [done|].
  destruct (sqlite_bind_raise "4" _ Hk) as (e & -> & _). simpl. eauto.
Qed.

(** Rows are only ever appended, numbered consecutively from 1. *)
Definition journal_grows : relation journal := λ j j',
  ∃ rs, j_rows j' = (j_rows j ++ rs)%list.
Definition journal_numbered (j : journal) : Prop :=
  ∀ k r, j_rows j !! k = Some r → r_seq r = S k.

#[global] Instance journal_grows_preorder : PreOrder journal_grows.
Proof.
  split.
  - intros j. exists []. by rewrite app_nil_r.
  - intros j1 j2 j3 [r1 E1] [r2 E2]. exists (r1 ++ r2)%list. by rewrite E2, E1, app_assoc.
Qed.

Lemma journal_insert_inv e outcome reason j j' :
  journal_insert e outcome reason j = Ok j' →
  ∃ s t k o r, j_rows j' = (j_rows j ++ [Row (S (length (j_rows j))) (j_now j) s t k e o r])%list.
Proof.
  unfold journal_insert. intros H.
  repeat apply bind_ok in H as (? & _ & H). simplify_eq/=. eauto 10.
Qed.

Lemma journal_respond_cases e j :
  (journal_respond e j).2 = j ∨
  ∃ ev o r j', journal_insert ev o r j = Ok j' ∧ (journal_respond e j).2 = j'.
Proof.
  unfold journal_respond. destruct (_ ← _; _) as [[pl cmd]|]; [|by left].
  destruct (veq_str cmd "journal_record"); [|by left].
  destruct (py_get pl "event") as [ev|]; simpl; [|by left].
  destruct (py_get pl "outcome") as [o|]; simpl; [|by left].
  destruct (py_get pl "reason") as [r|]; simpl; [|by left].
  destruct (journal_insert _ o r j) as [j'|] eqn:E; [|by left]. right. eauto 10.
Qed.

Lemma journal_respond_grows e : stable journal_grows (journal_respond e).
Proof.
  intros j. destruct (journal_respond_cases e j) as [->|(ev & o & r & j' & Hi & ->)].
  - reflexivity.
  - apply journal_insert_inv in Hi as (s & t & k & o' & r' & E). unfold journal_grows. rewrite E. eauto.
Qed.
Lemma journal_respond_numbered e : stable (keeps journal_numbered) (journal_respond e).
Proof.
  intros j Hn. destruct (journal_respond_cases e j) as [->|(ev & o & r & j' & Hi & ->)]; [done|].
  apply journal_insert_inv in Hi as (s & t & k & o' & r' & E).
  intros i x. rewrite E. destruct (decide (i < length (j_rows j))) as [Hlt|Hge].
  - rewrite lookup_app_l by done. apply Hn.
  - rewrite lookup_app_r by lia. destruct (i - length (j_rows j)) as [|m] eqn:Em; simpl; [|done].
    intros [= <-]. simpl. f_equal. lia.
Qed.
