(* ===== verification/Process.v ===== *)
(** * Processes, homes and sandboxes (kernel/process.py, kernel/sandbox_entry.py)

    The identity check and the private home of [ProcessBase], the mount anchors and the
    sandbox command line of [UserModeProcess], and the options a sandboxed device is
    constructed with. *)

From stdpp Require Import base gmap strings list pretty.
From Stdlib Require Import ZArith QArith Ascii.
From S2P Require Import Prelude PyValue EventProtocol.

Local Open Scope nat_scope.
Local Open Scope string_scope.

(** ** Paths: [os.path] on POSIX *)

Definition slash : ascii := "/"%char.

Definition starts_slash (s : string) : bool :=
  match s with String c _ => bool_decide (c = slash) | EmptyString => false end.
Fixpoint ends_slash (s : string) : bool :=
  match s with
  | EmptyString => false
  | String c EmptyString => bool_decide (c = slash)
  | String _ s' => ends_slash s'
  end.

Definition path_join2 (a b : string) : string :=
  if starts_slash b then b
  else if negb (nonempty a) || ends_slash a then a +:+ b
  else a +:+ "/" +:+ b.
Definition path_join (a : string) (ps : list string) : string := fold_left path_join2 ps a.

(** [p[:p.rfind('/') + 1]] *)
Fixpoint to_last_slash (p : string) : string :=
  match p with
  | EmptyString => EmptyString
  | String c p' =>
      match to_last_slash p' with
      | EmptyString => if bool_decide (c = slash) then "/" else EmptyString
      | h => String c h
      end
  end.
Fixpoint rstrip_slash (s : string) : string :=
  match s with
  | EmptyString => EmptyString
  | String c s' =>
      match rstrip_slash s' with
      | EmptyString => if bool_decide (c = slash) then EmptyString else String c EmptyString
      | r => String c r
      end
  end.
Definition dirname (p : string) : string :=
  let head := to_last_slash p in
  match rstrip_slash head with EmptyString => head | r => r end.

(** ** ProcessBase *)

Definition identity_ok (identity : string) : bool :=
  nonempty identity && negb (str_contains "/" identity) && negb (str_contains ".." identity)
  && negb (bool_decide (identity ∈ ["."; "kernel"])).

Definition _validate_identity (identity : string) : res () :=
  if identity_ok identity then Ok ()
  else Raise (Exn ValueError ("identity 非法: " +:+ repr_str identity)).

Definition home_dir (runtime_root identity : string) : string :=
  path_join runtime_root ["home"; identity].

(** [os.path.realpath] resolves symbolic links: it depends on the file system. *)
Definition _validate_path (realpath : string → string) (home path : string) : res () :=
  let real := realpath path in
  let home := realpath home in
  if negb (bool_decide (real = home)) && negb (String.prefix (home +:+ "/") real)
  then Raise (Exn ValueError ("路径逃逸: " +:+ repr_str path +:+ " 不在 " +:+ repr_str home +:+ " 内"))
  else Ok ().

(** ** UserModeProcess *)

Record load_spec := LoadSpec {
  ls_identity : string;
  ls_path : string;
  ls_options : dict value
}.

(** [u_workdir] is the attribute [workdir] that [run] tests with [hasattr]. *)
Record uproc := UProc {
  u_identity : string;
  u_runtime_root : string;
  u_max_concurrent_sources : value;
  u_load_spec : option load_spec;
  u_maintenance_device : value;
  u_workdir : option string;
  u_needs_network : bool
}.

Definition UserModeProcess_init (max_concurrent_sources : value) (runtime_root : string)
    (load_spec : option load_spec) (identity : option string) (maintenance_device : value) :
    res uproc :=
  let identity := match identity, load_spec with
                  | None, Some ls => Some (ls_identity ls)
                  | _, _ => identity
                  end in
  match identity with
  | None => Raise (Exn ValueError "identity 必须显式提供或从 load_spec 推导")
  | Some identity =>
      _ ← _validate_identity identity;
      Ok (UProc identity runtime_root max_concurrent_sources load_spec maintenance_device
                None false)
  end.

(** What [run] does: re-execute itself in the sandbox, refuse to run again inside one,
    or serve directly. *)
Inductive run_mode := RunSandboxed | RunRefused | RunBare.

Definition run (u : uproc) (sentinel_set : bool) : run_mode :=
  match u_load_spec u, u_workdir u with
  | None, None => RunBare
  | _, _ => if sentinel_set then RunRefused else RunSandboxed
  end.

Definition _mount_anchors (u : uproc) : res (list string * list string) :=
  match u_load_spec u with
  | Some ls => Ok ([dirname (ls_path ls)], [ls_path ls])
  | None =>
      match u_workdir u with
      | None => Raise (Exn AttributeError "object has no attribute 'workdir'")
      | Some workdir =>
          let own_home := path_join workdir ["data"; u_identity u] in
          let target := u_maintenance_device u in
          if truthy target then
            match target with
            | VStr t =>
                if negb (nonempty t) || str_contains "/" t || str_contains ".." t
                   || bool_decide (t ∈ ["."; "kernel"]) || str_contains "@" t
                then Raise (Exn ValueError ("维护目标 identity 非法: " +:+ repr target))
                else Ok ([own_home; path_join workdir ["data"; t]], [])
            | _ => Raise (Exn ValueError ("维护目标 identity 非法: " +:+ repr target))
            end
          else Ok ([own_home], [])
      end
  end.

Definition _needs_network (u : uproc) : bool :=
  match u_load_spec u with
  | Some ls => truthy (default (VBool false) (dget "needs_network" (ls_options ls)))
  | None => u_needs_network u
  end.

(** [sys.executable] is the interpreter's path. *)
Definition _bwrap_args (sys_executable : string) (writable readonly : list string)
    (state_fd : nat) (needs_network : bool) : res (list string) :=
  match writable with
  | [] => Raise (Exn IndexError "list index out of range")
  | w0 :: _ =>
      let data_root := dirname w0 in
      Ok (["bwrap"; "--ro-bind"; "/"; "/"; "--dev"; "/dev"; "--proc"; "/proc";
           "--tmpfs"; "/tmp"; "--tmpfs"; data_root]
          ++ flat_map (λ a, ["--ro-bind"; a; a]) readonly
          ++ flat_map (λ a, ["--bind"; a; a]) writable
          ++ ["--unshare-user"; "--unshare-pid"; "--unshare-ipc"]
          ++ (if needs_network then [] else ["--unshare-net"])
          ++ ["--die-with-parent"; sys_executable; "-m"; "my_team.kernel.sandbox_entry";
              pretty state_fd])%list
  end.

(** The parts of [_sandbox_reexec] that decide the sandbox: the command line and the
    data directory it announces in [MY_TEAM_DATA_DIR]. *)
Definition _sandbox_reexec (sys_executable : string) (read_fd : nat) (u : uproc) :
    res (list string * string) :=
  anchors ← _mount_anchors u;
  let '(writable, readonly) := anchors in
  match writable with
  | [] => Raise (Exn IndexError "list index out of range")
  | w0 :: _ =>
      args ← _bwrap_args sys_executable writable readonly read_fd (_needs_network u);
      Ok (args, w0)
  end.

(** ** sandbox_entry._serve_device: the options a device is constructed with *)

Definition device_defaults : dict value :=
  [("max_concurrent_sources", VInt 0); ("max_jobs", VInt 8); ("timeout", VFloat 30%Q);
   ("deadline", VFloat 60%Q); ("max_deadline", VFloat 300%Q); ("output_cap", VInt 65536);
   ("completed_cap", VInt 64)].

(** [sig]: the parameters of the device's constructor and whether each has a default. *)
Fixpoint fill_defaults (sig : list (string * bool)) (opts : dict value) : dict value :=
  match sig with
  | [] => opts
  | (param_name, has_default) :: rest =>
      if bool_decide (param_name ∈ ["self"; "emit"; "runtime_root"; "identity"])
      then fill_defaults rest opts
      else if negb (dmem param_name opts) && negb has_default
      then match dget param_name device_defaults with
           | Some v => fill_defaults rest (dset param_name v opts)
           | None => fill_defaults rest opts
           end
      else fill_defaults rest opts
  end.

Definition _serve_device_opts (ls : load_spec) (data_dir : option string)
    (sig : list (string * bool)) : dict value :=
  let inst_opts := List.filter (λ kv, negb (bool_decide (kv.1 = "needs_network"))) (ls_options ls) in
  let inst_opts := dset "runtime_root" (VStr (dirname (default "/tmp" data_dir))) inst_opts in
  let inst_opts := dset "identity" (VStr (ls_identity ls)) inst_opts in
  fill_defaults sig inst_opts.

(** Agent.__init__ (agent/agent.py): one source at a time, no [workdir]. *)
Definition Agent_process (runtime_root identity : string) (needs_network : bool) : res uproc :=
  u ← UserModeProcess_init (VInt 1) runtime_root None (Some identity) VNone;
  Ok (UProc (u_identity u) (u_runtime_root u) (u_max_concurrent_sources u) (u_load_spec u)
            (u_maintenance_device u) (u_workdir u) needs_network).

(** ** Lemmas on strings and paths *)

#[local] Arguments String.append !_ _ / : simpl nomatch.

Lemma app_inj_l (a b c : string) : a +:+ b = a +:+ c → b = c.
Proof. induction a as [|x a IH]; simpl; [done|]. intros [= ?]. auto. Qed.
Lemma app_nil_s (a : string) : a +:+ "" = a.
Proof. induction a as [|x a IH]; simpl; [done|]. by rewrite IH. Qed.
Lemma app_eq_nil_s (a b : string) : a +:+ b = "" → a = "" ∧ b = "".
Proof. destruct a; simpl; naive_solver. Qed.

Lemma prefix_iff a s : String.prefix a s = true ↔ ∃ t, s = a +:+ t.
Proof.
  revert s. induction a as [|x a IH]; intros s; simpl.
  - split; [eauto|]. intros _. by destruct s.
  - destruct s as [|y s]; simpl; [naive_solver|].
    destruct (Ascii.ascii_dec x y) as [->|Hne].
    + rewrite IH. split; [intros [t ->]; eauto|intros [t [= ->]]; eauto].
    + split; [done|]. intros [t [= Hx _]]. congruence.
Qed.

Definition no_slash (s : string) : Prop := str_contains "/" s = false.

Lemma no_slash_cons c s : no_slash (String c s) ↔ c ≠ slash ∧ no_slash s.
Proof.
  unfold no_slash, slash.
  change (str_contains "/" (String c s))
    with (String.prefix "/" (String c s) || str_contains "/" s).
  rewrite orb_false_iff. f_equiv. cbn [String.prefix].
  destruct (Ascii.ascii_dec "/"%char c) as [<-|Hne].
  - replace (String.prefix "" s) with true by (by destruct s).
    split; [done|intros Hc; by destruct Hc].
  - split; [intros _ Hc; by destruct Hne|done].
Qed.

(** A name without a slash is determined by the path component it opens. *)
Definition tail_ok (t : string) : Prop := t = "" ∨ ∃ u, t = "/" +:+ u.
Lemma component_inj i j ti tj :
  no_slash i → no_slash j → tail_ok ti → tail_ok tj → i +:+ ti = j +:+ tj → i = j.
Proof.
  revert j. induction i as [|c i IH]; intros j Hi Hj Hti Htj; simpl.
  - destruct j as [|c' j]; [done|]. apply no_slash_cons in Hj as [Hc _].
    destruct Hti as [->|[u ->]]; simpl; [done|]. intros [= ? _]. by destruct Hc.
  - apply no_slash_cons in Hi as [Hc Hi]. destruct j as [|c' j]; simpl.
    + destruct Htj as [->|[u ->]]; simpl; [done|]. intros [= ? _]. by destruct Hc.
    + apply no_slash_cons in Hj as [_ Hj]. intros [= -> H]. f_equal. eauto.
Qed.

Lemma path_join2_base a : ∃ b, ∀ i, no_slash i → i ≠ "" → path_join2 a i = b +:+ i.
Proof.
  exists (if negb (nonempty a) || ends_slash a then a else a +:+ "/").
  intros i Hi Hne. unfold path_join2. destruct i as [|c i]; [done|]. simpl.
  apply no_slash_cons in Hi as [Hc _]. rewrite bool_decide_eq_false_2 by done.
  destruct (_ || _); [done|]. by rewrite str_app_assoc.
Qed.

Lemma identity_ok_inv i : identity_ok i = true → i ≠ "" ∧ no_slash i ∧ i ≠ "kernel".
Proof.
  unfold identity_ok. rewrite !andb_true_iff, !negb_true_iff.
  intros [[[H1 H2] _] H4]. apply bool_decide_eq_false in H4. unfold nonempty in H1.
  apply negb_true_iff, bool_decide_eq_false in H1.
  split_and!; [done|exact H2|set_solver].
Qed.

Lemma home_dir_base root : ∃ b, ∀ i, identity_ok i = true → home_dir root i = b +:+ i.
Proof.
  destruct (path_join2_base (path_join2 root "home")) as [b Hb]. exists b.
  intros i (? & ? & _)%identity_ok_inv. unfold home_dir, path_join. simpl. by apply Hb.
Qed.

Lemma validate_path_ok realpath home path :
  _validate_path realpath home path = Ok () ↔
  ∃ t, tail_ok t ∧ realpath path = realpath home +:+ t.
Proof.
  unfold _validate_path. split.
  - destruct (bool_decide_reflect (realpath path = realpath home)) as [E|E]; simpl.
    + intros _. exists "". split; [by left|]. by rewrite app_nil_s.
    + destruct (String.prefix _ _) eqn:P; simpl; [|done]. intros _.
      apply prefix_iff in P as [t Ht]. exists ("/" +:+ t). split; [right; eauto|].
      by rewrite Ht, str_app_assoc.
  - intros (t & [->|[u ->]] & E).
    + rewrite app_nil_s in E. by rewrite bool_decide_eq_true_2.
    + destruct (bool_decide_reflect (realpath path = realpath home)); simpl; [done|].
      replace (String.prefix (realpath home +:+ "/") (realpath path)) with true; [done|].
      symmetry. apply prefix_iff. exists u. by rewrite str_app_assoc.
Qed.

Lemma to_last_slash_app a b :
  to_last_slash b ≠ "" → to_last_slash (a +:+ b) = a +:+ to_last_slash b.
Proof.
  intros Hb. induction a as [|c a IH]; simpl; [done|]. rewrite IH.
  destruct (a +:+ to_last_slash b) eqn:E; [|done].
  apply app_eq_nil_s in E as [_ E]. done.
Qed.
Lemma to_last_slash_no i : no_slash i → to_last_slash i = "".
Proof.
  induction i as [|c i IH]; simpl; [done|]. intros [Hc Hi]%no_slash_cons.
  rewrite IH by done. by rewrite bool_decide_eq_false_2.
Qed.
Lemma rstrip_slash_id s : ends_slash s = false → rstrip_slash s = s.
Proof.
  induction s as [|c s IH]; [done|]. destruct s as [|c' s].
  - simpl. intros H%bool_decide_eq_false. by rewrite bool_decide_eq_false_2.
  - intros H. change (rstrip_slash (String c (String c' s))) with
      (match rstrip_slash (String c' s) with
       | EmptyString => if bool_decide (c = slash) then EmptyString else String c EmptyString
       | r => String c r end).
    rewrite IH by exact H. done.
Qed.
Lemma rstrip_slash_snoc s : rstrip_slash (s +:+ "/") = rstrip_slash s.
Proof. induction s as [|c s IH]; simpl; [done|]. by rewrite IH. Qed.

Lemma ends_slash_app a i : i ≠ "" → no_slash i → ends_slash (a +:+ i) = false.
Proof.
  intros Hne Hi. induction a as [|c a IH]; simpl.
  - induction i as [|c i IH]; [done|]. apply no_slash_cons in Hi as [Hc Hi]. simpl.
    destruct i; [by apply bool_decide_eq_false_2|]. by apply IH.
  - destruct (a +:+ i) eqn:E; [|done]. by apply app_eq_nil_s in E as [_ ?].
Qed.

(** The directory of a file in a home is the home. *)
Lemma dirname_child a i f :
  i ≠ "" → no_slash i → no_slash f → f ≠ "" →
  dirname (path_join2 (a +:+ i) f) = a +:+ i.
Proof.
  intros Hne Hi Hf Hfne. unfold path_join2.
  replace (starts_slash f) with false.
  2: { destruct f as [|c f]; [done|]. apply no_slash_cons in Hf as [? _]. simpl.
       by rewrite bool_decide_eq_false_2. }
  rewrite ends_slash_app by done.
  replace (negb (nonempty (a +:+ i))) with false.
  2: { unfold nonempty. rewrite bool_decide_eq_false_2; [done|].
       intros [_ ?]%app_eq_nil_s. done. }
  simpl. unfold dirname.
  assert (Hl : to_last_slash (String "/"%char f) = "/").
  { simpl. by rewrite to_last_slash_no. }
  change ("/" +:+ f) with (String "/"%char f).
  rewrite (to_last_slash_app (a +:+ i) (String "/"%char f)) by (rewrite Hl; done).
  rewrite Hl, rstrip_slash_snoc, rstrip_slash_id.
  - destruct (a +:+ i) eqn:E; [|done]. by apply app_eq_nil_s in E as [_ ?].
  - by apply ends_slash_app.
Qed.

(** The device file of an identity (AgentOS._device_home and [device.py] in it). *)
Definition device_file (runtime_root identity : string) : string :=
  path_join (home_dir runtime_root identity) ["device.py"].

Lemma dirname_device_file root i :
  identity_ok i = true → dirname (device_file root i) = home_dir root i.
Proof.
  intros Hi. destruct (home_dir_base root) as [b Hb]. unfold device_file, path_join. simpl.
  rewrite Hb by done. apply identity_ok_inv in Hi as (? & ? & _). by apply dirname_child.
Qed.

Lemma path_join2_name root n :
  no_slash n → n ≠ "" → ∃ c, path_join2 root n = c +:+ n.
Proof. intros. destruct (path_join2_base root) as [b Hb]. exists b. by apply Hb. Qed.

Lemma dirname_home root i :
  identity_ok i = true → dirname (home_dir root i) = path_join2 root "home".
Proof.
  intros (? & ? & _)%identity_ok_inv. unfold home_dir, path_join. simpl.
  destruct (path_join2_name root "home") as [c ->]; [done..|]. by apply dirname_child.
Qed.

Lemma path_join2_plain a n m :
  n ≠ "" → no_slash n → m ≠ "" → no_slash m →
  path_join2 (a +:+ n) m = (a +:+ n) +:+ "/" +:+ m.
Proof.
  intros Hn Hns Hm Hms. unfold path_join2. replace (starts_slash m) with false.
  2: { destruct m as [|c m]; [done|]. apply no_slash_cons in Hms as [? _]. simpl.
       by rewrite bool_decide_eq_false_2. }
  rewrite ends_slash_app by done.
  replace (negb (nonempty (a +:+ n))) with false; [done|].
  unfold nonempty. rewrite bool_decide_eq_false_2; [done|]. intros [_ ?]%app_eq_nil_s. done.
Qed.

(** A home nested under [home] twice is not the home. *)
Lemma home_dir_nested root i :
  identity_ok i = true → home_dir (path_join2 root "home") i ≠ home_dir root i.
Proof.
  intros (Hi & Hs & _)%identity_ok_inv. unfold home_dir, path_join. simpl.
  destruct (path_join2_name root "home") as [c ->]; [done..|].
  rewrite (path_join2_plain c "home" "home"), (path_join2_plain c "home" i) by done.
  rewrite <-(str_app_assoc (c +:+ "home") "/" "home").
  rewrite (path_join2_plain ((c +:+ "home") +:+ "/") "home" i) by done.
  intros E. apply (f_equal String.length) in E. rewrite !length_str_app in E. simpl in E. lia.
Qed.

(** ** Properties *)

(** Homes are private: when the homes are real directories, no path is accepted by
    [_validate_path] for two processes of different identities under one runtime root. *)
Theorem homes_are_private (realpath : string → string) (root i j path : string) :
  identity_ok i = true → identity_ok j = true → i ≠ j →
  realpath (home_dir root i) = home_dir root i →
  realpath (home_dir root j) = home_dir root j →
  _validate_path realpath (home_dir root i) path = Ok () →
  _validate_path realpath (home_dir root j) path ≠ Ok ().
Proof.
  intros Hi Hj Hne Ri Rj (ti & Hti & Ei)%validate_path_ok (tj & Htj & Ej)%validate_path_ok.
  rewrite Ri in Ei. rewrite Rj in Ej. destruct (home_dir_base root) as [b Hb].
  rewrite (Hb i Hi), str_app_assoc in Ei. rewrite (Hb j Hj), str_app_assoc, Ei in Ej.
  apply app_inj_l in Ej. apply Hne.
  apply identity_ok_inv in Hi as (_ & ? & _). apply identity_ok_inv in Hj as (_ & ? & _).
  by apply (component_inj i j ti tj).
Qed.

Lemma homes_are_private_witness :
  _validate_path id (home_dir "/srv/rt" "bob") "/srv/rt/home/alice/notes" ≠ Ok ().
Proof.
  apply (homes_are_private id "/srv/rt" "alice" "bob" "/srv/rt/home/alice/notes");
    [reflexivity|reflexivity|discriminate|reflexivity|reflexivity|reflexivity].
Defined.

(** The mount operations of a sandbox command line, in order, up to
    [--die-with-parent], the last option before the command. *)
Inductive mount :=
| MRoBind (src dst : string)
| MBind (src dst : string)
| MTmpfs (dst : string)
| MDev (dst : string)
| MProc (dst : string).

Fixpoint mounts (args : list string) : list mount :=
  match args with
  | [] => []
  | x :: r =>
      if decide (x = "--die-with-parent") then []
      else if decide (x = "--ro-bind") then
        match r with a :: b :: r' => MRoBind a b :: mounts r' | _ => [] end
      else if decide (x = "--bind") then
        match r with a :: b :: r' => MBind a b :: mounts r' | _ => [] end
      else if decide (x = "--tmpfs") then
        match r with a :: r' => MTmpfs a :: mounts r' | _ => [] end
      else if decide (x = "--dev") then
        match r with a :: r' => MDev a :: mounts r' | _ => [] end
      else if decide (x = "--proc") then
        match r with a :: r' => MProc a :: mounts r' | _ => [] end
      else mounts r
  end.

Definition mount_dst (m : mount) : string :=
  match m with MRoBind _ d | MBind _ d | MTmpfs d | MDev d | MProc d => d end.

(** The last mount whose destination is [path] or a directory above it. *)
Definition covers (path : string) (m : mount) : bool :=
  bool_decide (mount_dst m = path) || String.prefix (mount_dst m +:+ "/") path.
Fixpoint last_covering (path : string) (ms : list mount) : option mount :=
  match ms with
  | [] => None
  | m :: ms' => match last_covering path ms' with
                | Some m' => Some m'
                | None => if covers path m then Some m else None
                end
  end.

(** A device started from its home. *)
Definition device_proc (root identity : string) (options : dict value) : res uproc :=
  UserModeProcess_init (default (VInt 0) (dget "max_concurrent_sources" options)) root
    (Some (LoadSpec identity (device_file root identity) options)) None VNone.

Lemma device_proc_inv root identity options u :
  device_proc root identity options = Ok u →
  identity_ok identity = true ∧
  u_load_spec u = Some (LoadSpec identity (device_file root identity) options).
Proof.
  unfold device_proc, UserModeProcess_init. intros (? & Hv & [= <-])%bind_ok.
  unfold _validate_identity in Hv. simpl in Hv. by destruct (identity_ok identity).
Qed.

Lemma device_reexec exe fd root identity options u :
  device_proc root identity options = Ok u →
  ∃ tail,
    _sandbox_reexec exe fd u =
    Ok (["bwrap"; "--ro-bind"; "/"; "/"; "--dev"; "/dev"; "--proc"; "/proc";
         "--tmpfs"; "/tmp"; "--tmpfs"; path_join2 root "home";
         "--ro-bind"; device_file root identity; device_file root identity;
         "--bind"; home_dir root identity; home_dir root identity;
         "--unshare-user"; "--unshare-pid"; "--unshare-ipc"]
        ++ (if truthy (default (VBool false) (dget "needs_network" options))
            then [] else ["--unshare-net"])
        ++ "--die-with-parent" :: tail, home_dir root identity)%list.
Proof.
  intros [Hi Hl]%device_proc_inv. eexists. unfold _sandbox_reexec, _mount_anchors, _needs_network.
  rewrite Hl. simpl. rewrite dirname_device_file, dirname_home by done. done.
Qed.

(** The parameters the framework passes are never overridden by a default. *)
Lemma fill_defaults_reserved k v sig opts :
  k ∈ ["self"; "emit"; "runtime_root"; "identity"] →
  dget k opts = Some v → dget k (fill_defaults sig opts) = Some v.
Proof.
  intros Hk. revert opts. induction sig as [|[n b] sig IH]; intros opts Hg; [done|].
  cbn [fill_defaults]. case_bool_decide as Hn; [by apply IH|].
  destruct (negb (dmem n opts) && negb b); [|by apply IH].
  destruct (dget n device_defaults); apply IH; [|done].
  rewrite dget_dset_ne; [done|]. by intros ->.
Qed.

(** The sandbox of a device process: the system is mounted read-only, the directory of
    all homes is masked before any home is mounted, the device's own home is the only
    writable bind, its data directory is that home, the user, pid and ipc namespaces are
    unshared, and the network namespace exactly when the options do not ask for it. *)
Theorem device_sandbox_mounts (exe root identity : string) (fd : nat) (options : dict value)
    (u : uproc) :
  device_proc root identity options = Ok u →
  ∃ args,
    _sandbox_reexec exe fd u = Ok (args, home_dir root identity) ∧
    mounts args = [MRoBind "/" "/"; MDev "/dev"; MProc "/proc"; MTmpfs "/tmp";
                   MTmpfs (dirname (home_dir root identity));
                   MRoBind (device_file root identity) (device_file root identity);
                   MBind (home_dir root identity) (home_dir root identity)] ∧
    (∀ ns, ns ∈ ["--unshare-user"; "--unshare-pid"; "--unshare-ipc"] → ns ∈ args) ∧
    (truthy (default (VBool false) (dget "needs_network" options)) = false →
     "--unshare-net" ∈ args).
Proof.
  intros Hu. destruct (device_reexec exe fd root identity options u Hu) as [tail E].
  apply device_proc_inv in Hu as [Hi _]. eexists. split; [exact E|]. split_and!.
  - rewrite dirname_home by done. by destruct (truthy _).
  - intros ns. rewrite !elem_of_app. set_solver.
  - intros ->. rewrite !elem_of_app. set_solver.
Qed.

Lemma device_sandbox_mounts_witness :
  ∃ u args, device_proc "/srv/rt" "echo" [] = Ok u ∧
            _sandbox_reexec "/usr/bin/python3" 5 u = Ok (args, "/srv/rt/home/echo") ∧
            "--unshare-net" ∈ args.
Proof.
  destruct (device_proc "/srv/rt" "echo" []) as [u|] eqn:E; [|discriminate].
  destruct (device_sandbox_mounts "/usr/bin/python3" "/srv/rt" "echo" 5 [] u E)
    as (args & H1 & _ & _ & H4).
  exists u, args. split; [reflexivity|]. split; [exact H1|]. apply H4. reflexivity.
Defined.

(** The implementation file is mounted read-only before the home that contains it is
    mounted writable: of the mounts of the sandbox the last one that covers the device's
    file is the writable home. *)
Theorem device_file_under_writable_mount (exe root identity : string) (fd : nat)
    (options : dict value) (u : uproc) (args : list string) (data_dir : string) :
  device_proc root identity options = Ok u →
  _sandbox_reexec exe fd u = Ok (args, data_dir) →
  last_covering (device_file root identity) (mounts args)
  = Some (MBind (home_dir root identity) (home_dir root identity)).
Proof.
  intros Hu. destruct (device_reexec exe fd root identity options u Hu) as [tail ->].
  apply device_proc_inv in Hu as [Hi _]. intros [= <- <-].
  assert (Hc : covers (device_file root identity)
                 (MBind (home_dir root identity) (home_dir root identity)) = true).
  { unfold covers. apply orb_true_iff. right. simpl. apply prefix_iff. exists "device.py".
    destruct (home_dir_base root) as [b Hb]. unfold device_file, path_join. simpl.
    rewrite Hb by done. apply identity_ok_inv in Hi as (? & ? & _).
    by rewrite path_join2_plain, !str_app_assoc. }
  destruct (truthy _); simpl; by rewrite Hc.
Qed.

Lemma device_file_under_writable_mount_witness :
  ∃ u args d, device_proc "/srv/rt" "echo" [] = Ok u ∧
    _sandbox_reexec "/usr/bin/python3" 5 u = Ok (args, d) ∧
    last_covering "/srv/rt/home/echo/device.py" (mounts args)
    = Some (MBind "/srv/rt/home/echo" "/srv/rt/home/echo").
Proof.
  destruct (device_proc "/srv/rt" "echo" []) as [u|] eqn:E; [|discriminate].
  destruct (_sandbox_reexec "/usr/bin/python3" 5 u) as [[args d]|] eqn:E2.
  - exists u, args, d. split; [reflexivity|]. split; [exact E2|].
    exact (device_file_under_writable_mount "/usr/bin/python3" "/srv/rt" "echo" 5 [] u args d E E2).
  - injection E as <-. discriminate.
Defined.

(** A device constructed inside the sandbox is given a runtime root under which its
    home is not the directory the sandbox made writable for it. *)
Theorem sandboxed_device_home_mismatch (exe root identity : string) (fd : nat)
    (options : dict value) (u : uproc) (args : list string) (data_dir : string)
    (sig : list (string * bool)) :
  device_proc root identity options = Ok u →
  _sandbox_reexec exe fd u = Ok (args, data_dir) →
  ∃ rt, dget "runtime_root"
          (_serve_device_opts (LoadSpec identity (device_file root identity) options)
             (Some data_dir) sig) = Some (VStr rt) ∧
        home_dir rt identity ≠ data_dir.
Proof.
  intros Hu. destruct (device_reexec exe fd root identity options u Hu) as [tail ->].
  apply device_proc_inv in Hu as [Hi _]. intros [= <- <-].
  exists (path_join2 root "home"). split.
  - unfold _serve_device_opts. apply fill_defaults_reserved; [set_solver|].
    rewrite dget_dset_ne by done. simpl. by rewrite dget_dset_eq, dirname_home.
  - by apply home_dir_nested.
Qed.

Lemma sandboxed_device_home_mismatch_witness :
  ∃ rt, dget "runtime_root"
          (_serve_device_opts (LoadSpec "echo" "/srv/rt/home/echo/device.py" [])
             (Some "/srv/rt/home/echo") []) = Some (VStr rt) ∧
        home_dir rt "echo" ≠ "/srv/rt/home/echo".
Proof.
  destruct (device_proc "/srv/rt" "echo" []) as [u|] eqn:E; [|discriminate].
  destruct (_sandbox_reexec "/usr/bin/python3" 5 u) as [[args d]|] eqn:E2.
  - pose proof (sandboxed_device_home_mismatch "/usr/bin/python3" "/srv/rt" "echo" 5 [] u args d
                  [] E E2) as H.
    injection E as <-. injection E2 as _ <-. exact H.
  - injection E as <-. discriminate.
Defined.

(** The process of an agent has neither a load description nor a [workdir], so [run]
    serves it without re-executing it in the sandbox. *)
Theorem agent_process_runs_bare (runtime_root identity : string) (needs_network : bool)
    (u : uproc) (sentinel : bool) :
  Agent_process runtime_root identity needs_network = Ok u → run u sentinel = RunBare.
Proof.
  unfold Agent_process, UserModeProcess_init. simpl.
  intros (u0 & (? & _ & [= <-])%bind_ok & [= <-])%bind_ok. done.
Qed.

Lemma agent_process_runs_bare_witness :
  ∃ u, Agent_process "/srv/rt" "alice" false = Ok u ∧ run u false = RunBare.
Proof.
  destruct (Agent_process "/srv/rt" "alice" false) as [u|] eqn:E; [|discriminate].
  exists u. split; [reflexivity|]. exact (agent_process_runs_bare "/srv/rt" "alice" false u false E).
Defined.
