(* ===== verification/Dispatcher.v ===== *)
(** * The bucket dispatcher (kernel/process.py, BucketDispatcher)

    Events are queued by source; the first event of a source without a worker starts one.
    A worker takes a permit when the number of concurrent sources is bounded, then takes
    events from its queue, calls [respond], emits the reply, and ends when it finds its
    queue empty.  Workers are tasks of one event loop: a state of the model is a point
    where every task is suspended, a label names the task that runs next and what the
    environment ([respond] or [emit]) returns to it. *)

From stdpp Require Import base gmap strings list.
From Stdlib Require Import ZArith.
From S2P Require Import Prelude PyValue EventProtocol.

Local Open Scope string_scope.
Local Open Scope nat_scope.

(** Where a worker is suspended: before its permit, at [queue.get()], in [respond], in
    [emit]. *)
Inductive wstate :=
| WStart
| WGet
| WBusy (event : value)
| WEmit (result : value).

(** [d_submitted], [d_taken] and [d_emitted] record the history of the object; the code
    does not read them. *)
Record disp := mkDisp {
  d_max : Z;
  d_queues : dict (list value);
  d_running : gset string;
  d_sem : option nat;
  d_workers : list (string * wstate);
  d_submitted : list (string * value);
  d_taken : list (string * value);
  d_emitted : list (string * value)
}.

Definition disp_init (max_concurrent_sources : Z) : disp :=
  mkDisp max_concurrent_sources [] ∅ None [] [] [] [].

Definition queue_of (d : disp) (s : string) : list value := default [] (dget s (d_queues d)).

Definition set_queue (s : string) (q : list value) (d : disp) : disp :=
  mkDisp (d_max d) (dset s q (d_queues d)) (d_running d) (d_sem d) (d_workers d)
    (d_submitted d) (d_taken d) (d_emitted d).
Definition set_workers (ws : list (string * wstate)) (d : disp) : disp :=
  mkDisp (d_max d) (d_queues d) (d_running d) (d_sem d) ws
    (d_submitted d) (d_taken d) (d_emitted d).
Definition set_sem (n : nat) (d : disp) : disp :=
  mkDisp (d_max d) (d_queues d) (d_running d) (Some n) (d_workers d)
    (d_submitted d) (d_taken d) (d_emitted d).
Definition set_running (r : gset string) (d : disp) : disp :=
  mkDisp (d_max d) (d_queues d) r (d_sem d) (d_workers d)
    (d_submitted d) (d_taken d) (d_emitted d).
Definition log_submit (s : string) (e : value) (d : disp) : disp :=
  mkDisp (d_max d) (d_queues d) (d_running d) (d_sem d) (d_workers d)
    (d_submitted d ++ [(s, e)]) (d_taken d) (d_emitted d).
Definition log_take (s : string) (e : value) (d : disp) : disp :=
  mkDisp (d_max d) (d_queues d) (d_running d) (d_sem d) (d_workers d)
    (d_submitted d) (d_taken d ++ [(s, e)]) (d_emitted d).
Definition log_emit (s : string) (e : value) (d : disp) : disp :=
  mkDisp (d_max d) (d_queues d) (d_running d) (d_sem d) (d_workers d)
    (d_submitted d) (d_taken d) (d_emitted d ++ [(s, e)]).

(** The permits left: the semaphore is created with [max] permits by the first worker. *)
Definition permits (d : disp) : nat := default (Z.to_nat (d_max d)) (d_sem d).

Definition submit (s : string) (e : value) (d : disp) : disp :=
  let d := log_submit s e (set_queue s (queue_of d s ++ [e]) d) in
  if decide (s ∈ d_running d) then d
  else set_workers (d_workers d ++ [(s, WStart)]) (set_running ({[s]} ∪ d_running d) d).

(** The [finally] block: the source is no longer running and the permit is released. *)
Definition worker_exit (i : nat) (s : string) (d : disp) : disp :=
  let d := set_workers (delete i (d_workers d)) (set_running (d_running d ∖ {[s]}) d) in
  if (0 <? d_max d)%Z then set_sem (S (permits d)) d else d.

Definition worker_goto (i : nat) (s : string) (w : wstate) (d : disp) : disp :=
  set_workers (<[i := (s, w)]> (d_workers d)) d.

(** [if queue.empty(): return] at the end of an iteration. *)
Definition worker_next (i : nat) (s : string) (d : disp) : disp :=
  match queue_of d s with
  | [] => worker_exit i s d
  | _ => worker_goto i s WGet d
  end.

(** [sem.acquire()]: blocked without a permit. *)
Definition worker_acquire (i : nat) (s : string) (d : disp) : option disp :=
  if (0 <? d_max d)%Z then
    match permits d with
    | O => None
    | S n => Some (worker_goto i s WGet (set_sem n d))
    end
  else Some (worker_goto i s WGet d).

(** [queue.get()]: blocked on an empty queue. *)
Definition worker_get (i : nat) (s : string) (d : disp) : option disp :=
  match queue_of d s with
  | [] => None
  | e :: q => Some (worker_goto i s (WBusy e) (log_take s e (set_queue s q d)))
  end.

Definition receipt_event (event : value) : res value :=
  source ← py_index event "source";
  target ← py_index event "target";
  kind ← py_index event "kind";
  Ok (mk_reply source "application"
        (VDict [("command", VStr "receipt");
                ("event", VDict [("target", target); ("kind", kind)])])).

(** What the worker does with the result of [respond]. *)
Definition worker_reply (i : nat) (s : string) (e : value) (r : res value) (d : disp) : disp :=
  match r with
  | Raise _ => worker_exit i s d
  | Ok VNone => worker_goto i s WGet d
  | Ok v =>
      if veq_str v "VOID" then
        match py_get e "receipt" with
        | Raise _ => worker_exit i s d
        | Ok b => if truthy b
                  then match receipt_event e with
                       | Ok v => worker_goto i s (WEmit v) d
                       | Raise _ => worker_exit i s d
                       end
                  else worker_next i s d
        end
      else worker_goto i s (WEmit v) d
  end.

Definition worker_emitted (i : nat) (s : string) (v : value) (raised : bool) (d : disp) : disp :=
  if raised then worker_exit i s d else worker_next i s (log_emit s v d).

Inductive dlabel :=
| LSubmit (s : string) (e : value)
| LWorker (i : nat)                     (* acquire or get *)
| LReply (i : nat) (r : res value)      (* respond returned or raised *)
| LEmitted (i : nat) (raised : bool).   (* emit returned or raised *)

Definition dstep (l : dlabel) (d : disp) : option disp :=
  match l with
  | LSubmit s e => Some (submit s e d)
  | LWorker i =>
      match d_workers d !! i with
      | Some (s, WStart) => worker_acquire i s d
      | Some (s, WGet) => worker_get i s d
      | _ => None
      end
  | LReply i r =>
      match d_workers d !! i with
      | Some (s, WBusy e) => Some (worker_reply i s e r d)
      | _ => None
      end
  | LEmitted i raised =>
      match d_workers d !! i with
      | Some (s, WEmit v) => Some (worker_emitted i s v raised d)
      | _ => None
      end
  end.

(** The states reachable by labels that satisfy [ok]. *)
Inductive dreach (ok : dlabel → Prop) (m : Z) : disp → Prop :=
| dreach_init : dreach ok m (disp_init m)
| dreach_step l d d' : dreach ok m d → ok l → dstep l d = Some d' → dreach ok m d'.

(** An event the kernel routed: a dict with source, target and kind. *)
Definition good_event (e : value) : Prop := ∃ v, receipt_event e = Ok v.

(** A run in which routed events are submitted, [respond] never returns None nor raises and
    [emit] never raises. *)
Definition well_behaved (l : dlabel) : Prop :=
  match l with
  | LSubmit _ e => good_event e
  | LReply _ (Raise _) | LReply _ (Ok VNone) | LEmitted _ true => False
  | _ => True
  end.

(** A label of a worker, as opposed to a submission. *)
Definition worker_label (l : dlabel) : Prop :=
  match l with LSubmit _ _ => False | _ => True end.

Fixpoint druns (ls : list dlabel) (d : disp) : option disp :=
  match ls with
  | [] => Some d
  | l :: ls' => match dstep l d with Some d' => druns ls' d' | None => None end
  end.

(** No worker can run, whatever the environment answers. *)
Definition stuck (d : disp) : Prop := ∀ l, worker_label l → dstep l d = None.

Definition weight (w : string * wstate) : nat :=
  match w.2 with WStart => 1 | WGet => 0 | WBusy _ => 3 | WEmit _ => 2 end.
Definition measure (d : disp) : nat :=
  4 * sum_list_with (λ kq, length kq.2) (d_queues d) + sum_list_with weight (d_workers d).

Definition holding (w : string * wstate) : bool := match w.2 with WStart => false | _ => true end.
Definition n_holding (d : disp) : nat := length (List.filter holding (d_workers d)).

Definition of_source (s : string) (l : list (string * value)) : list value :=
  map snd (List.filter (λ se, bool_decide (se.1 = s)) l).

(** ** Invariants *)

Record dinv (d : disp) : Prop := {
  inv_nodup : NoDup (map fst (d_workers d));
  inv_running : d_running d = list_to_set (map fst (d_workers d));
  inv_fifo : ∀ s, (of_source s (d_taken d) ++ queue_of d s)%list = of_source s (d_submitted d);
  inv_permits : (0 < d_max d)%Z → permits d + n_holding d = Z.to_nat (d_max d)
}.

(** Lemmas on lists of workers. *)
Lemma of_source_snoc s l s' e :
  of_source s (l ++ [(s', e)]) =
  (if decide (s' = s) then of_source s l ++ [e] else of_source s l)%list.
Proof.
  unfold of_source. rewrite List.filter_app, map_app. simpl.
  case_decide; [rewrite bool_decide_eq_true_2 by done|rewrite bool_decide_eq_false_2 by done];
    simpl; [done|by rewrite app_nil_r].
Qed.

Lemma queue_of_set s q d s' :
  queue_of (set_queue s q d) s' = if decide (s' = s) then q else queue_of d s'.
Proof. unfold queue_of. simpl. rewrite dget_dset. by case_decide. Qed.

Lemma map_fst_insert i s w (ws : list (string * wstate)) w0 :
  ws !! i = Some (s, w0) → map fst (<[i := (s, w)]> ws) = map fst ws.
Proof.
  intros H. change (map fst) with (fmap (M := list) (@fst string wstate)).
  rewrite list_fmap_insert. apply list_insert_id. rewrite list_lookup_fmap, H. done.
Qed.

Lemma filter_len_insert (P : string * wstate → bool) i x y ws :
  ws !! i = Some x →
  length (List.filter P (<[i := y]> ws)) + (if P x then 1 else 0) =
  length (List.filter P ws) + (if P y then 1 else 0).
Proof.
  revert i. induction ws as [|w ws IH]; intros [|i]; simpl; try done.
  - intros [= ->]. destruct (P x), (P y); simpl; lia.
  - intros H. specialize (IH _ H). destruct (P w); simpl; lia.
Qed.
Lemma filter_len_delete (P : string * wstate → bool) i x ws :
  ws !! i = Some x →
  length (List.filter P (delete i ws)) + (if P x then 1 else 0) = length (List.filter P ws).
Proof.
  revert i. induction ws as [|w ws IH]; intros [|i]; simpl; try done.
  - intros [= ->]. destruct (P x); simpl; lia.
  - intros H. specialize (IH _ H). destruct (P w); simpl; lia.
Qed.

Lemma map_fst_delete i (ws : list (string * wstate)) :
  map fst (delete i ws) = delete i (map fst ws).
Proof. revert i. induction ws as [|w ws IH]; intros [|i]; simpl; try done. by rewrite IH. Qed.

Lemma NoDup_delete_set i s (l : list string) :
  NoDup l → l !! i = Some s →
  NoDup (delete i l) ∧ (list_to_set (delete i l) : gset string) = list_to_set l ∖ {[s]}.
Proof.
  intros Hn Hi. assert (Hp : l ≡ₚ s :: delete i l) by (by apply delete_Permutation).
  rewrite Hp in Hn. apply NoDup_cons in Hn as [Hs Hn]. split; [done|].
  rewrite (list_to_set_perm_L _ _ Hp). set_solver.
Qed.

Lemma dinv_init m : dinv (disp_init m).
Proof.
  split; simpl; [apply NoDup_nil_2|done|done|]. intros. unfold permits, n_holding. simpl. lia.
Qed.

Lemma dinv_submit s e d : dinv d → dinv (submit s e d).
Proof.
  intros [Hn Hr Hf Hp].
  assert (Hfifo : ∀ s', (of_source s' (d_taken d) ++
            (if decide (s' = s) then queue_of d s ++ [e] else queue_of d s'))%list
            = of_source s' (d_submitted d ++ [(s, e)])).
  { intros s'. rewrite of_source_snoc, <-Hf. repeat case_decide; simplify_eq; [|done].
    by rewrite app_assoc. }
  unfold submit. case_decide as Hin; simpl in Hin.
  - split; simpl; [done..| |done]. intros s'. rewrite <-Hfifo. f_equal. apply queue_of_set.
  - split; simpl.
    + rewrite map_app. simpl. apply NoDup_app. rewrite Hr, elem_of_list_to_set in Hin.
      split; [done|]. split; [|apply NoDup_singleton]. intros x Hx ->%list_elem_of_singleton. done.
    + rewrite map_app, list_to_set_app_L, Hr. simpl. set_solver.
    + intros s'. rewrite <-Hfifo. f_equal. apply queue_of_set.
    + intros Hm. unfold n_holding. simpl. rewrite List.filter_app, length_app. simpl.
      specialize (Hp Hm). unfold n_holding, permits in *. simpl in *. lia.
Qed.

Lemma dinv_goto i s w0 w d :
  d_workers d !! i = Some (s, w0) → holding (s, w0) = holding (s, w) →
  dinv d → dinv (worker_goto i s w d).
Proof.
  intros Hi Hw [Hn Hr Hf Hp]. unfold worker_goto. split; simpl.
  - by erewrite map_fst_insert.
  - by erewrite map_fst_insert.
  - done.
  - intros Hm. specialize (Hp Hm). unfold n_holding in *. simpl.
    pose proof (filter_len_insert holding i _ (s, w) _ Hi) as HL. rewrite Hw in HL.
    unfold permits in *. simpl in *. lia.
Qed.

Lemma dinv_exit i s w0 d :
  d_workers d !! i = Some (s, w0) → holding (s, w0) = true → dinv d → dinv (worker_exit i s d).
Proof.
  intros Hi Hh [Hn Hr Hf Hp].
  assert (Hi' : map fst (d_workers d) !! i = Some s).
  { change (map fst) with (fmap (M := list) (@fst string wstate)).
    by rewrite list_lookup_fmap, Hi. }
  destruct (NoDup_delete_set i s _ Hn Hi') as [Hn' Hs'].
  assert (HL := filter_len_delete holding i _ _ Hi). rewrite Hh in HL.
  unfold worker_exit. simpl. destruct (0 <? d_max d)%Z eqn:Em; split; simpl;
    rewrite ?map_fst_delete, ?Hs', ?Hr; try done.
  - intros Hm. specialize (Hp Hm). unfold n_holding, permits in *. simpl in *. lia.
  - intros Hm. apply Z.ltb_ge in Em. lia.
Qed.

Lemma dinv_next i s w0 d :
  d_workers d !! i = Some (s, w0) → holding (s, w0) = true → dinv d → dinv (worker_next i s d).
Proof.
  intros Hi Hh Hd. unfold worker_next. destruct (queue_of d s).
  - by eapply dinv_exit.
  - eapply dinv_goto; [done|by rewrite Hh|done].
Qed.

Lemma dinv_acquire i s d d' :
  d_workers d !! i = Some (s, WStart) → dinv d → worker_acquire i s d = Some d' → dinv d'.
Proof.
  intros Hi [Hn Hr Hf Hp]. unfold worker_acquire.
  pose proof (filter_len_insert holding i _ (s, WGet) _ Hi) as HL. simpl in HL.
  destruct (0 <? d_max d)%Z eqn:Em.
  - destruct (permits d) as [|n] eqn:Ep; [done|]. intros [= <-].
    split; simpl; [by erewrite map_fst_insert..|done|].
    intros Hm. specialize (Hp Hm). unfold n_holding, permits in *. simpl in *. lia.
  - intros [= <-]. split; simpl; [by erewrite map_fst_insert..|done|].
    intros Hm. apply Z.ltb_ge in Em. lia.
Qed.

Lemma dinv_get i s d d' :
  d_workers d !! i = Some (s, WGet) → dinv d → worker_get i s d = Some d' → dinv d'.
Proof.
  intros Hi Hd. unfold worker_get. destruct (queue_of d s) as [|e q] eqn:Eq; [done|].
  intros [= <-]. apply (dinv_goto i s WGet (WBusy e)); [done|done|].
  destruct Hd as [Hn Hr Hf Hp]. split; simpl; [done..| |done].
  intros s'. rewrite of_source_snoc, <-Hf.
  assert (queue_of (log_take s e (set_queue s q d)) s'
          = if decide (s' = s) then q else queue_of d s') as -> by apply queue_of_set.
  repeat case_decide; simplify_eq; [|done]. rewrite Eq. by rewrite <-app_assoc.
Qed.

Lemma dinv_step l d d' : dinv d → dstep l d = Some d' → dinv d'.
Proof.
  intros Hd. destruct l as [s e|i|i r|i b]; simpl.
  - intros [= <-]. by apply dinv_submit.
  - destruct (d_workers d !! i) as [[s []]|] eqn:Hi; try done.
    + by eapply dinv_acquire.
    + by eapply dinv_get.
  - destruct (d_workers d !! i) as [[s []]|] eqn:Hi; try done. intros [= <-].
    assert (Hx : dinv (worker_exit i s d)) by (by eapply dinv_exit).
    assert (Hg : ∀ w, holding (s, w) = true → dinv (worker_goto i s w d))
      by (intros w Hw; by eapply dinv_goto).
    unfold worker_reply. destruct r as [v|]; [|done].
    assert (dinv (worker_next i s d)) by (by eapply dinv_next).
    repeat (case_match; auto).
  - destruct (d_workers d !! i) as [[s []]|] eqn:Hi; try done. intros [= <-].
    unfold worker_emitted. destruct b; [by eapply dinv_exit|].
    eapply dinv_next; [exact Hi|done|]. by destruct Hd.
Qed.

Lemma dinv_reach ok m d : dreach ok m d → dinv d.
Proof. induction 1; [apply dinv_init|by eapply dinv_step]. Qed.

Lemma worker_exit_max i s d : d_max (worker_exit i s d) = d_max d.
Proof. unfold worker_exit. by case_match. Qed.
Lemma worker_next_max i s d : d_max (worker_next i s d) = d_max d.
Proof. unfold worker_next. case_match; [apply worker_exit_max|done]. Qed.
Lemma worker_reply_max i s e r d : d_max (worker_reply i s e r d) = d_max d.
Proof.
  unfold worker_reply. repeat (case_match; try done);
    auto using worker_exit_max, worker_next_max.
Qed.
Lemma dstep_max l d d' : dstep l d = Some d' → d_max d' = d_max d.
Proof.
  destruct l as [s e|i|i r|i b]; simpl.
  - intros [= <-]. unfold submit. by case_decide.
  - unfold worker_acquire, worker_get. intros. repeat (case_match; simplify_eq/=; try done).
  - intros. repeat case_match; simplify_eq/=. apply worker_reply_max.
  - intros. repeat case_match; simplify_eq/=.
    unfold worker_emitted. case_match; [apply worker_exit_max|by rewrite worker_next_max].
Qed.
Lemma dreach_max ok m d : dreach ok m d → d_max d = m.
Proof. induction 1; [done|]. erewrite dstep_max; eauto. Qed.

(** ** Progress *)

(** A worker that waits has an event to take; a queued event has a worker. *)
Definition wok (d : disp) (w : string * wstate) : Prop :=
  match w.2 with
  | WStart | WGet => queue_of d w.1 ≠ []
  | WBusy e => good_event e
  | WEmit _ => True
  end.
Record ginv (d : disp) : Prop := {
  g_workers : ∀ w, w ∈ d_workers d → wok d w;
  g_queued : ∀ s, queue_of d s ≠ [] → s ∈ d_running d;
  g_good : ∀ s e, e ∈ queue_of d s → good_event e
}.

Lemma elem_insert_inv (ws : list (string * wstate)) i x y :
  x ∈ <[i := y]> ws → x = y ∨ x ∈ ws.
Proof.
  intros [j Hj]%list_elem_of_lookup. destruct (decide (i = j)) as [->|Hne].
  - apply list_lookup_insert_Some in Hj as [(_ & <- & _)|[? _]]; [by left|done].
  - rewrite list_lookup_insert_ne in Hj by done. right. by eapply list_elem_of_lookup_2.
Qed.
Lemma elem_insert_new (ws : list (string * wstate)) i x y :
  ws !! i = Some x → y ∈ <[i := y]> ws.
Proof.
  intros Hi. apply list_elem_of_lookup. exists i.
  apply list_lookup_insert_eq. by eapply lookup_lt_Some.
Qed.
Lemma elem_delete_inv (ws : list (string * wstate)) i x : x ∈ delete i ws → x ∈ ws.
Proof.
  revert i. induction ws as [|w ws IH]; intros [|i]; simpl; try done; [set_solver|].
  intros [->|?]%elem_of_cons; [left|right; eauto].
Qed.
Lemma worker_unique d s w w' :
  dinv d → (s, w) ∈ d_workers d → (s, w') ∈ d_workers d → w = w'.
Proof.
  intros [Hn _ _ _]. induction (d_workers d) as [|[s0 w0] ws IH]; [set_solver|].
  apply NoDup_cons in Hn as [Hs Hn]. intros [?|H1]%elem_of_cons [?|H2]%elem_of_cons; simplify_eq.
  - done.
  - destruct Hs. apply list_elem_of_fmap. by exists (s0, w').
  - destruct Hs. apply list_elem_of_fmap. by exists (s0, w).
  - by apply IH.
Qed.

Lemma ginv_init m : ginv (disp_init m).
Proof. split; simpl; set_solver. Qed.

Lemma ginv_submit s e d : dinv d → good_event e → ginv d → ginv (submit s e d).
Proof.
  intros Hd He [Hw Hq Hg].
  assert (HQ : ∀ s', queue_of (submit s e d) s'
               = if decide (s' = s) then (queue_of d s ++ [e])%list else queue_of d s').
  { intros s'. unfold submit. case_decide; apply queue_of_set. }
  assert (HW : ∀ w, w ∈ d_workers d → wok (submit s e d) w).
  { intros [s' []] Hin; specialize (Hw _ Hin); unfold wok in *; simpl in *; try done;
      rewrite HQ; case_decide; try done; by destruct (queue_of d s). }
  split.
  - intros w Hin. assert (Hin' : w ∈ d_workers d ∨ w = (s, WStart)).
    { unfold submit in Hin. case_decide; simpl in Hin; [by left|]. set_solver. }
    destruct Hin' as [?| ->]; [by apply HW|].
    unfold wok. simpl. rewrite HQ. case_decide; [|done]. by destruct (queue_of d s).
  - intros s'. rewrite HQ. unfold submit. repeat case_decide; simpl in *; subst; try set_solver.
  - intros s' e'. rewrite HQ. case_decide; [|apply Hg].
    intros [?| ->%list_elem_of_singleton]%elem_of_app; [by eapply Hg|done].
Qed.

Lemma ginv_exit i s d :
  queue_of d s = [] → ginv d → ginv (worker_exit i s d).
Proof.
  intros Hq [Hw Hr Hg].
  assert (HQ : ∀ s', queue_of (worker_exit i s d) s' = queue_of d s').
  { intros. unfold worker_exit. by case_match. }
  split.
  - intros w Hin. assert (Hin' : w ∈ d_workers d).
    { unfold worker_exit in Hin. case_match; simpl in Hin; by eapply elem_delete_inv. }
    specialize (Hw _ Hin'). unfold wok in *. destruct w as [s' []]; simpl in *; by rewrite ?HQ.
  - intros s'. rewrite HQ. intros Hne. assert (s' ≠ s) by congruence. specialize (Hr _ Hne).
    unfold worker_exit. case_match; simpl; set_solver.
  - intros s' e. rewrite HQ. apply Hg.
Qed.

Lemma ginv_goto i s w d :
  wok d (s, w) → ginv d → ginv (worker_goto i s w d).
Proof.
  intros Hok [Hw Hr Hg]. split; [|done..].
  intros x [->|Hin]%elem_insert_inv; [done|]. by apply Hw.
Qed.

Lemma ginv_next i s d : ginv d → ginv (worker_next i s d).
Proof.
  intros Hd. unfold worker_next. destruct (queue_of d s) eqn:E; [by apply ginv_exit|].
  apply ginv_goto; [|done]. unfold wok. simpl. by rewrite E.
Qed.

Lemma ginv_reply i s e r d :
  good_event e → well_behaved (LReply i r) → ginv d → ginv (worker_reply i s e r d).
Proof.
  intros [rc Hrc] Hb Hd. unfold worker_reply. destruct r as [v|]; [|done].
  assert (Hget : ∃ b, py_get e "receipt" = Ok b).
  { unfold receipt_event in Hrc. apply bind_ok in Hrc as (x & Hx & _).
    destruct e; simplify_eq/=; eauto. }
  destruct Hget as [b Hget]. rewrite Hget, Hrc.
  assert (∀ v', ginv (worker_goto i s (WEmit v') d)) by (intros; by apply ginv_goto).
  assert (ginv (worker_next i s d)) by (by apply ginv_next).
  destruct v; [by destruct Hb|..]; repeat (case_match; auto).
Qed.

Lemma ginv_step l d d' :
  dinv d → well_behaved l → ginv d → dstep l d = Some d' → ginv d'.
Proof.
  intros Hd Hb Hg Hs. assert (Hd' : dinv d') by (by eapply dinv_step).
  destruct l as [s e|i|i r|i b]; simpl in Hs.
  - injection Hs as <-. by apply ginv_submit.
  - destruct (d_workers d !! i) as [[s []]|] eqn:Hi; try done.
    + assert (Hok : wok d (s, WStart)) by (by eapply Hg, list_elem_of_lookup_2).
      unfold worker_acquire in Hs.
      repeat (case_match; simplify_eq/=); (apply ginv_goto; [done|]); [|done].
      by destruct Hg.
    + unfold worker_get in Hs. destruct (queue_of d s) as [|e q] eqn:Eq; [done|].
      injection Hs as <-. destruct Hg as [Hw Hr Hgd].
      assert (He : good_event e) by (apply (Hgd s); rewrite Eq; left).
      assert (HQ : ∀ s', queue_of (worker_goto i s (WBusy e) (log_take s e (set_queue s q d))) s'
                   = if decide (s' = s) then q else queue_of d s') by (intros; apply queue_of_set).
      split.
      * intros [s' w] Hin. destruct (decide (s' = s)) as [->|Hne].
        -- assert (w = WBusy e) as ->; [|done].
           eapply (worker_unique _ s); [exact Hd'|done|]. by eapply elem_insert_new.
        -- simpl in Hin. apply elem_insert_inv in Hin as [[= ? _]|Hin]; [done|].
           specialize (Hw _ Hin). unfold wok in *. simpl in *. rewrite HQ.
           by rewrite decide_False.
      * intros s'. rewrite HQ. case_decide; [|apply Hr]. subst. intros _. apply Hr. by rewrite Eq.
      * intros s' e'. rewrite HQ. case_decide; [|apply Hgd]. subst. intros. apply (Hgd s).
        rewrite Eq. by right.
  - destruct (d_workers d !! i) as [[s []]|] eqn:Hi; try done. injection Hs as <-.
    apply ginv_reply; [|done..]. exact (g_workers d Hg _ (list_elem_of_lookup_2 _ _ _ Hi)).
  - destruct (d_workers d !! i) as [[s []]|] eqn:Hi; try done. injection Hs as <-.
    destruct b; [done|]. apply ginv_next. by destruct Hg.
Qed.

Lemma ginv_reach m d : dreach well_behaved m d → ginv d.
Proof.
  induction 1 as [|l d d' Hr IH Hl Hs]; [apply ginv_init|].
  eapply ginv_step; [|done..]. by eapply dinv_reach.
Qed.

(** ** Termination *)

Lemma sum_insert (ws : list (string * wstate)) i x y :
  ws !! i = Some x →
  sum_list_with weight (<[i := y]> ws) + weight x = sum_list_with weight ws + weight y.
Proof.
  revert i. induction ws as [|w ws IH]; intros [|i]; simpl; try done.
  - intros [= ->]. lia.
  - intros H. specialize (IH _ H). lia.
Qed.
Lemma sum_delete (ws : list (string * wstate)) i x :
  ws !! i = Some x → sum_list_with weight (delete i ws) + weight x = sum_list_with weight ws.
Proof.
  revert i. induction ws as [|w ws IH]; intros [|i]; simpl; try done.
  - intros [= ->]. lia.
  - intros H. specialize (IH _ H). lia.
Qed.
Lemma sum_dset s (q : list value) (d : dict (list value)) :
  sum_list_with (λ kq, length kq.2) (dset s q d) + length (default [] (dget s d)) =
  sum_list_with (λ kq, length kq.2) d + length q.
Proof.
  induction d as [|[k v] d IH]; simpl; [lia|]. case_decide; simpl; lia.
Qed.

Lemma measure_exit i s w d :
  d_workers d !! i = Some (s, w) → measure (worker_exit i s d) + weight (s, w) = measure d.
Proof.
  intros Hi. pose proof (sum_delete _ _ _ Hi). unfold measure, worker_exit.
  case_match; simpl in *; lia.
Qed.
Lemma measure_goto i s w w' d :
  d_workers d !! i = Some (s, w) →
  measure (worker_goto i s w' d) + weight (s, w) = measure d + weight (s, w').
Proof. intros Hi. pose proof (sum_insert _ _ _ (s, w') Hi). unfold measure. simpl in *. lia. Qed.
Lemma measure_next i s w d :
  d_workers d !! i = Some (s, w) → measure (worker_next i s d) + weight (s, w) = measure d.
Proof.
  intros Hi. unfold worker_next. case_match; [by apply measure_exit|].
  pose proof (measure_goto i s w WGet d Hi) as HG. change (weight (s, WGet)) with 0 in HG. lia.
Qed.

Lemma measure_reply i s e r d :
  d_workers d !! i = Some (s, WBusy e) → measure (worker_reply i s e r d) < measure d.
Proof.
  intros Hi.
  assert (H1 := measure_exit i s _ d Hi). assert (H2 := measure_next i s _ d Hi).
  assert (H3 := λ v, measure_goto i s _ (WEmit v) d Hi).
  assert (H4 := measure_goto i s _ WGet d Hi).
  change (weight (s, WBusy e)) with 3 in *. change (weight (s, WGet)) with 0 in *.
  assert (H3' : ∀ v, measure (worker_goto i s (WEmit v) d) < measure d).
  { intros v. specialize (H3 v). change (weight (s, WEmit v)) with 2 in H3. lia. }
  unfold worker_reply. repeat (case_match; try apply H3'; try lia).
Qed.

Lemma measure_get i s d d' :
  d_workers d !! i = Some (s, WGet) → worker_get i s d = Some d' → measure d' < measure d.
Proof.
  intros Hi. unfold worker_get, queue_of. destruct (default [] _) as [|e q] eqn:Eq; [done|].
  intros [= <-]. pose proof (sum_dset s q (d_queues d)) as HD. rewrite Eq in HD.
  pose proof (sum_insert _ _ _ (s, WBusy e) Hi) as HI.
  change (weight (s, WBusy e)) with 3 in HI. change (weight (s, WGet)) with 0 in HI.
  change (length (e :: q)) with (S (length q)) in HD.
  unfold measure, worker_goto, log_take, set_queue, set_workers. cbn [d_queues d_workers]. lia.
Qed.

Lemma measure_acquire i s d d' :
  d_workers d !! i = Some (s, WStart) → worker_acquire i s d = Some d' → measure d' < measure d.
Proof.
  intros Hi. pose proof (sum_insert _ _ _ (s, WGet) Hi) as HI.
  change (weight (s, WStart)) with 1 in HI. change (weight (s, WGet)) with 0 in HI.
  unfold worker_acquire.
  destruct (0 <? d_max d)%Z; [destruct (permits d); [done|]|]; intros [= <-];
    unfold measure, worker_goto, set_sem, set_workers; cbn [d_queues d_workers]; lia.
Qed.

Lemma measure_step l d d' : worker_label l → dstep l d = Some d' → measure d' < measure d.
Proof.
  destruct l as [s e|i|i r|i b]; simpl; intros Hl Hs; [done|..].
  - destruct (d_workers d !! i) as [[s []]|] eqn:Hi; try done;
      [by eapply measure_acquire|by eapply measure_get].
  - destruct (d_workers d !! i) as [[s []]|] eqn:Hi; try done. injection Hs as <-.
    by apply measure_reply.
  - destruct (d_workers d !! i) as [[s []]|] eqn:Hi; try done. injection Hs as <-.
    unfold worker_emitted. destruct b.
    + assert (H := measure_exit i s _ d Hi). change (weight (s, WEmit result)) with 2 in H. lia.
    + assert (H := measure_next i s _ (log_emit s result d) Hi).
      change (weight (s, WEmit result)) with 2 in H.
      change (measure (log_emit s result d)) with (measure d) in H. lia.
Qed.

Lemma measure_runs ls d d' :
  Forall worker_label ls → druns ls d = Some d' → length ls + measure d' ≤ measure d.
Proof.
  revert d. induction ls as [|l ls IH]; intros d Hl; simpl; [intros [= <-]; lia|].
  apply Forall_cons in Hl as [Hl Hls].
  destruct (dstep l d) as [d1|] eqn:E; [|done]. intros Hr.
  apply measure_step in E; [|done]. specialize (IH _ Hls Hr). lia.
Qed.

Lemma druns_inv ls d d' :
  dinv d → ginv d → Forall well_behaved ls → druns ls d = Some d' → dinv d' ∧ ginv d'.
Proof.
  revert d. induction ls as [|l ls IH]; intros d Hd Hg Hw; simpl; [by intros [= <-]|].
  apply Forall_cons in Hw as [Hl Hls]. destruct (dstep l d) as [d1|] eqn:E; [|done].
  apply IH; [by eapply dinv_step|by eapply ginv_step|done].
Qed.

(** A state where no worker can run has no worker at all. *)
Lemma stuck_empty d : dinv d → ginv d → stuck d → d_workers d = [].
Proof.
  intros Hd Hg Hs.
  assert (Hstart : ∀ w, w ∈ d_workers d → ∃ s, w = (s, WStart)).
  { intros [s w] Hin. pose proof (g_workers d Hg _ Hin) as Hok.
    apply list_elem_of_lookup in Hin as [i Hi].
    destruct w as [| |e|v]; [by eauto|exfalso..].
    - specialize (Hs (LWorker i) I). simpl in Hs. rewrite Hi in Hs. unfold worker_get in Hs.
      unfold wok in Hok. simpl in Hok. by destruct (queue_of d s).
    - specialize (Hs (LReply i (Ok VOID)) I). simpl in Hs. by rewrite Hi in Hs.
    - specialize (Hs (LEmitted i false) I). simpl in Hs. by rewrite Hi in Hs. }
  destruct (d_workers d) as [|[s w] ws] eqn:Ews; [done|exfalso].
  destruct (Hstart (s, w)) as [? [= <- ->]]; [left|].
  pose proof (Hs (LWorker 0) I) as H0. simpl in H0. rewrite Ews in H0. simpl in H0.
  unfold worker_acquire in H0. destruct (0 <? d_max d)%Z eqn:Em; [|done].
  apply Z.ltb_lt in Em. pose proof (inv_permits d Hd Em) as Hp.
  destruct (permits d); [|done]. unfold n_holding in Hp.
  rewrite filter_none in Hp; [simpl in Hp; lia|].
  rewrite Ews. intros x Hx. by destruct (Hstart x Hx) as [? ->].
Qed.

(** ** Properties *)

(** C8: per-source order: in every reachable state, whatever [respond] and [emit] do, the
    events a source submitted are the events its worker took, in the order of submission,
    followed by those still queued: none is lost, duplicated or reordered, and a source is
    never served by two workers. *)
Theorem dispatcher_fifo (m : Z) (d : disp) (s : string) :
  dreach (λ _, True) m d →
  of_source s (d_submitted d) = (of_source s (d_taken d) ++ queue_of d s)%list ∧
  NoDup (map fst (d_workers d)) ∧ d_running d = list_to_set (map fst (d_workers d)).
Proof. intros Hr%dinv_reach. destruct Hr as [Hn Hrun Hf _]. by rewrite Hf. Qed.

Definition ev (n : string) : value := mk_event n "dev" "application" (VDict []).

Definition two_sources : list dlabel :=
  [LSubmit "a" (ev "a"); LSubmit "b" (ev "b"); LSubmit "a" (ev "a"); LWorker 0; LWorker 0;
   LReply 0 (Ok VOID)].

Lemma dreach_runs (ok : dlabel → Prop) m ls d d' :
  dreach ok m d → Forall ok ls → druns ls d = Some d' → dreach ok m d'.
Proof.
  revert d. induction ls as [|l ls IH]; intros d Hd Hl; simpl; [by intros [= <-]|].
  apply Forall_cons in Hl as [Hl Hls]. destruct (dstep l d) as [d1|] eqn:E; [|done].
  apply IH; [|done]. by eapply dreach_step.
Qed.

Lemma runs_some ls d :
  (match druns ls d with Some _ => true | None => false end) = true →
  ∃ d', druns ls d = Some d'.
Proof. destruct (druns ls d); eauto; done. Qed.

Lemma two_sources_runs : ∃ d, druns two_sources (disp_init 0) = Some d.
Proof. apply runs_some. vm_compute. reflexivity. Qed.

Lemma dispatcher_fifo_witness :
  ∃ d, druns two_sources (disp_init 0) = Some d ∧
       of_source "a" (d_submitted d) = (of_source "a" (d_taken d) ++ queue_of d "a")%list.
Proof.
  destruct two_sources_runs as [d E]. exists d. split; [exact E|].
  apply (dispatcher_fifo 0 d "a").
  apply (dreach_runs _ _ two_sources (disp_init 0)); [apply dreach_init| |exact E].
  repeat constructor.
Defined.

(** With a positive bound on concurrent sources, never more workers than the bound
    hold a permit. *)
Theorem dispatcher_bounded (m : Z) (d : disp) :
  (0 < m)%Z → dreach (λ _, True) m d → n_holding d ≤ Z.to_nat m.
Proof.
  intros Hm Hr. pose proof (dreach_max _ _ _ Hr) as <-. apply dinv_reach in Hr.
  pose proof (inv_permits d Hr Hm). lia.
Qed.

Lemma bounded_example :
  ∃ d, druns [LSubmit "a" (ev "a"); LSubmit "b" (ev "b"); LWorker 0] (disp_init 1) = Some d.
Proof. apply runs_some. vm_compute. reflexivity. Qed.

Lemma dispatcher_bounded_witness :
  ∃ d, druns [LSubmit "a" (ev "a"); LSubmit "b" (ev "b"); LWorker 0] (disp_init 1) = Some d ∧
       n_holding d ≤ 1.
Proof.
  destruct bounded_example as [d E]. exists d. split; [exact E|].
  apply (dispatcher_bounded 1 d); [lia|].
  apply (dreach_runs _ _ [LSubmit "a" (ev "a"); LSubmit "b" (ev "b"); LWorker 0] (disp_init 1));
    [apply dreach_init| |exact E]. repeat constructor.
Defined.

(** C9: every submitted event is handled: when [respond] returns an event or VOID and no
    exception is raised, the workers run at most [measure] steps without a new submission,
    whatever the schedule, and when none can run any more every submitted event has been
    taken and every worker has ended. *)
Theorem dispatcher_drains (m : Z) (d d' : disp) (ls : list dlabel) :
  dreach well_behaved m d → Forall well_behaved ls → Forall worker_label ls →
  druns ls d = Some d' →
  length ls ≤ measure d ∧
  (stuck d' → d_workers d' = [] ∧
              ∀ s, of_source s (d_taken d') = of_source s (d_submitted d')).
Proof.
  intros Hr Hw Hl Hrun. split.
  { pose proof (measure_runs _ _ _ Hl Hrun). lia. }
  intros Hs. pose proof (dinv_reach _ _ _ Hr). pose proof (ginv_reach _ _ Hr).
  destruct (druns_inv ls d d') as [Hd Hg]; try done.
  pose proof (stuck_empty d' Hd Hg Hs) as He. split; [done|].
  intros s. rewrite <-(inv_fifo d' Hd s).
  destruct (queue_of d' s) eqn:Eq; [by rewrite app_nil_r|exfalso].
  assert (Hin : s ∈ d_running d') by (apply (g_queued d' Hg); by rewrite Eq).
  rewrite (inv_running d' Hd), He in Hin. set_solver.
Qed.

Lemma good_ev n : good_event (ev n).
Proof. eexists. reflexivity. Qed.

Lemma stuck_nil d : d_workers d = [] → stuck d.
Proof. intros E [] Hl; simpl in *; [done|..]; by rewrite E. Qed.

Lemma drain_example :
  ∃ d d', druns [LSubmit "a" (ev "a"); LSubmit "b" (ev "b")] (disp_init 1) = Some d ∧
    druns [LWorker 0; LWorker 0; LReply 0 (Ok VOID); LWorker 0; LWorker 0; LReply 0 (Ok VOID)] d
    = Some d' ∧ d_workers d' = [].
Proof.
  assert (match druns [LSubmit "a" (ev "a"); LSubmit "b" (ev "b")] (disp_init 1) with
          | Some d =>
              match druns [LWorker 0; LWorker 0; LReply 0 (Ok VOID); LWorker 0; LWorker 0;
                           LReply 0 (Ok VOID)] d with
              | Some d' => length (d_workers d') =? 0
              | None => false
              end
          | None => false
          end = true) as H by (vm_compute; reflexivity).
  destruct (druns _ (disp_init 1)) as [d|]; [|done].
  destruct (druns _ d) as [d'|] eqn:E; [|done]. exists d, d'. split_and!; [done..|].
  apply Nat.eqb_eq in H. by apply nil_length_inv.
Qed.

Lemma dispatcher_drains_witness :
  ∃ d d', druns [LSubmit "a" (ev "a"); LSubmit "b" (ev "b")] (disp_init 1) = Some d ∧
    druns [LWorker 0; LWorker 0; LReply 0 (Ok VOID); LWorker 0; LWorker 0; LReply 0 (Ok VOID)] d
    = Some d' ∧ 6 ≤ measure d ∧ of_source "b" (d_taken d') = of_source "b" (d_submitted d').
Proof.
  destruct drain_example as (d & d' & E1 & E2 & Hnil). exists d, d'.
  split; [exact E1|]. split; [exact E2|].
  assert (Hr : dreach well_behaved 1 d).
  { apply (dreach_runs _ _ [LSubmit "a" (ev "a"); LSubmit "b" (ev "b")] (disp_init 1));
      [apply dreach_init| |exact E1].
    constructor; [apply good_ev|]. constructor; [apply good_ev|constructor]. }
  destruct (λ Hw Hl, dispatcher_drains 1 d d' _ Hr Hw Hl E2) as [H1 H2].
  { repeat constructor. }
  { repeat constructor. }
  split; [exact H1|]. apply H2. apply stuck_nil. exact Hnil.
Defined.

(** One None reply can starve the other sources: with one concurrent source, after the
    only event of a source was answered with None its worker stays at [queue.get()] with the
    permit, and no worker can take the event of another source. *)
Theorem none_reply_starves (a b : string) (ea eb : value) :
  a ≠ b →
  ∃ d, druns [LSubmit a ea; LWorker 0; LWorker 0; LReply 0 (Ok VNone); LSubmit b eb] (disp_init 1)
       = Some d ∧ stuck d ∧ queue_of d b = [eb] ∧ of_source b (d_taken d) = [].
Proof.
  intros Hne.
  set (d1 := mkDisp 1 [(a, [ea])] ({[a]} ∪ ∅) None [(a, WStart)] [(a, ea)] [] []).
  set (d2 := mkDisp 1 [(a, [ea])] ({[a]} ∪ ∅) (Some 0) [(a, WGet)] [(a, ea)] [] []).
  set (d3 := mkDisp 1 [(a, [])] ({[a]} ∪ ∅) (Some 0) [(a, WBusy ea)] [(a, ea)] [(a, ea)] []).
  set (d4 := mkDisp 1 [(a, [])] ({[a]} ∪ ∅) (Some 0) [(a, WGet)] [(a, ea)] [(a, ea)] []).
  set (d5 := mkDisp 1 [(a, []); (b, [eb])] ({[b]} ∪ ({[a]} ∪ ∅)) (Some 0)
               [(a, WGet); (b, WStart)] [(a, ea); (b, eb)] [(a, ea)] []).
  assert (E1 : dstep (LSubmit a ea) (disp_init 1) = Some d1).
  { simpl. unfold submit. rewrite decide_False by (simpl; set_solver). done. }
  assert (E3 : dstep (LWorker 0) d2 = Some d3).
  { simpl. unfold worker_get, queue_of. simpl. rewrite decide_True by done. simpl.
    unfold set_queue. simpl. by rewrite decide_True. }
  assert (E5 : dstep (LSubmit b eb) d4 = Some d5).
  { simpl. unfold submit. rewrite decide_False by (simpl; set_solver). unfold set_queue, queue_of.
    simpl. by rewrite !decide_False. }
  exists d5. split.
  { assert (E2 : dstep (LWorker 0) d1 = Some d2) by done.
    assert (E4 : dstep (LReply 0 (Ok VNone)) d3 = Some d4) by done.
    clearbody d1 d2 d3 d4. cbn [druns]. by rewrite E1, E2, E3, E4, E5. }
  assert (Hqa : queue_of d5 a = []) by (unfold queue_of; simpl; by rewrite decide_True).
  split_and!.
  - intros [s e|i|i r|i raised] Hl; [done|..]; simpl;
      destruct i as [|[|i]]; simpl; try done. unfold worker_get. by rewrite Hqa.
  - unfold queue_of. simpl. rewrite decide_False by done. by rewrite decide_True.
  - unfold of_source. simpl. by rewrite bool_decide_eq_false_2.
Qed.

Lemma none_reply_starves_witness :
  ∃ d, druns [LSubmit "a" (ev "a"); LWorker 0; LWorker 0; LReply 0 (Ok VNone);
              LSubmit "b" (ev "b")] (disp_init 1) = Some d ∧
       stuck d ∧ queue_of d "b" = [ev "b"] ∧ of_source "b" (d_taken d) = [].
Proof. apply (none_reply_starves "a" "b" (ev "a") (ev "b")). discriminate. Defined.
