(* ===== verification/AgentOS.v ===== *)
(** * The kernel (kernel/agent_os.py, kernel/process_handle.py)

    AgentOS owns the routing table (identity to entity), hosts the Authority and the
    Journal, starts and stops processes through their handles, and handles events: validate,
    enrich, record, route.  Installation, removal, maintenance sessions and grants are
    system commands addressed to the kernel itself.

    Operations run in [M kernel]: an exception keeps the changes made before it.  A process
    is an entry of a process table; a handle refers to its entry.  The awaits on Authority and
    Journal do not suspend (their coroutines never await), so a handler runs to its end;
    the wait for a terminating process is part of the handler's step. *)

From stdpp Require Import base gmap strings list.
From Stdlib Require Import ZArith.
From S2P Require Import Prelude PyValue EventProtocol Authority Journal Process Dispatcher.

Local Open Scope string_scope.
Local Open Scope nat_scope.

Definition KERNEL_IDENTITY : string := "kernel".

Definition EMPTY_AUTH : value := VDict [("position", VNone); ("scopes", VList [])].

(** A process of the host: what was started, whether it lives, what was sent to it. *)
Record procrec := ProcRec {
  pr_proc : uproc;
  pr_alive : bool;
  pr_inbox : list value
}.

(** ProcessHandle: [h_spawn] is what the [spawn] closure builds, [h_process] the index in
    the process table of the running process. *)
Record handle := Handle {
  h_identity : string;
  h_spawn : res uproc;
  h_process : option nat
}.

Inductive entity :=
| EKernel
| EKernelDevice
| EHandle (h : handle).

(** [k_disk]: the Python files a device may be loaded from, with the attributes the module
    has after execution or the exception it raises; [k_dirs]: the directories made. *)
Record kernel := mkKernel {
  runtime_root : string;
  entities : dict entity;
  _agent_ids : list string;
  k_authority : authority;
  k_journal : journal;
  _kdispatchers : dict disp;
  k_procs : list procrec;
  event_bus : list value;
  k_disk : dict (res (dict value));
  k_dirs : list string
}.

Definition set_entities (f : dict entity → dict entity) (k : kernel) : kernel :=
  mkKernel (runtime_root k) (f (entities k)) (_agent_ids k) (k_authority k) (k_journal k)
    (_kdispatchers k) (k_procs k) (event_bus k) (k_disk k) (k_dirs k).
Definition set_agent_ids (f : list string → list string) (k : kernel) : kernel :=
  mkKernel (runtime_root k) (entities k) (f (_agent_ids k)) (k_authority k) (k_journal k)
    (_kdispatchers k) (k_procs k) (event_bus k) (k_disk k) (k_dirs k).
Definition set_authority (a : authority) (k : kernel) : kernel :=
  mkKernel (runtime_root k) (entities k) (_agent_ids k) a (k_journal k)
    (_kdispatchers k) (k_procs k) (event_bus k) (k_disk k) (k_dirs k).
Definition set_journal (j : journal) (k : kernel) : kernel :=
  mkKernel (runtime_root k) (entities k) (_agent_ids k) (k_authority k) j
    (_kdispatchers k) (k_procs k) (event_bus k) (k_disk k) (k_dirs k).
Definition set_kdispatchers (f : dict disp → dict disp) (k : kernel) : kernel :=
  mkKernel (runtime_root k) (entities k) (_agent_ids k) (k_authority k) (k_journal k)
    (f (_kdispatchers k)) (k_procs k) (event_bus k) (k_disk k) (k_dirs k).
Definition set_procs (f : list procrec → list procrec) (k : kernel) : kernel :=
  mkKernel (runtime_root k) (entities k) (_agent_ids k) (k_authority k) (k_journal k)
    (_kdispatchers k) (f (k_procs k)) (event_bus k) (k_disk k) (k_dirs k).
Definition set_bus (f : list value → list value) (k : kernel) : kernel :=
  mkKernel (runtime_root k) (entities k) (_agent_ids k) (k_authority k) (k_journal k)
    (_kdispatchers k) (k_procs k) (f (event_bus k)) (k_disk k) (k_dirs k).
Definition set_disk (f : dict (res (dict value)) → dict (res (dict value))) (k : kernel) : kernel :=
  mkKernel (runtime_root k) (entities k) (_agent_ids k) (k_authority k) (k_journal k)
    (_kdispatchers k) (k_procs k) (event_bus k) (f (k_disk k)) (k_dirs k).
Definition set_dirs (f : list string → list string) (k : kernel) : kernel :=
  mkKernel (runtime_root k) (entities k) (_agent_ids k) (k_authority k) (k_journal k)
    (_kdispatchers k) (k_procs k) (event_bus k) (k_disk k) (f (k_dirs k)).

(** AgentOS.__init__: the kernel and the two kernel-mode devices are addressable. *)
Definition AgentOS_init (root : string) : kernel :=
  mkKernel root
    [(KERNEL_IDENTITY, EKernel); ("authority", EKernelDevice); ("journal", EKernelDevice)]
    [] authority_init journal_init
    [("authority", disp_init 0); ("journal", disp_init 0)]
    [] [] [] [home_dir root "authority"; home_dir root "journal"].

Abbreviation K := (M kernel).

(** ** Calls to the kernel-mode devices *)

(** [self.authority.respond({...})] with source [system]. *)
Definition authority_call (payload : dict value) : K value := λ k,
  let '(r, a) := authority_respond (system_command payload) (k_authority k) in
  (r, set_authority a k).

Definition journal_call (event : value) : K value := λ k,
  let '(r, j) := journal_respond event (k_journal k) in (r, set_journal j k).

(** [reply["payload"][key]] *)
Definition reply_field (reply : value) (key : string) : K value :=
  lift (p ← py_index reply "payload"; py_index p key).

Definition _agents : K (list string) :=
  reply ← authority_call [("command", VStr "agents_request")];
  v ← reply_field reply "agents";
  lift (l ← py_list v; res_mapM need_str l).

Definition _authorize (identity scope : string) : K bool :=
  reply ← authority_call [("command", VStr "authorize_request"); ("identity", VStr identity);
                          ("scope", VStr scope)];
  v ← reply_field reply "allowed";
  mret (truthy v).

Definition auth_context (identity : string) : K value :=
  reply ← authority_call [("command", VStr "auth_request"); ("identity", VStr identity)];
  reply_field reply "auth".

Definition maintain_grant (device : string) (grant : value) : res bool :=
  d ← py_get grant "device";
  t ← py_get grant "token";
  Ok (veq_str d device && (veq_str t "maintain" || veq_str t ("maintain:" +:+ device))).

Fixpoint res_any {A} (f : A → res bool) (l : list A) : res bool :=
  match l with
  | [] => Ok false
  | x :: l' => b ← f x; if (b : bool) then Ok true else res_any f l'
  end.

Definition _authorize_device (actor device : string) : K bool :=
  if bool_decide (actor = KERNEL_IDENTITY) then mret true else
  ok ← _authorize actor "install";
  if (ok : bool) then mret true else
  auth ← auth_context actor;
  lift (scopes ← py_get_or auth "scopes" (VList []);
        l ← py_list scopes;
        res_any (maintain_grant device) l).

Definition _grant (position device token : string) : K () :=
  authority_call (org_payload (CGrant position device token)) ;; mret ().

Definition _unregister (identity : string) : K () :=
  authority_call (org_payload (CUnregister identity)) ;; mret ().

(** ** ProcessHandle *)

(** [_ensure_process]: start a process unless one is there; it carries the handle's
    identity. *)
Definition with_identity (identity : string) (u : uproc) : uproc :=
  UProc identity (u_runtime_root u) (u_max_concurrent_sources u) (u_load_spec u)
    (u_maintenance_device u) (u_workdir u) (u_needs_network u).

Definition _ensure_process (h : handle) : K handle := λ k,
  match h_process h with
  | Some _ => (Ok h, k)
  | None =>
      match h_spawn h with
      | Raise e => (Raise e, k)
      | Ok u =>
          (Ok (Handle (h_identity h) (h_spawn h) (Some (length (k_procs k)))),
           set_procs (λ ps, ps ++ [ProcRec (with_identity (h_identity h) u) true []])%list k)
      end
  end.

(** [ProcessHandle(identity, spawn, event_bus, lazy)] *)
Definition ProcessHandle_init (identity : string) (spawn : res uproc) (lazy : bool) : K handle :=
  let h := Handle identity spawn None in
  if lazy then mret h else _ensure_process h.

(** [conn.send]: a dead process is reported and the event dropped. *)
Definition send_to (event : value) (p : procrec) : procrec :=
  if pr_alive p then ProcRec (pr_proc p) true (pr_inbox p ++ [event])%list else p.

(** [deliver]: the handle after it. *)
Definition deliver (h : handle) (event : value) : K handle :=
  h ← _ensure_process h;
  match h_process h with
  | Some pid => modify (set_procs (alter (send_to event) pid)) ;; mret h
  | None => mret h
  end.

Definition terminate_event (identity : string) : value :=
  mk_event "system" identity "system" (VDict [("command", VStr "terminate")]).

Definition kill (p : procrec) : procrec := ProcRec (pr_proc p) false (pr_inbox p).

(** [terminate]: deliver the terminate event, wait, kill after the timeout, reap. *)
Definition terminate (h : handle) : K () :=
  match h_process h with
  | None => mret ()
  | Some pid =>
      deliver h (terminate_event (h_identity h)) ;;
      modify (set_procs (alter kill pid))
  end.

(** One turn of [_read_loop]: what the process of [h] produced is stamped with the handle's
    identity and put on the bus; anything but a dict is dropped. *)
Definition _read_loop (h : handle) (product : value) (k : kernel) : kernel :=
  if is_dict product
  then set_bus (λ b, b ++ [vset "source" (VStr (h_identity h)) product])%list k
  else k.

(** ** Registration *)

Definition bad_identity (identity : string) : bool :=
  str_contains "/" identity || str_contains ".." identity || bool_decide (identity = ".")
  || str_contains "@" identity.

Definition register (identity : string) (spawn : res uproc) (tools : list value) (agent : bool)
    (lazy : bool) (position : option string) (scopes : list value) : K () :=
  guard_raise (agent && negb (nonempty (default "" position))) ValueError
    ("agent 缺少 position: " +:+ repr_str identity) ;;
  guard_raise (bad_identity identity) ValueError
    ("身份非法（拒路径分隔符/'..'/'.'与'@'): " +:+ repr_str identity) ;;
  authority_call (org_payload (CRegister identity (Info tools scopes agent position))) ;;
  h ← ProcessHandle_init identity spawn lazy;
  modify (set_entities (dset identity (EHandle h))) ;;
  if agent then modify (set_agent_ids (λ l, identity :: l)) else mret ().

Definition _device_home (k : kernel) (identity : string) : string :=
  path_join (runtime_root k) ["home"; identity].

(** [os.makedirs(path, exist_ok=True)] *)
Definition makedirs (path : string) : K () := modify (set_dirs (λ l, path :: l)).

Definition scope_shape_ok (s : value) : bool :=
  match s with VDict d => is_nonempty_str (default VNone (dget "token" d)) | _ => false end.

Definition _load_module (path : string) : K (list value * list value) := λ k,
  match dget path (k_disk k) with
  | None => (Raise (Exn FileNotFoundError ("设备源码不存在: " +:+ repr_str path)), k)
  | Some (Raise e) => (Raise e, k)
  | Some (Ok module) =>
      (match default (VList []) (dget "TOOLS" module), default (VList []) (dget "SCOPES" module) with
       | VList tools, VList scopes =>
           if forallb scope_shape_ok scopes then Ok (tools, scopes)
           else Raise (Exn ValueError ("SCOPES 声明形状非法: " +:+ repr_str path))
       | VList _, _ => Raise (Exn ValueError ("SCOPES 声明形状非法: " +:+ repr_str path))
       | _, _ => Raise (Exn ValueError ("TOOLS 声明形状非法: " +:+ repr_str path))
       end, k)
  end.

(** [[s["token"] for s in scopes if s.get("default")]] *)
Fixpoint _defaults (scopes : list value) : res (list string) :=
  match scopes with
  | [] => Ok []
  | s :: rest =>
      d ← py_get s "default";
      if truthy d
      then t ← (v ← py_index s "token"; need_str v); ts ← _defaults rest; Ok (t :: ts)
      else _defaults rest
  end.

(** [for position in grants: for token in self._defaults(scopes): await self._grant(...)] *)
Definition grant_defaults (grants : list string) (device : string) (scopes : list value) : K () :=
  mfor grants (λ position,
    ts ← lift (_defaults scopes);
    mfor ts (λ token, _grant position device token)).

Definition _ack (event : value) (command : string) (identity : value) (ok : bool) (error : value) :
    res value :=
  source ← py_index event "source";
  Ok (mk_reply source "application"
        (VDict [("command", VStr command); ("identity", identity);
                ("ok", VBool ok); ("error", error)])).

(** [try: body; ok, error = True, None  except Exception as exc: ok, error = False, str(exc)] *)
Definition attempt (body : K ()) : K (bool * value) :=
  try_catch (body ;; mret (true, VNone)) (λ e, mret (false, VStr (exn_msg e))).

(** ** The kernel commands

    [emit source event] is [_kernel_emit]: it stamps the source and handles the event. *)
Section Handlers.
Variable emit : string → value → K ().

Definition _inject (agent : string) : K () :=
  inject ← authority_call [("command", VStr "inject_request"); ("agent", VStr agent)];
  if veq_str inject "VOID" then mret () else emit "authority" inject.

(** Detach a handle from its identity, then terminate its process. *)
Definition retire (identity : string) (h : handle) : K () :=
  modify (set_entities (dpop identity)) ;; terminate h.

Definition install_grants (payload : value) : res (list string) :=
  g ← py_get payload "grants";
  match g with
  | VList (x :: l) =>
      if forallb is_nonempty_str (x :: l) then res_mapM need_str (x :: l)
      else Raise (Exn ValueError "install_device 缺 grants（布线声明：非空 position 列表）")
  | _ => Raise (Exn ValueError "install_device 缺 grants（布线声明：非空 position 列表）")
  end.

(** [payload.get("options") or {}]: a dict. *)
Definition install_options (payload : value) : res (dict value) :=
  o ← py_get payload "options";
  match py_or o (VDict []) with
  | VDict d => Ok d
  | v => Raise (Exn AttributeError ("'" +:+ type_name v +:+ "' object has no attribute 'get'"))
  end.

(** What the [spawn] closure builds: options that are no dict fail there, once the Authority has
    registered the identity. *)
Definition install_proc (root identity : string) (payload : value) : res uproc :=
  options ← install_options payload; device_proc root identity options.

Definition maintain_error : string := "无该设备维护权（需 root/org:install 或 maintain scope）".

Definition install_body (event payload : value) (identity : value) : K () :=
  identity ← (if is_nonempty_str identity then lift (need_str identity)
              else raise ValueError "install_device 缺 identity");
  guard_raise (bad_identity identity) ValueError
    ("设备 identity 非法（拒路径分隔符/'..'/'.'与'@'): " +:+ repr_str identity) ;;
  device_home ← gets (λ k, _device_home k identity);
  let source_file := path_join device_home ["device.py"] in
  source ← lift (v ← py_index event "source"; need_str v);
  allowed ← _authorize_device source identity;
  guard_raise (negb allowed) ValueError maintain_error ;;
  grants ← lift (install_grants payload);
  agents ← _agents;
  guard_raise (bool_decide (identity ∈ agents)) ValueError
    ("agent 身份不可被设备顶替: " +:+ repr_str identity) ;;
  module ← _load_module source_file;
  let '(tools, scopes) := module in
  root ← gets runtime_root;
  makedirs (path_join root ["home"; identity]) ;;
  old ← gets (λ k, dget identity (entities k));
  match old with
  | Some EKernel | Some EKernelDevice =>
      raise ValueError ("内核态身份不可装卸: " +:+ repr_str identity)
  | Some (EHandle h) => retire identity h ;; _unregister identity
  | None => mret ()
  end ;;
  register identity (install_proc root identity payload) tools false false None scopes ;;
  grant_defaults grants identity scopes ;;
  mfor agents _inject.

Definition _install (event : value) : K () :=
  payload ← lift (py_index event "payload");
  identity ← lift (py_get payload "identity");
  oe ← attempt (install_body event payload identity);
  ack ← lift (_ack event "device_installed" identity oe.1 oe.2);
  emit KERNEL_IDENTITY ack.

(** The maintain scopes of a device survive its removal. *)
Definition is_maintain (identity token : string) : bool :=
  bool_decide (token = "maintain") || bool_decide (token = "maintain:" +:+ identity).

Definition regrant (identity : string) (grant : value) : K () :=
  token ← lift (v ← py_index grant "token"; need_str v);
  if is_maintain identity token
  then position ← lift (v ← py_index grant "position"; need_str v);
       _grant position identity token
  else mret ().

Definition uninstall_body (event : value) (identity : value) : K () :=
  identity ← (if is_nonempty_str identity then lift (need_str identity)
              else raise ValueError "uninstall_device 缺 identity");
  source ← lift (v ← py_index event "source"; need_str v);
  allowed ← _authorize_device source identity;
  guard_raise (negb allowed) ValueError maintain_error ;;
  old ← gets (λ k, dget identity (entities k));
  match old with
  | Some EKernel | Some EKernelDevice =>
      raise ValueError ("内核态身份不可装卸: " +:+ repr_str identity)
  | _ => mret ()
  end ;;
  agents ← _agents;
  guard_raise (bool_decide (identity ∈ agents)) ValueError
    ("agent 身份不可装卸: " +:+ repr_str identity) ;;
  match old with
  | Some (EHandle h) => retire identity h
  | _ => raise ValueError ("未注册: " +:+ repr_str identity)
  end ;;
  grants_reply ← authority_call [("command", VStr "device_grants_request");
                                 ("identity", VStr identity)];
  _unregister identity ;;
  gs ← (v ← reply_field grants_reply "grants"; lift (py_list v));
  mfor gs (regrant identity) ;;
  mfor agents _inject.

Definition _uninstall (event : value) : K () :=
  payload ← lift (py_index event "payload");
  identity ← lift (py_get payload "identity");
  oe ← attempt (uninstall_body event identity);
  ack ← lift (_ack event "device_uninstalled" identity oe.1 oe.2);
  emit KERNEL_IDENTITY ack.

(** The actor's running process was loaded from a device file. *)
Definition actor_is_device (actor : string) (k : kernel) : bool :=
  match dget actor (entities k) with
  | Some (EHandle h) =>
      match h_process h with
      | Some pid => match k_procs k !! pid with
                    | Some p => match u_load_spec (pr_proc p) with Some _ => true | None => false end
                    | None => false
                    end
      | None => false
      end
  | _ => false
  end.

Definition maintenance_body (event payload : value) (target : value) (actor : string) : K () :=
  target ← (if is_nonempty_str target then lift (need_str target)
            else raise ValueError "maintenance_session 缺 target_device");
  guard_raise (bad_identity target) ValueError ("维护目标 identity 非法: " +:+ repr_str target) ;;
  is_dev ← gets (actor_is_device actor);
  guard_raise is_dev ValueError ("设备身份不可作为维护者: " +:+ repr_str actor) ;;
  allowed ← _authorize_device actor target;
  guard_raise (negb allowed) ValueError ("无目标设备维护权: " +:+ repr_str target) ;;
  running ← gets (λ k, dmem target (entities k));
  guard_raise running ValueError ("目标设备仍在运行，必须先卸载: " +:+ repr_str target) ;;
  root ← gets runtime_root;
  let target_home := path_join root ["home"; target] in
  exists_ ← gets (λ k, bool_decide (target_home ∈ k_dirs k));
  guard_raise (negb exists_) ValueError ("目标设备私家不存在: " +:+ repr_str target_home) ;;
  actor_handle ← gets (λ k, dget actor (entities k));
  match actor_handle with
  | Some (EHandle h) =>
      auth ← auth_context actor;
      position ← lift (py_get auth "position");
      position ← (match position with
                  | VStr p => mret p
                  | _ => raise ValueError ("维护者无 position: " +:+ repr_str actor)
                  end);
      retire actor h ;;
      register actor (UserModeProcess_init (VInt 0) root None (Some actor) (VStr target))
        [] true false (Some position) []
  | _ => raise ValueError ("维护者必须是已注册的 agent: " +:+ repr_str actor)
  end.

Definition _maintenance_session (event : value) : K () :=
  payload ← lift (py_index event "payload");
  target ← lift (py_get payload "target_device");
  actor ← lift (v ← py_index event "source"; need_str v);
  oe ← attempt (maintenance_body event payload target actor);
  ack ← lift (_ack event "maintenance_session_started"
                (if (oe : bool * value).1 then target else VStr actor) oe.1 oe.2);
  emit KERNEL_IDENTITY ack.

Definition scope_body (event : value) (grant : bool) (position device token : value) : K () :=
  guard_raise (negb (is_nonempty_str position && is_nonempty_str device && is_nonempty_str token))
    ValueError "grant/revoke_scope 缺 position/device/token" ;;
  p ← lift (need_str position);
  d ← lift (need_str device);
  t ← lift (need_str token);
  source ← lift (v ← py_index event "source"; need_str v);
  (if bool_decide (d = ORG_DEVICE) then
     ok ← _authorize source "org";
     guard_raise (negb ok) ValueError "org 设备授权仅 root（或其委托）可做"
   else mret ()) ;;
  ok ← _authorize source "grant";
  guard_raise (negb ok) ValueError "无人事权（需 root 或 org:grant）" ;;
  authority_call (org_payload (if grant then CGrant p d t else CRevoke p d t)) ;;
  agents ← _agents;
  mfor agents _inject.

Definition _scope (event : value) (grant : bool) : K () :=
  payload ← lift (py_index event "payload");
  position ← lift (py_get payload "position");
  device ← lift (py_get payload "device");
  token ← lift (py_get payload "token");
  oe ← attempt (scope_body event grant position device token);
  source ← lift (py_index event "source");
  emit KERNEL_IDENTITY
    (mk_reply source "application"
       (VDict [("command", VStr (if grant then "scope_granted" else "scope_revoked"));
               ("position", position); ("device", device);
               ("ok", VBool oe.1); ("error", oe.2)])).

Definition _on_kernel (event : value) : K () :=
  payload ← lift (py_index event "payload");
  command ← lift (py_get payload "command");
  if veq_str command "install_device" then _install event
  else if veq_str command "uninstall_device" then _uninstall event
  else if veq_str command "maintenance_session" then _maintenance_session event
  else if veq_str command "grant_scope" then _scope event true
  else if veq_str command "revoke_scope" then _scope event false
  else mret ().   (* an unknown command is printed *)
End Handlers.

(** ** Event handling: validate, enrich, record, route *)

Definition _record (event : value) (outcome : string) (reason : value) : K () :=
  journal_call (record_event event outcome reason) ;; mret ().

(** The event with its [auth] field, when it goes to a device process. *)
Definition _enrich (event : value) : K value :=
  target ← lift (v ← py_index event "target"; need_str v);
  agent ← gets (λ k, bool_decide (target ∈ _agent_ids k));
  if (agent : bool) then mret event else
  ent ← gets (λ k, dget target (entities k));
  match ent with
  | Some (EHandle _) =>
      source ← lift (v ← py_index event "source"; need_str v);
      source_entity ← gets (λ k, dget source (entities k));
      if bool_decide (source = KERNEL_IDENTITY) ||
         match source_entity with Some EKernelDevice => true | _ => false end
      then mret (vset "auth" EMPTY_AUTH event)
      else auth ← auth_context source; mret (vset "auth" auth event)
  | _ => mret event
  end.

Definition _route (event : value) : K () :=
  target ← lift (v ← py_index event "target"; need_str v);
  ent ← gets (λ k, dget target (entities k));
  match ent with
  | Some (EHandle h) =>
      h' ← deliver h event;
      modify (set_entities (dset target (EHandle h')))
  | Some EKernelDevice =>
      source ← lift (v ← py_index event "source"; need_str v);
      disp ← gets (λ k, dget target (_kdispatchers k));
      match disp with
      | Some dd => modify (set_kdispatchers (dset target (submit source event dd)))
      | None => raise KeyError (repr_str target)
      end
  | _ => mret ()
  end.

Definition route_event (on_kernel : value → K ()) (event : value) : K () :=
  to_kernel ← lift (v ← py_index event "target"; Ok (veq_str v KERNEL_IDENTITY));
  event ← (if (to_kernel : bool) then mret event else _enrich event);
  _record event "routed" VNone ;;
  if (to_kernel : bool) then on_kernel event else _route event.

(** [_process_event]: a handler emits through it again; the bound counts the nesting. *)
Fixpoint _process_event (fuel : nat) (event : value) : K () := λ k,
  match validate_event event (kernel_rules (dkeys (entities k))) with
  | Raise e =>
      match exn_cls e with
      | EventError => _record event "dropped" (VStr (exn_msg e)) k
      | _ => (Raise e, k)
      end
  | Ok event =>
      route_event (_on_kernel (λ source reply,
        match fuel with
        | O => raise RuntimeError "maximum recursion depth exceeded"
        | S f => _process_event f (vset "source" (VStr source) reply)
        end)) event k
  end.

(** The nesting the code needs: a command, and the events its handler emits. *)
Definition DEPTH : nat := 1.
Definition process_event (event : value) : K () := _process_event DEPTH event.
Definition _kernel_emit (source : string) (event : value) : K () :=
  process_event (vset "source" (VStr source) event).

(** [step]: handle the events on the bus, oldest first.  An exception ends the loop. *)
Fixpoint bus_loop (fuel : nat) : K () := λ k,
  match fuel, event_bus k with
  | _, [] => (Ok (), k)
  | O, _ => (Raise (Exn RuntimeError "fuel"), k)
  | S f, e :: rest => (process_event e ;; bus_loop f) (set_bus (λ _, rest) k)
  end.

(** ** Setup: agents and devices from the configuration *)

Record agent_spec := AgentSpec {
  as_identity : string;
  as_type : string;
  as_position : option string;
  as_needs_network : bool
}.
(** [ds_source]: the module the configured source path holds. *)
Record device_spec := DeviceSpec {
  ds_identity : string;
  ds_source : option (res (dict value));
  ds_grants : list string
}.

(** PROCESS_TYPES has one entry, registered by the agent package. *)
Definition setup_agent (spec : agent_spec) : K () :=
  guard_raise (negb (bool_decide (as_type spec = "agent"))) KeyError (repr_str (as_type spec)) ;;
  root ← gets runtime_root;
  register (as_identity spec)
    (Agent_process root (as_identity spec) (as_needs_network spec))
    [] true false (as_position spec) [] ;;
  makedirs (path_join root ["home"; as_identity spec]).

Definition _install_from_config (identity : string) (grants : list string) : K () :=
  device_home ← gets (λ k, _device_home k identity);
  let source_file := path_join device_home ["device.py"] in
  module ← _load_module source_file;
  let '(tools, scopes) := module in
  root ← gets runtime_root;
  register identity (device_proc root identity []) tools false false None scopes ;;
  grant_defaults grants identity scopes ;;
  agents ← _agents;
  mfor agents (_inject _kernel_emit).

Definition setup_device (spec : device_spec) : K () :=
  device_home ← gets (λ k, _device_home k (ds_identity spec));
  makedirs device_home ;;
  match ds_source spec with
  | None => raise FileNotFoundError "No such file or directory"
  | Some m => modify (set_disk (dset (path_join device_home ["device.py"]) m))
  end ;;
  _install_from_config (ds_identity spec) (ds_grants spec).

Definition setup (agents : list agent_spec) (devices : list device_spec) : K () :=
  mfor agents setup_agent ;; mfor devices setup_device.

(** ** The steps of the running system *)

Inductive klabel :=
| KBus                                   (* the kernel takes the next event of the bus *)
| KProduce (identity : string) (product : value)   (* a process emits *)
| KDie (pid : nat)                       (* a process ends *)
| KDisk (path : string) (m : res (dict value))     (* a file is written *)
| KWorker (device : string) (i : nat)    (* a worker of a kernel-mode device *)
| KReply (device : string) (i : nat)
| KEmitted (device : string) (i : nat).

(** [respond] of a kernel-mode device. *)
Definition kdevice_respond (device : string) (event : value) : K value := λ k,
  if bool_decide (device = "authority") then
    let '(r, a) := authority_respond event (k_authority k) in (r, set_authority a k)
  else journal_call event k.

Definition raised {A} (r : res A) : bool := match r with Ok _ => false | Raise _ => true end.

Definition on_dispatcher (device : string) (f : disp → option disp) (k : kernel) : option kernel :=
  match dget device (_kdispatchers k) with
  | Some d => match f d with
              | Some d' => Some (set_kdispatchers (dset device d') k)
              | None => None
              end
  | None => None
  end.

Definition kstep (l : klabel) (k : kernel) : option kernel :=
  match l with
  | KBus => match event_bus k with
            | [] => None
            | e :: rest => Some (process_event e (set_bus (λ _, rest) k)).2
            end
  | KProduce identity product =>
      match dget identity (entities k) with
      | Some (EHandle h) =>
          match h_process h with
          | Some pid => match k_procs k !! pid with
                        | Some p => if pr_alive p then Some (_read_loop h product k) else None
                        | None => None
                        end
          | None => None
          end
      | _ => None
      end
  | KDie pid => Some (set_procs (alter kill pid) k)
  | KDisk path m => Some (set_disk (dset path m) k)
  | KWorker device i => on_dispatcher device (dstep (LWorker i)) k
  | KReply device i =>
      match dget device (_kdispatchers k) with
      | Some d =>
          match d_workers d !! i with
          | Some (s, WBusy e) =>
              let '(r, k') := kdevice_respond device e k in
              on_dispatcher device (dstep (LReply i r)) k'
          | _ => None
          end
      | None => None
      end
  | KEmitted device i =>
      match dget device (_kdispatchers k) with
      | Some d =>
          match d_workers d !! i with
          | Some (s, WEmit v) =>
              let '(r, k') := _kernel_emit device v k in
              on_dispatcher device (dstep (LEmitted i (raised r))) k'
          | _ => None
          end
      | None => None
      end
  end.

(** [main]: the configuration is set up, then the kernel runs.  The program does not check the
    identities of a configuration: [register] replaces whatever an identity named. *)
Definition booted (root : string) (agents : list agent_spec) (devices : list device_spec) : kernel :=
  (setup agents devices (AgentOS_init root)).2.
Inductive kreach (root : string) (agents : list agent_spec) (devices : list device_spec) : kernel → Prop :=
| kreach_boot : kreach root agents devices (booted root agents devices)
| kreach_step l k k' :
    kreach root agents devices k → kstep l k = Some k' → kreach root agents devices k'.
