(* ===== verification/AgentOSInv.v ===== *)
(** * Invariants of the kernel

    The kernel-mode identities are never replaced, every live process is the one its
    identity's handle refers to (so an identity never has two live processes), the
    Authority's state stays well formed and the journal only grows, over every event the
    kernel handles and every step of its devices' workers. *)

From stdpp Require Import base gmap strings list.
From Stdlib Require Import ZArith.
From S2P Require Import Prelude PyValue EventProtocol Authority Journal Process Dispatcher AgentOS.

Local Open Scope string_scope.
Local Open Scope nat_scope.

Definition PROTECTED : list string := ["kernel"; "authority"; "journal"].

Record kinv (k : kernel) : Prop := {
  ki_kernel : dget "kernel" (entities k) = Some EKernel;
  ki_authority : dget "authority" (entities k) = Some EKernelDevice;
  ki_journal : dget "journal" (entities k) = Some EKernelDevice;
  ki_handles : ∀ id h, dget id (entities k) = Some (EHandle h) → h_identity h = id;
  ki_procs : ∀ pid p, k_procs k !! pid = Some p → pr_alive p = true →
             ∃ h, dget (u_identity (pr_proc p)) (entities k) = Some (EHandle h) ∧
                  h_process h = Some pid;
  ki_wf : authority_wf (k_authority k);
  ki_numbered : journal_numbered (k_journal k)
}.

(** [kinv] with a free identity. *)
Definition kfree (id : string) (k : kernel) : Prop := kinv k ∧ dget id (entities k) = None.

(** ** Frames: computations that touch neither entities nor processes *)

Definition same_host (k k' : kernel) : Prop :=
  entities k' = entities k ∧ k_procs k' = k_procs k.

Lemma kinv_frame k k' :
  same_host k k' → authority_wf (k_authority k') → journal_numbered (k_journal k') →
  kinv k → kinv k'.
Proof. intros [E1 E2] Hwf Hn [? ? ? ? ? _ _]. split; try done; rewrite ?E1, ?E2; done. Qed.

Lemma kinv_authority_call pl : stable (keeps kinv) (authority_call pl).
Proof.
  intros k Hk. unfold authority_call.
  pose proof (wf_respond (system_command pl) (k_authority k) (ki_wf k Hk)) as Hwf.
  destruct (authority_respond _ _) as [r a]. simpl in *.
  apply (kinv_frame k); [done|done|apply Hk|done].
Qed.
Lemma kinv_journal_call e : stable (keeps kinv) (journal_call e).
Proof.
  intros k Hk. unfold journal_call.
  pose proof (journal_respond_numbered e (k_journal k) (ki_numbered k Hk)) as Hn.
  destruct (journal_respond _ _) as [r j]. simpl in *.
  apply (kinv_frame k); [done|apply Hk|done|done].
Qed.
Lemma authority_call_entities pl k : entities (authority_call pl k).2 = entities k.
Proof. unfold authority_call. by destruct (authority_respond _ _). Qed.

Lemma kfree_authority_call id pl : stable (keeps (kfree id)) (authority_call pl).
Proof.
  intros k [Hk Hf]. split; [by apply kinv_authority_call|]. by rewrite authority_call_entities.
Qed.

#[export] Hint Resolve kinv_authority_call kinv_journal_call kfree_authority_call : stable.

Lemma stable_reply_field (R : relation kernel) `{!PreOrder R} r key : stable R (reply_field r key).
Proof. apply stable_lift. typeclasses eauto. Qed.
#[export] Hint Resolve stable_reply_field : stable.

(** Queries of the Authority keep whatever an Authority call keeps. *)
Section Queries.
Context (R : relation kernel) `{!PreOrder R} (Hcall : ∀ pl, stable R (authority_call pl)).

Lemma stable_agents : stable R _agents.
Proof using All. unfold _agents. stable_tac. Qed.
Lemma stable_authorize i s : stable R (_authorize i s).
Proof using All. unfold _authorize. stable_tac. Qed.
Lemma stable_auth_context i : stable R (auth_context i).
Proof using All. unfold auth_context. stable_tac. Qed.
Lemma stable_authorize_device i d : stable R (_authorize_device i d).
Proof using All.
  unfold _authorize_device. pose proof stable_authorize. pose proof stable_auth_context.
  stable_tac.
Qed.
Lemma stable_grant p d t : stable R (_grant p d t).
Proof using All. unfold _grant. stable_tac. Qed.
Lemma stable_unregister i : stable R (_unregister i).
Proof using All. unfold _unregister. stable_tac. Qed.
Lemma stable_grant_defaults gs d scs : stable R (grant_defaults gs d scs).
Proof using All. unfold grant_defaults. pose proof stable_grant. stable_tac. Qed.
Lemma stable_regrant i g : stable R (regrant i g).
Proof using All. unfold regrant. pose proof stable_grant. stable_tac. Qed.
Lemma stable_inject emit ag :
  (∀ s v, stable R (emit s v)) → stable R (_inject emit ag).
Proof using All. intros He. unfold _inject. stable_tac. Qed.
End Queries.

(** ** Processes *)

Lemma protected_not_handle k id h :
  kinv k → dget id (entities k) = Some (EHandle h) → id ∉ PROTECTED.
Proof.
  intros [H1 H2 H3 _ _ _ _] Hh Hin. unfold PROTECTED in Hin.
  rewrite !elem_of_cons, elem_of_nil in Hin.
  destruct Hin as [->|[->|[->|[]]]]; congruence.
Qed.
Lemma protected_not_none k id : kinv k → dget id (entities k) = None → id ∉ PROTECTED.
Proof.
  intros [H1 H2 H3 _ _ _ _] Hh Hin. unfold PROTECTED in Hin.
  rewrite !elem_of_cons, elem_of_nil in Hin.
  destruct Hin as [->|[->|[->|[]]]]; congruence.
Qed.
Lemma not_protected_inv id :
  id ∉ PROTECTED → id ≠ "kernel" ∧ id ≠ "authority" ∧ id ≠ "journal".
Proof. unfold PROTECTED. set_solver. Qed.

Definition handle_with (h : handle) (pid : nat) : handle :=
  Handle (h_identity h) (h_spawn h) (Some pid).

Lemma alter_snoc {A} (f : A → A) (l : list A) x : alter f (length l) (l ++ [x])%list = (l ++ [f x])%list.
Proof. induction l as [|y l IH]; simpl; [done|]. by f_equal. Qed.

(** [deliver] either uses the running process or starts one. *)
Lemma deliver_cases h e k :
  (∃ pid, h_process h = Some pid ∧
          deliver h e k = (Ok h, set_procs (alter (send_to e) pid) k)) ∨
  (∃ ex, h_process h = None ∧ h_spawn h = Raise ex ∧ deliver h e k = (Raise ex, k)) ∨
  (∃ u, h_process h = None ∧ h_spawn h = Ok u ∧
        deliver h e k =
        (Ok (handle_with h (length (k_procs k))),
         set_procs (λ ps, ps ++ [send_to e (ProcRec (with_identity (h_identity h) u) true [])])%list
           k)).
Proof.
  unfold deliver, _ensure_process, mbind, M_bind. destruct (h_process h) as [pid|] eqn:Eh.
  - left. exists pid. rewrite Eh. done.
  - right. destruct (h_spawn h) as [u|ex] eqn:Es; [right|left]; [|by exists ex].
    exists u. split_and!; [done..|]. simpl. unfold handle_with. rewrite Es. f_equal.
    unfold set_procs. simpl. f_equal. apply alter_snoc.
Qed.

Lemma send_to_alive e p : pr_alive (send_to e p) = pr_alive p.
Proof. unfold send_to. by destruct (pr_alive p) eqn:E. Qed.
Lemma send_to_proc e p : pr_proc (send_to e p) = pr_proc p.
Proof. unfold send_to. by destruct (pr_alive p). Qed.

Lemma alter_alive (f : procrec → procrec) (pid : nat) (ps : list procrec) (pid' : nat) p :
  (∀ p, pr_proc (f p) = pr_proc p) → (∀ p, pr_alive (f p) = true → pr_alive p = true) →
  alter f pid ps !! pid' = Some p → pr_alive p = true →
  ∃ p0, ps !! pid' = Some p0 ∧ pr_proc p0 = pr_proc p ∧ pr_alive p0 = true.
Proof.
  intros Hf Ha Hl Hal. destruct (decide (pid = pid')) as [->|Hne].
  - rewrite list_lookup_alter_eq in Hl. destruct (ps !! pid') as [p0|] eqn:E; [|done].
    simpl in Hl. simplify_eq. exists p0. split_and!; [done|by rewrite Hf|by apply Ha].
  - rewrite list_lookup_alter_ne in Hl by done. by exists p.
Qed.

(** Replacing a handle by one with the same identity, and a process change that starts no
    process except the one the new handle refers to. *)
Lemma kinv_send k pid e : kinv k → kinv (set_procs (alter (send_to e) pid) k).
Proof.
  intros [? ? ? ? Hp ? ?]. split; try done. simpl. intros pid' p Hl Ha.
  destruct (alter_alive (send_to e) pid (k_procs k) pid' p) as (p0 & H0 & <- & Ha0);
    [apply send_to_proc|intros; by rewrite <-(send_to_alive e)|done|done|].
  by apply Hp.
Qed.

Lemma kinv_spawned k id h u p0 :
  kinv k → h_identity h = id → id ∉ PROTECTED →
  (∀ h0, dget id (entities k) = Some (EHandle h0) → h_process h0 = None) →
  pr_proc p0 = with_identity id u →
  kinv (set_entities (dset id (EHandle (handle_with h (length (k_procs k)))))
          (set_procs (λ ps, ps ++ [p0])%list k)).
Proof.
  intros [H1 H2 H3 Hh Hp Hw Hn] Hid (Hk & Ha & Hj)%not_protected_inv Hnone Hp0.
  split; simpl; try done.
  - by rewrite dget_dset_ne.
  - by rewrite dget_dset_ne.
  - by rewrite dget_dset_ne.
  - intros id' h'. rewrite dget_dset. case_decide; [|apply Hh]. intros [= <-]. by subst.
  - intros pid p Hl Hal. destruct (decide (pid < length (k_procs k))) as [Hlt|Hge].
    + rewrite lookup_app_l in Hl by done. destruct (Hp pid p Hl Hal) as (h0 & Hd & Hh0).
      rewrite dget_dset. case_decide as Hu; [|by exists h0].
      exfalso. rewrite Hu in Hd. by rewrite (Hnone h0 Hd) in Hh0.
    + rewrite lookup_app_r in Hl by lia. destruct (pid - length (k_procs k)) eqn:Em; [|done].
      simpl in Hl. simplify_eq. rewrite Hp0. simpl. rewrite dget_dset_eq.
      eexists. split; [done|]. simpl. f_equal. lia.
Qed.

Lemma dset_same_handle id h (d : dict entity) :
  dget id d = Some (EHandle h) → ∀ x, dget x (dset id (EHandle h) d) = dget x d.
Proof. intros Hd x. rewrite dget_dset. by case_decide; subst. Qed.

Lemma kinv_ext k d :
  kinv k → (∀ x, dget x d = dget x (entities k)) → kinv (set_entities (λ _, d) k).
Proof.
  intros [H1 H2 H3 Hh Hp Hw Hn] He. split; simpl; try (by rewrite He).
  - intros id h. rewrite He. apply Hh.
  - intros pid p Hl Hal. rewrite He. by apply (Hp pid).
  - done.
  - done.
Qed.

Lemma kinv_route e : stable (keeps kinv) (_route e).
Proof.
  unfold _route. apply stable_bind; [typeclasses eauto|stable_tac|]. intros target.
  intros k Hk. rewrite run_bind. unfold gets.
  destruct (dget target (entities k)) as [[| |h]|] eqn:Ht.
  - done.
  - revert k Hk Ht. intros k Hk _. revert k Hk.
    change (stable (keeps kinv) (source ← lift (v ← py_index e "source"; need_str v);
      disp ← gets (λ k, dget target (_kdispatchers k));
      match disp with
      | Some dd => modify (set_kdispatchers (dset target (submit source e dd)))
      | None => raise KeyError (repr_str target)
      end)).
    apply stable_bind; [typeclasses eauto|stable_tac|]. intros src.
    apply stable_bind; [typeclasses eauto|stable_tac|]. intros [dd|]; [|stable_tac].
    apply stable_modify. intros k Hk. by destruct Hk.
  - rewrite run_bind.
    assert (Hid : h_identity h = target) by (by eapply ki_handles).
    destruct (deliver_cases h e k) as [(pid & Hpid & ->)|[(ex & _ & _ & ->)|(u & Hn & Hs & ->)]].
    + simpl. apply (kinv_ext (set_procs (alter (send_to e) pid) k)); [by apply kinv_send|].
      by apply dset_same_handle.
    + done.
    + simpl. apply (kinv_spawned k target h u); try done.
      * by eapply protected_not_handle.
      * intros h0. rewrite Ht. by intros [= <-].
      * by rewrite send_to_proc, Hid.
  - done.
Qed.

(** [retire]: detaching and terminating leaves the identity free. *)
Lemma retire_free id h k :
  kinv k → dget id (entities k) = Some (EHandle h) →
  ∃ k', retire id h k = (Ok (), k') ∧ kfree id k'.
Proof.
  intros Hk Hh. pose proof (protected_not_handle _ _ _ Hk Hh) as Hnp.
  apply not_protected_inv in Hnp as (? & ? & ?). destruct Hk as [Hk1 Hk2 Hk3 Hhs Hp Hw Hn].
  unfold retire. rewrite run_bind. unfold modify at 1, terminate.
  assert (Hpop : ∀ procs,
    (∀ pid p, procs !! pid = Some p → pr_alive p = true →
       u_identity (pr_proc p) ≠ id ∧
       ∃ p0, k_procs k !! pid = Some p0 ∧ pr_alive p0 = true ∧ pr_proc p0 = pr_proc p) →
    kfree id (set_procs (λ _, procs) (set_entities (dpop id) k))).
  { intros procs Hprocs. split; [|simpl; by rewrite dget_dpop_eq].
    split; simpl; try (by rewrite dget_dpop_ne); try done.
    - intros id' h'. rewrite dget_dpop. case_decide; [done|apply Hhs].
    - intros pid p Hl Hal. destruct (Hprocs pid p Hl Hal) as (Hne & p0 & Hp0 & Ha0 & Ep).
      rewrite dget_dpop_ne by done. rewrite <-Ep. by apply (Hp pid). }
  assert (Hpid : ∀ pid p, k_procs k !! pid = Some p → pr_alive p = true →
                  u_identity (pr_proc p) = id → h_process h = Some pid).
  { intros pid p Hl Hal Hu. destruct (Hp pid p Hl Hal) as (h0 & Hd & Hh0).
    rewrite Hu, Hh in Hd. by simplify_eq. }
  destruct (h_process h) as [pid|] eqn:Eh.
  - set (te := terminate_event (h_identity h)).
    destruct (deliver_cases h te (set_entities (dpop id) k)) as [(pid' & ? & E)|[(? & ? & _)|(? & ? & _)]];
      [|congruence..].
    rewrite run_bind, E. simplify_eq. eexists. split; [done|].
    apply (Hpop (alter kill pid (alter (send_to te) pid (k_procs k)))). intros q p Hl Hal.
    destruct (decide (q = pid)) as [->|Hne].
    + rewrite list_lookup_alter_eq in Hl.
      destruct (alter (send_to te) pid (k_procs k) !! pid); simplify_eq/=.
    + rewrite !list_lookup_alter_ne in Hl by done. split; [|by exists p].
      intros Hu. specialize (Hpid q p Hl Hal Hu). congruence.
  - eexists. split; [done|]. apply (Hpop (k_procs k)). intros q p Hl Hal. split; [|by exists p].
    intros Hu. by specialize (Hpid q p Hl Hal Hu).
Qed.

(** [register] on a free identity. *)
Lemma register_kinv id spawn tools agent lazy position scopes :
  triple (kfree id) (register id spawn tools agent lazy position scopes) (λ _, kinv) kinv.
Proof.
  unfold register.
  eapply triple_bind; [apply (triple_guard _ _ _ _ (λ _, kfree id)); [done|by intros ? _ [? _]]|].
  intros [].
  eapply triple_bind; [apply (triple_guard _ _ _ _ (λ _, kfree id)); [done|by intros ? _ [? _]]|].
  intros [].
  eapply (triple_bind _ _ _ (λ _, kfree id)).
  { eapply (triple_conseq _ (kfree id) _ _ (λ _, kfree id) _ (kfree id));
      [apply triple_stable, kfree_authority_call|done|done|by intros ? [? _]]. }
  intros ? k [Hk Hf]. pose proof (protected_not_none _ _ Hk Hf) as Hnp. rewrite run_bind.
  assert (Hfin : ∀ k', kinv k' →
    match (if agent then modify (set_agent_ids (λ l, id :: l)) else mret ()) k' with
    | (Ok _, s') => kinv s' | (Raise _, s') => kinv s' end).
  { intros k' Hk'. destruct agent; simpl; [by destruct Hk'|done]. }
  unfold ProcessHandle_init, _ensure_process. destruct lazy; simpl.
  - rewrite run_bind. apply Hfin. simpl.
    apply not_protected_inv in Hnp as (? & ? & ?). destruct Hk as [Hk1 Hk2 Hk3 Hh Hp Hw Hn].
    split; simpl; try (by rewrite dget_dset_ne); try done.
    + intros id' h'. rewrite dget_dset. case_decide; [|apply Hh]. intros [= <-]. by subst.
    + intros pid p Hl Hal. destruct (Hp pid p Hl Hal) as (h0 & Hd & Hh0).
      rewrite dget_dset_ne; [by exists h0|]. intros Hu. rewrite Hu in Hd. congruence.
  - destruct spawn as [u|ex]; simpl; [|done]. rewrite run_bind. apply Hfin. simpl.
    apply (kinv_spawned k id (Handle id (Ok u) None) u); try done.
    intros h0. by rewrite Hf.
Qed.

(** ** Handlers keep the invariant *)

#[export] Hint Resolve stable_agents stable_authorize stable_auth_context stable_authorize_device
  stable_grant stable_unregister stable_grant_defaults stable_regrant stable_inject : stable.

Lemma stable_load_module (R : relation kernel) `{!PreOrder R} p : stable R (_load_module p).
Proof. intros k. unfold _load_module. repeat case_match; reflexivity. Qed.
Lemma kinv_makedirs p : stable (keeps kinv) (makedirs p).
Proof. apply stable_modify. intros k Hk. by destruct Hk. Qed.
#[export] Hint Resolve stable_load_module kinv_makedirs : stable.

(** Run one call that keeps [kinv]. *)
Ltac kstep := eapply (triple_bind _ _ _ (λ _, kinv)); [apply triple_stable; stable_tac|intros ?].

Section KeepInv.
Variable emit : string → value → K ().
Hypothesis Hemit : ∀ s v, stable (keeps kinv) (emit s v).

Lemma install_tail_kinv id root payload tools scopes grants agents :
  triple (kfree id)
    (register id (install_proc root id payload) tools false false None scopes ;;
     grant_defaults grants id scopes ;;
     mfor agents (_inject emit)) (λ _, kinv) kinv.
Proof using Hemit.
  eapply (triple_bind _ _ _ (λ _, kinv)); [apply register_kinv|]. intros [].
  kstep. apply triple_stable. stable_tac.
Qed.

Lemma install_body_kinv event payload identity :
  stable (keeps kinv) (install_body emit event payload identity).
Proof using Hemit.
  apply triple_stable. unfold install_body.
  kstep. kstep. kstep. kstep. kstep. kstep. kstep. kstep. kstep. kstep.
  destruct a8 as [tools scopes]. kstep. kstep.
  intros k Hk. rewrite run_bind. unfold gets.
  destruct (dget a (entities k)) as [[| |h]|] eqn:Ho.
  - exact Hk.
  - exact Hk.
  - rewrite run_bind. destruct (retire_free a h k Hk Ho) as (k1 & E1 & Hf1).
    assert (Hm : triple (kfree a) (_unregister a) (λ _, kfree a) kinv).
    { eapply (triple_conseq _ (kfree a) _ _ (λ _, kfree a) _ (kfree a));
        [apply triple_stable; stable_tac|done|done|by intros ? [? _]]. }
    rewrite run_bind, E1. pose proof (triple_bind _ _ _ _ _ _ Hm (λ _,
      install_tail_kinv a a8 payload tools scopes a5 a6)) as Ht. exact (Ht k1 Hf1).
  - rewrite run_bind. simpl.
    exact (install_tail_kinv a a8 payload tools scopes a5 a6 k (conj Hk Ho)).
Qed.

Lemma uninstall_body_kinv event identity :
  stable (keeps kinv) (uninstall_body emit event identity).
Proof using Hemit.
  apply triple_stable. unfold uninstall_body.
  kstep. kstep. kstep. kstep.
  intros k Hk. rewrite run_bind. unfold gets.
  destruct (dget a (entities k)) as [[| |h]|] eqn:Ho; [exact Hk|exact Hk| |].
  - rewrite run_bind. cbn [mret M_ret].
    rewrite run_bind. pose proof (stable_agents _ kinv_authority_call k Hk) as Hag.
    assert (Hent : entities (_agents k).2 = entities k).
    { unfold _agents. rewrite run_bind.
      pose proof (authority_call_entities [("command", VStr "agents_request")] k) as He.
      destruct (authority_call _ k) as [[v|] k1]; [|exact He].
      rewrite run_bind. unfold reply_field, lift. destruct (_ ← _; _); exact He. }
    destruct (_agents k) as [[agents|] k1]; [|exact Hag]. simpl in Hag, Hent.
    rewrite run_bind. unfold guard_raise. case_bool_decide; [exact Hag|]. cbn [mret M_ret].
    rewrite run_bind. rewrite <-Hent in Ho.
    destruct (retire_free a h k1 Hag Ho) as (k2 & -> & [Hk2 _]).
    revert k2 Hk2.
    match goal with |- ∀ k2, kinv k2 → match ?m k2 with _ => _ end =>
      change (triple kinv m (λ _, kinv) kinv) end.
    apply triple_stable. stable_tac.
  - rewrite run_bind. cbn [mret M_ret]. revert k Hk Ho. intros k Hk _. revert k Hk.
    match goal with |- ∀ k2, kinv k2 → match ?m k2 with _ => _ end =>
      change (triple kinv m (λ _, kinv) kinv) end.
    apply triple_stable. stable_tac.
Qed.

Lemma maintenance_body_kinv event payload target actor :
  stable (keeps kinv) (maintenance_body event payload target actor).
Proof using Hemit.
  apply triple_stable. unfold maintenance_body.
  kstep. kstep. kstep. kstep. kstep. kstep. kstep. kstep. kstep. kstep. kstep.
  intros k Hk. rewrite run_bind. unfold gets.
  destruct (dget actor (entities k)) as [[| |h]|] eqn:Ho; [exact Hk|exact Hk| |exact Hk].
  rewrite run_bind. pose proof (stable_auth_context _ kinv_authority_call actor k Hk) as Hag.
  assert (Hent : entities (auth_context actor k).2 = entities k).
  { unfold auth_context. rewrite run_bind.
    pose proof (authority_call_entities
      [("command", VStr "auth_request"); ("identity", VStr actor)] k) as He.
    destruct (authority_call _ k) as [[v|] k1]; [|exact He].
    unfold reply_field, lift. exact He. }
  destruct (auth_context actor k) as [[auth|] k1]; [|exact Hag]. simpl in Hag, Hent.
  rewrite run_bind. unfold lift. destruct (py_get auth "position") as [pos|]; [|exact Hag].
  rewrite run_bind. destruct pos; try exact Hag. cbn [mret M_ret].
  rewrite run_bind. rewrite <-Hent in Ho.
  destruct (retire_free actor h k1 Hag Ho) as (k2 & -> & Hf).
  exact (register_kinv _ _ _ _ _ _ _ k2 Hf).
Qed.

Lemma scope_body_kinv event grant position device token :
  stable (keeps kinv) (scope_body emit event grant position device token).
Proof using Hemit. unfold scope_body. stable_tac. Qed.

Lemma attempt_kinv body : stable (keeps kinv) body → stable (keeps kinv) (attempt body).
Proof using. intros. unfold attempt. stable_tac. Qed.

Lemma on_kernel_kinv event : stable (keeps kinv) (_on_kernel emit event).
Proof using Hemit.
  unfold _on_kernel, _install, _uninstall, _maintenance_session, _scope.
  pose proof install_body_kinv. pose proof uninstall_body_kinv.
  pose proof maintenance_body_kinv. pose proof scope_body_kinv. pose proof attempt_kinv.
  stable_tac.
Qed.
End KeepInv.

(** ** Every step of the system *)

Lemma enrich_stable (R : relation kernel) `{!PreOrder R} e :
  (∀ pl, stable R (authority_call pl)) → stable R (_enrich e).
Proof. intros. unfold _enrich. stable_tac. Qed.

Lemma record_kinv e o r : stable (keeps kinv) (_record e o r).
Proof. unfold _record. stable_tac. Qed.

Lemma process_event_kinv fuel event : stable (keeps kinv) (_process_event fuel event).
Proof.
  revert event. induction fuel as [|f IH]; intros event k Hk; simpl.
  all: destruct (validate_event event _) as [ev|ex];
    [|destruct (exn_cls ex); try exact Hk; by apply record_kinv].
  all: revert k Hk.
  all: match goal with |- ∀ k, kinv k → kinv (?m k).2 => change (stable (keeps kinv) m) end.
  all: unfold route_event; pose proof record_kinv; pose proof kinv_route.
  all: pose proof (enrich_stable (keeps kinv)).
  all: stable_step; [stable_tac|]; stable_step; [stable_tac|]; stable_step; [stable_tac|].
  all: destruct a; [|auto].
  all: apply on_kernel_kinv; intros; first [apply IH|stable_tac].
Qed.

Lemma setup_agent_kinv spec k :
  kinv k → dget (as_identity spec) (entities k) = None → kinv (setup_agent spec k).2.
Proof.
  intros Hk Hf.
  assert (Ht : triple (kfree (as_identity spec)) (setup_agent spec) (λ _, kinv) kinv).
  { unfold setup_agent.
    eapply (triple_bind _ _ _ (λ _, kfree (as_identity spec)));
      [apply triple_guard; [done|by intros ? _ [? _]]|intros []].
    eapply (triple_bind _ _ _ (λ _, kfree (as_identity spec))); [by apply triple_gets|intros root].
    eapply (triple_bind _ _ _ (λ _, kinv)); [apply register_kinv|intros []].
    apply triple_stable. stable_tac. }
  specialize (Ht k (conj Hk Hf)). by destruct (setup_agent spec k) as [[] ?].
Qed.

Lemma kfree_modify id (f : kernel → kernel) :
  (∀ k, entities (f k) = entities k) → (∀ k, kinv k → kinv (f k)) →
  triple (kfree id) (modify f) (λ _, kfree id) kinv.
Proof. intros He Hk. apply triple_modify. intros k [H1 H2]. split; [auto|by rewrite He]. Qed.

Lemma setup_device_kinv spec k :
  kinv k → dget (ds_identity spec) (entities k) = None → kinv (setup_device spec k).2.
Proof.
  intros Hk Hf. set (id := ds_identity spec) in *.
  assert (Ht : triple (kfree id) (setup_device spec) (λ _, kinv) kinv).
  { unfold setup_device. fold id.
    eapply (triple_bind _ _ _ (λ _, kfree id)); [by apply triple_gets|intros home].
    eapply (triple_bind _ _ _ (λ _, kfree id)).
    { apply kfree_modify; [done|]. intros k0 H0. by destruct H0. }
    intros []. eapply (triple_bind _ _ _ (λ _, kfree id)).
    { destruct (ds_source spec); [|by apply triple_raise; intros ? [? _]].
      apply kfree_modify; [done|]. intros k0 H0. by destruct H0. }
    intros []. unfold _install_from_config.
    eapply (triple_bind _ _ _ (λ _, kfree id)); [by apply triple_gets|intros dh].
    eapply (triple_bind _ _ _ (λ _, kfree id)).
    { eapply (triple_conseq _ (kfree id) _ _ (λ _, kfree id) _ (kfree id));
        [apply triple_stable, stable_load_module; typeclasses eauto|done|done|by intros ? [? _]]. }
    intros [tools scopes].
    eapply (triple_bind _ _ _ (λ _, kfree id)); [by apply triple_gets|intros root].
    eapply (triple_bind _ _ _ (λ _, kinv)); [apply register_kinv|intros []].
    assert (∀ s v, stable (keeps kinv) (_kernel_emit s v)) by (intros; apply process_event_kinv).
    apply triple_stable. stable_tac. }
  specialize (Ht k (conj Hk Hf)). by destruct (setup_device spec k) as [[] ?].
Qed.

Lemma validate_id e registry ev : validate_event e (kernel_rules registry) = Ok ev → ev = e.
Proof. by intros [-> _]%validate_event_rules. Qed.

(** ** The configuration is set up

    No step of the setup but the registration of an identity gives it an entity. *)

Definition kabsent (x : string) : relation kernel := λ k k', dget x (entities k) = None → dget x (entities k') = None.
#[global] Instance kabsent_preorder x : PreOrder (kabsent x).
Proof. split; [by intros k|]. intros k1 k2 k3 H1 H2 H. by apply H2, H1. Qed.

Section Absent.
Context (x : string).

Lemma kabsent_authority_call pl : stable (kabsent x) (authority_call pl).
Proof. intros k H. by rewrite authority_call_entities. Qed.
Lemma kabsent_journal_call e : stable (kabsent x) (journal_call e).
Proof. intros k H. unfold journal_call. by destruct (journal_respond _ _). Qed.
Lemma kabsent_modify (f : kernel → kernel) :
  (∀ k, entities (f k) = entities k) → stable (kabsent x) (modify f).
Proof. intros Hf. apply stable_modify. intros k. unfold kabsent. by rewrite Hf. Qed.
Lemma kabsent_dset id e : id ≠ x → stable (kabsent x) (modify (set_entities (dset id e))).
Proof. intros Hne. apply stable_modify. intros k H. simpl. by rewrite dget_dset_ne. Qed.
#[local] Hint Resolve kabsent_authority_call kabsent_journal_call : stable.

Lemma kabsent_ensure h : stable (kabsent x) (_ensure_process h).
Proof. intros k Hk. unfold _ensure_process. by repeat case_match. Qed.
Lemma kabsent_register id sp ts ag lz p sc : id ≠ x → stable (kabsent x) (register id sp ts ag lz p sc).
Proof.
  intros Hne. unfold register, ProcessHandle_init. pose proof kabsent_ensure.
  pose proof (λ e, kabsent_dset id e Hne).
  assert (∀ f, stable (kabsent x) (modify (set_agent_ids f))) by (intros; by apply kabsent_modify). stable_tac.
Qed.
Lemma kabsent_deliver h e : stable (kabsent x) (deliver h e).
Proof.
  unfold deliver. pose proof kabsent_ensure.
  assert (∀ f, stable (kabsent x) (modify (set_procs f))) by (intros; by apply kabsent_modify). stable_tac.
Qed.
(** An event goes to an identity that has an entity. *)
Lemma kabsent_route e : stable (kabsent x) (_route e).
Proof.
  unfold _route. apply stable_bind; [typeclasses eauto|stable_tac|]. intros target k H. rewrite run_bind. unfold gets.
  destruct (dget target (entities k)) as [[| |h]|] eqn:Ht; [done| |..|done].
  - revert k H Ht. intros k H _. revert k H. match goal with |- ∀ k, _ → dget x (entities (?m k).2) = None =>
      change (stable (kabsent x) m) end.
    assert (∀ f, stable (kabsent x) (modify (set_kdispatchers f))) by (intros; by apply kabsent_modify). stable_tac.
  - assert (target ≠ x) as Hne by (by intros ->; rewrite Ht in H). clear Ht. revert k H.
    match goal with |- ∀ k, _ → dget x (entities (?m k).2) = None => change (stable (kabsent x) m) end.
    pose proof kabsent_deliver. pose proof (λ e, kabsent_dset target e Hne). stable_tac.
Qed.
Lemma kabsent_inject_event fuel agent entries evict :
  stable (kabsent x) (_process_event fuel (vset "source" (VStr "authority") (inject_event agent entries evict))).
Proof.
  assert (Hrec : ∀ e o r, stable (kabsent x) (_record e o r)) by (intros; unfold _record; stable_tac).
  pose proof (enrich_stable (kabsent x)) as Hen. specialize (λ e, Hen e kabsent_authority_call).
  destruct (vset "source" (VStr "authority") (inject_event agent entries evict)) as [| | | | | |d] eqn:Ed; try done.
  assert (Hemit : ∀ emit, stable (kabsent x) (route_event (_on_kernel emit) (VDict d))).
  { intros emit k H. unfold route_event. rewrite run_bind. rewrite <-Ed. cbn [inject_event mk_reply vset].
    unfold lift. set (ev := VDict _). change (py_index ev "target") with (Ok (VStr agent)). cbn [mbind res_bind].
    destruct (veq_str (VStr agent) KERNEL_IDENTITY).
    - rewrite run_bind. cbn [mret M_ret]. rewrite run_bind. pose proof (Hrec ev "routed" VNone k H) as Hr.
      by destruct (_record ev "routed" VNone k) as [[]].
    - revert k H. match goal with |- ∀ k, _ → dget x (entities (?m k).2) = None => change (stable (kabsent x) m) end.
      pose proof kabsent_route. stable_tac. }
  destruct fuel; intros k H; cbn [_process_event]; (destruct (validate_event _ _) as [ev|ex] eqn:Ev;
    [apply validate_id in Ev; subst ev; by apply Hemit|destruct (exn_cls ex); try done; by apply Hrec]).
Qed.
Lemma kabsent_inject agent : stable (kabsent x) (_inject _kernel_emit agent).
Proof.
  intros k H. unfold _inject. rewrite run_bind. unfold authority_call.
  change (system_command _) with (system_command [("command", VStr "inject_request"); ("agent", VStr agent)]).
  rewrite respond_inject. unfold _build_inject.
  destruct (dget agent (_identities (k_authority k))) as [i|]; [|done].
  destruct (visible_entries _ _) as [new|]; [|done]. cbn [snd].
  destruct (veq_str _ "VOID"); [done|]. by apply kabsent_inject_event.
Qed.

Lemma kabsent_setup_agent spec : as_identity spec ≠ x → stable (kabsent x) (setup_agent spec).
Proof.
  intros Hne. unfold setup_agent. pose proof (kabsent_register (as_identity spec)).
  assert (∀ p, stable (kabsent x) (makedirs p)) by (intros; by apply kabsent_modify). stable_tac.
Qed.
Lemma kabsent_setup_device spec : ds_identity spec ≠ x → stable (kabsent x) (setup_device spec).
Proof.
  intros Hne. unfold setup_device, _install_from_config. pose proof (kabsent_register (ds_identity spec)).
  pose proof kabsent_inject.
  assert (∀ p, stable (kabsent x) (makedirs p)) by (intros; by apply kabsent_modify).
  assert (∀ f, stable (kabsent x) (modify (set_disk f))) by (intros; by apply kabsent_modify).
  pose proof (stable_load_module (kabsent x)). stable_tac.
Qed.
End Absent.

Lemma kinv_init root : kinv (AgentOS_init root).
Proof.
  split; [done|done|done| | | |].
  - intros id h. simpl. by repeat case_decide.
  - intros pid p Hl. simpl in Hl. by rewrite lookup_nil in Hl.
  - apply wf_init.
  - intros i r Hl. simpl in Hl. by rewrite lookup_nil in Hl.
Qed.

(** The identities of a configuration are distinct and none is the kernel's own. *)
Definition config_identities (agents : list agent_spec) (devices : list device_spec) : list string :=
  (map as_identity agents ++ map ds_identity devices)%list.
Definition config_ok (agents : list agent_spec) (devices : list device_spec) : Prop :=
  NoDup (config_identities agents devices) ∧
  ∀ id, id ∈ config_identities agents devices → id ∉ PROTECTED.

Definition kfresh (ids : list string) (k : kernel) : Prop := kinv k ∧ ∀ id, id ∈ ids → dget id (entities k) = None.
(** A loop over specifications that sets each identity up while it is free. *)
Lemma setup_loop {A} (name : A → string) (f : A → K ()) (l : list A) rest :
  (∀ a k, kinv k → dget (name a) (entities k) = None → kinv (f a k).2) →
  (∀ a x, name a ≠ x → stable (kabsent x) (f a)) →
  NoDup (map name l ++ rest) →
  triple (kfresh (map name l ++ rest)) (mfor l f) (λ _, kfresh rest) kinv.
Proof.
  intros Hk Ha. induction l as [|a l IH]; intros Hn k [Hi Hf]; [by split|].
  apply NoDup_cons in Hn as [Hna Hn]. cbn [mfor]. rewrite run_bind.
  assert (H1 : kinv (f a k).2) by (apply Hk; [done|]; apply Hf; by left).
  assert (H2 : ∀ id, id ∈ (map name l ++ rest)%list → dget id (entities (f a k).2) = None).
  { intros id Hid. apply (Ha a id); [intros Heq; apply Hna; by rewrite Heq|]. apply Hf. by right. }
  destruct (f a k) as [[[]|] k1]; [|done]. by apply IH.
Qed.
Lemma booted_kinv root agents devices : config_ok agents devices → kinv (booted root agents devices).
Proof.
  intros [Hn Hp]. unfold booted, setup. rewrite run_bind.
  assert (Hloop : triple (kfresh (config_identities agents devices)) (mfor agents setup_agent)
            (λ _, kfresh (map ds_identity devices)) kinv).
  { apply setup_loop; [apply setup_agent_kinv|intros a x; apply kabsent_setup_agent|done]. }
  assert (Hstart : kfresh (config_identities agents devices) (AgentOS_init root)).
  { split; [apply kinv_init|]. intros id Hid. specialize (Hp id Hid). unfold PROTECTED in Hp.
    cbn. unfold KERNEL_IDENTITY. repeat case_decide; set_solver. }
  specialize (Hloop _ Hstart). destruct (mfor agents setup_agent _) as [[[]|] k1]; [|done].
  assert (Hdev : triple (kfresh (map ds_identity devices ++ [])) (mfor devices setup_device) (λ _, kfresh []) kinv).
  { apply setup_loop; [apply setup_device_kinv|intros a x; apply kabsent_setup_device|].
    rewrite app_nil_r. unfold config_identities in Hn. apply NoDup_app in Hn as (_ & _ & ?). done. }
  rewrite app_nil_r in Hdev. specialize (Hdev _ Hloop).
  destruct (mfor devices setup_device k1) as [[[]|] k2]; [by destruct Hdev|done].
Qed.

Lemma on_dispatcher_kinv dev f k k' : kinv k → on_dispatcher dev f k = Some k' → kinv k'.
Proof.
  intros Hk. unfold on_dispatcher. repeat case_match; try done. intros [= <-].
  by destruct Hk.
Qed.

Lemma kdevice_respond_kinv dev e : stable (keeps kinv) (kdevice_respond dev e).
Proof.
  intros k Hk. unfold kdevice_respond. case_bool_decide; [|by apply kinv_journal_call].
  pose proof (wf_respond e (k_authority k) (ki_wf k Hk)) as Hwf.
  destruct (authority_respond e _) as [r a]. simpl in *.
  apply (kinv_frame k); [done|done|apply Hk|done].
Qed.

Lemma kinv_kill k pid : kinv k → kinv (set_procs (alter kill pid) k).
Proof.
  intros [? ? ? ? Hp ? ?]. split; try done. simpl. intros pid' p Hl Ha.
  destruct (alter_alive kill pid (k_procs k) pid' p) as (p0 & H0 & <- & Ha0); try done.
  by apply Hp.
Qed.

Lemma kstep_kinv l k k' : kinv k → kstep l k = Some k' → kinv k'.
Proof.
  intros Hk. destruct l as [|id v|pid|path m|dev i|dev i|dev i]; simpl in *.
  - destruct (event_bus k) as [|e rest]; [done|]. intros [= <-].
    apply process_event_kinv. by destruct Hk.
  - repeat case_match; try done. intros [= <-]. unfold _read_loop. case_match; [|done].
    by destruct Hk.
  - intros [= <-]. by apply kinv_kill.
  - intros [= <-]. by destruct Hk.
  - by apply on_dispatcher_kinv.
  - destruct (dget dev (_kdispatchers k)) as [d|]; [|done].
    destruct (d_workers d !! i) as [[s []]|]; try done.
    pose proof (kdevice_respond_kinv dev event k Hk) as Hr.
    destruct (kdevice_respond dev event k) as [r k1]. by apply on_dispatcher_kinv.
  - destruct (dget dev (_kdispatchers k)) as [d|]; [|done].
    destruct (d_workers d !! i) as [[s []]|]; try done.
    pose proof (process_event_kinv DEPTH (vset "source" (VStr dev) result) k Hk) as Hr.
    unfold _kernel_emit, process_event.
    destruct (_process_event DEPTH _ k) as [r k1]. by apply on_dispatcher_kinv.
Qed.

Lemma kreach_kinv root agents devices k : config_ok agents devices → kreach root agents devices k → kinv k.
Proof. intros Hc. induction 1; [by apply booted_kinv|by eapply kstep_kinv]. Qed.

(** ** Relations that every primitive of the kernel respects *)

Section Generic.
Context (R : relation kernel) `{!PreOrder R}.
Hypothesis Hauth : ∀ pl, stable R (authority_call pl).
Hypothesis Hjour : ∀ e, stable R (journal_call e).
Hypothesis Hent : ∀ f, stable R (modify (set_entities f)).
Hypothesis Hag : ∀ f, stable R (modify (set_agent_ids f)).
Hypothesis Hprocs : ∀ f, stable R (modify (set_procs f)).
Hypothesis Hdirs : ∀ f, stable R (modify (set_dirs f)).
Hypothesis Hdisp : ∀ f, stable R (modify (set_kdispatchers f)).

#[local] Hint Resolve Hauth Hjour Hent Hag Hprocs Hdirs Hdisp : stable.

Lemma gen_ensure h : stable R (_ensure_process h).
Proof using All.
  intros k. unfold _ensure_process. repeat case_match; try reflexivity. apply (Hprocs _ k).
Qed.
Lemma gen_deliver h e : stable R (deliver h e).
Proof using All. unfold deliver. pose proof gen_ensure. stable_tac. Qed.
Lemma gen_retire id h : stable R (retire id h).
Proof using All. unfold retire, terminate. pose proof gen_deliver. stable_tac. Qed.
Lemma gen_register id sp ts ag lz p sc : stable R (register id sp ts ag lz p sc).
Proof using All. unfold register, ProcessHandle_init. pose proof gen_ensure. stable_tac. Qed.
Lemma gen_route e : stable R (_route e).
Proof using All. unfold _route. pose proof gen_deliver. stable_tac. Qed.
Lemma gen_makedirs p : stable R (makedirs p).
Proof using All. apply Hdirs. Qed.

Lemma gen_on_kernel emit e : (∀ s v, stable R (emit s v)) → stable R (_on_kernel emit e).
Proof using All.
  intros He. pose proof gen_retire. pose proof gen_register. pose proof gen_makedirs.
  unfold _on_kernel, _install, _uninstall, _maintenance_session, _scope, attempt,
    install_body, uninstall_body, maintenance_body, scope_body. stable_tac.
Qed.

Lemma gen_process_event fuel e : stable R (_process_event fuel e).
Proof using All.
  pose proof gen_route. pose proof (enrich_stable R).
  assert (Hrec : ∀ e o r, stable R (_record e o r)) by (intros; unfold _record; stable_tac).
  revert e. induction fuel as [|f IH]; intros event k; simpl.
  all: destruct (validate_event event _) as [ev|ex];
    [|destruct (exn_cls ex); try reflexivity; apply Hrec].
  all: revert k; match goal with |- ∀ k, R k (?m k).2 => change (stable R m) end.
  all: unfold route_event; stable_step; [stable_tac|]; stable_step; [stable_tac|];
    stable_step; [stable_tac|].
  all: destruct a; [|auto]; apply gen_on_kernel; intros; first [apply IH|stable_tac].
Qed.
End Generic.

(** ** The journal *)

(** Rows are added at the end, and numbered in order. *)
Definition krows : relation kernel := λ k k',
  journal_grows (k_journal k) (k_journal k') ∧ keeps journal_numbered (k_journal k) (k_journal k').
#[global] Instance krows_preorder : PreOrder krows.
Proof.
  split; [intros k; split; [reflexivity|by intros ?]|].
  intros k1 k2 k3 [H1 H2] [H3 H4]. split; [by transitivity (k_journal k2)|]. intros H. by apply H4, H2.
Qed.
Lemma krows_same k k' : k_journal k' = k_journal k → krows k k'.
Proof. intros E. unfold krows. rewrite E. split; [reflexivity|by intros ?]. Qed.

Lemma krows_authority_call pl : stable krows (authority_call pl).
Proof. intros k. unfold authority_call. destruct (authority_respond _ _). by apply krows_same. Qed.
Lemma krows_journal_call e : stable krows (journal_call e).
Proof.
  intros k. unfold journal_call. pose proof (journal_respond_grows e (k_journal k)) as H.
  pose proof (journal_respond_numbered e (k_journal k)) as Hn. by destruct (journal_respond _ _).
Qed.
Lemma krows_modify (f : kernel → kernel) :
  (∀ k, k_journal (f k) = k_journal k) → stable krows (modify f).
Proof. intros H. apply stable_modify. intros k. by apply krows_same. Qed.

Lemma krows_process_event fuel e : stable krows (_process_event fuel e).
Proof.
  apply gen_process_event; try typeclasses eauto;
    auto using krows_authority_call, krows_journal_call; intros; by apply krows_modify.
Qed.

#[export] Hint Resolve krows_authority_call krows_journal_call : stable.

Lemma krows_register id sp ts ag lz p sc : stable krows (register id sp ts ag lz p sc).
Proof.
  apply gen_register; try typeclasses eauto;
    auto using krows_authority_call, krows_journal_call; intros; by apply krows_modify.
Qed.

Lemma krows_setup_agent spec : stable krows (setup_agent spec).
Proof.
  pose proof krows_register. assert (∀ p, stable krows (makedirs p)) by (by intros; apply krows_modify).
  unfold setup_agent. stable_tac.
Qed.
Lemma krows_setup_device spec : stable krows (setup_device spec).
Proof.
  pose proof krows_register. assert (∀ p, stable krows (makedirs p)) by (by intros; apply krows_modify).
  assert (∀ f, stable krows (modify (set_disk f))) by (by intros; apply krows_modify).
  assert (∀ s v, stable krows (_kernel_emit s v)) by (intros; apply krows_process_event).
  unfold setup_device, _install_from_config. stable_tac.
Qed.

Lemma on_dispatcher_krows dev f k k' : on_dispatcher dev f k = Some k' → k_journal k' = k_journal k.
Proof. unfold on_dispatcher. repeat case_match; try done. by intros [= <-]. Qed.

Lemma kdevice_respond_krows dev e : stable krows (kdevice_respond dev e).
Proof.
  intros k. unfold kdevice_respond. case_bool_decide; [|apply krows_journal_call].
  destruct (authority_respond _ _). by apply krows_same.
Qed.
Lemma kstep_krows l k k' : kstep l k = Some k' → krows k k'.
Proof.
  destruct l as [|id v|pid|path m|dev i|dev i|dev i]; simpl.
  - destruct (event_bus k) as [|e rest]; [done|]. intros [= <-].
    apply (krows_process_event DEPTH e (set_bus (λ _, rest) k)).
  - repeat case_match; try done. intros [= <-]. unfold _read_loop. case_match; by apply krows_same.
  - intros [= <-]. by apply krows_same.
  - intros [= <-]. by apply krows_same.
  - intros H%on_dispatcher_krows. by apply krows_same.
  - destruct (dget dev (_kdispatchers k)) as [d|]; [|done].
    destruct (d_workers d !! i) as [[s []]|]; try done.
    pose proof (kdevice_respond_krows dev event k) as Hr.
    destruct (kdevice_respond dev event k) as [r k1]. intros H%on_dispatcher_krows.
    unfold krows in *. by rewrite H.
  - destruct (dget dev (_kdispatchers k)) as [d|]; [|done].
    destruct (d_workers d !! i) as [[s []]|]; try done.
    pose proof (krows_process_event DEPTH (vset "source" (VStr dev) result) k) as Hr.
    unfold _kernel_emit, process_event.
    destruct (_process_event DEPTH _ k) as [r k1]. intros H%on_dispatcher_krows.
    unfold krows in *. by rewrite H.
Qed.
Lemma kreach_numbered root agents devices k : kreach root agents devices k → journal_numbered (k_journal k).
Proof.
  induction 1 as [|l k k' _ IH Hs]; [|by apply (kstep_krows l k k' Hs)].
  pose proof krows_setup_agent. pose proof krows_setup_device.
  assert (stable krows (setup agents devices)) as [_ Hb]%(λ H, H (AgentOS_init root)).
  { unfold setup. stable_tac. }
  apply Hb. intros i r Hl. cbn in Hl. by rewrite lookup_nil in Hl.
Qed.

(** ** A run of the system

    A root agent and a worker are configured; the root agent installs the device [echo] for
    the position of the worker. *)

Fixpoint kruns (ls : list klabel) (k : kernel) : option kernel :=
  match ls with
  | [] => Some k
  | l :: ls' => match kstep l k with Some k' => kruns ls' k' | None => None end
  end.
Lemma kruns_reach root agents devices ls k k' :
  kreach root agents devices k → kruns ls k = Some k' → kreach root agents devices k'.
Proof.
  revert k. induction ls as [|l ls IH]; intros k Hk; simpl; [by intros [= <-]|].
  destruct (kstep l k) as [k1|] eqn:Hs; [|done]. apply IH. by eapply kreach_step.
Qed.

Definition echo_module : dict value :=
  [("TOOLS", VList [VDict [("name", VStr "echo"); ("trigger", VList [VStr "echo"])]]);
   ("SCOPES", VList [VDict [("token", VStr "maintain"); ("default", VBool true)];
                     VDict [("token", VStr "public"); ("default", VBool true)]])].

Definition command (name : string) (fields : dict value) : value :=
  VDict [("target", VStr "kernel"); ("kind", VStr "system");
         ("payload", VDict (("command", VStr name) :: fields))].

Definition echo_agents : list agent_spec :=
  [AgentSpec "boss" "agent" (Some "root") false; AgentSpec "worker" "agent" (Some "staff") false].
Definition echo_start : kernel := booted "/rt" echo_agents [].
Lemma echo_config_ok : config_ok echo_agents [].
Proof.
  split; [|intros id; unfold config_identities, echo_agents, PROTECTED; cbn; set_solver].
  unfold config_identities, echo_agents. cbn. repeat constructor; set_solver.
Qed.
Definition echo_run : list klabel :=
  [KDisk "/rt/home/echo/device.py" (Ok echo_module);
   KProduce "boss" (command "install_device" [("identity", VStr "echo");
                                              ("grants", VList [VStr "staff"])]);
   KBus].

Lemma some_inv {A} (o : option A) :
  match o with Some _ => true | None => false end = true → ∃ x, o = Some x.
Proof. destruct o; [eauto|done]. Qed.

Lemma echo_run_ok : ∃ k, kruns echo_run echo_start = Some k.
Proof. apply some_inv. vm_compute. reflexivity. Qed.

Lemma echo_run_reach k : kruns echo_run echo_start = Some k → kreach "/rt" echo_agents [] k.
Proof. apply kruns_reach, kreach_boot. Qed.

(** The process [pid] of [id] lives in the state a run ends in. *)
Definition live_in (o : option kernel) (id : string) (pid : nat) : bool :=
  match o with
  | Some k => match dget id (entities k), k_procs k !! pid with
              | Some (EHandle h), Some p => bool_decide (h_process h = Some pid) && pr_alive p
              | _, _ => false
              end
  | None => false
  end.
Lemma live_in_inv o id pid :
  live_in o id pid = true →
  ∃ k h p, o = Some k ∧ dget id (entities k) = Some (EHandle h) ∧ h_process h = Some pid ∧
           k_procs k !! pid = Some p ∧ pr_alive p = true.
Proof.
  destruct o as [k|]; [|done]. simpl.
  destruct (dget id (entities k)) as [[| |h]|] eqn:Eh; try done.
  destruct (k_procs k !! pid) as [p|] eqn:Ep; [|done].
  intros [H1%bool_decide_eq_true H2]%andb_true_iff. by exists k, h, p.
Qed.

Lemma echo_run_live :
  ∃ k h p, kruns echo_run echo_start = Some k ∧
           dget "echo" (entities k) = Some (EHandle h) ∧ h_process h = Some 2 ∧
           k_procs k !! 2 = Some p ∧ pr_alive p = true.
Proof. apply live_in_inv. vm_compute. reflexivity. Qed.

(** ** Properties *)

(** C5: once a configuration whose identities are distinct and none the kernel's own is set
    up, in every state the running system reaches, whatever events are handled, the
    identities of the kernel, the Authority and the Journal still name them: no install,
    removal, maintenance session, grant or delivery replaces them. *)
Theorem protected_identities (root : string) (agents : list agent_spec) (devices : list device_spec)
    (k : kernel) :
  config_ok agents devices → kreach root agents devices k →
  dget "kernel" (entities k) = Some EKernel ∧
  dget "authority" (entities k) = Some EKernelDevice ∧
  dget "journal" (entities k) = Some EKernelDevice.
Proof. intros Hc Hk%(kreach_kinv _ _ _ _ Hc). by destruct Hk. Qed.

Lemma protected_identities_witness :
  ∃ k, kruns echo_run echo_start = Some k ∧
       dget "authority" (entities k) = Some EKernelDevice.
Proof.
  destruct echo_run_ok as [k E]. exists k. split; [exact E|].
  apply (protected_identities "/rt" echo_agents [] k).
  - exact echo_config_ok.
  - exact (echo_run_reach k E).
Defined.

(** The condition is needed: the setup checks no identity, and an agent configured as
    [authority] takes the place of the Authority. *)
Lemma configured_authority_replaced :
  ∃ h, dget "authority" (entities (booted "/rt" [AgentSpec "authority" "agent" (Some "root") false] [])) =
       Some (EHandle h).
Proof. eexists. vm_compute. reflexivity. Qed.

(** C6: once a configuration whose identities are distinct and none the kernel's own is set
    up, an identity never has two live processes, and the live process of an identity is
    the one its handle in the routing table refers to. *)
Theorem one_live_process (root : string) (agents : list agent_spec) (devices : list device_spec)
    (k : kernel) (pid pid' : nat) (p p' : procrec) :
  config_ok agents devices → kreach root agents devices k →
  k_procs k !! pid = Some p → k_procs k !! pid' = Some p' →
  pr_alive p = true → pr_alive p' = true →
  u_identity (pr_proc p) = u_identity (pr_proc p') →
  pid = pid' ∧ ∃ h, dget (u_identity (pr_proc p)) (entities k) = Some (EHandle h) ∧
                    h_process h = Some pid.
Proof.
  intros Hc Hk%(kreach_kinv _ _ _ _ Hc) Hp Hp' Ha Ha' Hu.
  destruct (ki_procs k Hk pid p Hp Ha) as (h & Hh & Hpid).
  destruct (ki_procs k Hk pid' p' Hp' Ha') as (h' & Hh' & Hpid').
  rewrite <-Hu, Hh in Hh'. injection Hh' as <-. split; [congruence|]. by exists h.
Qed.

Lemma one_live_process_witness :
  ∃ k p h, kruns echo_run echo_start = Some k ∧ k_procs k !! 2 = Some p ∧
           dget (u_identity (pr_proc p)) (entities k) = Some (EHandle h) ∧ h_process h = Some 2.
Proof.
  destruct echo_run_live as (k & h & p & E & _ & _ & Hp & Ha).
  destruct (one_live_process "/rt" echo_agents [] k 2 2 p p echo_config_ok
              (echo_run_reach k E)
              Hp Hp Ha Ha eq_refl) as (_ & h' & Hh & Hpid).
  exists k, p, h'. split; [exact E|]. split; [exact Hp|]. split; [exact Hh|exact Hpid].
Defined.

(** A configuration that lists an identity twice starts two live processes for it. *)
Lemma configured_twice_runs_twice :
  let spec := AgentSpec "ann" "agent" (Some "staff") false in
  ∃ p p', k_procs (booted "/rt" [spec; spec] []) = [p; p'] ∧ pr_alive p = true ∧ pr_alive p' = true ∧
          u_identity (pr_proc p) = "ann" ∧ u_identity (pr_proc p') = "ann".
Proof. eexists _, _. split; [vm_compute; reflexivity|]. done. Qed.

(** C7: the journal is append-only and its rows are numbered from 1 in order: every step of
    the running system, whatever its configuration, keeps the rows there are and adds rows at
    the end. *)
Theorem journal_append_only (root : string) (agents : list agent_spec) (devices : list device_spec)
    (l : klabel) (k k' : kernel) :
  kreach root agents devices k → kstep l k = Some k' →
  (∃ rs, j_rows (k_journal k') = (j_rows (k_journal k) ++ rs)%list) ∧
  (∀ i r, j_rows (k_journal k') !! i = Some r → r_seq r = S i).
Proof.
  intros Hk Hs. destruct (kstep_krows l k k' Hs) as [Hg Hn]. split; [exact Hg|].
  exact (Hn (kreach_numbered _ _ _ _ Hk)).
Qed.

Lemma journal_append_only_witness :
  ∃ k k', kruns echo_run echo_start = Some k ∧ kstep (KDie 2) k = Some k' ∧
          (∃ rs, j_rows (k_journal k') = (j_rows (k_journal k) ++ rs)%list).
Proof.
  destruct echo_run_ok as [k E]. exists k, (set_procs (alter kill 2) k).
  split; [exact E|]. split; [reflexivity|].
  apply (journal_append_only "/rt" echo_agents [] (KDie 2) k).
  - exact (echo_run_reach k E).
  - reflexivity.
Defined.
