(* ===== verification/AgentOSAuthz.v ===== *)
(** * Who may change the organisation

    The effect of the Authority queries on the kernel, the nesting depth of event handling,
    and what events of a given source can do: an unprivileged source changes neither the
    members nor the grants; the [auth] field a device sees is the kernel's. *)

From stdpp Require Import base gmap strings list.
From Stdlib Require Import ZArith.
From S2P Require Import Prelude PyValue EventProtocol Authority Journal Process Dispatcher AgentOS AgentOSInv.

Local Open Scope string_scope.
Local Open Scope nat_scope.

(** ** Queries, run *)

Lemma set_authority_id k : set_authority (k_authority k) k = k.
Proof. by destruct k. Qed.

Lemma run_query pl r k :
  authority_respond (system_command pl) (k_authority k) = (r, k_authority k) →
  authority_call pl k = (r, k).
Proof. intros H. unfold authority_call. by rewrite H, set_authority_id. Qed.

Lemma run_authorize id scope k :
  _authorize id scope k = (Ok (_authorized (k_authority k) id scope), k).
Proof.
  unfold _authorize. rewrite run_bind, (run_query _ _ k (respond_authorize id scope _)). done.
Qed.
Lemma run_auth_context id k : auth_context id k = (Ok (_auth_context (k_authority k) id), k).
Proof.
  unfold auth_context. rewrite run_bind, (run_query _ _ k (respond_auth id _)). done.
Qed.
Lemma mapM_need_str l : res_mapM need_str (map VStr l) = Ok l.
Proof. induction l as [|x l IH]; simpl; [done|]. by rewrite IH. Qed.
Lemma run_agents k : _agents k = (Ok (agents_request (k_authority k)), k).
Proof.
  unfold _agents. rewrite run_bind, (run_query _ _ k (respond_agents _)). rewrite run_bind. simpl.
  unfold lift. simpl. by rewrite mapM_need_str.
Qed.

(** The kernel, an installer, or a holder of a maintain scope of the device. *)
Definition holds_maintain (a : authority) (actor device : string) : bool :=
  existsb (λ dt, bool_decide (dt.1 = device) && is_maintain device dt.2) (scopes_of a actor).
Definition device_allowed (a : authority) (actor device : string) : bool :=
  bool_decide (actor = KERNEL_IDENTITY) || _authorized a actor "install" ||
  holds_maintain a actor device.

Lemma any_maintain device l :
  res_any (maintain_grant device) (map scope_value l) =
  Ok (existsb (λ dt, bool_decide (dt.1 = device) && is_maintain device dt.2) l).
Proof.
  induction l as [|[d t] l IH]; simpl; [done|]. unfold is_maintain.
  destruct (bool_decide (d = device) && _); simpl; [done|exact IH].
Qed.
Lemma run_authorize_device actor device k :
  _authorize_device actor device k = (Ok (device_allowed (k_authority k) actor device), k).
Proof.
  unfold _authorize_device, device_allowed. case_bool_decide; [done|]. cbn [orb].
  rewrite run_bind, run_authorize. destruct (_authorized _ actor "install"); [done|].
  rewrite run_bind, run_auth_context. unfold lift. cbn [_auth_context py_get_or mbind res_bind].
  f_equal. change (dget "scopes" _) with
    (Some (VList (map scope_value (scopes_of (k_authority k) actor)))) || idtac.
  simpl. apply any_maintain.
Qed.

(** ** Quiet events: what the kernel itself emits *)

Definition KERNEL_HANDLED : list string :=
  ["install_device"; "uninstall_device"; "maintenance_session"; "grant_scope"; "revoke_scope"].

Definition quiet (v : value) : Prop :=
  ∃ d p c, v = VDict d ∧ dget "payload" d = Some (VDict p) ∧ dget "command" p = Some (VStr c) ∧
           c ∉ KERNEL_HANDLED.

Lemma quiet_reply t kind p c :
  dget "command" p = Some (VStr c) → c ∉ KERNEL_HANDLED → quiet (mk_reply t kind (VDict p)).
Proof. intros. by eexists _, p, c. Qed.
Lemma quiet_vset k x v : k ≠ "payload" → quiet v → quiet (vset k x v).
Proof.
  intros Hk (d & p & c & -> & Hp & Hc & Hn). exists (dset k x d), p, c.
  split_and!; try done. by rewrite dget_dset_ne.
Qed.

Lemma on_kernel_quiet emit e k : quiet e → _on_kernel emit e k = (Ok (), k).
Proof.
  intros (d & p & c & -> & Hp & Hc & Hn). unfold _on_kernel.
  rewrite run_bind. unfold lift, py_index. rewrite Hp. rewrite run_bind.
  unfold py_get, py_get_or. rewrite Hc. simpl. unfold KERNEL_HANDLED in Hn.
  rewrite !bool_decide_eq_false_2 by set_solver. done.
Qed.

Lemma enrich_quiet e k e' k' : quiet e → _enrich e k = (Ok e', k') → quiet e'.
Proof.
  intros Hq. unfold _enrich. rewrite run_bind.
  destruct (lift _ k) as [[target|] k1]; [|done]. rewrite run_bind.
  destruct (gets _ k1) as [[[]|] k2]; [by intros [= <- _]| |done]. rewrite run_bind.
  destruct (gets _ k2) as [[[[| |h]|]|] k3]; try (by intros [= <- _]).
  rewrite run_bind. destruct (lift _ k3) as [[source|] k4]; [|done]. rewrite run_bind.
  destruct (gets _ k4) as [[se|] k5]; [|done].
  destruct (_ || _); [intros [= <- _]; by apply quiet_vset|].
  rewrite run_bind, run_auth_context. intros [= <- _]. by apply quiet_vset.
Qed.

(** ** Handlers that differ in their emitter only

    [mequiv]: the same result and the same store from every store. *)

Definition mequiv {S A} : relation (M S A) := λ m m', ∀ s, m s = m' s.
#[global] Instance mequiv_equivalence {S A} : Equivalence (@mequiv S A).
Proof.
  split; [done|by intros m m' H s|]. intros m1 m2 m3 H H' s. by rewrite H.
Qed.
Lemma mequiv_bind {S A B} (m m' : M S A) (f g : A → M S B) :
  mequiv m m' → (∀ a, mequiv (f a) (g a)) → mequiv (m ≫= f) (m' ≫= g).
Proof.
  intros Hm Hf s. rewrite !run_bind, Hm. destruct (m' s) as [[a|] s']; [apply Hf|done].
Qed.
Lemma mequiv_bind_lift {S A B} (r : res A) (f g : A → M S B) :
  (∀ a, r = Ok a → mequiv (f a) (g a)) → mequiv (lift r ≫= f) (lift r ≫= g).
Proof. intros Hf s. rewrite !run_bind. unfold lift. destruct r; [by apply Hf|done]. Qed.
Lemma mequiv_mfor {S A} (l : list A) (f g : A → M S ()) :
  (∀ a, mequiv (f a) (g a)) → mequiv (mfor l f) (mfor l g).
Proof.
  intros Hf. induction l as [|x l IH]; simpl; [done|]. apply mequiv_bind; [apply Hf|done].
Qed.
Lemma mequiv_try {S A} (m m' : M S A) (h : exn → M S A) :
  mequiv m m' → mequiv (try_catch m h) (try_catch m' h).
Proof. intros Hm s. unfold try_catch. by rewrite Hm. Qed.
Lemma mequiv_attempt m m' : mequiv m m' → mequiv (attempt m) (attempt m').
Proof. intros Hm. apply mequiv_try, mequiv_bind; done. Qed.

Create HintDb mequiv.
Ltac mequiv_step :=
  match goal with
  | |- mequiv ?m ?m => reflexivity
  | |- mequiv (match ?x with _ => _ end) _ => destruct x
  | |- mequiv (_ ≫= _) _ => apply mequiv_bind; [|intros ?]
  | |- mequiv (mfor _ _) _ => apply mequiv_mfor; intros ?
  | |- mequiv (attempt _) _ => apply mequiv_attempt
  | |- mequiv _ _ => solve [auto with mequiv]
  end.
Ltac mequiv_tac := repeat mequiv_step.

Section Congruence.
Variables emit emit' : string → value → K ().
Hypothesis emit_quiet : ∀ s v, quiet v → mequiv (emit s v) (emit' s v).

Lemma inject_congr ag : mequiv (_inject emit ag) (_inject emit' ag).
Proof.
  intros k. unfold _inject. rewrite !run_bind. unfold authority_call. rewrite respond_inject.
  unfold _build_inject. destruct (dget ag _) as [i|]; [|done].
  destruct (visible_entries _ _) as [new|]; [|done]. simpl. apply emit_quiet.
  eapply quiet_reply; [done|]. unfold KERNEL_HANDLED. set_solver.
Qed.
#[local] Hint Resolve inject_congr : mequiv.

Lemma emit_ack_congr event command id ok error :
  command ∉ KERNEL_HANDLED →
  mequiv (ack ← lift (_ack event command id ok error); emit KERNEL_IDENTITY ack)
         (ack ← lift (_ack event command id ok error); emit' KERNEL_IDENTITY ack).
Proof.
  intros Hn. apply mequiv_bind_lift. intros a Ha. apply emit_quiet. unfold _ack in Ha.
  destruct (py_index event "source"); simplify_eq/=. by eapply quiet_reply.
Qed.

Lemma on_kernel_congr event : mequiv (_on_kernel emit event) (_on_kernel emit' event).
Proof.
  unfold _on_kernel, _install, _uninstall, _maintenance_session, _scope.
  repeat first [apply emit_ack_congr; unfold KERNEL_HANDLED; set_solver | mequiv_step];
    try (apply emit_quiet; eapply quiet_reply; [done|]; unfold KERNEL_HANDLED; set_solver).
  all: unfold install_body, uninstall_body, maintenance_body, scope_body; mequiv_tac.
Qed.
End Congruence.

Lemma route_congr f g e :
  (∀ v, mequiv (f v) (g v)) → mequiv (route_event f e) (route_event g e).
Proof. intros H. unfold route_event. mequiv_tac. Qed.

(** A quiet event is handled alike at every depth: its handling emits nothing. *)
Lemma route_quiet em em' e : quiet e →
  mequiv (route_event (_on_kernel em) e) (route_event (_on_kernel em') e).
Proof.
  intros Hq. unfold route_event. apply mequiv_bind; [done|]. intros [].
  - cbn. intros k. rewrite !run_bind. cbn. rewrite !run_bind.
    destruct (_record _ _ _ k) as [[]]; [|done]. by rewrite !on_kernel_quiet.
  - done.
Qed.
(** What a handler emits with, at a given depth. *)
Definition emitter (fuel : nat) (source : string) (reply : value) : K () :=
  match fuel with
  | O => raise RuntimeError "maximum recursion depth exceeded"
  | S f => _process_event f (vset "source" (VStr source) reply)
  end.
Lemma process_unfold fuel e k :
  _process_event fuel e k =
  match validate_event e (kernel_rules (dkeys (entities k))) with
  | Raise ex => match exn_cls ex with
                | EventError => _record e "dropped" (VStr (exn_msg ex)) k
                | _ => (Raise ex, k)
                end
  | Ok event => route_event (_on_kernel (emitter fuel)) event k
  end.
Proof. by destruct fuel. Qed.
Lemma process_quiet f f' e : quiet e → mequiv (_process_event f e) (_process_event f' e).
Proof.
  intros Hq k. rewrite !process_unfold. destruct (validate_event e _) as [ev|] eqn:Ev; [|done].
  apply validate_id in Ev as ->. by apply route_quiet.
Qed.

Lemma process_depth fuel e : mequiv (_process_event (S fuel) e) (process_event e).
Proof.
  intros k. unfold process_event, DEPTH. rewrite !process_unfold.
  destruct (validate_event e _) as [ev|]; [|done].
  apply route_congr. intros v. apply on_kernel_congr. intros s w Hw.
  apply process_quiet, quiet_vset; done.
Qed.

(** ** What the organisation is, to the kernel *)

Definition org_view (k : kernel) :=
  (_identities (k_authority k), _grants (k_authority k), dkeys (entities k), _agent_ids k,
   k_dirs k).
Definition same_org : relation kernel := λ k k', org_view k = org_view k'.
#[global] Instance same_org_preorder : PreOrder same_org.
Proof. split; [done|]. intros k1 k2 k3 H1 H2. by transitivity (org_view k2). Qed.

Lemma same_org_journal e : stable same_org (journal_call e).
Proof. intros k. unfold journal_call. by destruct (journal_respond _ _). Qed.
Lemma same_org_record e o r : stable same_org (_record e o r).
Proof. unfold _record. pose proof same_org_journal. stable_tac. Qed.
Lemma same_org_inject emit ag :
  (∀ s v, quiet v → stable same_org (emit s v)) → stable same_org (_inject emit ag).
Proof.
  intros He k. unfold _inject. rewrite run_bind. unfold authority_call.
  rewrite respond_inject. unfold _build_inject. destruct (dget ag _) as [i|]; [|done].
  destruct (visible_entries _ _) as [new|]; [|done]. simpl.
  match goal with |- same_org k (emit ?s ?v ?k1).2 =>
    transitivity k1; [by destruct k|]; apply He end.
  eapply quiet_reply; [done|]. unfold KERNEL_HANDLED. set_solver.
Qed.
Lemma same_org_enrich e : stable same_org (_enrich e).
Proof.
  unfold _enrich. assert (∀ s, stable same_org (auth_context s)).
  { intros s k. by rewrite run_auth_context. }
  stable_tac.
Qed.
Lemma dkeys_dset_mem {V} id (v : V) d : dmem id d = true → dkeys (dset id v d) = dkeys d.
Proof. intros H%dmem_keys. rewrite dkeys_dset. by rewrite decide_True. Qed.
Lemma same_org_route e : stable same_org (_route e).
Proof.
  unfold _route. apply stable_bind; [typeclasses eauto|stable_tac|]. intros target k.
  rewrite run_bind. unfold gets. destruct (dget target (entities k)) as [[| |h]|] eqn:Ht; try done.
  - rewrite !run_bind. destruct (lift _ k) as [[source|] k1] eqn:El;
      unfold lift in El; simplify_eq/=; [|done]. rewrite run_bind. simpl.
    by destruct (dget target (_kdispatchers k1)).
  - rewrite run_bind.
    assert (Hm : dmem target (entities k) = true).
    { destruct (dmem target (entities k)) eqn:E; [done|].
      apply dmem_false in E. congruence. }
    destruct (deliver_cases h e k) as [(pid & _ & ->)|[(ex & _ & _ & ->)|(u & _ & _ & ->)]];
      try done; unfold same_org, org_view; simpl; by rewrite dkeys_dset_mem.
Qed.

Lemma same_org_route_event f e k :
  (∀ k1, same_org k k1 → same_org k1 (f e k1).2) → same_org k (route_event f e k).2.
Proof.
  intros Hf. unfold route_event.
  pose proof same_org_record. pose proof same_org_enrich. pose proof same_org_route.
  rewrite run_bind. destruct (lift _ k) as [[[]|] k0] eqn:El; unfold lift in El;
    simplify_eq/=; [| |done].
  - rewrite run_bind. simpl. rewrite run_bind. pose proof (H e "routed" VNone k0) as Hr.
    destruct (_record e "routed" VNone k0) as [[[]|] k1]; [|done].
    transitivity k1; [done|]. by apply Hf.
  - assert (Hs : stable same_org (event ← _enrich e; _record event "routed" VNone ;; _route event))
      by stable_tac.
    apply Hs.
Qed.
Lemma same_org_quiet fuel e : quiet e → stable same_org (_process_event fuel e).
Proof.
  intros Hq k. rewrite process_unfold.
  destruct (validate_event e _) as [ev|ex] eqn:Ev;
    [|destruct (exn_cls ex); try done; apply same_org_record].
  apply validate_id in Ev as ->. apply same_org_route_event. intros k' _.
  by rewrite on_kernel_quiet.
Qed.
Lemma same_org_emitter fuel s v : quiet v → stable same_org (emitter fuel s v).
Proof.
  intros Hq. destruct fuel; simpl; [stable_tac|]. by apply same_org_quiet, quiet_vset.
Qed.

(** ** Sources without a privilege *)

(** Not the kernel, no [install] or [grant] right, and no maintain scope. *)
Definition unprivileged (a : authority) (s : string) : bool :=
  negb (bool_decide (s = KERNEL_IDENTITY)) && negb (_authorized a s "install") &&
  negb (_authorized a s "grant") &&
  forallb (λ dt, negb (is_maintain dt.1 dt.2)) (scopes_of a s).

Lemma unprivileged_device a s device :
  unprivileged a s = true → device_allowed a s device = false.
Proof.
  unfold unprivileged, device_allowed, holds_maintain. rewrite !andb_true_iff, !negb_true_iff.
  intros [[[-> ->] _] Hf]. cbn [orb]. induction (scopes_of a s) as [|[d t] l IH]; [done|].
  simpl in *. apply andb_true_iff in Hf as [H1%negb_true_iff Hf].
  rewrite IH by done. case_bool_decide; subst; [|done]. simpl. by rewrite H1.
Qed.

(** [m] raises and leaves the store alone. *)
Definition denies {A} (k : kernel) (m : K A) : Prop := ∃ ex, m k = (Raise ex, k).

Lemma denies_bind {A B} k (m : K A) (f : A → K B) :
  (m k).2 = k → (∀ a, m k = (Ok a, k) → denies k (f a)) → denies k (m ≫= f).
Proof.
  intros Hk Hf. unfold denies. rewrite run_bind.
  destruct (m k) as [[a|ex] k'] eqn:E; simpl in Hk; subst k'; [by apply Hf|by exists ex].
Qed.
Lemma denies_guard {A} k c c' msg (f : () → K A) :
  c = true → denies k (guard_raise c c' msg ≫= f).
Proof. intros ->. by eexists. Qed.
Lemma denies_attempt k body : denies k body → ∃ msg, attempt body k = (Ok (false, msg), k).
Proof.
  intros [ex E]. exists (VStr (exn_msg ex)). unfold attempt, try_catch. rewrite run_bind, E. done.
Qed.

Lemma guard_store c c' msg (k : kernel) : (guard_raise c c' msg k).2 = k.
Proof. by destruct c. Qed.

Ltac denies_step :=
  apply denies_bind;
    [first [reflexivity|apply guard_store|by rewrite run_authorize_device
           |by rewrite run_authorize
           |match goal with |- ((if ?b then _ else _) _).2 = _ => by destruct b end]
    |intros ? ?].

Section Denied.
Variables (emit : string → value → K ()) (d : dict value) (s : string) (k : kernel).
Hypothesis Hsource : dget "source" d = Some (VStr s).
Hypothesis Hun : unprivileged (k_authority k) s = true.

Lemma source_field a : lift (v ← py_index (VDict d) "source"; need_str v) k = (Ok a, k) → a = s.
Proof using Hsource. unfold lift, py_index. rewrite Hsource. simpl. congruence. Qed.
Lemma device_denied device a : _authorize_device s device k = (Ok a, k) → a = false.
Proof using Hun.
  rewrite run_authorize_device, unprivileged_device by done. congruence.
Qed.
Lemma grant_denied a : _authorize s "grant" k = (Ok a, k) → a = false.
Proof using Hun.
  rewrite run_authorize. unfold unprivileged in Hun. intros [= <-].
  destruct (_authorized _ s "grant"); [|done].
  rewrite !andb_true_iff in Hun. by destruct Hun as [[? ?] ?].
Qed.

Lemma install_denied payload identity : denies k (install_body emit (VDict d) payload identity).
Proof using Hsource Hun.
  unfold install_body. do 5 denies_step.
  repeat match goal with
  | H : lift _ k = (Ok ?a, k) |- _ => apply source_field in H; subst a
  | H : _authorize_device s _ k = _ |- _ => apply device_denied in H; subst
  end.
  by apply denies_guard.
Qed.
Lemma uninstall_denied identity : denies k (uninstall_body emit (VDict d) identity).
Proof using Hsource Hun.
  unfold uninstall_body. do 3 denies_step.
  repeat match goal with
  | H : lift _ k = (Ok ?a, k) |- _ => apply source_field in H; subst a
  | H : _authorize_device s _ k = _ |- _ => apply device_denied in H; subst
  end.
  by apply denies_guard.
Qed.
Lemma maintenance_denied payload target : denies k (maintenance_body (VDict d) payload target s).
Proof using Hun.
  unfold maintenance_body. do 5 denies_step.
  match goal with H : _authorize_device s _ k = _ |- _ => apply device_denied in H; subst end.
  by apply denies_guard.
Qed.
Lemma scope_denied grant p dev t : denies k (scope_body emit (VDict d) grant p dev t).
Proof using Hsource Hun.
  unfold scope_body. do 5 denies_step.
  match goal with H : lift (py_index _ _ ≫= _) k = (Ok ?a, k) |- _ =>
    apply source_field in H; subst a end.
  apply denies_bind.
  - case_bool_decide; [|done]. rewrite run_bind, run_authorize. unfold guard_raise. by case_match.
  - intros [] _. denies_step.
    match goal with H : _authorize s "grant" k = _ |- _ => apply grant_denied in H; subst end.
    by apply denies_guard.
Qed.
End Denied.

Lemma unprivileged_view k k' s :
  same_org k k' → unprivileged (k_authority k') s = unprivileged (k_authority k) s.
Proof.
  unfold same_org, org_view, unprivileged, _authorized, scopes_of, position_of, grants_of.
  by intros [= -> -> _ _ _].
Qed.

Section Kernel_denied.
Variables (emit : string → value → K ()) (d : dict value) (s : string) (k : kernel).
Hypothesis Hemit : ∀ s v, quiet v → stable same_org (emit s v).
Hypothesis Hsource : dget "source" d = Some (VStr s).
Hypothesis Hun : unprivileged (k_authority k) s = true.

Lemma emit_ack_org command id ok error :
  command ∉ KERNEL_HANDLED →
  same_org k ((ack ← lift (_ack (VDict d) command id ok error); emit KERNEL_IDENTITY ack) k).2.
Proof using Hemit Hsource.
  intros Hn. rewrite run_bind. unfold lift, _ack, py_index. rewrite Hsource. simpl.
  apply Hemit. by eapply quiet_reply.
Qed.
Lemma denied_ack body command (id : bool * value → value) :
  denies k body → command ∉ KERNEL_HANDLED →
  same_org k ((oe ← attempt body; ack ← lift (_ack (VDict d) command (id oe) oe.1 oe.2);
               emit KERNEL_IDENTITY ack) k).2.
Proof using Hemit Hsource.
  intros Hd Hn. rewrite run_bind. destruct (denies_attempt k body Hd) as [msg ->].
  by apply emit_ack_org.
Qed.

Lemma scope_org grant : same_org k (_scope emit (VDict d) grant k).2.
Proof using All.
  unfold _scope. do 4 (rewrite run_bind; unfold lift;
    match goal with |- same_org _ (match ?r with _ => _ end).2 => destruct r; [|done] end).
  rewrite run_bind.
  match goal with |- context [attempt ?b] =>
    destruct (denies_attempt k b) as [msg ->]; [by eapply scope_denied|] end.
  rewrite run_bind. unfold py_index. rewrite Hsource. apply Hemit.
  eapply quiet_reply; [done|]. unfold KERNEL_HANDLED. destruct grant; set_solver.
Qed.

Lemma on_kernel_denied : same_org k (_on_kernel emit (VDict d) k).2.
Proof using All.
  assert (Hl : ∀ A B (r : res A) (f : A → K B),
            (∀ a, same_org k (f a k).2) → same_org k ((lift r ≫= f) k).2).
  { intros A B r f Hf. rewrite run_bind. unfold lift. destruct r; [apply Hf|done]. }
  unfold _on_kernel. do 2 (apply Hl; intros ?).
  repeat match goal with |- same_org k ((if ?b then _ else _) k).2 => destruct b end.
  - unfold _install. do 2 (apply Hl; intros ?).
    apply (denied_ack _ _ (λ _, _)); [by eapply install_denied|unfold KERNEL_HANDLED; set_solver].
  - unfold _uninstall. do 2 (apply Hl; intros ?).
    apply (denied_ack _ _ (λ _, _)); [by eapply uninstall_denied|unfold KERNEL_HANDLED; set_solver].
  - unfold _maintenance_session. do 2 (apply Hl; intros ?). rewrite run_bind.
    destruct (lift _ k) as [[actor|] k1] eqn:El; [|by injection El as _ <-].
    assert (k1 = k) as -> by (by unfold lift in El; injection El).
    apply (source_field d s k Hsource) in El as ->.
    apply (denied_ack _ _ (λ oe, if oe.1 then _ else _));
      [by apply maintenance_denied|unfold KERNEL_HANDLED; set_solver].
  - apply scope_org.
  - apply scope_org.
  - done.
Qed.
End Kernel_denied.

Lemma unprivileged_process fuel d s k :
  dget "source" d = Some (VStr s) → unprivileged (k_authority k) s = true →
  same_org k (_process_event fuel (VDict d) k).2.
Proof.
  intros Hs Hu. rewrite process_unfold. destruct (validate_event _ _) as [ev|ex] eqn:Ev;
    [|destruct (exn_cls ex); try done; apply same_org_record].
  apply validate_id in Ev as ->. apply same_org_route_event. intros k1 Hk1.
  eapply on_kernel_denied; [apply same_org_emitter|done|].
  by rewrite (unprivileged_view k).
Qed.

(** ** Properties *)

(** C1: a source that is not the kernel, has neither the [install] nor the [grant] right
    and holds no maintain scope cannot change the organisation: whatever event of its is
    handled, valid or not, the members, the grants, the set of registered identities, the
    agents and the directories are those of before. *)
Theorem unprivileged_changes_nothing (d : dict value) (s : string) (k : kernel) :
  dget "source" d = Some (VStr s) →
  unprivileged (k_authority k) s = true →
  org_view (process_event (VDict d) k).2 = org_view k.
Proof. intros Hs Hu. symmetry. exact (unprivileged_process DEPTH d s k Hs Hu). Qed.

Lemma run_test {A} (o : option A) (f : A → bool) :
  match o with Some x => f x | None => false end = true → ∃ x, o = Some x ∧ f x = true.
Proof. destruct o; [eauto|done]. Qed.
Lemma worker_unprivileged :
  ∃ k, kruns (take 1 echo_run) echo_start = Some k ∧
       unprivileged (k_authority k) "worker" = true.
Proof. apply run_test. vm_compute. reflexivity. Qed.

Lemma unprivileged_changes_nothing_witness :
  ∃ k, kruns (take 1 echo_run) echo_start = Some k ∧
       org_view (process_event (VDict
         [("source", VStr "worker"); ("target", VStr "kernel"); ("kind", VStr "system");
          ("payload", VDict [("command", VStr "install_device"); ("identity", VStr "echo");
                             ("grants", VList [VStr "staff"])])]) k).2 = org_view k.
Proof.
  destruct worker_unprivileged as (k & E & Hu). exists k. split; [exact E|].
  apply (unprivileged_changes_nothing _ "worker" k); [reflexivity|exact Hu].
Defined.

(** One level of nesting is all event handling needs: the events a handler emits are
    handled without emitting again, so every larger bound on the nesting gives the same
    result and the same state, and the bound is never what ends a handler. *)
Theorem process_depth_enough (fuel : nat) (event : value) (k : kernel) :
  1 ≤ fuel → _process_event fuel event k = process_event event k.
Proof. intros Hf. destruct fuel; [lia|]. apply process_depth. Qed.

Lemma process_depth_enough_witness :
  _process_event 7 (vset "source" (VStr "kernel") (command "grant_scope" []))
    (AgentOS_init "/rt") =
  process_event (vset "source" (VStr "kernel") (command "grant_scope" [])) (AgentOS_init "/rt").
Proof. apply (process_depth_enough 7). lia. Defined.
