(* ===== verification/AgentOSOps.v ===== *)
(** * What handling an event does

    The functional behaviour of the kernel on one event (delivery to a device with the
    caller's authentication, a rejected event), of removing a device, and runs in which
    the rights of an installer grow. *)

From stdpp Require Import base gmap strings list.
From Stdlib Require Import ZArith.
From S2P Require Import Prelude PyValue EventProtocol Authority Journal Process Dispatcher AgentOS AgentOSInv AgentOSAuthz.

Local Open Scope string_scope.
Local Open Scope nat_scope.

(** ** Recording *)

Definition row_of (k : kernel) (d : dict value) (outcome : string) (reason : value) : row :=
  Row (S (length (j_rows (k_journal k)))) (j_now (k_journal k)) (field d "source")
      (field d "target") (field d "kind") (VDict d) (VStr outcome) reason.
Definition add_row (r : row) (k : kernel) : kernel :=
  set_journal (mkJournal (j_rows (k_journal k) ++ [r])%list (j_now (k_journal k))) k.

Lemma run_record d outcome reason k :
  recordable d = true → bindable reason = true →
  _record (VDict d) outcome reason k = (Ok (), add_row (row_of k d outcome reason) k).
Proof.
  intros Hr Hb. unfold _record. rewrite run_bind. unfold journal_call.
  assert (d ≠ [] ∨ d = []) as [Hd| ->] by (destruct d; auto).
  - by rewrite record_ok.
  - unfold journal_respond. simpl. unfold journal_insert. simpl.
    by rewrite (sqlite_bind_ok "7").
Qed.
Lemma run_record_fail d outcome reason k :
  recordable d = false → ∃ ex, _record (VDict d) outcome reason k = (Raise ex, k).
Proof.
  intros Hr. unfold _record. rewrite run_bind. unfold journal_call.
  assert (d ≠ []) as Hd by (by intros ->).
  destruct (record_fail d outcome reason (k_journal k) Hd Hr) as [ex ->].
  exists ex. by destruct k.
Qed.

Lemma accepted_fields d registry v :
  validate_event (VDict d) (kernel_rules registry) = Ok v →
  v = VDict d ∧ recordable d = true ∧
  ∃ s t, dget "source" d = Some (VStr s) ∧ s ∈ registry ∧
         dget "target" d = Some (VStr t) ∧ t ∈ registry.
Proof.
  intros [-> Hr]%validate_event_rules; [|done]. split; [done|].
  assert (Ha : validate_event (VDict d) (kernel_rules registry) = Ok (VDict d))
    by (by apply validate_event_rules).
  revert Hr. unfold kernel_rules, DEFAULT_RULES. cbn [app]. rewrite !run_rules_cons.
  cbn [rule_validate]. unfold validate_SourceRegistered, validate_TargetRegistered.
  rewrite !(validate_registered_ok _ _ _ (λ x, _)), validate_HasSource_ok, validate_HasTarget_ok.
  intros (_ & (s & Hs & _) & (t & Ht & _) & Hk & _ & (s' & ? & ?) & (t' & ? & ?) & _).
  simplify_eq. split; [|by exists s, t].
  apply validate_KnownKind_ok in Hk. unfold recordable, field.
  destruct Hk as [Hk|Hk]; by rewrite Hs, Ht, Hk.
Qed.

(** ** One event *)

(** A registered process other than the kernel's own. *)
Definition kernel_source (k : kernel) (s : string) : bool :=
  bool_decide (s = KERNEL_IDENTITY) ||
  match dget s (entities k) with Some EKernelDevice => true | _ => false end.

Lemma run_enrich_device d s t h k :
  dget "source" d = Some (VStr s) → dget "target" d = Some (VStr t) →
  t ∉ _agent_ids k → dget t (entities k) = Some (EHandle h) →
  _enrich (VDict d) k =
  (Ok (vset "auth" (if kernel_source k s then EMPTY_AUTH else _auth_context (k_authority k) s)
         (VDict d)), k).
Proof.
  intros Hs Ht Hn Hh. unfold _enrich. rewrite run_bind. unfold lift, py_index. rewrite Ht.
  cbn. rewrite run_bind. cbn. rewrite bool_decide_eq_false_2 by done.
  rewrite run_bind. cbn. rewrite Hh. rewrite run_bind. rewrite Hs. cbn. rewrite run_bind. cbn.
  unfold kernel_source. destruct (_ || _); [done|]. rewrite run_bind, run_auth_context. done.
Qed.

Lemma run_route_device d t h pid p k :
  dget "target" d = Some (VStr t) → dget t (entities k) = Some (EHandle h) →
  h_process h = Some pid → k_procs k !! pid = Some p → pr_alive p = true →
  _route (VDict d) k =
  (Ok (), set_entities (dset t (EHandle h))
            (set_procs (alter (send_to (VDict d)) pid) k)).
Proof.
  intros Ht Hh Hpid Hp Ha. unfold _route. rewrite run_bind. unfold lift, py_index. rewrite Ht.
  cbn. rewrite run_bind. cbn. rewrite Hh. rewrite run_bind.
  destruct (deliver_cases h (VDict d) k) as [(pid' & ? & ->)|[(? & ? & _)|(? & ? & _)]];
    simplify_eq; done.
Qed.

(** ** Properties *)

(** C2: an accepted event for the running process of a device arrives there, once and
    at the end of its inbox, with its [auth] field the position and scopes the Authority
    has for the event's source (empty for the kernel's own), whatever the sender put in
    that field; the routed event is journalled with it, in one row, and the Authority is
    not changed. *)
Theorem device_event_authenticated (d : dict value) (s t : string) (h : handle) (pid : nat)
    (p : procrec) (k : kernel) :
  validate_event (VDict d) (kernel_rules (dkeys (entities k))) = Ok (VDict d) →
  dget "source" d = Some (VStr s) → dget "target" d = Some (VStr t) → t ≠ KERNEL_IDENTITY →
  t ∉ _agent_ids k → dget t (entities k) = Some (EHandle h) →
  h_process h = Some pid → k_procs k !! pid = Some p → pr_alive p = true →
  let auth := if kernel_source k s then EMPTY_AUTH else _auth_context (k_authority k) s in
  let d' := dset "auth" auth d in
  ∃ k', process_event (VDict d) k = (Ok (), k') ∧
        k_procs k' !! pid = Some (ProcRec (pr_proc p) true (pr_inbox p ++ [VDict d'])%list) ∧
        (∀ pid', pid' ≠ pid → k_procs k' !! pid' = k_procs k !! pid') ∧
        j_rows (k_journal k') =
          (j_rows (k_journal k) ++ [row_of k d' "routed" VNone])%list ∧
        k_authority k' = k_authority k.
Proof.
  intros Hv Hs Ht Htk Hn Hh Hpid Hp Ha auth d'.
  pose proof (accepted_fields d _ _ Hv) as (_ & Hrec & _).
  eexists. unfold process_event. rewrite process_unfold, Hv. unfold route_event.
  rewrite run_bind. unfold lift at 1, py_index. rewrite Ht. cbn [mbind res_bind].
  assert (veq_str (VStr t) KERNEL_IDENTITY = false) as -> by (by apply bool_decide_eq_false_2).
  rewrite run_bind, (run_enrich_device d s t h k) by done. fold auth.
  change (vset "auth" auth (VDict d)) with (VDict d').
  assert (Hrec' : recordable d' = true).
  { unfold recordable, field, d' in *. by rewrite !dget_dset_ne by done. }
  rewrite run_bind, run_record by done.
  rewrite (run_route_device d' t h pid p); try done; [|unfold d'; by rewrite dget_dset_ne].
  split_and!; [done| | |done|done].
  - simpl. rewrite list_lookup_alter, decide_True, Hp by done. simpl. unfold send_to. by rewrite Ha.
  - intros pid' Hne. simpl. by rewrite list_lookup_alter_ne.
Qed.

(** The worker sends [echo] an event that claims the root position. *)
Definition forged : dict value :=
  [("source", VStr "worker"); ("target", VStr "echo"); ("kind", VStr "application");
   ("payload", VStr "hello"); ("auth", VDict [("position", VStr "root")])].
Definition accepts (d : dict value) (k : kernel) : bool :=
  negb (raised (validate_event (VDict d) (kernel_rules (dkeys (entities k))))).
Lemma accepts_ok d k :
  accepts d k = true → validate_event (VDict d) (kernel_rules (dkeys (entities k))) = Ok (VDict d).
Proof.
  unfold accepts. destruct (validate_event _ _) as [ev|] eqn:E; [|done].
  by rewrite (validate_id _ _ _ E).
Qed.
Definition forged_test (k : kernel) : bool :=
  accepts forged k && negb (bool_decide ("echo" ∈ _agent_ids k)) && live_in (Some k) "echo" 2
  && negb (kernel_source k "worker").
Lemma forged_ok :
  ∃ k, kruns echo_run echo_start = Some k ∧ forged_test k = true.
Proof. apply run_test. vm_compute. reflexivity. Qed.

Lemma device_event_authenticated_witness :
  ∃ k k' p, kruns echo_run echo_start = Some k ∧
    process_event (VDict forged) k = (Ok (), k') ∧
    k_procs k' !! 2 = Some (ProcRec (pr_proc p) true (pr_inbox p ++
      [VDict (dset "auth" (_auth_context (k_authority k) "worker") forged)])%list).
Proof.
  destruct forged_ok as (k & E & Ht). exists k. unfold forged_test in Ht.
  apply andb_true_iff in Ht as [Ht Hks%negb_true_iff].
  apply andb_true_iff in Ht as [Ht Hl]. apply andb_true_iff in Ht as [Ha Hn].
  apply negb_true_iff, bool_decide_eq_false in Hn.
  apply live_in_inv in Hl as (k0 & h & p & Hk & Hh & Hpid & Hp & Hal).
  injection Hk as <-.
  destruct (device_event_authenticated forged "worker" "echo" h 2 p k (accepts_ok _ _ Ha)
              eq_refl eq_refl ltac:(discriminate) Hn Hh Hpid Hp Hal) as (k' & Hk' & Hp' & _).
  exists k', p. rewrite Hks in Hp'. split; [exact E|]. split; [exact Hk'|exact Hp'].
Defined.

(** C22: a rejected event changes nothing but the journal, and a protocol error on an
    event SQLite can store is the only rejection the kernel survives: it adds one row with
    the reason.  On any other rejected event the handling raises, which ends the kernel's
    event loop. *)
Theorem rejected_event_outcome (d : dict value) (ex : exn) (k : kernel) :
  validate_event (VDict d) (kernel_rules (dkeys (entities k))) = Raise ex →
  if match exn_cls ex with EventError => recordable d | _ => false end
  then process_event (VDict d) k =
       (Ok (), add_row (row_of k d "dropped" (VStr (exn_msg ex))) k)
  else ∃ ex', process_event (VDict d) k = (Raise ex', k).
Proof.
  intros Hv. unfold process_event. rewrite process_unfold, Hv.
  destruct (exn_cls ex); try (by exists ex).
  destruct (recordable d) eqn:Hr; [by apply run_record|by apply run_record_fail].
Qed.

Lemma rejected_event_outcome_witness :
  process_event (VDict [("source", VStr "ghost"); ("target", VStr "kernel")]) (AgentOS_init "/rt") =
  (Ok (), add_row (Row 1 "" (VStr "ghost") (VStr "kernel") VNone
                     (VDict [("source", VStr "ghost"); ("target", VStr "kernel")])
                     (VStr "dropped")
                     (VStr "未知 kind 层级: None（合法: ['application', 'system']）"))
             (AgentOS_init "/rt")).
Proof.
  exact (rejected_event_outcome [("source", VStr "ghost"); ("target", VStr "kernel")]
           (Exn EventError "未知 kind 层级: None（合法: ['application', 'system']）")
           (AgentOS_init "/rt") eq_refl).
Defined.

(** ** Removing a device *)

Lemma elem_device_grants id a p t :
  authority_wf a → (p, t) ∈ device_grants id a ↔ (id, t) ∈ grants_of a p.
Proof.
  intros Hwf. rewrite <-abs_grants_elem by done. unfold device_grants, abs_org, grant_triples.
  simpl. rewrite elem_of_list_to_set. induction (_grants a) as [|[q g] l IH]; simpl; [set_solver|].
  rewrite !elem_of_app, IH, !list_elem_of_fmap. apply or_iff_compat_r. split.
  - intros ([d t'] & [= -> ->] & [Hin%list_elem_of_In Hd%bool_decide_eq_true]%list_elem_of_In%filter_In).
    simpl in Hd. subst. by exists (id, t').
  - intros ([d t'] & [= -> <- <-] & Hin). exists (id, t). split; [done|].
    apply list_elem_of_In, filter_In. rewrite <-list_elem_of_In. simpl.
    by rewrite bool_decide_eq_true_2.
Qed.

Definition regrant_one (id : string) (a : authority) (pt : string * string) : authority :=
  if is_maintain id pt.2 then grant_request pt.1 id pt.2 a else a.
Lemma run_regrants id l k :
  mfor (map grant_value l) (regrant id) k =
  (Ok (), set_authority (foldl (regrant_one id) (k_authority k) l) k).
Proof.
  revert k. induction l as [|[p t] l IH]; intros k; [by destruct k|].
  cbn [map mfor foldl]. rewrite run_bind.
  assert (regrant id (grant_value (p, t)) k =
          (Ok (), set_authority (regrant_one id (k_authority k) (p, t)) k)) as ->.
  { transitivity ((if is_maintain id t then _grant p id t else mret ()) k); [reflexivity|].
    unfold regrant_one. cbn [fst snd]. destruct (is_maintain id t); [|by destruct k].
    unfold _grant. rewrite run_bind. unfold authority_call. by rewrite respond_org_cmd. }
  by rewrite IH.
Qed.
Lemma regrants_identities id l a :
  _identities (foldl (regrant_one id) a l) = _identities a.
Proof.
  revert a. induction l as [|[q u] l IH]; intros a; simpl; [done|]. rewrite IH.
  unfold regrant_one. by destruct (is_maintain id _).
Qed.
Lemma grants_of_regrants id l a p d t :
  (d, t) ∈ grants_of (foldl (regrant_one id) a l) p ↔
  (d, t) ∈ grants_of a p ∨ (d = id ∧ (p, t) ∈ l ∧ is_maintain id t = true).
Proof.
  revert a. induction l as [|[q u] l IH]; intros a; simpl; [set_solver|].
  rewrite IH. unfold regrant_one. simpl. rewrite elem_of_cons, pair_equal_spec.
  destruct (is_maintain id u) eqn:Hm.
  - rewrite grants_of_grant. case_decide as Hq; [subst q|intuition].
    rewrite elem_of_union, elem_of_singleton, pair_equal_spec. intuition; subst; intuition.
  - intuition; subst; congruence.
Qed.

Lemma retire_view id h k r k1 :
  retire id h k = (r, k1) →
  k_authority k1 = k_authority k ∧ entities k1 = dpop id (entities k).
Proof.
  unfold retire. rewrite run_bind. simpl. unfold terminate.
  destruct (h_process h) as [pid|] eqn:E; [|by intros [= _ <-]]. rewrite run_bind.
  match goal with |- context [deliver h ?e ?k] =>
    destruct (deliver_cases h e k) as [(? & _ & ->)|[(? & _ & _ & ->)|(? & _ & _ & ->)]] end;
    by intros [= _ <-].
Qed.

Lemma guard_ok {S} c cls msg (k k' : S) : guard_raise c cls msg k = (Ok (), k') → k' = k.
Proof. destruct c; [done|]. by intros [= <-]. Qed.

Lemma mfor_same_org fuel agents : stable same_org (mfor agents (_inject (emitter fuel))).
Proof.
  apply stable_mfor; [typeclasses eauto|]. intros ag.
  apply same_org_inject. intros. by apply same_org_emitter.
Qed.

(** Removing a device that succeeds takes its identity off the routing table and the
    organisation, and of the grants exactly those on the device that are not its maintain
    scope: every other device's grants stay, and the maintainers keep their right to edit
    and reinstall it. *)
Theorem uninstall_keeps_maintain (event : value) (id : string) (k k' : kernel) :
  authority_wf (k_authority k) →
  uninstall_body (emitter DEPTH) event (VStr id) k = (Ok (), k') →
  id ∉ dkeys (entities k') ∧
  dget id (_identities (k_authority k')) = None ∧
  ∀ p d t, (d, t) ∈ grants_of (k_authority k') p ↔
           (d, t) ∈ grants_of (k_authority k) p ∧ (d = id → is_maintain id t = true).
Proof.
  intros Hwf. unfold uninstall_body. intros H.
  apply run_bind_ok in H as (id' & k0 & Hid & H).
  assert (id' = id ∧ k0 = k) as [-> ->].
  { destruct (is_nonempty_str (VStr id)); [|done]. by injection Hid. }
  apply run_bind_ok in H as (src & k0 & [= Hsrc <-] & H).
  apply run_bind_ok in H as (al & k0 & Hal & H). rewrite run_authorize_device in Hal.
  injection Hal as <- <-. apply run_bind_ok in H as ([] & k0 & Hg & H).
  apply guard_ok in Hg as ->.
  apply run_bind_ok in H as (old & k0 & [= <- <-] & H).
  apply run_bind_ok in H as ([] & k0 & Hold & H).
  destruct (dget id (entities k)) as [[| |h]|]; simplify_eq/=.
  2: { apply run_bind_ok in H as (? & ? & Ha & H). rewrite run_agents in Ha. simplify_eq.
       apply run_bind_ok in H as ([] & k1 & _ & H). by apply run_bind_ok in H as (? & ? & ? & ?). }
  apply run_bind_ok in H as (ags & k1 & Ha & H). rewrite run_agents in Ha. injection Ha as <- <-.
  apply run_bind_ok in H as ([] & k1 & Hg2 & H).
  apply guard_ok in Hg2 as ->.
  apply run_bind_ok in H as ([] & k1 & Hret & H). apply retire_view in Hret as [Hau Hent].
  apply run_bind_ok in H as (rep & k2 & Hrep & H).
  rewrite (run_query _ _ k1 (respond_device_grants id _)) in Hrep. injection Hrep as <- <-.
  apply run_bind_ok in H as ([] & k2 & Hun & H).
  unfold _unregister in Hun. rewrite run_bind in Hun. unfold authority_call in Hun.
  rewrite respond_org_cmd in Hun. injection Hun as <-.
  injection Hold as <-.
  apply run_bind_ok in H as (gs & k2 & Hgs & H). injection Hgs as <- <-.
  apply run_bind_ok in H as ([] & k2 & Hre & H). rewrite run_regrants in Hre.
  injection Hre as <-.
  match type of H with mfor ?l _ ?k3 = _ => pose proof (mfor_same_org DEPTH l k3) as Ho end.
  rewrite H in Ho. clear H. unfold same_org, org_view in Ho. cbn in Ho.
  injection Ho as Hi Hgr Hk _ _. rewrite Hau in *.
  split; [|split].
  - rewrite <-Hk, Hent. by intros [? _]%elem_dkeys_dpop.
  - rewrite <-Hi, regrants_identities. apply dget_dpop_eq.
  - intros p d t.
    assert (grants_of (k_authority k') p =
            grants_of (foldl (regrant_one id) (unregister_request id (k_authority k))
                         (device_grants id (k_authority k))) p) as ->
      by (unfold grants_of; by rewrite <-Hgr).
    rewrite grants_of_regrants, grants_of_unregister, elem_drop_device, elem_device_grants by done.
    destruct (decide (d = id)) as [->|]; intuition.
Qed.

Definition uninstalled (k : kernel) : bool :=
  match uninstall_body (emitter DEPTH) (VDict [("source", VStr "worker")]) (VStr "echo") k with
  | (Ok _, _) => true
  | _ => false
  end.
Lemma worker_uninstalls :
  ∃ k k', kruns echo_run echo_start = Some k ∧
    uninstall_body (emitter DEPTH) (VDict [("source", VStr "worker")]) (VStr "echo") k = (Ok (), k').
Proof.
  destruct (run_test (kruns echo_run echo_start) uninstalled) as (k & E & Ht).
  { vm_compute. reflexivity. }
  exists k. unfold uninstalled in Ht.
  destruct (uninstall_body _ _ _ k) as [[[]|] k']; [|discriminate Ht].
  exists k'. split; [exact E|reflexivity].
Qed.

Lemma uninstall_keeps_maintain_witness :
  ∃ k k', kruns echo_run echo_start = Some k ∧
    uninstall_body (emitter DEPTH) (VDict [("source", VStr "worker")]) (VStr "echo") k = (Ok (), k')
    ∧ "echo" ∉ dkeys (entities k').
Proof.
  destruct worker_uninstalls as (k & k' & E & H). exists k, k'. split; [exact E|]. split; [exact H|].
  apply (uninstall_keeps_maintain (VDict [("source", VStr "worker")]) "echo" k k').
  - apply ki_wf, (kreach_kinv "/rt" echo_agents [] k echo_config_ok), echo_run_reach, E.
  - exact H.
Defined.

(** ** Rights that grow *)

(** An agent of the position [ops] that was granted [org:install] and nothing else. *)
Definition installer_agents : list agent_spec :=
  [AgentSpec "boss" "agent" (Some "root") false; AgentSpec "inst" "agent" (Some "ops") false].
Definition installer_start : list klabel :=
  [KProduce "boss" (command "grant_scope" [("position", VStr "ops"); ("device", VStr "org");
                                           ("token", VStr "install")]);
   KBus].

(** It installs a device named [org] whose default scopes are the organisation's rights. *)
Definition org_device : dict value :=
  [("SCOPES", VList [VDict [("token", VStr "grant"); ("default", VBool true)];
                     VDict [("token", VStr "org"); ("default", VBool true)]])].
Definition org_steps : list klabel :=
  [KDisk "/rt/home/org/device.py" (Ok org_device);
   KProduce "inst" (command "install_device" [("identity", VStr "org");
                                              ("grants", VList [VStr "ops"])]);
   KBus].

(** It installs a device named [system], which addresses the Authority. *)
Definition system_steps : list klabel :=
  [KDisk "/rt/home/system/device.py" (Ok []);
   KProduce "inst" (command "install_device" [("identity", VStr "system");
                                              ("grants", VList [VStr "ops"])]);
   KBus;
   KProduce "system" (VDict [("target", VStr "authority"); ("kind", VStr "application");
     ("payload", VDict (org_payload (CGrant "ops" "org" "grant")))]);
   KProduce "system" (VDict [("target", VStr "authority"); ("kind", VStr "application");
     ("payload", VDict (org_payload (CGrant "ops" "org" "org")))]);
   KBus; KBus; KWorker "authority" 0; KWorker "authority" 0; KReply "authority" 0;
   KWorker "authority" 0;
   KReply "authority" 0].

Definition rights (k : kernel) (id : string) : bool * bool * bool :=
  (_authorized (k_authority k) id "install", _authorized (k_authority k) id "grant",
   _authorized (k_authority k) id "org").

(** The run [ls] followed by [ls'] takes the rights of [id] from [r] to [r']. *)
Definition escalates (ls ls' : list klabel) (id : string) (r r' : bool * bool * bool) : Prop :=
  ∃ k k', kreach "/rt" installer_agents [] k ∧ kruns ls (booted "/rt" installer_agents []) = Some k ∧ rights k id = r ∧
          kruns ls' k = Some k' ∧ rights k' id = r'.
Definition escalates_test (ls ls' : list klabel) (id : string) (r r' : bool * bool * bool)
    (k : kernel) : bool :=
  bool_decide (rights k id = r) &&
  match kruns ls' k with Some k' => bool_decide (rights k' id = r') | None => false end.
Lemma escalates_ok ls ls' id r r' :
  match kruns ls (booted "/rt" installer_agents []) with
  | Some k => escalates_test ls ls' id r r' k
  | None => false
  end = true → escalates ls ls' id r r'.
Proof.
  intros (k & E & Ht)%run_test. unfold escalates_test in Ht.
  apply andb_true_iff in Ht as [Hr%bool_decide_eq_true Ht].
  destruct (kruns ls' k) as [k'|] eqn:E'; [|discriminate Ht]. apply bool_decide_eq_true in Ht.
  exists k, k'. split; [|split_and!; assumption]. eapply kruns_reach; [apply kreach_boot|exact E].
Qed.

(** The right to install is worth every right of the organisation.  From a reachable
    state in which an agent has [install] and neither [grant] nor [org], its own events
    lead to one in which it has all three, in two ways: by installing a device with the
    identity [org], whose declared default scopes are granted to its position although a
    grant on [org] takes the [org] right; or by installing one with the identity [system],
    whose events the Authority takes for the kernel's. *)
Theorem install_right_escalates :
  escalates installer_start org_steps "inst" (true, false, false) (true, true, true) ∧
  escalates installer_start system_steps "inst" (true, false, false) (true, true, true).
Proof. split; apply escalates_ok; vm_compute; reflexivity. Qed.
