(* ===== verification/Agent.v ===== *)
(** * The agent process (agent/agent.py)

    An agent keeps a working memory of messages and a table of entries the Authority
    injects; a task is matched against the triggers of the entries and dispatched to the
    device the entry is associated with. *)

From stdpp Require Import base gmap strings list.
From Stdlib Require Import ZArith QArith.
From S2P Require Import Prelude PyValue EventProtocol Authority.

Local Open Scope string_scope.
Local Open Scope nat_scope.

(** ** Built-in operations *)

(** [x in c] *)
Definition py_contains (c x : value) : res bool :=
  match c, x with
  | VStr s, VStr t => Ok (str_contains t s)
  | VStr _, _ => Raise (Exn TypeError ("'in <string>' requires string as left operand, not "
                                       +:+ type_name x))
  | VList l, _ => Ok (existsb (λ y, py_eq y x) l)
  | VDict d, _ => py_in x (dkeys d)
  | _, _ => Raise (Exn TypeError ("argument of type '" +:+ type_name c +:+ "' is not iterable"))
  end.

(** [s.replace(old, "")]: occurrences from the left, without overlap; [skip] bytes of the
    last one are still to be dropped. *)
Fixpoint remove_from (old : string) (skip : nat) (s : string) : string :=
  match s with
  | EmptyString => EmptyString
  | String c s' =>
      match skip with
      | S n => remove_from old n s'
      | O => if String.prefix old s then remove_from old (String.length old - 1) s'
             else String c (remove_from old 0 s')
      end
  end.
Definition str_remove (old s : string) : string :=
  if nonempty old then remove_from old 0 s else s.

(** ** The agent *)

Record agent := mkAgent {
  ag_position : string;
  ag_messages : list value;
  ag_entries : dict value
}.

(** [Agent.__init__]: empty memory, no entry. *)
Definition Agent_init (position : string) : agent := mkAgent position [] [].

Definition set_entries_of (f : dict value → dict value) (a : agent) : agent :=
  mkAgent (ag_position a) (ag_messages a) (f (ag_entries a)).
Definition add_message (v : value) (a : agent) : agent :=
  mkAgent (ag_position a) (ag_messages a ++ [v])%list (ag_entries a).

Definition FILLERS : list string :=
  ["查询"; "请问"; "今天"; "怎么样"; "现在"; "的"; "呢"; "？"; "?"; " "].

Definition AGENT_RESULT : string := "agent_result".

(** [payload.get(k) or []], to be iterated over *)
Definition items_of (payload : value) (k : string) : res (list value) :=
  v ← py_get payload k; py_list (py_or v (VList [])).

Definition _on_inject (payload : value) : M agent value :=
  evict ← lift (items_of payload "evict");
  mfor evict (λ name, n ← lift (need_str name); modify (set_entries_of (dpop n))) ;;
  entries ← lift (items_of payload "entries");
  mfor entries (λ entry,
    n ← lift (c ← py_index entry "content"; v ← py_index c "name"; need_str v);
    modify (set_entries_of (dset n entry))) ;;
  mret VOID.

Definition _agent_result (requester ok content error : value) : value :=
  mk_reply requester "application"
    (VDict [("command", VStr AGENT_RESULT); ("ok", ok); ("content", content); ("error", error)]).

(** The first trigger of the list that is set and in the content. *)
Fixpoint any_trigger (content : value) (triggers : list value) : res bool :=
  match triggers with
  | [] => Ok false
  | t :: rest =>
      if truthy t
      then b ← py_contains content t; if (b : bool) then Ok true else any_trigger content rest
      else any_trigger content rest
  end.

Fixpoint _match (content : value) (entries : list value) : res (option value) :=
  match entries with
  | [] => Ok None
  | entry :: rest =>
      ts ← items_of entry "trigger";
      b ← any_trigger content ts;
      if (b : bool) then Ok (Some entry) else _match content rest
  end.

Definition py_remove (stripped old : value) : res value :=
  match stripped, old with
  | VStr s, VStr t => Ok (VStr (str_remove t s))
  | VStr _, _ => Raise (Exn TypeError ("replace() argument 1 must be str, not " +:+ type_name old))
  | v, _ => Raise (Exn AttributeError ("'" +:+ type_name v +:+ "' object has no attribute 'replace'"))
  end.
Fixpoint remove_all (stripped : value) (words : list value) : res value :=
  match words with
  | [] => Ok stripped
  | w :: rest => s ← py_remove stripped w; remove_all s rest
  end.

Definition _extract_args (entry content : value) : res value :=
  ts ← items_of entry "trigger";
  s ← remove_all content ts;
  s ← remove_all s (map VStr FILLERS);
  match s with
  | VStr s => let s := strip s in
              Ok (VDict (if nonempty s then [("city", VStr s)] else []))
  | v => Raise (Exn AttributeError ("'" +:+ type_name v +:+ "' object has no attribute 'strip'"))
  end.

(** [l[0]] *)
Definition py_first (v : value) : res value :=
  match v with
  | VList (x :: _) => Ok x
  | VList [] => Raise (Exn IndexError "list index out of range")
  | VStr s => match utf8_chars s with
              | c :: _ => Ok (VStr c)
              | [] => Raise (Exn IndexError "string index out of range")
              end
  | VDict _ => Raise (Exn KeyError "0")
  | _ => Raise (Exn TypeError ("'" +:+ type_name v +:+ "' object is not subscriptable"))
  end.

Definition _on_task (event : value) : M agent value :=
  payload ← lift (py_index event "payload");
  content ← lift (py_get_or payload "content" (VStr ""));
  source ← lift (py_index event "source");
  modify (add_message (VDict [("role", VStr "user"); ("content", content); ("source", source)])) ;;
  entries ← gets (λ a, dvalues (ag_entries a));
  entry ← lift (_match content entries);
  match entry with
  | None => mret (_agent_result source (VBool false) VNone (VStr "没有匹配的工具"))
  | Some entry =>
      arguments ← lift (v ← py_get payload "arguments";
                        if truthy v then Ok v else _extract_args entry content);
      target ← lift (v ← py_index entry "associated"; py_first v);
      name ← lift (c ← py_index entry "content"; py_index c "name");
      mret (mk_reply target "application"
              (VDict [("command", VStr "tool_run"); ("name", name); ("arguments", arguments);
                      ("task", source)]))
  end.

Definition _on_tool_result (event : value) : M agent value :=
  payload ← lift (py_index event "payload");
  task ← lift (py_get payload "task");
  ok ← lift (py_get payload "ok");
  content ← lift (py_get payload "content");
  error ← lift (py_get payload "error");
  mret (_agent_result task ok content error).

Definition agent_respond (event : value) : M agent value :=
  payload ← lift (py_index event "payload");
  command ← lift (py_get payload "command");
  if veq_str command "inject" then _on_inject payload
  else if veq_str command "task" then _on_task event
  else if veq_str command "tool_result" then _on_tool_result event
  else mret VOID.

(** ** Lemmas on the entries *)

Definition evict_all (l : list string) (d : dict value) : dict value :=
  foldl (λ d n, dpop n d) d l.
Definition file_all (new d : dict value) : dict value :=
  foldl (λ d kv, dset kv.1 kv.2 d) d new.

Lemma dget_evict_all l d n : dget n (evict_all l d) = if decide (n ∈ l) then None else dget n d.
Proof.
  revert d. induction l as [|m l IH]; intros d; simpl; [done|]. rewrite IH, dget_dpop.
  repeat case_decide; set_solver.
Qed.
Lemma dget_file_all new d n :
  NoDup (dkeys new) →
  dget n (file_all new d) = match dget n new with Some e => Some e | None => dget n d end.
Proof.
  revert d. induction new as [|[m e] new IH]; intros d; simpl; [done|].
  intros [Hm Hn]%NoDup_cons. rewrite IH by done. rewrite dget_dset.
  case_decide; subst; [|done]. apply dget_None_keys in Hm. by rewrite Hm.
Qed.

Lemma set_entries_of_comp f g a : set_entries_of f (set_entries_of g a) = set_entries_of (λ d, f (g d)) a.
Proof. done. Qed.

Lemma run_evict l a :
  mfor (map VStr l) (λ name, n ← lift (need_str name); modify (set_entries_of (dpop n))) a =
  (Ok (), set_entries_of (evict_all l) a).
Proof.
  revert a. induction l as [|n l IH]; intros a; [by destruct a|].
  cbn [map mfor]. rewrite run_bind. rewrite run_bind. cbn. apply IH.
Qed.

Definition named (new : dict value) : Prop := ∀ n e, (n, e) ∈ new → entry_name e n.

Lemma run_file new a :
  named new →
  mfor (dvalues new) (λ entry,
    n ← lift (c ← py_index entry "content"; v ← py_index c "name"; need_str v);
    modify (set_entries_of (dset n entry))) a = (Ok (), set_entries_of (file_all new) a).
Proof.
  revert a. induction new as [|[n e] new IH]; intros a Hn; [by destruct a|].
  unfold dvalues. cbn [map mfor snd]. rewrite run_bind, run_bind.
  assert (entry_name e n) as (c & Hc & Hv) by (apply Hn; left).
  destruct e as [| | | | | |de]; try done. destruct c as [| | | | | |dc]; try done.
  simpl in Hc, Hv. unfold lift. cbn [py_index]. rewrite Hc. cbn. rewrite Hv. cbn.
  apply IH. intros m e' H. apply Hn. by right.
Qed.

Lemma visible_named a p new : visible_entries a p = Ok new → named new.
Proof.
  intros H n e He. pose proof (visible_entries_nodup a p new H) as Hnd.
  apply (elem_dget n e) in He; [|done]. unfold visible_entries in H.
  apply bind_ok in H as (new1 & H1 & H).
  set (g := match p with Some p => grants_of a p | None => ∅ end) in *.
  apply (entry_ok_name (_identities a) g).
  eapply (skill_entries_sound (_identities a) g); [|done|done].
  eapply tool_entries_sound; [done| |done]. intros ? ? ?. done.
Qed.

Lemma run_inject name new evict a :
  named new →
  agent_respond (inject_event name (dvalues new) evict) a =
  (Ok VOID, set_entries_of (λ d, file_all new (evict_all evict d)) a).
Proof.
  intros Hn. set (payload := VDict [("command", VStr "inject"); ("entries", VList (dvalues new));
                                    ("evict", VList (map VStr evict))]).
  transitivity (_on_inject payload a); [reflexivity|].
  assert (∀ l, py_list (py_or (VList l) (VList [])) = Ok l) as Hl by (by intros []).
  assert (items_of payload "evict" = Ok (map VStr evict)) as He by apply Hl.
  assert (items_of payload "entries" = Ok (dvalues new)) as Hes by apply Hl.
  unfold _on_inject. rewrite run_bind, He. cbn [lift]. rewrite run_bind, run_evict.
  rewrite run_bind, Hes. cbn [lift]. by rewrite run_bind, run_file.
Qed.

(** ** Well-formed agents *)

Definition agent_wf (a : agent) : Prop := NoDup (dkeys (ag_entries a)).

Lemma agent_wf_entries f :
  (∀ d, NoDup (dkeys d) → NoDup (dkeys (f d))) →
  stable (keeps agent_wf) (modify (set_entries_of f)).
Proof. intros Hf. apply stable_modify. intros a Ha. by apply Hf. Qed.

Lemma agent_wf_respond e : stable (keeps agent_wf) (agent_respond e).
Proof.
  assert (∀ n, stable (keeps agent_wf) (modify (set_entries_of (dpop n)))).
  { intros n. apply agent_wf_entries. intros d. apply dkeys_dpop_NoDup. }
  assert (∀ n v, stable (keeps agent_wf) (modify (set_entries_of (dset n v)))).
  { intros n v. apply agent_wf_entries. intros d. apply dkeys_dset_NoDup. }
  assert (∀ v, stable (keeps agent_wf) (modify (add_message v))).
  { intros v. apply stable_modify. by intros a Ha. }
  unfold agent_respond, _on_inject, _on_task, _on_tool_result. stable_tac.
Qed.

(** ** Dispatch *)

Lemma match_inv content l e :
  _match content l = Ok (Some e) →
  e ∈ l ∧ ∃ ts, items_of e "trigger" = Ok ts ∧ any_trigger content ts = Ok true.
Proof.
  induction l as [|x l IH]; simpl; [done|]. intros (ts & Hts & (b & Hb & H)%bind_ok)%bind_ok.
  destruct b.
  - injection H as <-. split; [left|]. by exists ts.
  - destruct (IH H) as [Hin ?]. split; [by right|done].
Qed.

Lemma run_task event payload content source args e t n a :
  py_index event "payload" = Ok payload → py_get_or payload "content" (VStr "") = Ok content →
  py_index event "source" = Ok source →
  _match content (dvalues (ag_entries a)) = Ok (Some e) →
  py_get payload "arguments" = Ok args → truthy args = true →
  (v ← py_index e "associated"; py_first v) = Ok t →
  (c ← py_index e "content"; py_index c "name") = Ok n →
  _on_task event a =
  (Ok (mk_reply t "application"
         (VDict [("command", VStr "tool_run"); ("name", n); ("arguments", args);
                 ("task", source)])),
   add_message (VDict [("role", VStr "user"); ("content", content); ("source", source)]) a).
Proof.
  intros Hp Hc Hs Hm Ha Ht Hd Hn. unfold _on_task.
  rewrite run_bind, Hp. cbn [lift]. rewrite run_bind, Hc. cbn [lift].
  rewrite run_bind, Hs. cbn [lift]. rewrite run_bind. cbn [modify]. rewrite run_bind.
  cbn [gets ag_entries add_message]. rewrite run_bind, Hm. cbn [lift]. rewrite run_bind, Ha.
  cbn [mbind res_bind]. rewrite Ht. cbn [lift]. rewrite run_bind, Hd. cbn [lift].
  by rewrite run_bind, Hn.
Qed.

(** A granted tool of a registered device. *)
Definition granted_tool (a : authority) (p dev n : string) : Prop :=
  ∃ i tool tok, (dev, i) ∈ _identities a ∧ i_agent i = false ∧ (dev, tok) ∈ grants_of a p ∧
                tool ∈ i_tools i ∧ py_index tool "name" = Ok (VStr n).

Lemma matched_granted a p new content n e :
  visible_entries a (Some p) = Ok new → dget n new = Some e →
  (∃ ts, items_of e "trigger" = Ok ts ∧ any_trigger content ts = Ok true) →
  ∃ dev, granted_tool a p dev n ∧
         (v ← py_index e "associated"; py_first v) = Ok (VStr dev) ∧
         (c ← py_index e "content"; py_index c "name") = Ok (VStr n).
Proof.
  intros Hv He (ts & Hts & Hany).
  destruct (visible_entries_sound a p new Hv n e He)
    as [(dev & i & tool & tok & ? & ? & ? & ? & Hn & Hent)
       |(dev & i & sc & tok & _ & _ & _ & _ & Ht & -> & Hp)].
  - exists dev. split; [by exists i, tool, tok|].
    destruct (entry_inv dev tool e Hent) as (n' & Hn' & (c & Hc & Hcn) & Ha & _).
    destruct e as [| | | | | |de]; try done. destruct c as [| | | | | |dc]; try done.
    simpl in Ha, Hc, Hcn. rewrite Hn in Hn'. injection Hn' as <-.
    split; simpl; [by rewrite Ha|rewrite Hc; simpl; by rewrite Hcn].
  - unfold _perm_entry in Hp. apply bind_ok in Hp as (t & _ & (x & _ & [= <-])%bind_ok).
    injection Hts as <-. done.
Qed.

(** ** Properties *)

(** Injection synchronises an agent with the Authority, also one that was restarted:
    if every entry the agent has is among those the Authority last recorded for it, then
    after the agent handled the event the Authority builds, its entries are exactly those
    the Authority has recorded, and its working memory is unchanged. *)
Theorem inject_synchronises (name : string) (au au' : authority) (ev : value) (a : agent) :
  (∀ n, is_Some (dget n (ag_entries a)) →
        is_Some (dget n (default [] (dget name (_injected au))))) →
  _build_inject name au = (Ok ev, au') →
  ∃ a', agent_respond ev a = (Ok VOID, a') ∧ ag_messages a' = ag_messages a ∧
        ∀ n, dget n (ag_entries a') = dget n (default [] (dget name (_injected au'))).
Proof.
  intros Hsub. unfold _build_inject. destruct (dget name (_identities au)) as [i|]; [|done].
  destruct (visible_entries au (i_position i)) as [new|] eqn:Hv; [|done].
  set (evict := List.filter _ _). intros [= <- <-].
  exists (set_entries_of (λ d, file_all new (evict_all evict d)) a).
  split; [|split; [done|]].
  - apply run_inject. by eapply visible_named.
  - intros n. cbn [ag_entries set_entries_of _injected set_injected].
    rewrite dget_dset_eq. cbn [default]. rewrite dget_file_all by (by eapply visible_entries_nodup).
    destruct (dget n new) eqn:En; [done|]. rewrite dget_evict_all. case_decide as Hd; [done|].
    destruct (dget n (ag_entries a)) eqn:Ea; [|done]. exfalso. apply Hd.
    apply list_elem_of_In, filter_In. rewrite <-list_elem_of_In. split.
    + apply dmem_keys. destruct (dmem n _) eqn:Em; [done|]. apply dmem_false in Em.
      destruct (Hsub n) as [? Hx]; [by eexists|]. congruence.
    + apply negb_true_iff. by apply dmem_false.
Qed.

Lemma alice_injected :
  ∃ ev au', _build_inject "alice" example_authority = (Ok ev, au').
Proof.
  destruct (_build_inject "alice" example_authority) as [[ev|ex] au'] eqn:E; [by eexists _, _|].
  exfalso. apply (f_equal fst) in E. vm_compute in E. discriminate E.
Qed.

Lemma inject_synchronises_witness :
  ∃ ev au' a', _build_inject "alice" example_authority = (Ok ev, au') ∧
    agent_respond ev (Agent_init "worker") = (Ok VOID, a') ∧
    ∀ n, dget n (ag_entries a') = dget n (default [] (dget "alice" (_injected au'))).
Proof.
  destruct alice_injected as (ev & au' & E).
  destruct (inject_synchronises "alice" example_authority au' ev (Agent_init "worker"))
    as (a' & Ha & _ & Hs).
  - intros n [x Hx]. discriminate Hx.
  - exact E.
  - exists ev, au', a'. split; [exact E|]. split; [exact Ha|exact Hs].
Defined.

(** An agent works within its grants: when its entries are those of its position, a
    task it answers at all is either reported back to the requester as unmatched or sent
    on to a registered device on which the position holds a grant, under the name of a
    tool that device declares. *)
Theorem task_within_grants (au : authority) (p : string) (new : dict value) (a a' : agent)
    (event payload source r : value) :
  agent_wf a →
  visible_entries au (Some p) = Ok new →
  (∀ n, dget n (ag_entries a) = dget n new) →
  py_index event "payload" = Ok payload → py_get payload "command" = Ok (VStr "task") →
  py_index event "source" = Ok source →
  agent_respond event a = (Ok r, a') →
  r = _agent_result source (VBool false) VNone (VStr "没有匹配的工具") ∨
  ∃ dev n arguments, granted_tool au p dev n ∧
    r = mk_reply (VStr dev) "application"
          (VDict [("command", VStr "tool_run"); ("name", VStr n); ("arguments", arguments);
                  ("task", source)]).
Proof.
  intros Hwf Hv Hsync Hp Hc Hs H. unfold agent_respond in H.
  apply run_bind_ok in H as (pl & a1 & [= Hpl <-] & H).
  apply run_bind_ok in H as (c & a1 & [= Hcc <-] & H).
  rewrite Hp in Hpl. injection Hpl as <-. rewrite Hc in Hcc. injection Hcc as <-.
  cbn -[_on_task] in H. unfold _on_task in H.
  apply run_bind_ok in H as (pl & a1 & [= Hpl <-] & H). rewrite Hp in Hpl. injection Hpl as <-.
  apply run_bind_ok in H as (content & a1 & [= Hct <-] & H).
  apply run_bind_ok in H as (src & a1 & [= Hsrc <-] & H).
  rewrite Hs in Hsrc. injection Hsrc as <-.
  apply run_bind_ok in H as ([] & a1 & [= <-] & H).
  apply run_bind_ok in H as (es & a1 & [= <- <-] & H).
  apply run_bind_ok in H as (oe & a1 & [= Hm <-] & H).
  destruct oe as [e|]; [|left; by injection H].
  right. apply match_inv in Hm as [Hin Htr].
  apply list_elem_of_fmap in Hin as ([n e'] & He & Hin). simpl in He. subst e'.
  apply elem_dget in Hin; [|exact Hwf]. cbn [ag_entries add_message] in Hin. rewrite Hsync in Hin.
  destruct (matched_granted au p new content n e Hv Hin Htr) as (dev & Hg & Ha & Hn).
  apply run_bind_ok in H as (args & a1 & [= _ <-] & H).
  apply run_bind_ok in H as (t & a1 & [= Ht <-] & H). rewrite Ha in Ht. injection Ht as <-.
  apply run_bind_ok in H as (nm & a1 & [= Hnm <-] & H). rewrite Hn in Hnm. injection Hnm as <-.
  exists dev, n, args. split; [done|]. by injection H.
Qed.

Definition echo_entries : dict value :=
  match visible_entries example_authority (Some "worker") with Ok new => new | Raise _ => [] end.
Lemma echo_entries_visible : visible_entries example_authority (Some "worker") = Ok echo_entries.
Proof. vm_compute. reflexivity. Qed.
Definition echo_task : value :=
  VDict [("source", VStr "boss"); ("target", VStr "alice"); ("kind", VStr "application");
         ("payload", VDict [("command", VStr "task"); ("content", VStr "echo 你好")])].
Definition echo_run_event : value :=
  mk_reply (VStr "echo") "application"
    (VDict [("command", VStr "tool_run"); ("name", VStr "echo");
            ("arguments", VDict [("city", VStr "你好")]); ("task", VStr "boss")]).
Lemma echo_task_runs :
  (agent_respond echo_task (mkAgent "worker" [] echo_entries)).1 = Ok echo_run_event.
Proof. vm_compute. reflexivity. Qed.

Lemma task_within_grants_witness :
  ∃ dev n arguments, granted_tool example_authority "worker" dev n ∧
    echo_run_event = mk_reply (VStr dev) "application"
      (VDict [("command", VStr "tool_run"); ("name", VStr n); ("arguments", arguments);
              ("task", VStr "boss")]).
Proof.
  destruct (agent_respond echo_task (mkAgent "worker" [] echo_entries)) as [r a'] eqn:E.
  pose proof echo_task_runs as Hr. rewrite E in Hr. simpl in Hr. subst r.
  destruct (task_within_grants example_authority "worker" echo_entries
              (mkAgent "worker" [] echo_entries) a' echo_task
              (VDict [("command", VStr "task"); ("content", VStr "echo 你好")]) (VStr "boss")
              echo_run_event) as [H|H].
  - exact (visible_entries_nodup _ _ _ echo_entries_visible).
  - exact echo_entries_visible.
  - intros n. reflexivity.
  - reflexivity.
  - reflexivity.
  - reflexivity.
  - exact E.
  - discriminate H.
  - exact H.
Defined.

(** An entry with one trigger, associated with one device. *)
Definition forged_entry (name trigger dev : string) : value :=
  VDict [("content", VDict [("name", VStr name)]); ("trigger", VList [VStr trigger]);
         ("associated", VList [VStr dev])].
Definition forged_inject (source : string) (a : agent) (name trigger dev : string) : value :=
  mk_event source "agent" "application"
    (VDict [("command", VStr "inject");
            ("evict", VList (map VStr (dkeys (ag_entries a))));
            ("entries", VList [forged_entry name trigger dev])]).
Definition task_event (source content : string) : value :=
  mk_event source "agent" "application"
    (VDict [("command", VStr "task"); ("content", VStr content);
            ("arguments", VDict [("x", VNone)])]).

Lemma evict_everything d : evict_all (dkeys d) d = [].
Proof.
  assert (∀ l d, (∀ k, k ∈ dkeys d → k ∈ l) → evict_all l d = []) as H; [|by apply H].
  clear d. induction l as [|m l IH]; intros d Hl; simpl.
  - destruct d as [|[k v] d]; [done|]. exfalso. specialize (Hl k). set_solver.
  - apply IH. intros k Hk. apply elem_dkeys_dpop in Hk as [Hkm Hk]. specialize (Hl k Hk). set_solver.
Qed.
(** An agent does not ask who injects: an injection event of any source replaces all
    entries of the agent, and the next matching task is sent to the device the forged
    entry names, whatever the agent's grants. *)
Theorem inject_from_anyone (s u name trigger dev : string) (a : agent) :
  trigger ≠ "" →
  ∃ a', agent_respond (forged_inject s a name trigger dev) a = (Ok VOID, a') ∧
        ag_entries a' = [(name, forged_entry name trigger dev)] ∧
        (agent_respond (task_event u trigger) a').1 =
        Ok (mk_reply (VStr dev) "application"
              (VDict [("command", VStr "tool_run"); ("name", VStr name);
                      ("arguments", VDict [("x", VNone)]); ("task", VStr u)])).
Proof.
  intros Ht. exists (set_entries_of (λ _, [(name, forged_entry name trigger dev)]) a).
  split; [|split; [done|]].
  - set (payload := VDict [("command", VStr "inject");
                           ("evict", VList (map VStr (dkeys (ag_entries a))));
                           ("entries", VList [forged_entry name trigger dev])]).
    transitivity (_on_inject payload a); [reflexivity|].
    assert (∀ l, py_list (py_or (VList l) (VList [])) = Ok l) as Hl by (by intros []).
    assert (items_of payload "evict" = Ok (map VStr (dkeys (ag_entries a)))) as He by apply Hl.
    unfold _on_inject. rewrite run_bind, He. cbn [lift]. rewrite run_bind, run_evict.
    unfold set_entries_of. rewrite evict_everything. done.
  - transitivity (_on_task (task_event u trigger)
      (set_entries_of (λ _, [(name, forged_entry name trigger dev)]) a)).1; [reflexivity|].
    assert (_match (VStr trigger) [forged_entry name trigger dev] =
            Ok (Some (forged_entry name trigger dev))) as Hm.
    { assert (any_trigger (VStr trigger) [VStr trigger] = Ok true) as Ha.
      { unfold any_trigger. cbn [truthy py_contains]. unfold nonempty.
        rewrite bool_decide_eq_false_2 by done. cbn [negb]. by rewrite str_contains_refl. }
      unfold _match. cbn [items_of]. change (items_of (forged_entry name trigger dev) "trigger")
        with (Ok [VStr trigger] : res (list value)). cbn [mbind res_bind]. by rewrite Ha. }
    by erewrite run_task.
Qed.

Lemma inject_from_anyone_witness :
  ∃ a', agent_respond (forged_inject "echo" (mkAgent "worker" [] echo_entries) "w" "weather" "evil")
          (mkAgent "worker" [] echo_entries) = (Ok VOID, a') ∧
        ag_entries a' = [("w", forged_entry "w" "weather" "evil")].
Proof.
  destruct (inject_from_anyone "echo" "boss" "w" "weather" "evil" (mkAgent "worker" [] echo_entries))
    as (a' & Ha & He & _); [discriminate|].
  exists a'. split; [exact Ha|exact He].
Defined.
