(* ===== verification/Bash.v ===== *)
(** * The bash device (device/bash/device.py)

    A pool of shell jobs.  A request either is refused, joins the queue of its source or
    starts a job; the answer of a started job is its result, when it ends within the
    request's window, or a notice that it goes on in the background.  Jobs of one source
    run one after another.

    Job objects live in a store and are shared by the pool, the queues, the retained
    completed jobs and the tasks that drive and watch them; a number refers to one.  The
    coroutines are steps: what runs between two awaits is one step, the operating system
    (a subprocess starts or fails to, writes, exits) and the clock are in the labels. *)

From stdpp Require Import base gmap strings list pretty.
From Stdlib Require Import ZArith QArith Lqa Ascii.
From S2P Require Import Prelude PyValue EventProtocol.

Local Open Scope string_scope.
Local Open Scope nat_scope.

Definition RESULT_PREVIEW : nat := 65536.
Definition STATUS_CHUNK : nat := 65536.

(** [l[-n:]] for a number: everything when [n] is zero, all but a prefix when negative. *)
Definition last_n {A} (n : Z) (l : list A) : list A :=
  if (0 <? n)%Z then drop (length l - Z.to_nat n) l else drop (Z.to_nat (- n)) l.

(** ** Floats

    A payload may carry the infinities and NaN, which [VFloat] has not (JSON's [NaN] and
    [Infinity] are read as them).  Comparisons and sums are those of IEEE 754, without the
    rounding. *)

Inductive pyfloat := Fin (q : Q) | PInf | NInf | NaN.
Definition flt (x y : pyfloat) : bool :=
  match x, y with
  | Fin p, Fin q => negb (Qle_bool q p)
  | NInf, Fin _ | NInf, PInf | Fin _, PInf => true
  | _, _ => false
  end.
Definition fle (x y : pyfloat) : bool :=
  match x, y with
  | Fin p, Fin q => Qle_bool p q
  | NInf, Fin _ | NInf, PInf | NInf, NInf | Fin _, PInf | PInf, PInf => true
  | _, _ => false
  end.
Definition fadd (x y : pyfloat) : pyfloat :=
  match x, y with
  | Fin p, Fin q => Fin (p + q)
  | NaN, _ | _, NaN | PInf, NInf | NInf, PInf => NaN
  | PInf, _ | _, PInf => PInf
  | NInf, _ | _, NInf => NInf
  end.
Definition fsub (x y : pyfloat) : pyfloat :=
  fadd x (match y with Fin q => Fin (- q) | PInf => NInf | NInf => PInf | NaN => NaN end).

(** The number [payload.get(k, dflt)], if it is one: [nf] has the fields of the payload whose
    value is not finite. *)
Definition number_field (nf : dict pyfloat) (payload : value) (k : string) (dflt : value) :
    res (option pyfloat) :=
  match dget k nf with
  | Some x => Ok (Some x)
  | None => v ← py_get_or payload k dflt; Ok (Fin <$> as_number v)
  end.

(** ** Jobs *)

Inductive jstate := JQueued | JRunning | JDone | JKilled | JExpired.
#[global] Instance jstate_eq_dec : EqDecision jstate.
Proof. solve_decision. Defined.
Definition state_name (s : jstate) : string :=
  match s with
  | JQueued => "queued" | JRunning => "running" | JDone => "done"
  | JKilled => "killed" | JExpired => "expired"
  end.

(** The subprocess: its return code once it exited, whether its group was killed. *)
Record subproc := Subproc { sp_returncode : option Z; sp_killed : bool }.

Record job := Job {
  job_id : string;
  j_source : string;
  j_tool_call_id : value;
  j_cmd : string;
  j_cwd : value;
  created_at : Q;
  deadline_at : pyfloat;
  j_timeout : pyfloat;
  j_proc : option subproc;
  j_buffer : list ascii;
  j_trimmed : Z;
  j_state : jstate
}.

Definition Job_init (id source : string) (tool_call_id : value) (cmd : string) (cwd : value)
    (now : Q) (deadline timeout : pyfloat) : job :=
  Job id source tool_call_id cmd cwd now deadline timeout None [] 0 JRunning.

Definition set_state (s : jstate) (j : job) : job :=
  Job (job_id j) (j_source j) (j_tool_call_id j) (j_cmd j) (j_cwd j) (created_at j)
      (deadline_at j) (j_timeout j) (j_proc j) (j_buffer j) (j_trimmed j) s.
Definition set_proc (p : option subproc) (j : job) : job :=
  Job (job_id j) (j_source j) (j_tool_call_id j) (j_cmd j) (j_cwd j) (created_at j)
      (deadline_at j) (j_timeout j) p (j_buffer j) (j_trimmed j) (j_state j).
Definition set_deadline (q : pyfloat) (j : job) : job :=
  Job (job_id j) (j_source j) (j_tool_call_id j) (j_cmd j) (j_cwd j) (created_at j)
      q (j_timeout j) (j_proc j) (j_buffer j) (j_trimmed j) (j_state j).
Definition set_output (b : list ascii) (t : Z) (j : job) : job :=
  Job (job_id j) (j_source j) (j_tool_call_id j) (j_cmd j) (j_cwd j) (created_at j)
      (deadline_at j) (j_timeout j) (j_proc j) b t (j_state j).

(** [os.killpg(job.proc.pid, SIGKILL)] *)
Definition kill_group (j : job) : job :=
  set_proc (match j_proc j with
            | Some p => Some (Subproc (sp_returncode p) true)
            | None => None
            end) j.

Definition alive (j : job) : bool :=
  match j_proc j with
  | Some p => match sp_returncode p with None => true | Some _ => false end
  | None => false
  end.

(** [_append]: the buffer keeps at most [output_cap] bytes. *)
Definition _append (cap : Z) (chunk : list ascii) (j : job) : job :=
  let buffer := (j_buffer j ++ chunk)%list in
  let n := Z.of_nat (length buffer) in
  if (cap <? n)%Z then set_output (last_n cap buffer) (j_trimmed j + (n - cap)) j
  else set_output buffer (j_trimmed j) j.

(** ** The device *)

(** A drive task: the window of the request that started it ([None]: it was queued), open
    or answered, and what it waits for. *)
Inductive phase :=
| PStart        (* the subprocess is being created *)
| PDied         (* the creation raised what [_drive] does not catch: the task is over *)
| PRead         (* [_drain] reads, within the window *)
| PWait         (* [_drain] waits for the exit, within the window *)
| PReadBg       (* [_drain] reads, in the background *)
| PWaitBg.
Record drive := Drive { dr_job : nat; dr_window : option bool; dr_phase : phase }.

(** What leaves the device. *)
Inductive out :=
| OReply (v : value)                 (* the answer to a request *)
| OResult (i : nat) (v : value)      (* the bash_result of a job *)
| OBackgrounded (i : nat) (v : value).

Record bash := mkBash {
  b_max_jobs : Z;
  b_default_timeout : Q;
  b_default_deadline : Q;
  b_max_deadline : Q;
  b_output_cap : Z;
  b_completed_cap : nat;
  b_default_cwd : value;
  b_store : list job;
  b_jobs : list nat;
  b_completed : list nat;
  b_pending : dict (list nat);
  b_busy : list string;
  b_drives : list drive;
  b_watches : list nat;
  b_out : list out
}.

Definition BashDevice_init (max_jobs : Z) (timeout deadline max_deadline : Q) (output_cap : Z)
    (completed_cap : nat) (cwd : value) : res bash :=
  if negb (Qle_bool deadline timeout) && Qle_bool deadline max_deadline
  then Ok (mkBash max_jobs timeout deadline max_deadline output_cap completed_cap cwd
             [] [] [] [] [] [] [] [])
  else Raise (Exn ValueError "构造不变量失败: 需 timeout < deadline ≤ max_deadline").

Definition upd (store : list job → list job) (jobs completed : list nat → list nat)
    (pending : dict (list nat) → dict (list nat)) (busy : list string → list string)
    (drives : list drive → list drive) (watches : list nat → list nat)
    (o : list out) (b : bash) : bash :=
  mkBash (b_max_jobs b) (b_default_timeout b) (b_default_deadline b) (b_max_deadline b)
    (b_output_cap b) (b_completed_cap b) (b_default_cwd b) (store (b_store b)) (jobs (b_jobs b))
    (completed (b_completed b)) (pending (b_pending b)) (busy (b_busy b)) (drives (b_drives b))
    (watches (b_watches b)) (b_out b ++ o)%list.

Definition on_job (i : nat) (f : job → job) : bash → bash :=
  upd (alter f i) id id id id id id [].
Definition say (o : out) : bash → bash := upd id id id id id id id [o].

Abbreviation B := (M bash).

(** *** Events *)

Definition opt_int (o : option Z) : value := match o with Some z => VInt z | None => VNone end.

Definition _result (now : Q) (j : job) (error : value) : value :=
  let rc := match j_proc j with Some p => sp_returncode p | None => None end in
  mk_reply (VStr (j_source j)) "application" (VDict [
    ("command", VStr "bash_result");
    ("ok", VBool (bool_decide (j_state j = JDone) && bool_decide (rc = Some 0%Z)));
    ("job_id", VStr (job_id j));
    ("content", VStr (decode (last_n (Z.of_nat RESULT_PREVIEW) (j_buffer j))));
    ("exit_code", opt_int rc);
    ("expired", VBool (bool_decide (j_state j = JExpired)));
    ("killed", VBool (bool_decide (j_state j = JKilled)));
    ("truncated", VBool (Z.of_nat RESULT_PREVIEW <? j_trimmed j + Z.of_nat (length (j_buffer j)))%Z);
    ("duration", VFloat (now - created_at j));
    ("error", error);
    ("tool_call_id", j_tool_call_id j)]).

Definition _backgrounded (j : job) : value :=
  mk_reply (VStr (j_source j)) "application" (VDict [
    ("command", VStr "bash_backgrounded"); ("job_id", VStr (job_id j));
    ("tool_call_id", j_tool_call_id j)]).

(** [max(0.0, x)]; an infinite deadline would take an infinite [max_deadline]. *)
Definition max0 (x : pyfloat) : Q :=
  match x with Fin q => if Qle_bool q 0 then 0%Q else q | _ => 0%Q end.

Definition _status_result (now : Q) (j : job) (output : list ascii) (offset : Z)
    (reset truncated : bool) : value :=
  mk_reply (VStr (j_source j)) "application" (VDict [
    ("command", VStr "bash_status_result"); ("job_id", VStr (job_id j));
    ("state", VStr (state_name (j_state j))); ("output", VStr (decode output));
    ("offset", VInt offset); ("reset", VBool reset); ("truncated", VBool truncated);
    ("duration", VFloat (now - created_at j));
    ("deadline_left", VFloat (max0 (fsub (deadline_at j) (Fin now))));
    ("tool_call_id", j_tool_call_id j)]).

Definition _error (event : value) (message : string) : res value :=
  source ← py_index event "source";
  payload ← py_index event "payload";
  job_id ← py_get payload "job_id";
  command ← py_get payload "command";
  tool_call_id ← py_get payload "tool_call_id";
  Ok (mk_reply source "application" (VDict [
    ("command", VStr "bash_error"); ("job_id", job_id); ("request", command);
    ("error", VStr message); ("tool_call_id", tool_call_id)])).

(** *** The life of a job *)

Definition queue_of (s : string) (b : bash) : list nat := default [] (dget s (b_pending b)).

(** [deque(maxlen=n).append] *)
Definition push_bounded (n : nat) (i : nat) (l : list nat) : list nat :=
  last_n (Z.of_nat n) (l ++ [i])%list.

Definition _finish (i : nat) (b : bash) : bash :=
  upd id (List.filter (λ k, negb (k =? i)))
      (λ l, match b_completed_cap b with O => [] | S n => push_bounded (S n) i l end)
      id id id id [] b.

Definition _wake_source (source : string) (b : bash) : bash :=
  match queue_of source b with
  | [] => upd id id id id (List.filter (λ s, negb (bool_decide (s = source)))) id id [] b
  | i :: rest =>
      upd (alter (set_state JRunning) i) (λ l, l ++ [i])%list id (dset source rest) id
          (λ l, l ++ [Drive i None PStart])%list id [] b
  end.

(** The task of a job goes on, or ends. *)
Definition goto (i : nat) (w : option bool) (p : phase) : bash → bash :=
  upd id id id id id (map (λ d, if dr_job d =? i then Drive i w p else d)) id [].
Definition end_drive (i : nat) : bash → bash :=
  upd id id id id id (List.filter (λ d, negb (dr_job d =? i))) id [].

Definition job_of (b : bash) (i : nat) : option job := b_store b !! i.
Definition drive_of (b : bash) (i : nat) : option drive :=
  List.find (λ d, dr_job d =? i) (b_drives b).

(** *** Requests

    A handler returns the answer, or nothing when the answer comes through the window of
    the job it started. *)

Definition _find_owned (event : value) : B (option nat) := λ b,
  (payload ← py_index event "payload";
   id ← py_get payload "job_id";
   _ ← py_in id [];
   source ← py_index event "source";
   let named i := match job_of b i with
                  | Some j => veq_str id (job_id j)
                  | None => false
                  end in
   let found := match List.find named (b_jobs b) with
                | Some i => Some i
                | None => List.find named (b_completed b)
                end in
   Ok (match found with
       | Some i => match job_of b i with
                   | Some j => if veq_str source (j_source j) then Some i else None
                   | None => None
                   end
       | None => None
       end), b).

Definition refuse (event : value) (message : string) : B (option value) :=
  v ← lift (_error event message); mret (Some v).

(** A new job joins the queue of its source, or the pool; its watch starts. *)
Definition enqueue_job (j : job) (b : bash) : bash :=
  let i := length (b_store b) in
  upd (λ l, l ++ [set_state JQueued j])%list id id
      (λ d, dset (j_source j) (default [] (dget (j_source j) d) ++ [i])%list d) id id
      (λ l, l ++ [i])%list [] b.
Definition start_job (j : job) (b : bash) : bash :=
  let i := length (b_store b) in
  upd (λ l, l ++ [j])%list (λ l, l ++ [i])%list id id (λ l, l ++ [j_source j])%list
      (λ l, l ++ [Drive i (Some false) PStart])%list (λ l, l ++ [i])%list [] b.

Definition _on_run (now : Q) (event : value) (nf : dict pyfloat) : B (option value) :=
  payload ← lift (py_index event "payload");
  b ← gets id;
  if (b_max_jobs b <=? Z.of_nat (length (b_jobs b)))%Z
  then refuse event ("运行中 job 达上限 " +:+ pretty (b_max_jobs b)) else
  cmd ← lift (py_get payload "cmd");
  match cmd with
  | VStr cmd =>
      if negb (nonempty (strip cmd))
      then refuse event "缺 cmd" else
      timeout ← lift (number_field nf payload "timeout" (VFloat (b_default_timeout b)));
      deadline ← lift (number_field nf payload "deadline" (VFloat (b_default_deadline b)));
      match timeout, deadline with
      | Some timeout, Some deadline =>
          if flt (Fin (b_max_deadline b)) deadline
          then refuse event ("deadline 超过设备上限 " +:+ repr (VFloat (b_max_deadline b))) else
          if negb (fle (Fin 0) timeout && fle timeout deadline)
          then refuse event "需满足 0 ≤ timeout ≤ deadline" else
          source ← lift (v ← py_index event "source";
                         match v with VStr s => Ok s | _ => Raise (Exn TypeError "source") end);
          tool_call_id ← lift (py_get payload "tool_call_id");
          cwd ← lift (py_get payload "cwd");
          let i := length (b_store b) in
          let job := Job_init ("j" +:+ pretty i) source tool_call_id cmd
                       (if truthy cwd then cwd else b_default_cwd b) now (fadd (Fin now) deadline) timeout in
          if bool_decide (source ∈ b_busy b)
          then modify (enqueue_job job) ;; mret (Some VOID)
          else modify (start_job job) ;; mret None
      | _, _ => refuse event "timeout/deadline 必须为数值"
      end
  | _ => refuse event "缺 cmd"
  end.

(** The owned job of a control request, which must be running. *)
Definition with_running (event : value) (f : nat → job → B (option value)) : B (option value) :=
  o ← _find_owned event;
  match o with
  | None => refuse event "未知 job 或无权访问"
  | Some i =>
      oj ← gets (λ b, job_of b i);
      match oj with
      | None => refuse event "未知 job 或无权访问"
      | Some j =>
          if bool_decide (j_state j = JRunning) then f i j
          else refuse event ("job 已终态: " +:+ state_name (j_state j))
      end
  end.

Definition _on_kill (event : value) : B (option value) :=
  with_running event (λ i j,
    modify (on_job i (set_state JKilled)) ;;
    match j_proc j with
    | None => raise AttributeError "'NoneType' object has no attribute 'pid'"
    | Some _ => modify (on_job i kill_group) ;; mret (Some VOID)
    end).

Definition _on_extend (event : value) (nf : dict pyfloat) : B (option value) :=
  with_running event (λ i j,
    payload ← lift (py_index event "payload");
    extra ← lift (number_field nf payload "seconds" VNone);
    b ← gets id;
    match extra with
    | Some extra =>
        if fle extra (Fin 0) then refuse event "seconds 必须为正数"
        else if flt (Fin (b_max_deadline b)) (fsub (fadd (deadline_at j) extra) (Fin (created_at j)))
        then refuse event ("延长后超过设备上限 " +:+ repr (VFloat (b_max_deadline b)))
        else modify (on_job i (set_deadline (fadd (deadline_at j) extra))) ;; mret (Some VOID)
    | None => refuse event "seconds 必须为正数"
    end).

(** [isinstance(v, int)]: a boolean is one. *)
Definition as_int (v : value) : option Z :=
  match v with VInt z => Some z | VBool b => Some (if b then 1 else 0)%Z | _ => None end.

(** What [_on_status] answers on a job: the bytes, the next offset, reset, truncated. *)
Definition read_from (offset : value) (j : job) : list ascii * Z * bool * bool :=
  let total := (j_trimmed j + Z.of_nat (length (j_buffer j)))%Z in
  match as_int offset with
  | Some o =>
      if (o <? j_trimmed j)%Z || (total <? o)%Z then ([], j_trimmed j, true, false)
      else let chunk := take STATUS_CHUNK (drop (Z.to_nat (o - j_trimmed j)) (j_buffer j)) in
           let new_offset := (o + Z.of_nat (length chunk))%Z in
           (chunk, new_offset, false, (new_offset <? total)%Z)
  | None => ([], j_trimmed j, true, false)
  end.

Definition _on_status (now : Q) (event : value) : B (option value) :=
  o ← _find_owned event;
  match o with
  | None => refuse event "未知 job 或无权访问"
  | Some i =>
      oj ← gets (λ b, job_of b i);
      match oj with
      | None => refuse event "未知 job 或无权访问"
      | Some j =>
          payload ← lift (py_index event "payload");
          offset ← lift (py_get_or payload "offset" (VInt 0));
          let '(chunk, next, reset, truncated) := read_from offset j in
          mret (Some (_status_result now j chunk next reset truncated))
      end
  end.

Definition bash_respond (now : Q) (event : value) (nf : dict pyfloat) : B (option value) :=
  payload ← lift (py_index event "payload");
  command ← lift (py_get payload "command");
  _ ← lift (py_in command []);
  if veq_str command "bash_run" then _on_run now event nf
  else if veq_str command "bash_status" then _on_status now event
  else if veq_str command "bash_kill" then _on_kill event
  else if veq_str command "bash_extend" then _on_extend event nf
  else refuse event ("未知命令: " +:+ repr command).

(** *** Steps *)

(** The creation of a subprocess fails: an [OSError], or what [_drive] does not catch there
    ([ValueError] of a null character in the command, [TypeError] of a [cwd] that is no path). *)
Inductive spawn_error := SpawnOSError (msg : string) | SpawnUncaught.

Inductive blabel :=
| BEvent (now : Q) (event : value) (nf : dict pyfloat)   (* a request arrives *)
| BSpawn (i : nat) (now : Q) (error : option spawn_error)   (* the subprocess starts, or fails to *)
| BRead (i : nat) (chunk : list ascii)       (* a chunk of output *)
| BEof (i : nat)                             (* the end of the output *)
| BExit (i : nat) (returncode : Z)           (* the subprocess exits *)
| BWaited (i : nat) (now : Q)                (* [proc.wait()] returns *)
| BTimeout (i : nat)                         (* the window closes *)
| BFail (i : nat) (now : Q) (msg : string)   (* an unexpected exception in the drive *)
| BWatch (i : nat) (now : Q).                (* the deadline watch wakes up *)

(** The job ends: out of the pool, its result out, the next of its source in. *)
Definition conclude (i : nat) (now : Q) (error : value) (b : bash) : bash :=
  match job_of b i with
  | Some j => end_drive i (_wake_source (j_source j) (say (OResult i (_result now j error)) (_finish i b)))
  | None => b
  end.

(** [_deliver] of the notice: through the window if it is open, else by [emit]. *)
Definition background (i : nat) (w : option bool) (b : bash) : bash :=
  match job_of b i with
  | Some j => goto i (match w with Some _ => Some true | None => None end) PReadBg
                (say (OBackgrounded i (_backgrounded j)) b)
  | None => b
  end.

(** [except OSError] and the start of the drive.  Any other exception ends the task and nothing
    else: the job keeps its place in the pool and its source stays busy. *)
Definition spawned (i : nat) (now : Q) (error : option spawn_error) (w : option bool) (b : bash) : bash :=
  match error with
  | Some (SpawnOSError msg) => conclude i now (VStr msg) b
  | Some SpawnUncaught => goto i w PDied b
  | None =>
      let b := on_job i (set_proc (Some (Subproc None false))) b in
      match job_of b i with
      | Some j => if flt (Fin 0) (j_timeout j) then goto i w PRead b else background i w b
      | None => b
      end
  end.

Definition mark_done (j : job) : job :=
  if bool_decide (j_state j = JRunning) then set_state JDone j else j.

(** [_deadline_watch] at the time [now]; [None]: it sleeps on. *)
Definition _deadline_watch (i : nat) (now : Q) (b : bash) : option bash :=
  match job_of b i with
  | None => None
  | Some j =>
      if negb (fle (fsub (deadline_at j) (Fin now)) (Fin 0)) then None else
      let b := upd id id id id id id (List.filter (λ k, negb (k =? i))) [] b in
      Some (if bool_decide (j_state j = JRunning) && alive j
            then on_job i (λ j, kill_group (set_state JExpired j)) b
            else if bool_decide (j_state j = JQueued)
            then let j' := set_state JExpired j in
                 say (OResult i (_result now j' VNone))
                   (on_job i (set_state JExpired)
                      (upd id id id (λ d, dset (j_source j)
                                            (List.filter (λ k, negb (k =? i)) (default [] (dget (j_source j) d))) d)
                           id id id [] b))
            else b)
  end.

Definition bstep (l : blabel) (b : bash) : option bash :=
  match l with
  | BEvent now event nf =>
      match bash_respond now event nf b with
      | (Ok (Some v), b') => Some (if veq_str v "VOID" then b' else say (OReply v) b')
      | (_, b') => Some b'
      end
  | BSpawn i now error =>
      match drive_of b i with
      | Some (Drive _ w PStart) => Some (spawned i now error w b)
      | _ => None
      end
  | BRead i chunk =>
      match drive_of b i with
      | Some (Drive _ _ PRead) | Some (Drive _ _ PReadBg) =>
          Some (on_job i (_append (b_output_cap b) chunk) b)
      | _ => None
      end
  | BEof i =>
      match drive_of b i with
      | Some (Drive _ w PRead) => Some (goto i w PWait (on_job i mark_done b))
      | Some (Drive _ w PReadBg) => Some (goto i w PWaitBg (on_job i mark_done b))
      | _ => None
      end
  | BExit i rc =>
      match job_of b i with
      | Some j => if alive j
                  then Some (on_job i (λ j, set_proc (match j_proc j with
                                                      | Some p => Some (Subproc (Some rc) (sp_killed p))
                                                      | None => None end) j) b)
                  else None
      | None => None
      end
  | BWaited i now =>
      match drive_of b i, job_of b i with
      | Some (Drive _ _ PWait), Some j | Some (Drive _ _ PWaitBg), Some j =>
          if alive j then None else Some (conclude i now VNone b)
      | _, _ => None
      end
  | BTimeout i =>
      match drive_of b i with
      | Some (Drive _ w PRead) | Some (Drive _ w PWait) => Some (background i w b)
      | _ => None
      end
  | BFail i now msg =>
      match drive_of b i, job_of b i with
      | Some (Drive _ _ PStart), _ | Some (Drive _ _ PDied), _ | None, _ | _, None => None
      | Some _, Some j =>
          Some (let b := conclude i now (VStr msg) b in
                if alive j then on_job i kill_group b else b)
      end
  | BWatch i now =>
      if existsb (λ k, k =? i) (b_watches b) then _deadline_watch i now b else None
  end.

Inductive breach (b0 : bash) : bash → Prop :=
| breach_init : breach b0 b0
| breach_step l b b' : breach b0 b → bstep l b = Some b' → breach b0 b'.
