(* ===== verification/BashInv.v ===== *)
(** * The job pool of the bash device

    The invariant of the device over every interleaving of requests, subprocess events and
    clock readings: the pool is bounded, a source has at most one job in it, a job sends
    its result once; and what a job keeps of its deadline and its output. *)

From stdpp Require Import base gmap strings list pretty.
From Stdlib Require Import ZArith QArith Lqa Ascii.
From S2P Require Import Prelude PyValue EventProtocol Bash.

Local Open Scope string_scope.
Local Open Scope nat_scope.

(** ** The invariant *)

Definition is_result (i : nat) (o : out) : bool :=
  match o with OResult k _ => k =? i | _ => false end.
Definition n_results (i : nat) (b : bash) : nat := length (List.filter (is_result i) (b_out b)).

Definition queued (b : bash) (i : nat) : Prop :=
  ∃ j, b_store b !! i = Some j ∧ j_state j = JQueued.
(** In the pool or waiting for its turn. *)
Definition active (b : bash) (i : nat) : Prop := i ∈ b_jobs b ∨ queued b i.

Record binv (b : bash) : Prop := {
  bi_nodup : NoDup (b_jobs b);
  bi_drives : map dr_job (b_drives b) = b_jobs b;
  bi_jobs : ∀ i, i ∈ b_jobs b →
    ∃ j, b_store b !! i = Some j ∧ j_state j ≠ JQueued ∧ j_source j ∈ b_busy b;
  bi_serial : ∀ i i' j j', i ∈ b_jobs b → i' ∈ b_jobs b → b_store b !! i = Some j →
    b_store b !! i' = Some j' → j_source j = j_source j' → i = i';
  bi_pending : ∀ s i, i ∈ queue_of s b →
    ∃ j, b_store b !! i = Some j ∧ j_state j = JQueued ∧ j_source j = s ∧ j_proc j = None;
  bi_pending_nodup : ∀ s, NoDup (queue_of s b);
  bi_pending_busy : ∀ s, queue_of s b ≠ [] → s ∈ b_busy b;
  bi_queued : ∀ i j, b_store b !! i = Some j → j_state j = JQueued →
    i ∈ queue_of (j_source j) b;
  bi_max : (Z.of_nat (length (b_jobs b)) <= Z.max 0 (b_max_jobs b))%Z;
  bi_results : ∀ i, active b i → n_results i b = 0;
  bi_ended : ∀ i, i < length (b_store b) → ¬ active b i → n_results i b = 1;
  bi_unborn : ∀ i, length (b_store b) ≤ i → n_results i b = 0
}.

(** ** Steps on one job *)

Definition benign (f : job → job) (j : job) : Prop :=
  j_source (f j) = j_source j ∧ (j_state (f j) = JQueued ↔ j_state j = JQueued) ∧
  (j_state j = JQueued → j_proc (f j) = j_proc j).

Lemma lookup_on_job i f b k :
  b_store (on_job i f b) !! k = if decide (k = i) then f <$> (b_store b !! k) else b_store b !! k.
Proof.
  simpl. case_decide; subst; [by rewrite list_lookup_alter_eq|by rewrite list_lookup_alter_ne].
Qed.
Lemma length_on_job i f b : length (b_store (on_job i f b)) = length (b_store b).
Proof. apply length_alter. Qed.
Lemma n_results_same b b' i : b_out b' = b_out b → n_results i b' = n_results i b.
Proof. unfold n_results. by intros ->. Qed.

Lemma queued_on_job i f b k j :
  b_store b !! i = Some j → benign f j → queued (on_job i f b) k ↔ queued b k.
Proof.
  intros Hj (Hs & Hq & _). unfold queued. rewrite lookup_on_job. case_decide; [subst k|done].
  rewrite Hj. simpl. naive_solver.
Qed.
Lemma active_on_job i f b k j :
  b_store b !! i = Some j → benign f j → active (on_job i f b) k ↔ active b k.
Proof. intros Hj Hf. unfold active. by rewrite (queued_on_job i f b k j). Qed.

Lemma binv_on_job i f b j :
  binv b → b_store b !! i = Some j → benign f j → binv (on_job i f b).
Proof.
  intros Hb Hj Hf. pose proof (λ k, active_on_job i f b k j Hj Hf) as Hact.
  destruct Hf as (Hs & Hq & Hp).
  assert (Hinv : ∀ k jk, b_store (on_job i f b) !! k = Some jk →
            ∃ jk0, b_store b !! k = Some jk0 ∧ j_source jk = j_source jk0 ∧
                   (j_state jk = JQueued ↔ j_state jk0 = JQueued) ∧
                   (j_state jk0 = JQueued → j_proc jk = j_proc jk0)).
  { intros k jk. rewrite lookup_on_job. case_decide; [subst k|naive_solver].
    rewrite Hj. intros [= <-]. by exists j. }
  assert (Hfwd : ∀ k jk0, b_store b !! k = Some jk0 →
            ∃ jk, b_store (on_job i f b) !! k = Some jk ∧ j_source jk = j_source jk0 ∧
                   (j_state jk = JQueued ↔ j_state jk0 = JQueued) ∧
                   (j_state jk0 = JQueued → j_proc jk = j_proc jk0)).
  { intros k jk0 Hk. rewrite lookup_on_job. case_decide; [subst k|naive_solver].
    rewrite Hj in Hk. injection Hk as <-. rewrite Hj. by exists (f j). }
  split.
  - apply Hb.
  - apply Hb.
  - intros k Hk. destruct (bi_jobs b Hb k Hk) as (jk & Hjk & ? & ?).
    destruct (Hfwd k jk Hjk) as (jk' & ? & He & Hst & _). exists jk'.
    split_and!; [done|tauto|by rewrite He].
  - intros k k' jk jk' Hk Hk' (jk0 & ? & -> & _)%Hinv (jk0' & ? & -> & _)%Hinv.
    by eapply bi_serial.
  - intros s k Hk. destruct (bi_pending b Hb s k Hk) as (jk & Hjk & Hst & ? & ?).
    destruct (Hfwd k jk Hjk) as (jk' & ? & ? & ? & Hpr). exists jk'.
    split_and!; [done|tauto|congruence|]. by rewrite Hpr.
  - apply Hb.
  - apply Hb.
  - intros k jk (jk0 & Hk & -> & Hst & _)%Hinv Hqk%Hst. exact (bi_queued b Hb k jk0 Hk Hqk).
  - apply Hb.
  - intros k Hk%Hact. rewrite (n_results_same b) by (simpl; apply app_nil_r). by apply Hb.
  - intros k Hk Hn. rewrite Hact in Hn. rewrite (n_results_same b) by (simpl; apply app_nil_r).
    apply Hb; [|done]. by rewrite length_on_job in Hk.
  - intros k Hk. rewrite (n_results_same b) by (simpl; apply app_nil_r).
    apply (bi_unborn b Hb). by rewrite length_on_job in Hk.
Qed.

(** A step that leaves the store, the pool, the queues and the results alone. *)
Definition same_pool (b b' : bash) : Prop :=
  b_store b' = b_store b ∧ b_jobs b' = b_jobs b ∧ b_pending b' = b_pending b ∧
  b_busy b' = b_busy b ∧ map dr_job (b_drives b') = map dr_job (b_drives b) ∧
  b_max_jobs b' = b_max_jobs b ∧ ∀ i, n_results i b' = n_results i b.

Lemma binv_same_pool b b' : same_pool b b' → binv b → binv b'.
Proof.
  intros (Hs & Hj & Hp & Hu & Hd & Hm & Hr) Hb.
  assert (Hq : ∀ s, queue_of s b' = queue_of s b) by (intros s; unfold queue_of; by rewrite Hp).
  assert (Ha : ∀ i, active b' i ↔ active b i) by (intros i; unfold active, queued; by rewrite Hs, Hj).
  split; rewrite ?Hs, ?Hj, ?Hu, ?Hd, ?Hm; try apply Hb.
  - intros s i. rewrite Hq. apply Hb.
  - intros s. rewrite Hq. apply Hb.
  - intros s. rewrite Hq. apply Hb.
  - intros i j. rewrite Hq. apply Hb.
  - intros i. rewrite Ha, Hr. apply Hb.
  - intros i. rewrite Ha, Hr. apply Hb.
  - intros i. rewrite Hr. apply (bi_unborn b Hb).
Qed.

Lemma n_results_say i o b : n_results i (say o b) = n_results i b + (if is_result i o then 1 else 0).
Proof.
  unfold n_results. simpl. rewrite List.filter_app, length_app. simpl. by destruct (is_result i o).
Qed.
Lemma same_pool_reply v b : same_pool b (say (OReply v) b).
Proof. repeat split. intros i. rewrite n_results_say. simpl. lia. Qed.
Lemma same_pool_goto i w p b : same_pool b (goto i w p b).
Proof.
  repeat split.
  - simpl. rewrite map_map. apply map_ext. intros [k ? ?]. simpl. destruct (k =? i) eqn:E; [|done].
    simpl. by apply Nat.eqb_eq in E.
  - intros k. unfold n_results. simpl. by rewrite app_nil_r.
Qed.
Lemma binv_background i w b : binv b → binv (background i w b).
Proof.
  intros Hb. unfold background. destruct (job_of b i); [|done].
  eapply binv_same_pool; [apply same_pool_goto|].
  eapply binv_same_pool; [|exact Hb]. repeat split. intros k. rewrite n_results_say. simpl. lia.
Qed.

Lemma drive_in_pool b i d : binv b → drive_of b i = Some d → i ∈ b_jobs b ∧ dr_job d = i.
Proof.
  intros Hb Hd. unfold drive_of in Hd. apply List.find_some in Hd as [Hin He].
  apply Nat.eqb_eq in He. split; [|done]. rewrite <-(bi_drives b Hb), <-He.
  apply list_elem_of_fmap. exists d. split; [done|]. by apply list_elem_of_In.
Qed.

(** ** The end of a job *)

Definition without (i : nat) (l : list nat) : list nat := List.filter (λ k, negb (k =? i)) l.
Lemma elem_without i l k : k ∈ without i l ↔ k ∈ l ∧ k ≠ i.
Proof.
  unfold without. rewrite !list_elem_of_In, filter_In, negb_true_iff, Nat.eqb_neq. done.
Qed.
Lemma without_nodup i l : NoDup l → NoDup (without i l).
Proof. rewrite !NoDup_ListNoDup. apply List.NoDup_filter. Qed.
Lemma without_length i l : i ∈ l → S (length (without i l)) ≤ length l.
Proof.
  induction l as [|k l IH]; [by intros ?%elem_of_nil|]. simpl.
  destruct (Nat.eqb_spec k i) as [->|]; simpl.
  - intros _. pose proof (List.filter_length_le (λ k, negb (k =? i)) l). unfold without. lia.
  - intros [?|?%IH]%elem_of_cons; [done|]. unfold without in *. lia.
Qed.
Lemma without_id i l : i ∉ l → without i l = l.
Proof.
  induction l as [|k l IH]; [done|]. intros Hi%not_elem_of_cons. simpl.
  destruct Hi as [Hk Hl]. destruct (Nat.eqb_spec k i) as [->|]; [done|]. simpl. f_equal. by apply IH.
Qed.
Lemma drives_without i (l : list drive) :
  map dr_job (List.filter (λ d, negb (dr_job d =? i)) l) = without i (map dr_job l).
Proof.
  induction l as [|[k w p] l IH]; simpl; [done|]. destruct (k =? i); simpl; by rewrite IH.
Qed.

Section Conclude.
Variables (i : nat) (b : bash) (j : job) (o : out).
Hypothesis Hb : binv b.
Hypothesis Hi : i ∈ b_jobs b.
Hypothesis Hj : b_store b !! i = Some j.
Hypothesis Ho : ∀ k, is_result k o = (i =? k).

(** The device after [_finish], [_deliver] and [_wake_source] of the job. *)
Let b' := end_drive i (_wake_source (j_source j) (say o (_finish i b))).

Lemma concl_results k : n_results k b' = n_results k b + (if i =? k then 1 else 0).
Proof using Ho.
  rewrite <-Ho. rewrite <-n_results_say. unfold b', _wake_source, n_results.
  destruct (queue_of _ _); simpl; by rewrite !app_nil_r.
Qed.

Lemma queue_after s : queue_of s (say o (_finish i b)) = queue_of s b.
Proof. done. Qed.

Lemma not_queued k : k ∈ b_jobs b → ¬ queued b k.
Proof using Hb.
  intros Hk (jk & Hjk & Hq). destruct (bi_jobs b Hb k Hk) as (j' & ? & ? & _). congruence.
Qed.

Lemma concl_last : queue_of (j_source j) b = [] → binv b'.
Proof using All.
  intros Hq.
  assert (Hb' : b' = upd id (without i)
      (λ l, match b_completed_cap b with O => [] | S n => push_bounded (S n) i l end) id
      (List.filter (λ s, negb (bool_decide (s = j_source j))))
      (List.filter (λ d, negb (dr_job d =? i))) id [o] b).
  { unfold b', _wake_source. rewrite queue_after, Hq. unfold end_drive, upd, say, _finish. simpl.
    by rewrite !app_nil_r. }
  assert (Hbusy : ∀ s, s ∈ b_busy b' ↔ s ∈ b_busy b ∧ s ≠ j_source j).
  { intros s. rewrite Hb'. simpl. rewrite !list_elem_of_In, filter_In, negb_true_iff,
      bool_decide_eq_false. done. }
  assert (Hact : ∀ k, active b' k ↔ active b k ∧ k ≠ i).
  { intros k. rewrite Hb'. unfold active, queued. simpl. rewrite elem_without.
    pose proof (not_queued i Hi) as Hni. unfold queued in Hni.
    split; [intros [[? ?]|Hk]; [tauto|]|intros [[?|?] ?]; tauto].
    split; [tauto|]. intros ->. tauto. }
  assert (Hst : b_store b' = b_store b) by (by rewrite Hb').
  assert (Hjobs : b_jobs b' = without i (b_jobs b)) by (by rewrite Hb').
  assert (Hqs : ∀ s, queue_of s b' = queue_of s b) by (by rewrite Hb').
  split.
  - rewrite Hjobs. apply without_nodup, Hb.
  - rewrite Hjobs, <-(bi_drives b Hb), Hb'. apply drives_without.
  - intros k. rewrite Hjobs, elem_without. intros [Hk Hki].
    destruct (bi_jobs b Hb k Hk) as (jk & Hjk & ? & ?). exists jk. rewrite Hst, Hbusy.
    split_and!; try done. intros He. apply Hki. by eapply bi_serial.
  - intros k k' jk jk'. rewrite Hjobs, !elem_without, Hst. intros [? _] [? _]. by eapply bi_serial.
  - intros s k. rewrite Hqs, Hst. apply Hb.
  - intros s. rewrite Hqs. apply Hb.
  - intros s. rewrite Hqs, Hbusy. intros Hs. split; [by apply Hb|]. by intros ->.
  - intros k jk. rewrite Hqs, Hst. apply Hb.
  - rewrite Hjobs, Hb'. simpl. pose proof (without_length i (b_jobs b) Hi).
    pose proof (bi_max b Hb). lia.
  - intros k [Hk Hki]%Hact. rewrite concl_results, (bi_results b Hb k Hk).
    by destruct (Nat.eqb_spec i k).
  - intros k Hk Hn. rewrite Hst in Hk. rewrite concl_results. destruct (Nat.eqb_spec i k) as [<-|].
    + rewrite bi_results; [done|done|by left].
    + rewrite (bi_ended b Hb k Hk); [done|]. rewrite Hact in Hn. naive_solver.
  - intros k Hk. rewrite Hst in Hk. rewrite concl_results, (bi_unborn b Hb k Hk).
    apply lookup_lt_Some in Hj. destruct (Nat.eqb_spec i k); [lia|done].
Qed.

Lemma concl_next i2 rest : queue_of (j_source j) b = i2 :: rest → binv b'.
Proof using All.
  intros Hq. destruct (bi_pending b Hb (j_source j) i2) as (j2 & Hj2 & Hq2 & Hs2 & _);
    [rewrite Hq; left|].
  assert (Hni2 : i2 ∉ b_jobs b) by (intros H; apply (not_queued i2 H); by exists j2).
  assert (Hne : i2 ≠ i) by (intros ->; done).
  pose proof (bi_pending_nodup b Hb (j_source j)) as Hnd. rewrite Hq in Hnd.
  apply NoDup_cons in Hnd as [Hnr Hnd].
  assert (Hb' : b' = upd (alter (set_state JRunning) i2) (λ l, without i l ++ [i2])%list
      (λ l, match b_completed_cap b with O => [] | S n => push_bounded (S n) i l end)
      (dset (j_source j) rest) id
      (λ l, List.filter (λ d, negb (dr_job d =? i)) l ++ [Drive i2 None PStart])%list id [o] b).
  { unfold b', _wake_source. rewrite queue_after, Hq. unfold end_drive, upd, say, _finish. simpl.
    rewrite !app_nil_r, List.filter_app. simpl.
    destruct (Nat.eqb_spec i2 i); [done|]. done. }
  assert (Hlk : ∀ k, b_store b' !! k =
            if decide (k = i2) then Some (set_state JRunning j2) else b_store b !! k).
  { intros k. rewrite Hb'. simpl. case_decide; [subst k|by rewrite list_lookup_alter_ne].
    by rewrite list_lookup_alter_eq, Hj2. }
  assert (Hjobs : ∀ k, k ∈ b_jobs b' ↔ (k ∈ b_jobs b ∧ k ≠ i) ∨ k = i2).
  { intros k. rewrite Hb'. simpl. rewrite elem_of_app, elem_without, list_elem_of_singleton. done. }
  assert (Hqs : ∀ s, queue_of s b' = if decide (s = j_source j) then rest else queue_of s b).
  { intros s. rewrite Hb'. unfold queue_of. simpl. rewrite dget_dset. by case_decide. }
  assert (Hqd : ∀ k, queued b' k ↔ queued b k ∧ k ≠ i2).
  { intros k. unfold queued. rewrite Hlk. case_decide; [subst k|].
    - split; [|by intros [_ ?]]. intros (? & [= <-] & ?). done.
    - tauto. }
  assert (Hact : ∀ k, active b' k ↔ active b k ∧ k ≠ i).
  { intros k. unfold active. rewrite Hjobs, Hqd. pose proof (not_queued i Hi) as Hni.
    assert (queued b i2) by (by exists j2).
    destruct (decide (k = i)) as [->|]; [naive_solver|].
    destruct (decide (k = i2)) as [->|]; naive_solver. }
  assert (Hlen : length (b_store b') = length (b_store b)).
  { rewrite Hb'. simpl. apply length_alter. }
  split.
  - rewrite Hb'. simpl. apply NoDup_app. split; [apply without_nodup, Hb|].
    split; [|apply NoDup_singleton]. intros k [Hk _]%elem_without ->%list_elem_of_singleton. done.
  - rewrite Hb'. simpl. rewrite map_app, drives_without, (bi_drives b Hb). done.
  - intros k [[Hk Hki]| ->]%Hjobs; rewrite Hlk, Hb'; simpl.
    + rewrite decide_False by (by intros ->). by apply Hb.
    + rewrite decide_True by done. exists (set_state JRunning j2). split_and!; [done..|].
      simpl. rewrite Hs2. destruct (bi_jobs b Hb i Hi) as (j' & ? & _ & ?). congruence.
  - intros k k' jk jk' Hk Hk'. rewrite !Hlk. apply Hjobs in Hk, Hk'.
    repeat case_decide; subst; intros E1 E2; simplify_eq; simpl; intros He; try done.
    + destruct Hk' as [[Hk' ?]|?]; [|done]. exfalso. assert (k' = i); [|done].
      apply (bi_serial b Hb k' i jk' j); congruence.
    + destruct Hk as [[Hk ?]|?]; [|done]. exfalso. assert (k = i); [|done].
      apply (bi_serial b Hb k i jk j); congruence.
    + apply (bi_serial b Hb k k' jk jk'); [|naive_solver..]. naive_solver.
  - intros s k. rewrite Hqs, Hlk. case_decide as Hs.
    + subst s. intros Hk. rewrite decide_False by (by intros ->). apply (bi_pending b Hb).
      rewrite Hq. by right.
    + intros Hk. rewrite decide_False; [by apply (bi_pending b Hb)|]. intros ->.
      destruct (bi_pending b Hb s i2 Hk) as (? & ? & _ & ? & _). congruence.
  - intros s. rewrite Hqs. case_decide; [done|apply Hb].
  - intros s. rewrite Hqs, Hb'. simpl. case_decide; [|apply Hb]. intros _. subst s.
    apply Hb. by rewrite Hq.
  - intros k jk. rewrite Hlk. case_decide; [intros [= <-]; done|]. intros Hk Hqk.
    pose proof (bi_queued b Hb k jk Hk Hqk) as Hin. rewrite Hqs. case_decide as Hs; [|done].
    rewrite Hs, Hq in Hin. apply elem_of_cons in Hin. naive_solver.
  - rewrite Hb'. simpl. rewrite length_app. simpl. pose proof (without_length i (b_jobs b) Hi).
    pose proof (bi_max b Hb). lia.
  - intros k [Hk Hki]%Hact. rewrite concl_results, (bi_results b Hb k Hk).
    by destruct (Nat.eqb_spec i k).
  - intros k Hk Hn. rewrite Hlen in Hk. rewrite concl_results. destruct (Nat.eqb_spec i k) as [<-|].
    + rewrite bi_results; [done|done|by left].
    + rewrite (bi_ended b Hb k Hk); [done|]. rewrite Hact in Hn. naive_solver.
  - intros k Hk. rewrite Hlen in Hk. rewrite concl_results, (bi_unborn b Hb k Hk).
    apply lookup_lt_Some in Hj. destruct (Nat.eqb_spec i k); [lia|done].
Qed.

Lemma concl_binv : binv b'.
Proof using All.
  destruct (queue_of (j_source j) b) as [|i2 rest] eqn:E; [by apply concl_last|by eapply concl_next].
Qed.
End Conclude.

Lemma binv_conclude i now error b : binv b → i ∈ b_jobs b → binv (conclude i now error b).
Proof.
  intros Hb Hi. unfold conclude, job_of. destruct (b_store b !! i) as [j|] eqn:Hj; [|done].
  by apply concl_binv.
Qed.

(** ** Requests *)

(** What a new job satisfies. *)
(** The deadline of a job is a number, at most [md] after its creation. *)
Definition capped (md : Q) (j : job) : Prop :=
  ∃ q, deadline_at j = Fin q ∧ (q - created_at j <= md)%Q.
Definition fresh_job (now max_deadline : Q) (j : job) : Prop :=
  j_state j = JRunning ∧ j_proc j = None ∧ j_buffer j = [] ∧ j_trimmed j = 0%Z ∧
  created_at j = now ∧ capped max_deadline j.

(** What passes the check of [_on_run], and the two of [_on_extend]. *)
Lemma run_capped md t x : flt (Fin md) x = false → fle (Fin 0) t = true → fle t x = true →
  ∃ q, x = Fin q ∧ (q <= md)%Q.
Proof.
  destruct x as [q| | |], t as [p| | |]; simpl; try done. intros H _ _. exists q. split; [done|].
  apply negb_false_iff in H. by apply Qle_bool_iff.
Qed.
Lemma extend_capped md d x c :
  (∃ q, d = Fin q) → flt (Fin md) (fsub (fadd d x) (Fin c)) = false → fle x (Fin 0) = false →
  (∃ q, fadd d x = Fin q ∧ (q - c <= md)%Q) ∨ x = NaN.
Proof.
  intros [q ->]. destruct x as [p| | |]; simpl; try done; [|by right]. intros H _. left.
  exists (q + p)%Q. split; [done|]. apply negb_false_iff, Qle_bool_iff in H. lra.
Qed.

Inductive run_outcome (now : Q) (b : bash) : bash → Prop :=
| run_refused : run_outcome now b b
| run_queued j : fresh_job now (b_max_deadline b) j → j_source j ∈ b_busy b →
    run_outcome now b (enqueue_job j b)
| run_started j : fresh_job now (b_max_deadline b) j → j_source j ∉ b_busy b →
    (Z.of_nat (length (b_jobs b)) < b_max_jobs b)%Z → run_outcome now b (start_job j b).

Lemma refuse_store event msg b : (refuse event msg b).2 = b.
Proof. unfold refuse. rewrite run_bind. unfold lift. by destruct (_error event msg). Qed.

Lemma lift_outcome {A} now b (r : res A) (f : A → M bash (option value)) :
  (∀ a, run_outcome now b (f a b).2) → run_outcome now b ((lift r ≫= f) b).2.
Proof. intros Hf. rewrite run_bind. unfold lift. destruct r; [apply Hf|constructor]. Qed.

Lemma on_run_outcome now event nf b : run_outcome now b (_on_run now event nf b).2.
Proof.
  unfold _on_run. apply lift_outcome. intros payload. rewrite run_bind. cbn [gets id].
  destruct (Z.leb_spec (b_max_jobs b) (Z.of_nat (length (b_jobs b)))) as [|Hlt];
    [rewrite refuse_store; constructor|].
  apply lift_outcome. intros cmd. destruct cmd as [| | | |cmd| |];
    try (rewrite refuse_store; constructor).
  destruct (negb _); [rewrite refuse_store; constructor|].
  apply lift_outcome; intros a. apply lift_outcome; intros a0.
  destruct a as [timeout|]; [|rewrite refuse_store; constructor].
  destruct a0 as [deadline|]; [|rewrite refuse_store; constructor].
  destruct (flt (Fin (b_max_deadline b)) deadline) eqn:Hd; [rewrite refuse_store; constructor|].
  destruct (fle (Fin 0) timeout && fle timeout deadline) eqn:Ht; cbn [negb];
    [|rewrite refuse_store; constructor].
  apply andb_true_iff in Ht as [Ht0 Ht]. destruct (run_capped _ _ _ Hd Ht0 Ht) as (q & -> & Hq).
  do 3 (apply lift_outcome; intros ?). cbv zeta.
  match goal with |- context [enqueue_job ?j] => set (job := j) end.
  assert (Hf : fresh_job now (b_max_deadline b) job).
  { split_and!; try done. exists (now + q)%Q. split; [done|]. simpl. lra. }
  case_bool_decide; rewrite run_bind; simpl.
  - by apply run_queued.
  - by apply run_started.
Qed.

Section NewJob.
Variables (b : bash) (j : job).
Hypothesis Hb : binv b.
Let i := length (b_store b).

Lemma new_not_pooled : i ∉ b_jobs b.
Proof using Hb.
  intros Hi. destruct (bi_jobs b Hb i Hi) as (? & Hx%lookup_lt_Some & _). unfold i in Hx. lia.
Qed.
Lemma new_not_pending s : i ∉ queue_of s b.
Proof using Hb.
  intros Hi. destruct (bi_pending b Hb s i Hi) as (? & Hx%lookup_lt_Some & _). unfold i in Hx. lia.
Qed.
Lemma lookup_new (j' : job) k :
  ((b_store b ++ [j'])%list) !! k = if decide (k = i) then Some j' else b_store b !! k.
Proof.
  unfold i. revert k. induction (b_store b) as [|x l IH]; intros [|k]; simpl; try done.
  rewrite IH. repeat case_decide; try done; lia.
Qed.
Lemma pooled_old k : k ∈ b_jobs b → k ≠ i.
Proof using Hb. intros Hk ->. by apply new_not_pooled. Qed.
Lemma pending_old s k : k ∈ queue_of s b → k ≠ i.
Proof using Hb. intros Hk ->. by eapply new_not_pending. Qed.

Lemma binv_start :
  j_state j = JRunning → j_source j ∉ b_busy b →
  (Z.of_nat (length (b_jobs b)) < b_max_jobs b)%Z → binv (start_job j b).
Proof using Hb.
  intros Hst Hs Hmax.
  assert (Hn : ∀ k, n_results k (start_job j b) = n_results k b)
    by (intros; apply n_results_same; simpl; apply app_nil_r).
  assert (Hact : ∀ k, active (start_job j b) k ↔ active b k ∨ k = i).
  { intros k. unfold active, queued. simpl. rewrite elem_of_app, list_elem_of_singleton, lookup_new.
    fold i. case_decide; [subst k|naive_solver]. split; [by right|]. intros _. left; by right. }
  split.
  - simpl. apply NoDup_app. split; [apply Hb|]. split; [|apply NoDup_singleton].
    intros k Hk ->%list_elem_of_singleton. by apply (pooled_old _ Hk).
  - simpl. by rewrite map_app, (bi_drives b Hb).
  - simpl. intros k. rewrite elem_of_app, list_elem_of_singleton, lookup_new. fold i. intros [Hk| ->].
    + rewrite decide_False by (by apply pooled_old).
      destruct (bi_jobs b Hb k Hk) as (jk & ? & ? & ?). exists jk. rewrite elem_of_app. auto.
    + rewrite decide_True by done. exists j. rewrite Hst, elem_of_app, list_elem_of_singleton. auto.
  - simpl. intros k k' jk jk'. rewrite !elem_of_app, !list_elem_of_singleton, !lookup_new. fold i.
    intros Hk Hk'. repeat case_decide; subst; intros E1 E2; simplify_eq; intros He; try done.
    + destruct Hk' as [Hk'|]; [|done]. destruct (bi_jobs b Hb k' Hk') as (? & ? & _ & ?). congruence.
    + destruct Hk as [Hk|]; [|done]. destruct (bi_jobs b Hb k Hk) as (? & ? & _ & ?). congruence.
    + apply (bi_serial b Hb k k' jk jk'); naive_solver.
  - intros s k Hk. change (k ∈ queue_of s b) in Hk. simpl. rewrite lookup_new.
    rewrite decide_False by (by eapply pending_old). by apply Hb.
  - apply Hb.
  - intros s Hq. simpl. apply elem_of_app. left. by apply Hb.
  - simpl. intros k jk. rewrite lookup_new. case_decide; [intros [= <-]; congruence|].
    apply (bi_queued b Hb).
  - simpl. rewrite length_app. simpl. lia.
  - intros k [Hk| ->]%Hact; rewrite Hn; [by apply Hb|]. by apply (bi_unborn b Hb).
  - intros k Hk Hna. rewrite Hn. rewrite Hact in Hna. apply (bi_ended b Hb); [|tauto].
    simpl in Hk. rewrite length_app in Hk. simpl in Hk. unfold i in Hna. lia.
  - intros k Hk. rewrite Hn. apply (bi_unborn b Hb). simpl in Hk. rewrite length_app in Hk. lia.
Qed.

Lemma binv_enqueue : j_proc j = None → j_source j ∈ b_busy b → binv (enqueue_job j b).
Proof using Hb.
  intros Hp Hs.
  assert (Hn : ∀ k, n_results k (enqueue_job j b) = n_results k b)
    by (intros; apply n_results_same; simpl; apply app_nil_r).
  assert (Hqs : ∀ s, queue_of s (enqueue_job j b) =
            (queue_of s b ++ if decide (s = j_source j) then [i] else [])%list).
  { intros s. unfold queue_of. simpl. rewrite dget_dset. case_decide; [by subst|].
    by rewrite app_nil_r. }
  assert (Hact : ∀ k, active (enqueue_job j b) k ↔ active b k ∨ k = i).
  { intros k. unfold active, queued. simpl. rewrite lookup_new. fold i.
    case_decide; [subst k|naive_solver]. split; [by right|]. intros _. right. by eexists. }
  split.
  - apply Hb.
  - apply Hb.
  - simpl. intros k Hk. rewrite lookup_new, decide_False by (by apply pooled_old). by apply Hb.
  - simpl. intros k k' jk jk' Hk Hk'. rewrite !lookup_new, !decide_False by (by apply pooled_old).
    by eapply bi_serial.
  - intros s k. rewrite Hqs, elem_of_app. simpl. rewrite lookup_new. fold i. intros [Hk|Hk].
    + rewrite decide_False by (by eapply pending_old). by apply Hb.
    + case_decide; [|by apply elem_of_nil in Hk]. apply list_elem_of_singleton in Hk. subst.
      rewrite decide_True by done. by eexists.
  - intros s. rewrite Hqs. apply NoDup_app. split; [apply Hb|]. split.
    + intros k Hk. case_decide; [|apply not_elem_of_nil]. rewrite list_elem_of_singleton. by eapply pending_old.
    + case_decide; [apply NoDup_singleton|apply NoDup_nil_2].
  - intros s. rewrite Hqs. simpl. case_decide; [by subst|]. rewrite app_nil_r. apply Hb.
  - intros k jk. simpl. rewrite Hqs, lookup_new. fold i. case_decide.
    + intros [= <-] _. simpl. rewrite decide_True by done. subst k. apply elem_of_app. right. by left.
    + intros Hk Hq. apply elem_of_app. left. by apply Hb.
  - apply Hb.
  - intros k [Hk| ->]%Hact; rewrite Hn; [by apply Hb|]. by apply (bi_unborn b Hb).
  - intros k Hk Hna. rewrite Hn. rewrite Hact in Hna. apply (bi_ended b Hb); [|tauto].
    simpl in Hk. rewrite length_app in Hk. simpl in Hk. unfold i in Hna. lia.
  - intros k Hk. rewrite Hn. apply (bi_unborn b Hb). simpl in Hk. rewrite length_app in Hk. lia.
Qed.
End NewJob.

(** ** Control requests, and every step *)

Lemma number_field_nan nf payload k dflt :
  number_field nf payload k dflt = Ok (Some NaN) → dget k nf = Some NaN.
Proof.
  unfold number_field. destruct (dget k nf); [by intros [= ->]|].
  destruct (py_get_or _ _ _) as [v|]; [|done]. simpl. by destruct (as_number v).
Qed.

Section Respond.
Variable P : bash → Prop.
Hypothesis Prun : ∀ now b b', run_outcome now b b' → P b → P b'.
Hypothesis Pkilled : ∀ i j b, P b → b_store b !! i = Some j → j_state j = JRunning →
  P (on_job i (set_state JKilled) b).
Hypothesis Pgroup : ∀ i b, P b → P (on_job i kill_group b).
Variable nf : dict pyfloat.
Hypothesis Pextend : ∀ i j x b, P b → b_store b !! i = Some j →
  fle x (Fin 0) = false →
  flt (Fin (b_max_deadline b)) (fsub (fadd (deadline_at j) x) (Fin (created_at j))) = false →
  (x = NaN → dget "seconds" nf = Some NaN) → P (on_job i (set_deadline (fadd (deadline_at j) x)) b).

Lemma keeps_refuse event msg b : P b → P (refuse event msg b).2.
Proof using. by rewrite refuse_store. Qed.
Lemma keeps_lift {A} (r : res A) (f : A → M bash (option value)) b :
  P b → (∀ a, P (f a b).2) → P ((lift r ≫= f) b).2.
Proof using. intros Hb Hf. rewrite run_bind. unfold lift. by destruct r. Qed.
Lemma find_owned_store event b : (_find_owned event b).2 = b.
Proof using. done. Qed.
Lemma keeps_running event f b :
  P b →
  (∀ i j, b_store b !! i = Some j → j_state j = JRunning → P (f i j b).2) →
  P (with_running event f b).2.
Proof using.
  intros Hb Hf. unfold with_running. rewrite run_bind.
  destruct (_find_owned event b) as [[o|] b1] eqn:E;
    assert (b1 = b) as -> by (by injection E); [|done].
  destruct o as [i|]; [|by apply keeps_refuse]. rewrite run_bind. cbn [gets].
  unfold job_of. destruct (b_store b !! i) as [j|] eqn:Hj; [|by apply keeps_refuse].
  case_bool_decide; [by apply Hf|by apply keeps_refuse].
Qed.

Lemma keeps_kill event b : P b → P (_on_kill event b).2.
Proof using Pkilled Pgroup.
  intros Hb. unfold _on_kill. apply keeps_running; [done|]. intros i j Hj Hs. rewrite run_bind.
  simpl. destruct (j_proc j); [|by eapply Pkilled]. rewrite run_bind. simpl.
  apply Pgroup. by eapply Pkilled.
Qed.
Lemma keeps_extend event b : P b → P (_on_extend event nf b).2.
Proof using Pextend.
  intros Hb. unfold _on_extend. apply keeps_running; [done|]. intros i j Hj Hs.
  apply keeps_lift; [done|intros payload]. rewrite run_bind. unfold lift at 1.
  destruct (number_field _ _ _ _) as [extra|] eqn:Hx; [|done]. rewrite run_bind. cbn [gets id].
  destruct extra as [extra|]; [|by apply keeps_refuse].
  destruct (fle extra (Fin 0)) eqn:Hp; [by apply keeps_refuse|].
  destruct (flt _ _) eqn:Hq; [by apply keeps_refuse|].
  rewrite run_bind. simpl. eapply Pextend; [done..|]. intros ->. by apply number_field_nan in Hx.
Qed.
Lemma keeps_status now event b : P b → P (_on_status now event b).2.
Proof using.
  intros Hb. unfold _on_status. rewrite run_bind.
  destruct (_find_owned event b) as [[o|] b1] eqn:E;
    assert (b1 = b) as -> by (by injection E); [|done].
  destruct o as [i|]; [|by apply keeps_refuse]. rewrite run_bind. cbn [gets].
  destruct (job_of b i) as [j|]; [|by apply keeps_refuse].
  do 2 (apply keeps_lift; [done|intros ?]). by destruct (read_from _ _) as [[[? ?] ?] ?].
Qed.

Lemma respond_keeps now event b : P b → P (bash_respond now event nf b).2.
Proof using All.
  intros Hb. unfold bash_respond. do 3 (apply keeps_lift; [done|intros ?]).
  repeat match goal with |- P ((if ?c then _ else _) b).2 => destruct c end.
  - eapply Prun; [apply on_run_outcome|done].
  - by apply keeps_status.
  - by apply keeps_kill.
  - by apply keeps_extend.
  - by apply keeps_refuse.
Qed.
End Respond.

Lemma benign_state s j : j_state j ≠ JQueued → s ≠ JQueued → benign (set_state s) j.
Proof. intros. split_and!; [done|tauto|tauto]. Qed.
Lemma binv_group i b : binv b → binv (on_job i kill_group b).
Proof.
  intros Hb. destruct (b_store b !! i) as [j|] eqn:Hj.
  - eapply binv_on_job; [done|done|]. split_and!; [done|done|]. intros Hq. unfold kill_group. simpl.
    destruct (bi_pending b Hb _ i (bi_queued b Hb i j Hj Hq)) as (j' & Hj' & _ & _ & Hp).
    rewrite Hj in Hj'. injection Hj' as <-. by rewrite Hp.
  - eapply binv_same_pool; [|done]. repeat split; simpl.
    + apply list_eq. intros k. destruct (decide (k = i)) as [->|];
        [by rewrite list_lookup_alter_eq, Hj|by rewrite list_lookup_alter_ne].
    + intros k. apply n_results_same. simpl. apply app_nil_r.
Qed.

Lemma binv_respond now event nf b : binv b → binv (bash_respond now event nf b).2.
Proof.
  apply respond_keeps.
  - intros now0 b0 b' [|j (Hst & Hp & _) Hs|j (Hst & _) Hs Hm] Hb;
      [done|by apply binv_enqueue|by apply binv_start].
  - intros i j b0 Hb Hj Hs. eapply binv_on_job; [done|done|].
    apply benign_state; [by rewrite Hs|done].
  - apply binv_group.
  - intros i j x b0 Hb Hj _ _ _. by eapply binv_on_job.
Qed.

Section Expire.
Variables (i : nat) (b : bash) (j : job) (v : value).
Hypothesis Hb : binv b.
Hypothesis Hj : b_store b !! i = Some j.
Hypothesis Hq : j_state j = JQueued.

(** The device after a queued job was taken off its queue and its result sent. *)
Let b' := say (OResult i v) (on_job i (set_state JExpired)
  (upd id id id (λ d, dset (j_source j) (without i (default [] (dget (j_source j) d))) d)
       id id id [] b)).

Lemma binv_expire : binv b'.
Proof using All.
  assert (Hlk : ∀ k, b_store b' !! k =
            if decide (k = i) then Some (set_state JExpired j) else b_store b !! k).
  { intros k. unfold b'. simpl. case_decide; [subst k|by rewrite list_lookup_alter_ne].
    by rewrite list_lookup_alter_eq, Hj. }
  assert (Hqs : ∀ s, queue_of s b' =
            if decide (s = j_source j) then without i (queue_of s b) else queue_of s b).
  { intros s. unfold b', queue_of. simpl. rewrite dget_dset. case_decide; [by subst|done]. }
  assert (Hin : ∀ s k, k ∈ queue_of s b' → k ∈ queue_of s b ∧ k ≠ i).
  { intros s k. rewrite Hqs. case_decide as Hs; [by rewrite elem_without|]. intros Hk.
    split; [done|]. intros ->. destruct (bi_pending b Hb s i Hk) as (? & ? & _ & ? & _). congruence. }
  assert (Hni : i ∉ b_jobs b) by (intros H; apply (not_queued b Hb i H); by exists j).
  assert (Hn : ∀ k, n_results k b' = n_results k b + (if i =? k then 1 else 0)).
  { intros k. unfold b'. rewrite n_results_say. f_equal. apply n_results_same. simpl.
    by rewrite !app_nil_r. }
  assert (Hact : ∀ k, active b' k ↔ active b k ∧ k ≠ i).
  { intros k. unfold active, queued. rewrite Hlk. change (b_jobs b') with (b_jobs b).
    case_decide; [subst k|naive_solver]. split; [|by intros [_ ?]].
    intros [?|(? & [= <-] & ?)]; done. }
  split.
  - apply Hb.
  - apply Hb.
  - intros k Hk. change (k ∈ b_jobs b) in Hk. rewrite Hlk, decide_False by (by intros ->).
    by apply Hb.
  - intros k k' jk jk' Hk Hk'. change (k ∈ b_jobs b) in Hk. change (k' ∈ b_jobs b) in Hk'.
    rewrite !Hlk, !decide_False by (by intros ->). by eapply bi_serial.
  - intros s k [Hk Hki]%Hin. rewrite Hlk, decide_False by done. by apply Hb.
  - intros s. rewrite Hqs. case_decide; [apply without_nodup|]; apply Hb.
  - intros s Hs. apply (bi_pending_busy b Hb). rewrite Hqs in Hs. case_decide; [|done].
    intros E. by rewrite E in Hs.
  - intros k jk. rewrite Hlk, Hqs. case_decide; [intros [= <-]; done|]. intros Hk Hqk.
    pose proof (bi_queued b Hb k jk Hk Hqk). case_decide; [by apply elem_without|done].
  - apply Hb.
  - intros k [Hk Hki]%Hact. rewrite Hn, (bi_results b Hb k Hk). by destruct (Nat.eqb_spec i k).
  - intros k Hk Hna. rewrite Hn. unfold b' in Hk. simpl in Hk. rewrite length_alter in Hk.
    destruct (Nat.eqb_spec i k) as [<-|].
    + rewrite bi_results; [done|done|]. right. by exists j.
    + rewrite (bi_ended b Hb k Hk); [done|]. rewrite Hact in Hna. naive_solver.
  - intros k Hk. unfold b' in Hk. simpl in Hk. rewrite length_alter in Hk.
    rewrite Hn, (bi_unborn b Hb k Hk). apply lookup_lt_Some in Hj.
    destruct (Nat.eqb_spec i k); [lia|done].
Qed.
End Expire.

Lemma benign_proc p j : j_state j ≠ JQueued → benign (set_proc p) j.
Proof. intros. by split_and!. Qed.
Lemma benign_group j : j_state j ≠ JQueued → benign kill_group j.
Proof. intros. by split_and!. Qed.

Lemma pooled_job b i : binv b → i ∈ b_jobs b →
  ∃ j, b_store b !! i = Some j ∧ j_state j ≠ JQueued.
Proof. intros Hb Hi. destruct (bi_jobs b Hb i Hi) as (j & ? & ? & _). by exists j. Qed.

Lemma binv_spawned i now error w b : binv b → i ∈ b_jobs b → binv (spawned i now error w b).
Proof.
  intros Hb Hi. unfold spawned.
  destruct error as [[msg|]|]; [by apply binv_conclude|by eapply binv_same_pool, Hb; apply same_pool_goto|].
  cbv zeta.
  destruct (pooled_job b i Hb Hi) as (j & Hj & Hn).
  assert (binv (on_job i (set_proc (Some (Subproc None false))) b)) as Hb1.
  { eapply binv_on_job; [done|done|by apply benign_proc]. }
  destruct (job_of _ i); [|done]. destruct (flt _ _); [|by apply binv_background].
  eapply binv_same_pool; [apply same_pool_goto|done].
Qed.

Lemma binv_watch i now b b' : binv b → _deadline_watch i now b = Some b' → binv b'.
Proof.
  intros Hb. unfold _deadline_watch, job_of. destruct (b_store b !! i) as [j|] eqn:Hj; [|done].
  destruct (negb _); [done|]. cbv zeta. set (b1 := upd id id id id id id _ [] b).
  assert (binv b1) as Hb1.
  { eapply binv_same_pool; [|done]. repeat split. intros k. apply n_results_same. apply app_nil_r. }
  intros [= <-]. case_bool_decide as Hr; simpl.
  - destruct (alive j); [|by rewrite bool_decide_eq_false_2 by (by rewrite Hr)].
    apply (binv_on_job i _ b1 j); [done|done|]. split_and!; [done|simpl; by rewrite Hr|by rewrite Hr].
  - case_bool_decide as Hq; [|done]. by apply (binv_expire i b1 j).
Qed.

Lemma bstep_binv l b b' : binv b → bstep l b = Some b' → binv b'.
Proof.
  intros Hb. destruct l as [now event nf|i now error|i chunk|i|i rc|i now|i|i now msg|i now]; simpl.
  - pose proof (binv_respond now event nf b Hb) as H.
    destruct (bash_respond now event nf b) as [[[v|]|] b1]; intros [= <-]; try done.
    destruct (veq_str v "VOID"); [done|]. eapply binv_same_pool; [apply same_pool_reply|done].
  - destruct (drive_of b i) as [[k w ph]|] eqn:Hd; [|done]. destruct ph; try done.
    intros [= <-]. apply binv_spawned; [done|]. by eapply drive_in_pool.
  - destruct (drive_of b i) as [[k w ph]|] eqn:Hd; [|done].
    destruct (drive_in_pool b i _ Hb Hd) as [Hi _].
    destruct (pooled_job b i Hb Hi) as (j & Hj & Hn).
    destruct ph; try done; intros [= <-]; (eapply binv_on_job; [done|done|]);
      unfold _append; split_and!; case_match; done.
  - destruct (drive_of b i) as [[k w ph]|] eqn:Hd; [|done].
    destruct (drive_in_pool b i _ Hb Hd) as [Hi _].
    destruct (pooled_job b i Hb Hi) as (j & Hj & Hn).
    assert (binv (on_job i mark_done b)).
    { eapply binv_on_job; [done|done|]. unfold mark_done. split_and!; case_bool_decide; simpl; naive_solver. }
    destruct ph; try done; intros [= <-]; (eapply binv_same_pool; [apply same_pool_goto|done]).
  - destruct (job_of b i) as [j|] eqn:Hj; [|done]. destruct (alive j) eqn:Ha; [|done].
    intros [= <-]. eapply binv_on_job; [done|done|]. split_and!; [done|done|]. intros Hq.
    destruct (bi_pending b Hb _ i (bi_queued b Hb i j Hj Hq)) as (j' & Hj' & _ & _ & Hp).
    unfold job_of in Hj. rewrite Hj in Hj'. injection Hj' as <-. simpl. by rewrite Hp.
  - destruct (drive_of b i) as [[k w ph]|] eqn:Hd; [|done].
    destruct (drive_in_pool b i _ Hb Hd) as [Hi _].
    destruct ph; try done; destruct (job_of b i) as [j|]; try done; destruct (alive j); try done;
      intros [= <-]; by apply binv_conclude.
  - destruct (drive_of b i) as [[k w ph]|] eqn:Hd; [|done].
    destruct ph; try done; intros [= <-]; by apply binv_background.
  - destruct (drive_of b i) as [[k w ph]|] eqn:Hd; [|done].
    destruct (drive_in_pool b i _ Hb Hd) as [Hi _].
    destruct (job_of b i) as [j|] eqn:Hj; [|by destruct ph].
    assert (binv (conclude i now (VStr msg) b)) by (by apply binv_conclude).
    destruct ph; try done; intros [= <-]; (destruct (alive j); [by apply binv_group|done]).
  - destruct (existsb _ _); [|done]. by apply binv_watch.
Qed.

Lemma binv_init mj t d md cap cc cwd b :
  BashDevice_init mj t d md cap cc cwd = Ok b → binv b.
Proof.
  unfold BashDevice_init. destruct (_ && _); [|done]. intros [= <-].
  split; try (unfold queue_of; simpl; set_solver); simpl; try done.
  all: try (intros; apply NoDup_nil_2); intros; lia.
Qed.

Lemma breach_binv b0 b : binv b0 → breach b0 b → binv b.
Proof. intros Hb0 H. induction H; [done|by eapply bstep_binv]. Qed.
