(* ===== verification/BashProps.v ===== *)
(** * Properties of the bash device

    Deadlines and output of a job over any run, and the properties of the pool. *)

From stdpp Require Import base gmap strings list pretty.
From Stdlib Require Import ZArith QArith Lqa Ascii.
From S2P Require Import Prelude PyValue EventProtocol Bash BashInv.

Local Open Scope string_scope.
Local Open Scope nat_scope.

(** ** What a step keeps of a job *)

Definition kept (j j' : job) : Prop :=
  j_source j' = j_source j ∧ created_at j' = created_at j ∧ deadline_at j' = deadline_at j ∧
  j_buffer j' = j_buffer j ∧ j_trimmed j' = j_trimmed j.
#[global] Instance kept_preorder : PreOrder kept.
Proof. split; [by intros j; split_and!|]. unfold kept. intros ? ? ?. naive_solver congruence. Qed.

Definition same_config (b b' : bash) : Prop :=
  b_max_deadline b' = b_max_deadline b ∧ b_output_cap b' = b_output_cap b ∧
  b_max_jobs b' = b_max_jobs b.
Definition store_kept (b b' : bash) : Prop :=
  same_config b b' ∧ length (b_store b') = length (b_store b) ∧
  ∀ k j', b_store b' !! k = Some j' → ∃ j, b_store b !! k = Some j ∧ kept j j'.
#[global] Instance store_kept_preorder : PreOrder store_kept.
Proof.
  split; [intros b; repeat split; intros k j Hj; exists j; by split|].
  intros b1 b2 b3 ((H1 & H1' & Hm) & Hl & H2) ((H3 & H3' & Hm') & Hl' & H4).
  split; [split_and!; congruence|]. split; [congruence|].
  intros k j' (j2 & Hj2 & Hk2)%H4. destruct (H2 k j2 Hj2) as (j1 & ? & ?).
  exists j1. split; [done|]. by transitivity j2.
Qed.

Lemma kept_on_job i f b : (∀ j, kept j (f j)) → store_kept b (on_job i f b).
Proof.
  intros Hf. split; [done|]. split; [apply length_on_job|]. intros k j'. rewrite lookup_on_job.
  case_decide; [|intros; by exists j'].
  destruct (b_store b !! k) as [j|]; [|done]. intros [= <-]. exists j. by split.
Qed.
Lemma kept_same b b' : same_config b b' → b_store b' = b_store b → store_kept b b'.
Proof. intros Hc Hs. split; [done|]. rewrite Hs. split; [done|]. intros k j Hj. by exists j. Qed.

Lemma kept_conclude i now error b : store_kept b (conclude i now error b).
Proof.
  unfold conclude. destruct (job_of b i) as [j|]; [|reflexivity].
  unfold _wake_source. destruct (queue_of _ _) as [|i2 rest]; [by apply kept_same|].
  transitivity (on_job i2 (set_state JRunning) b); [by apply kept_on_job|by apply kept_same].
Qed.
Lemma kept_background i w b : store_kept b (background i w b).
Proof. unfold background. destruct (job_of b i); [by apply kept_same|reflexivity]. Qed.
Lemma kept_spawned i now error w b : store_kept b (spawned i now error w b).
Proof.
  unfold spawned. destruct error as [[msg|]|]; [apply kept_conclude|by apply kept_same|]. cbv zeta.
  etransitivity; [by apply (kept_on_job i (set_proc (Some (Subproc None false))))|].
  destruct (job_of _ _); [|reflexivity]. destruct (flt _ _); [by apply kept_same|apply kept_background].
Qed.
Lemma kept_watch i now b b' : _deadline_watch i now b = Some b' → store_kept b b'.
Proof.
  unfold _deadline_watch. destruct (job_of b i) as [j|]; [|done].
  destruct (negb _); [done|]. cbv zeta. intros [= <-]. set (b1 := upd id id id id id id _ [] b).
  transitivity b1; [by apply kept_same|]. destruct (_ && _); [by apply kept_on_job|].
  case_bool_decide; [|reflexivity].
  transitivity (on_job i (set_state JExpired) b1); [by apply kept_on_job|by apply kept_same].
Qed.

(** What a label appends to the output of a job. *)
Definition chunk_of (k : nat) (l : blabel) : list ascii :=
  match l with BRead i chunk => if i =? k then chunk else [] | _ => [] end.
Definition is_request (l : blabel) : bool := match l with BEvent _ _ _ => true | _ => false end.

Lemma bstep_kept l b b' :
  bstep l b = Some b' → is_request l = false →
  same_config b b' ∧ length (b_store b') = length (b_store b) ∧
  ∀ k j', b_store b' !! k = Some j' → ∃ j, b_store b !! k = Some j ∧
    kept (match l with
          | BRead i chunk => if i =? k then _append (b_output_cap b) chunk j else j
          | _ => j
          end) j'.
Proof.
  destruct l as [now event nf|i now error|i chunk|i|i rc|i now|i|i now msg|i now]; simpl;
    intros H Hr; try done.
  - destruct (drive_of b i) as [[k w []]|]; simplify_eq. apply kept_spawned.
  - destruct (drive_of b i) as [[k w []]|]; try done; injection H as <-;
      (split; [done|]; split; [apply length_on_job|]; intros k' j'; rewrite lookup_on_job;
       destruct (Nat.eqb_spec i k') as [->|];
         [rewrite decide_True by done|rewrite decide_False by done; intros; by exists j'];
       destruct (b_store b !! k') as [j|]; [|done]; intros [= <-]; exists j; by split).
  - assert (store_kept b (on_job i mark_done b)) as Hm.
    { apply kept_on_job. intros j. unfold mark_done. by case_bool_decide. }
    destruct (drive_of b i) as [[k w []]|]; try done; injection H as <-;
      (refine (transitivity (R := store_kept) Hm _); by apply kept_same).
  - destruct (job_of b i) as [j|]; [|done]. destruct (alive j); [|done]. injection H as <-.
    by apply kept_on_job.
  - destruct (drive_of b i) as [[k w []]|]; try done; (destruct (job_of b i) as [j|]; [|done]);
      (destruct (alive j); [done|]); injection H as <-; apply kept_conclude.
  - destruct (drive_of b i) as [[k w []]|]; try done; injection H as <-; apply kept_background.
  - assert (store_kept b (let b1 := conclude i now (VStr msg) b in
              match job_of b i with Some j => if alive j then on_job i kill_group b1 else b1
              | None => b1 end)) as Hk.
    { cbv zeta. etransitivity; [apply kept_conclude|]. destruct (job_of b i) as [j|]; [|reflexivity].
      destruct (alive j); [by apply kept_on_job|reflexivity]. }
    destruct (drive_of b i) as [[k w []]|]; try done; (destruct (job_of b i) as [j|]; [|done]);
      injection H as <-; exact Hk.
  - destruct (existsb _ _); [|done]. by apply kept_watch in H.
Qed.

(** ** Deadlines *)

#[global] Instance pyfloat_nan_dec (o : option pyfloat) : Decision (o = Some NaN).
Proof. destruct o as [[]|]; first [by left|by right]. Defined.

(** A request for an extension by NaN. *)
Definition nan_extension (l : blabel) : bool :=
  match l with
  | BEvent _ _ nf => bool_decide (dget "seconds" nf = Some NaN)
  | _ => false
  end.

(** Every deadline is within the limit, or [nan] and NaN. *)
Definition deadline_in (nan : bool) (md : Q) (j : job) : Prop :=
  capped md j ∨ (nan = true ∧ deadline_at j = NaN).
Definition deadline_ok (nan : bool) (b : bash) : Prop :=
  ∀ i j, b_store b !! i = Some j → deadline_in nan (b_max_deadline b) j.

Lemma deadline_in_same nan md j j' :
  created_at j' = created_at j → deadline_at j' = deadline_at j → deadline_in nan md j → deadline_in nan md j'.
Proof. unfold deadline_in, capped. by intros -> ->. Qed.
Lemma deadline_ok_nan (nan nan' : bool) b : (nan = true → nan' = true) → deadline_ok nan b → deadline_ok nan' b.
Proof. intros Hn Hd i j Hj. destruct (Hd i j Hj) as [|[? ?]]; [by left|right; auto]. Qed.

Lemma deadline_on_job nan i f b :
  deadline_ok nan b →
  (∀ j, b_store b !! i = Some j → deadline_in nan (b_max_deadline b) (f j)) →
  deadline_ok nan (on_job i f b).
Proof.
  intros Hd Hf k j'. rewrite lookup_on_job. change (b_max_deadline (on_job i f b)) with (b_max_deadline b).
  case_decide; [subst k|by apply Hd]. destruct (b_store b !! i) as [j|]; [|done].
  intros [= <-]. by apply Hf.
Qed.
Lemma deadline_new nan j b s :
  deadline_ok nan b → capped (b_max_deadline b) j →
  ∀ k j', ((b_store b ++ [set_state s j])%list) !! k = Some j' → deadline_in nan (b_max_deadline b) j'.
Proof.
  intros Hd Hj k j'. rewrite lookup_new. case_decide; [by intros [= <-]; left|by apply Hd].
Qed.
Lemma deadline_respond nan now event nf b :
  (dget "seconds" nf = Some NaN → nan = true) →
  deadline_ok nan b → deadline_ok nan (bash_respond now event nf b).2.
Proof.
  intros Hnf. apply respond_keeps.
  - intros now0 b0 b' [|j (Hst & _ & _ & _ & _ & Hq) _|j (Hst & _ & _ & _ & _ & Hq) _ _] Hd; [done| |].
    + exact (deadline_new nan j b0 JQueued Hd Hq).
    + unfold deadline_ok. simpl. replace j with (set_state JRunning j); [by apply deadline_new|].
      destruct j; simpl in *; by subst.
  - intros i j b0 Hd Hj _. apply deadline_on_job; [done|]. intros j' Hj'.
    by apply (deadline_in_same _ _ j'), (Hd i).
  - intros i b0 Hd. apply deadline_on_job; [done|]. intros j' Hj'.
    by apply (deadline_in_same _ _ j'), (Hd i).
  - intros i j x b0 Hd Hj Hp Hq Hx. apply deadline_on_job; [done|]. intros j' Hj'.
    rewrite Hj in Hj'. injection Hj' as <-. unfold deadline_in. cbn.
    destruct (Hd i j Hj) as [(d & Hdl & _)|[Hn Hdl]].
    + destruct (extend_capped _ _ _ _ (ex_intro _ d Hdl) Hq Hp) as [(q & Heq & Hle)| ->].
      * left. exists q. by split.
      * right. split; [by apply Hnf, Hx|]. by rewrite Hdl.
    + right. split; [done|]. by rewrite Hdl.
Qed.

Lemma append_meta cap chunk j :
  created_at (_append cap chunk j) = created_at j ∧ deadline_at (_append cap chunk j) = deadline_at j.
Proof. unfold _append. by case_match. Qed.

Lemma deadline_step nan l b b' :
  (nan_extension l = true → nan = true) → deadline_ok nan b → bstep l b = Some b' → deadline_ok nan b'.
Proof.
  intros Hn Hd H. destruct (is_request l) eqn:Hr.
  - destruct l as [now event nf| | | | | | | |]; try done. simpl in H.
    assert (deadline_ok nan (bash_respond now event nf b).2) as Hd'.
    { apply deadline_respond; [|done]. intros E. apply Hn. simpl. by apply bool_decide_eq_true_2. }
    destruct (bash_respond now event nf b) as [[[v|]|] b1]; injection H as <-; try done.
    by destruct (veq_str v "VOID").
  - destruct (bstep_kept l b b' H Hr) as ((Hm & _) & _ & Hk). intros k j' Hj'. rewrite Hm.
    destruct (Hk k j' Hj') as (j & Hj & (_ & Hc & Hdl & _)). specialize (Hd k j Hj).
    eapply deadline_in_same; [exact Hc|exact Hdl|].
    destruct l as [| |i chunk| | | | | |]; try done. destruct (i =? k); [|done].
    destruct (append_meta (b_output_cap b) chunk j) as [Ha Hb]. by eapply deadline_in_same.
Qed.

(** ** Output *)

Fixpoint bruns (ls : list blabel) (b : bash) : option bash :=
  match ls with
  | [] => Some b
  | l :: ls' => match bstep l b with Some b' => bruns ls' b' | None => None end
  end.

(** All a job wrote in a run. *)
Definition output_of (k : nat) (ls : list blabel) : list ascii :=
  concat (map (chunk_of k) ls).

(** The buffer holds the last [cap] bytes, [trimmed] counts those before them. *)
Definition holds_output (cap : nat) (full : list ascii) (j : job) : Prop :=
  j_buffer j = drop (length full - cap) full ∧ j_trimmed j = Z.of_nat (length full - cap).

Lemma append_holds cap full chunk j :
  (0 < cap)%Z → holds_output (Z.to_nat cap) full j →
  holds_output (Z.to_nat cap) (full ++ chunk)%list (_append cap chunk j).
Proof.
  intros Hc [Hb Ht]. unfold _append. rewrite Hb. set (n := Z.to_nat cap).
  assert (Hlen : length (drop (length full - n) full ++ chunk)%list =
                 length full - (length full - n) + length chunk)
    by (rewrite length_app, length_drop; lia).
  assert (Hsuf : drop (length (full ++ chunk)%list - n) (full ++ chunk)%list =
            drop (length (drop (length full - n) full ++ chunk)%list - n)
                 (drop (length full - n) full ++ chunk)%list).
  { rewrite Hlen, length_app.
    rewrite <-(take_drop (length full - n) full) at 2.
    rewrite <-app_assoc, drop_app. rewrite length_take.
    rewrite drop_ge by (rewrite length_take; lia). simpl. f_equal. lia. }
  destruct (Z.ltb_spec cap (Z.of_nat (length (drop (length full - n) full ++ chunk)%list)))
    as [Hlt|Hge]; unfold holds_output; simpl; rewrite Hsuf.
  - split.
    + unfold last_n. destruct (Z.ltb_spec 0 cap); [done|lia].
    + rewrite Ht, Hlen in *. rewrite length_app. unfold n in *. lia.
  - rewrite Hlen in Hge. split.
    + rewrite Hlen. replace (length full - (length full - n) + length chunk - n) with 0; [done|].
      unfold n in *. lia.
    + rewrite Ht, length_app. unfold n in *. lia.
Qed.

Definition outputs_ok (ls : list blabel) (b : bash) : Prop :=
  (∀ k j, b_store b !! k = Some j → holds_output (Z.to_nat (b_output_cap b)) (output_of k ls) j) ∧
  (∀ k, length (b_store b) ≤ k → output_of k ls = []).

Lemma output_snoc k ls l : output_of k (ls ++ [l])%list = (output_of k ls ++ chunk_of k l)%list.
Proof. unfold output_of. rewrite map_app, concat_app. simpl. by rewrite app_nil_r. Qed.

Lemma holds_meta cap full j j' :
  j_buffer j' = j_buffer j → j_trimmed j' = j_trimmed j →
  holds_output cap full j → holds_output cap full j'.
Proof. unfold holds_output. by intros -> ->. Qed.

Lemma outputs_on_job ls i f b :
  (∀ j, j_buffer (f j) = j_buffer j ∧ j_trimmed (f j) = j_trimmed j) →
  outputs_ok ls b → outputs_ok ls (on_job i f b).
Proof.
  intros Hf [H1 H2]. split.
  - intros k j'. rewrite lookup_on_job. change (b_output_cap (on_job i f b)) with (b_output_cap b).
    case_decide; [subst k|by apply H1]. destruct (b_store b !! i) as [j|] eqn:Hj; [|done].
    intros [= <-]. destruct (Hf j). eapply holds_meta; [done|done|by apply H1].
  - intros k. rewrite length_on_job. apply H2.
Qed.
Lemma outputs_new ls b j b' :
  outputs_ok ls b → j_buffer j = [] → j_trimmed j = 0%Z →
  b_store b' = (b_store b ++ [j])%list → b_output_cap b' = b_output_cap b → outputs_ok ls b'.
Proof.
  intros [H1 H2] Hb Ht Hs Hc. split; rewrite Hs, ?Hc.
  - intros k j'. rewrite lookup_new. case_decide as Hk; [|by apply H1]. intros [= <-].
    rewrite (H2 k) by lia. split; [by rewrite drop_nil|done].
  - intros k. rewrite length_app. intros. apply H2. lia.
Qed.
Lemma outputs_respond ls now event nf b :
  outputs_ok ls b → outputs_ok ls (bash_respond now event nf b).2.
Proof.
  apply respond_keeps.
  - intros now0 b0 b' [|j (_ & _ & Hb & Ht & _) _|j (_ & _ & Hb & Ht & _) _ _] Ho; [done| |];
      (eapply outputs_new; [exact Ho| | |reflexivity|reflexivity]; done).
  - intros i j b0 Ho _ _. by apply outputs_on_job.
  - intros i b0 Ho. by apply outputs_on_job.
  - intros i j x b0 Ho _ _ _ _. by apply outputs_on_job.
Qed.

Lemma outputs_step ls l b b' :
  (0 < b_output_cap b)%Z → binv b → outputs_ok ls b → bstep l b = Some b' →
  outputs_ok (ls ++ [l])%list b'.
Proof.
  intros Hc Hb Ho H. destruct (is_request l) eqn:Hr.
  - destruct l as [now event nf| | | | | | | |]; try done. simpl in H.
    assert (outputs_ok ls b') as [H1 H2].
    { pose proof (outputs_respond ls now event nf b Ho) as Ho'.
      destruct (bash_respond now event nf b) as [[[v|]|] b1]; injection H as <-; try done.
      by destruct (veq_str v "VOID"). }
    split; intros k; rewrite output_snoc; simpl; rewrite app_nil_r; auto.
  - destruct (bstep_kept l b b' H Hr) as ((_ & Hcap & _) & Hlen & Hk). destruct Ho as [H1 H2].
    assert (Hno : ∀ k, length (b_store b) ≤ k → chunk_of k l = []).
    { intros k Hlk. destruct l as [| |i chunk| | | | | |]; try done. simpl.
      destruct (Nat.eqb_spec i k) as [<-|]; [|done]. exfalso. simpl in H.
      destruct (drive_of b i) as [d|] eqn:Hd; [|done].
      apply drive_in_pool in Hd as [Hi _]; [|done].
      destruct (bi_jobs b Hb i Hi) as (? & Hx%lookup_lt_Some & _). lia. }
    split; intros k; rewrite output_snoc.
    + intros j' Hj'. rewrite Hcap. destruct (Hk k j' Hj') as (j & Hj & (_ & _ & _ & Hb' & Ht')).
      eapply holds_meta; [exact Hb'|exact Ht'|]. specialize (H1 k j Hj).
      destruct l as [| |i chunk| | | | | |]; simpl; rewrite ?app_nil_r; try done.
      destruct (i =? k); [by apply append_holds|by rewrite app_nil_r].
    + intros Hlk. rewrite Hlen in Hlk. by rewrite H2, Hno.
Qed.

Lemma bstep_config l b b' : bstep l b = Some b' → same_config b b'.
Proof.
  intros H. destruct (is_request l) eqn:Hr; [|by apply (bstep_kept l b b')].
  destruct l as [now event nf| | | | | | | |]; try done. simpl in H.
  assert (same_config b (bash_respond now event nf b).2) as Hc.
  { apply (respond_keeps (same_config b)); try done. by intros now0 b0 b1 []. }
  destruct (bash_respond now event nf b) as [[[v|]|] b1]; injection H as <-; try done.
  by destruct (veq_str v "VOID").
Qed.

Lemma bruns_snoc ls l b b' :
  bruns (ls ++ [l])%list b = Some b' ↔ ∃ b1, bruns ls b = Some b1 ∧ bstep l b1 = Some b'.
Proof.
  revert b. induction ls as [|l0 ls IH]; intros b; simpl.
  - destruct (bstep l b) as [b1|] eqn:E; naive_solver.
  - destruct (bstep l0 b) as [b1|]; [apply IH|naive_solver].
Qed.

(** Everything that holds along a run from the constructed device. *)
Record run_ok (b0 : bash) (ls : list blabel) (b : bash) : Prop := {
  ro_binv : binv b;
  ro_config : same_config b0 b;
  ro_deadline : deadline_ok (existsb nan_extension ls) b;
  ro_output : (0 < b_output_cap b0)%Z → outputs_ok ls b
}.
Lemma bruns_ok mj t d md cap cc cwd b0 ls b :
  BashDevice_init mj t d md cap cc cwd = Ok b0 → bruns ls b0 = Some b → run_ok b0 ls b.
Proof.
  intros Hinit. revert b. induction ls as [|l ls IH] using rev_ind; intros b H.
  - injection H as <-. pose proof (binv_init _ _ _ _ _ _ _ _ Hinit) as Hb.
    unfold BashDevice_init in Hinit. destruct (_ && _); [|done]. injection Hinit as <-.
    by split.
  - apply bruns_snoc in H as (b1 & H1 & Hs). destruct (IH b1 H1) as [Hb Hc Hd Ho].
    pose proof (bstep_config l b1 b Hs) as Hc'. split.
    + by eapply bstep_binv.
    + destruct Hc as (? & ? & ?), Hc' as (? & ? & ?). split_and!; congruence.
    + rewrite existsb_app. simpl. rewrite orb_false_r. eapply deadline_step; [|eapply deadline_ok_nan, Hd|done].
      * intros ->. apply orb_true_r.
      * by intros ->.
    + intros Hcap. eapply outputs_step; [|done|by apply Ho|done].
      destruct Hc as (_ & -> & _). done.
Qed.

(** ** Properties *)


(** C12: a job sends its result exactly once: after any run, of every job that was
    accepted, one result was sent if it is neither in the pool nor queued, and none
    otherwise. *)
Theorem single_result (mj : Z) (t d md : Q) (cap : Z) (cc : nat) (cwd : value) (b0 b : bash)
    (ls : list blabel) (i : nat) (j : job) :
  BashDevice_init mj t d md cap cc cwd = Ok b0 → bruns ls b0 = Some b → job_of b i = Some j →
  n_results i b = if bool_decide (i ∈ b_jobs b) || bool_decide (j_state j = JQueued) then 0 else 1.
Proof.
  intros Hi Hr Hj. destruct (bruns_ok _ _ _ _ _ _ _ _ _ _ Hi Hr) as [Hb _ _ _].
  case_bool_decide as Hp; simpl; [apply (bi_results b Hb); by left|].
  case_bool_decide as Hq; simpl; [apply (bi_results b Hb); right; by exists j|].
  apply (bi_ended b Hb); [by eapply lookup_lt_Some|]. intros [?|(j' & Hj' & ?)]; [done|].
  unfold job_of in Hj. congruence.
Qed.

(** C13: after any run of the device, the deadline of a job is within the device's hard limit
    counted from its creation, whatever was requested and however often it was extended,
    unless an extension by NaN was requested: NaN passes both checks of [_on_extend], and only
    then can a deadline be NaN. *)
Theorem deadline_bounded (mj : Z) (t d md : Q) (cap : Z) (cc : nat) (cwd : value) (b0 b : bash)
    (ls : list blabel) (i : nat) (j : job) :
  BashDevice_init mj t d md cap cc cwd = Ok b0 → bruns ls b0 = Some b → job_of b i = Some j →
  (∃ q, deadline_at j = Fin q ∧ (q - created_at j <= md)%Q) ∨
  (deadline_at j = NaN ∧ Exists (λ l, nan_extension l = true) ls).
Proof.
  intros Hi Hr Hj. destruct (bruns_ok _ _ _ _ _ _ _ _ _ _ Hi Hr) as [_ (Hm & _) Hd _].
  unfold BashDevice_init in Hi. destruct (_ && _); [|done]. injection Hi as <-. simpl in Hm.
  destruct (Hd i j Hj) as [Hc|[Hn ?]]; [left; by rewrite <-Hm|right]. split; [done|].
  apply existsb_exists in Hn as (l & Hl & ?). apply Exists_exists. exists l. split; [|done].
  by apply list_elem_of_In.
Qed.

(** Reading by offset gives the job's output: the device keeps the last [cap] bytes a
    job wrote; a status request with an offset in what is kept answers with the bytes of
    the output from that offset on, at most one chunk, and with the offset to go on from;
    any other offset is answered with a reset to the first byte kept. *)
Theorem status_reads_output (mj : Z) (t d md : Q) (cap : Z) (cc : nat) (cwd : value) (b0 b : bash)
    (ls : list blabel) (i : nat) (j : job) (o : Z) :
  (0 < cap)%Z →
  BashDevice_init mj t d md cap cc cwd = Ok b0 → bruns ls b0 = Some b → job_of b i = Some j →
  let full := output_of i ls in
  let first := Z.of_nat (length full - Z.to_nat cap) in
  read_from (VInt o) j =
  if ((first <=? o) && (o <=? Z.of_nat (length full)))%Z
  then let chunk := take STATUS_CHUNK (drop (Z.to_nat o) full) in
       let next := (o + Z.of_nat (length chunk))%Z in
       (chunk, next, false, (next <? Z.of_nat (length full))%Z)
  else ([], first, true, false).
Proof.
  intros Hcap Hi Hr Hj full first.
  destruct (bruns_ok _ _ _ _ _ _ _ _ _ _ Hi Hr) as [_ (_ & Hc & _) _ Ho].
  unfold BashDevice_init in Hi. destruct (_ && _); [|done]. injection Hi as <-. simpl in Hc, Ho.
  destruct (Ho Hcap) as [Hout _]. destruct (Hout i j Hj) as [Hbuf Htr]. rewrite Hc in Hbuf, Htr.
  fold full in Hbuf, Htr. fold first in Htr. unfold read_from. cbn [as_int].
  rewrite Htr, Hbuf, length_drop.
  assert ((first + Z.of_nat (length full - (length full - Z.to_nat cap)))%Z =
          Z.of_nat (length full)) as -> by (unfold first; lia).
  destruct (Z.leb_spec first o), (Z.leb_spec o (Z.of_nat (length full)));
    destruct (Z.ltb_spec o first), (Z.ltb_spec (Z.of_nat (length full)) o); try lia; try done.
  simpl. rewrite drop_drop.
  replace (length full - Z.to_nat cap + Z.to_nat (o - first)) with (Z.to_nat o)
    by (unfold first in *; lia). done.
Qed.

(** The job a control request names. *)
Definition names_job (b : bash) (id : value) (i : nat) (j : job) : Prop :=
  (i ∈ b_jobs b ∨ i ∈ b_completed b) ∧ job_of b i = Some j ∧ veq_str id (job_id j) = true.

Lemma find_owned_none d p id s b :
  dget "payload" d = Some (VDict p) → dget "job_id" p = Some id → hashable id = true →
  dget "source" d = Some (VStr s) →
  (∀ i j, names_job b id i j → j_source j ≠ s) →
  _find_owned (VDict d) b = (Ok None, b).
Proof.
  intros Hp Hid Hh Hs Hn. unfold _find_owned. f_equal. cbn [py_index]. rewrite Hp.
  cbn [mbind res_bind].
  assert (py_get (VDict p) "job_id" = Ok id) as -> by (rewrite py_get_dict, Hid; done).
  cbn [mbind res_bind].
  assert (∃ x, py_in id [] = Ok x) as [x ->] by (unfold py_in; rewrite Hh; eauto).
  cbn [mbind res_bind py_index]. rewrite Hs. cbn [mbind res_bind]. f_equal.
  assert (Hno : ∀ i, (i ∈ b_jobs b ∨ i ∈ b_completed b) →
            match job_of b i with Some j => veq_str id (job_id j) | None => false end = true →
            match job_of b i with
            | Some j => if veq_str (VStr s) (j_source j) then Some i else None
            | None => None end = None).
  { intros i Hi Hm. destruct (job_of b i) as [j|] eqn:Hj; [|done]. specialize (Hn i j).
    simpl. case_bool_decide; [|done]. exfalso. apply Hn; [by split|done]. }
  destruct (List.find _ (b_jobs b)) as [i|] eqn:F1.
  - apply List.find_some in F1 as [Hin Hm]. apply Hno; [left; by apply list_elem_of_In|done].
  - destruct (List.find _ (b_completed b)) as [i|] eqn:F2; [|done].
    apply List.find_some in F2 as [Hin Hm]. apply Hno; [right; by apply list_elem_of_In|done].
Qed.

Definition CONTROL : list string := ["bash_kill"; "bash_extend"; "bash_status"].

(** A control request on a job of another source is refused: whatever it names and
    asks for, the answer is an error addressed to its source and the device is unchanged. *)
Theorem foreign_control_refused (now : Q) (nf : dict pyfloat) (d p : dict value) (id : value) (c s : string) (b : bash) :
  dget "payload" d = Some (VDict p) → dget "source" d = Some (VStr s) →
  dget "command" p = Some (VStr c) → c ∈ CONTROL →
  dget "job_id" p = Some id → hashable id = true →
  (∀ i j, names_job b id i j → j_source j ≠ s) →
  ∃ v, bash_respond now (VDict d) nf b = (Ok (Some v), b) ∧
       _error (VDict d) "未知 job 或无权访问" = Ok v.
Proof.
  intros Hp Hs Hc Hin Hid Hh Hn.
  assert (∃ v, _error (VDict d) "未知 job 或无权访问" = Ok v) as [v Hv].
  { unfold _error. cbn [py_index]. rewrite Hs. cbn [mbind res_bind]. rewrite Hp.
    cbn [mbind res_bind]. by eexists. }
  exists v. split; [|done]. unfold bash_respond. rewrite run_bind. unfold lift at 1. cbn [py_index].
  rewrite Hp. rewrite run_bind.
  assert (py_get (VDict p) "command" = Ok (VStr c)) as -> by (rewrite py_get_dict, Hc; done).
  unfold lift at 1.
  rewrite run_bind. cbn [lift py_in hashable].
  pose proof (find_owned_none d p id s b Hp Hid Hh Hs Hn) as Hf.
  assert (Href : refuse (VDict d) "未知 job 或无权访问" b = (Ok (Some v), b)).
  { unfold refuse. rewrite run_bind, Hv. done. }
  assert (Hw : ∀ f, with_running (VDict d) f b = (Ok (Some v), b)).
  { intros f. unfold with_running. by rewrite run_bind, Hf. }
  unfold CONTROL in Hin. rewrite !elem_of_cons in Hin. destruct Hin as [->|[->|[->|H]]]; simpl.
  - apply Hw.
  - apply Hw.
  - unfold _on_status. by rewrite run_bind, Hf.
  - by apply elem_of_nil in H.
Qed.

(** ** Runs *)

Definition example_device : bash :=
  mkBash 2 30 60 300 4 64 VNone [] [] [] [] [] [] [] [].
Lemma example_device_ok : BashDevice_init 2 30 60 300 4 64 VNone = Ok example_device.
Proof. vm_compute. reflexivity. Qed.

Definition request (source command : string) (fields : dict value) : value :=
  mk_event source "bash" "application" (VDict (("command", VStr command) :: fields)).
Definition bytes (s : string) : list ascii := String.list_ascii_of_string s.

(** A job writes and goes to the background; a second one of its source is queued. *)
Definition example_run : list blabel :=
  [BEvent 0 (request "a" "bash_run" [("cmd", VStr "printf 'hello world'")]) [];
   BSpawn 0 0 None; BRead 0 (bytes "hello "); BRead 0 (bytes "world"); BTimeout 0;
   BEvent 1 (request "a" "bash_run" [("cmd", VStr "true")]) []].
Definition example_state : bash :=
  match bruns example_run example_device with Some b => b | None => example_device end.
Lemma example_run_ok : bruns example_run example_device = Some example_state.
Proof. vm_compute. reflexivity. Qed.
Definition example_job (i : nat) : job :=
  match job_of example_state i with
  | Some j => j
  | None => Job_init "" "" VNone "" VNone 0 NaN NaN
  end.


Lemma single_result_witness : n_results 0 example_state = 0 ∧ n_results 1 example_state = 0.
Proof.
  split.
  - rewrite (single_result 2 30 60 300 4 64 VNone example_device example_state example_run 0
               (example_job 0) example_device_ok example_run_ok); vm_compute; reflexivity.
  - rewrite (single_result 2 30 60 300 4 64 VNone example_device example_state example_run 1
               (example_job 1) example_device_ok example_run_ok); vm_compute; reflexivity.
Defined.

Lemma deadline_bounded_witness :
  ∃ q, deadline_at (example_job 0) = Fin q ∧ (q - created_at (example_job 0) <= 300)%Q.
Proof.
  destruct (deadline_bounded 2 30 60 300 4 64 VNone example_device example_state example_run 0
           (example_job 0) example_device_ok example_run_ok) as [H|[H _]];
    [vm_compute; reflexivity|exact H|]. vm_compute in H. discriminate H.
Defined.

(** An extension by NaN is accepted, and the watch of the job never finds it due. *)
Lemma nan_extension_uncaps :
  ∃ b j, bruns (example_run ++ [BEvent 2 (request "a" "bash_extend" [("job_id", VStr "j0")])
                                      [("seconds", NaN)]]) example_device = Some b ∧
         job_of b 0 = Some j ∧ deadline_at j = NaN ∧ ∀ now, _deadline_watch 0 now b = None.
Proof. eexists _, _. split_and!; [vm_compute; reflexivity|reflexivity|reflexivity|done]. Qed.

Lemma status_reads_output_witness :
  read_from (VInt 8) (example_job 0) = (bytes "rld", 11%Z, false, false).
Proof.
  rewrite (status_reads_output 2 30 60 300 4 64 VNone example_device example_state example_run 0
             (example_job 0) 8 eq_refl example_device_ok example_run_ok);
    vm_compute; reflexivity.
Defined.

Lemma foreign_control_refused_witness :
  ∃ v, bash_respond 2 (request "b" "bash_kill" [("job_id", VStr "j0")]) [] example_state =
       (Ok (Some v), example_state).
Proof.
  destruct (foreign_control_refused 2 []
    [("source", VStr "b"); ("target", VStr "bash"); ("kind", VStr "application");
     ("payload", VDict [("command", VStr "bash_kill"); ("job_id", VStr "j0")])]
    [("command", VStr "bash_kill"); ("job_id", VStr "j0")] (VStr "j0") "bash_kill" "b" example_state)
    as (v & Hv & _).
  - reflexivity.
  - reflexivity.
  - reflexivity.
  - left.
  - reflexivity.
  - reflexivity.
  - intros i j (_ & Hj & _) He. destruct i as [|[|i]].
    + vm_compute in Hj. injection Hj as <-. discriminate He.
    + vm_compute in Hj. injection Hj as <-. discriminate He.
    + vm_compute in Hj. discriminate Hj.
  - exists v. exact Hv.
Defined.

(** The subprocess of the only job cannot be created. *)
Definition failed_run : list blabel :=
  [BEvent 0 (request "a" "bash_run" [("cmd", VStr "true"); ("cwd", VStr "/nowhere")]) [];
   BSpawn 0 1 (Some (SpawnOSError "No such file or directory"))].
Definition failed_test (b : bash) : bool :=
  (n_results 0 b =? 1) && bool_decide (b_jobs b = []) &&
  match job_of b 0 with Some j => bool_decide (j_state j = JRunning) | None => false end &&
  match (bash_respond 2 (request "a" "bash_kill" [("job_id", VStr "j0")]) [] b).1 with
  | Raise (Exn AttributeError _) => true
  | _ => false
  end.

(** A job whose subprocess could not be created has sent its result and left the
    pool, but is kept as running, so that its owner's kill request, instead of being told
    that the job has ended, raises in the handler. *)
Theorem kill_unstarted_raises :
  ∃ b j msg, bruns failed_run example_device = Some b ∧ n_results 0 b = 1 ∧ b_jobs b = [] ∧
    job_of b 0 = Some j ∧ j_state j = JRunning ∧
    (bash_respond 2 (request "a" "bash_kill" [("job_id", VStr "j0")]) [] b).1 =
    Raise (Exn AttributeError msg).
Proof.
  assert (match bruns failed_run example_device with Some b => failed_test b | None => false end
          = true) as H by (vm_compute; reflexivity).
  destruct (bruns failed_run example_device) as [b|]; [|discriminate H].
  unfold failed_test in H. apply andb_true_iff in H as [H H4].
  apply andb_true_iff in H as [H H3]. apply andb_true_iff in H as [H1%Nat.eqb_eq H2%bool_decide_eq_true].
  destruct (job_of b 0) as [j|] eqn:Hj; [|discriminate H3]. apply bool_decide_eq_true in H3.
  exists b, j. destruct (bash_respond _ _ _ b).1 as [|[[] msg]]; try discriminate H4.
  exists msg. by split_and!.
Qed.

(** A null character in the command makes the creation raise [ValueError]: the job is never
    answered, keeps its place in the pool and holds back the later jobs of its source; not
    even the deadline ends it. *)
Lemma uncaught_spawn_leaks :
  ∃ b, bruns [BEvent 0 (request "a" "bash_run" [("cmd", VStr "true")]) [];
              BSpawn 0 0 (Some SpawnUncaught); BWatch 0 100;
              BEvent 101 (request "a" "bash_run" [("cmd", VStr "true")]) []] example_device = Some b ∧
       b_jobs b = [0] ∧ queue_of "a" b = [1] ∧ b_out b = [] ∧
       ∀ l b', bstep l b = Some b' → is_request l = false → b_jobs b' = [0] ∧ n_results 0 b' = 0.
Proof.
  eexists. split_and!; [vm_compute; reflexivity|reflexivity..|].
  intros l b' H Hr. destruct l as [|i|i|i|i|i|i|i|i]; try done; simpl in H;
    (destruct i as [|[|i]]; simpl in H; try discriminate H;
     try (injection H as <-; by vm_compute)).
  cbv [_deadline_watch] in H. simpl in H. destruct (negb _); [done|].
  injection H as <-. by vm_compute.
Qed.
