(* ===== verification/Json.v ===== *)
(** * JSON text

    [json.loads] and [json.dumps] of the Python standard library, on UTF-8 strings.  A
    number with a fraction or an exponent denotes its rational value; NaN and the
    infinities, which [Q] does not have, are refused.  Lone surrogates are kept in their
    three-byte form. *)

From stdpp Require Import base gmap strings list pretty.
From Stdlib Require Import ZArith QArith Ascii.
From S2P Require Import Prelude PyValue.

Local Open Scope string_scope.
Local Open Scope nat_scope.

(** ** Code points *)

Definition chr (n : Z) : ascii := ascii_of_N (Z.to_N n).
Definition ord (c : ascii) : Z := Z.of_N (N_of_ascii c).
Definition char_str (n : Z) : string := String (chr n) EmptyString.

(** The UTF-8 bytes of a code point. *)
Definition utf8_encode (c : Z) : string :=
  (if c <? 128 then char_str c
   else if c <? 2048 then char_str (192 + c / 64) +:+ char_str (128 + c mod 64)
   else if c <? 65536
   then char_str (224 + c / 4096) +:+ char_str (128 + c / 64 mod 64) +:+ char_str (128 + c mod 64)
   else char_str (240 + c / 262144) +:+ char_str (128 + c / 4096 mod 64) +:+
        char_str (128 + c / 64 mod 64) +:+ char_str (128 + c mod 64))%Z.

(** The code point of the bytes of one character. *)
Definition code_point (s : string) : Z :=
  (match s with
   | String a EmptyString => ord a
   | String a (String b EmptyString) => (ord a - 192) * 64 + (ord b - 128)
   | String a (String b (String c EmptyString)) =>
       (ord a - 224) * 4096 + (ord b - 128) * 64 + (ord c - 128)
   | String a (String b (String c (String d EmptyString))) =>
       (ord a - 240) * 262144 + (ord b - 128) * 4096 + (ord c - 128) * 64 + (ord d - 128)
   | _ => 65533
   end)%Z.

(** ** Printing: [dumps(v)] *)

Definition hex1 (n : Z) : string := char_str (if (n <? 10)%Z then 48 + n else 87 + n).
Definition hex4 (n : Z) : string :=
  hex1 (n / 4096 mod 16) +:+ hex1 (n / 256 mod 16) +:+ hex1 (n / 16 mod 16) +:+ hex1 (n mod 16).

Definition escape_char (c : string) : string :=
  let n := code_point c in
  (if n =? 34 then char_str 92 +:+ char_str 34
   else if n =? 92 then char_str 92 +:+ char_str 92
   else if n =? 10 then "\n" else if n =? 13 then "\r" else if n =? 9 then "\t"
   else if n =? 12 then "\f" else if n =? 8 then "\b"
   else if (32 <=? n) && (n <=? 126) then c
   else if n <? 65536 then "\u" +:+ hex4 n
   else "\u" +:+ hex4 (55296 + (n - 65536) / 1024) +:+ "\u" +:+ hex4 (56320 + (n - 65536) mod 1024))%Z.

Definition dumps_str (s : string) : string :=
  char_str 34 +:+ fold_right String.append "" (map escape_char (utf8_chars s)) +:+ char_str 34.

Fixpoint dumps (v : value) : string :=
  match v with
  | VNone => "null"
  | VBool true => "true"
  | VBool false => "false"
  | VInt z => pretty z
  | VFloat q => repr (VFloat q)
  | VStr s => dumps_str s
  | VList l => "[" +:+ str_join ", " (map dumps l) +:+ "]"
  | VDict d => "{" +:+ str_join ", " (map (λ kv, dumps_str kv.1 +:+ ": " +:+ dumps kv.2) d) +:+ "}"
  end.

(** ** Parsing: [loads(s)] *)

Fixpoint skip_ws (s : string) : string :=
  match s with
  | String c s' =>
      let n := ord c in
      if ((n =? 32) || (n =? 9) || (n =? 10) || (n =? 13))%Z then skip_ws s' else s
  | EmptyString => s
  end.

Definition hex_val (c : ascii) : option Z :=
  let n := ord c in
  (if (48 <=? n) && (n <=? 57) then Some (n - 48)
   else if (97 <=? n) && (n <=? 102) then Some (n - 87)
   else if (65 <=? n) && (n <=? 70) then Some (n - 55)
   else None)%Z.
Definition parse_hex4 (s : string) : option (Z * string) :=
  match s with
  | String a (String b (String c (String d s'))) =>
      match hex_val a, hex_val b, hex_val c, hex_val d with
      | Some a, Some b, Some c, Some d => Some ((a * 4096 + b * 256 + c * 16 + d)%Z, s')
      | _, _, _, _ => None
      end
  | _ => None
  end.

(** After [\u]: a high surrogate joins with a low one that follows. *)
Definition parse_unicode (s : string) : option (string * string) :=
  match parse_hex4 s with
  | None => None
  | Some (n, s') =>
      if ((55296 <=? n) && (n <=? 56319))%Z then
        match s' with
        | String b (String u s'') =>
            if ((ord b =? 92) && (ord u =? 117))%Z then
              match parse_hex4 s'' with
              | None => None
              | Some (m, s3) =>
                  if ((56320 <=? m) && (m <=? 57343))%Z
                  then Some (utf8_encode (65536 + (n - 55296) * 1024 + (m - 56320)), s3)
                  else Some (utf8_encode n, s')
              end
            else Some (utf8_encode n, s')
        | _ => Some (utf8_encode n, s')
        end
      else Some (utf8_encode n, s')
  end.

(** The rest of a string literal, after its opening quote. *)
Fixpoint parse_str (fuel : nat) (s : string) : option (string * string) :=
  match fuel, s with
  | S f, String c s' =>
      let n := ord c in
      if (n =? 34)%Z then Some (EmptyString, s')
      else if (n <? 32)%Z then None
      else if (n =? 92)%Z then
        match s' with
        | String e s'' =>
            let simple x := match parse_str f s'' with
                            | Some (t, r) => Some (char_str x +:+ t, r)
                            | None => None
                            end in
            let m := ord e in
            (if m =? 34 then simple 34 else if m =? 92 then simple 92 else if m =? 47 then simple 47
             else if m =? 98 then simple 8 else if m =? 102 then simple 12
             else if m =? 110 then simple 10 else if m =? 114 then simple 13
             else if m =? 116 then simple 9
             else if m =? 117 then
               match parse_unicode s'' with
               | Some (x, r) => match parse_str f r with
                                | Some (t, r') => Some (x +:+ t, r')
                                | None => None
                                end
               | None => None
               end
             else None)%Z
        | EmptyString => None
        end
      else match parse_str f s' with
           | Some (t, r) => Some (String c t, r)
           | None => None
           end
  | _, _ => None
  end.

(** *** Numbers *)

Definition digit (c : ascii) : option Z :=
  let n := ord c in if ((48 <=? n) && (n <=? 57))%Z then Some (n - 48)%Z else None.
(** The digits at the front: their value, how many, the rest. *)
Fixpoint digits (acc : Z) (k : nat) (s : string) : Z * nat * string :=
  match s with
  | String c s' => match digit c with
                   | Some d => digits (acc * 10 + d)%Z (S k) s'
                   | None => (acc, k, s)
                   end
  | EmptyString => (acc, k, s)
  end.
Definition starts_with (n : Z) (s : string) : bool :=
  match s with String c _ => (ord c =? n)%Z | EmptyString => false end.
Definition str_tail (s : string) : string := match s with String _ s' => s' | EmptyString => s end.

(** [e] or [E], a sign, digits *)
Definition parse_exp (s : string) : option (Z * string) :=
  if starts_with 101 s || starts_with 69 s then
    let s1 := str_tail s in
    let '(neg, s2) := if starts_with 45 s1 then (true, str_tail s1)
                      else if starts_with 43 s1 then (false, str_tail s1) else (false, s1) in
    match digits 0 0 s2 with
    | (_, O, _) => None
    | (n, _, r) => Some (if neg then (- n)%Z else n, r)
    end
  else None.
Definition pow10 (e : Z) : Q :=
  if (0 <=? e)%Z then inject_Z (10 ^ e) else (1 # Z.to_pos (10 ^ (- e))).

Definition parse_number (s : string) : option (value * string) :=
  let '(neg, s1) := if starts_with 45 s then (true, str_tail s) else (false, s) in
  let sign z := if neg : bool then (- z)%Z else z in
  match (if starts_with 48 s1 then (0%Z, 1, str_tail s1) else digits 0 0 s1) with
  | (_, O, _) => None
  | (n, _, r) =>
      let '(m, fd, r1) :=
        if starts_with 46 r then match digits n 0 (str_tail r) with
                                 | (_, O, _) => (n, 0, r)
                                 | (m, k, r') => (m, k, r')
                                 end
        else (n, 0, r) in
      match parse_exp r1, fd with
      | Some (e, r2), _ => Some (VFloat (inject_Z (sign m) * pow10 (e - Z.of_nat fd))%Q, r2)
      | None, S _ => Some (VFloat (inject_Z (sign m) * pow10 (- Z.of_nat fd))%Q, r1)
      | None, O => Some (VInt (sign m), r1)
      end
  end.

(** *** Values *)

Definition literal (lit : string) (v : value) (s : string) : option (value * string) :=
  if String.prefix lit s
  then Some (v, String.substring (String.length lit) (String.length s - String.length lit) s)
  else None.

Fixpoint parse_value (fuel : nat) (s : string) : option (value * string) :=
  match fuel with
  | O => None
  | S f =>
      match s with
      | EmptyString => None
      | String c s' =>
          (if ord c =? 34 then match parse_str (S (String.length s')) s' with
                               | Some (t, r) => Some (VStr t, r)
                               | None => None
                               end
           else if ord c =? 123 then
             let s1 := skip_ws s' in
             if starts_with 125 s1 then Some (VDict [], str_tail s1) else parse_members f [] s1
           else if ord c =? 91 then
             let s1 := skip_ws s' in
             if starts_with 93 s1 then Some (VList [], str_tail s1) else parse_elements f [] s1
           else if ord c =? 110 then literal "null" VNone s
           else if ord c =? 116 then literal "true" (VBool true) s
           else if ord c =? 102 then literal "false" (VBool false) s
           else parse_number s)%Z
      end
  end
with parse_elements (fuel : nat) (acc : list value) (s : string) : option (value * string) :=
  match fuel with
  | O => None
  | S f =>
      match parse_value f s with
      | None => None
      | Some (v, r) =>
          let r := skip_ws r in
          if starts_with 44 r then parse_elements f (acc ++ [v])%list (skip_ws (str_tail r))
          else if starts_with 93 r then Some (VList (acc ++ [v])%list, str_tail r)
          else None
      end
  end
with parse_members (fuel : nat) (acc : dict value) (s : string) : option (value * string) :=
  match fuel with
  | O => None
  | S f =>
      if starts_with 34 s then
        match parse_str (String.length s) (str_tail s) with
        | None => None
        | Some (k, r) =>
            let r := skip_ws r in
            if starts_with 58 r then
              match parse_value f (skip_ws (str_tail r)) with
              | None => None
              | Some (v, r2) =>
                  let r2 := skip_ws r2 in
                  if starts_with 44 r2
                  then parse_members f (dset k v acc) (skip_ws (str_tail r2))
                  else if starts_with 125 r2 then Some (VDict (dset k v acc), str_tail r2)
                  else None
              end
            else None
        end
      else None
  end.

(** Every call but the outermost follows a character, so twice the length is enough. *)
Definition loads (s : string) : option value :=
  match parse_value (S (2 * String.length s)) (skip_ws s) with
  | Some (v, r) => match skip_ws r with EmptyString => Some v | _ => None end
  | None => None
  end.

(** ** Samples *)

Example loads_nested :
  loads (dumps (VDict [("a", VList [VInt (-12); VBool true; VNone]);
                       ("键", VStr ("q" +:+ char_str 34 +:+ "😀" +:+ char_str 10))])) =
  Some (VDict [("a", VList [VInt (-12); VBool true; VNone]);
               ("键", VStr ("q" +:+ char_str 34 +:+ "😀" +:+ char_str 10))]).
Proof. vm_compute. reflexivity. Qed.
Example loads_float : loads " 1.25e1 " = Some (VFloat (125 # 10)).
Proof. vm_compute. reflexivity. Qed.
Example loads_extra : loads "{} x" = None ∧ loads "[1,]" = None ∧ loads "01" = None.
Proof. vm_compute. done. Qed.
