(* ===== verification/JsonRound.v ===== *)
(** * JSON text is read back

    [loads (dumps v)] is [v] for every value without floats whose texts are UTF-8 and whose dicts
    have distinct keys.  What the program stores as JSON and reads again rests on it. *)

From stdpp Require Import base strings list sets pretty.
From Stdlib Require Import ZArith Ascii Lia.
From S2P Require Import Prelude PyValue Json.

Local Open Scope string_scope.
Local Open Scope Z_scope.

(** ** Values that JSON carries *)

Definition scalar (n : Z) : bool :=
  (0 <=? n) && (n <? 1114112) && negb ((55296 <=? n) && (n <=? 57343)).
Definition valid_char (c : string) : bool :=
  scalar (code_point c) && bool_decide (utf8_encode (code_point c) = c).
Definition valid_text (s : string) : bool := forallb valid_char (utf8_chars s).

Fixpoint json_ok (v : value) : bool :=
  match v with
  | VNone | VBool _ | VInt _ => true
  | VFloat _ => false
  | VStr s => valid_text s
  | VList l => forallb json_ok l
  | VDict d => bool_decide (NoDup (map fst d)) && forallb (λ kv, valid_text kv.1 && json_ok kv.2) d
  end.

(** ** Strings *)

Definition cat (l : list string) : string := fold_right String.append "" l.
Lemma cat_chars s : cat (utf8_chars s) = s.
Proof.
  induction s as [|c s IH]; [done|]. cbn [utf8_chars]. destruct (utf8_chars s) as [|x r] eqn:E.
  - cbn in *. by subst.
  - destruct (starts_cont s); cbn in *; by rewrite <-IH.
Qed.

Lemma ord_chr n : 0 ≤ n < 256 → ord (chr n) = n.
Proof. intros H. unfold ord, chr. rewrite N_ascii_embedding; lia. Qed.
Lemma chr_ord c : chr (ord c) = c.
Proof. unfold ord, chr. rewrite N2Z.id. apply ascii_N_embedding. Qed.

Lemma hex1_val n : 0 ≤ n < 16 → ∃ c, hex1 n = String c "" ∧ hex_val c = Some n.
Proof.
  intros H. unfold hex1, char_str. eexists. split; [done|]. unfold hex_val.
  assert (Hn : n = 0 ∨ n = 1 ∨ n = 2 ∨ n = 3 ∨ n = 4 ∨ n = 5 ∨ n = 6 ∨ n = 7 ∨ n = 8 ∨ n = 9 ∨ n = 10 ∨
               n = 11 ∨ n = 12 ∨ n = 13 ∨ n = 14 ∨ n = 15) by lia.
  by repeat (destruct Hn as [->|Hn]; [reflexivity|]); subst.
Qed.
Lemma parse_hex4_hex4 n r : 0 ≤ n < 65536 → parse_hex4 (hex4 n +:+ r) = Some (n, r).
Proof.
  intros H. unfold hex4.
  destruct (hex1_val (n / 4096 mod 16)) as (a & -> & Ha); [apply Z.mod_pos_bound; lia|].
  destruct (hex1_val (n / 256 mod 16)) as (b & -> & Hb); [apply Z.mod_pos_bound; lia|].
  destruct (hex1_val (n / 16 mod 16)) as (c & -> & Hc); [apply Z.mod_pos_bound; lia|].
  destruct (hex1_val (n mod 16)) as (d & -> & Hd); [apply Z.mod_pos_bound; lia|].
  change (parse_hex4 _) with
    (match hex_val a, hex_val b, hex_val c, hex_val d with
     | Some a, Some b, Some c, Some d => Some ((a * 4096 + b * 256 + c * 16 + d)%Z, r)
     | _, _, _, _ => None
     end).
  rewrite Ha, Hb, Hc, Hd. f_equal. f_equal.
  assert (n / 4096 mod 16 = n / 4096) as -> by (apply Z.mod_small; split; [apply Z.div_pos; lia|apply Z.div_lt_upper_bound; lia]).
  replace (n / 4096) with (n / 256 / 16) by (rewrite Z.div_div by lia; done).
  replace (n / 256) with (n / 16 / 16) by (rewrite Z.div_div by lia; done).
  pose proof (Z.div_mod (n / 16 / 16) 16 ltac:(lia)). pose proof (Z.div_mod (n / 16) 16 ltac:(lia)).
  pose proof (Z.div_mod n 16 ltac:(lia)). lia.
Qed.
Lemma utf8_encode_small n : 0 ≤ n < 128 → utf8_encode n = String (chr n) "".
Proof. intros H. unfold utf8_encode. by rewrite (proj2 (Z.ltb_lt n 128)) by lia. Qed.

Definition prepend (x : string) (o : option (string * string)) : option (string * string) :=
  match o with Some (t, r) => Some (x +:+ t, r) | None => None end.
Lemma parse_str_quote f r : parse_str (S f) (String (chr 34) r) = Some ("", r).
Proof. reflexivity. Qed.
Lemma parse_str_plain f c r : 32 ≤ ord c → ord c ≠ 34 → ord c ≠ 92 →
  parse_str (S f) (String c r) = prepend (String c "") (parse_str f r).
Proof.
  intros H1 H2 H3. cbn [parse_str]. rewrite (proj2 (Z.eqb_neq (ord c) 34)), (proj2 (Z.ltb_ge (ord c) 32)),
    (proj2 (Z.eqb_neq (ord c) 92)) by done. by destruct (parse_str f r) as [[]|].
Qed.
(** The letter of an escape, and what it stands for. *)
Definition escape_of (e x : Z) : Prop :=
  (e, x) ∈ [(34, 34); (92, 92); (98, 8); (102, 12); (110, 10); (114, 13); (116, 9)].
Lemma parse_str_simple f e x r : escape_of e x →
  parse_str (S f) (String (chr 92) (String (chr e) r)) = prepend (char_str x) (parse_str f r).
Proof.
  unfold escape_of. intros H. repeat (apply elem_of_cons in H as [[= -> ->]|H]; [reflexivity|]). by apply elem_of_nil in H.
Qed.
Lemma parse_str_u f x r r1 : parse_unicode r = Some (x, r1) →
  parse_str (S f) (String (chr 92) (String (chr 117) r)) = prepend x (parse_str f r1).
Proof.
  intros H. transitivity (match parse_unicode r with
                          | Some (x, r) => match parse_str f r with Some (t, r') => Some (x +:+ t, r') | None => None end
                          | None => None end); [reflexivity|]. by rewrite H.
Qed.
Lemma parse_unicode_bmp n r : 0 ≤ n < 65536 → ¬ (55296 ≤ n ≤ 57343) →
  parse_unicode (hex4 n +:+ r) = Some (utf8_encode n, r).
Proof.
  intros Hn Hs. unfold parse_unicode. rewrite parse_hex4_hex4 by done.
  destruct (Z.leb_spec 55296 n), (Z.leb_spec n 56319); try done. lia.
Qed.
Lemma parse_unicode_pair n r : 65536 ≤ n < 1114112 →
  parse_unicode (hex4 (55296 + (n - 65536) / 1024) +:+
                 String (chr 92) (String (chr 117) (hex4 (56320 + (n - 65536) mod 1024) +:+ r))) =
    Some (utf8_encode n, r).
Proof.
  intros Hn. pose proof (Z.mod_pos_bound (n - 65536) 1024 ltac:(lia)).
  assert (0 ≤ (n - 65536) / 1024 < 1024) by (split; [apply Z.div_pos; lia|apply Z.div_lt_upper_bound; lia]).
  unfold parse_unicode. rewrite parse_hex4_hex4 by lia.
  rewrite (proj2 (Z.leb_le 55296 _)), (proj2 (Z.leb_le _ 56319)) by lia. cbn [andb].
  change ((ord (chr 92) =? 92) && (ord (chr 117) =? 117)) with true. cbv iota.
  rewrite parse_hex4_hex4 by lia. rewrite (proj2 (Z.leb_le 56320 _)), (proj2 (Z.leb_le _ 57343)) by lia. cbn [andb].
  do 3 f_equal. pose proof (Z.div_mod (n - 65536) 1024 ltac:(lia)). lia.
Qed.

(** One character of a string literal. *)
Lemma parse_str_char f c r : valid_char c = true →
  parse_str (S f) (escape_char c +:+ r) = prepend c (parse_str f r).
Proof.
  unfold valid_char, scalar. intros [Hs Hc%bool_decide_eq_true]%andb_true_iff. unfold escape_char.
  set (n := code_point c) in *.
  apply andb_true_iff in Hs as [[Hlo%Z.leb_le Hhi%Z.ltb_lt]%andb_true_iff Hsur%negb_true_iff].
  assert (Hsur' : ¬ (55296 ≤ n ≤ 57343)).
  { intros [H1%Z.leb_le H2%Z.leb_le]. by rewrite H1, H2 in Hsur. }
  assert (Hesc : ∀ e, escape_of e n → n < 128 →
    parse_str (S f) (String (chr 92) (String (chr e) r)) = prepend c (parse_str f r)).
  { intros e He Hn. rewrite (parse_str_simple f e n) by done. by rewrite <-Hc, utf8_encode_small by lia. }
  destruct (Z.eqb_spec n 34) as [Hn|]; [apply Hesc; [rewrite Hn; unfold escape_of; set_solver|lia]|].
  destruct (Z.eqb_spec n 92) as [Hn|]; [apply Hesc; [rewrite Hn; unfold escape_of; set_solver|lia]|].
  destruct (Z.eqb_spec n 10) as [Hn|]; [apply (Hesc 110); [rewrite Hn; unfold escape_of; set_solver|lia]|].
  destruct (Z.eqb_spec n 13) as [Hn|]; [apply (Hesc 114); [rewrite Hn; unfold escape_of; set_solver|lia]|].
  destruct (Z.eqb_spec n 9) as [Hn|]; [apply (Hesc 116); [rewrite Hn; unfold escape_of; set_solver|lia]|].
  destruct (Z.eqb_spec n 12) as [Hn|]; [apply (Hesc 102); [rewrite Hn; unfold escape_of; set_solver|lia]|].
  destruct (Z.eqb_spec n 8) as [Hn|]; [apply (Hesc 98); [rewrite Hn; unfold escape_of; set_solver|lia]|].
  destruct ((32 <=? n) && (n <=? 126)) eqn:Hp.
  { apply andb_true_iff in Hp as [H1%Z.leb_le H2%Z.leb_le]. rewrite utf8_encode_small in Hc by lia. rewrite <-Hc.
    change (String (chr n) "" +:+ r) with (String (chr n) r). apply parse_str_plain; rewrite ord_chr by lia; lia. }
  destruct (Z.ltb_spec n 65536).
  - change (("\u" +:+ hex4 n) +:+ r) with (String (chr 92) (String (chr 117) (hex4 n +:+ r))).
    rewrite (parse_str_u _ (utf8_encode n) _ r) by (apply parse_unicode_bmp; lia). by rewrite Hc.
  - rewrite !str_app_assoc.
    set (hi := hex4 _). set (lo := hex4 _).
    change ("\u" +:+ hi +:+ "\u" +:+ lo +:+ r) with
      (String (chr 92) (String (chr 117) (hi +:+ String (chr 92) (String (chr 117) (lo +:+ r))))).
    rewrite (parse_str_u _ (utf8_encode n) _ r) by (apply parse_unicode_pair; lia). by rewrite Hc.
Qed.

Lemma parse_str_body cs f r : Forall (λ c, valid_char c = true) cs → (length cs < f)%nat →
  parse_str f (cat (map escape_char cs) +:+ String (chr 34) r) = Some (cat cs, r).
Proof.
  intros H. revert f. induction H as [|c cs Hc _ IH]; intros [|f] Hf; cbn in Hf; try lia.
  - cbn [map cat fold_right]. change ("" +:+ String (chr 34) r) with (String (chr 34) r). apply parse_str_quote.
  - cbn [map]. unfold cat. cbn [fold_right]. fold (cat (map escape_char cs)). fold (cat cs).
    rewrite str_app_assoc, parse_str_char by done. rewrite IH by lia. done.
Qed.

Lemma escape_nonempty c : (1 ≤ String.length (escape_char c))%nat ∨ c = "".
Proof.
  unfold escape_char. cbv zeta. do 7 (destruct (_ =? _); [left; by apply Nat.leb_le|]).
  destruct (_ && _); [destruct c; [by right|left; cbn; lia]|].
  destruct (_ <? _); left; rewrite length_str_app; change (String.length "\u") with 2%nat; lia.
Qed.
Lemma utf8_chars_nonempty s : Forall (λ c, c ≠ "") (utf8_chars s).
Proof.
  induction s as [|c s IH]; [constructor|]. cbn [utf8_chars]. destruct (utf8_chars s) as [|x r]; [by repeat constructor|].
  apply Forall_cons in IH as [Hx Hr]. destruct (starts_cont s); by repeat constructor.
Qed.
Lemma cat_length_ge (l : list string) : Forall (λ c, (1 ≤ String.length c)%nat) l → (length l ≤ String.length (cat l))%nat.
Proof. induction 1 as [|c l Hc _ IH]; [done|]. unfold cat in *. cbn. rewrite length_str_app. lia. Qed.

Definition body (s : string) : string := cat (map escape_char (utf8_chars s)).
Lemma body_length s : (length (utf8_chars s) ≤ String.length (body s))%nat.
Proof.
  unfold body. etrans; [|apply cat_length_ge].
  - by rewrite length_map.
  - apply Forall_forall. intros x (c & -> & Hc)%list_elem_of_fmap.
    destruct (escape_nonempty c) as [?| ->]; [done|]. pose proof (utf8_chars_nonempty s) as H.
    rewrite Forall_forall in H. by specialize (H _ Hc).
Qed.
Lemma dumps_str_app s r : dumps_str s +:+ r = String (chr 34) (body s +:+ String (chr 34) r).
Proof.
  unfold dumps_str. rewrite !str_app_assoc. fold (cat (map escape_char (utf8_chars s))). fold (body s). done.
Qed.
Lemma parse_text f s r : valid_text s = true → (String.length (body s) < f)%nat →
  parse_str f (body s +:+ String (chr 34) r) = Some (s, r).
Proof.
  intros H Hf. unfold body. rewrite parse_str_body; [by rewrite cat_chars| |].
  - apply Forall_forall. intros c Hc. unfold valid_text in H. rewrite forallb_forall in H.
    apply H. by apply list_elem_of_In.
  - pose proof (body_length s). unfold body in *. lia.
Qed.

(** ** Numbers *)

Definition digit_str (s : string) : Prop := Forall (λ c, ∃ d, digit c = Some d) (String.list_ascii_of_string s).
(** What may follow a number. *)
Definition ends (r : string) : Prop :=
  match r with
  | "" => True
  | String c _ => digit c = None ∧ ord c ≠ 46 ∧ ord c ≠ 101 ∧ ord c ≠ 69
  end.
Fixpoint value_of (acc : Z) (s : string) : Z :=
  match s with String c s' => value_of (acc * 10 + default 0 (digit c)) s' | "" => acc end.
Lemma digits_spec acc k s r : digit_str s → ends r →
  digits acc k (s +:+ r) = (value_of acc s, (k + String.length s)%nat, r).
Proof.
  revert acc k. induction s as [|c s IH]; intros acc k Hs Hr.
  - change ("" +:+ r) with r. cbn. rewrite Nat.add_0_r. destruct r as [|c r]; [done|]. cbn. destruct Hr as [-> _]. done.
  - apply Forall_cons in Hs as [[d Hd] Hs]. change (String c s +:+ r) with (String c (s +:+ r)). cbn [digits value_of].
    rewrite Hd. cbn. rewrite IH by done. f_equal. f_equal. lia.
Qed.
Lemma value_of_app acc s t : value_of acc (s +:+ t) = value_of (value_of acc s) t.
Proof. revert acc. induction s as [|c s IH]; intros acc; [done|]. change (String c s +:+ t) with (String c (s +:+ t)). cbn. apply IH. Qed.
Lemma digit_str_app s t : digit_str s → digit_str t → digit_str (s +:+ t).
Proof.
  unfold digit_str. intros Hs Ht. induction s as [|c s IH]; [done|]. change (String c s +:+ t) with (String c (s +:+ t)).
  cbn in *. apply Forall_cons in Hs as [? ?]. constructor; [done|by apply IH].
Qed.

Lemma pretty_char n : (n < 10)%N → digit (pretty_N_char n) = Some (Z.of_N n) ∧ (n ≠ 0%N → ord (pretty_N_char n) ≠ 48).
Proof.
  intros H. assert (Hn : (n = 0 ∨ n = 1 ∨ n = 2 ∨ n = 3 ∨ n = 4 ∨ n = 5 ∨ n = 6 ∨ n = 7 ∨ n = 8 ∨ n = 9)%N) by lia.
  by repeat (destruct Hn as [->|Hn]; [by split|]); subst.
Qed.
(** A positive number prints as its digits, the first of which is not zero. *)
Lemma pretty_digits n : (0 < n)%N →
  ∃ c s, pretty n = String c s ∧ digit_str (String c s) ∧ value_of 0 (String c s) = Z.of_N n ∧ ord c ≠ 48 ∧
    (∃ d, digit c = Some d).
Proof.
  intros Hpos. unfold pretty, pretty_N. rewrite decide_False by lia.
  assert (∀ n s, (0 < n)%N → ∃ c t, pretty_N_go n s = String c (t +:+ s) ∧ digit_str (String c t) ∧
            value_of 0 (String c t) = Z.of_N n ∧ ord c ≠ 48 ∧ (∃ d, digit c = Some d)) as H.
  2:{ destruct (H n "" Hpos) as (c & t & E & ?). rewrite str_app_nil_r in E. by exists c, t. }
  clear n Hpos. intros n. induction (N.lt_wf_0 n) as [n _ IH]. intros s Hn.
  rewrite pretty_N_go_step by done. set (d := (n `mod` 10)%N).
  destruct (pretty_char d) as [Hd Hz]; [apply N.mod_lt; lia|].
  destruct (decide (n < 10)%N) as [Hlt|Hge].
  - assert ((n `div` 10)%N = 0%N) as -> by (by apply N.div_small). rewrite pretty_N_go_0.
    assert (d = n) as Hdn by (by apply N.mod_small). rewrite Hdn in *.
    exists (pretty_N_char n), "". split; [done|]. split; [repeat constructor; by eexists|]. cbn. rewrite Hd. cbn.
    split; [lia|]. split; [apply Hz; lia|by eexists].
  - destruct (IH (n `div` 10)%N) with (s := String (pretty_N_char d) s) as (c & t & E & Hdig & Hv & Hc & Hcd);
      [apply N.div_lt; lia|apply N.div_str_pos; lia|].
    exists c, (t +:+ String (pretty_N_char d) ""). split; [rewrite E, str_app_assoc; done|]. split.
    + change (digit_str (String c t +:+ String (pretty_N_char d) "")). apply digit_str_app; [done|].
      repeat constructor. by eexists.
    + split; [|done]. change (value_of 0 (String c t +:+ String (pretty_N_char d) "") = Z.of_N n).
      rewrite value_of_app, Hv. cbn. rewrite Hd. cbn. unfold d.
      rewrite (N.div_mod n 10) at 3 by lia. lia.
Qed.

Lemma starts_ends m r : ends r → m = 46 ∨ m = 101 ∨ m = 69 → starts_with m r = false.
Proof.
  destruct r as [|c r]; [done|]. intros (_ & H1 & H2 & H3) Hm. cbn. apply Z.eqb_neq.
  destruct Hm as [->|[->| ->]]; done.
Qed.
Lemma parse_exp_ends r : ends r → parse_exp r = None.
Proof. intros H. unfold parse_exp. rewrite !starts_ends by (done || tauto). done. Qed.

Lemma parse_int z r : ends r → parse_number (pretty z +:+ r) = Some (VInt z, r).
Proof.
  intros Hr. unfold parse_number.
  assert (Hpos : ∀ p (neg : bool), (let '(n, k, r0) :=
      (if starts_with 48 (pretty (Npos p) +:+ r) then (0, 1%nat, str_tail (pretty (Npos p) +:+ r))
       else digits 0 0 (pretty (Npos p) +:+ r)) in (n, k, r0)) = (Z.of_N (Npos p), String.length (pretty (Npos p)), r) ∧
      (0 < String.length (pretty (Npos p)))%nat ∧ starts_with 45 (pretty (Npos p) +:+ r) = false).
  { intros p neg. destruct (pretty_digits (Npos p)) as (c & s & -> & Hd & Hv & Hc & d & Hcd); [lia|].
    change (String c s +:+ r) with (String c (s +:+ r)). cbn [starts_with]. rewrite (proj2 (Z.eqb_neq (ord c) 48)) by done.
    change (String c (s +:+ r)) with (String c s +:+ r). rewrite digits_spec, Hv by done. split; [done|]. split; [cbn; lia|].
    apply Z.eqb_neq. intros He. unfold digit in Hcd. rewrite He in Hcd. done. }
  destruct z as [|p|p].
  - change (pretty 0 +:+ r) with (String "0" r). change (starts_with 45 (String "0" r)) with false. cbv iota.
    change (starts_with 48 (String "0" r)) with true. cbv iota. cbn [str_tail].
    rewrite starts_ends, parse_exp_ends by (done || tauto). done.
  - destruct (Hpos p false) as (H & Hl & H45). change (pretty (Zpos p)) with (pretty (Npos p)). rewrite H45. cbv iota.
    destruct (if starts_with 48 _ then _ else _) as [[n k] r0]. simplify_eq. destruct (String.length _); [lia|].
    rewrite starts_ends, parse_exp_ends by (done || tauto). done.
  - destruct (Hpos p true) as (H & Hl & _).
    change (pretty (Zneg p) +:+ r) with (String "-" (pretty (Npos p) +:+ r)).
    change (starts_with 45 (String "-" (pretty (Npos p) +:+ r))) with true. cbv iota. cbn [str_tail].
    destruct (if starts_with 48 _ then _ else _) as [[n k] r0]. simplify_eq. destruct (String.length _); [lia|].
    rewrite starts_ends, parse_exp_ends by (done || tauto). done.
Qed.

(** ** Values *)

Lemma literal_app lit v r : literal lit v (lit +:+ r) = Some (v, r).
Proof. unfold literal. by rewrite prefix_app, substring_app. Qed.

Definition blank (c : ascii) : Prop := ord c = 32 ∨ ord c = 9 ∨ ord c = 10 ∨ ord c = 13.
Lemma skip_ws_id c s : ¬ blank c → skip_ws (String c s) = String c s.
Proof.
  unfold blank. intros H. cbn [skip_ws].
  destruct (Z.eqb_spec (ord c) 32), (Z.eqb_spec (ord c) 9), (Z.eqb_spec (ord c) 10), (Z.eqb_spec (ord c) 13); naive_solver.
Qed.
(** The first character of a printed value. *)
Lemma dumps_head v : json_ok v = true → ∃ c s, dumps v = String c s ∧ ¬ blank c ∧ ord c ≠ 93.
Proof.
  destruct v as [|[]|z|q|s|l|d]; cbn [json_ok dumps]; intros H; try done.
  1-3: eexists _, _; split; [reflexivity|]; unfold blank; split; [intros Hc; by vm_compute in Hc; naive_solver|by vm_compute].
  - destruct z as [|p|p].
    + exists "0"%char, "". split; [done|]. split; [unfold blank; vm_compute; naive_solver|by vm_compute].
    + destruct (pretty_digits (Npos p)) as (c & s & E & _ & _ & _ & d & Hd); [lia|].
      exists c, s. split; [exact E|]. unfold digit in Hd. destruct (_ && _) eqn:Hb; [|done].
      apply andb_true_iff in Hb as [H1%Z.leb_le H2%Z.leb_le]. unfold blank. lia.
    + eexists "-"%char, _. split; [reflexivity|]. split; [unfold blank; vm_compute; naive_solver|by vm_compute].
  - exists (chr 34), (body s +:+ String (chr 34) ""). split; [by rewrite <-(dumps_str_app s ""), str_app_nil_r|].
    split; [unfold blank; vm_compute; naive_solver|by vm_compute].
  - eexists "["%char, _. split; [reflexivity|]. split; [unfold blank; vm_compute; naive_solver|by vm_compute].
  - eexists "{"%char, _. split; [reflexivity|]. split; [unfold blank; vm_compute; naive_solver|by vm_compute].
Qed.

Definition reads (v : value) : Prop :=
  ∀ f r, ends r → (String.length (dumps v) ≤ f)%nat → parse_value f (dumps v +:+ r) = Some (v, r).
Definition elements (l : list value) : string := str_join ", " (map dumps l).
Definition member (kv : string * value) : string := dumps_str kv.1 +:+ ": " +:+ dumps kv.2.
Definition members (d : dict value) : string := str_join ", " (map member d).

Lemma ends_char n r : n = 44 ∨ n = 93 ∨ n = 125 → ends (String (chr n) r).
Proof. intros [->|[->| ->]]; by vm_compute. Qed.
Lemma skip_char n r : n = 44 ∨ n = 93 ∨ n = 125 ∨ n = 58 → skip_ws (String (chr n) r) = String (chr n) r.
Proof. intros [->|[->|[->| ->]]]; reflexivity. Qed.

Lemma skip_dumps v r : json_ok v = true → skip_ws (dumps v +:+ r) = dumps v +:+ r.
Proof.
  intros H. destruct (dumps_head v H) as (c & s & -> & Hb & _). change (String c s +:+ r) with (String c (s +:+ r)).
  by apply skip_ws_id.
Qed.

Lemma parse_elements_ok l acc f r : Forall reads l → Forall (λ v, json_ok v = true) l → l ≠ [] →
  (String.length (elements l) < f)%nat →
  parse_elements f acc (elements l +:+ String (chr 93) r) = Some (VList (acc ++ l), r).
Proof.
  revert acc f. induction l as [|v l IH]; intros acc f Hr Hok Hne Hf; [done|].
  apply Forall_cons in Hr as [Hv Hr], Hok as [Hvo Hok]. destruct f as [|f]; [lia|]. cbn [parse_elements].
  unfold elements in *. cbn [map] in *. destruct l as [|w l].
  - cbn [map str_join] in *. rewrite Hv by (apply ends_char || lia; tauto).
    rewrite skip_char by tauto. change (starts_with 44 (String (chr 93) r)) with false. cbv iota.
    change (starts_with 93 (String (chr 93) r)) with true. done.
  - set (rest := str_join ", " (map dumps (w :: l))) in *.
    change (str_join ", " (dumps v :: map dumps (w :: l))) with (dumps v +:+ ", " +:+ rest) in *.
    rewrite !length_str_app in Hf. cbn [String.length] in Hf. rewrite !str_app_assoc.
    change (", " +:+ rest +:+ String (chr 93) r) with (String (chr 44) (String " " (rest +:+ String (chr 93) r))).
    rewrite Hv by (apply ends_char || lia; tauto). rewrite skip_char by tauto.
    change (starts_with 44 (String (chr 44) (String " " (rest +:+ String (chr 93) r)))) with true. cbv iota.
    cbn [str_tail].
    assert (skip_ws (String " " (rest +:+ String (chr 93) r)) = rest +:+ String (chr 93) r) as ->.
    { transitivity (skip_ws (rest +:+ String (chr 93) r)); [reflexivity|].
      unfold rest. cbn [map]. apply Forall_cons in Hok as [Hw _].
      destruct (dumps_head w Hw) as (c & s & Ew & Hb & _). destruct l as [|x l]; cbn [map str_join]; rewrite Ew.
      - change (String c s +:+ String (chr 93) r) with (String c (s +:+ String (chr 93) r)). by apply skip_ws_id.
      - rewrite !str_app_assoc. cbn [String.append]. by apply skip_ws_id. }
    rewrite IH; [by rewrite <-app_assoc|done|done|done|lia].
Qed.

Lemma parse_members_ok d acc f r : Forall (λ kv, reads kv.2) d →
  Forall (λ kv, valid_text kv.1 = true ∧ json_ok kv.2 = true) d → d ≠ [] → NoDup (map fst (acc ++ d)) →
  (String.length (members d) < f)%nat →
  parse_members f acc (members d +:+ String (chr 125) r) = Some (VDict (acc ++ d), r).
Proof.
  revert acc f. induction d as [|[k v] d IH]; intros acc f Hr Hok Hne Hnd Hf; [done|].
  apply Forall_cons in Hr as [Hv Hr], Hok as [[Hk Hvo] Hok]. cbn [fst snd] in *. destruct f as [|f]; [lia|].
  assert (Hset : dset k v acc = (acc ++ [(k, v)])%list).
  { apply dset_new. rewrite map_app in Hnd. apply NoDup_app in Hnd as (_ & Hd & _). intros Hin. apply (Hd k Hin). left. }
  assert (Hstep : ∀ rest, ends rest → (String.length (dumps v) ≤ f)%nat →
    parse_members (S f) acc (member (k, v) +:+ rest) =
      (let r2 := skip_ws rest in
       if starts_with 44 r2 then parse_members f (acc ++ [(k, v)]) (skip_ws (str_tail r2))
       else if starts_with 125 r2 then Some (VDict (acc ++ [(k, v)]), str_tail r2) else None)).
  { intros rest He Hl. unfold member. cbn [fst snd]. rewrite !str_app_assoc, dumps_str_app. cbn [parse_members].
    set (tl := ": " +:+ dumps v +:+ rest).
    change (starts_with 34 (String (chr 34) (body k +:+ String (chr 34) tl))) with true. cbv iota. cbn [str_tail].
    rewrite parse_text by (done || (cbn [String.length]; rewrite length_str_app; lia)).
    change tl with (String (chr 58) (String " " (dumps v +:+ rest))). rewrite skip_char by tauto.
    change (starts_with 58 (String (chr 58) (String " " (dumps v +:+ rest)))) with true. cbv iota. cbn [str_tail].
    change (skip_ws (String " " (dumps v +:+ rest))) with (skip_ws (dumps v +:+ rest)). rewrite skip_dumps by done.
    rewrite Hv by done. by rewrite Hset. }
  unfold members in *. cbn [map] in *. destruct d as [|kv d].
  - cbn [map str_join] in *. assert (String.length (dumps v) ≤ f)%nat.
    { unfold member in Hf. cbn [fst snd] in Hf. rewrite !length_str_app in Hf. lia. }
    rewrite Hstep by (apply ends_char || lia; tauto). cbv zeta. by rewrite skip_char by tauto.
  - set (rest := str_join ", " (map member (kv :: d))) in *.
    change (str_join ", " (member (k, v) :: map member (kv :: d))) with (member (k, v) +:+ ", " +:+ rest) in *.
    rewrite !length_str_app in Hf. cbn [String.length] in Hf.
    assert (String.length (dumps v) ≤ f)%nat.
    { unfold member in Hf. cbn [fst snd] in Hf. rewrite !length_str_app in Hf. lia. }
    rewrite !str_app_assoc.
    change (", " +:+ rest +:+ String (chr 125) r) with (String (chr 44) (String " " (rest +:+ String (chr 125) r))).
    rewrite Hstep by (apply ends_char || lia; tauto). cbv zeta. rewrite skip_char by tauto.
    change (starts_with 44 (String (chr 44) (String " " (rest +:+ String (chr 125) r)))) with true. cbv iota.
    cbn [str_tail].
    assert (skip_ws (String " " (rest +:+ String (chr 125) r)) = rest +:+ String (chr 125) r) as ->.
    { transitivity (skip_ws (rest +:+ String (chr 125) r)); [reflexivity|].
      unfold rest. cbn [map]. destruct d as [|x d]; cbn [map str_join]; unfold member;
        rewrite !str_app_assoc, dumps_str_app; by apply skip_ws_id; vm_compute; naive_solver. }
    rewrite IH; [by rewrite <-app_assoc|done|done|done|by rewrite <-app_assoc|lia].
Qed.

Lemma json_reads v : json_ok v = true → reads v.
Proof.
  induction v as [|b|z|q|s|l IH|d IH] using value_ind; intros Hok f r He Hf; (destruct f as [|f];
    [exfalso; destruct (dumps_head _ Hok) as (? & ? & E & _); rewrite E in Hf; cbn in Hf; lia|]).
  - exact (literal_app "null" VNone r).
  - destruct b; [exact (literal_app "true" (VBool true) r)|exact (literal_app "false" (VBool false) r)].
  - rewrite <-(parse_int z r He). cbn [dumps].
    destruct (dumps_head (VInt z) eq_refl) as (c & s & E & _ & _). cbn [dumps] in E.
    assert (∃ d, digit c = Some d ∨ c = "-"%char) as (d & Hc).
    { destruct z as [|p|p].
      - change (pretty 0) with "0" in E. simplify_eq. exists 0. by left.
      - destruct (pretty_digits (Npos p)) as (c' & s' & E' & _ & _ & _ & d & Hd); [lia|].
        change (pretty (Zpos p)) with (pretty (Npos p)) in E. rewrite E' in E. simplify_eq. exists d. by left.
      - change (pretty (Zneg p)) with (String "-" (pretty (Npos p))) in E. simplify_eq. exists 0. by right. }
    rewrite E. change (String c s +:+ r) with (String c (s +:+ r)). cbn [parse_value].
    assert (ord c = 45 ∨ 48 ≤ ord c ≤ 57) as Hr.
    { destruct Hc as [Hd| ->]; [right|left; by vm_compute]. unfold digit in Hd. destruct (_ && _) eqn:Hb; [|done].
      by apply andb_true_iff in Hb as [H1%Z.leb_le H2%Z.leb_le]. }
    by rewrite !(proj2 (Z.eqb_neq (ord c) _)) by lia.
  - done.
  - cbn [dumps]. rewrite dumps_str_app. cbn [parse_value]. change (ord (chr 34) =? 34) with true. cbv iota.
    rewrite parse_text; [done|done|]. rewrite length_str_app. lia.
  - cbn [json_ok] in Hok. rewrite forallb_forall in Hok.
    assert (Hall : Forall (λ v, json_ok v = true) l) by (apply Forall_forall; intros x Hx; apply Hok; by apply list_elem_of_In).
    assert (Hr : Forall reads l).
    { rewrite Forall_forall in IH, Hall. apply Forall_forall. intros x Hx. apply IH; [done|]. by apply Hall. }
    cbn [dumps] in *. fold (elements l) in *. rewrite !length_str_app in Hf. cbn [String.length] in Hf.
    rewrite !str_app_assoc.
    change ("[" +:+ elements l +:+ "]" +:+ r) with (String (chr 91) (elements l +:+ String (chr 93) r)).
    cbn [parse_value]. change (ord (chr 91) =? 34) with false. change (ord (chr 91) =? 123) with false.
    change (ord (chr 91) =? 91) with true. cbv iota. destruct l as [|v l]; [reflexivity|].
    assert (skip_ws (elements (v :: l) +:+ String (chr 93) r) = elements (v :: l) +:+ String (chr 93) r ∧
            starts_with 93 (elements (v :: l) +:+ String (chr 93) r) = false) as [-> ->].
    { apply Forall_cons in Hall as [Hv _]. destruct (dumps_head v Hv) as (c & s & E & Hb & H93).
      assert (∃ t, elements (v :: l) +:+ String (chr 93) r = String c t) as [t ->].
      { unfold elements. destruct l as [|w l]; cbn [map str_join]; rewrite E, ?str_app_assoc; eexists; reflexivity. }
      split; [by apply skip_ws_id|]. cbn. by apply Z.eqb_neq. }
    apply parse_elements_ok; [done|done|done|lia].
  - cbn [json_ok] in Hok. apply andb_true_iff in Hok as [Hnd%bool_decide_eq_true Hok]. rewrite forallb_forall in Hok.
    assert (Hall : Forall (λ kv, valid_text kv.1 = true ∧ json_ok kv.2 = true) d).
    { apply Forall_forall. intros x Hx. apply andb_true_iff. apply Hok. by apply list_elem_of_In. }
    assert (Hr : Forall (λ kv, reads kv.2) d).
    { rewrite Forall_forall in IH, Hall. apply Forall_forall. intros x Hx. apply IH; [done|]. by apply Hall. }
    cbn [dumps] in *. change (str_join ", " _) with (members d) in *. rewrite !length_str_app in Hf. cbn [String.length] in Hf.
    rewrite !str_app_assoc.
    change ("{" +:+ members d +:+ "}" +:+ r) with (String (chr 123) (members d +:+ String (chr 125) r)).
    cbn [parse_value]. change (ord (chr 123) =? 34) with false. change (ord (chr 123) =? 123) with true. cbv iota.
    destruct d as [|kv d]; [reflexivity|].
    assert (skip_ws (members (kv :: d) +:+ String (chr 125) r) = members (kv :: d) +:+ String (chr 125) r ∧
            starts_with 125 (members (kv :: d) +:+ String (chr 125) r) = false) as [-> ->].
    { assert (∃ t, members (kv :: d) +:+ String (chr 125) r = String (chr 34) t) as [t ->]; [|split; reflexivity].
      unfold members. destruct d as [|x d]; cbn [map str_join]; unfold member;
        rewrite !str_app_assoc, dumps_str_app; eexists; reflexivity. }
    apply parse_members_ok; [done|done|done|done|lia].
Qed.

(** What is printed is read back. *)
Lemma loads_dumps v : json_ok v = true → loads (dumps v) = Some v.
Proof.
  intros H. unfold loads. pose proof (skip_dumps v "" H) as Hs. rewrite str_app_nil_r in Hs. rewrite Hs.
  pose proof (json_reads v H (S (2 * String.length (dumps v))) "" I ltac:(lia)) as Hr. rewrite str_app_nil_r in Hr.
  by rewrite Hr.
Qed.
