(* ===== verification/Sha256.v ===== *)
(** * SHA-256

    [hashlib.sha256(data).hexdigest()] of the Python standard library, on 32-bit words
    kept as [Z] with their wrap-around written out. *)

From stdpp Require Import base strings list.
From Stdlib Require Import ZArith Ascii.
From S2P Require Import Prelude PyValue Json.

Local Open Scope string_scope.
Local Open Scope Z_scope.

Definition wrap32 (x : Z) : Z := x mod 2 ^ 32.
Definition add32 (x y : Z) : Z := wrap32 (x + y).
Definition rotr (n x : Z) : Z := Z.lor (Z.shiftr x n) (wrap32 (Z.shiftl x (32 - n))).
Definition not32 (x : Z) : Z := 4294967295 - x.

Definition K256 : list Z :=
  [1116352408; 1899447441; 3049323471; 3921009573; 961987163; 1508970993; 2453635748; 2870763221;
   3624381080; 310598401; 607225278; 1426881987; 1925078388; 2162078206; 2614888103; 3248222580;
   3835390401; 4022224774; 264347078; 604807628; 770255983; 1249150122; 1555081692; 1996064986;
   2554220882; 2821834349; 2952996808; 3210313671; 3336571891; 3584528711; 113926993; 338241895;
   666307205; 773529912; 1294757372; 1396182291; 1695183700; 1986661051; 2177026350; 2456956037;
   2730485921; 2820302411; 3259730800; 3345764771; 3516065817; 3600352804; 4094571909; 275423344;
   430227734; 506948616; 659060556; 883997877; 958139571; 1322822218; 1537002063; 1747873779;
   1955562222; 2024104815; 2227730452; 2361852424; 2428436474; 2756734187; 3204031479; 3329325298].

Definition H256 : list Z :=
  [1779033703; 3144134277; 1013904242; 2773480762; 1359893119; 2600822924; 528734635; 1541459225].

(** The padded message: a one bit, zeros, the length in bits on 64 bits. *)
Definition be_bytes (n : nat) (x : Z) : list Z :=
  map (λ i, Z.shiftr x (8 * Z.of_nat i) mod 256) (rev (seq 0 n)).
Definition pad256 (m : list Z) : list Z :=
  let len := Z.of_nat (length m) in
  let zeros := Z.to_nat ((55 - len) mod 64) in
  (m ++ [128] ++ repeat 0 zeros ++ be_bytes 8 (8 * len))%list.

Fixpoint words (l : list Z) : list Z :=
  match l with
  | a :: b :: c :: d :: l' => (((a * 256 + b) * 256 + c) * 256 + d) :: words l'
  | _ => []
  end.
Fixpoint blocks (fuel : nat) (l : list Z) : list (list Z) :=
  match fuel, l with
  | S f, _ :: _ => take 16 l :: blocks f (drop 16 l)
  | _, _ => []
  end.

(** The schedule, newest word first. *)
Definition sigma0 (x : Z) : Z := Z.lxor (Z.lxor (rotr 7 x) (rotr 18 x)) (Z.shiftr x 3).
Definition sigma1 (x : Z) : Z := Z.lxor (Z.lxor (rotr 17 x) (rotr 19 x)) (Z.shiftr x 10).
Definition next_word (w : list Z) : Z :=
  add32 (add32 (sigma1 (nth 1 w 0)) (nth 6 w 0)) (add32 (sigma0 (nth 14 w 0)) (nth 15 w 0)).
Fixpoint extend (n : nat) (w : list Z) : list Z :=
  match n with O => w | S n' => extend n' (next_word w :: w) end.
Definition schedule (block : list Z) : list Z := rev (extend 48 (rev block)).

Definition round256 (s : list Z) (kw : Z * Z) : list Z :=
  match s with
  | [a; b; c; d; e; f; g; h] =>
      let s1 := Z.lxor (Z.lxor (rotr 6 e) (rotr 11 e)) (rotr 25 e) in
      let ch := Z.lxor (Z.land e f) (Z.land (not32 e) g) in
      let t1 := add32 (add32 (add32 h s1) (add32 ch kw.1)) kw.2 in
      let s0 := Z.lxor (Z.lxor (rotr 2 a) (rotr 13 a)) (rotr 22 a) in
      let maj := Z.lxor (Z.lxor (Z.land a b) (Z.land a c)) (Z.land b c) in
      let t2 := add32 s0 maj in
      [add32 t1 t2; a; b; c; add32 d t1; e; f; g]
  | _ => s
  end.
Definition compress (h : list Z) (block : list Z) : list Z :=
  zip_with add32 h (fold_left round256 (zip K256 (schedule block)) h).

Definition sha256_words (s : string) : list Z :=
  let m := pad256 (map ord (String.list_ascii_of_string s)) in
  let ws := words m in
  fold_left compress (blocks (length ws) ws) H256.

Definition hex8 (x : Z) : string :=
  fold_right String.append "" (map (λ i, hex1 (Z.shiftr x (4 * Z.of_nat i) mod 16)) (rev (seq 0 8))).
Definition hexdigest (s : string) : string :=
  fold_right String.append "" (map hex8 (sha256_words s)).

Example sha256_empty :
  hexdigest "" = "e3b0c44298fc1c149afbf4c8996fb92427ae41e4649b934ca495991b7852b855".
Proof. vm_compute. reflexivity. Qed.
Example sha256_abc :
  hexdigest "abc" = "ba7816bf8f01cfea414140de5dae2223b00361a396177a9cb410ff61f20015ad".
Proof. vm_compute. reflexivity. Qed.

(** ** The digest is 64 hexadecimal digits *)

Lemma round256_length s kw : length (round256 s kw) = length s.
Proof. unfold round256. by do 9 (destruct s as [|? s]; try done). Qed.
Lemma compress_length h b : length (compress h b) = length h.
Proof.
  unfold compress. rewrite length_zip_with.
  assert (∀ l, length (fold_left round256 l h) = length h) as ->; [|lia].
  induction l as [|x l IH] using rev_ind; [done|]. rewrite fold_left_app. simpl.
  by rewrite round256_length.
Qed.
Lemma sha256_words_length s : length (sha256_words s) = 8%nat.
Proof.
  unfold sha256_words. set (bs := blocks _ _). clearbody bs.
  induction bs as [|b bs IH] using rev_ind; [done|]. rewrite fold_left_app. simpl.
  by rewrite compress_length.
Qed.

(** The characters of a concatenation. *)
Definition chars_ok (P : ascii → Prop) (s : string) : Prop :=
  Forall P (String.list_ascii_of_string s).
Lemma list_ascii_app (s t : string) :
  String.list_ascii_of_string (s +:+ t) =
  (String.list_ascii_of_string s ++ String.list_ascii_of_string t)%list.
Proof.
  induction s as [|c s IH]; [done|].
  change (c :: String.list_ascii_of_string (s +:+ t) = (c :: String.list_ascii_of_string s ++ String.list_ascii_of_string t)%list).
  by rewrite IH.
Qed.
Lemma str_length_list s : String.length s = length (String.list_ascii_of_string s).
Proof. induction s as [|c s IH]; simpl; [done|]. by rewrite IH. Qed.
Lemma fold_append_chars P (l : list string) :
  Forall (chars_ok P) l → chars_ok P (fold_right String.append "" l).
Proof.
  unfold chars_ok. induction 1 as [|s l Hs _ IH]; [constructor|].
  simpl. rewrite list_ascii_app. by apply Forall_app.
Qed.
Lemma fold_append_length n (l : list string) :
  Forall (λ s, length (String.list_ascii_of_string s) = n) l →
  length (String.list_ascii_of_string (fold_right String.append "" l)) = (n * length l)%nat.
Proof.
  induction 1 as [|s l Hs _ IH]; simpl; [lia|]. rewrite list_ascii_app, length_app, Hs, IH. lia.
Qed.

Definition hex_char (c : ascii) : Prop := ∃ n, 0 <= n < 16 ∧ hex1 n = String c EmptyString.

Lemma hex8_chars x :
  chars_ok hex_char (hex8 x) ∧ length (String.list_ascii_of_string (hex8 x)) = 8%nat.
Proof.
  unfold hex8. split.
  - apply fold_append_chars, Forall_map, Forall_forall. intros i _. unfold chars_ok.
    change (Forall hex_char [chr (if Z.shiftr x (4 * Z.of_nat i) mod 16 <? 10
      then 48 + Z.shiftr x (4 * Z.of_nat i) mod 16 else 87 + Z.shiftr x (4 * Z.of_nat i) mod 16)]).
    repeat constructor. eexists. split; [by apply Z.mod_pos_bound|]. done.
  - rewrite (fold_append_length 1); [done|]. apply Forall_map, Forall_forall. by intros i _.
Qed.
Lemma hexdigest_chars s :
  chars_ok hex_char (hexdigest s) ∧ String.length (hexdigest s) = 64%nat.
Proof.
  rewrite str_length_list. unfold hexdigest. split.
  - apply fold_append_chars, Forall_map, Forall_forall. intros x _. apply hex8_chars.
  - rewrite (fold_append_length 8); [by rewrite length_map, sha256_words_length|].
    apply Forall_map, Forall_forall. intros x _. apply hex8_chars.
Qed.
