(* ===== verification/Codec.v ===== *)
(** * Base64 and HMAC

    [base64.b64encode], [base64.b64decode] and [hmac.new(key, msg, sha256).digest()] of the
    Python standard library, which the stores of the previous architecture use.  A string is a
    sequence of bytes.  The decoder is the lenient one: it skips characters outside the
    alphabet and stops at the padding. *)

From stdpp Require Import base strings list.
From Stdlib Require Import ZArith Ascii Lia.
From S2P Require Import Prelude PyValue Json JsonRound Sha256.

Local Open Scope string_scope.
Local Open Scope Z_scope.

(** ** Base64 *)

Definition b64_char (n : Z) : ascii :=
  chr (if n <? 26 then 65 + n else if n <? 52 then 71 + n else if n <? 62 then n - 4
       else if n =? 62 then 43 else 47).
Definition b64_val (c : ascii) : option Z :=
  let n := ord c in
  if (65 <=? n) && (n <=? 90) then Some (n - 65)
  else if (97 <=? n) && (n <=? 122) then Some (n - 71)
  else if (48 <=? n) && (n <=? 57) then Some (n + 4)
  else if n =? 43 then Some 62 else if n =? 47 then Some 63 else None.
Definition pad : ascii := "="%char.

Fixpoint b64encode (s : string) : string :=
  match s with
  | String a (String b (String c r)) =>
      String (b64_char (ord a / 4)) (String (b64_char (ord a mod 4 * 16 + ord b / 16))
        (String (b64_char (ord b mod 16 * 4 + ord c / 64)) (String (b64_char (ord c mod 64)) (b64encode r))))
  | String a (String b EmptyString) =>
      String (b64_char (ord a / 4)) (String (b64_char (ord a mod 4 * 16 + ord b / 16))
        (String (b64_char (ord b mod 16 * 4)) (String pad EmptyString)))
  | String a EmptyString =>
      String (b64_char (ord a / 4)) (String (b64_char (ord a mod 4 * 16)) (String pad (String pad EmptyString)))
  | EmptyString => EmptyString
  end.

(** [pos] sextets of the current group were read, whose last bits are [left]; [pads] is the number
    of padding characters since. *)
Fixpoint b64_scan (pos left pads : Z) (s : string) : res string :=
  match s with
  | EmptyString => if pos =? 0 then Ok EmptyString else Raise (Exn ValueError "Incorrect padding")
  | String c r =>
      if bool_decide (c = pad) then
        if 2 <=? pos
        then if 4 <=? pos + (pads + 1) then Ok EmptyString else b64_scan pos left (pads + 1) r
        else b64_scan pos left pads r
      else
        match b64_val c with
        | None => b64_scan pos left pads r
        | Some v =>
            if pos =? 0 then b64_scan 1 v 0 r
            else if pos =? 1 then String (chr (left * 4 + v / 16)) <$> b64_scan 2 (v mod 16) 0 r
            else if pos =? 2 then String (chr (left * 16 + v / 4)) <$> b64_scan 3 (v mod 4) 0 r
            else String (chr (left * 64 + v)) <$> b64_scan 0 0 0 r
        end
  end.
Definition ascii_text (s : string) : bool := forallb (λ c, ord c <? 128) (String.list_ascii_of_string s).
Definition b64decode (s : string) : res string :=
  if ascii_text s then b64_scan 0 0 0 s
  else Raise (Exn ValueError "string argument should contain only ASCII characters").

Lemma sextets (P : Z → bool) : forallb P (map Z.of_nat (seq 0 64)) = true → ∀ n, 0 ≤ n < 64 → P n = true.
Proof.
  rewrite forallb_forall. intros H n Hn. apply H. apply in_map_iff. exists (Z.to_nat n).
  split; [lia|]. apply in_seq. lia.
Qed.
Lemma b64_char_ok n : 0 ≤ n < 64 → b64_val (b64_char n) = Some n ∧ b64_char n ≠ pad ∧ ord (b64_char n) < 128.
Proof.
  intros Hn.
  pose proof (sextets (λ n, bool_decide (b64_val (b64_char n) = Some n) && negb (bool_decide (b64_char n = pad))
                            && (ord (b64_char n) <? 128)) ltac:(by vm_compute) n Hn) as H.
  apply andb_true_iff in H as [[H1 H2]%andb_true_iff H3]. apply bool_decide_eq_true in H1.
  apply negb_true_iff, bool_decide_eq_false in H2. apply Z.ltb_lt in H3. done.
Qed.
Lemma scan_char pos left pads n r : 0 ≤ n < 64 →
  b64_scan pos left pads (String (b64_char n) r) =
  if pos =? 0 then b64_scan 1 n 0 r
  else if pos =? 1 then String (chr (left * 4 + n / 16)) <$> b64_scan 2 (n mod 16) 0 r
  else if pos =? 2 then String (chr (left * 16 + n / 4)) <$> b64_scan 3 (n mod 4) 0 r
  else String (chr (left * 64 + n)) <$> b64_scan 0 0 0 r.
Proof. intros (Hv & Hp & _)%b64_char_ok. cbn [b64_scan]. by rewrite bool_decide_eq_false_2, Hv. Qed.
Lemma ord_range c : 0 ≤ ord c < 256.
Proof. unfold ord. pose proof (N_ascii_bounded c). lia. Qed.

Ltac sextet := Z.to_euclidean_division_equations; lia.

(** Induction over groups of three bytes. *)
Lemma groups_ind (P : string → Prop) :
  P "" → (∀ a, P (String a "")) → (∀ a b, P (String a (String b ""))) →
  (∀ a b c r, P r → P (String a (String b (String c r)))) → ∀ s, P s.
Proof.
  intros H0 H1 H2 H3 s. assert (P s ∧ (∀ a, P (String a s)) ∧ ∀ a b, P (String a (String b s))) as [? _]; [|done].
  induction s as [|c s (IH0 & IH1 & IH2)]; [done|]. split; [apply IH1|]. split; [intros a; apply IH2|].
  intros a b. by apply H3.
Qed.

Lemma chr_eq n c : n = ord c → chr n = c.
Proof. intros ->. apply chr_ord. Qed.
Lemma b64_scan_encode s : b64_scan 0 0 0 (b64encode s) = Ok s.
Proof.
  induction s as [|a|a b|a b c r IH] using groups_ind; [done| | |].
  all: cbn [b64encode]; pose proof (ord_range a) as Ha; try pose proof (ord_range b) as Hb;
    try pose proof (ord_range c) as Hc; repeat (rewrite scan_char by sextet; cbn [Z.eqb Pos.eqb]).
  all: rewrite ?IH; unfold fmap, res_fmap; cbn [b64_scan Z.eqb Z.leb Z.add Pos.add]; apply f_equal; repeat (apply f_equal2; [apply chr_eq; sextet|]); done.
Qed.
Lemma b64_ascii s : ascii_text (b64encode s) = true.
Proof.
  unfold ascii_text. induction s as [|a|a b|a b c r IH] using groups_ind; [done| | |]; cbn [b64encode String.list_ascii_of_string forallb].
  all: pose proof (ord_range a) as Ha; try pose proof (ord_range b) as Hb; try pose proof (ord_range c) as Hc.
  all: repeat (apply andb_true_iff; split); try done; apply Z.ltb_lt, b64_char_ok; sextet.
Qed.
Lemma b64_round_trip s : b64decode (b64encode s) = Ok s.
Proof. unfold b64decode. by rewrite b64_ascii, b64_scan_encode. Qed.

Example b64_python :
  b64encode "light work." = "bGlnaHQgd29yay4=" ∧ b64decode "bGln aHQ*gd29yay4" = Raise (Exn ValueError "Incorrect padding")
  ∧ b64decode "bGln aHQ*gd29yay4==junk" = Ok "light work.".
Proof. by vm_compute. Qed.

(** ** HMAC-SHA256 (RFC 2104) *)

Definition bytes_of (l : list Z) : string := fold_right (λ n s, String (chr n) s) EmptyString l.
Definition digest (s : string) : string := bytes_of (sha256_words s ≫= be_bytes 4).
Definition xor_char (n : Z) (c : ascii) : ascii := chr (Z.lxor (ord c) n).
Fixpoint map_str (f : ascii → ascii) (s : string) : string :=
  match s with EmptyString => EmptyString | String c s' => String (f c) (map_str f s') end.
Definition hmac_key (key : string) : string :=
  let k := if (64 <? String.length key)%nat then digest key else key in
  k +:+ bytes_of (repeat 0 (64 - String.length k)).
Definition hmac_sha256 (key msg : string) : string :=
  let k := hmac_key key in
  digest (map_str (xor_char 92) k +:+ digest (map_str (xor_char 54) k +:+ msg)).

Lemma bytes_of_length l : String.length (bytes_of l) = length l.
Proof. induction l as [|n l IH]; simpl; [done|]. by rewrite IH. Qed.
Lemma digest_length s : String.length (digest s) = 32%nat.
Proof.
  unfold digest. rewrite bytes_of_length. pose proof (sha256_words_length s) as H.
  revert H. generalize (sha256_words s). intros l H.
  assert (∀ l, length (l ≫= be_bytes 4) = (4 * length l)%nat) as ->; [|lia].
  clear. induction l as [|x l IH]; [done|]. cbn [mbind list_bind]. rewrite length_app.
  change (length (be_bytes 4 x)) with 4%nat. change (list_bind _ _ _ l) with (l ≫= be_bytes 4). rewrite IH. simpl. lia.
Qed.

Example hmac_rfc4231 :
  hmac_sha256 "Jefe" "what do ya want for nothing?" =
  bytes_of [91; 220; 193; 70; 191; 96; 117; 78; 106; 4; 36; 38; 8; 149; 117; 199; 90; 0; 63; 8; 157; 39; 57; 131;
            157; 236; 88; 185; 100; 236; 56; 67].
Proof. by vm_compute. Qed.
