(* ===== verification/LlmTypes.v ===== *)
(** * Messages, tools and shared helpers of the LLM device (device/llm/vendor)

    Transcript messages and their content blocks (types/messages.py, types/tools.py), the
    provider configuration (adapters/env.py), image handling (adapters/content.py), portable
    tool-call ids (adapters/tool_call_ids.py), model limits (adapters/model_limits.py), HTTP
    error texts (adapters/http_errors.py) and prompt-cache keys (adapters/openai_cache.py). *)

From stdpp Require Import base gmap strings list pretty.
From Stdlib Require Import ZArith QArith Ascii.
From S2P Require Import Prelude PyValue Json Sha256.

Local Open Scope string_scope.
Local Open Scope nat_scope.

(** ** Content and messages (types/messages.py) *)

Record usage_cost := UsageCost {
  uc_input : Q; uc_output : Q; uc_cache_read : Q; uc_cache_write : Q; uc_total : Q
}.
Definition UsageCost_default : usage_cost := UsageCost 0 0 0 0 0.

Record usage := Usage {
  us_input : Z;
  us_output : Z;
  us_cache_read : Z;
  us_cache_write : Z;
  us_cache_write_1h : option Z;
  us_reasoning : option Z;
  us_total_tokens : Z;
  us_cost : usage_cost
}.
Definition Usage_default : usage := Usage 0 0 0 0 None None 0 UsageCost_default.

Record text_content := TextContent { tc_text : string; tc_signature : option string }.
Record thinking_content := ThinkingContent {
  th_thinking : string; th_signature : option string; th_redacted : bool
}.
Record image_content := ImageContent { im_data : string; im_mime_type : string }.
Record tool_call := ToolCall {
  tcl_id : string;
  tcl_name : string;
  tcl_arguments : dict value;
  tcl_thought_signature : option string
}.

Inductive user_block := UText (t : text_content) | UImage (i : image_content).
Inductive user_content := UStr (s : string) | UBlocks (l : list user_block).
Inductive assistant_block :=
| AText (t : text_content)
| AThinking (t : thinking_content)
| ATool (c : tool_call).

Record diagnostic_error := DiagnosticError {
  de_name : option string; de_message : string; de_stack : option string; de_code : value
}.
Record diagnostic := Diagnostic {
  dg_type : string;
  dg_timestamp : Z;
  dg_error : option diagnostic_error;
  dg_details : option (dict value)
}.

Record user_message := UserMessage { um_content : user_content; um_timestamp : Z }.
Record assistant_message := AssistantMessage {
  am_content : list assistant_block;
  am_api : string;
  am_provider : string;
  am_model : string;
  am_response_model : option string;
  am_response_provider : option string;
  am_response_id : option string;
  am_diagnostics : option (list diagnostic);
  am_usage : usage;
  am_stop_reason : string;
  am_error_message : option string;
  am_timestamp : Z
}.
Record tool_result_message := ToolResultMessage {
  tr_tool_call_id : string;
  tr_tool_name : string;
  tr_content : list user_block;
  tr_details : value;
  tr_added_tool_names : option (list string);
  tr_is_error : bool;
  tr_timestamp : Z
}.
Record bash_execution_message := BashExecutionMessage {
  be_command : string; be_output : string; be_exit_code : option Z; be_cancelled : bool;
  be_truncated : bool; be_full_output_path : option string; be_timestamp : Z;
  be_exclude_from_context : bool
}.
Record custom_message := CustomMessage {
  cm_custom_type : string; cm_content : user_content; cm_display : bool; cm_details : value;
  cm_timestamp : Z
}.
Record branch_summary_message := BranchSummaryMessage {
  bs_summary : string; bs_from_id : string; bs_timestamp : Z
}.
Record compaction_summary_message := CompactionSummaryMessage {
  cs_summary : string; cs_tokens_before : Z; cs_timestamp : Z
}.

Inductive agent_message :=
| MUser (m : user_message)
| MAssistant (m : assistant_message)
| MToolResult (m : tool_result_message)
| MBash (m : bash_execution_message)
| MCustom (m : custom_message)
| MBranch (m : branch_summary_message)
| MCompaction (m : compaction_summary_message).

(** [AssistantMessage(content=..., usage=...)] with the defaults of the other fields. *)
Definition new_assistant (now : Z) (content : list assistant_block) (u : usage) : assistant_message :=
  AssistantMessage content "unknown" "unknown" "unknown" None None None None u "stop" None now.

(** ["".join(l)] *)
Definition str_concat (l : list string) : string := fold_right String.append "" l.

Definition block_text (b : user_block) : string :=
  match b with UText t => tc_text t | UImage _ => "" end.
Definition content_text (c : user_content) : string :=
  match c with UStr s => s | UBlocks l => str_concat (map block_text l) end.

Definition ablock_text (b : assistant_block) : string :=
  match b with AText t => tc_text t | _ => "" end.
(** [AssistantMessage.text], [.thinking_text] and [.tool_calls] *)
Definition assistant_text (m : assistant_message) : string :=
  str_concat (map ablock_text (am_content m)).
Definition thinking_text (m : assistant_message) : string :=
  str_concat (map (λ b, match b with AThinking t => th_thinking t | _ => "" end) (am_content m)).
Definition tool_calls_of (l : list assistant_block) : list tool_call :=
  flat_map (λ b, match b with ATool c => [c] | _ => [] end) l.
Definition tool_calls (m : assistant_message) : list tool_call := tool_calls_of (am_content m).

Definition assistant_content (text : string) (calls : list tool_call) : list assistant_block :=
  ((if nonempty text then [AText (TextContent text None)] else []) ++ map ATool calls)%list.

Definition message_text (m : agent_message) : string :=
  match m with
  | MUser m => content_text (um_content m)
  | MAssistant m => assistant_text m
  | MToolResult m => content_text (UBlocks (tr_content m))
  | MCustom m => content_text (cm_content m)
  | MBranch m => bs_summary m
  | MCompaction m => cs_summary m
  | MBash m => be_output m
  end.
Definition message_timestamp (m : agent_message) : Z :=
  match m with
  | MUser m => um_timestamp m | MAssistant m => am_timestamp m | MToolResult m => tr_timestamp m
  | MBash m => be_timestamp m | MCustom m => cm_timestamp m | MBranch m => bs_timestamp m
  | MCompaction m => cs_timestamp m
  end.
Definition message_to_user (m : agent_message) : user_message :=
  UserMessage (UStr (message_text m)) (message_timestamp m).

(** A tool of the agent loop (types/tools.py): what the providers send of it. *)
Record agent_tool := AgentTool {
  at_name : string; at_label : string; at_description : string; at_parameters : dict value
}.

(** ** Images (adapters/content.py) *)

Definition NON_VISION_USER_IMAGE_PLACEHOLDER : string :=
  "(image omitted: current model does not support image input; image contents are unavailable—do not infer or describe them)".
Definition NON_VISION_TOOL_IMAGE_PLACEHOLDER : string :=
  "(tool image omitted: current model does not support image input; image contents are unavailable—do not infer or describe them; ask the user to switch to a vision-capable model)".

Definition is_image (b : user_block) : bool := match b with UImage _ => true | UText _ => false end.
Definition images_of (l : list user_block) : list image_content :=
  flat_map (λ b, match b with UImage i => [i] | UText _ => [] end) l.

Definition messages_have_images (ms : list agent_message) : bool :=
  existsb (λ m, match m with
                | MUser m => match um_content m with UStr _ => false | UBlocks l => existsb is_image l end
                | MToolResult m => existsb is_image (tr_content m)
                | _ => false
                end) ms.

Definition text_and_images (c : user_content) (supports_images : bool) (placeholder : string) :
    string * list image_content :=
  match c with
  | UStr s => (s, [])
  | UBlocks l =>
      let text := str_concat (map block_text l) in
      let images := images_of l in
      if supports_images then (text, images)
      else (match images with
            | [] => text
            | _ => if nonempty text then text +:+ char_str 10 +:+ placeholder else placeholder
            end, [])
  end.

(** ** Portable tool-call ids (adapters/tool_call_ids.py) *)

Definition portable_char (c : ascii) : bool :=
  let n := ord c in
  (((65 <=? n) && (n <=? 90)) || ((97 <=? n) && (n <=? 122)) || ((48 <=? n) && (n <=? 57))
   || (n =? 95) || (n =? 45))%Z.
(** [_PORTABLE_TOOL_CALL_ID.fullmatch] *)
Definition portable_id (s : string) : bool :=
  let l := String.list_ascii_of_string s in
  forallb portable_char l && (1 <=? length l) && (length l <=? 64).

Definition str_take (n : nat) (s : string) : string := String.substring 0 n s.

Definition portable_tool_call_id (value : string) : string :=
  if portable_id value then value else "tc_" +:+ str_take 40 (hexdigest value).

(** ** Model limits (adapters/model_limits.py) *)

Record model_limits := RuntimeModelLimits {
  ml_context_window : Z;
  ml_max_output_tokens : option Z;
  ml_percent : Z;
  ml_auto_compact : option Z
}.
Definition opt_nonpos (o : option Z) : bool :=
  match o with Some z => (z <=? 0)%Z | None => false end.
(** [RuntimeModelLimits(...)] with [__post_init__] *)
Definition RuntimeModelLimits_init (cw : Z) (mo : option Z) (pc : Z) (ac : option Z) : res model_limits :=
  if (cw <=? 0)%Z then Raise (Exn ValueError "context_window must be positive")
  else if opt_nonpos mo then Raise (Exn ValueError "max_output_tokens must be positive")
  else if negb ((1 <=? pc) && (pc <=? 100))%Z
  then Raise (Exn ValueError "effective_context_window_percent must be between 1 and 100")
  else if opt_nonpos ac then Raise (Exn ValueError "auto_compact_token_limit must be positive")
  else Ok (RuntimeModelLimits cw mo pc ac).
Definition effective_context_window (m : model_limits) : Z :=
  Z.max 1 (ml_context_window m * ml_percent m / 100).
Definition effective_auto_compact_token_limit (m : model_limits) : Z :=
  let default_limit := Z.max 1 (ml_context_window m * 9 / 10) in
  match ml_auto_compact m with
  | None => Z.min default_limit (effective_context_window m)
  | Some l => Z.min l (effective_context_window m)
  end.

(** ** HTTP errors (adapters/http_errors.py) *)

Definition loads_object (s : string) : option (dict value) :=
  match loads s with Some (VDict d) => Some d | _ => None end.

Definition str_field (k : string) (d : dict value) : option string :=
  match dget k d with Some (VStr s) => if nonempty s then Some s else None | _ => None end.

(** The message or the code of the error object. *)
Definition error_object_detail (d : dict value) : option string :=
  match dget "error" d with
  | Some (VDict e) => match str_field "message" e with
                      | Some m => Some m
                      | None => str_field "code" e
                      end
  | _ => None
  end.

(** [provider_error_detail_from_mapping] on a value; [""] unless it is a mapping. *)
Fixpoint error_detail (v : value) : string :=
  match v with
  | VDict d =>
      match error_object_detail d with
      | Some s => s
      | None =>
          let nested k := (fix go (l : dict value) : string :=
                             match l with
                             | [] => ""
                             | (k', w) :: l' =>
                                 if bool_decide (k = k')
                                 then match w with
                                      | VStr s => s
                                      | VDict _ => error_detail w
                                      | _ => ""
                                      end
                                 else go l'
                             end) d in
          let m := nested "message" in
          if nonempty m then m else
          let m := nested "detail" in
          if nonempty m then m else nested "error"
      end
  | _ => ""
  end.
Definition provider_error_detail_from_mapping (d : dict value) : string := error_detail (VDict d).

Definition _MAX_ERROR_DETAIL_LENGTH : nat := 1000.
(** [s[:n]] in characters *)
Definition chars_take (n : nat) (s : string) : string := str_concat (take n (utf8_chars s)).

Definition provider_http_error_detail (body : string) : string :=
  let fallback := chars_take _MAX_ERROR_DETAIL_LENGTH (strip body) in
  match loads_object body with
  | Some parsed => let detail := provider_error_detail_from_mapping parsed in
                   if nonempty detail then detail else fallback
  | None => fallback
  end.

Definition provider_http_error_message (provider_name : string) (status_code : Z) (body : string)
    (model : option string) : string :=
  let prefix := provider_name +:+ " request failed with status " +:+ pretty status_code in
  let prefix := match model with
                | Some m => if nonempty m then prefix +:+ " for model " +:+ m else prefix
                | None => prefix
                end in
  let detail := provider_http_error_detail body in
  if nonempty detail then prefix +:+ ": " +:+ detail else prefix.

(** ** Prompt-cache keys (adapters/openai_cache.py) *)

Definition openai_prompt_cache_key (session_id : option string) : option string :=
  match session_id with
  | Some s => if nonempty s then Some (chars_take 64 s) else None
  | None => None
  end.

(** ** Theorems on tool-call ids *)

Lemma list_ascii_take n s :
  String.list_ascii_of_string (str_take n s) = take n (String.list_ascii_of_string s).
Proof.
  unfold str_take. revert s. induction n as [|n IH]; intros [|c s]; try done. simpl. by rewrite IH.
Qed.

Lemma hex_char_portable c : hex_char c → portable_char c = true.
Proof.
  intros (n & Hn & E). assert (∃ k, n = Z.of_nat k ∧ k < 16) as (k & -> & Hk)
    by (exists (Z.to_nat n); lia).
  do 16 (destruct k as [|k]; [by injection E as <-|]). lia.
Qed.

(** The id made of a digest. *)
Lemma digest_id_portable s :
  portable_id ("tc_" +:+ str_take 40 (hexdigest s)) = true ∧
  String.length ("tc_" +:+ str_take 40 (hexdigest s)) = 43.
Proof.
  destruct (hexdigest_chars s) as [Hc Hl]. rewrite str_length_list in *. unfold portable_id.
  rewrite list_ascii_app, list_ascii_take, length_app, length_take, Hl. split; [|done].
  rewrite forallb_app. simpl. rewrite !andb_true_r. apply forallb_forall. intros c Hin.
  apply hex_char_portable. unfold chars_ok in Hc. rewrite Forall_forall in Hc.
  apply Hc. apply list_elem_of_In, elem_of_take in Hin as (i & Hi & _). by eapply list_elem_of_lookup_2.
Qed.

(** Every tool-call id sent to a provider satisfies the portable format: a portable id is
    sent as it is, any other becomes a fixed-length digest id, and converting twice changes
    nothing, so that calls and their results keep matching however often a transcript is
    converted. *)
Theorem tool_call_ids_portable s :
  portable_id (portable_tool_call_id s) = true ∧
  portable_tool_call_id (portable_tool_call_id s) = portable_tool_call_id s ∧
  (portable_id s = true → portable_tool_call_id s = s) ∧
  (portable_id s = false → String.length (portable_tool_call_id s) = 43).
Proof.
  destruct (digest_id_portable s) as [Hp Hl].
  assert (portable_id (portable_tool_call_id s) = true) as H.
  { unfold portable_tool_call_id. by destruct (portable_id s) eqn:E. }
  split; [done|]. split; [unfold portable_tool_call_id at 1; by rewrite H|].
  unfold portable_tool_call_id. split; intros ->; done.
Qed.
