(* ===== verification/LlmStream.v ===== *)
(** * Canonical streams (adapters/stream.py, adapters/_provider_events.py,
    types/provider_events.py)

    A provider parser emits text and thinking fragments, complete tool calls and one end or
    error; [canonicalize_provider_stream] turns them into the event stream of the agent
    layer, whose events carry snapshots of the message built so far.  Messages are values
    here, so a snapshot is the message itself. *)

From stdpp Require Import base gmap strings list pretty.
From Stdlib Require Import ZArith QArith.
From S2P Require Import Prelude PyValue Json LlmTypes.

Local Open Scope string_scope.
Local Open Scope nat_scope.

Inductive provider_event :=
| PResponseStart (model : string) (response_provider : option string)
| PRetry (attempt max_attempts : Z) (delay_seconds : Q) (message : string) (data : option (dict value))
| PTextDelta (delta : string)
| PThinkingDelta (delta : string)
| PToolCall (c : tool_call)
| PResponseEnd (message : assistant_message) (finish_reason : option string)
| PError (message : string) (data : option (dict value)) (response_provider : option string).

Inductive assistant_event :=
| EStart (partial : assistant_message)
| ETextStart (content_index : nat) (partial : assistant_message)
| ETextDelta (content_index : nat) (delta : string) (partial : assistant_message)
| ETextEnd (content_index : nat) (content : string) (partial : assistant_message)
| EThinkingStart (content_index : nat) (partial : assistant_message)
| EThinkingDelta (content_index : nat) (delta : string) (partial : assistant_message)
| EThinkingEnd (content_index : nat) (content : string) (partial : assistant_message)
| EToolCallStart (content_index : nat) (partial : assistant_message)
| EToolCallDelta (content_index : nat) (delta : string) (partial : assistant_message)
| EToolCallEnd (content_index : nat) (c : tool_call) (partial : assistant_message)
| EDone (reason : string) (message : assistant_message)
| EError (reason : string) (error : assistant_message).

(** ** Field updates *)

Definition with_content (l : list assistant_block) (m : assistant_message) : assistant_message :=
  AssistantMessage l (am_api m) (am_provider m) (am_model m) (am_response_model m)
    (am_response_provider m) (am_response_id m) (am_diagnostics m) (am_usage m)
    (am_stop_reason m) (am_error_message m) (am_timestamp m).
Definition with_response_provider (p : option string) (m : assistant_message) : assistant_message :=
  AssistantMessage (am_content m) (am_api m) (am_provider m) (am_model m) (am_response_model m)
    p (am_response_id m) (am_diagnostics m) (am_usage m) (am_stop_reason m) (am_error_message m)
    (am_timestamp m).
Definition with_origin (api provider model : string) (m : assistant_message) : assistant_message :=
  AssistantMessage (am_content m) api provider model (am_response_model m)
    (am_response_provider m) (am_response_id m) (am_diagnostics m) (am_usage m)
    (am_stop_reason m) (am_error_message m) (am_timestamp m).
Definition with_stop (reason : string) (m : assistant_message) : assistant_message :=
  AssistantMessage (am_content m) (am_api m) (am_provider m) (am_model m) (am_response_model m)
    (am_response_provider m) (am_response_id m) (am_diagnostics m) (am_usage m) reason
    (am_error_message m) (am_timestamp m).
Definition with_error (message : string) (m : assistant_message) : assistant_message :=
  AssistantMessage (am_content m) (am_api m) (am_provider m) (am_model m) (am_response_model m)
    (am_response_provider m) (am_response_id m) (am_diagnostics m) (am_usage m) "error"
    (Some message) (am_timestamp m).
Definition with_diagnostics (d : option (list diagnostic)) (m : assistant_message) : assistant_message :=
  AssistantMessage (am_content m) (am_api m) (am_provider m) (am_model m) (am_response_model m)
    (am_response_provider m) (am_response_id m) d (am_usage m) (am_stop_reason m)
    (am_error_message m) (am_timestamp m).
Definition with_usage (u : usage) (m : assistant_message) : assistant_message :=
  AssistantMessage (am_content m) (am_api m) (am_provider m) (am_model m) (am_response_model m)
    (am_response_provider m) (am_response_id m) (am_diagnostics m) u (am_stop_reason m)
    (am_error_message m) (am_timestamp m).

(** ** The bridge *)

Inductive kind := KText | KThinking.
#[global] Instance kind_eq_dec : EqDecision kind.
Proof. solve_decision. Defined.

Record canon := Canon {
  ca_partial : assistant_message;
  ca_active : option (nat * kind);     (* active_index and active_kind, set together *)
  ca_started : bool;
  ca_terminal : bool
}.

Definition push_block (b : assistant_block) (m : assistant_message) : assistant_message :=
  with_content (am_content m ++ [b])%list m.

Definition _end_active_block (partial : assistant_message) (index : option nat) :
    res (list assistant_event) :=
  match index with
  | None => Ok []
  | Some i =>
      match am_content partial !! i with
      | Some (AText t) => Ok [ETextEnd i (tc_text t) partial]
      | Some (AThinking t) => Ok [EThinkingEnd i (th_thinking t) partial]
      | Some (ATool _) => Ok []
      | None => Raise (Exn IndexError "list index out of range")
      end
  end.

(** [block.text += delta]: the asserted block of the active kind. *)
Definition add_delta (k : kind) (i : nat) (delta : string) (m : assistant_message) :
    res assistant_message :=
  match am_content m !! i, k with
  | Some (AText t), KText =>
      Ok (with_content (<[i := AText (TextContent (tc_text t +:+ delta) (tc_signature t))]>
                          (am_content m)) m)
  | Some (AThinking t), KThinking =>
      Ok (with_content (<[i := AThinking (ThinkingContent (th_thinking t +:+ delta)
                                            (th_signature t) (th_redacted t))]> (am_content m)) m)
  | _, _ => Raise (Exn AssertionError "")
  end.

Definition empty_block (k : kind) : assistant_block :=
  match k with
  | KText => AText (TextContent "" None)
  | KThinking => AThinking (ThinkingContent "" None false)
  end.
Definition start_event (k : kind) : nat → assistant_message → assistant_event :=
  match k with KText => ETextStart | KThinking => EThinkingStart end.
Definition delta_event (k : kind) : nat → string → assistant_message → assistant_event :=
  match k with KText => ETextDelta | KThinking => EThinkingDelta end.

(** A fragment of a kind: a block of the other kind ends, one of this kind begins. *)
Definition on_delta (k : kind) (delta : string) (c : canon) : res (list assistant_event * canon) :=
  let continue evs i m :=
    m' ← add_delta k i delta m;
    Ok ((evs ++ [delta_event k i delta m'])%list,
        Canon m' (Some (i, k)) (ca_started c) (ca_terminal c)) in
  match ca_active c with
  | Some (i, k') =>
      if decide (k' = k) then continue [] i (ca_partial c)
      else ends ← _end_active_block (ca_partial c) (Some i);
           let j := length (am_content (ca_partial c)) in
           let m := push_block (empty_block k) (ca_partial c) in
           continue (ends ++ [start_event k j m])%list j m
  | None =>
      let j := length (am_content (ca_partial c)) in
      let m := push_block (empty_block k) (ca_partial c) in
      continue [start_event k j m] j m
  end.

(** [_copy_replay_metadata]: the n-th thinking and the n-th text block take the signatures
    of the n-th of the source. *)
Fixpoint copy_metadata (thinking : list thinking_content) (texts : list text_content)
    (target : list assistant_block) : list assistant_block :=
  match target with
  | [] => []
  | AThinking t :: rest =>
      match thinking with
      | s :: thinking' =>
          AThinking (ThinkingContent (th_thinking t) (th_signature s) (th_redacted s))
            :: copy_metadata thinking' texts rest
      | [] => AThinking t :: copy_metadata [] texts rest
      end
  | AText t :: rest =>
      match texts with
      | s :: texts' => AText (TextContent (tc_text t) (tc_signature s))
                         :: copy_metadata thinking texts' rest
      | [] => AText t :: copy_metadata thinking [] rest
      end
  | b :: rest => b :: copy_metadata thinking texts rest
  end.
Definition _copy_replay_metadata (target source : list assistant_block) : list assistant_block :=
  copy_metadata (flat_map (λ b, match b with AThinking t => [t] | _ => [] end) source)
                (flat_map (λ b, match b with AText t => [t] | _ => [] end) source) target.

Definition _finish_reason (value : option string) (has_tools : bool) : string :=
  let v := default "" value in
  if has_tools || bool_decide (v ∈ ["tool_calls"; "tool_use"; "toolUse"]) then "toolUse"
  else if bool_decide (v ∈ ["length"; "max_tokens"; "MAX_TOKENS"; "incomplete"]) then "length"
  else "stop".

Definition opt_or (o o' : option string) : option string :=
  match o with Some s => if nonempty s then Some s else o' | None => o' end.

Section Canonicalize.
Variables (now : Z) (api provider model : string).

Definition final_message (partial message : assistant_message) (finish_reason : option string) :
    assistant_message :=
  let final := with_origin api provider model message in
  let final := with_response_provider
                 (opt_or (am_response_provider message) (am_response_provider partial)) final in
  let content := match am_content partial with [] => am_content message | l => l end in
  let final := with_content (_copy_replay_metadata content (am_content message)) final in
  with_stop (_finish_reason finish_reason
               (match tool_calls final with [] => false | _ => true end)) final.

Definition on_event (e : provider_event) (c : canon) : res (list assistant_event * canon) :=
  match e with
  | PTextDelta delta => on_delta KText delta c
  | PThinkingDelta delta => on_delta KThinking delta c
  | PToolCall tc =>
      ends ← _end_active_block (ca_partial c) (fst <$> ca_active c);
      let j := length (am_content (ca_partial c)) in
      let m := push_block (ATool tc) (ca_partial c) in
      Ok ((ends ++ [EToolCallStart j m; EToolCallEnd j tc m])%list,
          Canon m None (ca_started c) (ca_terminal c))
  | PResponseEnd message finish_reason =>
      ends ← _end_active_block (ca_partial c) (fst <$> ca_active c);
      let final := final_message (ca_partial c) message finish_reason in
      Ok ((ends ++ [EDone (am_stop_reason final) final])%list,
          Canon (ca_partial c) None (ca_started c) true)
  | PError message data response_provider =>
      let error := with_response_provider
                     (opt_or response_provider (am_response_provider (ca_partial c))) (ca_partial c) in
      let error := with_diagnostics
                     (Some [Diagnostic "provider_error" now None data]) (with_error message error) in
      Ok ([EError "error" error], Canon (ca_partial c) (ca_active c) (ca_started c) true)
  | _ => Ok ([], c)
  end.

(** One turn of the loop. *)
Definition canon_step (e : provider_event) (c : canon) : res (list assistant_event * canon) :=
  match e with
  | PRetry _ _ _ _ _ => Ok ([], c)
  | PResponseStart _ rp =>
      let m := match rp with
               | Some _ => with_response_provider rp (ca_partial c)
               | None => ca_partial c
               end in
      Ok (if ca_started c then [] else [EStart m], Canon m (ca_active c) true (ca_terminal c))
  | _ =>
      r ← on_event e (Canon (ca_partial c) (ca_active c) true (ca_terminal c));
      Ok (((if ca_started c then [] else [EStart (ca_partial c)]) ++ r.1)%list, r.2)
  end.

Fixpoint canon_loop (source : list provider_event) (c : canon) : res (list assistant_event * canon) :=
  match source with
  | [] => Ok ([], c)
  | e :: rest =>
      r ← canon_step e c;
      r' ← canon_loop rest r.2;
      Ok ((r.1 ++ r'.1)%list, r'.2)
  end.

Definition canon_init : canon :=
  Canon (with_origin api provider model (new_assistant now [] Usage_default)) None false false.

Definition canonicalize_provider_stream (source : list provider_event) : res (list assistant_event) :=
  r ← canon_loop source canon_init;
  let c := r.2 in
  Ok (r.1 ++ (if ca_started c then [] else [EStart (ca_partial c)])
          ++ (if ca_terminal c then []
              else [EError "error" (with_usage Usage_default
                      (with_error "Provider stream ended without a terminal event" (ca_partial c)))]))%list.
End Canonicalize.

(** ** The protocol of assistant events

    What a consumer of the stream relies on: one start, then blocks numbered from 0 that
    open, grow and close one at a time, a closing event repeating what the deltas added up
    to, then one terminal event, after which nothing follows.  An error may cut an open
    block. *)

Definition block_kind (b : assistant_block) : option kind :=
  match b with AText _ => Some KText | AThinking _ => Some KThinking | ATool _ => None end.
Definition block_str (b : assistant_block) : string :=
  match b with AText t => tc_text t | AThinking t => th_thinking t | ATool _ => "" end.
Definition end_event (k : kind) : nat → string → assistant_message → assistant_event :=
  match k with KText => ETextEnd | KThinking => EThinkingEnd end.

(** Block [n] is the last of the snapshot, of kind [k], and holds [acc]. *)
Definition shows (m : assistant_message) (k : kind) (n : nat) (acc : string) : Prop :=
  length (am_content m) = S n ∧
  ∃ b, am_content m !! n = Some b ∧ block_kind b = Some k ∧ block_str b = acc.

Inductive pstate :=
| Fresh
| Idle (n : nat)                       (* [n] blocks so far, none open *)
| Open (k : kind) (n : nat) (acc : string)
| InTool (n : nat) (c : tool_call)
| Finished.

Inductive event_step : pstate → assistant_event → pstate → Prop :=
| st_start m : am_content m = [] → event_step Fresh (EStart m) (Idle 0)
| st_open k n m : shows m k n "" → event_step (Idle n) (start_event k n m) (Open k n "")
| st_delta k n acc d m : shows m k n (acc +:+ d) →
    event_step (Open k n acc) (delta_event k n d m) (Open k n (acc +:+ d))
| st_end k n acc m : shows m k n acc →
    event_step (Open k n acc) (end_event k n acc m) (Idle (S n))
| st_tool n c m : length (am_content m) = S n → am_content m !! n = Some (ATool c) →
    event_step (Idle n) (EToolCallStart n m) (InTool n c)
| st_tool_end n c m : am_content m !! n = Some (ATool c) →
    event_step (InTool n c) (EToolCallEnd n c m) (Idle (S n))
| st_done n r m : am_stop_reason m = r → event_step (Idle n) (EDone r m) Finished
| st_error_idle n r m : length (am_content m) = n → event_step (Idle n) (EError r m) Finished
| st_error_open k n acc r m : shows m k n acc →
    event_step (Open k n acc) (EError r m) Finished.

Inductive event_run : pstate → list assistant_event → pstate → Prop :=
| run_nil p : event_run p [] p
| run_cons p e p' l q : event_step p e p' → event_run p' l q → event_run p (e :: l) q.

Create HintDb stream.
#[local] Hint Constructors event_step event_run : stream.

Lemma event_run_app p l q l' r :
  event_run p l q → event_run q l' r → event_run p (l ++ l')%list r.
Proof. induction 1; simpl; eauto with stream. Qed.

Definition is_terminal (e : provider_event) : bool :=
  match e with PResponseEnd _ _ | PError _ _ _ => true | _ => false end.

(** ** The blocks a source describes: fragments of one kind in a row make one block. *)

Definition grow (d : string) (b : assistant_block) : assistant_block :=
  match b with
  | AText t => AText (TextContent (tc_text t +:+ d) (tc_signature t))
  | AThinking t => AThinking (ThinkingContent (th_thinking t +:+ d) (th_signature t) (th_redacted t))
  | ATool c => ATool c
  end.
Fixpoint add_fragment (k : kind) (d : string) (l : list assistant_block) : list assistant_block :=
  match l with
  | [] => [grow d (empty_block k)]
  | [b] => if decide (block_kind b = Some k) then [grow d b] else [b; grow d (empty_block k)]
  | b :: l' => b :: add_fragment k d l'
  end.
Definition add_event (l : list assistant_block) (e : provider_event) : list assistant_block :=
  match e with
  | PTextDelta d => add_fragment KText d l
  | PThinkingDelta d => add_fragment KThinking d l
  | PToolCall c => (l ++ [ATool c])%list
  | _ => l
  end.
Definition stream_blocks (source : list provider_event) : list assistant_block :=
  fold_left add_event source [].

Lemma add_fragment_last k d l b :
  add_fragment k d (l ++ [b])%list =
  if decide (block_kind b = Some k) then (l ++ [grow d b])%list
  else (l ++ [b; grow d (empty_block k)])%list.
Proof.
  induction l as [|x l IH]; simpl; [by case_decide|].
  rewrite IH. destruct l as [|y l]; simpl; by case_decide.
Qed.

(** ** The bridge follows the protocol *)

(** The loop's variables, the blocks so far and the consumer's view of them. *)
Inductive tracks : canon → list assistant_block → pstate → Prop :=
| tracks_fresh m :
    am_content m = [] → tracks (Canon m None false false) [] Fresh
| tracks_idle m :
    (∀ l b, am_content m = (l ++ [b])%list → block_kind b = None) →
    tracks (Canon m None true false) (am_content m) (Idle (length (am_content m)))
| tracks_open m l b k :
    am_content m = (l ++ [b])%list → block_kind b = Some k →
    tracks (Canon m (Some (length l, k)) true false) (am_content m) (Open k (length l) (block_str b)).

Lemma lookup_mid {A} (l : list A) x : (l ++ [x])%list !! length l = Some x.
Proof. by rewrite lookup_app_r, Nat.sub_diag by lia. Qed.
Lemma insert_mid {A} (l : list A) x y : <[length l := y]> (l ++ [x])%list = (l ++ [y])%list.
Proof. rewrite insert_app_r_alt, Nat.sub_diag by lia. done. Qed.
Lemma last_view {A} (l : list A) : l = [] ∨ ∃ l' x, l = (l' ++ [x])%list.
Proof. destruct l using rev_ind; eauto. Qed.

Lemma str_app_nil (d : string) : "" +:+ d = d.
Proof. done. Qed.
Lemma grow_kind d b : block_kind (grow d b) = block_kind b.
Proof. by destruct b. Qed.
Lemma grow_str d b k : block_kind b = Some k → block_str (grow d b) = block_str b +:+ d.
Proof. by destruct b. Qed.
Lemma empty_block_kind k : block_kind (empty_block k) = Some k.
Proof. by destruct k. Qed.
Lemma empty_block_str k : block_str (empty_block k) = "".
Proof. by destruct k. Qed.
#[local] Hint Resolve empty_block_kind empty_block_str : stream.

Lemma add_delta_last k d l b m :
  am_content m = (l ++ [b])%list → block_kind b = Some k →
  add_delta k (length l) d m = Ok (with_content (l ++ [grow d b])%list m).
Proof.
  intros Hm Hb. unfold add_delta. rewrite Hm, lookup_mid.
  destruct b, k; simplify_eq/=; by rewrite insert_mid.
Qed.
Lemma end_active_last l b k m :
  am_content m = (l ++ [b])%list → block_kind b = Some k →
  _end_active_block m (Some (length l)) = Ok [end_event k (length l) (block_str b) m].
Proof.
  intros Hm Hb. unfold _end_active_block. rewrite Hm, lookup_mid. by destruct b, k; simplify_eq/=.
Qed.
Lemma shows_last l b k m :
  am_content m = (l ++ [b])%list → block_kind b = Some k → shows m k (length l) (block_str b).
Proof.
  intros Hm Hb. unfold shows. rewrite Hm, lookup_mid, length_app. simpl. split; [lia|eauto].
Qed.
#[local] Hint Resolve shows_last : stream.

(** A new block opens and takes a fragment. *)
Lemma open_delta k d m :
  let j := length (am_content m) in
  let m1 := push_block (empty_block k) m in
  ∃ m2, add_delta k j d m1 = Ok m2 ∧ am_content m2 = (am_content m ++ [grow d (empty_block k)])%list ∧
    event_run (Idle j) [start_event k j m1; delta_event k j d m2] (Open k j d).
Proof.
  intros j m1. eexists. split; [by apply (add_delta_last _ _ _ (empty_block k)); auto with stream|].
  split; [done|]. econstructor; [apply st_open|econstructor; [|constructor]].
  - rewrite <-(empty_block_str k). by apply shows_last; auto with stream.
  - apply (st_delta k j ""). rewrite str_app_nil.
    replace d with (block_str (grow d (empty_block k))) at 2
      by (rewrite (grow_str d _ k), empty_block_str; auto with stream).
    apply shows_last; [done|]. by rewrite grow_kind, empty_block_kind.
Qed.

#[local] Arguments _end_active_block : simpl never.
#[local] Arguments add_delta : simpl never.

Lemma tracks_open' m l b k acc n bl :
  am_content m = (l ++ [b])%list → block_kind b = Some k → n = length l → acc = block_str b →
  bl = (l ++ [b])%list → tracks (Canon m (Some (n, k)) true false) bl (Open k n acc).
Proof. intros Hm Hb -> -> ->. rewrite <-Hm. by apply tracks_open. Qed.

Lemma on_delta_tracks k d c l p :
  tracks c l p → ca_started c = true →
  ∃ evs c' p', on_delta k d c = Ok (evs, c') ∧ event_run p evs p' ∧ tracks c' (add_fragment k d l) p'.
Proof.
  destruct 1 as [m Hm|m Hm|m l b k' Hm Hb]; intros Hs; [done|..]; unfold on_delta; simpl.
  - destruct (open_delta k d m) as (m2 & -> & Hc & Hrun). simpl.
    do 3 eexists. split; [done|]. split; [exact Hrun|].
    eapply tracks_open'; [exact Hc|rewrite grow_kind; auto with stream|done| |].
    + by rewrite (grow_str d _ k), empty_block_str by auto with stream.
    + destruct (last_view (am_content m)) as [E|(l & b & E)]; [by rewrite E|].
      rewrite E, add_fragment_last, (Hm _ _ E). simpl. by rewrite <-app_assoc.
  - case_decide as Hk; [subst k'|].
    + rewrite (add_delta_last k d l b m Hm Hb). simpl. do 3 eexists. split; [done|].
      assert (shows (with_content (l ++ [grow d b])%list m) k (length l) (block_str b +:+ d)).
      { rewrite <-(grow_str d b k Hb). apply shows_last; [done|]. by rewrite grow_kind. }
      split; [econstructor; [by apply st_delta|constructor]|].
      eapply tracks_open'; [done|by rewrite grow_kind|done|by rewrite (grow_str d b k)|].
      rewrite Hm, add_fragment_last, Hb. by rewrite decide_True.
    + rewrite (end_active_last l b k' m Hm Hb). simpl.
      destruct (open_delta k d m) as (m2 & -> & Hc & Hrun). simpl.
      do 3 eexists. split; [done|].
      split; [econstructor; [apply st_end; eauto with stream|]|].
      * assert (S (length l) = length (am_content m)) as -> by (rewrite Hm, length_app; simpl; lia).
        exact Hrun.
      * eapply tracks_open'; [exact Hc|rewrite grow_kind; auto with stream|done| |].
        -- by rewrite (grow_str d _ k), empty_block_str by auto with stream.
        -- rewrite Hm, add_fragment_last, Hb, decide_False by congruence. by rewrite <-app_assoc.
Qed.

Lemma start_tracks c l p :
  tracks c l p →
  ∃ p', event_run p (if ca_started c then [] else [EStart (ca_partial c)]) p' ∧
        tracks (Canon (ca_partial c) (ca_active c) true (ca_terminal c)) l p'.
Proof.
  destruct 1 as [m Hm|m Hm|m l b k Hm Hb]; simpl.
  - exists (Idle 0). split; [by repeat econstructor|].
    assert (tracks (Canon m None true false) (am_content m) (Idle (length (am_content m)))) as H.
    { constructor. rewrite Hm. by intros [] ?. }
    by rewrite Hm in H.
  - eexists. split; [constructor|by constructor].
  - eexists. split; [constructor|by constructor].
Qed.

(** Ending the open block, if there is one. *)
Lemma end_active_tracks c l p :
  tracks c l p → ca_started c = true →
  ∃ evs, _end_active_block (ca_partial c) (fst <$> ca_active c) = Ok evs ∧
    event_run p evs (Idle (length l)) ∧ am_content (ca_partial c) = l ∧ ca_terminal c = false.
Proof.
  destruct 1 as [m Hm|m Hm|m l b k Hm Hb]; intros Hs; simpl in *; [done|..].
  - exists []. split_and!; try done. constructor.
  - rewrite (end_active_last l b k m Hm Hb). eexists. split_and!; try done.
    rewrite Hm, length_app, Nat.add_1_r. econstructor; [apply st_end; eauto with stream|constructor].
Qed.

Lemma tracks_content c l p m' :
  tracks c l p → am_content m' = am_content (ca_partial c) →
  tracks (Canon m' (ca_active c) (ca_started c) (ca_terminal c)) l p.
Proof.
  destruct 1 as [m Hm|m Hm|m l b k Hm Hb]; simpl; intros E.
  - constructor. congruence.
  - rewrite <-E. constructor. rewrite E. done.
  - rewrite <-E. constructor; congruence.
Qed.

Section Runs.
Variables (now : Z) (api provider model : string).

Lemma step_tracks e c l p :
  tracks c l p → is_terminal e = false →
  ∃ evs c' p', canon_step now api provider model e c = Ok (evs, c') ∧ event_run p evs p' ∧
    tracks c' (add_event l e) p'.
Proof.
  intros Ht He. destruct (start_tracks c l p Ht) as (p1 & Hrun & Ht1).
  destruct e as [|? ? ? ? ?|d|d|tc| |]; try done; simpl.
  - match goal with |- context [Canon ?m (ca_active c) true _] => set (m' := m) end.
    assert (am_content m' = am_content (ca_partial c)) as Hc by (unfold m'; by destruct response_provider).
    destruct (start_tracks _ _ _ (tracks_content _ _ _ m' Ht Hc)) as (p2 & Hrun2 & Ht2).
    simpl in *. do 3 eexists. split; [done|]. by split.
  - do 3 eexists. split; [done|]. split; [constructor|done].
  - destruct (on_delta_tracks KText d _ _ _ Ht1 eq_refl) as (evs & c' & p' & -> & Hrun' & Ht').
    simpl. do 3 eexists. split; [done|]. split; [by eapply event_run_app|done].
  - destruct (on_delta_tracks KThinking d _ _ _ Ht1 eq_refl) as (evs & c' & p' & -> & Hrun' & Ht').
    simpl. do 3 eexists. split; [done|]. split; [by eapply event_run_app|done].
  - destruct (end_active_tracks _ _ _ Ht1 eq_refl) as (evs & E & Hends & <- & Hterm).
    simpl in *. rewrite E. simpl. do 3 eexists. split; [done|]. split.
    + eapply event_run_app; [done|]. eapply event_run_app; [done|].
      econstructor; [apply (st_tool _ tc)|econstructor; [apply st_tool_end|constructor]]; simpl;
        rewrite ?length_app, ?lookup_mid; simpl; auto with lia.
    + rewrite Hterm.
      replace (S _) with (length (am_content (push_block (ATool tc) (ca_partial c))))
        by (simpl; rewrite length_app; simpl; lia).
      apply (tracks_idle (push_block (ATool tc) (ca_partial c))). simpl.
      by intros ? ? [_ <-]%app_inj_tail.
Qed.

Lemma loop_tracks body c l p :
  tracks c l p → forallb (λ e, negb (is_terminal e)) body = true →
  ∃ evs c' p', canon_loop now api provider model body c = Ok (evs, c') ∧ event_run p evs p' ∧
    tracks c' (fold_left add_event body l) p'.
Proof.
  revert c l p. induction body as [|e body IH]; intros c l p Ht; simpl.
  - intros _. do 3 eexists. split; [done|]. split; [constructor|done].
  - intros [He Hb]%andb_true_iff. apply negb_true_iff in He.
    destruct (step_tracks e c l p Ht He) as (evs & c1 & p1 & -> & Hrun & Ht1). simpl.
    destruct (IH _ _ _ Ht1 Hb) as (evs' & c2 & p2 & -> & Hrun' & Ht2). simpl.
    do 3 eexists. split; [done|]. split; [by eapply event_run_app|done].
Qed.

Lemma canon_loop_app s1 s2 c :
  canon_loop now api provider model (s1 ++ s2)%list c =
  (r ← canon_loop now api provider model s1 c;
   r' ← canon_loop now api provider model s2 r.2;
   Ok ((r.1 ++ r'.1)%list, r'.2)).
Proof.
  revert c. induction s1 as [|e s1 IH]; intros c; simpl.
  - by destruct (canon_loop _ _ _ _ s2 c) as [[]|].
  - destruct (canon_step _ _ _ _ e c) as [[evs c1]|]; [|done]. simpl. rewrite IH.
    destruct (canon_loop _ _ _ _ s1 c1) as [[evs1 c2]|]; [|done]. simpl.
    destruct (canon_loop _ _ _ _ s2 c2) as [[evs2 c3]|]; [|done]. simpl. by rewrite app_assoc.
Qed.

Lemma end_tracks m fr c l p :
  tracks c l p →
  ∃ evs c', canon_step now api provider model (PResponseEnd m fr) c =
      Ok ((evs ++ [EDone (am_stop_reason (final_message api provider model (ca_partial c) m fr))
                    (final_message api provider model (ca_partial c) m fr)])%list, c') ∧
    event_run p evs (Idle (length l)) ∧ ca_started c' = true ∧ ca_terminal c' = true ∧
    am_content (ca_partial c) = l.
Proof.
  intros Ht. destruct (start_tracks c l p Ht) as (p1 & Hrun & Ht1).
  destruct (end_active_tracks _ _ _ Ht1 eq_refl) as (evs & Hends & Hrun' & Hc & _). simpl in *.
  rewrite Hends. simpl. do 2 eexists. rewrite app_assoc. split; [done|].
  split; [by eapply event_run_app|]. done.
Qed.

Lemma error_tracks msg data rp c l p :
  tracks c l p →
  ∃ evs c', canon_step now api provider model (PError msg data rp) c = Ok (evs, c') ∧
    event_run p evs Finished ∧ ca_started c' = true ∧ ca_terminal c' = true.
Proof.
  intros Ht. destruct (start_tracks c l p Ht) as (p1 & Hrun & Ht1). simpl.
  do 2 eexists. split; [done|]. split; [|done]. eapply event_run_app; [done|].
  econstructor; [|constructor]. inversion Ht1 as [|m Hm|m l' b k Hm Hb]; subst; simpl in *.
  - by constructor.
  - eapply st_error_open. by eapply (shows_last l' b).
Qed.
End Runs.

(** ** Content *)

(** A block without the provider's replay metadata. *)
Definition plain (b : assistant_block) : assistant_block :=
  match b with
  | AText t => AText (TextContent (tc_text t) None)
  | AThinking t => AThinking (ThinkingContent (th_thinking t) None false)
  | ATool c => ATool c
  end.

Lemma copy_metadata_plain th tx l : map plain (copy_metadata th tx l) = map plain l.
Proof.
  revert th tx. induction l as [|[t|t|c] l IH]; intros th tx; simpl; [done|..].
  - destruct tx; simpl; by rewrite IH.
  - destruct th; simpl; by rewrite IH.
  - by rewrite IH.
Qed.

(** What the accessors of a message show does not depend on the metadata. *)
Lemma plain_text l l' :
  map plain l = map plain l' →
  map ablock_text l = map ablock_text l' ∧
  map (λ b, match b with AThinking t => th_thinking t | _ => "" end) l =
    map (λ b, match b with AThinking t => th_thinking t | _ => "" end) l' ∧
  tool_calls_of l = tool_calls_of l'.
Proof.
  revert l'. induction l as [|b l IH]; intros [|b' l']; try done; simpl.
  intros [= Hb Hl]. destruct (IH _ Hl) as (-> & -> & H3). unfold tool_calls_of in *.
  destruct b, b'; simplify_eq/=; rewrite ?H3; split_and!; congruence.
Qed.

Definition text_of (e : provider_event) : string := match e with PTextDelta d => d | _ => "" end.
Definition thinking_of (e : provider_event) : string :=
  match e with PThinkingDelta d => d | _ => "" end.
Definition calls_of (e : provider_event) : list tool_call :=
  match e with PToolCall c => [c] | _ => [] end.

Lemma str_concat_app l l' : str_concat (l ++ l')%list = str_concat l +:+ str_concat l'.
Proof. induction l as [|s l IH]; [done|]. simpl. rewrite IH. by rewrite <-str_app_assoc. Qed.

Lemma str_concat_empty {A} (f : A → string) l : (∀ x, f x = "") → str_concat (map f l) = "".
Proof. intros Hf. induction l as [|x l IH]; [done|]. simpl. by rewrite Hf, IH. Qed.

Section Fragments.
Variables (f : assistant_block → string) (k0 : kind).
Hypothesis f_grow : ∀ d b k, block_kind b = Some k →
  f (grow d b) = f b +:+ (if decide (k = k0) then d else "").
Hypothesis f_empty : ∀ k, f (empty_block k) = "".

Lemma add_fragment_str k d l :
  str_concat (map f (add_fragment k d l)) =
  str_concat (map f l) +:+ (if decide (k = k0) then d else "").
Proof.
  destruct (last_view l) as [->|(l' & b & ->)]; simpl.
  - rewrite (f_grow d _ k), f_empty by auto with stream. by rewrite str_app_nil_r.
  - rewrite add_fragment_last. case_decide as Hb; rewrite !map_app, !str_concat_app; simpl.
    + rewrite (f_grow d b k Hb). by rewrite !str_app_nil_r, str_app_assoc.
    + rewrite (f_grow d (empty_block k) k), f_empty by auto with stream.
      by rewrite !str_app_nil_r, str_app_assoc.
Qed.
End Fragments.

Lemma add_fragment_calls k d l : tool_calls_of (add_fragment k d l) = tool_calls_of l.
Proof.
  unfold tool_calls_of.
  destruct (last_view l) as [->|(l' & b & ->)]; [by destruct k|].
  rewrite add_fragment_last. case_decide as Hb; rewrite !flat_map_app; f_equal; destruct b, k; done.
Qed.

Lemma stream_blocks_snoc body e :
  stream_blocks (body ++ [e])%list = add_event (stream_blocks body) e.
Proof. unfold stream_blocks. by rewrite fold_left_app. Qed.

(** The side conditions of [add_fragment_str]. *)
Ltac fragments :=
  first [ by intros []
        | let d := fresh in intros d [?|?|?] []; intros; simplify_eq/=;
          repeat case_decide; try done; by rewrite ?str_app_nil_r ].

Lemma add_event_accessors l e :
  str_concat (map ablock_text (add_event l e)) = str_concat (map ablock_text l) +:+ text_of e ∧
  str_concat (map (λ b, match b with AThinking t => th_thinking t | _ => "" end) (add_event l e)) =
    str_concat (map (λ b, match b with AThinking t => th_thinking t | _ => "" end) l) +:+ thinking_of e ∧
  tool_calls_of (add_event l e) = (tool_calls_of l ++ calls_of e)%list.
Proof.
  destruct e as [| |d|d|c| |]; simpl; rewrite ?str_app_nil_r, ?app_nil_r; try done.
  - rewrite !(add_fragment_str ablock_text KText), add_fragment_calls by fragments.
    rewrite (add_fragment_str _ KThinking) by fragments.
    by rewrite decide_True, decide_False, str_app_nil_r by done.
  - rewrite !(add_fragment_str ablock_text KText), add_fragment_calls by fragments.
    rewrite (add_fragment_str _ KThinking) by fragments.
    by rewrite decide_False, decide_True, str_app_nil_r by done.
  - unfold tool_calls_of. rewrite !map_app, flat_map_app, !str_concat_app. simpl. by rewrite ?str_app_nil_r.
Qed.

Lemma stream_blocks_accessors body :
  str_concat (map ablock_text (stream_blocks body)) = str_concat (map text_of body) ∧
  str_concat (map (λ b, match b with AThinking t => th_thinking t | _ => "" end) (stream_blocks body)) =
    str_concat (map thinking_of body) ∧
  tool_calls_of (stream_blocks body) = flat_map calls_of body.
Proof.
  induction body as [|e body (IH1 & IH2 & IH3)] using rev_ind; [done|].
  rewrite stream_blocks_snoc, !map_app, flat_map_app, !str_concat_app.
  destruct (add_event_accessors (stream_blocks body) e) as (-> & -> & ->).
  rewrite IH1, IH2, IH3. simpl. by rewrite !str_app_nil_r, app_nil_r.
Qed.

(** ** Theorems *)

Lemma canon_init_tracks now api provider model :
  tracks (canon_init now api provider model) [] Fresh.
Proof. by constructor. Qed.

(** The whole stream of a source whose last event is terminal. *)
Lemma canonicalize_terminal now api provider model body e evs c evs' c' :
  canon_loop now api provider model body (canon_init now api provider model) = Ok (evs, c) →
  canon_step now api provider model e c = Ok (evs', c') →
  ca_started c' = true → ca_terminal c' = true →
  canonicalize_provider_stream now api provider model (body ++ [e])%list = Ok (evs ++ evs')%list.
Proof.
  intros Hb He Hs Ht. unfold canonicalize_provider_stream.
  rewrite canon_loop_app, Hb. cbn [canon_loop mbind res_bind fst snd]. rewrite He. simpl.
  by rewrite Hs, Ht, !app_nil_r.
Qed.

Definition no_terminal (source : list provider_event) : bool :=
  forallb (λ e, negb (is_terminal e)) source.

Lemma canonical_run now api provider model source :
  no_terminal (removelast source) = true →
  ∃ evs, canonicalize_provider_stream now api provider model source = Ok evs ∧
    event_run Fresh evs Finished.
Proof.
  intros Hs. pose proof (canon_init_tracks now api provider model) as Hi.
  assert (no_terminal source = true ∨ ∃ body e, source = (body ++ [e])%list ∧
            no_terminal body = true ∧ is_terminal e = true) as [Hn|(body & e & -> & Hn & He)].
  { destruct (last_view source) as [->|(body & e & ->)]; [by left|].
    rewrite removelast_last in Hs. destruct (is_terminal e) eqn:He; [right; by eauto|left].
    unfold no_terminal. rewrite forallb_app. simpl. by rewrite He, andb_true_r. }
  - destruct (loop_tracks now api provider model _ _ _ _ Hi Hn) as (evs & c & p & Hl & Hrun & Ht).
    unfold canonicalize_provider_stream. rewrite Hl. simpl. eexists. split; [done|].
    destruct (start_tracks _ _ _ Ht) as (p' & Hstart & Ht'). eapply event_run_app; [done|].
    eapply event_run_app; [done|].
    assert (ca_terminal c = false) as -> by (by destruct Ht).
    econstructor; [|constructor]. inversion Ht' as [|m Hm Hc|m l b k Hm Hb Hc]; subst; simpl in *.
    + by constructor.
    + eapply st_error_open. by eapply (shows_last l b).
  - destruct (loop_tracks now api provider model _ _ _ _ Hi Hn) as (evs & c & p & Hl & Hrun & Ht).
    destruct e as [| | | | |m fr|msg data rp]; try done.
    + destruct (end_tracks now api provider model m fr _ _ _ Ht) as (evs' & c' & Hstep & Hrun' & ? & ? & _).
      erewrite canonicalize_terminal by done. eexists. split; [done|].
      eapply event_run_app; [done|]. eapply event_run_app; [done|].
      econstructor; [by constructor|constructor].
    + destruct (error_tracks now api provider model msg data rp _ _ _ Ht) as (evs' & c' & Hstep & Hrun' & ? & ?).
      erewrite canonicalize_terminal by done. eexists. split; [done|]. by eapply event_run_app.
Qed.

(** Whatever a provider's parser emits, as long as only its last event is terminal, the
    canonical stream does not fail and obeys the consumer's protocol from the start event
    to one terminal event: blocks open, grow and close one at a time in index order,
    snapshots show the block the event is about, closing events repeat the sum of the
    deltas, and a source that stops without a terminal event is closed by an error. *)
Theorem canonical_protocol now api provider model source :
  no_terminal (removelast source) = true →
  ∃ evs, canonicalize_provider_stream now api provider model source = Ok evs ∧
    event_run Fresh evs Finished.
Proof. apply canonical_run. Qed.

Lemma final_message_stop api provider model partial m fr :
  tool_calls (final_message api provider model partial m fr) ≠ [] →
  am_stop_reason (final_message api provider model partial m fr) = "toolUse".
Proof.
  unfold final_message, tool_calls. cbn [am_stop_reason am_content with_stop with_content].
  by destruct (tool_calls_of _).
Qed.

(** C15: the message a successful stream ends with holds exactly what was streamed: its
    blocks are the streamed ones in order up to replay metadata, its text, its thinking and
    its tool calls are those of the fragments and calls in order, and only when nothing was
    streamed are they the parser's; usage is the parser's, and a message with tool calls
    stops for tool use. *)
Theorem canonical_content now api provider model body m fr :
  no_terminal body = true →
  ∃ evs final,
    canonicalize_provider_stream now api provider model (body ++ [PResponseEnd m fr])%list =
      Ok (evs ++ [EDone (am_stop_reason final) final])%list ∧
    map plain (am_content final) =
      map plain (match stream_blocks body with [] => am_content m | l => l end) ∧
    (stream_blocks body ≠ [] →
       assistant_text final = str_concat (map text_of body) ∧
       thinking_text final = str_concat (map thinking_of body) ∧
       tool_calls final = flat_map calls_of body) ∧
    am_usage final = am_usage m ∧
    (tool_calls final ≠ [] → am_stop_reason final = "toolUse").
Proof.
  intros Hn. pose proof (canon_init_tracks now api provider model) as Hi.
  destruct (loop_tracks now api provider model _ _ _ _ Hi Hn) as (evs & c & p & Hl & Hrun & Ht).
  destruct (end_tracks now api provider model m fr _ _ _ Ht) as (evs' & c' & Hstep & _ & ? & ? & Hc).
  eexists (evs ++ evs')%list, _. erewrite canonicalize_terminal, app_assoc by done. split; [done|].
  change (fold_left add_event body []) with (stream_blocks body) in Hc.
  assert (map plain (am_content (final_message api provider model (ca_partial c) m fr)) =
          map plain (match stream_blocks body with [] => am_content m | l => l end)) as Hplain.
  { simpl. unfold _copy_replay_metadata. by rewrite copy_metadata_plain, Hc. }
  split; [done|]. split; [|split; [done|]].
  - intros Hne. assert (map plain (am_content (final_message api provider model (ca_partial c) m fr)) =
      map plain (stream_blocks body)) as Hp by (rewrite Hplain; by destruct (stream_blocks body)).
    apply plain_text in Hp as (H1 & H2 & H3). unfold assistant_text, thinking_text, tool_calls.
    rewrite H1, H2, H3. apply stream_blocks_accessors.
  - intros Hne. apply final_message_stop. exact Hne.
Qed.

(** A stream with interleaved fragments, and one that breaks off. *)
Definition sample_source : list provider_event :=
  [PResponseStart "m" None; PThinkingDelta "hm"; PTextDelta "a"; PTextDelta "b";
   PToolCall (ToolCall "1" "run" [] None)].
Definition sample_final : assistant_message :=
  new_assistant 0 [AThinking (ThinkingContent "hm" (Some "sig") false)] Usage_default.

Lemma canonical_protocol_witness :
  (∃ evs, canonicalize_provider_stream 0 "api" "p" "m"
            (sample_source ++ [PResponseEnd sample_final None])%list = Ok evs ∧
     event_run Fresh evs Finished) ∧
  (∃ evs, canonicalize_provider_stream 0 "api" "p" "m" sample_source = Ok evs ∧
     event_run Fresh evs Finished).
Proof.
  split; apply canonical_protocol; reflexivity.
Defined.

Lemma canonical_content_witness :
  no_terminal sample_source = true ∧
  ∃ evs final,
    canonicalize_provider_stream 0 "api" "p" "m" (sample_source ++ [PResponseEnd sample_final None])%list =
      Ok (evs ++ [EDone (am_stop_reason final) final])%list ∧
    assistant_text final = "ab".
Proof.
  split; [reflexivity|].
  destruct (canonical_content 0 "api" "p" "m" sample_source sample_final None eq_refl)
    as (evs & final & Hrun & _ & Hc & _).
  exists evs, final. split; [exact Hrun|]. destruct Hc as [Ht _]; [discriminate|exact Ht].
Defined.
