(* ===== verification/LlmRuntime.v ===== *)
(** * What the provider adapters share at run time

    Provider configuration (adapters/env.py), the host test of adapters/openai_cache.py,
    retry delays, retry events and the interruptible wait (adapters/retry.py), and the
    exchange with the HTTP client.  The client and the servers behind it are not part of the
    sources: an adapter's theorems quantify over the [exchange] each request leads to.

    Seconds are rationals; the rounding of binary floating point is not modelled. *)

From stdpp Require Import base gmap strings list pretty.
From Stdlib Require Import ZArith QArith Qround Qminmax Lqa Ascii.
From S2P Require Import Prelude PyValue Json LlmTypes LlmStream.

Local Open Scope string_scope.
Local Open Scope nat_scope.

(** ** Strings *)

(** [s.lower()] and [s.casefold()] on ASCII letters; other characters are kept. *)
Definition lower_ascii (c : ascii) : ascii :=
  let n := ord c in if ((65 <=? n) && (n <=? 90))%Z then chr (n + 32) else c.
Fixpoint lower (s : string) : string :=
  match s with EmptyString => EmptyString | String c s' => String (lower_ascii c) (lower s') end.

Definition startswith (p s : string) : bool := String.prefix p s.
(** [s[n:]] in bytes *)
Definition str_drop (n : nat) (s : string) : string := String.substring n (String.length s - n) s.
Definition removeprefix (p s : string) : string :=
  if startswith p s then str_drop (String.length p) s else s.
Definition endswith (p s : string) : bool :=
  (String.length p <=? String.length s) &&
  bool_decide (str_drop (String.length s - String.length p) s = p).
(** [s.rstrip(c)] for one character *)
Fixpoint rstrip_list (c : ascii) (l : list ascii) : list ascii :=
  match l with
  | [] => []
  | a :: l' => match rstrip_list c l' with
               | [] => if bool_decide (a = c) then [] else [a]
               | r => a :: r
               end
  end.
Definition rstrip_char (c : ascii) (s : string) : string :=
  String.string_of_list_ascii (rstrip_list c (String.list_ascii_of_string s)).

(** The parts before and after the first character in [cs]; [None] when there is none. *)
Fixpoint split_at_char (cs : list ascii) (l : list ascii) : list ascii * option (list ascii) :=
  match l with
  | [] => ([], None)
  | a :: l' => if bool_decide (a ∈ cs) then ([], Some l')
               else let '(x, y) := split_at_char cs l' in (a :: x, y)
  end.

(** [int(v)]: a number is truncated, a string is read with its white space stripped and
    single underscores between digits. *)
Fixpoint int_digits (acc : Z) (last_digit : bool) (l : list ascii) : option Z :=
  match l with
  | [] => if last_digit then Some acc else None
  | c :: l' => match digit c with
               | Some d => int_digits (acc * 10 + d)%Z true l'
               | None => if last_digit && (ord c =? 95)%Z then int_digits acc false l' else None
               end
  end.
Definition int_of_str (s : string) : option Z :=
  match String.list_ascii_of_string (strip s) with
  | c :: l => if (ord c =? 45)%Z then Z.opp <$> int_digits 0 false l
              else if (ord c =? 43)%Z then int_digits 0 false l
              else int_digits 0 false (c :: l)
  | [] => None
  end.
Definition py_int (v : value) : res Z :=
  match v with
  | VInt z => Ok z
  | VBool b => Ok (if b then 1 else 0)%Z
  | VFloat q => Ok (Z.quot (Qnum q) (Z.pos (Qden q)))
  | VStr s => match int_of_str s with
              | Some z => Ok z
              | None => Raise (Exn ValueError ("invalid literal for int() with base 10: " +:+ repr_str s))
              end
  | _ => Raise (Exn TypeError
           ("int() argument must be a string, a bytes-like object or a real number, not '"
              +:+ type_name v +:+ "'"))
  end.

(** ** Direct OpenAI hosts (adapters/openai_cache.py) *)

Definition OPENAI_API_HOST : string := "api.openai.com".

Definition is_alpha (c : ascii) : bool :=
  let n := ord c in (((65 <=? n) && (n <=? 90)) || ((97 <=? n) && (n <=? 122)))%Z.
Definition scheme_char (c : ascii) : bool :=
  is_alpha c || match digit c with Some _ => true | None => false end
  || ((ord c =? 43) || (ord c =? 45) || (ord c =? 46))%Z.
(** The text after the scheme. *)
Definition split_scheme (l : list ascii) : list ascii :=
  match l, split_at_char [":"%char] l with
  | c :: _, (s, Some rest) => if is_alpha c && forallb scheme_char s then rest else l
  | _, _ => l
  end.
(** Leading control characters and spaces go, tabs and line breaks go everywhere. *)
Fixpoint lstrip_c0 (l : list ascii) : list ascii :=
  match l with c :: l' => if (ord c <=? 32)%Z then lstrip_c0 l' else l | [] => [] end.
Definition url_clean (l : list ascii) : list ascii :=
  List.filter (λ c, negb ((ord c =? 9) || (ord c =? 10) || (ord c =? 13))%Z) (lstrip_c0 l).
Definition after_last_at (l : list ascii) : list ascii :=
  match split_at_char ["@"%char] (rev l) with
  | (x, Some _) => rev x
  | (_, None) => l
  end.

(** [urlsplit(url).hostname] without a bracketed address, [None] when there is no host; a
    lone bracket is refused. *)
Definition hostname (url : string) : res (option string) :=
  let l := split_scheme (url_clean (String.list_ascii_of_string url)) in
  match l with
  | a :: b :: rest =>
      if bool_decide (a = "/"%char) && bool_decide (b = "/"%char) then
        let netloc := (split_at_char ["/"%char; "?"%char; "#"%char] rest).1 in
        let op := bool_decide ("["%char ∈ netloc) in
        let cl := bool_decide ("]"%char ∈ netloc) in
        if xorb op cl then Raise (Exn ValueError "Invalid IPv6 URL")
        else if op then Ok None
        else
          let host := (split_at_char [":"%char] (after_last_at netloc)).1 in
          let '(h, zone) := split_at_char ["%"%char] host in
          match host with
          | [] => Ok None
          | _ => Ok (Some (lower (String.string_of_list_ascii h)
                             +:+ match zone with
                                 | Some z => String "%"%char (String.string_of_list_ascii z)
                                 | None => ""
                                 end))
          end
      else Ok None
  | _ => Ok None
  end.
Definition is_direct_openai_url (base_url : string) : res bool :=
  h ← hostname base_url; Ok (bool_decide (h = Some OPENAI_API_HOST)).

Example direct_host :
  is_direct_openai_url "https://user@API.openai.com:443/v1?x" = Ok true ∧
  is_direct_openai_url "https://api.openai.com.evil.example/v1" = Ok false ∧
  is_direct_openai_url "api.openai.com/v1" = Ok false.
Proof. vm_compute. done. Qed.

(** ** Configuration (adapters/env.py) *)

Definition DEFAULT_OPENAI_COMPATIBLE_BASE_URL : string := "https://api.openai.com/v1".
Definition DEFAULT_ANTHROPIC_BASE_URL : string := "https://api.anthropic.com/v1".

Record provider_auth := RuntimeProviderAuth {
  pa_api_key : string;
  pa_base_url : option string;
  pa_headers : option (dict string)
}.

(** The callables of a configuration are not part of the sources: the resolver by the
    outcome of its call, the observer as a function of the headers that may raise. *)
Record openai_config := OpenAICompatibleConfig {
  oc_api_key : string;
  oc_base_url : string;
  oc_headers : option (dict string);
  oc_timeout_seconds : Q;
  oc_max_retries : Z;
  oc_max_retry_delay_seconds : Q;
  oc_api : string;
  oc_max_tokens : option Z;
  oc_supports_images : bool;
  oc_reasoning_effort : option string;
  oc_reasoning_effort_parameter : string;
  oc_thinking_format : string;
  oc_compat : dict value;
  oc_model_aliases : dict string;
  oc_include_reasoning_effort_none : bool;
  oc_provider_name : string;
  oc_response_provider_header : option string;
  oc_omit_authorization_header : bool;
  oc_credential_resolver : option (res provider_auth);
  oc_response_headers_observer : option (dict string → res ());
  oc_infer_api_from_model : bool
}.
(** [OpenAICompatibleConfig(api_key=...)] *)
Definition openai_defaults (api_key : string) : openai_config :=
  OpenAICompatibleConfig api_key DEFAULT_OPENAI_COMPATIBLE_BASE_URL None 60 2 1
    "openai-completions" None false None "reasoning_effort" "openai" [] [] false
    "OpenAI-compatible provider" None false None None true.

Record anthropic_config := AnthropicConfig {
  ac_api_key : string;
  ac_bearer_auth : bool;
  ac_base_url : string;
  ac_headers : option (dict string);
  ac_timeout_seconds : Q;
  ac_max_retries : Z;
  ac_max_retry_delay_seconds : Q;
  ac_max_tokens : option Z;
  ac_supports_images : bool;
  ac_thinking_budget_tokens : option Z;
  ac_thinking_effort : option string;
  ac_thinking_mode : string;
  ac_provider_name : string;
  ac_oauth_system_prompt : option string;
  ac_cache_retention : string;
  ac_cache_control_on_tools : bool;
  ac_credential_resolver : option (res provider_auth)
}.
Definition anthropic_defaults (api_key : string) : anthropic_config :=
  AnthropicConfig api_key false DEFAULT_ANTHROPIC_BASE_URL None 60 2 1 None false None None
    "budget" "Anthropic" None "short" true None.

(** An integer of the environment; [environ] is the process environment. *)
Definition _non_negative_int_from_env (environ : dict string) (name : string) (dflt : Z) : res Z :=
  match dget name environ with
  | None => Ok dflt
  | Some raw =>
      match int_of_str raw with
      | None => Raise (Exn RuntimeError ("Environment variable must be an integer: " +:+ name))
      | Some v => if (v <? 0)%Z
                  then Raise (Exn RuntimeError ("Environment variable must be 0 or greater: " +:+ name))
                  else Ok v
      end
  end.

(** ** Retries (adapters/retry.py) *)

Definition RETRY_POLL_SECONDS : Q := 1 # 20.
Definition RETRY_BASE_DELAY_SECONDS : Q := 1 # 4.

Definition Qltb (a b : Q) : bool := negb (Qle_bool b a).
Definition qmin (a b : Q) : Q := if Qltb b a then b else a.

Definition retry_delay_seconds (attempt : nat) (max_delay_seconds : Q) : Q :=
  if Qle_bool max_delay_seconds 0 then 0
  else let base_delay := qmin RETRY_BASE_DELAY_SECONDS max_delay_seconds in
       qmin max_delay_seconds (base_delay * inject_Z (2 ^ Z.of_nat attempt)).

(** [f"{q:g}"] for a positive number: six significant digits, trailing zeros dropped. *)
Fixpoint lead_exp (fuel : nat) (q : Q) : Z :=
  match fuel with
  | O => 0
  | S f => if Qle_bool 10 q then 1 + lead_exp f (q / 10)
           else if Qltb q 1 then lead_exp f (q * 10) - 1 else 0
  end%Z.
Definition round_half_even (q : Q) : Z :=
  let f := Qfloor q in
  match Qcompare (q - inject_Z f) (1 # 2) with
  | Lt => f | Gt => f + 1 | Eq => if Z.even f then f else f + 1
  end%Z.
Fixpoint zeros (n : nat) : string := match n with O => "" | S n => "0" +:+ zeros n end.
(** [m] over [10 ^ k] in decimals *)
Definition fixed (m : Z) (k : nat) : string :=
  let s := pretty m in
  let s := zeros (S k - String.length s) +:+ s in
  let n := String.length s - k in
  let frac := rstrip_char "0" (str_drop n s) in
  str_take n s +:+ (if nonempty frac then "." +:+ frac else "").
Definition format_g (q : Q) : string :=
  let x := lead_exp (S (Z.to_nat (Z.log2 (Qnum q) + Z.log2 (Z.pos (Qden q)) + 2))) q in
  let m := round_half_even (q * pow10 (5 - x)) in
  let '(m, x) := if (m =? 1000000)%Z then (100000%Z, (x + 1)%Z) else (m, x) in
  if ((-4 <=? x) && (x <? 6))%Z then fixed m (Z.to_nat (5 - x))
  else let e := pretty (Z.abs x) in
       fixed m 5 +:+ "e" +:+ (if (x <? 0)%Z then "-" else "+") +:+ zeros (2 - String.length e) +:+ e.

Example format_g_samples :
  format_g (1 # 4) = "0.25" ∧ format_g 1 = "1" ∧ format_g (1 # 3) = "0.333333" ∧
  format_g 1234567 = "1.23457e+06" ∧ format_g (9999995 # 1000000) = "10" ∧
  format_g (1 # 100000) = "1e-05".
Proof. vm_compute. done. Qed.

Definition provider_retry_event (attempt : nat) (max_retries : Z) (delay_seconds : Q)
    (reason : string) (data : option (dict value)) : provider_event :=
  let next_attempt := (Z.of_nat attempt + 2)%Z in
  let max_attempts := (max_retries + 1)%Z in
  let delay_suffix := if Qeq_bool delay_seconds 0 then ""
                      else " in " +:+ format_g delay_seconds +:+ "s" in
  PRetry next_attempt max_attempts delay_seconds
    ("Retrying provider request " +:+ pretty next_attempt +:+ "/" +:+ pretty max_attempts
       +:+ " after " +:+ reason +:+ delay_suffix +:+ ".")
    data.

(** The cancellation token of a call: its answer to the n-th question, [None] without one. *)
Definition signal : Type := option (nat → bool).
Definition is_cancelled (sig : signal) (k : nat) : bool * nat :=
  match sig with None => (false, k) | Some f => (f k, S k) end.

Fixpoint wait_loop (fuel : nat) (sig : signal) (remaining : Q) (k : nat) : bool * nat :=
  let stop := let '(c, k') := is_cancelled sig k in (negb c, k') in
  match fuel with
  | O => stop
  | S f =>
      if Qltb 0 remaining then
        let '(c, k') := is_cancelled sig k in
        if c then (false, k')
        else wait_loop f sig (remaining - qmin RETRY_POLL_SECONDS remaining) k'
      else stop
  end.
(** The loop runs once for every started twentieth of a second. *)
Definition wait_fuel (delay : Q) : nat := Z.to_nat (Qceiling (delay / RETRY_POLL_SECONDS)).
Definition wait_for_retry (delay_seconds : Q) (sig : signal) (k : nat) : bool * nat :=
  if Qle_bool delay_seconds 0
  then let '(c, k') := is_cancelled sig k in (negb c, k')
  else wait_loop (wait_fuel delay_seconds) sig delay_seconds k.

(** ** The HTTP client *)

(** An [httpx.HTTPError]: its text and the name of its class. *)
Record http_error := HttpError { he_message : string; he_type : string }.

(** A response: [body] is what [aread] yields, [lines] what [aiter_lines] yields before it
    ends or, with [broken], fails. *)
Record http_response := HttpResponse {
  rs_status : Z;
  rs_headers : dict string;
  rs_body : list ascii + http_error;
  rs_lines : list string;
  rs_broken : option http_error
}.
Inductive exchange := Refused (e : http_error) | Responded (r : http_response).

Record http_request := HttpRequest {
  rq_url : string; rq_headers : dict string; rq_payload : dict value
}.

(** What an adapter's generator did: the events it yielded, the requests it made, and
    whether it returned or raised. *)
Record generated := Generated {
  g_events : list provider_event; g_requests : nat; g_outcome : res ()
}.
(** What comes before the rest: events, and requests. *)
Definition yielding (evs : list provider_event) (g : generated) : generated :=
  Generated (evs ++ g_events g)%list (g_requests g) (g_outcome g).
Definition requesting (g : generated) : generated :=
  Generated (g_events g) (S (g_requests g)) (g_outcome g).

(** What the loop of an adapter is when its fuel is spent: it is not an outcome of the program, and
    the theorems on the loops show that it is none of the model's either. *)
Definition out_of_fuel : generated := Generated [] 0 (Raise (Exn OutOfFuel "")).

(** [type(exc).__name__] *)
Definition exn_name (c : exn_class) : string :=
  match c with
  | ValueError => "ValueError" | KeyError => "KeyError" | TypeError => "TypeError"
  | AttributeError => "AttributeError" | IndexError => "IndexError"
  | FileNotFoundError => "FileNotFoundError" | OSError => "OSError"
  | NotImplementedError => "NotImplementedError" | EventError => "EventError"
  | AssertionError => "AssertionError" | RuntimeError => "RuntimeError"
  | PermissionError => "PermissionError" | Sqlite3Error => "Error"
  | OverflowError => "OverflowError" | SystemExit => "SystemExit"
  | ValidationError => "ValidationError" | OutOfFuel => ""
  end.

(** The attributes of a failure in event data. *)
Definition error_data (e : http_error) : dict value :=
  [("error", VStr (he_message e)); ("error_type", VStr (he_type e))].

(** ** Lemmas on delays *)

Lemma Qltb_lt a b : Qltb a b = true ↔ (a < b)%Q.
Proof.
  unfold Qltb. rewrite negb_true_iff. split.
  - intros H. apply Qnot_le_lt. rewrite <-Qle_bool_iff. congruence.
  - intros H. apply not_true_iff_false. rewrite Qle_bool_iff. by apply Qlt_not_le.
Qed.
Lemma Qltb_ge a b : Qltb a b = false ↔ (b <= a)%Q.
Proof. unfold Qltb. by rewrite negb_false_iff, Qle_bool_iff. Qed.
Lemma qmin_le a b : (qmin a b <= a)%Q ∧ (qmin a b <= b)%Q ∧ (qmin a b = a ∨ qmin a b = b).
Proof.
  unfold qmin. destruct (Qltb b a) eqn:E; [apply Qltb_lt in E|apply Qltb_ge in E];
    split_and!; auto with qarith; lra.
Qed.

(** Delays lie between 0 and the configured maximum. *)
Lemma retry_delay_bounds attempt m :
  (0 <= retry_delay_seconds attempt m)%Q ∧ (retry_delay_seconds attempt m <= Qmax 0 m)%Q.
Proof.
  unfold retry_delay_seconds. destruct (Qle_bool m 0) eqn:E.
  - split; [lra|]. apply Q.le_max_l.
  - assert (0 < m)%Q as Hm.
    { apply Qnot_le_lt. rewrite <-Qle_bool_iff. congruence. }
    set (b := qmin RETRY_BASE_DELAY_SECONDS m).
    assert (0 < b)%Q as Hb.
    { unfold b. destruct (qmin_le RETRY_BASE_DELAY_SECONDS m) as (_ & _ & [->| ->]); [|done].
      by unfold RETRY_BASE_DELAY_SECONDS. }
    assert (0 < inject_Z (2 ^ Z.of_nat attempt))%Q as H2.
    { change 0%Q with (inject_Z 0). rewrite <-Zlt_Qlt. apply Z.pow_pos_nonneg; lia. }
    set (p := inject_Z (2 ^ Z.of_nat attempt)) in *.
    destruct (qmin_le m (b * p)) as (Hle & _ & Hor). split.
    + destruct Hor as [-> | ->]; apply Qlt_le_weak; [done|]. by apply Qmult_lt_0_compat.
    + eapply Qle_trans; [exact Hle|]. apply Q.le_max_r.
Qed.

(** The wait's fuel is enough: more makes no difference. *)
Lemma wait_loop_enough sig fuel fuel' remaining k :
  (remaining <= inject_Z (Z.of_nat fuel) * RETRY_POLL_SECONDS)%Q → fuel ≤ fuel' →
  wait_loop fuel' sig remaining k = wait_loop fuel sig remaining k.
Proof.
  revert fuel' remaining k. induction fuel as [|f IH]; intros fuel' remaining k Hr Hf.
  - assert (Qltb 0 remaining = false) as E.
    { apply Qltb_ge. eapply Qle_trans; [exact Hr|]. by apply Qle_bool_iff. }
    destruct fuel'; simpl; by rewrite ?E.
  - destruct fuel' as [|f']; [lia|]. simpl. destruct (Qltb 0 remaining) eqn:E; [|done].
    destruct (is_cancelled sig k) as [[] k']; [done|]. apply IH; [|lia].
    apply Qltb_lt in E. rewrite Nat2Z.inj_succ, <-Z.add_1_r, inject_Z_plus in Hr.
    unfold qmin. destruct (Qltb remaining RETRY_POLL_SECONDS) eqn:E2.
    + assert (0 <= inject_Z (Z.of_nat f))%Q.
      { change 0%Q with (inject_Z 0). rewrite <-Zle_Qle. lia. }
      unfold RETRY_POLL_SECONDS in *. lra.
    + unfold RETRY_POLL_SECONDS in *. change (inject_Z 1) with 1%Q in Hr. lra.
Qed.
Lemma wait_fuel_enough sig delay fuel k :
  wait_fuel delay ≤ fuel →
  wait_loop fuel sig delay k = wait_loop (wait_fuel delay) sig delay k.
Proof.
  intros Hf. apply wait_loop_enough; [|done]. unfold wait_fuel.
  pose proof (Qle_ceiling (delay / RETRY_POLL_SECONDS)) as Hc.
  assert (delay == delay / RETRY_POLL_SECONDS * RETRY_POLL_SECONDS)%Q as Hd.
  { unfold RETRY_POLL_SECONDS. field. }
  rewrite Hd at 1. apply Qmult_le_compat_r; [|by unfold RETRY_POLL_SECONDS].
  eapply Qle_trans; [exact Hc|]. rewrite <-Zle_Qle. lia.
Qed.
