(* ===== verification/LlmEnvelope.v ===== *)
(** * Retries and the shape of a provider call

    Both adapters send their request up to a configured number of times more, announcing each
    repetition by an event and waiting in between, and both pass on what a response shows as
    it arrives.  [call_shape] says which event sequences that yields; what the providers
    promise their callers follows from it. *)

From stdpp Require Import base gmap strings list pretty.
From Stdlib Require Import ZArith QArith Ascii.
From S2P Require Import Prelude PyValue Json LlmTypes LlmStream LlmRuntime.

Local Open Scope string_scope.
Local Open Scope nat_scope.

Definition is_content (e : provider_event) : bool :=
  match e with PTextDelta _ | PThinkingDelta _ | PToolCall _ => true | _ => false end.
Definition is_retry (e : provider_event) : bool :=
  match e with PRetry _ _ _ _ _ => true | _ => false end.
Definition is_fragment (e : provider_event) : bool :=
  match e with PTextDelta _ | PThinkingDelta _ => true | _ => false end.

(** ** Retrying *)

Section Retry.
Variables (max_retries : Z) (max_delay : Q) (sig : signal).

(** A retry event, the wait, the next attempt. *)
Definition retrying (attempt : nat) (reason : string) (data : dict value) (k : nat)
    (next : nat → nat → generated) : generated :=
  let delay := retry_delay_seconds attempt max_delay in
  let ev := provider_retry_event attempt max_retries delay reason (Some data) in
  let '(go_on, k') := wait_for_retry delay sig k in
  yielding [ev] (if go_on : bool then next (S attempt) k' else Generated [] 0 (Ok ())).

(** [except httpx.HTTPError as exc] *)
Definition on_http_error (retryable : bool) (e : http_error) (attempt k : nat)
    (next : nat → nat → generated) : generated :=
  if retryable
  then retrying attempt "network error" (error_data e) k next
  else Generated [PError (he_message e) (Some [("attempts", VInt (Z.of_nat attempt + 1))]) None] 0 (Ok ()).
End Retry.

(** The loop goes on with [next] only after a retry. *)
Lemma retrying_next max_retries max_delay sig attempt reason data k next next' :
  (∀ k, next (S attempt) k = next' (S attempt) k) →
  retrying max_retries max_delay sig attempt reason data k next =
  retrying max_retries max_delay sig attempt reason data k next'.
Proof. intros Hn. unfold retrying. destruct (wait_for_retry _ _ _) as [[] k']; by rewrite ?Hn. Qed.
Lemma on_http_error_next max_retries max_delay sig (retryable : bool) e attempt k next next' :
  (retryable = true → ∀ k, next (S attempt) k = next' (S attempt) k) →
  on_http_error max_retries max_delay sig retryable e attempt k next =
  on_http_error max_retries max_delay sig retryable e attempt k next'.
Proof. intros Hn. unfold on_http_error. destruct retryable; [|done]. by apply retrying_next, Hn. Qed.

(** The canonical stream over a generator: an exception of the generator ends it. *)
Definition canonical_over (now : Z) (api provider model : string) (g : generated) :
    list assistant_event * res () :=
  match g_outcome g with
  | Ok _ => match canonicalize_provider_stream now api provider model (g_events g) with
            | Ok evs => (evs, Ok ())
            | Raise e => ([], Raise e)
            end
  | Raise e => match canon_loop now api provider model (g_events g) (canon_init now api provider model) with
               | Ok (evs, _) => (evs, Raise e)
               | Raise e' => ([], Raise e')
               end
  end.

(** ** The shape of a call's events

    Requests that end in a retry show no model output; the last request shows fragments,
    then an error, or tool calls and a final message that agrees with them, or nothing when
    the caller cancels or an exception ends the generator. *)

Definition is_start (e : provider_event) : bool :=
  match e with PResponseStart _ _ => true | _ => false end.

Inductive ending (frs : list provider_event) : list provider_event → Prop :=
| end_none : ending frs []
| end_error m d rp : ending frs [PError m d rp]
| end_message calls m fr :
    assistant_text m = str_concat (map text_of frs) →
    thinking_text m = str_concat (map thinking_of frs) → tool_calls m = calls →
    ending frs (map PToolCall calls ++ [PResponseEnd m fr])%list.

Inductive call_shape : list provider_event → nat → Prop :=
| cs_retry start ev l n :
    forallb is_start start = true → is_retry ev = true → call_shape l n →
    call_shape (start ++ ev :: l)%list (S n)
| cs_abandon start ev :
    forallb is_start start = true → is_retry ev = true → call_shape (start ++ [ev])%list 1
| cs_last start frs fin :
    forallb is_start start = true → forallb is_fragment frs = true → ending frs fin →
    call_shape (start ++ frs ++ fin)%list 1.

(** ** Building the shape

    [next] is the rest of the loop; it is entered only while retries are left. *)

Section Next.
Variables (max_retries : Z) (max_delay : Q) (sig : signal).

Definition shaped (g : generated) (attempt : nat) : Prop :=
  call_shape (g_events g) (g_requests g) ∧ g_requests g + attempt ≤ S (Z.to_nat max_retries).

Variables (attempt : nat) (next : nat → nat → generated).
Hypothesis Hattempt : attempt ≤ Z.to_nat max_retries.
Hypothesis Hnext : (Z.of_nat attempt < max_retries)%Z → ∀ k, shaped (next (S attempt) k) (S attempt).

Lemma retrying_shape start reason data k :
  forallb is_start start = true → (Z.of_nat attempt < max_retries)%Z →
  shaped (requesting (yielding start (retrying max_retries max_delay sig attempt reason data k next))) attempt.
Proof.
  intros Hs Hlt. unfold retrying. destruct (wait_for_retry _ _ _) as [[] k']; unfold shaped; simpl.
  - destruct (Hnext Hlt k') as [Hc Hb]. split; [|lia]. by apply cs_retry.
  - split; [by apply cs_abandon|lia].
Qed.

Lemma last_shape start frs fin out :
  forallb is_start start = true → forallb is_fragment frs = true → ending frs fin →
  shaped (requesting (yielding (start ++ frs)%list (Generated fin 0 out))) attempt.
Proof.
  intros Hs Hf He. split; simpl; [|lia]. rewrite <-app_assoc. by apply cs_last.
Qed.

Lemma http_error_shape start frs retryable e k :
  forallb is_start start = true → forallb is_fragment frs = true →
  (retryable = true → frs = [] ∧ (Z.of_nat attempt < max_retries)%Z) →
  shaped (requesting (yielding (start ++ frs)%list
    (on_http_error max_retries max_delay sig retryable e attempt k next))) attempt.
Proof.
  intros Hs Hf Hr. unfold on_http_error. destruct retryable.
  - destruct (Hr eq_refl) as [-> Hlt]. rewrite app_nil_r. by apply retrying_shape.
  - apply last_shape; [done..|constructor].
Qed.
End Next.

(** ** Consequences of the shape *)

Lemma forallb_weaken {A} (f g : A → bool) l :
  (∀ x, f x = true → g x = true) → forallb f l = true → forallb g l = true.
Proof. intros Hfg. rewrite !forallb_forall. auto. Qed.

Lemma no_terminal_app l l' : no_terminal (l ++ l')%list = no_terminal l && no_terminal l'.
Proof. apply forallb_app. Qed.

Lemma no_terminal_removelast l : no_terminal l = true → no_terminal (removelast l) = true.
Proof.
  destruct (last_view l) as [->|(l' & x & ->)]; [done|].
  rewrite removelast_last, no_terminal_app. by intros [? _]%andb_true_iff.
Qed.

Lemma fragments_no_terminal frs : forallb is_fragment frs = true → no_terminal frs = true.
Proof. apply forallb_weaken. by intros []. Qed.
Lemma starts_no_terminal l : forallb is_start l = true → no_terminal l = true.
Proof. apply forallb_weaken. by intros []. Qed.

Lemma ending_no_terminal frs fin : ending frs fin → no_terminal (removelast fin) = true.
Proof.
  destruct 1; [done..|]. rewrite removelast_last.
  unfold no_terminal. apply forallb_forall. by intros e (c & <- & _)%in_map_iff.
Qed.

(** Only the last event is terminal. *)
Lemma call_shape_terminal l n : call_shape l n → no_terminal (removelast l) = true.
Proof.
  induction 1 as [start ev l n Hs Hr Hl IH|start ev Hs Hr|start frs fin Hs Hf He].
  - rewrite removelast_app by done. rewrite no_terminal_app, (starts_no_terminal _ Hs). simpl.
    destruct l; [done|]. change (negb (is_terminal ev) && no_terminal (removelast (p :: l)) = true).
    rewrite IH. by destruct ev.
  - rewrite removelast_last. by apply starts_no_terminal.
  - destruct fin as [|e fin].
    + rewrite app_nil_r. apply no_terminal_removelast.
      by rewrite no_terminal_app, (starts_no_terminal _ Hs), fragments_no_terminal.
    + rewrite removelast_app, removelast_app by (by destruct frs).
      rewrite !no_terminal_app, (starts_no_terminal _ Hs), fragments_no_terminal by done.
      by eapply ending_no_terminal.
Qed.

(** No retry follows model output. *)
Definition no_retry (l : list provider_event) : bool := forallb (λ e, negb (is_retry e)) l.
Fixpoint output_final (l : list provider_event) : bool :=
  match l with
  | [] => true
  | e :: l' => (if is_content e then no_retry l' else true) && output_final l'
  end.

Lemma output_final_quiet l l' :
  forallb (λ e, negb (is_content e)) l = true → output_final (l ++ l')%list = output_final l'.
Proof.
  induction l as [|e l IH]; simpl; [done|]. intros [He Hl]%andb_true_iff.
  apply negb_true_iff in He. by rewrite He, IH.
Qed.
Lemma output_final_no_retry l : no_retry l = true → output_final l = true.
Proof.
  induction l as [|e l IH]; simpl; [done|]. intros [He Hl]%andb_true_iff.
  rewrite IH by done. by destruct (is_content e); rewrite ?andb_true_r.
Qed.
Lemma ending_no_retry frs fin : ending frs fin → no_retry fin = true.
Proof.
  destruct 1; [done..|]. unfold no_retry. rewrite forallb_app, andb_true_r.
  apply forallb_forall. by intros e (c & <- & _)%in_map_iff.
Qed.
Lemma call_shape_output l n : call_shape l n → output_final l = true.
Proof.
  induction 1 as [start ev l n Hs Hr Hl IH|start ev Hs Hr|start frs fin Hs Hf He];
    (rewrite output_final_quiet; [|by apply (forallb_weaken is_start); [intros []|]]).
  - simpl. rewrite IH. by destruct ev.
  - by destruct ev.
  - apply output_final_no_retry. unfold no_retry. rewrite forallb_app.
    pose proof (ending_no_retry _ _ He) as Hfin. unfold no_retry in Hfin. rewrite Hfin, andb_true_r.
    apply (forallb_weaken is_fragment); [|done]. by intros [].
Qed.

(** Retries are the requests but the last. *)
Definition count_retries (l : list provider_event) : nat := length (List.filter is_retry l).
Lemma filter_quiet {A} (f : A → bool) l : forallb (λ x, negb (f x)) l = true → List.filter f l = [].
Proof.
  induction l as [|x l IH]; simpl; [done|]. intros [Hx Hl]%andb_true_iff.
  apply negb_true_iff in Hx. by rewrite Hx, IH.
Qed.
Lemma call_shape_count l n :
  call_shape l n → n ≤ S (count_retries l) ∧ count_retries l ≤ n.
Proof.
  unfold count_retries.
  induction 1 as [start ev l n Hs Hr Hl IH|start ev Hs Hr|start frs fin Hs Hf He];
    rewrite List.filter_app, (filter_quiet is_retry start)
      by (apply (forallb_weaken is_start); [by intros []|done]).
  - simpl. rewrite Hr. simpl. lia.
  - simpl. rewrite Hr. simpl. lia.
  - rewrite List.filter_app, (filter_quiet is_retry frs), (filter_quiet is_retry fin).
    + simpl. lia.
    + by eapply ending_no_retry.
    + apply (forallb_weaken is_fragment); [by intros []|done].
Qed.

Lemma starts_silent start :
  forallb is_start start = true →
  str_concat (map text_of start) = "" ∧ str_concat (map thinking_of start) = "" ∧
  flat_map calls_of start = [].
Proof. induction start as [|[] start IH]; simpl; try done. Qed.

(** The final message agrees with everything streamed before it. *)
Lemma end_last (start frs : list provider_event) fin body m fr :
  forallb is_start start = true → forallb is_fragment frs = true → ending frs fin →
  (start ++ frs ++ fin)%list = (body ++ [PResponseEnd m fr])%list →
  assistant_text m = str_concat (map text_of body) ∧
  thinking_text m = str_concat (map thinking_of body) ∧ tool_calls m = flat_map calls_of body.
Proof.
  intros Hs Hf He E. destruct He as [|msg d rp|calls m' fr' H1 H2 H3].
  - rewrite app_nil_r in E.
    assert (is_terminal (PResponseEnd m fr) = false); [|done].
    assert (no_terminal (start ++ frs)%list = true) as Hn
      by (by rewrite no_terminal_app, (starts_no_terminal _ Hs), fragments_no_terminal).
    rewrite E, no_terminal_app in Hn. by apply andb_true_iff in Hn as [_ ?].
  - rewrite !app_assoc in E. by apply app_inj_tail in E as [_ ?].
  - rewrite !app_assoc in E. apply app_inj_tail in E as [<- [= <- <-]].
    rewrite !map_app, !flat_map_app, !str_concat_app, H1, H2, H3, !map_map.
    rewrite !(str_concat_empty (λ x : tool_call, _)) by done.
    destruct (starts_silent start Hs) as (-> & -> & ->).
    assert (flat_map calls_of frs = []) as ->.
    { clear -Hf. induction frs as [|[] frs IH]; simpl in *; try done; auto. }
    assert (flat_map calls_of (map PToolCall calls) = calls) as ->.
    { clear. induction calls as [|c l IH]; simpl; [done|]. by rewrite IH. }
    rewrite !str_app_nil_r. by rewrite !str_app_nil.
Qed.

Lemma call_shape_message l n : call_shape l n → ∀ body m fr,
  l = (body ++ [PResponseEnd m fr])%list →
  assistant_text m = str_concat (map text_of body) ∧
  thinking_text m = str_concat (map thinking_of body) ∧ tool_calls m = flat_map calls_of body.
Proof.
  induction 1 as [start ev l n Hs Hr Hl IH|start ev Hs Hr|start frs fin Hs Hf He]; intros body m fr E.
  - destruct (last_view l) as [->|(l' & x & ->)].
    { apply app_inj_tail in E as [_ ->]. done. }
    rewrite app_comm_cons, app_assoc in E. apply app_inj_tail in E as [<- ->].
    destruct (IH l' m fr eq_refl) as (-> & -> & ->).
    rewrite !map_app, flat_map_app, !str_concat_app. simpl.
    destruct (starts_silent start Hs) as (-> & -> & ->).
    by destruct ev.
  - apply app_inj_tail in E as [_ ->]. done.
  - by eapply end_last.
Qed.

Lemma call_shape_pos l n : call_shape l n → 1 ≤ n.
Proof. destruct 1; lia. Qed.

Lemma canonical_over_ok now api provider model g :
  no_terminal (removelast (g_events g)) = true →
  (canonical_over now api provider model g).2 = Ok () →
  event_run Fresh (canonical_over now api provider model g).1 Finished.
Proof.
  intros Hn. unfold canonical_over. destruct (g_outcome g) as [|e].
  - destruct (canonical_run now api provider model _ Hn) as (evs & -> & Hrun). done.
  - by destruct (canon_loop _ _ _ _ _ _) as [[]|].
Qed.
