(* ===== verification/LlmOpenAI.v ===== *)
(** * OpenAI-compatible requests (adapters/openai_compatible.py)

    Which API serves a model, the transcript in the shape of the chat-completions and of the
    responses endpoint, and the request payloads with their compatibility options. *)

From stdpp Require Import base gmap strings list pretty.
From Stdlib Require Import ZArith QArith Ascii.
From S2P Require Import Prelude PyValue Json Sha256 LlmTypes LlmStream LlmRuntime.

Local Open Scope string_scope.
Local Open Scope nat_scope.

(** ** Model routing *)

Definition _RESPONSES_ONLY_PREFIXES : list string := ["gpt-5.5"; "gpt-5.4"].

Definition _use_responses_api (model : string) : bool :=
  let normalized := lower (strip model) in
  str_contains "codex" normalized ||
  existsb (λ p, startswith p normalized) _RESPONSES_ONLY_PREFIXES.

(** ** Chat-completions messages *)

Definition data_url (i : image_content) : string :=
  "data:" +:+ im_mime_type i +:+ ";base64," +:+ im_data i.
Definition image_url_part (i : image_content) : value :=
  VDict [("type", VStr "image_url"); ("image_url", VDict [("url", VStr (data_url i))])].
Definition text_part (type text : string) : value :=
  VDict [("type", VStr type); ("text", VStr text)].

Definition _system_message (system : string) : dict value :=
  [("role", VStr "system"); ("content", VStr system)].

Definition _tool_call_to_openai (c : tool_call) : dict value :=
  [("id", VStr (portable_tool_call_id (tcl_id c)));
   ("type", VStr "function");
   ("function", VDict [("name", VStr (tcl_name c));
                       ("arguments", VStr (dumps (VDict (tcl_arguments c))))])].

Definition thinking_blocks (m : assistant_message) : list thinking_content :=
  flat_map (λ b, match b with AThinking t => [t] | _ => [] end) (am_content m).

Definition str_or (o : option string) (dflt : string) : string :=
  match o with Some s => if nonempty s then s else dflt | None => dflt end.

(** The assistant's branch of [_message_to_openai]. *)
Definition assistant_to_openai (m : assistant_message) : dict value :=
  let item : dict value := [("role", VStr "assistant"); ("content", VStr (assistant_text m))] in
  let item := match thinking_blocks m with
              | t :: _ =>
                  let signature := str_or (th_signature t) "reasoning_content" in
                  if bool_decide (signature ∈ ["reasoning_content"; "reasoning"; "thinking"])
                  then dset signature (VStr (str_concat (map th_thinking (thinking_blocks m)))) item
                  else item
              | [] => item
              end in
  match tool_calls m with
  | [] => item
  | calls => dset "tool_calls" (VList (map (λ c, VDict (_tool_call_to_openai c)) calls)) item
  end.

Definition user_to_openai (text : string) : dict value :=
  [("role", VStr "user"); ("content", VStr text)].

Definition _message_to_openai (m : agent_message) : dict value :=
  match m with
  | MUser u => user_to_openai (content_text (um_content u))
  | MAssistant a => assistant_to_openai a
  | MToolResult r =>
      [("role", VStr "tool"); ("tool_call_id", VStr (portable_tool_call_id (tr_tool_call_id r)));
       ("name", VStr (tr_tool_name r)); ("content", VStr (content_text (UBlocks (tr_content r))))]
  | _ => user_to_openai (content_text (um_content (message_to_user m)))
  end.

Definition _openai_tool_image_message (images : list image_content) : dict value :=
  [("role", VStr "user");
   ("content", VList (text_part "text" "Attached image(s) from tool result:" :: map image_url_part images))].

(** A user message with its images. *)
Definition user_message_to_openai (c : user_content) (supports_images : bool) : dict value :=
  let '(text, images) := text_and_images c supports_images NON_VISION_USER_IMAGE_PLACEHOLDER in
  match images with
  | [] => [("role", VStr "user"); ("content", VStr text)]
  | _ => [("role", VStr "user");
          ("content", VList ((if nonempty text then [text_part "text" text] else [])
                               ++ map image_url_part images)%list)]
  end.

(** A tool result, its images put aside. *)
Definition tool_result_parts (r : tool_result_message) (supports_images : bool) :
    string * list image_content :=
  text_and_images (UBlocks (tr_content r)) supports_images NON_VISION_TOOL_IMAGE_PLACEHOLDER.
Definition tool_result_to_openai (r : tool_result_message) (supports_images : bool) : dict value :=
  let '(text, images) := tool_result_parts r supports_images in
  [("role", VStr "tool"); ("tool_call_id", VStr (portable_tool_call_id (tr_tool_call_id r)));
   ("name", VStr (tr_tool_name r));
   ("content", VStr (if nonempty text then text
                     else match images with [] => "(no tool output)" | _ => "(see attached image)" end))].

Definition flush_images (pending : list image_content) : list (dict value) :=
  match pending with [] => [] | _ => [_openai_tool_image_message pending] end.

(** The loop, with [pending_tool_images]. *)
Fixpoint chat_messages (supports_images : bool) (pending : list image_content)
    (ms : list agent_message) : list (dict value) :=
  match ms with
  | [] => flush_images pending
  | MToolResult r :: ms' =>
      tool_result_to_openai r supports_images
        :: chat_messages supports_images (pending ++ (tool_result_parts r supports_images).2)%list ms'
  | MUser u :: ms' =>
      (flush_images pending ++ user_message_to_openai (um_content u) supports_images
         :: chat_messages supports_images [] ms')%list
  | m :: ms' => (flush_images pending ++ _message_to_openai m :: chat_messages supports_images [] ms')%list
  end.
Definition _messages_to_openai_chat (ms : list agent_message) (supports_images : bool) : list (dict value) :=
  chat_messages supports_images [] ms.

Definition _tool_to_openai (t : agent_tool) : dict value :=
  [("type", VStr "function");
   ("function", VDict [("name", VStr (at_name t)); ("description", VStr (at_description t));
                       ("parameters", VDict (at_parameters t))])].

(** ** Chat-completions payload *)

Definition _string_compat (v : value) (dflt : string) : string :=
  match v with VStr s => if nonempty s then s else dflt | _ => dflt end.

Definition opt_str (o : option string) : value := match o with Some s => VStr s | None => VNone end.

Definition _apply_chat_reasoning (payload : dict value) (reasoning_effort : option string)
    (reasoning_effort_parameter thinking_format : string) (include_reasoning_effort_none : bool) :
    dict value :=
  let reasoning_enabled := match reasoning_effort with
                           | Some e => negb (bool_decide (e = "none"))
                           | None => false
                           end in
  if bool_decide (thinking_format ∈ ["zai"; "qwen"])
  then dset "enable_thinking" (VBool reasoning_enabled) payload
  else if bool_decide (thinking_format = "qwen-chat-template")
  then dset "chat_template_kwargs"
         (VDict [("enable_thinking", VBool reasoning_enabled); ("preserve_thinking", VBool true)]) payload
  else if bool_decide (thinking_format = "deepseek")
  then let payload := dset "thinking"
         (VDict [("type", VStr (if reasoning_enabled then "enabled" else "disabled"))]) payload in
       if reasoning_enabled then dset "reasoning_effort" (opt_str reasoning_effort) payload else payload
  else if bool_decide (thinking_format = "openrouter")
          || bool_decide (reasoning_effort_parameter = "reasoning.effort")
  then if reasoning_enabled then dset "reasoning" (VDict [("effort", opt_str reasoning_effort)]) payload
       else if include_reasoning_effort_none
       then dset "reasoning" (VDict [("effort", VStr "none")]) payload
       else payload
  else if bool_decide (thinking_format = "together")
  then let payload := dset "reasoning" (VDict [("enabled", VBool reasoning_enabled)]) payload in
       if reasoning_enabled then dset "reasoning_effort" (opt_str reasoning_effort) payload else payload
  else if reasoning_enabled || include_reasoning_effort_none
  then dset "reasoning_effort" (VStr (str_or reasoning_effort "none")) payload
  else payload.

Definition compat_flag (k : string) (compat : dict value) : bool :=
  truthy (default (VBool true) (dget k compat)).

Definition _build_chat_payload (model system : string) (ms : list agent_message)
    (tools : list agent_tool) (reasoning_effort : option string)
    (reasoning_effort_parameter thinking_format : string) (compat : dict value)
    (max_tokens : option Z) (include_reasoning_effort_none supports_images : bool)
    (prompt_cache_key : option string) : dict value :=
  let max_tokens_field :=
    _string_compat (default VNone (dget "maxTokensField" compat)) "max_completion_tokens" in
  let payload : dict value :=
    [("model", VStr model); ("stream", VBool true);
     ("messages", VList (map VDict (_system_message system
                                      :: _messages_to_openai_chat ms supports_images)))] in
  let payload := match prompt_cache_key with
                 | Some k => dset "prompt_cache_key" (VStr k) payload
                 | None => payload
                 end in
  let payload := if compat_flag "supportsUsageInStreaming" compat
                 then dset "stream_options" (VDict [("include_usage", VBool true)]) payload
                 else payload in
  let payload := if compat_flag "supportsStore" compat
                 then dset "store" (VBool false) payload else payload in
  let payload := match max_tokens with
                 | Some n => dset (if bool_decide (max_tokens_field = "max_tokens")
                                   then "max_tokens" else "max_completion_tokens") (VInt n) payload
                 | None => payload
                 end in
  let payload := match dget "openrouterProvider" compat with
                 | Some (VDict d) => dset "provider" (VDict d) payload
                 | _ => payload
                 end in
  let payload := _apply_chat_reasoning payload
                   (if compat_flag "supportsReasoningEffort" compat then reasoning_effort else None)
                   reasoning_effort_parameter thinking_format include_reasoning_effort_none in
  match tools with
  | [] => payload
  | _ =>
      let payload := dset "tools" (VList (map (λ t, VDict (_tool_to_openai t)) tools)) payload in
      match dget "zaiToolStream" compat with
      | Some (VBool true) => dset "tool_stream" (VBool true) payload
      | _ => payload
      end
  end.

(** ** Responses input and payload *)

Definition _openai_input_image (i : image_content) : value :=
  VDict [("type", VStr "input_image"); ("detail", VStr "auto"); ("image_url", VStr (data_url i))].

Definition input_parts (text : string) (images : list image_content) : value :=
  VList ((if nonempty text then [text_part "input_text" text] else [])
           ++ map _openai_input_image images)%list.

(** The reasoning items kept as signatures of thinking blocks. *)
Definition reasoning_items_of (m : assistant_message) : list value :=
  flat_map (λ b, match b with
                 | AThinking t =>
                     match th_signature t with
                     | Some s => if nonempty s
                                 then match loads s with Some (VDict d) => [VDict d] | _ => [] end
                                 else []
                     | None => []
                     end
                 | _ => []
                 end) (am_content m).

Definition function_call_item (c : tool_call) : value :=
  VDict [("type", VStr "function_call"); ("call_id", VStr (portable_tool_call_id (tcl_id c)));
         ("name", VStr (tcl_name c)); ("arguments", VStr (dumps (VDict (tcl_arguments c))))].

Definition responses_items (supports_images : bool) (m : agent_message) : list value :=
  match m with
  | MUser u =>
      let '(text, images) :=
        text_and_images (um_content u) supports_images NON_VISION_USER_IMAGE_PLACEHOLDER in
      [VDict [("role", VStr "user");
              ("content", match images with [] => VStr text | _ => input_parts text images end)]]
  | MAssistant a =>
      (reasoning_items_of a
         ++ (if nonempty (assistant_text a)
             then [VDict [("role", VStr "assistant"); ("content", VStr (assistant_text a))]] else [])
         ++ map function_call_item (tool_calls a))%list
  | MToolResult r =>
      let '(text, images) := tool_result_parts r supports_images in
      [VDict [("type", VStr "function_call_output");
              ("call_id", VStr (portable_tool_call_id (tr_tool_call_id r)));
              ("output", match images with
                         | [] => VStr (if nonempty text then text else "(no tool output)")
                         | _ => input_parts text images
                         end)]]
  | _ => []
  end.
Definition _messages_to_responses_input (ms : list agent_message) (supports_images : bool) : list value :=
  flat_map (responses_items supports_images) ms.

Definition _tool_to_responses (t : agent_tool) : dict value :=
  [("type", VStr "function"); ("name", VStr (at_name t)); ("description", VStr (at_description t));
   ("parameters", VDict (at_parameters t))].

Definition _normalize_responses_effort (reasoning_effort : option string) : option string :=
  match reasoning_effort with
  | None => None
  | Some e => let normalized := lower (strip e) in
              if bool_decide (normalized ∈ [""; "none"]) then None else Some normalized
  end.

Definition _build_responses_payload (model system : string) (ms : list agent_message)
    (tools : list agent_tool) (reasoning_effort : option string) (max_tokens : option Z)
    (supports_images : bool) (prompt_cache_key : option string) : dict value :=
  let payload : dict value :=
    [("model", VStr model); ("stream", VBool true); ("store", VBool false);
     ("instructions", VStr system);
     ("input", VList (_messages_to_responses_input ms supports_images))] in
  let payload := match prompt_cache_key with
                 | Some k => dset "prompt_cache_key" (VStr k) payload
                 | None => payload
                 end in
  let payload := match max_tokens with
                 | Some n => dset "max_output_tokens" (VInt n) payload
                 | None => payload
                 end in
  let payload := match _normalize_responses_effort reasoning_effort with
                 | Some e => dset "reasoning" (VDict [("effort", VStr e); ("summary", VStr "auto")]) payload
                 | None => payload
                 end in
  match tools with
  | [] => payload
  | _ => dset "tools" (VList (map (λ t, VDict (_tool_to_responses t)) tools)) payload
  end.

(** ** Theorems on conversion *)

Definition is_tool_result (m : agent_message) : bool :=
  match m with MToolResult _ => true | _ => false end.
Definition starts_run (ms : list agent_message) : bool :=
  match ms with m :: _ => is_tool_result m | [] => false end.

(** The one chat message of a message that is not a tool result. *)
Definition plain_to_openai (supports_images : bool) (m : agent_message) : dict value :=
  match m with
  | MUser u => user_message_to_openai (um_content u) supports_images
  | _ => _message_to_openai m
  end.

Lemma chat_plain si pending m ms :
  is_tool_result m = false →
  chat_messages si pending (m :: ms) =
  (flush_images pending ++ plain_to_openai si m :: chat_messages si [] ms)%list.
Proof. by destruct m. Qed.

Lemma chat_run si pending rs ms :
  starts_run ms = false →
  chat_messages si pending (map MToolResult rs ++ ms)%list =
  (map (λ r, tool_result_to_openai r si) rs
     ++ flush_images (pending ++ flat_map (λ r, (tool_result_parts r si).2) rs)
     ++ chat_messages si [] ms)%list.
Proof.
  intros Hms. revert pending. induction rs as [|r rs IH]; intros pending; simpl.
  - rewrite app_nil_r. destruct ms as [|m ms]; [by rewrite app_nil_r|]. by rewrite !chat_plain.
  - rewrite IH. by rewrite <-app_assoc.
Qed.

(** A transcript becomes the chat messages of its parts in order: a message that is not a
    tool result becomes one message, and the tool results of a turn stay next to each other,
    one message each, with the images of all of them in one user message after the last. *)
Theorem chat_conversion_runs si m rs ms :
  is_tool_result m = false → starts_run ms = false →
  _messages_to_openai_chat (m :: ms) si = plain_to_openai si m :: _messages_to_openai_chat ms si ∧
  _messages_to_openai_chat (map MToolResult rs ++ ms)%list si =
    (map (λ r, tool_result_to_openai r si) rs
       ++ match flat_map (λ r, (tool_result_parts r si).2) rs with
          | [] => []
          | images => [_openai_tool_image_message images]
          end
       ++ _messages_to_openai_chat ms si)%list.
Proof.
  intros Hm Hms. unfold _messages_to_openai_chat. split.
  - by rewrite chat_plain.
  - rewrite (chat_run si [] rs ms Hms). simpl. by destruct (flat_map _ rs).
Qed.

Definition sample_result (id : string) (i : image_content) : tool_result_message :=
  ToolResultMessage id "shot" [UImage i] VNone None false 0.
Definition sample_user : agent_message := MUser (UserMessage (UStr "next") 0).

Lemma chat_conversion_runs_witness :
  is_tool_result sample_user = false ∧
  _messages_to_openai_chat
    (map MToolResult [sample_result "1" (ImageContent "a" "image/png");
                      sample_result "2" (ImageContent "b" "image/png")] ++ [sample_user])%list true =
  [tool_result_to_openai (sample_result "1" (ImageContent "a" "image/png")) true;
   tool_result_to_openai (sample_result "2" (ImageContent "b" "image/png")) true;
   _openai_tool_image_message [ImageContent "a" "image/png"; ImageContent "b" "image/png"];
   user_to_openai "next"].
Proof.
  split; [reflexivity|].
  exact (proj2 (chat_conversion_runs true sample_user _ [sample_user] eq_refl eq_refl)).
Defined.

(** A message of the session rather than of the conversation with the model. *)
Definition session_message (m : agent_message) : bool :=
  match m with MBash _ | MCustom _ | MBranch _ | MCompaction _ => true | _ => false end.

(** Shell runs, custom notes, branch summaries and compaction summaries reach a model
    served over chat completions as user messages, and are left out of the input of a model
    served over the responses API: the summary that stands for a compacted transcript is
    lost there. *)
Theorem responses_drop_session_messages si m ms ms' :
  session_message m = true →
  _messages_to_responses_input (ms ++ m :: ms')%list si = _messages_to_responses_input (ms ++ ms')%list si ∧
  _message_to_openai m = user_to_openai (message_text m).
Proof.
  intros Hm. unfold _messages_to_responses_input. rewrite !flat_map_app. simpl.
  by destruct m.
Qed.

Definition sample_summary : agent_message :=
  MCompaction (CompactionSummaryMessage "all that happened" 100000 0).
Lemma responses_drop_session_messages_witness :
  session_message sample_summary = true ∧
  _messages_to_responses_input [sample_summary; sample_user] false =
    _messages_to_responses_input [sample_user] false ∧
  message_text sample_summary = "all that happened".
Proof.
  split; [reflexivity|]. split; [|reflexivity].
  exact (proj1 (responses_drop_session_messages false sample_summary [] [sample_user] eq_refl)).
Defined.
