(* ===== verification/LlmParsers.v ===== *)
(** * Parsers of OpenAI-compatible streams (adapters/openai_compatible.py)

    [_ChatStreamParser] and [_ResponsesStreamParser] consume the payloads of server-sent
    events one at a time and finish with the tool calls and the final message.  The class
    [StreamParser] is the protocol the streaming envelope drives them by, [ParserLaws] what
    they promise it; both parsers are instances. *)

From stdpp Require Import base gmap strings list pretty.
From Stdlib Require Import ZArith QArith Ascii.
From S2P Require Import Prelude PyValue Json Sha256 LlmTypes LlmStream LlmRuntime LlmEnvelope LlmOpenAI.

Local Open Scope string_scope.
Local Open Scope nat_scope.

(** ** Helpers *)

Definition _parse_sse_line (line : string) : option string :=
  let line := strip line in
  if nonempty line && startswith "data:" line then Some (strip (removeprefix "data:" line)) else None.

Definition _first_choice (chunk : dict value) : option (dict value) :=
  match dget "choices" chunk with
  | Some (VList (VDict choice :: _)) => Some choice
  | _ => None
  end.

Definition _int_or_none (v : option value) : option Z :=
  match v with Some (VInt z) => Some z | _ => None end.
Definition _int_or_zero (v : option value) : Z := default 0%Z (_int_or_none v).
Definition _str_or_none (v : option value) : option string :=
  match v with Some (VStr s) => if nonempty s then Some s else None | _ => None end.

(** A nested mapping's entry: [None] unless the value is a mapping. *)
Definition sub_dict (k : string) (d : dict value) : option (dict value) :=
  match dget k d with Some (VDict d') => Some d' | _ => None end.

Definition _parse_chunk_usage (raw : dict value) : usage :=
  let prompt_tokens := _int_or_zero (dget "prompt_tokens" raw) in
  let '(cached_tokens, cache_write) :=
    match sub_dict "prompt_tokens_details" raw with
    | Some d => (_int_or_none (dget "cached_tokens" d), _int_or_zero (dget "cache_write_tokens" d))
    | None => (None, 0%Z)
    end in
  let cached_tokens := match cached_tokens with
                       | None => _int_or_none (dget "prompt_cache_hit_tokens" raw)
                       | Some z => Some z
                       end in
  let cache_read := default 0%Z cached_tokens in
  let fresh_input := Z.max 0 (prompt_tokens - cache_read - cache_write) in
  let output := _int_or_zero (dget "completion_tokens" raw) in
  let reasoning := match sub_dict "completion_tokens_details" raw with
                   | Some d => Some (_int_or_zero (dget "reasoning_tokens" d))
                   | None => None
                   end in
  Usage fresh_input output cache_read cache_write None reasoning
    (fresh_input + output + cache_read + cache_write) UsageCost_default.

Definition _usage_from_responses_event (chunk : dict value) : option usage :=
  match sub_dict "response" chunk with
  | None => None
  | Some response =>
      match sub_dict "usage" response with
      | None => None
      | Some raw =>
          let details k := match sub_dict "input_tokens_details" raw with
                           | Some d => _int_or_zero (dget k d)
                           | None => 0%Z
                           end in
          let cache_read := details "cached_tokens" in
          let cache_write := details "cache_write_tokens" in
          let reasoning := match sub_dict "output_tokens_details" raw with
                           | Some d => Some (_int_or_zero (dget "reasoning_tokens" d))
                           | None => None
                           end in
          Some (Usage (Z.max 0 (_int_or_zero (dget "input_tokens" raw) - cache_read - cache_write))
                      (_int_or_zero (dget "output_tokens" raw)) cache_read cache_write None reasoning
                      (_int_or_zero (dget "total_tokens" raw)) UsageCost_default)
      end
  end.

Definition _tool_call_deltas (delta : dict value) : list (dict value) :=
  match dget "tool_calls" delta with
  | Some (VList l) => flat_map (λ v, match v with VDict d => [d] | _ => [] end) l
  | _ => []
  end.

Definition _thinking_delta (delta : dict value) : option (string * string) :=
  match _str_or_none (dget "reasoning_content" delta) with
  | Some s => Some ("reasoning_content", s)
  | None =>
      match _str_or_none (dget "reasoning" delta) with
      | Some s => Some ("reasoning", s)
      | None => match _str_or_none (dget "thinking" delta) with
                | Some s => Some ("thinking", s)
                | None => None
                end
      end
  end.

(** The arguments of a tool call, from their text. *)
Definition call_arguments (text : string) : dict value :=
  if nonempty text then
    match loads_object text with
    | Some d => d
    | None => [("_raw_arguments", VStr text)]
    end
  else [].
Definition call_id_or (id : string) (index : Z) : string :=
  if nonempty id then id else "tool-call-" +:+ pretty index.

(** [finish_reason: str | None] of a response-end event *)
Definition validated_reason (v : value) : res (option string) :=
  match v with
  | VNone => Ok None
  | VStr s => Ok (Some s)
  | _ => Raise (Exn ValidationError "finish_reason: Input should be a valid string")
  end.

(** The message of a finished stream. *)
Definition final_content (content thinking : list string) (signature : option string)
    (calls : list tool_call) : list assistant_block :=
  let blocks := assistant_content (str_concat content) calls in
  match thinking with
  | [] => blocks
  | _ => AThinking (ThinkingContent (str_concat thinking) signature false) :: blocks
  end.

(** ** The parser protocol *)

Class StreamParser (P : Type) := {
  parser_new : P;
  emitted_content : P → bool;
  fatal : P → bool;
  feed : P → string → res (list provider_event * bool * P);
  finalize : Z → P → res (list provider_event)
}.

(** What a parser promises: fragments while it goes on and at most one error, which is fatal,
    once it stops; output is owned up to by [emitted_content]; the final message holds the
    text and the thinking of all fragments. *)
Class ParserLaws (P : Type) `{StreamParser P} := {
  parser_ok : P → Prop;
  seen_text : P → string;
  seen_thinking : P → string;
  new_ok : parser_ok parser_new ∧ fatal parser_new = false ∧ emitted_content parser_new = false ∧
           seen_text parser_new = "" ∧ seen_thinking parser_new = "";
  feed_ok : ∀ p s evs stop p', feed p s = Ok (evs, stop, p') → parser_ok p → fatal p = false →
    parser_ok p' ∧
    (emitted_content p = true → emitted_content p' = true) ∧
    ((fatal p' = true ∧ stop = true ∧ ∃ m d rp, evs = [PError m d rp]) ∨
     (fatal p' = false ∧ forallb is_fragment evs = true ∧
      (evs ≠ [] → emitted_content p' = true) ∧
      seen_text p' = seen_text p +:+ str_concat (map text_of evs) ∧
      seen_thinking p' = seen_thinking p +:+ str_concat (map thinking_of evs)));
  finalize_ok : ∀ now p evs, finalize now p = Ok evs → parser_ok p →
    ∃ calls m fr, evs = (map PToolCall calls ++ [PResponseEnd m fr])%list ∧
      assistant_text m = seen_text p ∧ thinking_text m = seen_thinking p ∧ tool_calls m = calls
}.

(** ** Chat completions *)

Record tool_builder := ToolCallBuilder {
  tb_id : string; tb_name : string; tb_arguments_parts : list string
}.
Definition tb_new : tool_builder := ToolCallBuilder "" "" [].

Definition add_delta_id (delta : dict value) (b : tool_builder) : tool_builder :=
  match dget "id" delta with
  | Some (VStr s) => ToolCallBuilder s (tb_name b) (tb_arguments_parts b)
  | _ => b
  end.
(** [_ToolCallBuilder.add_delta] *)
Definition tb_add_delta (delta : dict value) (b : tool_builder) : tool_builder :=
  let b := add_delta_id delta b in
  match dget "function" delta with
  | Some (VDict function) =>
      let b := match dget "name" function with
               | Some (VStr s) => ToolCallBuilder (tb_id b) s (tb_arguments_parts b)
               | _ => b
               end in
      match dget "arguments" function with
      | Some (VStr s) => ToolCallBuilder (tb_id b) (tb_name b) (tb_arguments_parts b ++ [s])%list
      | _ => b
      end
  | _ => b
  end.
Definition tb_build (index : Z) (b : tool_builder) : tool_call :=
  ToolCall (call_id_or (tb_id b) index) (tb_name b)
           (call_arguments (str_concat (tb_arguments_parts b))) None.

(** [d.setdefault(k, new)] followed by an update of the object; keys are integers. *)
Fixpoint zupdate {B} (k : Z) (new : B) (f : B → B) (d : list (Z * B)) : list (Z * B) :=
  match d with
  | [] => [(k, f new)]
  | (k', b) :: d' => if decide (k = k') then (k', f b) :: d' else (k', b) :: zupdate k new f d'
  end.
(** [[g(k, b) for k, b in sorted(d.items())]] *)
Definition sorted_items {B} (d : list (Z * B)) : list (Z * B) :=
  py_sorted (λ x y, (x.1 <=? y.1)%Z) d.

Record chat_parser := ChatStreamParser {
  cp_emitted_content : bool;
  cp_fatal : bool;
  cp_content_parts : list string;
  cp_thinking_parts : list string;
  cp_thinking_signature : option string;
  cp_tool_call_builders : list (Z * tool_builder);
  cp_finish_reason : value;
  cp_usage : option usage
}.
Definition ChatStreamParser_init : chat_parser := ChatStreamParser false false [] [] None [] VNone None.

Definition cp_set_fatal (p : chat_parser) : chat_parser :=
  ChatStreamParser (cp_emitted_content p) true (cp_content_parts p) (cp_thinking_parts p)
    (cp_thinking_signature p) (cp_tool_call_builders p) (cp_finish_reason p) (cp_usage p).
Definition cp_set_usage (u : usage) (p : chat_parser) : chat_parser :=
  ChatStreamParser (cp_emitted_content p) (cp_fatal p) (cp_content_parts p) (cp_thinking_parts p)
    (cp_thinking_signature p) (cp_tool_call_builders p) (cp_finish_reason p) (Some u).
Definition cp_set_finish (v : value) (p : chat_parser) : chat_parser :=
  ChatStreamParser (cp_emitted_content p) (cp_fatal p) (cp_content_parts p) (cp_thinking_parts p)
    (cp_thinking_signature p) (cp_tool_call_builders p) v (cp_usage p).
Definition cp_add_content (s : string) (p : chat_parser) : chat_parser :=
  ChatStreamParser true (cp_fatal p) (cp_content_parts p ++ [s])%list (cp_thinking_parts p)
    (cp_thinking_signature p) (cp_tool_call_builders p) (cp_finish_reason p) (cp_usage p).
Definition cp_add_thinking (field s : string) (p : chat_parser) : chat_parser :=
  ChatStreamParser true (cp_fatal p) (cp_content_parts p) (cp_thinking_parts p ++ [s])%list
    (opt_or (cp_thinking_signature p) (Some field)) (cp_tool_call_builders p)
    (cp_finish_reason p) (cp_usage p).
Definition cp_add_tool (index : Z) (delta : dict value) (p : chat_parser) : chat_parser :=
  ChatStreamParser true (cp_fatal p) (cp_content_parts p) (cp_thinking_parts p)
    (cp_thinking_signature p)
    (zupdate index tb_new (tb_add_delta delta) (cp_tool_call_builders p))
    (cp_finish_reason p) (cp_usage p).

Fixpoint chat_tools (deltas : list (dict value)) (p : chat_parser) : res chat_parser :=
  match deltas with
  | [] => Ok p
  | d :: rest =>
      index ← py_int (default (VInt 0) (dget "index" d));
      chat_tools rest (cp_add_tool index d p)
  end.

(** The content of a choice's delta. *)
Definition chat_delta (delta : dict value) (p : chat_parser) :
    res (list provider_event * bool * chat_parser) :=
  let '(ev1, p) := match _str_or_none (dget "content" delta) with
                   | Some s => ([PTextDelta s], cp_add_content s p)
                   | None => ([], p)
                   end in
  let '(ev2, p) := match _thinking_delta delta with
                   | Some (field, s) => ([PThinkingDelta s], cp_add_thinking field s p)
                   | None => ([], p)
                   end in
  p ← chat_tools (_tool_call_deltas delta) p;
  Ok ((ev1 ++ ev2)%list, false, p).

(** What a choice carries besides its delta. *)
Definition chat_choice (chunk choice : dict value) (p : chat_parser) : chat_parser :=
  let p := match sub_dict "usage" chunk, sub_dict "usage" choice with
           | None, Some u => cp_set_usage (_parse_chunk_usage u) p
           | _, _ => p
           end in
  let v := default VNone (dget "finish_reason" choice) in
  cp_set_finish (if truthy v then v else cp_finish_reason p) p.

Definition chat_feed (p : chat_parser) (event : string) :
    res (list provider_event * bool * chat_parser) :=
  if bool_decide (event = "[DONE]") then Ok ([], true, p)
  else match loads_object event with
       | None => Ok ([PError "Provider returned invalid JSON chunk" None None], true, cp_set_fatal p)
       | Some chunk =>
           let p := match sub_dict "usage" chunk with
                    | Some u => cp_set_usage (_parse_chunk_usage u) p
                    | None => p
                    end in
           match _first_choice chunk with
           | None => Ok ([], false, p)
           | Some choice =>
               let p := chat_choice chunk choice p in
               match sub_dict "delta" choice with
               | Some delta => chat_delta delta p
               | None => Ok ([], false, p)
               end
           end
       end.

Definition chat_finalize (now : Z) (p : chat_parser) : res (list provider_event) :=
  let tool_calls := map (λ kb, tb_build kb.1 kb.2) (sorted_items (cp_tool_call_builders p)) in
  let content := final_content (cp_content_parts p) (cp_thinking_parts p)
                   (cp_thinking_signature p) tool_calls in
  fr ← validated_reason (cp_finish_reason p);
  Ok (map PToolCall tool_calls
        ++ [PResponseEnd (new_assistant now content (default Usage_default (cp_usage p))) fr])%list.

#[global] Instance chat_stream_parser : StreamParser chat_parser := {|
  parser_new := ChatStreamParser_init;
  emitted_content := cp_emitted_content;
  fatal := cp_fatal;
  feed := chat_feed;
  finalize := chat_finalize
|}.

(** ** Responses *)

Record responses_builder := ResponsesToolCallBuilder {
  rb_call_id : string;
  rb_name : string;
  rb_output_index : Z;
  rb_arguments_parts : list string;
  rb_arguments_final : option string
}.
Definition rb_new : responses_builder := ResponsesToolCallBuilder "" "" 0 [] None.

Definition add_arguments_delta (delta : option value) (b : responses_builder) : responses_builder :=
  match delta with
  | Some (VStr s) =>
      ResponsesToolCallBuilder (rb_call_id b) (rb_name b) (rb_output_index b)
        (rb_arguments_parts b ++ [s])%list (rb_arguments_final b)
  | _ => b
  end.
Definition set_final (call_id name : option string) (arguments : option value)
    (output_index : option Z) (b : responses_builder) : responses_builder :=
  ResponsesToolCallBuilder (str_or call_id (rb_call_id b)) (str_or name (rb_name b))
    (default (rb_output_index b) output_index) (rb_arguments_parts b)
    (match arguments with Some (VStr s) => Some s | _ => rb_arguments_final b end).
Definition rb_build (index : Z) (b : responses_builder) : tool_call :=
  let arguments_text := match rb_arguments_final b with
                        | Some s => s
                        | None => str_concat (rb_arguments_parts b)
                        end in
  ToolCall (call_id_or (rb_call_id b) index) (rb_name b) (call_arguments arguments_text) None.

(** [builders.setdefault(k, new)] followed by an update. *)
Definition dupdate {B} (k : string) (new : B) (f : B → B) (d : dict B) : dict B :=
  dset k (f (default new (dget k d))) d.

(** An item of the given type: its id. *)
Definition item_of_type (type : string) (item : option value) : option (dict value * string) :=
  match item with
  | Some (VDict d) =>
      if veq_str (opt_or_none (dget "type" d)) type
      then match dget "id" d with Some (VStr id) => Some (d, id) | _ => None end
      else None
  | _ => None
  end.

Definition _register_reasoning_item (item : option value) (items : dict (dict value)) : dict (dict value) :=
  match item_of_type "reasoning" item with
  | Some (d, id) => dset id d items
  | None => items
  end.
Definition _register_responses_item (item output_index : option value) (builders : dict responses_builder) :
    dict responses_builder :=
  match item_of_type "function_call" item with
  | Some (d, id) =>
      let raw_arguments := match _str_or_none (dget "arguments" d) with
                           | Some s => Some (VStr s)
                           | None => None
                           end in
      dupdate id rb_new (set_final (_str_or_none (dget "call_id" d)) (_str_or_none (dget "name" d))
                           raw_arguments (_int_or_none output_index)) builders
  | None => builders
  end.
Definition _finalize_responses_item (item output_index : option value) (builders : dict responses_builder) :
    dict responses_builder :=
  match item_of_type "function_call" item with
  | Some (d, id) =>
      dupdate id rb_new (set_final (_str_or_none (dget "call_id" d)) (_str_or_none (dget "name" d))
                           (dget "arguments" d) (_int_or_none output_index)) builders
  | None => builders
  end.
Definition _ordered_builders (builders : dict responses_builder) : list responses_builder :=
  py_sorted (λ x y, (rb_output_index x <=? rb_output_index y)%Z) (dvalues builders).

Definition _responses_finish_reason (chunk : dict value) : option string :=
  match sub_dict "response" chunk with
  | Some response => match dget "status" response with Some (VStr s) => Some s | _ => None end
  | None => None
  end.
Definition _normalize_finish_reason (status : option string) (has_tool_calls : bool) : string :=
  if has_tool_calls then "tool_calls"
  else if bool_decide (status = Some "incomplete") then "length" else "stop".

Definition nested_message (d : option (dict value)) : option string :=
  match d with Some e => _str_or_none (dget "message" e) | None => None end.
Definition _responses_failure_event (chunk : dict value) : provider_event :=
  let error := match sub_dict "response" chunk with
               | Some response => sub_dict "error" response
               | None => None
               end in
  PError (default "Provider response failed" (nested_message error))
         (Some [("event", VDict chunk)]) None.
Definition _responses_error_message (chunk : dict value) : string :=
  match _str_or_none (dget "message" chunk) with
  | Some s => s
  | None => default "Provider stream error" (nested_message (sub_dict "error" chunk))
  end.

Record responses_parser := ResponsesStreamParser {
  rp_emitted_content : bool;
  rp_fatal : bool;
  rp_content_parts : list string;
  rp_thinking_parts : list string;
  rp_reasoning_items : dict (dict value);
  rp_tool_call_builders : dict responses_builder;
  rp_status : option string;
  rp_usage : option usage
}.
Definition ResponsesStreamParser_init : responses_parser :=
  ResponsesStreamParser false false [] [] [] [] None None.

Definition rp_set_fatal (p : responses_parser) : responses_parser :=
  ResponsesStreamParser (rp_emitted_content p) true (rp_content_parts p) (rp_thinking_parts p)
    (rp_reasoning_items p) (rp_tool_call_builders p) (rp_status p) (rp_usage p).
Definition rp_add_content (s : string) (p : responses_parser) : responses_parser :=
  ResponsesStreamParser true (rp_fatal p) (rp_content_parts p ++ [s])%list (rp_thinking_parts p)
    (rp_reasoning_items p) (rp_tool_call_builders p) (rp_status p) (rp_usage p).
Definition rp_add_thinking (emitted : bool) (s : string) (p : responses_parser) : responses_parser :=
  ResponsesStreamParser emitted (rp_fatal p) (rp_content_parts p) (rp_thinking_parts p ++ [s])%list
    (rp_reasoning_items p) (rp_tool_call_builders p) (rp_status p) (rp_usage p).
Definition rp_set_items (items : dict (dict value)) (builders : dict responses_builder)
    (p : responses_parser) : responses_parser :=
  ResponsesStreamParser (rp_emitted_content p) (rp_fatal p) (rp_content_parts p)
    (rp_thinking_parts p) items builders (rp_status p) (rp_usage p).
Definition rp_set_builders (emitted : bool) (builders : dict responses_builder)
    (p : responses_parser) : responses_parser :=
  ResponsesStreamParser emitted (rp_fatal p) (rp_content_parts p) (rp_thinking_parts p)
    (rp_reasoning_items p) builders (rp_status p) (rp_usage p).
Definition rp_set_end (status : option string) (u : option usage) (p : responses_parser) : responses_parser :=
  ResponsesStreamParser (rp_emitted_content p) (rp_fatal p) (rp_content_parts p)
    (rp_thinking_parts p) (rp_reasoning_items p) (rp_tool_call_builders p) status
    (match u with Some _ => u | None => rp_usage p end).

(** A chunk of a known type. *)
Definition responses_chunk (chunk : dict value) (type : string) (p : responses_parser) :
    list provider_event * bool * responses_parser :=
  let among l := bool_decide (type ∈ (l : list string)) in
  if among ["response.output_text.delta"; "response.refusal.delta"] then
    match _str_or_none (dget "delta" chunk) with
    | Some s => ([PTextDelta s], false, rp_add_content s p)
    | None => ([], false, p)
    end
  else if among ["response.reasoning_summary_text.delta"; "response.reasoning_text.delta"] then
    match _str_or_none (dget "delta" chunk) with
    | Some s => ([PThinkingDelta s], false, rp_add_thinking true s p)
    | None => ([], false, p)
    end
  else if among ["response.reasoning_summary_part.done"] then
    match rp_thinking_parts p with
    | [] => ([], false, p)
    | _ => let separator := char_str 10 +:+ char_str 10 in
           ([PThinkingDelta separator], false, rp_add_thinking (rp_emitted_content p) separator p)
    end
  else if among ["response.output_item.added"] then
    let item := dget "item" chunk in
    ([], false,
     rp_set_items (_register_reasoning_item item (rp_reasoning_items p))
       (_register_responses_item item (dget "output_index" chunk) (rp_tool_call_builders p)) p)
  else if among ["response.function_call_arguments.delta"] then
    match dget "item_id" chunk with
    | Some (VStr id) =>
        ([], false,
         rp_set_builders true
           (dupdate id rb_new (add_arguments_delta (dget "delta" chunk)) (rp_tool_call_builders p)) p)
    | _ => ([], false, p)
    end
  else if among ["response.function_call_arguments.done"] then
    match dget "item_id" chunk with
    | Some (VStr id) =>
        ([], false,
         rp_set_builders (rp_emitted_content p)
           (dupdate id rb_new (set_final None None (dget "arguments" chunk) None)
              (rp_tool_call_builders p)) p)
    | _ => ([], false, p)
    end
  else if among ["response.output_item.done"] then
    let item := dget "item" chunk in
    ([], false,
     rp_set_items (_register_reasoning_item item (rp_reasoning_items p))
       (_finalize_responses_item item (dget "output_index" chunk) (rp_tool_call_builders p)) p)
  else if among ["response.completed"; "response.incomplete"] then
    ([], true, rp_set_end (_responses_finish_reason chunk) (_usage_from_responses_event chunk) p)
  else if among ["response.failed"] then
    ([_responses_failure_event chunk], true, rp_set_fatal p)
  else if among ["error"] then
    ([PError (_responses_error_message chunk) (Some [("event", VDict chunk)]) None], true, rp_set_fatal p)
  else ([], false, p).

Definition responses_feed (p : responses_parser) (event : string) :
    res (list provider_event * bool * responses_parser) :=
  if bool_decide (event = "[DONE]") then Ok ([], false, p)
  else match loads_object event with
       | None => Ok ([], false, p)
       | Some chunk =>
           match dget "type" chunk with
           | Some (VStr type) => Ok (responses_chunk chunk type p)
           | _ => Ok ([], false, p)
           end
       end.

Definition responses_finalize (now : Z) (p : responses_parser) : res (list provider_event) :=
  let tool_calls := imap (λ i b, rb_build (Z.of_nat i) b) (_ordered_builders (rp_tool_call_builders p)) in
  let finish_reason := _normalize_finish_reason (rp_status p)
                         (match tool_calls with [] => false | _ => true end) in
  let signature := match rp_reasoning_items p with
                   | (_, d) :: _ => Some (dumps (VDict d))
                   | [] => None
                   end in
  let content := final_content (rp_content_parts p) (rp_thinking_parts p) signature tool_calls in
  Ok (map PToolCall tool_calls
        ++ [PResponseEnd (new_assistant now content (default Usage_default (rp_usage p)))
              (Some finish_reason)])%list.

#[global] Instance responses_stream_parser : StreamParser responses_parser := {|
  parser_new := ResponsesStreamParser_init;
  emitted_content := rp_emitted_content;
  fatal := rp_fatal;
  feed := responses_feed;
  finalize := responses_finalize
|}.

(** ** The parsers keep the laws *)

Lemma str_concat_snoc l s : str_concat (l ++ [s])%list = str_concat l +:+ s.
Proof. rewrite str_concat_app. simpl. by rewrite str_app_nil_r. Qed.

(** The accessors of the message of a finished stream. *)
Lemma tool_calls_of_map calls : tool_calls_of (map ATool calls) = calls.
Proof. induction calls as [|c l IH]; [done|]. unfold tool_calls_of in *. simpl. by rewrite IH. Qed.
Lemma assistant_content_accessors text calls :
  str_concat (map ablock_text (assistant_content text calls)) = text ∧
  str_concat (map (λ b, match b with AThinking t => th_thinking t | _ => "" end)
                (assistant_content text calls)) = "" ∧
  tool_calls_of (assistant_content text calls) = calls.
Proof.
  unfold assistant_content. rewrite !map_app, !str_concat_app.
  assert (∀ f : assistant_block → string, (∀ c, f (ATool c) = "") →
            str_concat (map f (map ATool calls)) = "") as Hm.
  { intros f Hf. rewrite map_map. by apply str_concat_empty. }
  rewrite !Hm, !str_app_nil_r by done. unfold nonempty. case_bool_decide; simpl.
  - subst. split_and!; try done. apply tool_calls_of_map.
  - rewrite str_app_nil_r. split_and!; try done. apply tool_calls_of_map.
Qed.
Lemma final_content_accessors now content thinking signature calls u :
  let m := new_assistant now (final_content content thinking signature calls) u in
  assistant_text m = str_concat content ∧ thinking_text m = str_concat thinking ∧ tool_calls m = calls.
Proof.
  destruct (assistant_content_accessors (str_concat content) calls) as (H1 & H2 & H3).
  unfold assistant_text, thinking_text, tool_calls, final_content. simpl.
  destruct thinking as [|t thinking]; [done|]. simpl. by rewrite H1, H2, str_app_nil_r.
Qed.

Lemma str_or_none_nonempty v s : _str_or_none v = Some s → nonempty s = true.
Proof. destruct v as [[]|]; try done. simpl. destruct (nonempty s0) eqn:E; naive_solver. Qed.

(** *** Chat completions *)

Lemma chat_tools_frame deltas p p' :
  chat_tools deltas p = Ok p' →
  cp_fatal p' = cp_fatal p ∧ cp_content_parts p' = cp_content_parts p ∧
  cp_thinking_parts p' = cp_thinking_parts p ∧
  (cp_emitted_content p = true → cp_emitted_content p' = true).
Proof.
  revert p. induction deltas as [|d deltas IH]; intros p; simpl; [by intros [= ->]|].
  destruct (py_int _) as [i|]; [|done]. simpl. intros H. by apply IH in H as (? & ? & ? & ?); auto.
Qed.

Lemma chat_choice_frame chunk choice p :
  let p' := chat_choice chunk choice p in
  cp_fatal p' = cp_fatal p ∧ cp_content_parts p' = cp_content_parts p ∧
  cp_thinking_parts p' = cp_thinking_parts p ∧ cp_emitted_content p' = cp_emitted_content p.
Proof.
  unfold chat_choice. by destruct (sub_dict "usage" chunk), (sub_dict "usage" choice).
Qed.

(** What feeding does to the observations of a parser. *)
Definition fed (p p' : chat_parser) (evs : list provider_event) : Prop :=
  cp_fatal p' = cp_fatal p ∧ (cp_emitted_content p = true → cp_emitted_content p' = true) ∧
  forallb is_fragment evs = true ∧ (evs ≠ [] → cp_emitted_content p' = true) ∧
  str_concat (cp_content_parts p') = str_concat (cp_content_parts p) +:+ str_concat (map text_of evs) ∧
  str_concat (cp_thinking_parts p') =
    str_concat (cp_thinking_parts p) +:+ str_concat (map thinking_of evs).

Lemma fed_nil p p' :
  cp_fatal p' = cp_fatal p → cp_content_parts p' = cp_content_parts p →
  cp_thinking_parts p' = cp_thinking_parts p →
  (cp_emitted_content p = true → cp_emitted_content p' = true) → fed p p' [].
Proof. intros H1 H2 H3 H4. unfold fed. simpl. rewrite H1, H2, H3, !str_app_nil_r. by split_and!. Qed.
Lemma fed_trans p p' p'' evs evs' : fed p p' evs → fed p' p'' evs' → fed p p'' (evs ++ evs')%list.
Proof.
  intros (F & E & Hf & Hn & Hc & Ht) (F' & E' & Hf' & Hn' & Hc' & Ht'). unfold fed.
  rewrite F', F, forallb_app, Hf, Hf', !map_app, !str_concat_app, <-!str_app_assoc, <-Hc, <-Ht.
  split_and!; auto. intros Hne. destruct evs' as [|e evs']; [|by apply Hn'].
  apply E', Hn. intros ->. done.
Qed.
Lemma fed_content s p : fed p (cp_add_content s p) [PTextDelta s].
Proof. unfold fed. simpl. by rewrite str_concat_snoc, !str_app_nil_r. Qed.
Lemma fed_thinking f s p : fed p (cp_add_thinking f s p) [PThinkingDelta s].
Proof. unfold fed. simpl. by rewrite str_concat_snoc, !str_app_nil_r. Qed.

Lemma chat_delta_fed delta p evs stop p' :
  chat_delta delta p = Ok (evs, stop, p') → fed p p' evs.
Proof.
  unfold chat_delta. intros H.
  assert (∀ p1 q ev1 ev2, fed p q ev1 → fed q p1 ev2 →
     (p ← chat_tools (_tool_call_deltas delta) p1; Ok ((ev1 ++ ev2)%list, false, p)) = Ok (evs, stop, p') →
     fed p p' evs) as Hgo.
  { intros p1 q ev1 ev2 H1 H2. destruct (chat_tools _ p1) as [p2|] eqn:Et; [|done].
    simpl. intros [= <- <- <-]. apply chat_tools_frame in Et as (? & ? & ? & ?).
    rewrite <-(app_nil_r (ev1 ++ ev2)%list). eapply fed_trans; [by eapply fed_trans|]. by apply fed_nil. }
  destruct (_str_or_none (dget "content" delta)) as [s|], (_thinking_delta delta) as [[f t]|];
    (eapply Hgo; [| |exact H]);
    first [apply fed_content|apply fed_thinking|by apply fed_nil].
Qed.

Lemma chat_feed_fed p s evs stop p' :
  chat_feed p s = Ok (evs, stop, p') →
  fed p p' evs ∨ (stop = true ∧ p' = cp_set_fatal p ∧
                  evs = [PError "Provider returned invalid JSON chunk" None None]).
Proof.
  unfold chat_feed. case_bool_decide; [intros [= <- <- <-]; left; by apply fed_nil|].
  destruct (loads_object s) as [chunk|]; [|intros [= <- <- <-]; by right].
  set (p1 := match sub_dict "usage" chunk with Some _ => _ | None => _ end).
  assert (fed p p1 []) as Hp1 by (unfold p1; destruct (sub_dict "usage" chunk); by apply fed_nil).
  clearbody p1. destruct (_first_choice chunk) as [choice|]; [|intros [= <- <- <-]; by left].
  destruct (chat_choice_frame chunk choice p1) as (Fa & Fb & Fc & E).
  assert (fed p1 (chat_choice chunk choice p1) []) as Hp2 by (apply fed_nil; congruence).
  pose proof (fed_trans _ _ _ _ _ Hp1 Hp2) as Hp3. simpl in Hp3.
  destruct (sub_dict "delta" choice) as [delta|]; [|intros [= <- <- <-]; by left].
  intros Hd%chat_delta_fed. left. exact (fed_trans _ _ _ _ _ Hp3 Hd).
Qed.

#[global] Instance chat_parser_laws : ParserLaws chat_parser.
Proof.
  refine {| parser_ok := λ _, True;
            seen_text p := str_concat (cp_content_parts p);
            seen_thinking p := str_concat (cp_thinking_parts p) |}.
  - done.
  - intros p s evs stop p' Hf _ Hfatal.
    destruct (chat_feed_fed _ _ _ _ _ Hf) as [(F & E & Hfr & Hn & Hc & Ht)|(-> & -> & ->)].
    + split; [done|]. split; [done|]. right. simpl in *. by rewrite F.
    + split; [done|]. split; [done|]. left. simpl. eauto 10.
  - intros now p evs Hf _. simpl in Hf. unfold chat_finalize in Hf.
    destruct (validated_reason _) as [fr|]; [|done]. injection Hf as <-.
    do 3 eexists. split; [done|]. apply final_content_accessors.
Defined.

(** *** Responses *)

(** The observations of the laws. *)
Definition rp_fed (p p' : responses_parser) (evs : list provider_event) (stop : bool) : Prop :=
  (rp_thinking_parts p' ≠ [] → rp_emitted_content p' = true) ∧
  (rp_emitted_content p = true → rp_emitted_content p' = true) ∧
  ((rp_fatal p' = true ∧ stop = true ∧ ∃ m d rp, evs = [PError m d rp]) ∨
   (rp_fatal p' = false ∧ forallb is_fragment evs = true ∧
    (evs ≠ [] → rp_emitted_content p' = true) ∧
    str_concat (rp_content_parts p') = str_concat (rp_content_parts p) +:+ str_concat (map text_of evs) ∧
    str_concat (rp_thinking_parts p') =
      str_concat (rp_thinking_parts p) +:+ str_concat (map thinking_of evs))).


(** A step that leaves text and thinking alone. *)
Lemma rp_fed_quiet p p' stop :
  (rp_thinking_parts p ≠ [] → rp_emitted_content p = true) → rp_fatal p = false →
  rp_fatal p' = rp_fatal p → rp_content_parts p' = rp_content_parts p →
  rp_thinking_parts p' = rp_thinking_parts p →
  (rp_emitted_content p = true → rp_emitted_content p' = true) → rp_fed p p' [] stop.
Proof.
  intros Hp Hf Hf' Hc Ht He. unfold rp_fed. rewrite Hc, Ht, Hf'. simpl. rewrite !str_app_nil_r.
  split; [auto|]. split; [done|]. right. by split_and!.
Qed.
Lemma rp_fed_text s p : rp_fatal p = false → rp_fed p (rp_add_content s p) [PTextDelta s] false.
Proof.
  intros Hf. unfold rp_fed. simpl. rewrite str_concat_snoc, !str_app_nil_r.
  split; [done|]. split; [done|]. right. by split_and!.
Qed.
Lemma rp_fed_thinking e s p :
  rp_fatal p = false → e = true → rp_fed p (rp_add_thinking e s p) [PThinkingDelta s] false.
Proof.
  intros Hf ->. unfold rp_fed. simpl. rewrite str_concat_snoc, !str_app_nil_r.
  split; [done|]. split; [done|]. right. by split_and!.
Qed.
Lemma rp_fed_error p m d :
  (rp_thinking_parts p ≠ [] → rp_emitted_content p = true) →
  rp_fed p (rp_set_fatal p) [PError m d None] true.
Proof. intros Hp. unfold rp_fed. simpl. split; [done|]. split; [done|]. left. eauto 10. Qed.

Lemma responses_chunk_fed chunk type p :
  (rp_thinking_parts p ≠ [] → rp_emitted_content p = true) → rp_fatal p = false →
  let r := responses_chunk chunk type p in rp_fed p r.2 r.1.1 r.1.2.
Proof.
  intros Hp Hf. unfold responses_chunk.
  case_bool_decide; [destruct (_str_or_none _); [by apply rp_fed_text|by apply rp_fed_quiet]|].
  case_bool_decide; [destruct (_str_or_none _); [by apply rp_fed_thinking|by apply rp_fed_quiet]|].
  case_bool_decide.
  { destruct (rp_thinking_parts p) eqn:E; [by apply rp_fed_quiet; rewrite ?E|].
    apply rp_fed_thinking; [done|]. by apply Hp. }
  case_bool_decide; [by apply rp_fed_quiet|].
  case_bool_decide; [destruct (dget "item_id" chunk) as [[]|]; by apply rp_fed_quiet|].
  case_bool_decide; [destruct (dget "item_id" chunk) as [[]|]; by apply rp_fed_quiet|].
  case_bool_decide; [by apply rp_fed_quiet|].
  case_bool_decide; [by apply rp_fed_quiet|].
  case_bool_decide; [by apply rp_fed_error|].
  case_bool_decide; [by apply rp_fed_error|by apply rp_fed_quiet].
Qed.

Lemma responses_feed_fed p s evs stop p' :
  responses_feed p s = Ok (evs, stop, p') →
  (rp_thinking_parts p ≠ [] → rp_emitted_content p = true) → rp_fatal p = false →
  rp_fed p p' evs stop.
Proof.
  intros Hf Hp Hfatal. unfold responses_feed in Hf.
  assert (rp_fed p p [] false) as Hsame by by apply rp_fed_quiet.
  case_bool_decide; [by injection Hf as <- <- <-|].
  destruct (loads_object s) as [chunk|]; [|by injection Hf as <- <- <-].
  destruct (dget "type" chunk) as [[]|]; try (by injection Hf as <- <- <-).
  injection Hf as Hf. pose proof (responses_chunk_fed chunk s0 p Hp Hfatal) as Hs. by rewrite Hf in Hs.
Qed.

#[global] Instance responses_parser_laws : ParserLaws responses_parser.
Proof.
  refine {| parser_ok p := rp_thinking_parts p ≠ [] → rp_emitted_content p = true;
            seen_text p := str_concat (rp_content_parts p);
            seen_thinking p := str_concat (rp_thinking_parts p) |}.
  - done.
  - intros p s evs stop p' Hf Hp Hfatal. exact (responses_feed_fed _ _ _ _ _ Hf Hp Hfatal).
  - intros now p evs Hf _. simpl in *. unfold responses_finalize in Hf. injection Hf as <-.
    do 3 eexists. split; [done|]. apply final_content_accessors.
Defined.
