(* ===== verification/LlmProvider.v ===== *)
(** * The OpenAI-compatible provider (adapters/openai_compatible.py)

    [OpenAICompatibleProvider]: request headers and credentials, the streaming request with
    its retries, and the canonical stream a caller sees.  [_stream] is generic in the parser,
    as in the source, and so are its theorems: they hold for every parser that keeps
    [ParserLaws], for every behaviour of the servers ([post]) and of the caller's
    cancellation token. *)

From stdpp Require Import base gmap strings list pretty.
From Stdlib Require Import ZArith QArith Ascii.
From S2P Require Import Prelude PyValue Json Sha256 LlmTypes LlmStream LlmRuntime LlmEnvelope LlmOpenAI LlmParsers.

Local Open Scope string_scope.
Local Open Scope nat_scope.

(** ** Headers *)

(** [d.update(d')] *)
Definition dict_update {V} (d d' : dict V) : dict V :=
  fold_left (λ acc kv, dset kv.1 kv.2 acc) d' d.

(** The response's headers have lower-case names; the lookup ignores case. *)
Definition _response_header_value (r : http_response) (header_name : option string) : option string :=
  match header_name with
  | None => None
  | Some name => match dget (lower name) (rs_headers r) with
                 | None => None
                 | Some v => let normalized := strip v in
                             if nonempty normalized then Some normalized else None
                 end
  end.

Definition _apply_session_affinity_headers (session_id affinity_format : option string)
    (headers : dict string) : dict string :=
  match session_id, affinity_format with
  | Some id, Some f =>
      if bool_decide (f = "openrouter") then dset "x-session-id" id headers
      else if bool_decide (f = "openai") then dset "session_id" id headers
      else headers
  | _, _ => headers
  end.

Section Config.
Variable cfg : openai_config.

Definition _prompt_cache_key (affinity_id : option string) : res (option string) :=
  match dget "supportsPromptCacheKey" (oc_compat cfg) with
  | Some (VBool true) => Ok affinity_id
  | None | Some VNone =>
      direct ← is_direct_openai_url (oc_base_url cfg);
      Ok (if direct : bool then affinity_id else None)
  | Some _ => Ok None
  end.

Definition _session_affinity_format (responses : bool) : res (option string) :=
  let value := match dget "sessionAffinityFormat" (oc_compat cfg) with
               | Some (VStr s) => s
               | _ => "openai"
               end in
  match dget "sendSessionAffinityHeaders" (oc_compat cfg) with
  | Some (VBool true) => Ok (Some value)
  | None | Some VNone =>
      if responses then
        direct ← is_direct_openai_url (oc_base_url cfg);
        Ok (if direct : bool then Some value else None)
      else Ok None
  | Some _ => Ok None
  end.

Definition _is_transient_status (status_code : Z) : bool :=
  (bool_decide (status_code ∈ [408; 409; 425; 429]) || (500 <=? status_code))%Z.

Definition _should_retry (attempt : nat) (status_code : option Z) : bool :=
  if (oc_max_retries cfg <=? Z.of_nat attempt)%Z then false
  else match status_code with None => true | Some c => _is_transient_status c end.

(** The URL and the headers of the requests of a call. *)
Definition build_request (url : string) (payload : dict value)
    (session_id affinity_format : option string) (has_images : bool) : res http_request :=
  let headers := default [] (oc_headers cfg) in
  let headers := if bool_decide (oc_provider_name cfg = "github-copilot") && has_images
                 then dset "Copilot-Vision-Request" "true" headers else headers in
  r ← match oc_credential_resolver cfg with
      | None => Ok (oc_api_key cfg, headers, url)
      | Some resolved =>
          auth ← resolved;
          let headers := dict_update headers (default [] (pa_headers auth)) in
          let request_url :=
            match pa_base_url auth with
            | Some base =>
                rstrip_char "/" base
                  +:+ (if endswith "/responses" (rstrip_char "/" url) then "/responses"
                       else "/chat/completions")
            | None => url
            end in
          Ok (pa_api_key auth, headers, request_url)
      end;
  let '(api_key, headers, request_url) := r in
  let headers :=
    if oc_omit_authorization_header cfg then headers
    else if existsb (λ k, bool_decide (lower k = "authorization")) (dkeys headers) then headers
    else dset "Authorization" ("Bearer " +:+ api_key) headers in
  Ok (HttpRequest request_url (_apply_session_affinity_headers session_id affinity_format headers)
        payload).
End Config.

(** [_append_response_observer_diagnostic]: on the first response end. *)
Fixpoint append_diagnostic (now : Z) (exc : exn) (events : list provider_event) : list provider_event :=
  match events with
  | [] => []
  | PResponseEnd m fr :: rest =>
      let d := Diagnostic "response_headers_observer_error" now None
                 (Some [("error", VStr (exn_msg exc)); ("error_type", VStr (exn_name (exn_cls exc)))]) in
      PResponseEnd (with_diagnostics (Some (default [] (am_diagnostics m) ++ [d])%list) m) fr :: rest
  | e :: rest => e :: append_diagnostic now exc rest
  end.

(** ** The streaming envelope *)

Inductive read_end :=
| RCancelled                  (* the caller cancelled *)
| RComplete                   (* the parser stopped or the lines ended *)
| RBroken (e : http_error)
| RRaised (e : exn).

Section Read.
Context {P : Type} `{StreamParser P}.
Variable sig : signal.

(** [async for line in response.aiter_lines()]: the events, how it ended, the parser, and the
    number of times the token was asked. *)
Fixpoint read_lines (lines : list string) (broken : option http_error) (p : P) (k : nat) :
    list provider_event * read_end * P * nat :=
  match lines with
  | [] => ([], match broken with Some e => RBroken e | None => RComplete end, p, k)
  | line :: rest =>
      let '(c, k) := is_cancelled sig k in
      if c : bool then ([], RCancelled, p, k)
      else match _parse_sse_line line with
           | None => read_lines rest broken p k
           | Some event =>
               match feed p event with
               | Raise e => ([], RRaised e, p, k)
               | Ok (events, stop, p') =>
                   if stop : bool then (events, RComplete, p', k)
                   else let '(events', fin, p'', k') := read_lines rest broken p' k in
                        ((events ++ events')%list, fin, p'', k')
               end
           end
  end.
End Read.

Section Stream.
Context (P : Type) `{StreamParser P}.
Variables (cfg : openai_config) (now : Z) (model : string) (sig : signal).
Variable post : nat → exchange.           (* what the n-th request of the call leads to *)

(** A network error: a retry only before any model output. *)
Definition network_error (emitted : bool) (e : http_error) (attempt k : nat)
    (next : nat → nat → generated) : generated :=
  on_http_error (oc_max_retries cfg) (oc_max_retry_delay_seconds cfg) sig
    (negb emitted && _should_retry cfg attempt None) e attempt k next.

(** A response with an error status. *)
Definition on_error_status (r : http_response) (attempt k : nat) (next : nat → nat → generated) :
    generated :=
  match rs_body r with
  | inr e => network_error false e attempt k next
  | inl body =>
      let body_text := decode body in
      if _should_retry cfg attempt (Some (rs_status r))
      then retrying (oc_max_retries cfg) (oc_max_retry_delay_seconds cfg) sig attempt ("HTTP " +:+ pretty (rs_status r))
             [("status_code", VInt (rs_status r)); ("body", VStr body_text)] k next
      else Generated
             [PError (provider_http_error_message (oc_provider_name cfg) (rs_status r) body_text (Some model))
                (Some [("status_code", VInt (rs_status r)); ("body", VStr body_text);
                       ("attempts", VInt (Z.of_nat attempt + 1))])
                (_response_header_value r (oc_response_provider_header cfg))] 0 (Ok ())
  end.

(** The end of a stream that was read to its end. *)
Definition finish (r : http_response) (p : P) : generated :=
  if fatal p then Generated [] 0 (Ok ())
  else match finalize now p with
       | Raise e => Generated [] 0 (Raise e)
       | Ok final_events =>
           let final_events :=
             match oc_response_headers_observer cfg with
             | Some observer => match observer (rs_headers r) with
                                | Ok _ => final_events
                                | Raise exc => append_diagnostic now exc final_events
                                end
             | None => final_events
             end in
           Generated final_events 0 (Ok ())
       end.

Definition on_response (r : http_response) (attempt k : nat) (next : nat → nat → generated) : generated :=
  if (400 <=? rs_status r)%Z then on_error_status r attempt k next
  else
    let start := PResponseStart model (_response_header_value r (oc_response_provider_header cfg)) in
    let '(events, fin, p, k') := read_lines sig (rs_lines r) (rs_broken r) (parser_new : P) k in
    yielding (start :: events)
      (match fin with
       | RCancelled => Generated [] 0 (Ok ())
       | RRaised e => Generated [] 0 (Raise e)
       | RBroken e => network_error (emitted_content p) e attempt k' next
       | RComplete => finish r p
       end).

(** The loop [while True]. *)
Fixpoint attempts (fuel attempt k : nat) : generated :=
  match fuel with
  | O => out_of_fuel
  | S f =>
      requesting
        (match post attempt with
         | Refused e => network_error false e attempt k (attempts f)
         | Responded r => on_response r attempt k (attempts f)
         end)
  end.
(** Fuel that is enough, by [_should_retry] (theorem [attempts_fuel]). *)
Definition max_attempts : nat := S (Z.to_nat (oc_max_retries cfg)).
End Stream.

(** ** The provider *)

Section Provider.
Variables (cfg : openai_config) (now : Z) (sig : signal).
Variable post : http_request → nat → exchange.

Definition _stream_fuel (fuel : nat) (P : Type) `{StreamParser P} (model url : string)
    (payload : dict value) (session_id affinity_format : option string) (has_images : bool) : generated :=
  match build_request cfg url payload session_id affinity_format has_images with
  | Raise e => Generated [] 0 (Raise e)
  | Ok rq => attempts P cfg now model sig (post rq) fuel 0 0
  end.
Definition _stream (P : Type) `{StreamParser P} (model url : string) (payload : dict value)
    (session_id affinity_format : option string) (has_images : bool) : generated :=
  _stream_fuel (max_attempts cfg) P model url payload session_id affinity_format has_images.

Definition aliased (model : string) : string := default model (dget model (oc_model_aliases cfg)).

Definition _stream_chat_completions (model system : string) (ms : list agent_message)
    (tools : list agent_tool) (session_id : option string) : res generated :=
  let affinity_id := openai_prompt_cache_key session_id in
  cache_key ← _prompt_cache_key cfg affinity_id;
  affinity_format ← _session_affinity_format cfg false;
  Ok (_stream chat_parser model (rstrip_char "/" (oc_base_url cfg) +:+ "/chat/completions")
        (_build_chat_payload (aliased model) system ms tools (oc_reasoning_effort cfg)
           (oc_reasoning_effort_parameter cfg) (oc_thinking_format cfg) (oc_compat cfg)
           (oc_max_tokens cfg) (oc_include_reasoning_effort_none cfg) (oc_supports_images cfg) cache_key)
        affinity_id affinity_format (oc_supports_images cfg && messages_have_images ms)).

Definition _stream_responses (model system : string) (ms : list agent_message)
    (tools : list agent_tool) (session_id : option string) : res generated :=
  let affinity_id := openai_prompt_cache_key session_id in
  cache_key ← _prompt_cache_key cfg affinity_id;
  affinity_format ← _session_affinity_format cfg true;
  Ok (_stream responses_parser model (rstrip_char "/" (oc_base_url cfg) +:+ "/responses")
        (_build_responses_payload (aliased model) system ms tools (oc_reasoning_effort cfg)
           (oc_max_tokens cfg) (oc_supports_images cfg) cache_key)
        affinity_id affinity_format (oc_supports_images cfg && messages_have_images ms)).

Definition _stream_provider_events (model system : string) (ms : list agent_message)
    (tools : list agent_tool) (session_id : option string) : res generated :=
  if bool_decide (oc_api cfg = "openai-responses")
     || (oc_infer_api_from_model cfg && _use_responses_api model)
  then _stream_responses model system ms tools session_id
  else _stream_chat_completions model system ms tools session_id.
End Provider.

Definition openai_stream_response (cfg : openai_config) (now : Z) (sig : signal)
    (post : http_request → nat → exchange) (model system : string) (ms : list agent_message)
    (tools : list agent_tool) (session_id : option string) : list assistant_event * res () :=
  match _stream_provider_events cfg now sig post model system ms tools session_id with
  | Raise e => ([], Raise e)
  | Ok g => canonical_over now (oc_api cfg) (oc_provider_name cfg) model g
  end.

(** ** The shape of a call's events *)

Section Shape.
Context (P : Type) `{PL : ParserLaws P}.
Variables (cfg : openai_config) (now : Z) (model : string) (sig : signal) (post : nat → exchange).

(** What reading the lines of a response leads to. *)
Lemma read_lines_shape lines broken p k :
  parser_ok p → fatal p = false →
  let '(evs, fin, p', _) := read_lines sig lines broken p k in
  parser_ok p' ∧
  ((fatal p' = false ∧ forallb is_fragment evs = true ∧
    (emitted_content p = true → emitted_content p' = true) ∧
    (evs ≠ [] → emitted_content p' = true) ∧
    seen_text p' = seen_text p +:+ str_concat (map text_of evs) ∧
    seen_thinking p' = seen_thinking p +:+ str_concat (map thinking_of evs)) ∨
   (fatal p' = true ∧ fin = RComplete ∧ ∃ frs m d rp,
      evs = (frs ++ [PError m d rp])%list ∧ forallb is_fragment frs = true)).
Proof.
  revert p k. induction lines as [|line lines IH]; intros p k Hok Hf; simpl.
  { split; [done|]. left. simpl. by rewrite !str_app_nil_r. }
  destruct (is_cancelled sig k) as [[] k1].
  { split; [done|]. left. simpl. by rewrite !str_app_nil_r. }
  destruct (_parse_sse_line line) as [ev|]; [|by apply IH].
  destruct (feed p ev) as [[[evs stop] p1]|e] eqn:Efeed; simpl.
  2:{ split; [done|]. left. simpl. by rewrite !str_app_nil_r. }
  destruct (feed_ok _ _ _ _ _ Efeed Hok Hf) as (Hok1 & Hem & [(Hf1 & -> & m & d & rp & ->)|
    (Hf1 & Hfr & Hne & Ht & Hth)]).
  { split; [done|]. right. split; [done|]. split; [done|]. by exists [], m, d, rp. }
  destruct stop; [split; [done|]; left; by split_and!|].
  specialize (IH p1 k1 Hok1 Hf1). destruct (read_lines sig lines broken p1 k1) as [[[evs' fin] p2] k2].
  destruct IH as (Hok2 & [(Hf2 & Hfr2 & Hem2 & Hne2 & Ht2 & Hth2)|(Hf2 & -> & frs & m & d & rp & -> & Hfr2)]).
  - split; [done|]. left. rewrite Hf2, forallb_app, Hfr, Hfr2, Ht2, Hth2, Ht, Hth, !map_app,
      !str_concat_app, !str_app_assoc.
    split_and!; auto. intros Hne'. destruct evs; [auto|]. apply Hem2, Hne. done.
  - split; [done|]. right. split; [done|]. split; [done|]. exists (evs ++ frs)%list, m, d, rp.
    rewrite app_assoc, forallb_app, Hfr, Hfr2. done.
Qed.

Lemma should_retry_lt attempt c :
  _should_retry cfg attempt c = true → (Z.of_nat attempt < oc_max_retries cfg)%Z.
Proof using. unfold _should_retry. destruct (Z.leb_spec (oc_max_retries cfg) (Z.of_nat attempt)); [done|lia]. Qed.

Section Attempt.
Variables (attempt : nat) (next : nat → nat → generated).
Hypothesis Hattempt : attempt ≤ Z.to_nat (oc_max_retries cfg).
Hypothesis Hnext : (Z.of_nat attempt < oc_max_retries cfg)%Z →
  ∀ k, shaped (oc_max_retries cfg) (next (S attempt) k) (S attempt).

Lemma network_error_shape start frs emitted e k :
  forallb is_start start = true → forallb is_fragment frs = true → (frs ≠ [] → emitted = true) →
  shaped (oc_max_retries cfg)
    (requesting (yielding (start ++ frs)%list (network_error cfg sig emitted e attempt k next))) attempt.
Proof.
  intros Hs Hf Hem. apply http_error_shape; [done..|].
  intros [Hneg Hr]%andb_true_iff. apply negb_true_iff in Hneg as ->. split; [|by eapply should_retry_lt].
  destruct frs; [done|by discriminate Hem].
Qed.

Lemma append_diagnostic_end exc calls m fr :
  ∃ m', append_diagnostic now exc (map PToolCall calls ++ [PResponseEnd m fr])%list =
          (map PToolCall calls ++ [PResponseEnd m' fr])%list ∧
        assistant_text m' = assistant_text m ∧ thinking_text m' = thinking_text m ∧
        tool_calls m' = tool_calls m.
Proof.
  induction calls as [|c calls (m' & IH & ?)]; simpl.
  - eexists. split; [done|]. done.
  - exists m'. by rewrite IH.
Qed.

Lemma finish_ending r p frs :
  parser_ok p → fatal p = false →
  seen_text p = str_concat (map text_of frs) → seen_thinking p = str_concat (map thinking_of frs) →
  ∃ fin out, finish P cfg now r p = Generated fin 0 out ∧ ending frs fin.
Proof.
  intros Hok Hf Ht Hth. unfold finish. rewrite Hf.
  destruct (finalize now p) as [evs|e] eqn:E; [|by repeat econstructor].
  destruct (finalize_ok _ _ _ E Hok) as (calls & m & fr & -> & H1 & H2 & H3).
  assert (ending frs (map PToolCall calls ++ [PResponseEnd m fr])%list) as Hend.
  { apply end_message; congruence. }
  destruct (oc_response_headers_observer cfg) as [obs|]; [|by eauto].
  destruct (obs (rs_headers r)) as [|exc]; [by eauto|].
  destruct (append_diagnostic_end exc calls m fr) as (m' & -> & H1' & H2' & H3').
  do 2 eexists. split; [done|]. apply end_message; congruence.
Qed.

Lemma error_status_shape r k :
  shaped (oc_max_retries cfg) (requesting (on_error_status cfg model sig r attempt k next)) attempt.
Proof.
  unfold on_error_status. destruct (rs_body r) as [body|e].
  - destruct (_should_retry cfg attempt (Some (rs_status r))) eqn:E.
    + apply should_retry_lt in E.
      exact (retrying_shape _ _ sig attempt next Hattempt Hnext [] ("HTTP " +:+ pretty (rs_status r)) _ k eq_refl E).
    + apply (last_shape _ attempt Hattempt [] []); [done..|constructor].
  - by apply (network_error_shape [] [] false).
Qed.

Lemma response_shape r k :
  shaped (oc_max_retries cfg) (requesting (on_response P cfg now model sig r attempt k next)) attempt.
Proof.
  unfold on_response. destruct (400 <=? rs_status r)%Z; [apply error_status_shape|].
  destruct new_ok as (Hok & Hf & _ & Ht0 & Hth0).
  pose proof (read_lines_shape (rs_lines r) (rs_broken r) parser_new k Hok Hf) as Hread.
  destruct (read_lines _ _ _ _ _) as [[[evs fin] p] k'].
  match goal with |- context [?st :: evs] => change (st :: evs) with ([st] ++ evs)%list end.
  destruct Hread as (Hok' & [(Hf' & Hfr & _ & Hne & Ht & Hth)|(Hf' & -> & frs & m & d & rp & -> & Hfr)]).
  - rewrite Ht0 in Ht. rewrite Hth0 in Hth. destruct fin as [| |e|e].
    + by apply last_shape; [..|constructor].
    + destruct (finish_ending r p evs Hok' Hf' Ht Hth) as (fin & out & -> & He). by apply last_shape.
    + by apply network_error_shape.
    + by apply last_shape; [..|constructor].
  - unfold finish. rewrite Hf'.
    pose proof (last_shape _ attempt Hattempt [PResponseStart model (_response_header_value r (oc_response_provider_header cfg))]
                  frs [PError m d rp] (Ok ()) eq_refl Hfr (end_error _ _ _ _)) as [Hc Hb].
    split; [|exact Hb]. simpl in *. by rewrite app_nil_r.
Qed.
End Attempt.

Lemma attempts_shape fuel attempt k :
  attempt ≤ Z.to_nat (oc_max_retries cfg) → max_attempts cfg ≤ fuel + attempt →
  shaped (oc_max_retries cfg) (attempts P cfg now model sig post fuel attempt k) attempt.
Proof.
  revert attempt k. induction fuel as [|f IH]; intros attempt k Ha Hf;
    [unfold max_attempts in *; lia|]. simpl.
  assert ((Z.of_nat attempt < oc_max_retries cfg)%Z → ∀ k,
            shaped (oc_max_retries cfg) (attempts P cfg now model sig post f (S attempt) k) (S attempt)) as Hnext.
  { intros Hlt k'. apply IH; unfold max_attempts in *; lia. }
  destruct (post attempt) as [e|r].
  - by apply (network_error_shape attempt _ Ha Hnext [] [] false).
  - by apply response_shape.
Qed.

(** A further attempt is made only below [max_retries], so that fuel for them all is enough:
    with more of it the loop does the same. *)
Lemma error_status_next r attempt k next next' :
  ((Z.of_nat attempt < oc_max_retries cfg)%Z → ∀ k, next (S attempt) k = next' (S attempt) k) →
  on_error_status cfg model sig r attempt k next = on_error_status cfg model sig r attempt k next'.
Proof using.
  intros Hn. unfold on_error_status. destruct (rs_body r) as [body|e].
  - destruct (_should_retry cfg attempt _) eqn:E; [|done].
    apply should_retry_lt in E. by apply retrying_next, Hn.
  - apply on_http_error_next. intros [_ E%should_retry_lt]%andb_true_iff. by apply Hn.
Qed.
Lemma response_next r attempt k next next' :
  ((Z.of_nat attempt < oc_max_retries cfg)%Z → ∀ k, next (S attempt) k = next' (S attempt) k) →
  on_response P cfg now model sig r attempt k next = on_response P cfg now model sig r attempt k next'.
Proof using.
  intros Hn. unfold on_response. destruct (400 <=? rs_status r)%Z; [by apply error_status_next|].
  destruct (read_lines _ _ _ _ _) as [[[evs fin] p] k']. f_equal. destruct fin; try done.
  apply on_http_error_next. intros [_ E%should_retry_lt]%andb_true_iff. by apply Hn.
Qed.
Lemma attempts_fuel fuel fuel' attempt k :
  max_attempts cfg ≤ fuel + attempt → max_attempts cfg ≤ fuel' + attempt →
  attempt ≤ Z.to_nat (oc_max_retries cfg) →
  attempts P cfg now model sig post fuel attempt k = attempts P cfg now model sig post fuel' attempt k.
Proof using.
  revert fuel' attempt k. induction fuel as [|f IH]; intros [|f'] attempt k Hf Hf' Ha;
    [done|unfold max_attempts in *; lia..|]. simpl. f_equal.
  assert ((Z.of_nat attempt < oc_max_retries cfg)%Z → ∀ k,
            attempts P cfg now model sig post f (S attempt) k =
            attempts P cfg now model sig post f' (S attempt) k) as Hn by (intros; apply IH; lia).
  destruct (post attempt) as [e|r]; [|by apply response_next].
  apply on_http_error_next. intros [_ E%should_retry_lt]%andb_true_iff. by apply Hn.
Qed.
End Shape.

(** ** Theorems *)

Lemma stream_fuel_shape fuel P `{ParserLaws P} cfg now sig post model url payload sid fmt im :
  max_attempts cfg ≤ fuel →
  let g := _stream_fuel cfg now sig post fuel P model url payload sid fmt im in
  (g_events g = [] ∧ g_requests g = 0 ∧ ∃ e, g_outcome g = Raise e) ∨
  (call_shape (g_events g) (g_requests g) ∧ g_requests g ≤ max_attempts cfg).
Proof.
  intros Hfuel. unfold _stream_fuel. destruct (build_request _ _ _ _ _ _) as [rq|e]; [right|left; eauto].
  destruct (attempts_shape P cfg now model sig (post rq) fuel 0 0) as [Hc Hb];
    [lia|lia|]. split; [done|]. unfold max_attempts in *. lia.
Qed.
Lemma stream_shape P `{ParserLaws P} cfg now sig post model url payload sid fmt im :
  let g := _stream cfg now sig post P model url payload sid fmt im in
  (g_events g = [] ∧ g_requests g = 0 ∧ ∃ e, g_outcome g = Raise e) ∨
  (call_shape (g_events g) (g_requests g) ∧ g_requests g ≤ max_attempts cfg).
Proof. by apply stream_fuel_shape. Qed.


(** C16: a call to an OpenAI-compatible provider makes at most one request more than the
    configured retries, whatever the servers do and for however long its loop may run: with
    any larger number of rounds it does the same and makes no further request; every request
    but the last is announced by a retry event; and once model output was passed on no retry
    follows, so that no output is ever repeated. *)
Theorem provider_requests_bounded P `{ParserLaws P} cfg now sig post model url payload sid fmt im fuel :
  max_attempts cfg ≤ fuel →
  let g := _stream_fuel cfg now sig post fuel P model url payload sid fmt im in
  g = _stream cfg now sig post P model url payload sid fmt im ∧
  (Z.of_nat (g_requests g) <= Z.max 0 (oc_max_retries cfg) + 1)%Z ∧
  g_requests g ≤ S (count_retries (g_events g)) ∧
  output_final (g_events g) = true.
Proof.
  intros Hf. pose proof (stream_fuel_shape fuel P cfg now sig post model url payload sid fmt im Hf) as Hshape.
  cbv zeta in *. split.
  { unfold _stream, _stream_fuel. destruct (build_request _ _ _ _ _ _); [|done]. apply attempts_fuel; lia. }
  destruct Hshape as [(E1 & E2 & _)|[Hc Hb]].
  - rewrite E1, E2. simpl. split_and!; [lia|lia|done].
  - split_and!; [unfold max_attempts in Hb; lia|by apply call_shape_count|by eapply call_shape_output].
Qed.

(** C17: the message a provider call ends with holds exactly what the call streamed: its text
    and thinking are the concatenations of the fragments passed on and its tool calls the
    calls passed on, over all attempts of the call. *)
Theorem provider_message_complete P `{ParserLaws P} cfg now sig post model url payload sid fmt im body m fr :
  g_events (_stream cfg now sig post P model url payload sid fmt im) =
    (body ++ [PResponseEnd m fr])%list →
  assistant_text m = str_concat (map text_of body) ∧
  thinking_text m = str_concat (map thinking_of body) ∧
  tool_calls m = flat_map calls_of body.
Proof.
  intros E. destruct (stream_shape P cfg now sig post model url payload sid fmt im)
    as [(E1 & _)|[Hc _]]; rewrite E in *; [by destruct body|].
  by eapply call_shape_message.
Qed.

Lemma provider_stream_run cfg now sig post model system ms tools sid :
  let r := openai_stream_response cfg now sig post model system ms tools sid in
  r.2 = Ok () → event_run Fresh r.1 Finished.
Proof.
  unfold openai_stream_response.
  assert (∀ P `{ParserLaws P} m u p s f i, no_terminal (removelast
    (g_events (_stream cfg now sig post P m u p s f i))) = true) as Hterm.
  { intros. destruct (stream_shape P cfg now sig post m u p s f i) as [(-> & _)|[Hc _]]; [done|].
    by eapply call_shape_terminal. }
  unfold _stream_provider_events, _stream_responses, _stream_chat_completions.
  destruct (_ || _);
    (destruct (_prompt_cache_key cfg _) as [ck|]; simpl; [|done];
     destruct (_session_affinity_format cfg _) as [fmt|]; simpl; [|done];
     apply canonical_over_ok; first [apply (Hterm responses_parser _ _)|apply (Hterm chat_parser _ _)]).
Qed.

(** C14: what a caller of an OpenAI-compatible provider sees, on either API, whatever the
    servers answer and whenever the call is cancelled: unless an exception ends it, the
    stream obeys the consumer's protocol from the start event to one terminal event. *)
Theorem provider_stream_protocol cfg now sig post model system ms tools sid :
  let r := openai_stream_response cfg now sig post model system ms tools sid in
  r.2 = Ok () → event_run Fresh r.1 Finished.
Proof. apply provider_stream_run. Qed.

(** *** A run with a failing first request *)

Definition q : string := char_str 34.
(** [{"choices": [{"delta": {"content": "Hi"}}]}] *)
Definition sample_chunk : string :=
  "data: {" +:+ q +:+ "choices" +:+ q +:+ ": [{" +:+ q +:+ "delta" +:+ q +:+ ": {" +:+ q
    +:+ "content" +:+ q +:+ ": " +:+ q +:+ "Hi" +:+ q +:+ "}}]}".
Definition sample_post (rq : http_request) (n : nat) : exchange :=
  match n with
  | O => Responded (HttpResponse 503 [] (inl []) [] None)
  | _ => Responded (HttpResponse 200 [] (inl []) [sample_chunk; ""; "data: [DONE]"] None)
  end.
Definition sample_cfg : openai_config := openai_defaults "key".
Definition sample_run : generated :=
  _stream sample_cfg 0 None sample_post chat_parser "m" "u" [] None None false.
Definition sample_body : list provider_event :=
  [provider_retry_event 0 2 (1 # 4) "HTTP 503" (Some [("status_code", VInt 503); ("body", VStr "")]);
   PResponseStart "m" None; PTextDelta "Hi"].
Definition sample_message : assistant_message :=
  new_assistant 0 [AText (TextContent "Hi" None)] Usage_default.

Lemma sample_run_events : g_events sample_run = (sample_body ++ [PResponseEnd sample_message None])%list.
Proof. vm_compute. reflexivity. Qed.

Lemma provider_requests_bounded_witness :
  (Z.of_nat (g_requests sample_run) <= 3)%Z ∧ output_final (g_events sample_run) = true.
Proof.
  assert (max_attempts sample_cfg ≤ 100) as Hf by (vm_compute; lia).
  destruct (provider_requests_bounded chat_parser sample_cfg 0 None sample_post "m" "u" [] None None false 100 Hf)
    as (E & H1 & _ & H3). rewrite E in H1, H3. split; [exact H1|exact H3].
Defined.

Lemma provider_message_complete_witness :
  assistant_text sample_message = str_concat (map text_of sample_body).
Proof.
  exact (proj1 (provider_message_complete chat_parser sample_cfg 0 None sample_post "m" "u" [] None None
                  false sample_body sample_message None sample_run_events)).
Defined.

Lemma sample_response_ok :
  (openai_stream_response sample_cfg 0 None sample_post "m" "s" [] [] None).2 = Ok ().
Proof. vm_compute. reflexivity. Qed.

Lemma provider_stream_protocol_witness :
  event_run Fresh (openai_stream_response sample_cfg 0 None sample_post "m" "s" [] [] None).1 Finished.
Proof.
  exact (provider_stream_protocol sample_cfg 0 None sample_post "m" "s" [] [] None sample_response_ok).
Defined.

