(* ===== verification/LlmAnthropic.v ===== *)
(** * Anthropic requests (adapters/anthropic.py)

    The transcript in the shape of the Messages API, the request payload, and the prompt-cache
    breakpoints it carries: the API accepts four at most. *)

From stdpp Require Import base gmap strings list pretty.
From Stdlib Require Import ZArith QArith Ascii.
From S2P Require Import Prelude PyValue Json Sha256 LlmTypes LlmStream LlmRuntime.

Local Open Scope string_scope.
Local Open Scope nat_scope.

Definition ANTHROPIC_VERSION : string := "2023-06-01".
Definition DEFAULT_MAX_TOKENS : Z := 4096.
Definition CACHE_TTL_LONG : string := "1h".
Definition MAX_CACHE_BREAKPOINTS : nat := 4.
Definition SYSTEM_CACHE_BREAKPOINTS : nat := 1.
Definition TOOLS_CACHE_BREAKPOINTS : nat := 1.
Definition MESSAGE_CACHE_BREAKPOINTS : nat :=
  MAX_CACHE_BREAKPOINTS - SYSTEM_CACHE_BREAKPOINTS - TOOLS_CACHE_BREAKPOINTS.
Definition CACHEABLE_BLOCK_TYPES : list string := ["text"; "image"; "tool_result"].

(** ** Messages *)

Definition _anthropic_image (i : image_content) : value :=
  VDict [("type", VStr "image");
         ("source", VDict [("type", VStr "base64"); ("media_type", VStr (im_mime_type i));
                           ("data", VStr (im_data i))])].
Definition text_block (text : string) : value := VDict [("type", VStr "text"); ("text", VStr text)].

(** Text, if any, then the images. *)
Definition content_blocks (text : string) (images : list image_content) : list value :=
  ((if nonempty text then [text_block text] else []) ++ map _anthropic_image images)%list.

Definition anthropic_user (c : user_content) (supports_images : bool) : dict value :=
  let '(text, images) := text_and_images c supports_images NON_VISION_USER_IMAGE_PLACEHOLDER in
  match images with
  | [] => [("role", VStr "user"); ("content", VStr text)]
  | _ => [("role", VStr "user"); ("content", VList (content_blocks text images))]
  end.

(** A block of an assistant message; thinking is replayed to the API that signed it. *)
Definition anthropic_block (api : string) (b : assistant_block) : list value :=
  match b with
  | AText t => [text_block (tc_text t)]
  | AThinking t =>
      if bool_decide (api = "anthropic-messages") then
        let thinking : dict value := [("type", VStr "thinking"); ("thinking", VStr (th_thinking t))] in
        [VDict (match th_signature t with
                | Some s => dset "signature" (VStr s) thinking
                | None => thinking
                end)]
      else []
  | ATool c => [VDict [("type", VStr "tool_use"); ("id", VStr (portable_tool_call_id (tcl_id c)));
                       ("name", VStr (tcl_name c)); ("input", VDict (tcl_arguments c))]]
  end.

Definition anthropic_tool_result (r : tool_result_message) (supports_images : bool) : dict value :=
  let '(text, images) :=
    text_and_images (UBlocks (tr_content r)) supports_images NON_VISION_TOOL_IMAGE_PLACEHOLDER in
  [("role", VStr "user");
   ("content", VList [VDict [("type", VStr "tool_result");
                             ("tool_use_id", VStr (portable_tool_call_id (tr_tool_call_id r)));
                             ("content", VList (content_blocks text images));
                             ("is_error", VBool (tr_is_error r))]])].

Definition _anthropic_message (m : agent_message) (supports_images : bool) : dict value :=
  match m with
  | MUser u => anthropic_user (um_content u) supports_images
  | MAssistant a =>
      [("role", VStr "assistant"); ("content", VList (flat_map (anthropic_block (am_api a)) (am_content a)))]
  | MToolResult r => anthropic_tool_result r supports_images
  | _ => anthropic_user (um_content (message_to_user m)) supports_images
  end.

Definition has_role (role : string) (m : dict value) : bool := veq_str (opt_or_none (dget "role" m)) role.

(** An assistant turn whose content was dropped is left out. *)
Definition inert (m : dict value) : bool :=
  has_role "assistant" m && negb (truthy (opt_or_none (dget "content" m))).
Definition payload_messages (ms : list agent_message) (supports_images : bool) : list (dict value) :=
  List.filter (λ m, negb (inert m)) (map (λ m, _anthropic_message m supports_images) ms).

(** ** Cache breakpoints *)

Definition _cache_control (cache_retention : string) : option (dict value) :=
  if bool_decide (cache_retention = "none") then None
  else if bool_decide (cache_retention = "long")
  then Some [("type", VStr "ephemeral"); ("ttl", VStr CACHE_TTL_LONG)]
  else Some [("type", VStr "ephemeral")].

(** [blocks[-1]["cache_control"] = dict(cache_control)] *)
Definition mark_block (cc : dict value) (b : value) : value := vset "cache_control" (VDict cc) b.
Fixpoint mark_last (cc : dict value) (l : list value) : list value :=
  match l with
  | [] => []
  | [b] => [mark_block cc b]
  | b :: l' => b :: mark_last cc l'
  end.

Definition _anthropic_system (system : string) (oauth_system_prompt : option string)
    (cache_control : option (dict value)) : value :=
  let oauth := match oauth_system_prompt with
               | Some s => if nonempty s then [text_block s] else []
               | None => []
               end in
  match cache_control with
  | None => match oauth with [] => VStr system | _ => VList (oauth ++ [text_block system])%list end
  | Some cc =>
      let blocks := (oauth ++ (if nonempty system then [text_block system] else []))%list in
      match blocks with [] => VStr system | _ => VList (mark_last cc blocks) end
  end.

(** The last index with a property. *)
Fixpoint find_last {A} (f : A → bool) (l : list A) : option nat :=
  match l with
  | [] => None
  | x :: l' => match find_last f l' with
               | Some i => Some (S i)
               | None => if f x then Some 0 else None
               end
  end.

Definition _previous_request_boundary (messages : list (dict value)) : option nat :=
  match find_last (has_role "assistant") messages with
  | None => None
  | Some last_assistant => find_last (has_role "user") (take last_assistant messages)
  end.

(** A final block that may carry a breakpoint. *)
Definition markable (b : value) : bool :=
  match b with
  | VDict d =>
      match dget "type" d with
      | Some (VStr t) =>
          bool_decide (t ∈ CACHEABLE_BLOCK_TYPES) &&
          negb (bool_decide (t = "tool_result") &&
                match dget "content" d with Some (VList []) => true | _ => false end)
      | _ => false
      end
  | _ => false
  end.
Definition _mark_cache_breakpoint (cc : dict value) (message : dict value) : dict value :=
  if has_role "user" message then
    match dget "content" message with
    | Some (VStr content) =>
        if nonempty content
        then dset "content" (VList [VDict [("type", VStr "text"); ("text", VStr content);
                                           ("cache_control", VDict cc)]]) message
        else message
    | Some (VList content) =>
        match last content with
        | Some b => if markable b then dset "content" (VList (mark_last cc content)) message else message
        | None => message
        end
    | _ => message
    end
  else message.

(** The positions to mark: the tail of this request and that of the previous one. *)
Definition breakpoint_indexes (messages : list (dict value)) : list nat :=
  let tail := length messages - 1 in
  match _previous_request_boundary messages with
  | Some boundary => if decide (boundary = tail) then [tail] else [tail; boundary]
  | None => [tail]
  end.
Definition _apply_message_cache_breakpoints (cache_control : option (dict value))
    (messages : list (dict value)) : res (list (dict value)) :=
  match cache_control, messages with
  | None, _ | _, [] => Ok messages
  | Some cc, _ =>
      let indexes := breakpoint_indexes messages in
      if MESSAGE_CACHE_BREAKPOINTS <? length indexes
      then Raise (Exn AssertionError "message cache breakpoints exceed the Anthropic budget")
      else Ok (fold_left (λ ms i, alter (_mark_cache_breakpoint cc) i ms) indexes messages)
  end.

(** ** Payload *)

Definition _anthropic_tool (t : agent_tool) (cache_control : option (dict value)) : dict value :=
  let payload : dict value :=
    [("name", VStr (at_name t)); ("description", VStr (at_description t));
     ("input_schema", VDict (at_parameters t))] in
  match cache_control with
  | Some cc => dset "cache_control" (VDict cc) payload
  | None => payload
  end.
Definition tools_payload (tools : list agent_tool) (cc : option (dict value)) : list value :=
  imap (λ i t, VDict (_anthropic_tool t (if decide (i = length tools - 1) then cc else None))) tools.

Definition resolved_max_tokens (max_tokens thinking_budget_tokens : option Z) : Z :=
  let r := match max_tokens with
           | Some n => if (n =? 0)%Z then DEFAULT_MAX_TOKENS else n
           | None => DEFAULT_MAX_TOKENS
           end in
  match thinking_budget_tokens with Some b => Z.max r (b + 1024) | None => r end.

Definition apply_thinking (thinking_mode : string) (thinking_effort : option string)
    (thinking_budget_tokens : option Z) (payload : dict value) : dict value :=
  if bool_decide (thinking_mode = "disabled")
  then dset "thinking" (VDict [("type", VStr "disabled")]) payload
  else match (if bool_decide (thinking_mode = "adaptive") then thinking_effort else None) with
       | Some effort =>
           dset "output_config" (VDict [("effort", VStr effort)])
             (dset "thinking" (VDict [("type", VStr "adaptive"); ("display", VStr "summarized")]) payload)
       | None =>
           match thinking_budget_tokens with
           | Some b => dset "thinking" (VDict [("type", VStr "enabled"); ("budget_tokens", VInt b)]) payload
           | None => payload
           end
       end.

Definition _build_messages_payload (model system : string) (ms : list agent_message)
    (oauth_system_prompt : option string) (tools : list agent_tool)
    (max_tokens thinking_budget_tokens : option Z) (thinking_effort : option string)
    (thinking_mode : string) (supports_images : bool) (cache_retention : string)
    (cache_control_on_tools : bool) : res (dict value) :=
  let cache_control := _cache_control cache_retention in
  messages ← _apply_message_cache_breakpoints cache_control (payload_messages ms supports_images);
  let payload : dict value :=
    [("model", VStr model);
     ("max_tokens", VInt (resolved_max_tokens max_tokens thinking_budget_tokens));
     ("stream", VBool true);
     ("system", _anthropic_system system oauth_system_prompt cache_control);
     ("messages", VList (map VDict messages))] in
  let payload := apply_thinking thinking_mode thinking_effort thinking_budget_tokens payload in
  Ok (match tools with
      | [] => payload
      | _ => dset "tools" (VList (tools_payload tools
                             (if cache_control_on_tools then cache_control else None))) payload
      end).

(** ** Counting breakpoints *)

Definition marked (b : value) : bool :=
  match b with VDict d => dmem "cache_control" d | _ => false end.
Definition count_marked (l : list value) : nat := length (List.filter marked l).
Definition content_marks (v : option value) : nat :=
  match v with Some (VList l) => count_marked l | _ => 0 end.
Definition message_marks (m : value) : nat :=
  match m with VDict d => content_marks (dget "content" d) | _ => 0 end.
(** The breakpoints of a request: on system blocks, on content blocks of messages, on tools. *)
Definition breakpoints (payload : dict value) : nat :=
  content_marks (dget "system" payload) +
  sum_list_with message_marks (match dget "messages" payload with Some (VList l) => l | _ => [] end) +
  content_marks (dget "tools" payload).

Lemma count_marked_app l l' : count_marked (l ++ l')%list = count_marked l + count_marked l'.
Proof. unfold count_marked. by rewrite List.filter_app, length_app. Qed.

Lemma mark_last_snoc cc l b : mark_last cc (l ++ [b])%list = (l ++ [mark_block cc b])%list.
Proof. induction l as [|x l IH]; simpl; [done|]. rewrite IH. by destruct l. Qed.

Lemma count_mark_last cc l : count_marked l = 0 → count_marked (mark_last cc l) ≤ 1.
Proof.
  destruct (last_view l) as [->|(l' & b & ->)]; [simpl; lia|].
  rewrite mark_last_snoc, !count_marked_app. intros ?. unfold count_marked at 2. simpl. destruct (marked _); simpl; lia.
Qed.

(** Converted messages carry no breakpoint. *)
Lemma count_unmarked l : Forall (λ b, marked b = false) l → count_marked l = 0.
Proof. unfold count_marked. induction 1 as [|b l Hb _ IH]; simpl; [done|]. by rewrite Hb. Qed.
Lemma content_blocks_unmarked text images : count_marked (content_blocks text images) = 0.
Proof.
  apply count_unmarked. unfold content_blocks. apply Forall_app. split.
  - destruct (nonempty text); by repeat constructor.
  - apply Forall_map, Forall_forall. by intros.
Qed.
Lemma anthropic_user_unmarked c si : message_marks (VDict (anthropic_user c si)) = 0.
Proof.
  unfold anthropic_user. destruct (text_and_images _ _ _) as [t [|i l]]; [done|].
  apply content_blocks_unmarked.
Qed.
Lemma anthropic_message_unmarked m si : message_marks (VDict (_anthropic_message m si)) = 0.
Proof.
  destruct m; try apply anthropic_user_unmarked.
  - apply count_unmarked, Forall_flat_map, Forall_forall. intros [t|t|c] _; repeat constructor.
    simpl. case_bool_decide; repeat constructor. by destruct (th_signature t).
  - simpl. unfold anthropic_tool_result. by destruct (text_and_images _ _ _).
Qed.

(** Marking a message adds one breakpoint at most. *)
Lemma mark_message_marks cc m :
  message_marks (VDict m) = 0 → message_marks (VDict (_mark_cache_breakpoint cc m)) ≤ 1.
Proof.
  intros Hm. unfold _mark_cache_breakpoint. destruct (has_role "user" m); [|lia].
  destruct (dget "content" m) as [[| | | |s|l|]|] eqn:E; simpl in Hm; try (simpl; rewrite E in *; simpl; lia).
  - destruct (nonempty s); simpl; rewrite ?dget_dset_eq, ?E; simpl; [done|lia].
  - rewrite E in Hm. simpl in Hm. destruct (last l) as [b|]; [|simpl; rewrite E; simpl; lia].
    destruct (markable b); simpl; rewrite ?dget_dset_eq, ?E; simpl; [by apply count_mark_last|lia].
Qed.

Lemma sum_alter {A} (f : A → A) (n : A → nat) c i l :
  (∀ x, l !! i = Some x → n (f x) ≤ n x + c) →
  sum_list_with n (alter f i l) ≤ sum_list_with n l + c.
Proof.
  revert i. induction l as [|x l IH]; intros [|i] Hf; simpl; [lia..| |].
  - specialize (Hf x eq_refl). lia.
  - specialize (IH i Hf).
    change (n x + sum_list_with n (alter f i l) ≤ n x + sum_list_with n l + c). lia.
Qed.

Lemma indexes_distinct ms : NoDup (breakpoint_indexes ms) ∧ length (breakpoint_indexes ms) ≤ 2.
Proof.
  unfold breakpoint_indexes. destruct (_previous_request_boundary ms) as [b|].
  - case_decide as Hb; simpl; (split; [|lia]); [apply NoDup_singleton|].
    apply NoDup_cons. split; [|apply NoDup_singleton]. rewrite list_elem_of_singleton. congruence.
  - simpl. split; [apply NoDup_singleton|lia].
Qed.

Lemma mark_indexes cc idx ms :
  NoDup idx → (∀ i m, i ∈ idx → ms !! i = Some m → message_marks (VDict m) = 0) →
  sum_list_with (λ m, message_marks (VDict m)) (fold_left (λ ms i, alter (_mark_cache_breakpoint cc) i ms) idx ms)
  ≤ sum_list_with (λ m, message_marks (VDict m)) ms + length idx.
Proof.
  revert ms. induction idx as [|i idx IH]; intros ms Hn Hm; simpl; [lia|].
  apply NoDup_cons in Hn as [Hi Hn]. etrans; [apply IH; [done|]|].
  - intros j m Hj. rewrite list_lookup_alter_ne; [|by intros ->]. apply Hm. by right.
  - assert (∀ a b c, a ≤ b + 1 → a + c ≤ b + S c) as Hadd by lia. apply Hadd, sum_alter.
    intros m E. etrans; [apply mark_message_marks, (Hm i); [left|done]|simpl; lia].
Qed.

Lemma sum_zero {A} (n : A → nat) l : (∀ x, x ∈ l → n x = 0) → sum_list_with n l = 0.
Proof.
  induction l as [|x l IH]; intros Hl; simpl; [done|]. rewrite (Hl x) by left. apply IH.
  intros y Hy. apply Hl. by right.
Qed.

Lemma payload_messages_unmarked ms si m :
  m ∈ payload_messages ms si → message_marks (VDict m) = 0.
Proof.
  intros Hm. unfold payload_messages in Hm. apply list_elem_of_In, filter_In in Hm as [Hm _].
  apply in_map_iff in Hm as (x & <- & _). apply anthropic_message_unmarked.
Qed.

Lemma apply_breakpoints_total cc ms : ∃ ms', _apply_message_cache_breakpoints cc ms = Ok ms'.
Proof.
  unfold _apply_message_cache_breakpoints. destruct cc as [cc|]; [|by eauto]. destruct ms as [|d ms]; [by eauto|].
  destruct (indexes_distinct (d :: ms)) as [_ Hl]. destruct (Nat.ltb_spec MESSAGE_CACHE_BREAKPOINTS
    (length (breakpoint_indexes (d :: ms)))) as [H|H]; [|by eauto].
  change MESSAGE_CACHE_BREAKPOINTS with 2 in H. lia.
Qed.

(** The messages get two at most, and none without a retention preference. *)
Lemma messages_breakpoints cc ms si ms' :
  _apply_message_cache_breakpoints cc (payload_messages ms si) = Ok ms' →
  sum_list_with (λ m, message_marks (VDict m)) ms' ≤ match cc with Some _ => 2 | None => 0 end.
Proof.
  assert (sum_list_with (λ m, message_marks (VDict m)) (payload_messages ms si) = 0) as Hz.
  { apply sum_zero. intros m. apply payload_messages_unmarked. }
  unfold _apply_message_cache_breakpoints. destruct cc as [cc|]; [|intros [= <-]; lia].
  destruct (payload_messages ms si) as [|m0 l] eqn:El; [intros [= <-]; simpl; lia|].
  rewrite <-El in *. destruct (_ <? _); [done|]. intros [= <-].
  destruct (indexes_distinct (payload_messages ms si)) as [Hn Hl].
  etrans; [apply mark_indexes; [done|]|rewrite Hz; lia].
  intros i m _ Hi. eapply payload_messages_unmarked, list_elem_of_lookup_2, Hi.
Qed.

Lemma system_breakpoints system oauth cc :
  content_marks (Some (_anthropic_system system oauth cc)) ≤ match cc with Some _ => 1 | None => 0 end.
Proof.
  unfold _anthropic_system.
  set (o := match oauth with Some s => _ | None => _ end).
  assert (Forall (λ b, marked b = false) o) as Ho.
  { unfold o. destruct oauth as [s|]; [destruct (nonempty s)|]; by repeat constructor. }
  destruct cc as [cc|].
  - set (bs := (o ++ _)%list). assert (count_marked bs = 0) as Hbs.
    { apply count_unmarked, Forall_app. split; [done|]. destruct (nonempty system); by repeat constructor. }
    destruct bs eqn:E; [simpl; lia|]. rewrite <-E in *. by apply count_mark_last.
  - destruct o eqn:E; [simpl; lia|]. rewrite <-E in *. simpl. rewrite count_unmarked; [lia|].
    apply Forall_app. split; [done|]. by repeat constructor.
Qed.

Lemma tools_breakpoints tools cc :
  count_marked (tools_payload tools cc) ≤ match cc with Some _ => 1 | None => 0 end.
Proof.
  unfold tools_payload. destruct (last_view tools) as [->|(l & t & ->)].
  { unfold count_marked. simpl. lia. }
  rewrite length_app, Nat.add_sub, imap_app, count_marked_app. simpl.
  rewrite (count_unmarked (imap _ l)).
  - rewrite Nat.add_0_r, decide_True by done. unfold count_marked. simpl.
    destruct cc; simpl; unfold _anthropic_tool; simpl; lia.
  - apply Forall_lookup. intros i b. rewrite list_lookup_imap. intros (t' & Ht & ->)%fmap_Some.
    apply lookup_lt_Some in Ht. rewrite decide_False by lia. done.
Qed.

Lemma apply_thinking_other mode effort budget p k :
  k ≠ "thinking" → k ≠ "output_config" → dget k (apply_thinking mode effort budget p) = dget k p.
Proof.
  intros H1 H2. unfold apply_thinking. case_bool_decide; [by rewrite dget_dset_ne|].
  destruct (if bool_decide _ then _ else _); [by rewrite !dget_dset_ne|].
  destruct budget; [by rewrite dget_dset_ne|done].
Qed.

Lemma sum_map {A B} (g : A → B) (f : B → nat) l : sum_list_with f (map g l) = sum_list_with (λ x, f (g x)) l.
Proof. induction l as [|x l IH]; simpl; [done|]. by rewrite IH. Qed.

(** C18: a request to Anthropic is always built, and carries at most the four cache breakpoints
    the API accepts, whatever the transcript, the tools and the configuration; with retention
    "none" it carries none; and its token limit leaves room for a thinking budget. *)
Theorem anthropic_breakpoints_bounded model system ms oauth tools max_tokens budget effort mode si retention on_tools :
  ∃ payload,
    _build_messages_payload model system ms oauth tools max_tokens budget effort mode si retention on_tools
      = Ok payload ∧
    breakpoints payload ≤ (if decide (retention = "none") then 0 else MAX_CACHE_BREAKPOINTS) ∧
    (∃ n, dget "max_tokens" payload = Some (VInt n) ∧ ∀ b, budget = Some b → (b < n)%Z).
Proof.
  unfold _build_messages_payload. set (cc := _cache_control retention).
  destruct (apply_breakpoints_total cc (payload_messages ms si)) as [ms' Hms]. rewrite Hms. simpl.
  set (p0 := apply_thinking _ _ _ _). eexists. split; [done|].
  assert (∀ k, k ≠ "tools" → dget k (match tools with [] => p0 | _ =>
    dset "tools" (VList (tools_payload tools (if on_tools then cc else None))) p0 end) = dget k p0) as Hk.
  { intros k Hk. destruct tools; [done|]. by rewrite dget_dset_ne. }
  assert (content_marks (dget "tools" (match tools with [] => p0 | _ =>
    dset "tools" (VList (tools_payload tools (if on_tools then cc else None))) p0 end))
    ≤ match cc with Some _ => 1 | None => 0 end) as Ht.
  { destruct tools as [|t tools]; [unfold p0; rewrite apply_thinking_other by done; simpl; lia|].
    rewrite dget_dset_eq. etrans; [apply tools_breakpoints|]. destruct on_tools, cc; lia. }
  split.
  - unfold breakpoints. rewrite !Hk by done. unfold p0 at 1 2. rewrite !apply_thinking_other by done. simpl.
    rewrite sum_map. pose proof (messages_breakpoints _ _ _ _ Hms) as Hm.
    pose proof (system_breakpoints system oauth cc) as Hs. unfold content_marks in Hs.
    revert Hs Hm Ht. unfold cc, _cache_control. simpl.
    repeat case_decide; repeat case_bool_decide; try done; unfold MAX_CACHE_BREAKPOINTS; simpl; lia.
  - rewrite Hk by done. unfold p0. rewrite apply_thinking_other by done. simpl. eexists. split; [done|].
    intros b ->. unfold resolved_max_tokens. lia.
Qed.
