(* ===== verification/LlmAnthropicStream.v ===== *)
(** * The Anthropic provider (adapters/anthropic.py)

    [AnthropicProvider]: request URL and headers, the handling of the chunks of a response,
    and the request loop, which also retries when the stream reports a transient error
    before any output. *)

From stdpp Require Import base gmap strings list pretty.
From Stdlib Require Import ZArith QArith Ascii.
From S2P Require Import Prelude PyValue Json Sha256 LlmTypes LlmStream LlmRuntime LlmEnvelope LlmOpenAI LlmParsers LlmProvider LlmAnthropic.

Local Open Scope string_scope.
Local Open Scope nat_scope.

(** ** Helpers *)





(** ** Usage *)




(** ** Chunks *)








Section Call.
Variables (cfg : anthropic_config) (now : Z) (model : string) (sig : signal).










Variable post : nat → exchange.
End Call.

(** ** The provider *)





(** ** The shape of a call's events *)



Section AntShape.
Variables (cfg : anthropic_config) (now : Z) (model : string) (sig : signal) (post : nat → exchange).






Section Attempt.
Variables (attempt : nat) (next : nat → nat → generated).
Hypothesis Hattempt : attempt ≤ Z.to_nat (ac_max_retries cfg).
Hypothesis Hnext : (Z.of_nat attempt < ac_max_retries cfg)%Z →
  ∀ k, shaped (ac_max_retries cfg) (next (S attempt) k) (S attempt).



End Attempt.


End AntShape.


(** *** A run whose first two requests fail and the third is answered *)


