(* ===== verification/LlmDevice.v ===== *)
(** * The LLM device (device/llm/device.py)

    A request event carries a transcript in wire form; the device hands it to a provider,
    consumes the provider's stream to its end and answers with the outcome.  The provider is
    created by a factory on the first request.  Wire content given as a list of blocks is
    checked by the message models' validation library ([parse_blocks]). *)

From stdpp Require Import base gmap strings list pretty.
From Stdlib Require Import ZArith QArith Ascii.
From S2P Require Import Prelude PyValue EventProtocol Json Sha256 LlmTypes LlmStream LlmRuntime LlmEnvelope LlmOpenAI LlmParsers LlmProvider.

Local Open Scope string_scope.
Local Open Scope nat_scope.

Definition LLM_REQUEST : string := "llm_request".
Definition LLM_RESULT : string := "llm_result".

(** ** Results *)

(** [usage.model_dump()]: keys by their camel-case aliases *)
Definition opt_z (o : option Z) : value := match o with Some z => VInt z | None => VNone end.
Definition cost_dump (c : usage_cost) : value :=
  VDict [("input", VFloat (uc_input c)); ("output", VFloat (uc_output c));
         ("cacheRead", VFloat (uc_cache_read c)); ("cacheWrite", VFloat (uc_cache_write c));
         ("total", VFloat (uc_total c))].
Definition usage_dump (u : usage) : value :=
  VDict [("input", VInt (us_input u)); ("output", VInt (us_output u));
         ("cacheRead", VInt (us_cache_read u)); ("cacheWrite", VInt (us_cache_write u));
         ("cacheWrite1H", opt_z (us_cache_write_1h u)); ("reasoning", opt_z (us_reasoning u));
         ("totalTokens", VInt (us_total_tokens u)); ("cost", cost_dump (us_cost u))].

Definition call_dump (c : tool_call) : value :=
  VDict [("id", VStr (tcl_id c)); ("name", VStr (tcl_name c)); ("arguments", VDict (tcl_arguments c))].
Definition _result_ok (m : assistant_message) : dict value :=
  [("command", VStr LLM_RESULT); ("ok", VBool true); ("content", VStr (assistant_text m));
   ("tool_calls", VList (map call_dump (tool_calls m))); ("usage", usage_dump (am_usage m))].
Definition _result_error (error : string) : dict value :=
  [("command", VStr LLM_RESULT); ("ok", VBool false); ("content", VStr ""); ("error", VStr error)].

(** ** Wire messages *)

(** [for x in v]: the elements, an exception when [v] is not iterable *)
Definition py_iter (v : value) : res (list value) :=
  match v with
  | VList l => Ok l
  | VDict d => Ok (map (λ kv, VStr kv.1) d)
  | VStr s => Ok (map VStr (utf8_chars s))
  | _ => Raise (Exn TypeError ("'" +:+ type_name v +:+ "' object is not iterable"))
  end.
(** [v or dflt] *)
Definition py_or (v dflt : value) : value := if truthy v then v else dflt.

(** Field types of the message models: a string, a mapping *)
Definition field_str (field : string) (v : value) : res string :=
  match v with
  | VStr s => Ok s
  | _ => Raise (Exn ValidationError (field +:+ ": Input should be a valid string"))
  end.
Definition field_dict (field : string) (v : value) : res (dict value) :=
  match v with
  | VDict d => Ok d
  | _ => Raise (Exn ValidationError (field +:+ ": Input should be a valid dictionary"))
  end.

Record wire_tool := WireTool {
  wt_name : value; wt_label : value; wt_description : value; wt_parameters : value
}.
Definition _tool_from_wire (t : value) : res wire_tool :=
  name ← py_index t "name";
  description ← py_get_or t "description" (VStr "");
  parameters ← py_get t "parameters";
  Ok (WireTool name name description (py_or parameters (VDict []))).
Definition _tools_from_wire (items : value) : res (list wire_tool) :=
  l ← py_iter items; res_mapM _tool_from_wire l.

Section Wire.
Variable parse_blocks : list value → res (list user_block).
Variable now : Z.

Definition user_content_of (v : value) : res user_content :=
  match v with
  | VStr s => Ok (UStr s)
  | VList l => bs ← parse_blocks l; Ok (UBlocks bs)
  | _ => Raise (Exn ValidationError "content: Input should be a valid string or list")
  end.

Definition call_from_wire (t : value) : res tool_call :=
  id ← py_index t "id";
  name ← py_index t "name";
  arguments ← py_get t "arguments";
  id ← field_str "id" id;
  name ← field_str "name" name;
  arguments ← field_dict "arguments" (py_or arguments (VDict []));
  Ok (ToolCall id name arguments None).

Definition assistant_from_wire (item : value) : res agent_message :=
  calls ← py_get item "tool_calls";
  calls ← py_iter (py_or calls (VList []));
  calls ← res_mapM call_from_wire calls;
  content ← py_get_or item "content" (VStr "");
  text ← (if truthy content then field_str "text" content else Ok "");
  Ok (MAssistant (new_assistant now (assistant_content text calls) Usage_default)).

Definition tool_from_wire (item : value) : res agent_message :=
  id ← py_index item "tool_call_id";
  name ← py_get_or item "tool_name" (VStr "");
  content ← py_get_or item "content" (VStr "");
  text ← field_str "text" content;
  is_error ← py_get item "is_error";
  id ← field_str "tool_call_id" id;
  name ← field_str "tool_name" name;
  Ok (MToolResult (ToolResultMessage id name [UText (TextContent text None)] VNone None
                     (truthy is_error) now)).

(** A message, or none for an unknown role. *)
Definition _message_from_wire (item : value) : res (list agent_message) :=
  role ← py_get item "role";
  if veq_str role "user" then
    content ← py_get_or item "content" (VStr "");
    c ← user_content_of content;
    Ok [MUser (UserMessage c now)]
  else if veq_str role "assistant" then (m ← assistant_from_wire item; Ok [m])
  else if veq_str role "tool" then (m ← tool_from_wire item; Ok [m])
  else Ok [].
Definition _messages_from_wire (items : value) : res (list agent_message) :=
  l ← py_iter items; ms ← res_mapM _message_from_wire l; Ok (concat ms).

(** ** Requests *)

(** A provider: the stream of a call, and whether an exception ended it. *)
Definition provider : Type :=
  value → value → list agent_message → list wire_tool → list assistant_event * res ().

(** The outcome of a stream: the last terminal event counts. *)
Definition on_stream_event (r : option (dict value)) (ev : assistant_event) : option (dict value) :=
  match ev with
  | EDone _ message => Some (_result_ok message)
  | EError _ error =>
      let text := assistant_text error in
      Some (_result_error (if nonempty text then text else "provider error"))
  | _ => r
  end.
Definition stream_result (evs : list assistant_event) : dict value :=
  match fold_left on_stream_event evs None with
  | Some r => r
  | None => _result_error "stream ended without a terminal event"
  end.

Definition _call (p : provider) (payload : value) : dict value :=
  let r :=
    model ← py_index payload "model";
    system ← py_get payload "system";
    messages ← py_get payload "messages";
    ms ← _messages_from_wire (py_or messages (VList []));
    tools ← py_get payload "tools";
    ts ← _tools_from_wire (py_or tools (VList []));
    Ok (p model (py_or system (VStr "")) ms ts) in
  match r with
  | Raise e => _result_error (exn_msg e)
  | Ok (evs, Ok _) => stream_result evs
  | Ok (_, Raise e) => _result_error (exn_msg e)
  end.

(** The device: its factory and the provider once created. *)
Record llm_device := LLMDevice {
  ll_provider_factory : option (res provider);
  ll_provider : option provider
}.
Definition LLMDevice_init (factory : option (res provider)) : llm_device := LLMDevice factory None.

Definition get_provider : M llm_device provider := λ d,
  match ll_provider d with
  | Some p => (Ok p, d)
  | None =>
      match ll_provider_factory d with
      | None => (Raise (Exn TypeError "'NoneType' object is not callable"), d)
      | Some (Raise e) => (Raise e, d)
      | Some (Ok p) => (Ok p, LLMDevice (ll_provider_factory d) (Some p))
      end
  end.

Definition reply (source : value) (payload : dict value) : value :=
  VDict [("target", source); ("kind", VStr "application"); ("payload", VDict payload)].

Definition llm_respond (event : value) : M llm_device value :=
  payload ← lift (py_index event "payload");
  command ← lift (py_get payload "command");
  if veq_str command LLM_REQUEST then
    p ← get_provider;
    let result := _call p payload in
    source ← lift (py_index event "source");
    mret (reply source result)
  else
    source ← lift (py_index event "source");
    mret (reply source (_result_error ("unexpected command: " +:+ repr command))).
End Wire.

(** ** The last event of a stream *)

Definition terminal_event (e : assistant_event) : bool :=
  match e with EDone _ _ | EError _ _ => true | _ => false end.

Lemma step_finished p e q : event_step p e q → terminal_event e = match q with Finished => true | _ => false end.
Proof. by destruct 1 as [|[]|[]|[]| | | | | ]. Qed.
Lemma finished_run l q : event_run Finished l q → l = [] ∧ q = Finished.
Proof. inversion 1 as [|? ? ? ? ? Hs]; subst; [done|]. inversion Hs. Qed.

(** A stream that obeys the protocol ends with its only terminal event. *)
Lemma protocol_last p l :
  p ≠ Finished → event_run p l Finished →
  ∃ pre e, l = (pre ++ [e])%list ∧ terminal_event e = true ∧
    forallb (λ e, negb (terminal_event e)) pre = true.
Proof.
  intros Hp Hrun. remember Finished as q eqn:Eq. revert Hp.
  induction Hrun as [p|p e p' l q Hs Hrun IH]; intros Hp; subst; [done|].
  pose proof (step_finished _ _ _ Hs) as Ht.
  assert (p' = Finished ∨ p' ≠ Finished ∧ terminal_event e = false) as [->|[Hp' He]]
    by (destruct p'; auto).
  - apply finished_run in Hrun as [-> _]. by exists [], e.
  - destruct IH as (pre & e' & -> & He' & Hpre); [done..|]. exists (e :: pre), e'. simpl. by rewrite He.
Qed.

Lemma fold_quiet pre r :
  forallb (λ e, negb (terminal_event e)) pre = true → fold_left on_stream_event pre r = r.
Proof.
  induction pre as [|e pre IH]; simpl; [done|]. intros [He Hpre]%andb_true_iff.
  assert (on_stream_event r e = r) as -> by (by destruct e). by apply IH.
Qed.

Lemma stream_result_protocol evs :
  event_run Fresh evs Finished →
  (∃ pre r m, evs = (pre ++ [EDone r m])%list ∧ stream_result evs = _result_ok m) ∨
  (∃ pre r e, evs = (pre ++ [EError r e])%list ∧
     stream_result evs =
       _result_error (if nonempty (assistant_text e) then assistant_text e else "provider error")).
Proof.
  intros (pre & e & -> & He & Hpre)%protocol_last; [|done]. unfold stream_result.
  rewrite fold_left_app, (fold_quiet _ _ Hpre).
  destruct e as [| | | | | | | | | |r m|r m]; try done; [left|right]; by exists pre, r, m.
Qed.

(** ** Theorems *)

(** A request that reaches the provider. *)
Definition call_of (pb : list value → res (list user_block)) (now : Z) (payload : dict value)
    (model system : value) (ms : list agent_message) (ts : list wire_tool) : Prop :=
  dget "command" payload = Some (VStr LLM_REQUEST) ∧
  dget "model" payload = Some model ∧
  py_or (opt_or_none (dget "system" payload)) (VStr "") = system ∧
  _messages_from_wire pb now (py_or (opt_or_none (dget "messages" payload)) (VList [])) = Ok ms ∧
  _tools_from_wire (py_or (opt_or_none (dget "tools" payload)) (VList [])) = Ok ts.

(** The provider a device uses for a request, and the device afterwards. *)
Definition serves (d : llm_device) (p : provider) (d' : llm_device) : Prop :=
  (ll_provider d = Some p ∧ d' = d) ∨
  (ll_provider d = None ∧ ll_provider_factory d = Some (Ok p) ∧
   d' = LLMDevice (ll_provider_factory d) (Some p)).

Lemma get_provider_serves d p d' : serves d p d' → get_provider d = (Ok p, d').
Proof.
  unfold get_provider. intros [[-> ->]|(-> & -> & ->)]; [|done]. done.
Qed.

Lemma llm_respond_call pb now d d' p event source payload model system ms ts :
  dget "source" event = Some source → dget "payload" event = Some (VDict payload) →
  serves d p d' → call_of pb now payload model system ms ts →
  llm_respond pb now (VDict event) d =
    (Ok (reply source (match p model system ms ts with
                       | (evs, Ok _) => stream_result evs
                       | (_, Raise e) => _result_error (exn_msg e)
                       end)), d').
Proof.
  intros Hs Hp Hserve (Hc & Hm & Hsys & Hms & Hts). unfold llm_respond.
  rewrite run_bind. unfold py_index at 1. rewrite Hp. cbn [lift].
  rewrite run_bind, py_get_dict, Hc. cbn [lift].
  assert (veq_str (default VNone (Some (VStr LLM_REQUEST))) LLM_REQUEST = true) as -> by reflexivity.
  rewrite run_bind, (get_provider_serves _ _ _ Hserve), run_bind.
  unfold py_index at 1. rewrite Hs. cbn [lift]. unfold _call. unfold py_index. rewrite Hm.
  cbn [mbind res_bind]. rewrite !py_get_dict. cbn [mbind res_bind].
  change (default VNone) with opt_or_none. rewrite Hms. cbn [mbind res_bind]. rewrite Hts.
  cbn [mbind res_bind]. rewrite Hsys. by destruct (p model system ms ts) as [evs []].
Qed.

(** C20: a request whose stream obeys the provider protocol gets one answer, addressed to its
    sender: the text, the tool calls and the usage of the final message when the stream ends
    with one, a failure when it ends with an error; and the provider is created once. *)
Theorem llm_request_answered pb now d d' p event source payload model system ms ts evs :
  dget "source" event = Some source → dget "payload" event = Some (VDict payload) →
  serves d p d' → call_of pb now payload model system ms ts →
  p model system ms ts = (evs, Ok ()) → event_run Fresh evs Finished →
  serves d' p d' ∧
  ((∃ pre r m, evs = (pre ++ [EDone r m])%list ∧
      llm_respond pb now (VDict event) d = (Ok (reply source (_result_ok m)), d')) ∨
   (∃ pre r e error, evs = (pre ++ [EError r e])%list ∧
      llm_respond pb now (VDict event) d = (Ok (reply source (_result_error error)), d'))).
Proof.
  intros Hs Hp Hserve Hcall Hev Hrun.
  rewrite (llm_respond_call pb now d d' p event source payload model system ms ts) by done.
  rewrite Hev. split; [destruct Hserve as [[? ->]|(? & ? & ->)]; left; done|].
  destruct (stream_result_protocol _ Hrun) as [(pre & r & m & E & ->)|(pre & r & e & E & ->)];
    [left|right]; by eauto 10.
Qed.

(** *** From a result back to the transcript *)

(** The transcript item a requester makes of a result. *)
Definition echo_item (result : dict value) : value :=
  VDict [("role", VStr "assistant"); ("content", opt_or_none (dget "content" result));
         ("tool_calls", opt_or_none (dget "tool_calls" result))].
Definition without_thought (c : tool_call) : tool_call :=
  ToolCall (tcl_id c) (tcl_name c) (tcl_arguments c) None.

Lemma call_round_trip c : call_from_wire (call_dump c) = Ok (without_thought c).
Proof.
  destruct c as [id name args sig]. unfold call_from_wire, call_dump, without_thought. simpl.
  unfold py_get, py_or. simpl. by destruct args.
Qed.
Lemma calls_round_trip l : res_mapM call_from_wire (map call_dump l) = Ok (map without_thought l).
Proof. induction l as [|c l IH]; [done|]. cbn [map res_mapM]. by rewrite call_round_trip, IH. Qed.
Lemma py_or_list l : py_iter (py_or (VList l) (VList [])) = Ok l.
Proof. by destruct l. Qed.

(** What a requester gets from the device it can give back: the assistant item made of a
    result's content and tool calls is read as a message with the same text and the same
    tool calls in order, up to the thought signatures, which the wire form does not have. *)
Theorem wire_round_trip pb now m :
  ∃ a, _messages_from_wire pb now (VList [echo_item (_result_ok m)]) = Ok [MAssistant a] ∧
    assistant_text a = assistant_text m ∧ tool_calls a = map without_thought (tool_calls m).
Proof.
  set (a := new_assistant now (assistant_content (assistant_text m) (map without_thought (tool_calls m)))
              Usage_default).
  exists a. split.
  - unfold _messages_from_wire. cbn [py_iter mbind res_bind res_mapM].
    assert (_message_from_wire pb now (echo_item (_result_ok m)) = Ok [MAssistant a]) as ->; [|done].
    unfold _message_from_wire. change (py_get (echo_item (_result_ok m)) "role") with (Ok (VStr "assistant")).
    cbn [mbind res_bind]. change (veq_str (VStr "assistant") "user") with false.
    change (veq_str (VStr "assistant") "assistant") with true. cbv iota. unfold assistant_from_wire.
    change (py_get (echo_item (_result_ok m)) "tool_calls") with (Ok (VList (map call_dump (tool_calls m)))).
    cbn [mbind res_bind]. rewrite py_or_list. cbn [mbind res_bind]. rewrite calls_round_trip.
    cbn [mbind res_bind].
    change (py_get_or (echo_item (_result_ok m)) "content" (VStr "")) with (Ok (VStr (assistant_text m))).
    cbn [mbind res_bind truthy].
    assert ((if nonempty (assistant_text m) then field_str "text" (VStr (assistant_text m)) else Ok "")
            = Ok (assistant_text m)) as ->; [|done].
    unfold nonempty. case_bool_decide as H; [by rewrite H|done].
  - destruct (assistant_content_accessors (assistant_text m) (map without_thought (tool_calls m)))
      as (H1 & _ & H3). split; [exact H1|exact H3].
Qed.

(** *** A device on top of the OpenAI-compatible provider *)

(** A provider that serves tool-less calls with the OpenAI-compatible adapter. *)
Definition serves_openai (p : provider) (cfg : openai_config) (now : Z)
    (post : http_request → nat → exchange) : Prop :=
  ∀ m s ms, p (VStr m) (VStr s) ms [] = openai_stream_response cfg now None post m s ms [] None.

Definition sample_provider (cfg : openai_config) (now : Z) (post : http_request → nat → exchange) : provider :=
  λ model system ms ts,
    match model, system, ts with
    | VStr m, VStr s, [] => openai_stream_response cfg now None post m s ms [] None
    | _, _, _ => ([], Raise (Exn TypeError ""))
    end.

Definition sample_request : dict value :=
  [("source", VStr "a"); ("target", VStr "llm"); ("kind", VStr "application");
   ("payload", VDict [("command", VStr LLM_REQUEST); ("model", VStr "m");
                      ("messages", VList [VDict [("role", VStr "user"); ("content", VStr "Hello")]])])].
Definition sample_request_payload : dict value :=
  [("command", VStr LLM_REQUEST); ("model", VStr "m");
   ("messages", VList [VDict [("role", VStr "user"); ("content", VStr "Hello")]])].
Definition no_blocks (l : list value) : res (list user_block) := Ok [].
Definition sample_ms : list agent_message := [MUser (UserMessage (UStr "Hello") 0)].

Lemma sample_call : call_of no_blocks 0 sample_request_payload (VStr "m") (VStr "") sample_ms [].
Proof. by repeat split. Qed.
Lemma sample_stream_ok :
  (openai_stream_response sample_cfg 0 None sample_post "m" "" sample_ms [] None).2 = Ok ().
Proof. vm_compute. reflexivity. Qed.

Lemma llm_request_answered_witness :
  let p := sample_provider sample_cfg 0 sample_post in
  let d := LLMDevice_init (Some (Ok p)) in
  ∃ d', serves d' p d' ∧ ∃ payload, llm_respond no_blocks 0 (VDict sample_request) d =
    (Ok (reply (VStr "a") payload), d').
Proof.
  intros p d.
  assert (serves d p (LLMDevice (ll_provider_factory d) (Some p))) as Hserve by (right; split_and!; reflexivity).
  pose proof (provider_stream_run sample_cfg 0 None sample_post "m" "" sample_ms [] None sample_stream_ok) as Hrun.
  eexists.
  destruct (llm_request_answered no_blocks 0 d _ p sample_request (VStr "a") sample_request_payload
    (VStr "m") (VStr "") sample_ms []
    (openai_stream_response sample_cfg 0 None sample_post "m" "" sample_ms [] None).1
    eq_refl eq_refl Hserve sample_call) as [H1 [(pre & r & m & _ & H2)|(pre & r & e & err & _ & H2)]].
  - pose proof sample_stream_ok as Hok.
    change (p (VStr "m") (VStr "") sample_ms [])
      with (openai_stream_response sample_cfg 0 None sample_post "m" "" sample_ms [] None).
    destruct (openai_stream_response sample_cfg 0 None sample_post "m" "" sample_ms [] None) as [evs out].
    simpl in Hok. by rewrite Hok.
  - exact Hrun.
  - split; [exact H1|]. eexists. exact H2.
  - split; [exact H1|]. eexists. exact H2.
Defined.

(** The events of a call whose first response is a permanent failure. *)
Lemma permanent_failure P `{StreamParser P} cfg now model sig post r body :
  post 0 = Responded r → (400 <= rs_status r)%Z → _is_transient_status (rs_status r) = false →
  rs_body r = inl body →
  ∃ d rp, g_events (attempts P cfg now model sig post (max_attempts cfg) 0 0) =
      [PError (provider_http_error_message (oc_provider_name cfg) (rs_status r) (decode body) (Some model)) d rp] ∧
    g_outcome (attempts P cfg now model sig post (max_attempts cfg) 0 0) = Ok ().
Proof.
  intros Hpost Hst Htr Hbody. unfold max_attempts. simpl. rewrite Hpost. unfold on_response.
  destruct (Z.leb_spec 400 (rs_status r)); [|lia]. unfold on_error_status, _should_retry. rewrite Hbody, Htr.
  destruct (_ <=? _)%Z; by repeat econstructor.
Qed.

Lemma refused_stream P `{StreamParser P} key now post m url pl sid fmt im api (r : http_request → http_response) body :
  (∀ rq, post rq 0 = Responded (r rq)) → (∀ rq, (400 <= rs_status (r rq))%Z) →
  (∀ rq, _is_transient_status (rs_status (r rq)) = false) → (∀ rq, rs_body (r rq) = inl body) →
  ∃ rq m0 e, canonical_over now api "OpenAI-compatible provider" m
      (_stream (openai_defaults key) now None post P m url pl sid fmt im) =
      ([EStart m0; EError "error" e], Ok ()) ∧ assistant_text e = "" ∧
      am_error_message e = Some (provider_http_error_message "OpenAI-compatible provider"
        (rs_status (r rq)) (decode body) (Some m)).
Proof.
  intros Hpost Hst Htr Hbody.
  assert (∃ rq, build_request (openai_defaults key) url pl sid fmt im = Ok rq) as [rq Hrq]
    by (eexists; reflexivity).
  unfold _stream, _stream_fuel. rewrite Hrq.
  destruct (permanent_failure P (openai_defaults key) now m None (post rq) (r rq) body
    (Hpost rq) (Hst rq) (Htr rq) (Hbody rq)) as (d & rp & E1 & E2).
  unfold canonical_over. rewrite E2, E1. do 3 eexists. by repeat split.
Qed.

Lemma default_stream_shape key now post m s ms (r : http_request → http_response) body :
  (∀ rq, post rq 0 = Responded (r rq)) → (∀ rq, (400 <= rs_status (r rq))%Z) →
  (∀ rq, _is_transient_status (rs_status (r rq)) = false) → (∀ rq, rs_body (r rq) = inl body) →
  ∃ rq m0 e, openai_stream_response (openai_defaults key) now None post m s ms [] None =
      ([EStart m0; EError "error" e], Ok ()) ∧ assistant_text e = "" ∧
      am_error_message e = Some (provider_http_error_message "OpenAI-compatible provider"
        (rs_status (r rq)) (decode body) (Some m)).
Proof.
  intros Hpost Hst Htr Hbody. unfold openai_stream_response, _stream_provider_events,
    _stream_responses, _stream_chat_completions.
  assert (∀ a, ∃ k, _prompt_cache_key (openai_defaults key) a = Ok k) as Hk.
  { intros a. eexists. unfold _prompt_cache_key. simpl. reflexivity. }
  assert (∀ b, ∃ k, _session_affinity_format (openai_defaults key) b = Ok k) as Hf.
  { intros []; eexists; unfold _session_affinity_format; simpl; reflexivity. }
  destruct (_ || _).
  - destruct (Hk (openai_prompt_cache_key None)) as [k ->]. destruct (Hf true) as [f ->].
    cbn [mbind res_bind]. by eapply refused_stream.
  - destruct (Hk (openai_prompt_cache_key None)) as [k ->]. destruct (Hf false) as [f ->].
    cbn [mbind res_bind]. by eapply refused_stream.
Qed.

(** The cause of a failed call does not reach the requester: when the server refuses a
    request for good, the provider's stream ends with an error event that tells the status
    and the server's explanation, and the device answers with the constant text
    "provider error" whatever they are. *)
Theorem llm_error_cause_lost pb key now post d d' p event source payload m s ms
    (r : http_request → http_response) body :
  (∀ rq, post rq 0 = Responded (r rq)) → (∀ rq, (400 <= rs_status (r rq))%Z) →
  (∀ rq, _is_transient_status (rs_status (r rq)) = false) → (∀ rq, rs_body (r rq) = inl body) →
  serves_openai p (openai_defaults key) now post →
  dget "source" event = Some source → dget "payload" event = Some (VDict payload) →
  serves d p d' → call_of pb now payload (VStr m) (VStr s) ms [] →
  (∃ rq e pre, (p (VStr m) (VStr s) ms []).1 = (pre ++ [EError "error" e])%list ∧
     am_error_message e = Some (provider_http_error_message "OpenAI-compatible provider"
        (rs_status (r rq)) (decode body) (Some m))) ∧
  llm_respond pb now (VDict event) d = (Ok (reply source (_result_error "provider error")), d').
Proof.
  intros H1 H2 H3 H4 Hp Hs Hpl Hserve Hcall.
  destruct (default_stream_shape key now post m s ms r body H1 H2 H3 H4) as (rq & m0 & e & E & Et & Em).
  rewrite (llm_respond_call pb now d d' p event source payload (VStr m) (VStr s) ms []) by done.
  rewrite !Hp, !E. split; [exists rq, e, [EStart m0]; split; [reflexivity|exact Em]|].
  unfold stream_result. simpl. by rewrite Et.
Qed.

Definition refusing_post (rq : http_request) (n : nat) : exchange :=
  Responded (HttpResponse 401 [] (inl (String.list_ascii_of_string "bad key")) [] None).

Lemma llm_error_cause_lost_witness :
  let p := sample_provider (openai_defaults "key") 0 refusing_post in
  let d := LLMDevice_init (Some (Ok p)) in
  (llm_respond no_blocks 0 (VDict sample_request) d).1 =
    Ok (reply (VStr "a") (_result_error "provider error")) ∧
  provider_http_error_message "OpenAI-compatible provider" 401 "bad key" (Some "m") =
    "OpenAI-compatible provider request failed with status 401 for model m: bad key".
Proof.
  intros p d. split; [|vm_compute; reflexivity].
  assert (serves d p (LLMDevice (ll_provider_factory d) (Some p))) as Hserve by (right; split_and!; reflexivity).
  pose proof (llm_error_cause_lost no_blocks "key" 0 refusing_post d _ p sample_request (VStr "a")
    sample_request_payload "m" "" sample_ms
    (λ _, HttpResponse 401 [] (inl (String.list_ascii_of_string "bad key")) [] None)
    (String.list_ascii_of_string "bad key")
    (λ _, eq_refl) (λ _, ltac:(simpl; lia)) (λ _, eq_refl) (λ _, eq_refl) (λ m s ms, eq_refl)
    eq_refl eq_refl Hserve sample_call) as [_ H].
  rewrite H. reflexivity.
Defined.
