(* ===== verification/LegacyTask.v ===== *)
(** * The task tree of the previous architecture (legacy/models/task.py, legacy/task_tree.py)

    A task has a lifecycle; the tree keeps the tasks, the children and the parent of each,
    and the tasks of each assignee.  Task objects are reachable through [_tasks] only, so the
    model updates them there; a deadline is an instant of the wall clock.

    A transition set of the source is a Python set: membership is [TASK_TRANSITIONS], and
    the order a loop meets its elements in is not determined.  The walk of [update_status]
    therefore takes the order as a parameter, and its theorem holds for every order. *)

From stdpp Require Import base strings list relations.
From Stdlib Require Import ZArith.
From S2P Require Import Prelude PyValue.

Open Scope string_scope.
Open Scope Z_scope.
Open Scope nat_scope.

(** ** Statuses and transitions (models/task.py) *)

Inductive TaskStatus :=
| DRAFT | ASSIGNED | ACCEPTED | IN_PROGRESS | BLOCKED | WAITING_FOR_CHILDREN
| SUBMITTED | REVIEWING | COMPLETED | FAILED | CANCELLED | EXPIRED.
#[global] Instance TaskStatus_eq_dec : EqDecision TaskStatus.
Proof. solve_decision. Defined.

Inductive TaskPriority := LOW | NORMAL | HIGH | URGENT.

Definition TASK_TRANSITIONS (s : TaskStatus) : list TaskStatus :=
  match s with
  | DRAFT => [ASSIGNED; CANCELLED]
  | ASSIGNED => [ACCEPTED; FAILED; CANCELLED; EXPIRED]
  | ACCEPTED => [IN_PROGRESS; FAILED; CANCELLED; EXPIRED]
  | IN_PROGRESS => [SUBMITTED; BLOCKED; WAITING_FOR_CHILDREN; FAILED; CANCELLED; EXPIRED]
  | BLOCKED => [IN_PROGRESS; FAILED; CANCELLED; EXPIRED]
  | WAITING_FOR_CHILDREN => [IN_PROGRESS; SUBMITTED; FAILED; CANCELLED; EXPIRED]
  | SUBMITTED => [REVIEWING; COMPLETED; FAILED]
  | REVIEWING => [COMPLETED; FAILED; IN_PROGRESS]
  | COMPLETED | FAILED | CANCELLED | EXPIRED => []
  end.

Record TaskArtifact := mkTaskArtifact {
  artifact_type : string; ta_path : string; ta_version : Z; ta_description : string }.

Record Task := mkTask {
  task_id : string;
  title : string;
  description : string;
  assigner_agent_id : string;
  assignee_agent_id : string;
  derived_from : option string;
  child_task_ids : list string;
  status : TaskStatus;
  priority : TaskPriority;
  deadline : option Z;
  required_outputs : list string;
  artifacts : list TaskArtifact;
  created_at_tick : Z;
  updated_at_tick : Z;
  completed_at_tick : option Z;
  metadata : dict value }.

Definition with_status (s : TaskStatus) (tick : Z) (completed : option Z) (t : Task) : Task :=
  mkTask (task_id t) (title t) (description t) (assigner_agent_id t) (assignee_agent_id t)
    (derived_from t) (child_task_ids t) s (priority t) (deadline t) (required_outputs t)
    (artifacts t) (created_at_tick t) tick completed (metadata t).

Definition can_transition_to (t : Task) (target : TaskStatus) : bool :=
  bool_decide (target ∈ TASK_TRANSITIONS (status t)).

(** The exceptions of both files; [Invalid] is the [ValueError] of [transition_to]. *)
Inductive tree_error :=
| TaskTreeError (task_id : string)
| TaskNotFoundError (task_id : string)
| InvalidTransitionError (task_id : string) (from_status to_status : TaskStatus)
| Invalid (from_status to_status : TaskStatus)
| TaskKeyError (task_id : string).

Definition transition_to (target : TaskStatus) (tick : Z) (t : Task) : tree_error + Task :=
  if can_transition_to t target
  then inr (with_status target tick
              (if decide (target = COMPLETED) then Some tick else completed_at_tick t) t)
  else inl (Invalid (status t) target).

Definition is_terminal (t : Task) : bool :=
  bool_decide (status t ∈ [COMPLETED; FAILED; CANCELLED; EXPIRED]).
Definition is_active (t : Task) : bool :=
  bool_decide (status t ∈ [ASSIGNED; ACCEPTED; IN_PROGRESS; BLOCKED; WAITING_FOR_CHILDREN]).

(** ** The tree (task_tree.py) *)

Record TaskTree := mkTree {
  _tasks : dict Task;
  _children_map : dict (list string);
  _parent_map : dict (option string);
  _assignee_map : dict (list string) }.

Definition TaskTree_init : TaskTree := mkTree [] [] [] [].
Definition set_tasks (f : dict Task → dict Task) (t : TaskTree) : TaskTree :=
  mkTree (f (_tasks t)) (_children_map t) (_parent_map t) (_assignee_map t).

(** [if k not in d: d[k] = []], then [d[k].append(v)] *)
Definition append_to (k v : string) (d : dict (list string)) : dict (list string) :=
  dset k (default [] (dget k d) ++ [v])%list d.

Definition create (id title assigner assignee description : string)
    (derived_from : option string) (priority : TaskPriority) (deadline : option Z)
    (required_outputs : list string) (tick : Z) (t : TaskTree) : (tree_error + Task) * TaskTree :=
  if dmem id (_tasks t) then (inl (TaskTreeError id), t) else
  let missing := match derived_from with
                 | Some p => if dmem p (_tasks t) then None else Some p
                 | None => None
                 end in
  match missing with
  | Some p => (inl (TaskNotFoundError p), t)
  | None =>
      let task := mkTask id title description assigner assignee derived_from [] DRAFT priority
                    deadline required_outputs [] tick tick None [] in
      (inr task,
       mkTree (dset id task (_tasks t))
         (match derived_from with
          | Some p => append_to p id (_children_map t)
          | None => _children_map t
          end)
         (dset id derived_from (_parent_map t))
         (append_to assignee id (_assignee_map t)))
  end.

Definition get (id : string) (t : TaskTree) : tree_error + Task :=
  match dget id (_tasks t) with Some x => inr x | None => inl (TaskNotFoundError id) end.
Definition exists_ (id : string) (t : TaskTree) : bool := dmem id (_tasks t).

(** [for step in path: task.transition_to(step, tick)]: the steps before a failing one stay. *)
Fixpoint transitions (path : list TaskStatus) (tick : Z) (x : Task) : option tree_error * Task :=
  match path with
  | [] => (None, x)
  | s :: path' => match transition_to s tick x with
                  | inl e => (Some e, x)
                  | inr y => transitions path' tick y
                  end
  end.

Section Walk.
(** The order in which a loop meets the elements of a transition set. *)
Variable order : TaskStatus → list TaskStatus.
Variable target : TaskStatus.

(** [for nxt in TASK_TRANSITIONS.get(current, set())]: the path to the target, or the
    visited set and the queue after the loop. *)
Fixpoint expand (nxts : list TaskStatus) (path : list TaskStatus)
    (visited : list TaskStatus) (queue : list (TaskStatus * list TaskStatus)) :
    list TaskStatus + (list TaskStatus * list (TaskStatus * list TaskStatus)) :=
  match nxts with
  | [] => inr (visited, queue)
  | nxt :: nxts' =>
      if decide (nxt ∈ visited) then expand nxts' path visited queue else
      let new_path := (path ++ [nxt])%list in
      if decide (nxt = target) then inl new_path
      else expand nxts' path (nxt :: visited) (queue ++ [(nxt, new_path)])%list
  end.

Fixpoint walk (fuel : nat) (visited : list TaskStatus)
    (queue : list (TaskStatus * list TaskStatus)) : option (list TaskStatus) :=
  match fuel with
  | O => None
  | S f =>
      match queue with
      | [] => None
      | (current, path) :: queue' =>
          match expand (order current) path visited queue' with
          | inl found => Some found
          | inr (visited', queue'') => walk f visited' queue''
          end
      end
  end.

(** One turn per visited status, of which there are twelve, and one for the empty queue. *)
Definition WALK : nat := 13.
End Walk.

Definition update_status (order : TaskStatus → list TaskStatus) (id : string)
    (target : TaskStatus) (tick : Z) (allow_walk : bool) (t : TaskTree) :
    (tree_error + Task) * TaskTree :=
  match get id t with
  | inl e => (inl e, t)
  | inr task =>
      let path := if can_transition_to task target then Some [target]
                  else if allow_walk
                  then walk order target WALK [status task] [(status task, [])]
                  else None in
      match path with
      | None => (inl (InvalidTransitionError id (status task) target), t)
      | Some path =>
          let '(e, task') := transitions path tick task in
          (match e with Some e => inl e | None => inr task' end, set_tasks (dset id task') t)
      end
  end.

Definition add_child (p child : string) (t : TaskTree) : option tree_error * TaskTree :=
  if negb (dmem p (_tasks t)) then (Some (TaskNotFoundError p), t)
  else if negb (dmem child (_tasks t)) then (Some (TaskNotFoundError child), t)
  else
    let kids := default [] (dget p (_children_map t)) in
    (None, mkTree (_tasks t)
             (dset p (if decide (child ∈ kids) then kids else kids ++ [child])%list
                (_children_map t))
             (dset child (Some p) (_parent_map t)) (_assignee_map t)).

Definition _child_map_children (id : string) (t : TaskTree) : list string :=
  default [] (dget id (_children_map t)).
Definition present (ids : list string) (t : TaskTree) : list Task :=
  omap (λ i, dget i (_tasks t)) ids.
Definition children (id : string) (t : TaskTree) : tree_error + list Task :=
  if dmem id (_tasks t) then inr (present (_child_map_children id t) t)
  else inl (TaskNotFoundError id).
Definition child_ids (id : string) (t : TaskTree) : tree_error + list string :=
  if dmem id (_tasks t) then inr (_child_map_children id t) else inl (TaskNotFoundError id).
Definition parent_of (id : string) (t : TaskTree) : option string := mjoin (dget id (_parent_map t)).
Definition parent (id : string) (t : TaskTree) : tree_error + option Task :=
  if dmem id (_tasks t)
  then inr (match parent_of id t with Some p => dget p (_tasks t) | None => None end)
  else inl (TaskNotFoundError id).
Definition get_assignee_tasks (agent : string) (t : TaskTree) : list Task :=
  present (default [] (dget agent (_assignee_map t))) t.
Definition get_active_tasks (t : TaskTree) : list Task :=
  List.filter is_active (dvalues (_tasks t)).

(** [now > task.deadline] is on the real calendar. *)
Definition get_expired_tasks (now : Z) (t : TaskTree) : list Task :=
  List.filter (λ x, match deadline x with Some d => (d <? now)%Z | None => false end
                    && negb (is_terminal x)) (dvalues (_tasks t)).

Definition expire_task (id : string) (tick : Z) (t : TaskTree) : (tree_error + Task) * TaskTree :=
  match get id t with
  | inl e => (inl e, t)
  | inr x =>
      if is_terminal x then (inr x, t) else
      match transition_to EXPIRED tick x with
      | inl e => (inl e, t)
      | inr y => (inr y, set_tasks (dset id y) t)
      end
  end.

(** The loops below run on a stack whose top is the head of the list, or along the parent
    links; [None] is a loop that has not ended within the fuel. *)
Fixpoint cancel_loop (fuel : nat) (stack : list string) (tick : Z) (cancelled : list string)
    (t : TaskTree) : option ((tree_error + list string) * TaskTree) :=
  match fuel with
  | O => None
  | S f =>
      match stack with
      | [] => Some (inr cancelled, t)
      | tid :: stack' =>
          match dget tid (_tasks t) with
          | None => cancel_loop f stack' tick cancelled t
          | Some x =>
              let stack'' := (rev (_child_map_children tid t) ++ stack')%list in
              if is_terminal x then cancel_loop f stack'' tick cancelled t else
              match transition_to CANCELLED tick x with
              | inl e => Some (inl e, t)
              | inr y => cancel_loop f stack'' tick (cancelled ++ [tid])%list
                           (set_tasks (dset tid y) t)
              end
          end
      end
  end.
Definition cancel_task (fuel : nat) (id : string) (tick : Z) (t : TaskTree) :
    option ((tree_error + list string) * TaskTree) := cancel_loop fuel [id] tick [] t.

Fixpoint subtree_loop (fuel : nat) (stack result : list string) (t : TaskTree) :
    option (tree_error + list string) :=
  match fuel with
  | O => None
  | S f =>
      match stack with
      | [] => Some (inr result)
      | node :: stack' =>
          if dmem node (_tasks t)
          then subtree_loop f (rev (_child_map_children node t) ++ stack')
                 (result ++ [node])%list t
          else Some (inl (TaskKeyError node))
      end
  end.
Definition subtree (fuel : nat) (id : string) (t : TaskTree) : option (tree_error + list string) :=
  if dmem id (_tasks t) then subtree_loop fuel [id] [] t else Some (inl (TaskNotFoundError id)).

Fixpoint ancestors_loop (fuel : nat) (current : option string) (result : list string)
    (t : TaskTree) : option (tree_error + list string) :=
  match fuel with
  | O => None
  | S f =>
      match current with
      | None => Some (inr result)
      | Some c => if dmem c (_tasks t)
                  then ancestors_loop f (parent_of c t) (result ++ [c])%list t
                  else Some (inl (TaskKeyError c))
      end
  end.
Definition ancestors (fuel : nat) (id : string) (t : TaskTree) : option (tree_error + list string) :=
  if dmem id (_tasks t) then ancestors_loop fuel (parent_of id t) [] t
  else Some (inl (TaskNotFoundError id)).

Fixpoint ancestor_loop (fuel : nat) (ancestor : string) (current : option string)
    (t : TaskTree) : option bool :=
  match fuel with
  | O => None
  | S f =>
      match current with
      | None => Some false
      | Some c => if decide (c = ancestor) then Some true
                  else ancestor_loop f ancestor (parent_of c t) t
      end
  end.
Definition is_ancestor (fuel : nat) (ancestor descendant : string) (t : TaskTree) : option bool :=
  if dmem ancestor (_tasks t) && dmem descendant (_tasks t)
  then ancestor_loop fuel ancestor (Some descendant) t else Some false.

Definition count (t : TaskTree) : nat := length (_tasks t).
Definition all_ids (t : TaskTree) : list string := dkeys (_tasks t).

(** ** The walk over the transition graph *)

Definition allowed (s u : TaskStatus) : Prop := u ∈ TASK_TRANSITIONS s.
#[global] Instance allowed_dec : RelDecision allowed.
Proof. intros s u. unfold allowed. apply _. Defined.

(** A path of allowed transitions, without its start. *)
Inductive steps (s : TaskStatus) : list TaskStatus → TaskStatus → Prop :=
| steps_nil : steps s [] s
| steps_snoc p u v : steps s p u → allowed u v → steps s (p ++ [v]) v.

Lemma steps_rtc s p u : steps s p u → rtc allowed s u.
Proof. induction 1; [done|]. by eapply rtc_r. Qed.

Lemma steps_app s p u q v : steps s p u → steps u q v → steps s (p ++ q) v.
Proof.
  intros Hp. induction 1 as [|q w v _ IH Hv]; [by rewrite app_nil_r|].
  rewrite app_assoc. by eapply steps_snoc.
Qed.

Lemma transitions_app p q tick x y :
  transitions p tick x = (None, y) → transitions (p ++ q) tick x = transitions q tick y.
Proof.
  revert x. induction p as [|s p IH]; simpl; intros x; [by intros [= ->]|].
  destruct (transition_to s tick x); [done|]. apply IH.
Qed.

Lemma transition_ok s u tick x :
  status x = s → allowed s u →
  transition_to u tick x =
    inr (with_status u tick (if decide (u = COMPLETED) then Some tick else completed_at_tick x) x).
Proof. intros <- H. unfold transition_to, can_transition_to. by rewrite bool_decide_true. Qed.

Lemma transitions_steps tick x p u :
  steps (status x) p u → ∃ y, transitions p tick x = (None, y) ∧ status y = u.
Proof.
  induction 1 as [|p u v _ (y & Hy & Hs) Hv]; [by exists x|].
  erewrite transitions_app by done. simpl.
  rewrite (transition_ok u v) by done. eauto.
Qed.

Definition all_statuses : list TaskStatus :=
  [DRAFT; ASSIGNED; ACCEPTED; IN_PROGRESS; BLOCKED; WAITING_FOR_CHILDREN;
   SUBMITTED; REVIEWING; COMPLETED; FAILED; CANCELLED; EXPIRED].
Lemma statuses_bounded (l : list TaskStatus) : NoDup l → length l ≤ 12.
Proof.
  intros H. change 12 with (length all_statuses). apply submseteq_length.
  apply NoDup_submseteq; [done|]. intros [] _; unfold all_statuses; set_solver.
Qed.

Section WalkCorrect.
Variable order : TaskStatus → list TaskStatus.
Hypothesis order_ok : ∀ s u, u ∈ order s ↔ allowed s u.
Variables start target : TaskStatus.

Definition queued (q : list (TaskStatus * list TaskStatus)) : Prop :=
  ∀ c p, (c, p) ∈ q → steps start p c.

Lemma expand_spec nxts cur path visited queue :
  (∀ u, u ∈ nxts → allowed cur u) → steps start path cur →
  NoDup visited → target ∉ visited → queued queue →
  match expand target nxts path visited queue with
  | inl found => steps start found target
  | inr (visited', queue') =>
      ∃ added, queue' = (queue ++ added)%list ∧ visited' = (rev added.*1 ++ visited)%list ∧
        NoDup visited' ∧ target ∉ visited' ∧ queued queue' ∧ ∀ u, u ∈ nxts → u ∈ visited'
  end.
Proof.
  intros Hn Hp. revert visited queue.
  induction nxts as [|nxt nxts IH]; simpl; intros visited queue Hd Ht Hq.
  { exists []. rewrite app_nil_r. repeat split; [done..|]. by intros u ?%elem_of_nil. }
  assert (Hnxt : allowed cur nxt) by (apply Hn; left).
  assert (Hn' : ∀ u, u ∈ nxts → allowed cur u) by (intros; apply Hn; by right).
  destruct (decide (nxt ∈ visited)) as [Hin|Hin].
  - specialize (IH Hn' visited queue Hd Ht Hq).
    destruct (expand target nxts path visited queue) as [found|[v' q']]; [done|].
    destruct IH as (added & -> & -> & H1 & H2 & H3 & H4). exists added.
    repeat split; try done. intros u [->|Hu]%elem_of_cons; [|by apply H4].
    apply elem_of_app. by right.
  - destruct (decide (nxt = target)) as [->|Hne]; [by apply steps_snoc with cur|].
    assert (Hq' : queued (queue ++ [(nxt, path ++ [nxt])])%list).
    { intros c p [H|H]%elem_of_app; [by apply Hq|].
      apply list_elem_of_singleton in H. simplify_eq. by apply steps_snoc with cur. }
    specialize (IH Hn' (nxt :: visited) (queue ++ [(nxt, path ++ [nxt])])%list (NoDup_cons_2 _ _ Hin Hd)
                  ltac:(set_solver) Hq').
    destruct (expand target nxts path _ _) as [found|[v' q']]; [done|].
    destruct IH as (added & -> & -> & H1 & H2 & H3 & H4).
    exists ((nxt, path ++ [nxt]) :: added)%list. simpl.
    rewrite <-!app_assoc in *. simpl in *.
    repeat split; try done. intros u [->|Hu]%elem_of_cons; [|by apply H4].
    apply elem_of_app. right. left.
Qed.

Record winv (visited : list TaskStatus) (queue : list (TaskStatus * list TaskStatus)) : Prop := {
  wi_nodup : NoDup visited;
  wi_start : start ∈ visited;
  wi_target : target ∉ visited;
  wi_queue : queued queue;
  wi_closed : ∀ s, s ∈ visited → s ∈ queue.*1 ∨ ∀ u, allowed s u → u ∈ visited }.

Lemma walk_spec fuel visited queue :
  winv visited queue → 12 - length visited + length queue < fuel →
  match walk order target fuel visited queue with
  | Some found => steps start found target
  | None => ¬ rtc allowed start target
  end.
Proof.
  revert visited queue. induction fuel as [|fuel IH]; intros visited queue [Hd Hs Ht Hq Hc] Hf;
    [lia|].
  simpl. destruct queue as [|[cur path] queue].
  { intros Hr. apply Ht. assert (∀ s, rtc allowed start s → s ∈ visited); [|by auto].
    apply rtc_ind_r; [done|]. intros y z _ Hyz Hy.
    destruct (Hc y Hy) as [[]%elem_of_nil|Hcl]; auto. }
  pose proof (expand_spec (order cur) cur path visited queue) as He.
  specialize (He (λ u Hu, proj1 (order_ok cur u) Hu) (Hq cur path ltac:(left)) Hd Ht).
  specialize (He (λ c p Hin, Hq c p (list_elem_of_further _ _ _ Hin))).
  destruct (expand _ _ _ _ _) as [found|[v' q']]; [done|].
  destruct He as (added & -> & -> & H1 & H2 & H3 & H4). simpl in Hf. apply IH.
  - split; [done|set_solver|done|done|]. intros s Hsv. rewrite fmap_app.
    apply elem_of_app in Hsv as [Hsv|Hsv].
    + left. apply elem_of_app. right. by apply elem_of_rev.
    + destruct (decide (s = cur)) as [->|Hne].
      * right. intros u Hu. by apply H4, order_ok.
      * destruct (Hc s Hsv) as [Hin|Hcl]; [left; set_solver|].
        right. intros u Hu. apply elem_of_app. right. auto.
  - pose proof (statuses_bounded _ H1) as Hb. rewrite length_app, length_rev, length_fmap in *.
    rewrite length_app. lia.
Qed.

(** A target that is the start is never found. *)
Lemma walk_visited fuel visited queue :
  target ∈ visited → walk order target fuel visited queue = None.
Proof.
  assert (Hex : ∀ nxts path v q, target ∈ v →
    ∃ v' q', expand target nxts path v q = inr (v', q') ∧ target ∈ v').
  { induction nxts as [|nxt nxts IH]; simpl; intros path v q Hv; [eauto|].
    destruct (decide (nxt ∈ v)); [auto|]. destruct (decide (nxt = target)) as [->|]; [done|].
    apply IH. by right. }
  revert visited queue. induction fuel as [|fuel IH]; intros visited queue Hv; [done|].
  simpl. destruct queue as [|[cur path] queue]; [done|].
  destruct (Hex (order cur) path visited queue Hv) as (v' & q' & -> & Hv'). auto.
Qed.

Lemma walk_start : target ≠ start →
  match walk order target WALK [start] [(start, [])] with
  | Some found => steps start found target
  | None => ¬ rtc allowed start target
  end.
Proof.
  intros Hne. apply walk_spec; [|by compute; lia].
  split.
  - apply NoDup_singleton.
  - left.
  - by intros ?%list_elem_of_singleton.
  - intros c p ?%list_elem_of_singleton. simplify_eq. constructor.
  - intros s Hs. by left.
Qed.
End WalkCorrect.

Lemma no_self_transition s : ¬ allowed s s.
Proof. unfold allowed. destruct s; set_solver. Qed.

#[local] Arguments walk : simpl never.

(** What a status update with or without a walk can reach. *)
Definition reachable (walk : bool) (s target : TaskStatus) : Prop :=
  if walk then target ≠ s ∧ rtc allowed s target else allowed s target.

(** [update_status] reaches a target exactly when the transition graph does: it then takes
    the task along a path of allowed transitions to the target, whatever the order the sets
    are searched in, and otherwise raises and leaves the tree as it was. *)
Theorem update_status_walk order id target tick allow_walk x t :
  (∀ s u, u ∈ order s ↔ allowed s u) → dget id (_tasks t) = Some x →
  (reachable allow_walk (status x) target → ∃ path y,
     steps (status x) path target ∧ transitions path tick x = (None, y) ∧ status y = target ∧
     update_status order id target tick allow_walk t = (inr y, set_tasks (dset id y) t)) ∧
  (¬ reachable allow_walk (status x) target →
     update_status order id target tick allow_walk t =
       (inl (InvalidTransitionError id (status x) target), t)).
Proof.
  intros Ho Hx. unfold update_status, get. rewrite Hx.
  assert (Hfound : ∀ path, steps (status x) path target → ∃ y,
    steps (status x) path target ∧ transitions path tick x = (None, y) ∧ status y = target ∧
    (let '(e, task') := transitions path tick x in
     (match e with Some e => inl e | None => inr task' end, set_tasks (dset id task') t))
    = (inr y, set_tasks (dset id y) t)).
  { intros path Hp. destruct (transitions_steps tick x path target Hp) as (y & Hy & Hs).
    exists y. by rewrite Hy. }
  unfold can_transition_to.
  destruct (decide (allowed (status x) target)) as [Ha|Ha];
    [rewrite (bool_decide_true _ Ha)|rewrite (bool_decide_false _ Ha)].
  { split.
    - intros _. exists [target]. apply Hfound. apply (steps_snoc _ [] (status x)); [constructor|done].
    - intros []. destruct allow_walk; [|done]. split; [|by apply rtc_once].
      intros ->. by apply no_self_transition in Ha. }
  destruct allow_walk; [|by split]. simpl.
  destruct (decide (target = status x)) as [->|Hne].
  { rewrite walk_visited by left. split; [by intros []|done]. }
  pose proof (walk_start order Ho (status x) target Hne) as Hw.
  destruct (walk order target WALK [status x] [(status x, [])]) as [path|].
  - split; [intros _; exists path; by apply Hfound|].
    intros []. split; [done|]. by eapply steps_rtc.
  - split; [by intros []|done].
Qed.

(** ** The shape of the tree

    Ranks grow along the links from a task to the tasks derived from it, so the links cannot
    close a cycle; the children lists are the inverse of the parent links. *)
Record tinv (t : TaskTree) : Prop := {
  t_keys : NoDup (dkeys (_tasks t));
  t_dom : ∀ c p, parent_of c t = Some p → c ∈ dkeys (_tasks t) ∧ p ∈ dkeys (_tasks t);
  t_kids : ∀ p c, c ∈ _child_map_children p t ↔ parent_of c t = Some p;
  t_nodup : ∀ p, NoDup (_child_map_children p t);
  t_rank : ∃ rank : string → nat, (∀ i, i ∈ dkeys (_tasks t) → rank i < count t) ∧
             ∀ c p, parent_of c t = Some p → rank p < rank c }.

(** Only statuses differ. *)
Definition same_shape (t t' : TaskTree) : Prop :=
  dkeys (_tasks t') = dkeys (_tasks t) ∧ _children_map t' = _children_map t ∧
  _parent_map t' = _parent_map t ∧ _assignee_map t' = _assignee_map t.

#[global] Instance same_shape_preorder : PreOrder same_shape.
Proof.
  split; [by intros t|].
  intros t u v (H1 & H2 & H3 & H4) (H5 & H6 & H7 & H8). repeat split; congruence.
Qed.

Lemma set_shape id x t : id ∈ dkeys (_tasks t) → same_shape t (set_tasks (dset id x) t).
Proof. intros H. repeat split. simpl. rewrite dkeys_dset. by rewrite decide_True. Qed.

Lemma count_keys t : count t = length (dkeys (_tasks t)).
Proof. symmetry. apply length_map. Qed.

Lemma shape_kids t t' p : same_shape t t' → _child_map_children p t' = _child_map_children p t.
Proof. intros (_ & H & _). unfold _child_map_children. by rewrite H. Qed.
Lemma shape_parent t t' c : same_shape t t' → parent_of c t' = parent_of c t.
Proof. intros (_ & _ & H & _). unfold parent_of. by rewrite H. Qed.

Lemma tinv_ext t t' :
  dkeys (_tasks t') = dkeys (_tasks t) → (∀ c, parent_of c t' = parent_of c t) →
  (∀ p, _child_map_children p t' = _child_map_children p t) → tinv t → tinv t'.
Proof.
  intros Hk Hp Hch [H1 H2 H3 H4 (rank & Hb & Hr)].
  assert (Hc : count t' = count t) by by rewrite !count_keys, Hk.
  split.
  - by rewrite Hk.
  - intros c p. rewrite Hk, Hp. apply H2.
  - intros p c. rewrite Hch, Hp. apply H3.
  - intros p. rewrite Hch. apply H4.
  - exists rank. rewrite Hc, Hk. split; [done|]. intros c p. rewrite Hp. apply Hr.
Qed.
Lemma tinv_shape t t' : same_shape t t' → tinv t → tinv t'.
Proof.
  intros Hs. apply tinv_ext; [apply Hs|intros c; by apply shape_parent|intros p; by apply shape_kids].
Qed.

(** Ranks without a bound are enough: the number of tasks of a smaller rank is one below the
    number of tasks. *)
Lemma rank_bounded (l : list string) (r : string → nat) :
  ∃ r' : string → nat, (∀ x, x ∈ l → r' x < length l) ∧
    ∀ x y, x ∈ l → r x < r y → r' x < r' y.
Proof.
  exists (λ x, length (List.filter (λ y, r y <? r x) l)). split.
  - intros x Hx. induction l as [|z l IH]; [by apply elem_of_nil in Hx|]. simpl.
    pose proof (List.filter_length_le (λ y, r y <? r x) l).
    destruct (Nat.ltb_spec (r z) (r x)); simpl; [|lia].
    apply elem_of_cons in Hx as [->|Hx]; [lia|]. specialize (IH Hx). lia.
  - intros x y Hx Hxy. induction l as [|z l IH]; [by apply elem_of_nil in Hx|].
    assert (length (List.filter (λ y, r y <? r x) l) ≤ length (List.filter (λ z, r z <? r y) l)) as Hle.
    { clear -Hxy. induction l as [|z l IH]; [done|]. simpl.
      destruct (Nat.ltb_spec (r z) (r x)), (Nat.ltb_spec (r z) (r y)); simpl; lia. }
    simpl. apply elem_of_cons in Hx as [->|Hx].
    + destruct (Nat.ltb_spec (r z) (r z)), (Nat.ltb_spec (r z) (r y)); simpl; lia.
    + specialize (IH Hx). destruct (Nat.ltb_spec (r z) (r x)), (Nat.ltb_spec (r z) (r y)); simpl; lia.
Qed.

Lemma tinv_init : tinv TaskTree_init.
Proof.
  split.
  - apply NoDup_nil_2.
  - done.
  - intros p c. unfold _child_map_children. simpl. split; [by intros ?%elem_of_nil|done].
  - intros p. apply NoDup_nil_2.
  - exists (λ _, 0). split; [by intros i ?%elem_of_nil|done].
Qed.

Lemma update_shape order id target tick w t :
  same_shape t (update_status order id target tick w t).2.
Proof.
  unfold update_status, get. destruct (dget id (_tasks t)) eqn:E; [|done].
  destruct (if can_transition_to _ _ then _ else _); [|done].
  destruct (transitions _ _ _). by apply set_shape, (dget_keys _ _ _ E).
Qed.
Lemma expire_shape id tick t : same_shape t (expire_task id tick t).2.
Proof.
  unfold expire_task, get. destruct (dget id (_tasks t)) eqn:E; [|done].
  destruct (is_terminal _); [done|]. destruct (transition_to _ _ _); [done|].
  by apply set_shape, (dget_keys _ _ _ E).
Qed.
Lemma cancel_shape fuel stack tick l t r t' :
  cancel_loop fuel stack tick l t = Some (r, t') → same_shape t t'.
Proof.
  revert stack l t. induction fuel as [|fuel IH]; simpl; [done|]. intros stack l t.
  destruct stack as [|tid stack]; [by intros [= _ <-]|].
  destruct (dget tid (_tasks t)) eqn:E; [|apply IH].
  destruct (is_terminal _); [apply IH|].
  destruct (transition_to _ _ _); [by intros [= _ <-]|].
  intros H%IH. etrans; [|done]. by apply set_shape, (dget_keys _ _ _ E).
Qed.

(** Creating a task adds a leaf. *)
Lemma create_inv id ti asr ase de p pr dl ro tick t :
  tinv t → tinv (create id ti asr ase de p pr dl ro tick t).2.
Proof.
  intros Hi. pose proof Hi as [H1 H2 H3 H4 (rank & Hb & Hr)]. unfold create.
  destruct (dmem id (_tasks t)) eqn:Hm; [done|].
  assert (Hid : id ∉ dkeys (_tasks t)) by by rewrite <-dmem_keys, Hm.
  assert (Hleaf : ∀ c, parent_of c t ≠ Some id) by (intros c Hc; by destruct (H2 _ _ Hc)).
  assert (Hroot : ∀ q, parent_of id t ≠ Some q) by (intros q Hq; by destruct (H2 _ _ Hq)).
  destruct (match p with Some p => _ | None => None end) eqn:Ep; [done|].
  assert (Hp : ∀ q, p = Some q → q ∈ dkeys (_tasks t)).
  { intros q ->. destruct (dmem q (_tasks t)) eqn:Eq; [by apply dmem_keys|done]. }
  clear Ep. simpl.
  assert (Hk : ∀ x, dkeys (dset id x (_tasks t)) = (dkeys (_tasks t) ++ [id])%list).
  { intros x. rewrite dkeys_dset. by rewrite decide_False. }
  assert (Hpar : ∀ c, mjoin (dget c (dset id p (_parent_map t))) =
                      if decide (c = id) then p else parent_of c t).
  { intros c. unfold parent_of. rewrite dget_dset. by case_decide. }
  assert (Hch : ∀ q, default [] (dget q (match p with
                       | Some p => append_to p id (_children_map t)
                       | None => _children_map t end)) =
                     (_child_map_children q t ++ (if decide (p = Some q) then [id] else []))%list).
  { intros q. unfold _child_map_children. destruct p as [p|]; [|by rewrite app_nil_r].
    unfold append_to. rewrite dget_dset.
    destruct (decide (q = p)) as [->|Hne]; [by rewrite decide_True|].
    rewrite decide_False by congruence. by rewrite app_nil_r. }
  split; unfold parent_of, _child_map_children, count; simpl.
  - by apply dkeys_dset_NoDup.
  - intros c q. rewrite Hpar, Hk. case_decide; subst; set_solver.
  - intros q c. rewrite Hpar, Hch, elem_of_app. fold (_child_map_children q t). rewrite H3.
    case_decide as E1; case_decide as E2; subst; set_solver.
  - intros q. rewrite Hch. apply NoDup_app. split; [apply H4|].
    split; [|case_decide; [apply NoDup_singleton|constructor]].
    intros c Hc. case_decide; [|apply not_elem_of_nil].
    intros ->%list_elem_of_singleton. apply H3 in Hc. by eapply Hroot.
  - exists (λ i, if decide (i = id) then count t else rank i).
    replace (length (dset id _ (_tasks t))) with (S (count t)).
    2: { rewrite <-(length_map fst (dset id _ _)), count_keys.
         match goal with |- _ = length (map fst ?d) => change (map fst d) with (dkeys d) end.
         rewrite Hk, length_app. simpl. lia. }
    split.
    + intros i. rewrite Hk. case_decide; [lia|].
      intros [Hin|]%elem_of_app; [specialize (Hb i Hin); lia|set_solver].
    + intros c q. rewrite Hpar. case_decide; subst.
      * intros Hq. rewrite decide_False by (intros ->; by apply Hid, Hp). by apply Hb, Hp.
      * intros Hq. rewrite decide_False by (intros ->; by eapply Hleaf). by apply Hr.
Qed.

(** [x] is [r] or derives from it, in any number of steps. *)
Definition link (t : TaskTree) (c p : string) : Prop := parent_of c t = Some p.
Definition below (t : TaskTree) (r x : string) : Prop := rtc (link t) x r.

(** The order in which both loops over a subtree meet its tasks. *)
Fixpoint dfs (fuel : nat) (stack : list string) (t : TaskTree) : option (list string) :=
  match fuel with
  | O => None
  | S f =>
      match stack with
      | [] => Some []
      | n :: stack' => cons n <$> dfs f (rev (_child_map_children n t) ++ stack')%list t
      end
  end.

Section Dfs.
Variables (t : TaskTree) (root : string).
Hypothesis inv : tinv t.

Record dinv (visited stack : list string) : Prop := {
  d_nodup : NoDup (visited ++ stack);
  d_known : ∀ x, x ∈ (visited ++ stack)%list → x ∈ dkeys (_tasks t) ∧ below t root x;
  d_root : root ∈ (visited ++ stack)%list;
  d_from : ∀ x, x ∈ (visited ++ stack)%list → x = root ∨ ∃ p, p ∈ visited ∧ link t x p;
  d_closed : ∀ p c, p ∈ visited → link t c p → c ∈ (visited ++ stack)%list }.

Lemma below_rank rank x : (∀ c p, parent_of c t = Some p → rank p < rank c) →
  below t root x → rank root ≤ rank x.
Proof.
  intros Hr. unfold below. induction 1 as [|x y z Hxy _ IH]; [done|].
  specialize (Hr _ _ Hxy). lia.
Qed.

Lemma dinv_pop visited n stack : dinv visited (n :: stack) →
  dinv (visited ++ [n]) (rev (_child_map_children n t) ++ stack).
Proof.
  intros [H1 H2 H3 H4 H5]. destruct (t_rank t inv) as (rank & _ & Hr).
  assert (Hmem : ∀ x, x ∈ ((visited ++ [n]) ++ rev (_child_map_children n t) ++ stack)%list ↔
                      x ∈ (visited ++ n :: stack)%list ∨ link t x n).
  { intros x. rewrite !elem_of_app, elem_of_rev, (t_kids t inv). unfold link. set_solver. }
  assert (Hn : n ∈ (visited ++ n :: stack)%list) by set_solver.
  assert (Hfresh : ∀ c, link t c n → c ∉ (visited ++ n :: stack)%list).
  { intros c Hc Hin. destruct (H4 c Hin) as [->|(p & Hp & Hl)].
    - pose proof (below_rank rank n Hr (proj2 (H2 n Hn))). specialize (Hr _ _ Hc). lia.
    - unfold link in *. assert (p = n) as -> by congruence.
      apply NoDup_app in H1 as (_ & Hd & _). apply (Hd n Hp). left. }
  split.
  - rewrite <-app_assoc. simpl.
    rewrite (Permutation_app_comm (rev _) stack), app_comm_cons, app_assoc.
    apply NoDup_app. split; [done|]. split.
    + intros x Hx Hc. rewrite elem_of_rev, (t_kids t inv) in Hc. by eapply Hfresh.
    + rewrite <-(Permutation_rev (_child_map_children n t)). apply (t_nodup t inv).
  - intros x [Hx|Hx]%Hmem; [by apply H2|]. split; [by apply (t_dom t inv _ _ Hx)|].
    eapply rtc_l; [done|apply H2, Hn].
  - apply Hmem. by left.
  - intros x [Hx|Hx]%Hmem; [destruct (H4 x Hx) as [|(p & Hp & Hl)]; [by left|right]|right].
    + exists p. split; [set_solver|done].
    + exists n. split; [set_solver|done].
  - intros p c Hp Hl. apply Hmem. apply elem_of_app in Hp as [Hp|Hp]; [left; eauto|].
    apply list_elem_of_singleton in Hp as ->. by right.
Qed.

Lemma dfs_spec fuel visited stack :
  dinv visited stack → count t - length visited < fuel →
  ∃ l, dfs fuel stack t = Some l ∧ NoDup (visited ++ l) ∧
       ∀ x, x ∈ (visited ++ l)%list ↔ below t root x.
Proof.
  revert visited stack. induction fuel as [|fuel IH]; intros visited stack Hd Hf; [lia|].
  destruct stack as [|n stack]; simpl.
  - exists []. rewrite app_nil_r. destruct Hd as [H1 H2 H3 _ H5].
    rewrite app_nil_r in H1, H3. setoid_rewrite app_nil_r in H2. setoid_rewrite app_nil_r in H5.
    split; [done|]. split; [done|]. intros x. split; [intros Hx; by destruct (H2 x Hx)|].
    intros Hx. unfold below in Hx. induction Hx as [|x y z Hxy _ IHx]; eauto.
  - pose proof (dinv_pop _ _ _ Hd) as Hd'. destruct (IH _ _ Hd') as (l & -> & Hl & Hx).
    { assert (length (visited ++ n :: stack) ≤ count t) as Hle.
      { rewrite count_keys. apply submseteq_length, NoDup_submseteq; [by apply Hd|].
        intros x Hin. by destruct (d_known _ _ Hd x Hin). }
      rewrite !length_app in *. simpl in *. lia. }
    exists (n :: l). rewrite <-app_assoc in Hl. split; [done|]. split; [done|].
    intros x. rewrite <-Hx, <-app_assoc. done.
Qed.

Lemma dfs_start fuel : root ∈ dkeys (_tasks t) → count t < fuel →
  ∃ l, dfs fuel [root] t = Some l ∧ NoDup l ∧ ∀ x, x ∈ l ↔ below t root x.
Proof.
  intros Hr Hf. apply (dfs_spec fuel [] [root]); [|simpl; lia].
  split; simpl.
  - apply NoDup_singleton.
  - intros x ->%list_elem_of_singleton. split; [done|apply rtc_refl].
  - left.
  - intros x ->%list_elem_of_singleton. by left.
  - by intros p c ?%elem_of_nil.
Qed.
End Dfs.

(** [add_child] keeps the tree when the new child has no parent and the new parent is not
    below it; and it changes nothing when it names the link that is there. *)
Definition add_child_ok (p child : string) (t : TaskTree) : Prop :=
  parent_of child t = Some p ∨ (parent_of child t = None ∧ ¬ below t child p).

Lemma add_child_parent p child t :
  p ∈ dkeys (_tasks t) → child ∈ dkeys (_tasks t) →
  (∀ c, parent_of c (add_child p child t).2 = if decide (c = child) then Some p else parent_of c t) ∧
  (∀ q, _child_map_children q (add_child p child t).2 =
     if decide (q = p ∧ child ∉ _child_map_children p t)
     then (_child_map_children q t ++ [child])%list else _child_map_children q t) ∧
  _tasks (add_child p child t).2 = _tasks t.
Proof.
  intros Hp Hc. unfold add_child. rewrite !(proj2 (dmem_keys _ _)) by done.
  unfold parent_of, _child_map_children. simpl. split_and!; [| |done].
  - intros c. rewrite dget_dset. by case_decide.
  - intros q. rewrite dget_dset. destruct (decide (q = p)) as [->|].
    + destruct (decide (child ∈ _)); [rewrite decide_False by tauto|rewrite decide_True by done]; done.
    + by rewrite decide_False by tauto.
Qed.

Lemma add_child_inv p child t : add_child_ok p child t → tinv t → tinv (add_child p child t).2.
Proof.
  intros Hok Hi. pose proof Hi as [H1 H2 H3 H4 (rank & _ & Hr)].
  destruct (decide (p ∈ dkeys (_tasks t))) as [Hp|Hp].
  2: { unfold add_child. destruct (dmem p (_tasks t)) eqn:E; [|done]. by apply dmem_keys in E. }
  destruct (decide (child ∈ dkeys (_tasks t))) as [Hc|Hc].
  2: { unfold add_child. destruct (negb _); [done|].
       destruct (dmem child (_tasks t)) eqn:E; [|done]. by apply dmem_keys in E. }
  destruct (add_child_parent p child t Hp Hc) as (Hpar & Hch & Ht).
  set (t' := (add_child p child t).2) in *. clearbody t'. destruct Hok as [Hold|[Hroot Hnb]].
  { assert (child ∈ _child_map_children p t) as Hin by by apply H3.
    apply (tinv_ext t); [by rewrite Ht| | |done].
    - intros c. rewrite Hpar. by destruct (decide (c = child)) as [->|].
    - intros q. rewrite Hch. by rewrite decide_False by tauto. }
  assert (Hfresh : ∀ q, child ∉ _child_map_children q t) by (intros q E%H3; congruence).
  assert (Hch' : ∀ q c, c ∈ _child_map_children q t' ↔ c ∈ _child_map_children q t ∨ (q = p ∧ c = child)).
  { intros q c. rewrite Hch. specialize (Hfresh p). destruct (decide _) as [[-> _]|E].
    - rewrite elem_of_app, list_elem_of_singleton. tauto.
    - split; [by left|intros [?|[-> ->]]; [done|tauto]]. }
  split; rewrite ?Ht.
  - done.
  - intros c q. rewrite Hpar. destruct (decide (c = child)) as [->|]; [by intros [= <-]|apply H2].
  - intros q c. rewrite Hch', H3, Hpar. destruct (decide (c = child)) as [->|]; [rewrite Hroot|]; naive_solver.
  - intros q. rewrite Hch. destruct (decide _); [|done]. apply NoDup_app. split; [done|].
    split; [|apply NoDup_singleton]. intros x Hx ->%list_elem_of_singleton. by eapply Hfresh.
  - destruct (dfs_start t child Hi (S (count t)) Hc) as (l & _ & _ & Hl); [lia|].
    destruct (rank_bounded (dkeys (_tasks t))
                (λ x, if decide (x ∈ l) then S (rank p) + rank x else rank x)) as (r' & Hb' & Hr').
    exists r'. unfold count. rewrite Ht. change (length (_tasks t)) with (count t).
    rewrite count_keys. split; [done|]. intros c q. rewrite Hpar. destruct (decide (c = child)) as [->|].
    + intros [= <-]. apply Hr'; [done|]. rewrite (decide_True (P := child ∈ l)) by apply Hl, rtc_refl.
      rewrite decide_False by by rewrite Hl. lia.
    + intros Hq. specialize (Hr _ _ Hq). apply Hr'; [by apply (H2 _ _ Hq)|].
      assert (c ∈ l ↔ q ∈ l) as Hcq.
      { rewrite !Hl. split; intros Hb.
        - inversion Hb as [|? y ? Hy]; subst; [done|]. unfold link in Hy. by simplify_eq.
        - by eapply rtc_l. }
      destruct (decide (c ∈ l)), (decide (q ∈ l)); try tauto; lia.
Qed.

Lemma dfs_shape fuel stack t t' : same_shape t t' → dfs fuel stack t' = dfs fuel stack t.
Proof.
  intros Hs. revert stack. induction fuel as [|fuel IH]; intros stack; [done|]. simpl.
  destruct stack as [|n stack]; [done|]. by rewrite (shape_kids _ _ _ Hs), IH.
Qed.

(** ** Subtrees and ancestors *)

Lemma subtree_dfs fuel stack result t l :
  dfs fuel stack t = Some l → (∀ x, x ∈ l → x ∈ dkeys (_tasks t)) →
  subtree_loop fuel stack result t = Some (inr (result ++ l)%list).
Proof.
  revert stack result l. induction fuel as [|fuel IH]; simpl; [done|].
  intros stack result l Hl Hk. destruct stack as [|n stack].
  { injection Hl as <-. by rewrite app_nil_r. }
  destruct (dfs fuel _ t) as [l'|] eqn:E; [|done]. injection Hl as <-.
  assert (dmem n (_tasks t) = true) as -> by (apply dmem_keys, Hk; left).
  erewrite IH; [|done|intros; apply Hk; by right]. by rewrite <-app_assoc.
Qed.

Lemma ancestor_loop_spec t a rank c fuel :
  (∀ c p, parent_of c t = Some p → rank p < rank c) → rank c < fuel →
  ∃ b : bool, ancestor_loop (S fuel) a (Some c) t = Some b ∧ (b ↔ below t a c).
Proof.
  intros Hr. revert c. induction fuel as [|fuel IH]; intros c Hf; [lia|].
  change (ancestor_loop (S (S fuel)) a (Some c) t) with
    (if decide (c = a) then Some true else ancestor_loop (S fuel) a (parent_of c t) t).
  destruct (decide (c = a)) as [->|Hne].
  { exists true. split; [done|]. split; [intros _; apply rtc_refl|done]. }
  destruct (parent_of c t) as [p|] eqn:Ep.
  - destruct (IH p) as (b & Hb & Hbel); [specialize (Hr _ _ Ep); lia|].
    exists b. split; [done|]. rewrite Hbel. split; intros H; [by eapply rtc_l|].
    inversion H as [|? y ? Hy]; subst; [done|]. unfold link in Hy. by simplify_eq.
  - exists false. split; [done|]. split; [done|]. intros H.
    inversion H as [|? y ? Hy]; subst; [done|]. unfold link in Hy. by simplify_eq.
Qed.

(** The trees the operations build, with those calls of [add_child] that attach a task without a
    parent to one that is not below it; see [add_child_cycle] and [add_child_moves] for others. *)
Inductive built : TaskTree → Prop :=
| built_init : built TaskTree_init
| built_create id ti asr ase de p pr dl ro tick t :
    built t → built (create id ti asr ase de p pr dl ro tick t).2
| built_add_child p child t : built t → add_child_ok p child t → built (add_child p child t).2
| built_update order id target tick w t :
    built t → built (update_status order id target tick w t).2
| built_expire id tick t : built t → built (expire_task id tick t).2
| built_cancel fuel id tick t r t' :
    built t → cancel_task fuel id tick t = Some (r, t') → built t'.

Lemma built_tinv t : built t → tinv t.
Proof.
  induction 1 as [|id ti asr ase de p pr dl ro tick t _ IH|p child t _ IH Hok|order id target tick w t _ IH
                 |id tick t _ IH|fuel id tick t r t' _ IH Hc].
  - apply tinv_init.
  - by apply create_inv.
  - by apply add_child_inv.
  - eapply tinv_shape; [apply update_shape|done].
  - eapply tinv_shape; [apply expire_shape|done].
  - eapply tinv_shape; [by eapply cancel_shape|done].
Qed.

(** On a tree the operations have built, the two views of derivation agree: [subtree]
    returns, each once, exactly the tasks for which [is_ancestor] holds, and both end within
    as many turns as there are tasks, up to two. *)
Theorem subtree_is_ancestor t a fuel :
  built t → a ∈ dkeys (_tasks t) → S (count t) < fuel →
  ∃ l, subtree fuel a t = Some (inr l) ∧ NoDup l ∧
    ∀ b, b ∈ dkeys (_tasks t) → is_ancestor fuel a b t = Some (bool_decide (b ∈ l)).
Proof.
  intros Hi%built_tinv Ha Hf. destruct (dfs_start t a Hi fuel Ha) as (l & Hl & Hn & Hx); [lia|].
  exists l. unfold subtree, is_ancestor. rewrite (proj2 (dmem_keys a _)) by done.
  assert (Hk : ∀ x, x ∈ l → x ∈ dkeys (_tasks t)).
  { intros x Hin%Hx. inversion Hin as [|? y ? Hy]; subst; [done|]. by apply (t_dom t Hi) in Hy as []. }
  rewrite (subtree_dfs _ _ _ _ _ Hl Hk). split; [done|]. split; [done|].
  intros b Hb. rewrite (proj2 (dmem_keys b _)) by done. simpl.
  destruct (t_rank t Hi) as (rank & Hbound & Hr). specialize (Hbound b Hb).
  destruct fuel as [|fuel]; [lia|].
  destruct (ancestor_loop_spec t a rank b fuel Hr) as (r & -> & Hbel); [lia|].
  f_equal. rewrite <-Hx in Hbel. destruct r; symmetry.
  - apply bool_decide_true. by apply Hbel.
  - apply bool_decide_false. intros Hin. by apply Hbel in Hin.
Qed.

(** ** Cancellation *)

Definition kill (tick : Z) (x : Task) : Task :=
  if is_terminal x then x else with_status CANCELLED tick (completed_at_tick x) x.

(** Neither terminal nor cancellable. *)
Definition stuck (x : Task) : Prop := status x = SUBMITTED ∨ status x = REVIEWING.
#[global] Instance stuck_dec x : Decision (stuck x).
Proof. unfold stuck. apply _. Defined.

Lemma cancel_transition tick x : is_terminal x = false →
  transition_to CANCELLED tick x =
    if decide (stuck x) then inl (Invalid (status x) CANCELLED) else inr (kill tick x).
Proof.
  intros Ht. unfold kill. rewrite Ht. unfold transition_to, can_transition_to.
  destruct (decide (stuck x)) as [[H|H]|H]; [by rewrite H..|].
  rewrite bool_decide_true; [by rewrite decide_False|].
  unfold is_terminal in Ht. unfold stuck in H.
  destruct (status x); try discriminate Ht; set_solver.
Qed.

Definition live (t : TaskTree) (i : string) : bool :=
  match dget i (_tasks t) with Some x => negb (is_terminal x) | None => false end.

Lemma filter_live t t' (l : list string) :
  (∀ i, i ∈ l → dget i (_tasks t') = dget i (_tasks t)) →
  List.filter (live t') l = List.filter (live t) l.
Proof.
  intros H. apply List.filter_ext_in. intros i Hi%list_elem_of_In. unfold live. by rewrite H.
Qed.

Lemma stuck_live x : stuck x → is_terminal x = false.
Proof. intros [H|H]; unfold is_terminal; by rewrite H. Qed.

Section Cancel.
Variable tick : Z.

Lemma cancel_dfs fuel stack c t l :
  dfs fuel stack t = Some l → NoDup l → (∀ i, i ∈ l → i ∈ dkeys (_tasks t)) →
  (∀ i x, i ∈ l → dget i (_tasks t) = Some x → ¬ stuck x) →
  ∃ t', cancel_loop fuel stack tick c t = Some (inr (c ++ List.filter (live t) l)%list, t') ∧
    ∀ i, dget i (_tasks t') =
         (if decide (i ∈ l) then kill tick <$> dget i (_tasks t) else dget i (_tasks t)).
Proof.
  revert stack c t l. induction fuel as [|fuel IH]; simpl; [done|].
  intros stack c t l Hl Hn Hk Hs. destruct stack as [|n stack].
  { injection Hl as <-. exists t. rewrite app_nil_r. done. }
  destruct (dfs fuel _ t) as [l'|] eqn:E; [|done]. injection Hl as <-.
  apply NoDup_cons in Hn as [Hnl Hn].
  destruct (keys_dget n (_tasks t)) as [x Hx]; [apply Hk; left|]. rewrite Hx.
  assert (Hlive : live t n = negb (is_terminal x)) by (unfold live; by rewrite Hx).
  simpl. rewrite Hlive. destruct (is_terminal x) eqn:Et; simpl.
  - destruct (IH _ c t l' E Hn) as (t' & -> & Ht');
      [intros; apply Hk; by right|intros ???; apply Hs; by right|].
    exists t'. split; [done|]. intros i. rewrite Ht'.
    destruct (decide (i = n)) as [->|Hi].
    + rewrite decide_False, decide_True, Hx by (done || left). simpl. unfold kill. by rewrite Et.
    + destruct (decide (i ∈ l')); [by rewrite decide_True by (by right)|].
      rewrite decide_False; [done|]. by apply not_elem_of_cons.
  - rewrite cancel_transition by done.
    rewrite decide_False by (apply (Hs n x); [left|done]).
    set (t1 := set_tasks (dset n (kill tick x)) t).
    assert (Hsh : same_shape t t1) by (apply set_shape, Hk; left).
    assert (Hget : ∀ i, i ≠ n → dget i (_tasks t1) = dget i (_tasks t))
      by (intros; by apply dget_dset_ne).
    assert (Hne : ∀ i, i ∈ l' → i ≠ n) by (intros i Hi ->; done).
    destruct (IH (rev (_child_map_children n t) ++ stack)%list (c ++ [n])%list t1 l')
      as (t' & -> & Ht'); [by rewrite (dfs_shape _ _ _ _ Hsh)|done| | |].
    + intros i Hi. rewrite (proj1 Hsh). apply Hk. by right.
    + intros i y Hi. rewrite Hget by auto. apply Hs. by right.
    + exists t'. rewrite <-app_assoc, (filter_live t t1) by auto. split; [done|].
      intros i. rewrite Ht'. destruct (decide (i = n)) as [->|Hi].
      * rewrite decide_False, decide_True, Hx by (done || left). simpl. by rewrite dget_dset_eq.
      * rewrite Hget by done. destruct (decide (i ∈ l')); [by rewrite decide_True by (by right)|].
        rewrite decide_False; [done|]. by apply not_elem_of_cons.
Qed.

Lemma cancel_dfs_stuck fuel stack c t l :
  dfs fuel stack t = Some l → NoDup l → (∀ i, i ∈ l → i ∈ dkeys (_tasks t)) →
  (∃ i x, i ∈ l ∧ dget i (_tasks t) = Some x ∧ stuck x) →
  ∃ s t', cancel_loop fuel stack tick c t = Some (inl (Invalid s CANCELLED), t').
Proof.
  revert stack c t l. induction fuel as [|fuel IH]; simpl; [done|].
  intros stack c t l Hl Hn Hk (i & y & Hi & Hy & Hs). destruct stack as [|n stack].
  { injection Hl as <-. by apply elem_of_nil in Hi. }
  destruct (dfs fuel _ t) as [l'|] eqn:E; [|done]. injection Hl as <-.
  apply NoDup_cons in Hn as [Hnl Hn].
  destruct (keys_dget n (_tasks t)) as [x Hx]; [apply Hk; left|]. rewrite Hx.
  destruct (is_terminal x) eqn:Et.
  - eapply IH; [done|done|intros; apply Hk; by right|]. exists i, y.
    apply elem_of_cons in Hi as [->|Hi]; [|done].
    simplify_eq. apply stuck_live in Hs. congruence.
  - rewrite cancel_transition by done. destruct (decide (stuck x)); [eauto|].
    set (t1 := set_tasks (dset n (kill tick x)) t).
    assert (Hsh : same_shape t t1) by (apply set_shape, Hk; left).
    eapply (IH _ _ t1 l'); [by rewrite (dfs_shape _ _ _ _ Hsh)|done| |].
    + intros j Hj. rewrite (proj1 Hsh). apply Hk. by right.
    + exists i, y. apply elem_of_cons in Hi as [->|Hi]; [by simplify_eq|].
      split; [done|]. split; [|done]. simpl. by rewrite dget_dset_ne by (intros ->; done).
Qed.
End Cancel.

(** C33: on a tree built by [create], by [add_child] where it attaches a task without a parent
    to one that is not below it, and by the status operations, cancelling a task ends within as
    many turns as there are tasks, up to two.  When no
    task derived from it waits for a review, every task below it that was not terminal is
    cancelled and listed, and no other task changes; when one does, the call raises. *)
Theorem cancel_task_cascade t id tick fuel :
  built t → id ∈ dkeys (_tasks t) → count t < fuel →
  ((∀ i x, below t id i → dget i (_tasks t) = Some x → ¬ stuck x) →
   ∃ l t', cancel_task fuel id tick t = Some (inr l, t') ∧ same_shape t t' ∧
     (∀ i, i ∈ l ↔ below t id i ∧ live t i = true) ∧
     (∀ i x, dget i (_tasks t) = Some x →
        (below t id i → dget i (_tasks t') = Some (kill tick x)) ∧
        (¬ below t id i → dget i (_tasks t') = Some x))) ∧
  ((∃ i x, below t id i ∧ dget i (_tasks t) = Some x ∧ stuck x) →
   ∃ s t', cancel_task fuel id tick t = Some (inl (Invalid s CANCELLED), t')).
Proof.
  intros Hi%built_tinv Hid Hf. destruct (dfs_start t id Hi fuel Hid Hf) as (l & Hl & Hn & Hx).
  assert (Hk : ∀ x, x ∈ l → x ∈ dkeys (_tasks t)).
  { intros x Hin%Hx. inversion Hin as [|? y ? Hy]; subst; [done|]. by apply (t_dom t Hi) in Hy as []. }
  unfold cancel_task. split.
  - intros Hs. destruct (cancel_dfs tick fuel [id] [] t l Hl Hn Hk) as (t' & Ht & Hget).
    { intros i x Hin. by apply Hs, Hx. }
    exists (List.filter (live t) l), t'. split; [done|].
    split; [by eapply cancel_shape|]. split.
    + intros i. by rewrite list_elem_of_In, List.filter_In, <-list_elem_of_In, Hx.
    + intros i x Hix. rewrite Hget, Hix, <-Hx. case_decide; by split.
  - intros (i & x & Hb & Hix & Hst). apply (cancel_dfs_stuck tick fuel [id] [] t l Hl Hn Hk).
    exists i, x. by rewrite Hx.
Qed.

(** [add_child] accepts a task as its own child, and no loop over the tree then ends. *)
Definition cyclic (x : Task) : TaskTree := mkTree [("a", x)] [("a", ["a"])] [("a", Some "a")] [].
Lemma add_child_cycle x fuel :
  add_child "a" "a" (mkTree [("a", x)] [] [("a", None)] []) = (None, cyclic x) ∧
  ancestors fuel "a" (cyclic x) = None ∧ subtree fuel "a" (cyclic x) = None ∧
  (¬ stuck x → ∀ tick, cancel_task fuel "a" tick (cyclic x) = None).
Proof.
  assert (Ha : ∀ r, ancestors_loop fuel (Some "a") r (cyclic x) = None).
  { induction fuel as [|f IH]; intros r; [done|]. simpl. apply IH. }
  assert (Hs : ∀ r, subtree_loop fuel ["a"] r (cyclic x) = None).
  { clear Ha. induction fuel as [|f IH]; intros r; [done|]. simpl. apply IH. }
  split; [done|]. split; [apply Ha|]. split; [apply Hs|]. intros Ht tick. unfold cancel_task.
  clear Ha Hs. assert (Hterm : ∀ f y c, is_terminal y = true → cancel_loop f ["a"] tick c (cyclic y) = None).
  { intros f y c Hy. induction f as [|f IH]; [done|]. simpl. by rewrite Hy. }
  destruct fuel as [|f]; [done|]. simpl. destruct (is_terminal x) eqn:E; [by apply Hterm|].
  rewrite cancel_transition by done. rewrite decide_False by done.
  apply (Hterm f (kill tick x)). unfold kill. by rewrite E.
Qed.

(** It does not take a task off the children of its former parent: the task is then met twice,
    and still cancelled with either. *)
Lemma add_child_moves x :
  let t := mkTree [("a", x); ("b", x); ("c", x)] [("a", ["c"])] [("a", None); ("b", None); ("c", Some "a")] [] in
  child_ids "a" (add_child "b" "c" t).2 = inr ["c"] ∧ child_ids "b" (add_child "b" "c" t).2 = inr ["c"] ∧
  parent_of "c" (add_child "b" "c" t).2 = Some "b".
Proof. done. Qed.

(** ** Witnesses *)

Definition sample (id : string) (parent : option string) (t : TaskTree) : TaskTree :=
  (create id "title" "ceo" "eng" "" parent NORMAL None [] 1 t).2.
Definition sample_tree : TaskTree :=
  sample "c" (Some "b") (sample "d" (Some "a") (sample "b" (Some "a") (sample "a" None TaskTree_init))).
(** The same tree with one task handed in for review. *)
Definition sample_submitted : TaskTree :=
  (update_status TASK_TRANSITIONS "c" SUBMITTED 2 true sample_tree).2.

Lemma sample_built : built sample_tree.
Proof. unfold sample_tree, sample. repeat constructor. Qed.
Lemma sample_submitted_built : built sample_submitted.
Proof. unfold sample_submitted. constructor. apply sample_built. Qed.

Lemma update_status_walk_witness :
  ∃ path y, steps DRAFT path SUBMITTED ∧ transitions path 2 y.1 = (None, y.2) ∧
    (update_status TASK_TRANSITIONS "c" SUBMITTED 2 true sample_tree).1 = inr y.2.
Proof.
  destruct (dget "c" (_tasks sample_tree)) as [x|] eqn:E; [|by vm_compute in E].
  destruct (update_status_walk TASK_TRANSITIONS "c" SUBMITTED 2 true x sample_tree) as [H _];
    [done|done|].
  assert (status x = DRAFT) as Hx by (vm_compute in E; by injection E as <-).
  destruct H as (path & y & Hp & Ht & _ & Hu).
  - rewrite Hx. split; [done|].
    apply (steps_rtc _ [ASSIGNED; ACCEPTED; IN_PROGRESS; SUBMITTED]).
    apply (steps_snoc _ [ASSIGNED; ACCEPTED; IN_PROGRESS] IN_PROGRESS); [|by vm_compute; set_solver].
    apply (steps_snoc _ [ASSIGNED; ACCEPTED] ACCEPTED); [|by vm_compute; set_solver].
    apply (steps_snoc _ [ASSIGNED] ASSIGNED); [|by vm_compute; set_solver].
    apply (steps_snoc _ [] DRAFT); [constructor|by vm_compute; set_solver].
  - exists path, (x, y). rewrite Hx in Hp. rewrite Hu. done.
Defined.

Lemma subtree_is_ancestor_witness :
  ∃ l, subtree 6 "a" sample_tree = Some (inr l) ∧ NoDup l ∧
    ∀ b, b ∈ dkeys (_tasks sample_tree) →
      is_ancestor 6 "a" b sample_tree = Some (bool_decide (b ∈ l)).
Proof.
  apply (subtree_is_ancestor sample_tree "a" 6 sample_built); [|by vm_compute; lia].
  apply dmem_keys. reflexivity.
Defined.

Lemma cancel_task_cascade_witness :
  (∃ l t', cancel_task 5 "a" 3 sample_tree = Some (inr l, t') ∧ "c" ∈ l) ∧
  (∃ s t', cancel_task 5 "a" 3 sample_submitted = Some (inl (Invalid s CANCELLED), t')).
Proof.
  split.
  - destruct (cancel_task_cascade sample_tree "a" 3 5 sample_built) as [H _];
      [apply dmem_keys; reflexivity|by vm_compute; lia|].
    destruct H as (l & t' & Hc & _ & Hl & _).
    + intros i x _ Hx Hs. apply dget_Some_elem in Hx. vm_compute in Hx.
      repeat (apply elem_of_cons in Hx as [Hx|Hx];
              [injection Hx as -> ->; by destruct Hs|]).
      by apply elem_of_nil in Hx.
    + exists l, t'. split; [done|]. apply Hl. split; [|reflexivity].
      eapply rtc_l; [|eapply rtc_l; [|apply rtc_refl]]; reflexivity.
  - apply (cancel_task_cascade sample_submitted "a" 3 5 sample_submitted_built);
      [apply dmem_keys; reflexivity|by vm_compute; lia|].
    destruct (dget "c" (_tasks sample_submitted)) as [x|] eqn:E; [|by vm_compute in E].
    exists "c", x. split; [|split; [done|]].
    + eapply rtc_l; [|eapply rtc_l; [|apply rtc_refl]]; reflexivity.
    + left. vm_compute in E. by injection E as <-.
Defined.
