(* ===== verification/LegacyTransaction.v ===== *)
(** * The transaction buffer of the previous architecture (legacy/transaction.py)

    Agents stage effects during a tick; the commit phase validates them, resolves conflicts
    between agents and commits what is left.  Effects are objects of the buffer's dict, which
    the lists of committed effects and of the outbox refer to: here an effect's id is its
    reference, and only its status and its error change.

    The checks of [validate] are callbacks of the caller: they are parameters, called on what
    the code passes them. *)

From stdpp Require Import base gmap strings list pretty.
From Stdlib Require Import ZArith Ascii.
From S2P Require Import Prelude PyValue.

Open Scope string_scope.
Open Scope Z_scope.
Open Scope nat_scope.

(** ** Effects *)

Inductive EffectType :=
| EMAIL_SEND | EMAIL_DELIVER | FILE_WRITE | FILE_PATCH | FILE_DELETE | KB_CREATE | KB_WRITE
| KB_DELETE | LOCK_ACQUIRE | LOCK_RELEASE | TASK_CREATE | TASK_UPDATE | STATE_TRANSITION
| RECORD_UPSERT | RECORD_DELTA | RULE_ADVANCE | MEMORY_ENTRY_WRITE | MEMORY_ENTRY_EVICT
| MEMORY_ENTRY_FOLD | MEMORY_RECALL_CONFIG | MEMORY_RECALL | MEMORY_PIN.
#[global] Instance EffectType_eq_dec : EqDecision EffectType.
Proof. solve_decision. Defined.

Definition effect_value (t : EffectType) : string :=
  match t with
  | EMAIL_SEND => "email_send" | EMAIL_DELIVER => "email_deliver"
  | FILE_WRITE => "file_write" | FILE_PATCH => "file_patch" | FILE_DELETE => "file_delete"
  | KB_CREATE => "kb_create" | KB_WRITE => "kb_write" | KB_DELETE => "kb_delete"
  | LOCK_ACQUIRE => "lock_acquire" | LOCK_RELEASE => "lock_release"
  | TASK_CREATE => "task_create" | TASK_UPDATE => "task_update"
  | STATE_TRANSITION => "state_transition" | RECORD_UPSERT => "record_upsert"
  | RECORD_DELTA => "record_delta" | RULE_ADVANCE => "rule_advance"
  | MEMORY_ENTRY_WRITE => "memory_entry_write" | MEMORY_ENTRY_EVICT => "memory_entry_evict"
  | MEMORY_ENTRY_FOLD => "memory_entry_fold" | MEMORY_RECALL_CONFIG => "memory_recall_config"
  | MEMORY_RECALL => "memory_recall" | MEMORY_PIN => "memory_pin"
  end.

Definition _EXTERNAL_EFFECT_TYPES : list EffectType :=
  [EMAIL_SEND; EMAIL_DELIVER; FILE_WRITE; FILE_PATCH; FILE_DELETE].

(** How an effect is undone; the contract's prose is not part of the model. *)
Inductive InvertKind := RESTORE_PREVIOUS | REMOVE_CREATED | UNREGISTER | IRREVERSIBLE.

Inductive EffectStatus := STAGED | VALIDATED | COMMITTED | FAILED | ROLLED_BACK.
#[global] Instance EffectStatus_eq_dec : EqDecision EffectStatus.
Proof. solve_decision. Defined.

Record StagedEffect := mkEffect {
  effect_id : string;
  effect_type : EffectType;
  agent_id : string;
  resource : string;
  data : dict value;
  expected_version : option Z;
  lock_token : option string;
  status : EffectStatus;
  error : option string;
  side_effect : bool;
  group_id : string;
  atomicity : string;
  invert_data : dict value }.

Definition with_status (s : EffectStatus) (msg : option string) (e : StagedEffect) : StagedEffect :=
  mkEffect (effect_id e) (effect_type e) (agent_id e) (resource e) (data e) (expected_version e)
    (lock_token e) s msg (side_effect e) (group_id e) (atomicity e) (invert_data e).
Definition fail (msg : string) (e : StagedEffect) : StagedEffect := with_status FAILED (Some msg) e.
Definition has_status (s : EffectStatus) (e : StagedEffect) : bool := bool_decide (status e = s).

Record ConflictResolution := Resolution { winner : string; losers : list string; reason : string }.

(** ** The buffer *)

Record TransactionBuffer := mkBuffer {
  _effects : dict StagedEffect;
  _counter : N;
  _committed : list string;
  _conflict_resolutions : list ConflictResolution;
  _outbox : list string }.
Definition TransactionBuffer_init : TransactionBuffer := mkBuffer [] 0 [] [] [].

Definition dmap {V W} (f : V → W) (d : dict V) : dict W := map (λ kv, (kv.1, f kv.2)) d.
(** A loop that assigns to the attributes of the effects of the buffer. *)
Definition update (f : StagedEffect → StagedEffect) (b : TransactionBuffer) : TransactionBuffer :=
  mkBuffer (dmap f (_effects b)) (_counter b) (_committed b) (_conflict_resolutions b) (_outbox b).
Definition effects (b : TransactionBuffer) : list StagedEffect := dvalues (_effects b).

(** [f"eff.{n:06d}"] *)
Fixpoint zeros (n : nat) (s : string) : string :=
  match n with O => s | S n => String "0"%char (zeros n s) end.
Definition pad6 (n : N) : string := zeros (6 - String.length (pretty n)) (pretty n).
Definition eff_id (n : N) : string := "eff." +:+ pad6 n.

Definition stage (ty : EffectType) (agent res : string) (payload : dict value)
    (expected : option Z) (token : option string) (group atom : string) (b : TransactionBuffer) :
    StagedEffect * TransactionBuffer :=
  let n := N.succ (_counter b) in
  let e := mkEffect (eff_id n) ty agent res payload expected token STAGED None
             (bool_decide (ty ∈ _EXTERNAL_EFFECT_TYPES)) group atom [] in
  (e, mkBuffer (dset (eff_id n) e (_effects b)) n (_committed b) (_conflict_resolutions b)
        (_outbox b)).

Definition get_effects (agent : option string) (b : TransactionBuffer) : list StagedEffect :=
  match agent with
  | Some a => if nonempty a then List.filter (λ e, bool_decide (agent_id e = a)) (effects b)
              else effects b
  | None => effects b
  end.
Definition get_effects_for_resource (r : string) (b : TransactionBuffer) : list StagedEffect :=
  List.filter (λ e, bool_decide (resource e = r)) (effects b).

(** ** Validation *)

Record checks := Checks {
  check_version : option (string → Z → bool);
  check_lock : option (string → string → option string → bool);
  check_permission : option (string → string → string → bool);
  check_task : option (StagedEffect → option string) }.

Definition LOCKED_TYPES : list EffectType :=
  [KB_WRITE; KB_CREATE; KB_DELETE; FILE_WRITE; FILE_PATCH; FILE_DELETE].

(** The body of the first loop of [validate]. *)
Definition validate_effect (c : checks) (e : StagedEffect) : StagedEffect :=
  if negb (has_status STAGED e) then e else
  match (if decide (effect_type e = TASK_UPDATE)
         then match check_task c with Some f => f e | None => None end else None) with
  | Some msg => fail msg e
  | None =>
  if match expected_version e, check_version c with
     | Some v, Some f => negb (f (resource e) v)
     | _, _ => false
     end
  then fail ("Version conflict: expected " +:+ pretty (default 0%Z (expected_version e))) e else
  if bool_decide (effect_type e ∈ LOCKED_TYPES) &&
     match check_lock c with
     | Some f => negb (f (resource e) (agent_id e) (lock_token e))
     | None => false
     end
  then fail "Must hold lock to write" e else
  if match check_permission c with
     | Some f => negb (f (agent_id e) (resource e) (effect_value (effect_type e)))
     | None => false
     end
  then fail "Permission denied" e
  else with_status VALIDATED (error e) e
  end.

(** [d.setdefault(key(x), []).append(x)] for each [x] *)
Definition group_by {A} (key : A → string) (l : list A) : dict (list A) :=
  fold_left (λ d x, dset (key x) (default [] (dget (key x) d) ++ [x])%list d) l [].

Definition in_group (g : string) (e : StagedEffect) : bool := bool_decide (group_id e = g).
(** [effect.group_id and effect.atomicity == "group"] *)
Definition atomic (e : StagedEffect) : bool :=
  nonempty (group_id e) && bool_decide (atomicity e = "group").

(** One turn of the loop over the groups: the members that had not failed yet, and the buffer. *)
Definition fail_group (g : string) (b : TransactionBuffer) : list string * TransactionBuffer :=
  let members := List.filter (λ e, atomic e && in_group g e) (effects b) in
  if existsb (has_status FAILED) members
  then (map effect_id (List.filter (λ e, negb (has_status FAILED e)) members),
        update (λ e, if atomic e && in_group g e && negb (has_status FAILED e)
                     then fail ("group member failed (group " +:+ g +:+ ")") e else e) b)
  else ([], b).

Fixpoint fail_groups (gs : list string) (b : TransactionBuffer) : list string * TransactionBuffer :=
  match gs with
  | [] => ([], b)
  | g :: gs' => let '(f, b1) := fail_group g b in
                let '(f', b2) := fail_groups gs' b1 in (f ++ f', b2)%list
  end.

(** The ids of the effects that failed, and the buffer. *)
Definition validate (c : checks) (b : TransactionBuffer) : list string * TransactionBuffer :=
  let failures := map effect_id (List.filter
                    (λ e, has_status STAGED e && has_status FAILED (validate_effect c e)) (effects b)) in
  let b1 := update (validate_effect c) b in
  let groups := dkeys (group_by group_id (List.filter atomic (effects b1))) in
  let '(f, b2) := fail_groups groups b1 in (failures ++ f, b2)%list.

(** ** Conflicts *)

(** [loser.status = FAILED], and with it the group the loser is an atomic member of. *)
Definition fail_loser (winner_agent : string) (loser : StagedEffect) (b : TransactionBuffer) :
    TransactionBuffer :=
  let b := update (λ e, if decide (effect_id e = effect_id loser)
                        then fail ("Conflict: lost to agent " +:+ winner_agent) e else e) b in
  if atomic loser
  then update (λ e, if in_group (group_id loser) e && negb (has_status FAILED e)
                    then fail ("group member lost conflict (group " +:+ group_id loser +:+ ")") e
                    else e) b
  else b.

Definition id_leb (e f : StagedEffect) : bool := String.leb (effect_id e) (effect_id f).
Definition losing (winner_agent : string) (agents : list string) (by_agent : dict (list StagedEffect)) :
    list StagedEffect := flat_map (λ a, py_sorted id_leb (default [] (dget a by_agent))) agents.

(** One turn of the loop over the resources; the effects are those of the snapshot. *)
Definition resolve_resource (es : list StagedEffect) (b : TransactionBuffer) :
    option ConflictResolution * TransactionBuffer :=
  if length es <=? 1 then (None, b) else
  let by_agent := group_by agent_id es in
  if length by_agent =? 1 then (None, b) else
  match py_sorted String.leb (dkeys by_agent) with
  | [] => (None, b)
  | winner_agent :: others =>
      let winner_effects := py_sorted id_leb (default [] (dget winner_agent by_agent)) in
      let loser_effects := losing winner_agent others by_agent in
      (Some (Resolution (match winner_effects with e :: _ => effect_id e | [] => "" end)
               (map effect_id loser_effects)
               ("Deterministic resolution: agent " +:+ winner_agent +:+ " wins (" +:+
                pretty (length loser_effects) +:+ " effects failed)")),
       fold_left (λ b l, fail_loser winner_agent l b) loser_effects b)
  end.

Fixpoint resolve_resources (rs : list (string * list StagedEffect)) (b : TransactionBuffer) :
    list ConflictResolution * TransactionBuffer :=
  match rs with
  | [] => ([], b)
  | (_, es) :: rs' =>
      let '(r, b1) := resolve_resource es b in
      let '(l, b2) := resolve_resources rs' b1 in
      (match r with Some r => r :: l | None => l end, b2)
  end.

Definition resolve_conflicts (b : TransactionBuffer) : list ConflictResolution * TransactionBuffer :=
  let by_resource := group_by resource (List.filter (has_status VALIDATED) (effects b)) in
  let '(l, b) := resolve_resources by_resource b in
  (l, mkBuffer (_effects b) (_counter b) (_committed b) (_conflict_resolutions b ++ l)%list (_outbox b)).

(** ** Commit and rollback *)

Definition commit_effect (e : StagedEffect) : StagedEffect :=
  if has_status VALIDATED e then with_status COMMITTED (error e) e else e.
Definition commit (b : TransactionBuffer) : list string * TransactionBuffer :=
  let valid := List.filter (has_status VALIDATED) (effects b) in
  let committed := map effect_id valid in
  let b' := update commit_effect b in
  (committed,
   mkBuffer (_effects b') (_counter b') (_committed b' ++ committed)%list (_conflict_resolutions b')
     (_outbox b' ++ map effect_id (List.filter side_effect valid))%list).

Definition rollback (b : TransactionBuffer) : list string * TransactionBuffer :=
  let b' := update (λ e, if decide (effect_id e ∈ _committed b)
                         then with_status ROLLED_BACK (error e) e else e) b in
  (_committed b, mkBuffer (_effects b') (_counter b') [] (_conflict_resolutions b') []).

Definition clear (b : TransactionBuffer) : TransactionBuffer := mkBuffer [] (_counter b) [] [] [].
Definition get_outbox (b : TransactionBuffer) : list string := _outbox b.
Definition clear_outbox (b : TransactionBuffer) : list string * TransactionBuffer :=
  (_outbox b, mkBuffer (_effects b) (_counter b) (_committed b) (_conflict_resolutions b) []).
Definition outbox_count (b : TransactionBuffer) : nat := length (_outbox b).
Definition has_pending (b : TransactionBuffer) : bool :=
  existsb (λ e, has_status STAGED e || has_status VALIDATED e) (effects b).
Definition committed_count (b : TransactionBuffer) : nat := length (_committed b).
Definition status_count (s : EffectStatus) (b : TransactionBuffer) : nat :=
  length (List.filter (has_status s) (effects b)).
Definition failed_count (b : TransactionBuffer) : nat := status_count FAILED b.
Definition summary (b : TransactionBuffer) : dict nat :=
  [("total_effects", length (_effects b)); ("staged", status_count STAGED b);
   ("validated", status_count VALIDATED b); ("committed", committed_count b);
   ("failed", failed_count b); ("conflicts", length (_conflict_resolutions b))].

(** The commit phase: the three calls in the order the phase makes them. *)
Definition commit_phase (c : checks) (b : TransactionBuffer) : TransactionBuffer :=
  (commit (resolve_conflicts (validate c b).2).2).2.

(** [delegate] of legacy/task_tree.py stages a task and the mail that announces it as one
    group; the two random parts of its ids are parameters. *)
Definition handle_delegate (tick agent recipient title description task_hex group_hex : string)
    (b : TransactionBuffer) : string * TransactionBuffer :=
  let task_id := "task." +:+ tick +:+ "." +:+ task_hex in
  let group := "group." +:+ group_hex in
  let b := (stage TASK_CREATE agent task_id
              [("task_id", VStr task_id); ("title", VStr title); ("description", VStr description);
               ("assigner_agent_id", VStr agent); ("assignee_agent_id", VStr recipient);
               ("derived_from", VNone)] None None group "group" b).2 in
  let b := (stage EMAIL_SEND agent ("email:" +:+ agent)
              [("from_agent", VStr agent); ("to", VList [VStr recipient]);
               ("subject", VStr ("[DELEGATE] " +:+ title)); ("body", VStr description);
               ("email_type", VStr "delegation"); ("task_id", VStr task_id)]
              None None group "group" b).2 in
  (task_id, b).

(** ** Grouping *)

Section GroupBy.
Context {A : Type} (key : A → string).
Definition keyed (k : string) (l : list A) : list A := List.filter (λ x, bool_decide (key x = k)) l.

Lemma group_by_snoc l x :
  group_by key (l ++ [x]) =
    dset (key x) (default [] (dget (key x) (group_by key l)) ++ [x])%list (group_by key l).
Proof. unfold group_by. by rewrite fold_left_app. Qed.

Lemma group_by_get k l : default [] (dget k (group_by key l)) = keyed k l.
Proof.
  induction l as [|x l IH] using rev_ind; [done|].
  rewrite group_by_snoc, dget_dset. unfold keyed in *. rewrite List.filter_app. simpl.
  destruct (decide (k = key x)) as [->|Hne]; simpl.
  - rewrite bool_decide_true by done. by rewrite IH.
  - rewrite bool_decide_false by done. by rewrite app_nil_r.
Qed.

Lemma group_by_NoDup l : NoDup (dkeys (group_by key l)).
Proof.
  induction l as [|x l IH] using rev_ind; [apply NoDup_nil_2|].
  rewrite group_by_snoc. by apply dkeys_dset_NoDup.
Qed.

Lemma group_by_keys k l : k ∈ dkeys (group_by key l) ↔ ∃ x, x ∈ l ∧ key x = k.
Proof.
  induction l as [|x l IH] using rev_ind; [set_solver|].
  rewrite group_by_snoc, dkeys_dset. setoid_rewrite elem_of_app.
  setoid_rewrite list_elem_of_singleton.
  case_decide as Hin; [|rewrite elem_of_app, list_elem_of_singleton]; rewrite IH in *; naive_solver.
Qed.

Lemma group_by_elem k es l : (k, es) ∈ group_by key l → es = keyed k l.
Proof.
  intros H. rewrite <-group_by_get. by rewrite (elem_dget k es) by (done || apply group_by_NoDup).
Qed.

Lemma elem_keyed k l x : x ∈ keyed k l ↔ x ∈ l ∧ key x = k.
Proof.
  unfold keyed. by rewrite elem_of_bfilter, bool_decide_eq_true.
Qed.
End GroupBy.

(** ** Effect ids *)

Fixpoint dec (acc : N) (s : string) : N :=
  match s with
  | EmptyString => acc
  | String c s => dec (acc * 10 + (N_of_ascii c - 48)) s
  end.

Lemma pretty_char_dec x : (x < 10)%N → (N_of_ascii (pretty_N_char x) - 48 = x)%N.
Proof.
  intros H. assert (Hx : x ∈ [0; 1; 2; 3; 4; 5; 6; 7; 8; 9]%N).
  { destruct x as [|[[[[]|[]|]|[[]|[]|]|]|[[[]|[]|]|[[]|[]|]|]|]]; try lia; set_solver. }
  repeat (apply elem_of_cons in Hx as [->|Hx]; [reflexivity|]). by apply elem_of_nil in Hx.
Qed.

Lemma dec_pretty_go x s : dec 0 (pretty_N_go x s) = dec x s.
Proof.
  revert s. induction (N.lt_wf_0 x) as [x _ IH]; intros s.
  destruct (decide (x = 0)%N) as [->|Hx]; [by rewrite pretty_N_go_0|].
  rewrite pretty_N_go_step by lia. rewrite IH by (apply N.div_lt; lia). simpl.
  rewrite pretty_char_dec by (apply N.mod_lt; lia).
  f_equal. rewrite (N.div_mod x 10) at 3 by lia. lia.
Qed.

Lemma dec_eff n : dec 0 (pad6 n) = n.
Proof.
  unfold pad6. generalize (6 - String.length (pretty n)). intros k.
  assert (∀ s, dec 0 (zeros k s) = dec 0 s) as -> by (induction k as [|k IH]; intros s; [done|apply IH]).
  unfold pretty, pretty_N. case_decide as H; [by subst|]. apply dec_pretty_go.
Qed.

Lemma eff_id_inj n m : eff_id n = eff_id m → n = m.
Proof.
  unfold eff_id. intros [= H]. change (pad6 n = pad6 m) in H.
  rewrite <-(dec_eff n), <-(dec_eff m). by rewrite H.
Qed.

(** ** The commit phase *)

(** What a buffer holds before the commit phase of a tick. *)
Inductive staged : TransactionBuffer → Prop :=
| staged_clear n : staged (mkBuffer [] n [] [] [])
| staged_stage ty agent res payload v tok group atom b :
    staged b → staged (stage ty agent res payload v tok group atom b).2.

Lemma staged_keys b : staged b →
  NoDup (dkeys (_effects b)) ∧ _committed b = [] ∧ _outbox b = [] ∧
  ∀ k e, (k, e) ∈ _effects b →
    effect_id e = k ∧ status e = STAGED ∧ ∃ n, k = eff_id n ∧ (n ≤ _counter b)%N.
Proof.
  induction 1 as [n|ty agent res payload v tok group atom b _ (H1 & H2 & H3 & H4)]; simpl.
  { split; [apply NoDup_nil_2|]. repeat split; try done. all: by apply elem_of_nil in H. }
  assert (Hnew : eff_id (N.succ (_counter b)) ∉ dkeys (_effects b)).
  { intros ([k e] & Hk & Hin)%list_elem_of_fmap. simpl in Hk. subst k.
    destruct (H4 _ _ Hin) as (_ & _ & n & Hn%eff_id_inj & Hle). lia. }
  split; [by apply dkeys_dset_NoDup|]. split; [done|]. split; [done|].
  intros k e Hin. apply elem_dget in Hin; [|by apply dkeys_dset_NoDup].
  rewrite dget_dset in Hin. case_decide; simplify_eq.
  - split; [done|]. split; [done|]. exists (N.succ (_counter b)). split; [done|]. simpl. lia.
  - destruct (H4 k e) as (? & ? & n & ? & ?); [by apply dget_Some_elem|].
    split; [done|]. split; [done|]. exists n. split; [done|]. simpl. lia.
Qed.

Lemma effects_update f b : effects (update f b) = map f (effects b).
Proof. unfold effects, update, dvalues, dmap. simpl. by rewrite !map_map. Qed.

(** Effects are told apart by their ids. *)
Definition ids_unique (l : list StagedEffect) : Prop :=
  ∀ e f, e ∈ l → f ∈ l → effect_id e = effect_id f → e = f.

Lemma NoDup_unique l : NoDup (map effect_id l) → ids_unique l.
Proof.
  intros Hn e f He Hf Hid. apply list_elem_of_lookup in He as [i Hi], Hf as [j Hj].
  assert (i = j) as ->; [|congruence].
  eapply (NoDup_lookup _ i j (effect_id e) Hn).
  - change (map effect_id l) with (effect_id <$> l). rewrite list_lookup_fmap. by rewrite Hi.
  - change (map effect_id l) with (effect_id <$> l). rewrite list_lookup_fmap. rewrite Hj. simpl. by rewrite Hid.
Qed.
Lemma staged_NoDup b : staged b → NoDup (map effect_id (effects b)).
Proof.
  intros (Hn & _ & _ & Hk)%staged_keys.
  assert (map effect_id (effects b) = dkeys (_effects b)) as ->; [|done].
  unfold effects, dvalues, dkeys. rewrite map_map. apply map_ext_in.
  intros [k e] Hin%list_elem_of_In. by destruct (Hk k e Hin).
Qed.

(** The attributes that do not change. *)
Definition same (e f : StagedEffect) : Prop := f = with_status (status f) (error f) e.
(** [f] is [e], or [e] failed. *)
Definition demoted (e f : StagedEffect) : Prop := f = e ∨ ∃ msg, f = fail msg e.

#[global] Instance demoted_preorder : PreOrder demoted.
Proof.
  split; [by left|]. intros e f g [->|(m & ->)] [->|(m' & ->)]; unfold demoted; eauto.
Qed.
#[global] Instance same_preorder : PreOrder same.
Proof.
  split; [by intros []|]. intros e f g H1 H2. unfold same in *. by rewrite H2, H1.
Qed.
Lemma demoted_same e f : demoted e f → same e f.
Proof. intros [->|(m & ->)]; [reflexivity|done]. Qed.

Definition demotes (b b' : TransactionBuffer) : Prop := Forall2 demoted (effects b) (effects b').
#[global] Instance demotes_preorder : PreOrder demotes.
Proof. split; [intros b; unfold demotes; reflexivity|intros b c d; unfold demotes; apply transitivity]. Qed.

Lemma update_demotes f b : (∀ e, demoted e (f e)) → demotes b (update f b).
Proof.
  intros H. unfold demotes. rewrite effects_update. induction (effects b); simpl; by constructor.
Qed.
Lemma demotes_back b b' e' : demotes b b' → e' ∈ effects b' → ∃ e, e ∈ effects b ∧ demoted e e'.
Proof.
  intros H Hin. apply list_elem_of_lookup in Hin as [i Hi].
  destruct (Forall2_lookup_r _ _ _ _ _ H Hi) as (e & He & Hd).
  exists e. split; [by eapply list_elem_of_lookup_2|done].
Qed.

Definition settled (b : TransactionBuffer) : Prop :=
  ∀ e, e ∈ effects b → status e = VALIDATED ∨ status e = FAILED.
(** The groups in [P] have failed as a whole or not at all. *)
Definition closed_on (P : string → Prop) (b : TransactionBuffer) : Prop :=
  ∀ e f, e ∈ effects b → f ∈ effects b → atomic e = true → atomic f = true →
    group_id e = group_id f → P (group_id e) → status e = FAILED → status f = FAILED.

Lemma has_status_true s e : has_status s e = true ↔ status e = s.
Proof. unfold has_status. apply bool_decide_eq_true. Qed.
Lemma has_status_false s e : has_status s e = false ↔ status e ≠ s.
Proof. unfold has_status. apply bool_decide_eq_false. Qed.

Lemma demotes_settled b b' : demotes b b' → settled b → settled b'.
Proof.
  intros Hd Hs e' He'. destruct (demotes_back _ _ _ Hd He') as (e & He & [->|(m & ->)]); auto.
Qed.

Lemma elem_update f b e' : e' ∈ effects (update f b) ↔ ∃ e, e' = f e ∧ e ∈ effects b.
Proof. rewrite effects_update. apply list_elem_of_fmap. Qed.

Lemma validate_effect_status c e :
  status e = STAGED → same e (validate_effect c e) ∧
    (status (validate_effect c e) = VALIDATED ∨ status (validate_effect c e) = FAILED).
Proof.
  intros Hs. unfold validate_effect.
  assert (has_status STAGED e = true) as -> by by apply has_status_true. simpl.
  destruct (if decide _ then _ else _); [by split; [|right]|].
  repeat (match goal with |- context [if ?c then _ else _] => destruct c end;
          [by split; [|right]|]).
  by split; [|left].
Qed.

Lemma fail_group_spec g P b :
  closed_on P b →
  demotes b (fail_group g b).2 ∧ closed_on (λ x, P x ∨ x = g) (fail_group g b).2.
Proof.
  intros Hc. unfold fail_group.
  destruct (existsb _ _) eqn:Ex; simpl.
  - split; [apply update_demotes; intros e; destruct (_ && _); [right; eauto|by left]|].
    intros e' f' (e & -> & He)%elem_update (f & -> & Hf)%elem_update.
    assert (Hg : ∀ x, atomic (if atomic x && in_group g x && negb (has_status FAILED x)
                       then fail ("group member failed (group " +:+ g +:+ ")") x else x) = atomic x ∧
                      group_id (if atomic x && in_group g x && negb (has_status FAILED x)
                       then fail ("group member failed (group " +:+ g +:+ ")") x else x) = group_id x).
    { intros x. by destruct (_ && _). }
    destruct (Hg e) as [-> ->], (Hg f) as [-> ->]. intros Hae Haf Hgr HP Hst.
    destruct (decide (group_id f = g)) as [Hfg|Hfg].
    + unfold in_group at 1. rewrite Haf, (bool_decide_true _ Hfg). simpl.
      destruct (has_status FAILED f) eqn:E; [by apply has_status_true in E|done].
    + unfold in_group in *. rewrite (bool_decide_false _ Hfg), andb_false_r. simpl.
      rewrite <-Hgr in Hfg. rewrite (bool_decide_false _ Hfg), andb_false_r in Hst. simpl in Hst.
      destruct HP as [HP|]; [|congruence]. by apply (Hc e f).
  - split; [done|]. intros e f He Hf Hae Haf Hgr [HP|HP] Hst; [by apply (Hc e f)|].
    exfalso. apply Bool.not_true_iff_false in Ex. apply Ex, existsb_exists. exists e.
    rewrite <-list_elem_of_In, elem_of_bfilter. unfold in_group.
    rewrite Hae, bool_decide_true by done. by rewrite has_status_true.
Qed.

Lemma fail_groups_spec gs P b :
  closed_on P b →
  demotes b (fail_groups gs b).2 ∧ closed_on (λ x, P x ∨ x ∈ gs) (fail_groups gs b).2.
Proof.
  revert P b. induction gs as [|g gs IH]; intros P b Hc; simpl.
  { split; [done|]. intros e f ????? [HP|[]%elem_of_nil]. by apply (Hc e f). }
  destruct (fail_group_spec g P b Hc) as [Hd Hc1].
  destruct (fail_group g b) as [l1 b1]. simpl in *.
  destruct (IH _ b1 Hc1) as [Hd2 Hc2]. destruct (fail_groups gs b1) as [l2 b2]. simpl in *.
  split; [by etrans|]. intros e f He Hf Hae Haf Hg HP. apply (Hc2 e f); try done.
  destruct HP as [HP|[HP|HP]%elem_of_cons]; auto.
Qed.

Lemma validate_spec c b :
  (∀ e, e ∈ effects b → status e = STAGED) →
  Forall2 same (effects b) (effects (validate c b).2) ∧
  settled (validate c b).2 ∧ closed_on (λ _, True) (validate c b).2.
Proof.
  intros Hst. unfold validate. set (b1 := update (validate_effect c) b).
  set (gs := dkeys _).
  assert (H1 : Forall2 same (effects b) (effects b1)).
  { unfold b1. rewrite effects_update. clear -Hst.
    induction (effects b) as [|e l IH]; simpl; constructor.
    - apply validate_effect_status, Hst. left.
    - apply IH. intros f Hf. apply Hst. by right. }
  assert (H2 : settled b1).
  { intros e' (e & -> & He)%elem_update. by apply validate_effect_status, Hst. }
  destruct (fail_groups_spec gs (λ _, False) b1) as [Hd Hc]; [by intros ?????????|].
  destruct (fail_groups gs b1) as [f b2]. simpl in *.
  split; [|split].
  - etrans; [done|]. eapply Forall2_impl; [done|]. apply demoted_same.
  - by eapply demotes_settled.
  - intros e' f' He Hf Hae Haf Hg _. apply (Hc e' f'); try done. right.
    destruct (demotes_back _ _ _ Hd He) as (e & Hin & Hsame%demoted_same).
    unfold gs. apply group_by_keys. exists e. rewrite elem_of_bfilter.
    rewrite Hsame in *. done.
Qed.

(** The loops touch the effects only. *)
Definition same_lists (b b' : TransactionBuffer) : Prop :=
  _committed b' = _committed b ∧ _outbox b' = _outbox b.
#[global] Instance same_lists_preorder : PreOrder same_lists.
Proof. split; [by intros b|]. intros b c d [H1 H2] [H3 H4]. split; congruence. Qed.

Lemma validate_lists c b : same_lists b (validate c b).2.
Proof.
  assert (H : ∀ gs b, same_lists b (fail_groups gs b).2).
  { intros gs. induction gs as [|g gs IH]; intros b'; simpl; [done|].
    assert (Hg : same_lists b' (fail_group g b').2)
      by (unfold fail_group; by destruct (existsb _ _)).
    destruct (fail_group g b') as [f b1]. specialize (IH b1).
    destruct (fail_groups gs b1). simpl in *. by etrans. }
  unfold validate. match goal with |- context [fail_groups ?gs ?b1] => specialize (H gs b1);
    destruct (fail_groups gs b1) end. done.
Qed.

Section Resolve.
(** The buffer the snapshot is taken of. *)
Variable b0 : TransactionBuffer.
Hypothesis unique : ids_unique (effects b0).

Definition winv (b : TransactionBuffer) : Prop := demotes b0 b ∧ closed_on (λ _, True) b.

Lemma same_attrs e f : same e f →
  effect_id f = effect_id e ∧ agent_id f = agent_id e ∧ resource f = resource e ∧
  group_id f = group_id e ∧ atomic f = atomic e ∧ side_effect f = side_effect e.
Proof. intros ->. done. Qed.

Lemma same_loser b l e :
  demotes b0 b → l ∈ effects b0 → e ∈ effects b → effect_id e = effect_id l → same l e.
Proof.
  intros Hd Hl He Hid. destruct (demotes_back _ _ _ Hd He) as (e0 & He0 & Hs%demoted_same).
  destruct (same_attrs _ _ Hs) as (Hi & _). assert (e0 = l) as -> by (apply unique; congruence).
  done.
Qed.

Lemma fail_loser_spec w l b :
  winv b → l ∈ effects b0 →
  demotes b (fail_loser w l b) ∧ winv (fail_loser w l b) ∧
  ∀ e, e ∈ effects (fail_loser w l b) → effect_id e = effect_id l → status e = FAILED.
Proof.
  intros [Hd Hc] Hl. unfold fail_loser. set (b1 := update _ b).
  assert (H1 : demotes b b1)
    by (apply update_demotes; intros e; case_decide; [right; eauto|by left]).
  assert (Hf1 : ∀ e, e ∈ effects b1 → effect_id e = effect_id l → status e = FAILED).
  { intros e' (e & -> & He)%elem_update. case_decide; [done|done]. }
  assert (Hk1 : ∀ e, e ∈ effects b1 → status e = FAILED → effect_id e = effect_id l ∨ e ∈ effects b).
  { intros e' (e & -> & He)%elem_update. case_decide; [by left|by right]. }
  destruct (atomic l) eqn:Ea.
  - set (b2 := update _ b1).
    assert (H2 : demotes b1 b2)
      by (apply update_demotes; intros e; destruct (_ && _); [right; eauto|by left]).
    assert (Hgr : ∀ e, e ∈ effects b2 → group_id e = group_id l → status e = FAILED).
    { intros e' (e & -> & He)%elem_update. unfold in_group.
      destruct (has_status FAILED e) eqn:Es; [rewrite andb_false_r; by apply has_status_true in Es|].
      case_bool_decide; done. }
    assert (Hother : ∀ e, e ∈ effects b2 → group_id e ≠ group_id l → e ∈ effects b1).
    { intros e' (e & -> & He)%elem_update Hg. unfold in_group in *.
      destruct (bool_decide (group_id e = group_id l)) eqn:Eg; simpl in *; [|done].
      destruct (has_status FAILED e); simpl in *; [done|].
      by apply bool_decide_eq_true in Eg. }
    split; [by etrans|]. split; [split; [by do 2 etrans|]|].
    + intros e f He Hf Hae Haf Hg _ Hst.
      destruct (decide (group_id f = group_id l)) as [Hgl|Hgl]; [by apply Hgr|].
      assert (He1 : e ∈ effects b1) by (apply Hother; congruence).
      assert (Hf2 : f ∈ effects b1) by (by apply Hother).
      assert (Hne : ∀ x, x ∈ effects b1 → group_id x ≠ group_id l → effect_id x ≠ effect_id l).
      { intros x Hx Hgx Hid. apply Hgx.
        apply (same_loser b1 l x) in Hid; [by destruct (same_attrs _ _ Hid) as (_ & _ & _ & ? & _)|by etrans|done..]. }
      destruct (Hk1 e He1 Hst) as [?|He0]; [by destruct (Hne e He1); [congruence|]|].
      apply elem_update in Hf2 as (f0 & -> & Hf0). case_decide; [done|]. by apply (Hc e f0).
    + intros e He Hid. destruct (demotes_back _ _ _ H2 He) as (e1 & He1 & [->|(m & ->)]); [auto|done].
  - split; [done|]. split; [split; [by etrans|]|done].
    intros e f He Hf Hae Haf Hg _ Hst. destruct (Hk1 e He Hst) as [Hid|He0].
    + apply (same_loser b1 l e) in Hid; [|by etrans|done..].
      destruct (same_attrs _ _ Hid) as (_ & _ & _ & _ & ? & _). congruence.
    + apply elem_update in Hf as (f0 & -> & Hf0). case_decide; [done|]. by apply (Hc e f0).
Qed.

(** An effect without a group fails in its own right only. *)
Lemma fail_loser_spares w l b e :
  e ∈ effects b → group_id e = "" → effect_id e ≠ effect_id l → e ∈ effects (fail_loser w l b).
Proof.
  intros He Hg Hid. unfold fail_loser.
  assert (H1 : e ∈ effects (update (λ e, if decide (effect_id e = effect_id l)
                 then fail ("Conflict: lost to agent " +:+ w) e else e) b)).
  { apply elem_update. exists e. by rewrite decide_False. }
  destruct (atomic l) eqn:Ea; [|done]. apply elem_update. exists e. split; [|done].
  unfold in_group. rewrite bool_decide_false; [done|]. rewrite Hg. intros Hl.
  unfold atomic in Ea. by rewrite <-Hl in Ea.
Qed.

Lemma fail_losers_spec w ls b :
  winv b → (∀ l, l ∈ ls → l ∈ effects b0) →
  let b' := fold_left (λ b l, fail_loser w l b) ls b in
  demotes b b' ∧ winv b' ∧
  (∀ l e, l ∈ ls → e ∈ effects b' → effect_id e = effect_id l → status e = FAILED) ∧
  (∀ e, e ∈ effects b → group_id e = "" → (∀ l, l ∈ ls → effect_id e ≠ effect_id l) →
     e ∈ effects b').
Proof.
  revert b. induction ls as [|l ls IH]; simpl; intros b Hw Hl.
  { split; [done|]. split; [done|]. split; [by intros ?? ?%elem_of_nil|done]. }
  destruct (fail_loser_spec w l b Hw) as (H1 & H2 & H3); [apply Hl; left|].
  destruct (IH _ H2) as (H4 & H5 & H6 & H7); [intros; apply Hl; by right|].
  split; [by etrans|]. split; [done|]. split.
  - intros l' e [->|Hl']%elem_of_cons He Hid; [|by eapply H6].
    destruct (demotes_back _ _ _ H4 He) as (e1 & He1 & [->|(m & ->)]); [by apply H3|done].
  - intros e He Hg Hls. apply H7; [|done|intros; apply Hls; by right].
    apply fail_loser_spares; [done|done|]. apply Hls. left.
Qed.

Definition snapshot : list StagedEffect := List.filter (has_status VALIDATED) (effects b0).
(** No agent with an effect on [e]'s resource comes before [e]'s in the alphabet. *)
Definition first (e : StagedEffect) : Prop :=
  ∀ f, f ∈ snapshot → resource f = resource e → String.leb (agent_id e) (agent_id f) = true.
Definition won (r : string) (b : TransactionBuffer) : Prop :=
  ∀ e, e ∈ effects b → status e = VALIDATED → resource e = r → first e.
(** The effects the loop must spare. *)
Definition spared (e : StagedEffect) : Prop := e ∈ snapshot ∧ group_id e = "" ∧ first e.

Lemma demotes_won r b b' : demotes b b' → won r b → won r b'.
Proof.
  intros Hd Hw e' He Hse. destruct (demotes_back _ _ _ Hd He) as (e & ? & [->|(m & ->)]); [|done].
  by apply Hw.
Qed.

Lemma snapshot_elem b e : demotes b0 b → e ∈ effects b → status e = VALIDATED → e ∈ snapshot.
Proof.
  intros Hd He Hs. unfold snapshot. rewrite elem_of_bfilter, has_status_true.
  destruct (demotes_back _ _ _ Hd He) as (e0 & ? & [->|(m & ->)]); done.
Qed.

Lemma losing_elem w agents es l :
  l ∈ losing w agents (group_by agent_id es) ↔ l ∈ es ∧ agent_id l ∈ agents.
Proof.
  unfold losing. rewrite list_elem_of_In, in_flat_map. setoid_rewrite <-list_elem_of_In.
  setoid_rewrite py_sorted_elem. setoid_rewrite group_by_get. setoid_rewrite elem_keyed.
  split; [intros (x & Hx & Hl & <-)|intros [Hl Ha]; exists (agent_id l)]; done.
Qed.

(** The first agent of the sorted names is the one [first] singles out. *)
Lemma sorted_agents r w others :
  let es := keyed resource r snapshot in
  py_sorted String.leb (dkeys (group_by agent_id es)) = w :: others →
  w ∉ others ∧
  ∀ e, e ∈ snapshot → resource e = r → (agent_id e = w ↔ first e) ∧ (agent_id e = w ∨ agent_id e ∈ others).
Proof.
  intros es Es. pose proof (py_sorted_head _ _ _ _ String.leb_total string_leb_trans Es) as Hmin.
  assert (Hkeys : ∀ f, f ∈ snapshot → resource f = r → agent_id f ∈ dkeys (group_by agent_id es)).
  { intros f Hf Hr. apply group_by_keys. exists f. split; [by apply elem_keyed|done]. }
  split.
  - pose proof (group_by_NoDup agent_id es) as Hn. rewrite <-(py_sorted_perm String.leb), Es in Hn.
    by apply NoDup_cons in Hn as [].
  - intros e He Hr. split; [split|].
    + intros <- f Hf Hrf. apply Hmin, Hkeys; congruence.
    + intros Hf. apply String.leb_antisym; [|by apply Hmin, Hkeys].
      assert (Hw : w ∈ dkeys (group_by agent_id es))
        by (rewrite <-(py_sorted_elem String.leb), Es; left).
      apply group_by_keys in Hw as (g & [Hg Hgr]%elem_keyed & <-). apply Hf; congruence.
    + assert (Hin : agent_id e ∈ w :: others) by (rewrite <-Es; by apply py_sorted_elem, Hkeys).
      by apply elem_of_cons in Hin.
Qed.

Lemma single_agent r b :
  winv b → let es := keyed resource r snapshot in
  length es ≤ 1 ∨ length (group_by agent_id es) = 1 → won r b.
Proof.
  intros Hw es Hone e He Hse Hr f Hf Hrf. rewrite Hr in Hrf.
  assert (H1 : e ∈ es) by (apply elem_keyed; split; [by apply (snapshot_elem b); [apply Hw|..]|done]).
  assert (H2 : f ∈ es) by by apply elem_keyed.
  assert (agent_id e = agent_id f) as ->; [|apply string_leb_refl].
  destruct Hone as [Hle|Hone].
  - destruct es as [|x [|y es']]; simpl in Hle; [by apply elem_of_nil in H1| |lia].
    apply list_elem_of_singleton in H1, H2. congruence.
  - assert (Ha : ∀ x, x ∈ es → agent_id x ∈ dkeys (group_by agent_id es))
      by (intros; apply group_by_keys; eauto).
    apply Ha in H1, H2. destruct (group_by agent_id es) as [|[a l] [|]]; try done. simpl in *.
    apply list_elem_of_singleton in H1, H2. congruence.
Qed.

Lemma resolve_resource_spec r b :
  winv b →
  let b' := (resolve_resource (keyed resource r snapshot) b).2 in
  demotes b b' ∧ winv b' ∧ won r b' ∧ (∀ e, spared e → e ∈ effects b → e ∈ effects b').
Proof.
  intros Hw. unfold resolve_resource. set (es := keyed resource r snapshot).
  destruct (Nat.leb_spec (length es) 1) as [Hle|_]; simpl.
  { repeat split; try done; try apply Hw. apply (single_agent r b); auto. }
  destruct (Nat.eqb_spec (length (group_by agent_id es)) 1) as [Hone|_]; simpl.
  { repeat split; try done; try apply Hw. apply (single_agent r b); auto. }
  destruct (py_sorted String.leb _) as [|w others] eqn:Esort.
  { repeat split; try done; try apply Hw. apply (single_agent r b); [done|]. left.
    assert (Hnil : es = []) by (destruct es as [|x xs] eqn:E; [done|exfalso];
      apply (elem_of_nil (agent_id x)); rewrite <-Esort; apply py_sorted_elem, group_by_keys;
      exists x; split; [left|done]).
    fold es. rewrite Hnil. simpl. lia. }
  simpl. set (ls := losing w others _).
  destruct (sorted_agents r w others Esort) as [Hfresh Hagents].
  assert (Hsnap : ∀ e, e ∈ snapshot → e ∈ effects b0) by (intros e [? _]%elem_of_bfilter; done).
  destruct (fail_losers_spec w ls b Hw) as (H1 & H2 & H3 & H4).
  { intros l [[Hl _]%elem_keyed _]%losing_elem. auto. }
  split; [done|]. split; [done|]. split.
  - intros e He Hs Hr. assert (Hin : e ∈ snapshot) by (by apply (snapshot_elem _ e (proj1 H2))).
    destruct (Hagents e Hin Hr) as [Hf [Ha|Ha]]; [by apply Hf|].
    rewrite (H3 e e) in Hs; [done| |done|done]. apply losing_elem. by split; [apply elem_keyed|].
  - intros e (Hin & Hg & Hf) He. apply H4; [done|done|].
    intros l [[Hl Hlr]%elem_keyed Hlo]%losing_elem Hid.
    assert (e = l) as -> by auto.
    destruct (Hagents l Hl Hlr) as [[_ Hw'] _]. by rewrite Hw' in Hlo.
Qed.

Lemma resolve_resources_spec rs b :
  winv b → (∀ r es, (r, es) ∈ rs → es = keyed resource r snapshot) →
  let b' := (resolve_resources rs b).2 in
  demotes b b' ∧ winv b' ∧ (∀ r, r ∈ dkeys rs → won r b') ∧
  (∀ e, spared e → e ∈ effects b → e ∈ effects b').
Proof.
  revert b. induction rs as [|[r es] rs IH]; simpl; intros b Hw Hrs.
  { split; [done|]. split; [done|]. split; [by intros r ?%elem_of_nil|done]. }
  pose proof (resolve_resource_spec r b Hw) as (H1 & H2 & H3 & H3'). simpl in *.
  rewrite (Hrs r es) by left. destruct (resolve_resource _ b) as [x b1]. simpl in *.
  destruct (IH b1 H2) as (H4 & H5 & H6 & H7); [intros; apply Hrs; by right|].
  destruct (resolve_resources rs b1) as [l b2]. simpl in *.
  split; [by etrans|]. split; [done|]. split; [|auto].
  intros r' [->|Hr']%elem_of_cons; [|by apply H6]. by eapply demotes_won.
Qed.
End Resolve.

Lemma fail_losers_lists w ls b : same_lists b (fold_left (λ b l, fail_loser w l b) ls b).
Proof.
  revert b. induction ls as [|l ls IH]; intros b; simpl; [done|].
  etrans; [|apply IH]. unfold fail_loser. by destruct (atomic l).
Qed.
Lemma resolve_resources_lists rs b : same_lists b (resolve_resources rs b).2.
Proof.
  revert b. induction rs as [|[r es] rs IH]; intros b; simpl; [done|].
  assert (Hr : same_lists b (resolve_resource es b).2).
  { unfold resolve_resource. destruct (_ <=? _); [done|]. destruct (_ =? _); [done|].
    destruct (py_sorted _ _); [done|]. apply fail_losers_lists. }
  destruct (resolve_resource es b) as [x b1]. simpl in Hr. specialize (IH b1).
  destruct (resolve_resources rs b1). simpl in *. by etrans.
Qed.

Lemma resolve_conflicts_spec b :
  ids_unique (effects b) → closed_on (λ _, True) b →
  let b' := (resolve_conflicts b).2 in
  demotes b b' ∧ closed_on (λ _, True) b' ∧
  (∀ e, e ∈ effects b' → status e = VALIDATED → first b e) ∧
  (∀ e, spared b e → e ∈ effects b') ∧ same_lists b b'.
Proof.
  intros Hu Hc. unfold resolve_conflicts.
  set (rs := group_by resource _).
  destruct (resolve_resources_spec b Hu rs b) as (H1 & [H2 H2'] & H3 & H4).
  { by split. }
  { intros r es Hin. by apply group_by_elem in Hin. }
  pose proof (resolve_resources_lists rs b) as Hl.
  destruct (resolve_resources rs b) as [l b']. simpl in *.
  split; [done|]. split; [done|]. split; [|split; [|done]].
  - intros e He Hs. apply (H3 (resource e)); [|done..]. apply group_by_keys.
    exists e. split; [by eapply snapshot_elem|done].
  - intros e He. apply H4; [done|]. destruct He as [He _].
    unfold snapshot in He. by apply elem_of_bfilter in He as [].
Qed.

Lemma same_ids l l' : Forall2 same l l' → map effect_id l' = map effect_id l.
Proof. induction 1 as [|e f l l' Hs _ IH]; simpl; [done|]. rewrite IH. by rewrite Hs. Qed.

Lemma commit_effect_same e : same e (commit_effect e).
Proof. unfold commit_effect. by destruct (has_status _ e). Qed.

Lemma commit_effect_status e :
  status e = VALIDATED ∨ status e = FAILED →
  (status (commit_effect e) = COMMITTED ↔ status e = VALIDATED) ∧
  (status (commit_effect e) = FAILED ↔ status e = FAILED).
Proof.
  unfold commit_effect, has_status. intros [H|H]; rewrite H; simpl; rewrite ?H; split; split; congruence.
Qed.

Lemma commit_effects b e : e ∈ effects (commit b).2 ↔ ∃ e0, e = commit_effect e0 ∧ e0 ∈ effects b.
Proof. apply elem_update. Qed.

Lemma commit_lists b :
  settled b →
  _committed (commit b).2 =
    (_committed b ++ map effect_id (List.filter (has_status COMMITTED) (effects (commit b).2)))%list ∧
  _outbox (commit b).2 =
    (_outbox b ++ map effect_id (List.filter side_effect
                    (List.filter (has_status COMMITTED) (effects (commit b).2))))%list.
Proof.
  intros Hs. change (effects (commit b).2) with (effects (update commit_effect b)).
  rewrite effects_update. unfold commit. simpl. unfold settled in Hs.
  assert (Hl : List.filter (has_status COMMITTED) (map commit_effect (effects b)) =
               map commit_effect (List.filter (has_status VALIDATED) (effects b))).
  { induction (effects b) as [|e l IH]; simpl; [done|].
    rewrite IH by (intros; apply Hs; by right).
    destruct (Hs e ltac:(left)) as [H|H]; unfold commit_effect, has_status; rewrite !H; simpl; rewrite ?H; reflexivity. }
  rewrite Hl. generalize (List.filter (has_status VALIDATED) (effects b)). intros l.
  split; f_equal; induction l as [|e l IH]; simpl; try done.
  - rewrite IH. by destruct (same_attrs _ _ (commit_effect_same e)) as (-> & _).
  - destruct (same_attrs _ _ (commit_effect_same e)) as (Hi & _ & _ & _ & _ & ->).
    destruct (side_effect e); simpl; by rewrite ?Hi, IH.
Qed.

(** The buffer the conflicts are resolved in. *)
Lemma phase_invariants c b :
  staged b →
  let v := (validate c b).2 in
  let r := (resolve_conflicts v).2 in
  ids_unique (effects v) ∧ demotes v r ∧ settled r ∧ closed_on (λ _, True) r ∧
  (∀ e, e ∈ effects r → status e = VALIDATED → first v e) ∧
  (∀ e, spared v e → e ∈ effects r) ∧ _committed r = [] ∧ _outbox r = [].
Proof.
  intros Hst v r. destruct (staged_keys b Hst) as (_ & Hcom & Hout & Hk).
  destruct (validate_spec c b) as (Hsame & Hset & Hcl).
  { intros e ([k e'] & -> & Hin)%list_elem_of_fmap. by destruct (Hk _ _ Hin) as (_ & ? & _). }
  assert (Hu : ids_unique (effects v))
    by (apply NoDup_unique; unfold v; rewrite (same_ids _ _ Hsame); by apply staged_NoDup).
  destruct (resolve_conflicts_spec v Hu Hcl) as (Hd & Hcl' & Hfirst & Hspare & Hl1 & Hl2).
  destruct (validate_lists c b) as [Hl3 Hl4]. fold v in Hl3, Hl4. fold r in Hl1, Hl2.
  repeat split; try done; try congruence. by eapply demotes_settled.
Qed.

(** C27: the commit phase of a tick settles every staged effect, commits the atomic members of
    a group all or none, and never commits effects of two agents on one resource.  An effect
    outside any group that passed validation is committed exactly when no agent with a valid
    effect on the same resource precedes its own in the alphabet.  The outbox gets the
    committed effects that act on the outside, in the order they were staged. *)
Theorem commit_phase_atomic c b :
  staged b →
  let v := (validate c b).2 in
  let b' := commit_phase c b in
  (∀ e, e ∈ effects b' → status e = COMMITTED ∨ status e = FAILED) ∧
  (∀ e f, e ∈ effects b' → f ∈ effects b' → atomic e = true → atomic f = true →
     group_id e = group_id f → status e = COMMITTED → status f = COMMITTED) ∧
  (∀ e f, e ∈ effects b' → f ∈ effects b' → status e = COMMITTED → status f = COMMITTED →
     resource e = resource f → agent_id e = agent_id f) ∧
  (∀ e, e ∈ effects v → status e = VALIDATED → group_id e = "" →
     (effect_id e ∈ _committed b' ↔
      ∀ f, f ∈ effects v → status f = VALIDATED → resource f = resource e →
        String.leb (agent_id e) (agent_id f) = true)) ∧
  _outbox b' = map effect_id (List.filter side_effect
                 (List.filter (has_status COMMITTED) (effects b'))).
Proof.
  intros Hst v b'. destruct (phase_invariants c b Hst) as (Hu & Hd & Hset & Hcl & Hfirst & Hspare & Hcom & Hout).
  fold v in Hu, Hd, Hset, Hcl, Hfirst, Hspare, Hcom, Hout. set (r := (resolve_conflicts v).2) in *.
  change b' with (commit r).2. destruct (commit_lists r Hset) as [Hc Ho].
  rewrite Hcom, app_nil_l in Hc. rewrite Hout, app_nil_l in Ho.
  assert (Hst' : ∀ e, e ∈ effects r → (status (commit_effect e) = COMMITTED ↔ status e = VALIDATED) ∧
                   (status (commit_effect e) = FAILED ↔ status e = FAILED))
    by (intros; by apply commit_effect_status, Hset).
  split; [|split; [|split; [|split; [|done]]]].
  - intros e (e0 & -> & He)%commit_effects. destruct (Hset e0 He); [left|right]; by apply Hst'.
  - intros e f (e0 & -> & He)%commit_effects (f0 & -> & Hf)%commit_effects.
    destruct (same_attrs _ _ (commit_effect_same e0)) as (_ & _ & _ & -> & -> & _).
    destruct (same_attrs _ _ (commit_effect_same f0)) as (_ & _ & _ & -> & -> & _).
    intros Hae Haf Hgr Hce. apply Hst' in Hce; [|done]. apply Hst'; [done|].
    destruct (Hset f0 Hf) as [|Hbad]; [done|]. specialize (Hcl f0 e0 Hf He Haf Hae (eq_sym Hgr) I Hbad). congruence.
  - intros e f (e0 & -> & He)%commit_effects (f0 & -> & Hf)%commit_effects Hse Hsf.
    apply Hst' in Hse, Hsf; [|done..].
    destruct (same_attrs _ _ (commit_effect_same e0)) as (_ & -> & -> & _).
    destruct (same_attrs _ _ (commit_effect_same f0)) as (_ & -> & -> & _). intros Hr.
    apply String.leb_antisym; (apply Hfirst; [done|done|by eapply snapshot_elem|congruence]).
  - intros e He Hv Hgr. rewrite Hc, list_elem_of_fmap. setoid_rewrite elem_of_bfilter.
    setoid_rewrite has_status_true. split.
    + intros (x & Hid & (e' & -> & He')%commit_effects & Hx) f Hf Hvf Hr.
      apply Hst' in Hx; [|done]. rewrite (proj1 (same_attrs _ _ (commit_effect_same e'))) in Hid.
      destruct (demotes_back _ _ _ Hd He') as (e0 & He0 & [->|(m & ->)]); [|done].
      assert (e0 = e) as -> by auto.
      apply Hfirst; [done|done| |done]. unfold snapshot. by rewrite elem_of_bfilter, has_status_true.
    + intros Hf. assert (Her : e ∈ effects r).
      { apply Hspare. split; [unfold snapshot; by rewrite elem_of_bfilter, has_status_true|].
        split; [done|]. intros f [Hf1 Hf2%has_status_true]%elem_of_bfilter. by apply Hf. }
      exists (commit_effect e). split; [|split; [apply commit_effects; eauto|by apply Hst']].
      symmetry. apply (proj1 (same_attrs _ _ (commit_effect_same e))).
Qed.

(** ** Witness and examples *)

Definition no_checks : checks := Checks None None None None.
Definition one (agent res group : string) (b : TransactionBuffer) : TransactionBuffer :=
  (stage KB_WRITE agent res [] None None group (if nonempty group then "group" else "per_effect") b).2.
Definition sample_buffer : TransactionBuffer :=
  (handle_delegate "4" "ceo" "eng" "build" "" "ab" "cd"
     (one "eng" "kb/a" "" (one "ceo" "kb/a" "" TransactionBuffer_init))).2.

Lemma sample_staged : staged sample_buffer.
Proof. unfold sample_buffer, handle_delegate, one. repeat constructor. Qed.

Lemma commit_phase_atomic_witness :
  (∃ e, e ∈ effects (validate no_checks sample_buffer).2 ∧ effect_id e = "eff.000001" ∧
     effect_id e ∈ _committed (commit_phase no_checks sample_buffer)) ∧
  _outbox (commit_phase no_checks sample_buffer) = ["eff.000004"].
Proof.
  destruct (commit_phase_atomic no_checks sample_buffer sample_staged) as (_ & _ & _ & H & Ho).
  split; [|by rewrite Ho].
  destruct (effects (validate no_checks sample_buffer).2) as [|e l] eqn:E; [by vm_compute in E|].
  exists e. split; [by left|]. assert (effect_id e = "eff.000001" ∧ status e = VALIDATED ∧
    group_id e = "" ∧ agent_id e = "ceo" ∧ ∀ f, f ∈ e :: l → String.leb "ceo" (agent_id f) = true) as
    (Hid & Hv & Hg & Ha & Hf).
  { vm_compute in E. injection E as <- <-. repeat split; try done.
    intros f Hf. repeat (apply elem_of_cons in Hf as [->|Hf]; [reflexivity|]).
    by apply elem_of_nil in Hf. }
  split; [done|]. apply H; [left|done|done|].
  intros f Hfin _ _. rewrite Ha. by apply Hf.
Defined.

(** Two agents, each with a group over the same two resources and a third agent that loses to
    one of them on its own resource: the winner on a resource may have failed with its group,
    and then nobody commits there. *)
Definition dead_winner : TransactionBuffer :=
  one "b" "kb/y" "" (one "a" "kb/y" "g" (one "a" "kb/x" "g" (one "0" "kb/x" "" TransactionBuffer_init))).
Lemma dead_winner_starves :
  map (λ e, (agent_id e, resource e, status e)) (effects (commit_phase no_checks dead_winner)) =
    [("0", "kb/x", COMMITTED); ("a", "kb/x", FAILED); ("a", "kb/y", FAILED); ("b", "kb/y", FAILED)].
Proof. reflexivity. Qed.
