(* ===== verification/LegacyKb.v ===== *)
(** * The shared knowledge base of the previous architecture (legacy/shared_kb.py)

    Path permissions, exclusive locks with leases, version numbers, the resources, and the
    four tool handlers, of which [kb_write] stages an effect in the transaction buffer.  Times
    are ticks.  The random token of a lock is an argument of [acquire].  The audit log
    (legacy/audit.py) keeps its entries without their time stamps. *)

From stdpp Require Import base gmap strings list pretty.
From Stdlib Require Import ZArith Ascii.
From S2P Require Import Prelude PyValue LlmRuntime LegacyTransaction.

Open Scope string_scope.
Open Scope Z_scope.

(** ** Permissions *)

Inductive PermissionOp :=
| LIST | READ | CREATE | WRITE | APPEND | RENAME | DELETE | LOCK | UNLOCK | PUBLISH.
Definition op_value (o : PermissionOp) : string :=
  match o with
  | LIST => "list" | READ => "read" | CREATE => "create" | WRITE => "write" | APPEND => "append"
  | RENAME => "rename" | DELETE => "delete" | LOCK => "lock" | UNLOCK => "unlock"
  | PUBLISH => "publish"
  end.

Record PermissionRule := Rule { scope : string; principal : string; allow : list string }.

(** [s.strip("/")] *)
Fixpoint lstrip_list (c : Ascii.ascii) (l : list Ascii.ascii) : list Ascii.ascii :=
  match l with
  | [] => []
  | a :: l' => if bool_decide (a = c) then lstrip_list c l' else l
  end.
Definition strip_slashes (s : string) : string :=
  String.string_of_list_ascii
    (rstrip_list "/"%char (lstrip_list "/"%char (String.list_ascii_of_string s))).

Definition _path_matches (path scope : string) : bool :=
  let path := strip_slashes path in
  let scope := strip_slashes scope in
  if decide (path = scope) then true
  else if endswith "*" scope
       then startswith (String.substring 0 (String.length scope - 1) scope) path
  else startswith (scope +:+ "/") path.

Definition matching (rules : list PermissionRule) (who path : string) : list PermissionRule :=
  List.filter (λ r, bool_decide (principal r = who) && _path_matches path (scope r)) rules.
Definition check (rules : list PermissionRule) (who path operation : string) : bool :=
  existsb (λ r, bool_decide (operation ∈ allow r)) (matching rules who path).
Definition get_allowed_ops (rules : list PermissionRule) (who path : string) : gset string :=
  list_to_set (flat_map allow (matching rules who path)).

(** ** Versions *)

Record VersionInfo := mkVersion {
  vi_path : string; version : Z; last_modified_by : string; last_modified_at_tick : Z }.
Definition versions := dict VersionInfo.

Definition get_version (path : string) (d : versions) : Z :=
  match dget path d with Some i => version i | None => 0 end.
Definition check_version (path : string) (expected : Z) (d : versions) : bool :=
  bool_decide (get_version path d = expected).
Definition increment (path by_agent : string) (tick : Z) (d : versions) : versions :=
  dset path (mkVersion path (match dget path d with Some i => version i + 1 | None => 1 end)
               by_agent tick) d.

(** ** Errors *)

Inductive kb_error :=
| SharedKBWriteError (path reason : string)
| VersionConflictError (path : string) (expected actual : Z)
| LockConflictError (resource owner : string)
| LockTokenError (resource operation : string).
Definition error_str (e : kb_error) : string :=
  match e with
  | SharedKBWriteError p r => "Write failed for '" +:+ p +:+ "': " +:+ r
  | VersionConflictError p e a =>
      "Version conflict for '" +:+ p +:+ "': expected " +:+ pretty e +:+ ", actual " +:+ pretty a
  | LockConflictError r o => "Cannot lock '" +:+ r +:+ "': already held by '" +:+ o +:+ "'"
  | LockTokenError r o => "Lock " +:+ o +:+ " failed for '" +:+ r +:+ "': invalid token"
  end.

Definition assert_version (path : string) (expected : Z) (d : versions) : option kb_error :=
  let actual := get_version path d in
  if decide (actual = expected) then None else Some (VersionConflictError path expected actual).

(** ** Locks *)

Inductive LockStatus := ACTIVE | EXPIRED | RELEASED.
#[global] Instance LockStatus_eq_dec : EqDecision LockStatus.
Proof. solve_decision. Defined.

Record LockInfo := mkLock {
  lock_id : string;
  lock_resource : string;
  owner_agent_id : string;
  acquired_at_tick : Z;
  lease_until_tick : Z;
  lock_status : LockStatus;
  token : string }.
Definition set_lock_status (s : LockStatus) (l : LockInfo) : LockInfo :=
  mkLock (lock_id l) (lock_resource l) (owner_agent_id l) (acquired_at_tick l)
    (lease_until_tick l) s (token l).
Definition set_lease (t : Z) (l : LockInfo) : LockInfo :=
  mkLock (lock_id l) (lock_resource l) (owner_agent_id l) (acquired_at_tick l) t
    (lock_status l) (token l).
Definition active (l : LockInfo) : bool := bool_decide (lock_status l = ACTIVE).

Record LockManager := mkLocks { _locks : dict LockInfo; _lock_counter : N; _default_lease : Z }.
Definition set_locks (f : dict LockInfo → dict LockInfo) (m : LockManager) : LockManager :=
  mkLocks (f (_locks m)) (_lock_counter m) (_default_lease m).

(** [lease_ticks or self._default_lease_ticks] *)
Definition lease_of (lease : option Z) (m : LockManager) : Z :=
  match lease with Some z => if decide (z = 0) then _default_lease m else z | None => _default_lease m end.

Definition acquire (resource agent : string) (tick : Z) (lease : option Z) (tok : string)
    (m : LockManager) : (kb_error + LockInfo) * LockManager :=
  let conflict := match dget resource (_locks m) with
                  | Some l => if active l && (tick <? lease_until_tick l)
                              then Some (LockConflictError resource (owner_agent_id l)) else None
                  | None => None
                  end in
  match conflict with
  | Some e => (inl e, m)
  | None =>
      let n := N.succ (_lock_counter m) in
      let l := mkLock ("lock." +:+ pad6 n) resource agent tick (tick + lease_of lease m) ACTIVE tok in
      (inr l, mkLocks (dset resource l (_locks m)) n (_default_lease m))
  end.

Definition get_lock (resource : string) (m : LockManager) : option LockInfo :=
  match dget resource (_locks m) with
  | Some l => if active l then Some l else None
  | None => None
  end.

Definition release (resource agent tok : string) (m : LockManager) : option kb_error * LockManager :=
  match get_lock resource m with
  | None => (Some (LockTokenError resource "release"), m)
  | Some l =>
      if negb (bool_decide (token l = tok)) || negb (bool_decide (owner_agent_id l = agent))
      then (Some (LockTokenError resource "release"), m)
      else (None, set_locks (dset resource (set_lock_status RELEASED l)) m)
  end.

Definition renew (resource agent : string) (tick : Z) (tok : string) (lease : option Z)
    (m : LockManager) : (kb_error + bool) * LockManager :=
  match get_lock resource m with
  | None => (inr false, m)
  | Some l =>
      if negb (bool_decide (token l = tok)) then (inl (LockTokenError resource "renew"), m)
      else if negb (bool_decide (owner_agent_id l = agent)) then (inr false, m)
      else if lease_until_tick l <=? tick then (inr false, m)
      else (inr true, set_locks (dset resource (set_lease (tick + lease_of lease m) l)) m)
  end.

Definition lapsed (tick : Z) (l : LockInfo) : bool := active l && (lease_until_tick l <=? tick).
Definition check_expired (tick : Z) (m : LockManager) : list LockInfo * LockManager :=
  let mark l := if lapsed tick l then set_lock_status EXPIRED l else l in
  (map (set_lock_status EXPIRED) (List.filter (lapsed tick) (dvalues (_locks m))),
   set_locks (dmap mark) m).

Definition is_locked (resource : string) (tick : option Z) (m : LockManager) : bool :=
  match get_lock resource m with
  | None => false
  | Some l => match tick with Some t => negb (lease_until_tick l <=? t) | None => true end
  end.
Definition active_locks (m : LockManager) : list LockInfo :=
  List.filter active (dvalues (_locks m)).

(** ** Resources *)

Record SharedKBResource := mkResource {
  path : string;
  content : string;
  r_version : Z;
  r_modified_by : string;
  r_modified_at : Z;
  exists_ : bool }.

Record SharedKB := mkKb {
  _permissions : list PermissionRule;
  locks : LockManager;
  _versions : versions;
  _resources : dict SharedKBResource }.
Definition SharedKB_init (rules : list PermissionRule) (default_lease : Z) : SharedKB :=
  mkKb rules (mkLocks [] 0 default_lease) [] [].
Definition set_kb_locks (m : LockManager) (k : SharedKB) : SharedKB :=
  mkKb (_permissions k) m (_versions k) (_resources k).
Definition live_resource (p : string) (k : SharedKB) : option SharedKBResource :=
  match dget p (_resources k) with
  | Some r => if exists_ r then Some r else None
  | None => None
  end.
Definition permitted (k : SharedKB) (agent p : string) (o : PermissionOp) : bool :=
  check (_permissions k) agent p (op_value o).

Definition create (p agent text : string) (tick : Z) (k : SharedKB) :
    (kb_error + SharedKBResource) * SharedKB :=
  if negb (permitted k agent p CREATE)
  then (inl (SharedKBWriteError p ("Permission denied: " +:+ agent +:+ " cannot create")), k) else
  match live_resource p k with
  | Some _ => (inl (SharedKBWriteError p "Resource already exists"), k)
  | None =>
      let r := mkResource p text 1 agent tick true in
      (inr r, mkKb (_permissions k) (locks k) (increment p agent tick (_versions k))
                (dset p r (_resources k)))
  end.

Definition read (p agent : string) (k : SharedKB) : kb_error + SharedKBResource :=
  if negb (permitted k agent p READ)
  then inl (SharedKBWriteError p ("Permission denied: " +:+ agent +:+ " cannot read")) else
  match live_resource p k with
  | Some r => inr r
  | None => inl (SharedKBWriteError p "Resource not found")
  end.

Definition _apply_committed (p agent text : string) (expected tick : Z) (k : SharedKB) :
    (kb_error + SharedKBResource) * SharedKB :=
  if negb (permitted k agent p WRITE)
  then (inl (SharedKBWriteError p ("Permission denied: " +:+ agent +:+ " cannot write")), k) else
  match get_lock p (locks k) with
  | None => (inl (SharedKBWriteError p "Must hold lock to write"), k)
  | Some l =>
      if decide (owner_agent_id l ≠ agent)
      then (inl (SharedKBWriteError p ("Lock held by " +:+ owner_agent_id l)), k) else
      match assert_version p expected (_versions k) with
      | Some e => (inl e, k)
      | None =>
          let r := mkResource (match dget p (_resources k) with Some r => path r | None => p end)
                     text (expected + 1) agent tick true in
          (inr r, mkKb (_permissions k) (locks k) (increment p agent tick (_versions k))
                    (dset p r (_resources k)))
      end
  end.

Definition delete (p agent : string) (k : SharedKB) : (kb_error + bool) * SharedKB :=
  if negb (permitted k agent p DELETE)
  then (inl (SharedKBWriteError p ("Permission denied: " +:+ agent +:+ " cannot delete")), k) else
  match live_resource p k with
  | None => (inr false, k)
  | Some r =>
      (inr true,
       mkKb (_permissions k) (locks k) (_versions k)
         (dset p (mkResource (path r) "" (r_version r) (r_modified_by r) (r_modified_at r) false)
            (_resources k)))
  end.

Definition list_dir (p agent : string) (k : SharedKB) : kb_error + list string :=
  if negb (permitted k agent p LIST)
  then inl (SharedKBWriteError p ("Permission denied: " +:+ agent +:+ " cannot list")) else
  inr (map fst (List.filter (λ kv, exists_ kv.2 && startswith (strip_slashes p +:+ "/") kv.1)
                  (_resources k))).

Record hit := Hit { h_path : string; h_version : Z; snippet : string; h_by : string; h_at : Z }.
(** [s[:n]] in code points *)
Definition take_chars (n : nat) (s : string) : string :=
  fold_right String.append "" (take n (utf8_chars s)).
Definition search_hit (q agent base : string) (k : SharedKB) (kv : string * SharedKBResource) : bool :=
  let '(p, r) := kv in
  exists_ r
  && (negb (nonempty base) || startswith (base +:+ "/") p)
  && permitted k agent p READ
  && (str_contains q (lower p) || str_contains q (lower (content r))).
Definition search (query agent base_path : string) (limit : nat) (k : SharedKB) : list hit :=
  let q := lower (strip query) in
  if negb (nonempty q) then [] else
  let found := List.filter (search_hit q agent (strip_slashes base_path) k) (_resources k) in
  map (λ kv, Hit kv.1 (r_version kv.2) (take_chars 200 (content kv.2)) (r_modified_by kv.2)
               (r_modified_at kv.2)) (take (Nat.max 1 limit) found).
Definition all_paths (k : SharedKB) : list string :=
  map fst (List.filter (λ kv, exists_ kv.2) (_resources k)).

(** ** Tool handlers *)

Record ToolResult := mkResult {
  success : bool; tr_data : value; tr_error : option string; error_code : option string;
  retryable : bool; tr_agent : string; tool_name : string; tr_tick : Z }.
Record ToolContext := Context_ { cx_agent : string; cx_tick : Z }.

Definition tool_ok (name : string) (cx : ToolContext) (d : value) : ToolResult :=
  mkResult true d None None true (cx_agent cx) name (cx_tick cx).
Definition tool_fail (name : string) (cx : ToolContext) (msg code : string) (retry : bool) : ToolResult :=
  mkResult false VNone (Some msg) (Some code) retry (cx_agent cx) name (cx_tick cx).

Record AuditEntry := Audit {
  event_id : nat; event_type : string; ae_agent : string; ae_tick : Z; details : dict value;
  ae_success : bool; ae_error : option string }.
Definition record (ty agent : string) (tick : Z) (d : dict value) (ok : bool) (err : option string)
    (log : list AuditEntry) : list AuditEntry :=
  (log ++ [Audit (S (length log)) ty agent tick d ok err])%list.

(** The device with the services its handlers use. *)
Record device := mkDevice {
  kb : SharedKB;
  audit_log : option (list AuditEntry);
  buffer : option TransactionBuffer;
  tick_locks : list (string * string * string) }.
Definition audit (ty agent : string) (tick : Z) (d : dict value) (ok : bool) (err : option string)
    (s : device) : device :=
  mkDevice (kb s) (record ty agent tick d ok err <$> audit_log s) (buffer s) (tick_locks s).

Definition handle_kb_write (cx : ToolContext) (p text : string) (expected : Z) (tok : string)
    (s : device) : ToolResult * device :=
  let agent := cx_agent cx in
  if negb (check (_permissions (kb s)) agent p "kb_write")
  then (tool_fail "kb_write" cx ("Permission denied: " +:+ p) "permission_denied" false, s) else
  match acquire p agent (cx_tick cx) None tok (locks (kb s)) with
  | (inl e, _) =>
      (tool_fail "kb_write" cx (error_str e) "LOCK_CONFLICT" true,
       audit "lock.conflict" agent (cx_tick cx)
         [("resource", VStr p);
          ("owner", VStr (match e with LockConflictError _ o => o | _ => "" end))]
         false (Some (error_str e)) s)
  | (inr l, m) =>
      let s := mkDevice (set_kb_locks m (kb s)) (audit_log s) (buffer s)
                 (tick_locks s ++ [(p, agent, token l)])%list in
      let s := audit "lock.acquired" agent (cx_tick cx)
                 [("resource", VStr p); ("lease_until_tick", VInt (lease_until_tick l))] true None s in
      (tool_ok "kb_write" cx (VDict [("staged", VBool true)]),
       mkDevice (kb s) (audit_log s)
         ((λ b, (stage KB_WRITE agent p
                   [("content", VStr text); ("expected_version", VInt expected)]
                   (Some expected) (Some (token l)) "" "per_effect" b).2) <$> buffer s)
         (tick_locks s))
  end.

Definition denied_or_missing (e : kb_error) : string :=
  match e with
  | SharedKBWriteError _ reason =>
      if startswith "Permission denied" reason then "permission_denied" else "not_found"
  | _ => "not_found"
  end.

Definition handle_kb_read (cx : ToolContext) (p : string) (s : device) : ToolResult * device :=
  if negb (nonempty p)
  then (tool_fail "kb_read" cx "kb_read requires 'path'" "INVALID_ARGUMENT" false, s) else
  match read p (cx_agent cx) (kb s) with
  | inl e => (tool_fail "kb_read" cx (error_str e) (denied_or_missing e) false, s)
  | inr r =>
      (tool_ok "kb_read" cx
         (VDict [("content", VStr (content r)); ("version", VInt (r_version r));
                 ("last_modified_by", VStr (r_modified_by r));
                 ("last_modified_at_tick", VInt (r_modified_at r))]),
       audit "shared_kb.read" (cx_agent cx) (cx_tick cx) [("path", VStr p)] true None s)
  end.

Definition handle_kb_list (cx : ToolContext) (base : string) (s : device) : ToolResult * device :=
  match list_dir base (cx_agent cx) (kb s) with
  | inl e => (tool_fail "kb_list" cx (error_str e) "permission_denied" false, s)
  | inr ps => (tool_ok "kb_list" cx (VDict [("paths", VList (map VStr ps))]), s)
  end.

Definition hit_value (h : hit) : value :=
  VDict [("path", VStr (h_path h)); ("version", VInt (h_version h)); ("snippet", VStr (snippet h));
         ("last_modified_by", VStr (h_by h)); ("last_modified_at_tick", VInt (h_at h))].
(** [int(limit)] is the reader's; an argument it refuses counts as 20. *)
Definition handle_kb_search (cx : ToolContext) (query base : string) (limit : value) (s : device) :
    ToolResult * device :=
  if negb (nonempty query) || negb (nonempty (strip query))
  then (tool_fail "kb_search" cx "kb_search requires non-empty 'query'" "INVALID_ARGUMENT" false, s) else
  let n := match py_int limit with Ok n => Z.min (Z.max n 1) 100 | Raise _ => 20 end in
  let hits := search query (cx_agent cx) base (Z.to_nat n) (kb s) in
  (tool_ok "kb_search" cx (VDict [("results", VList (map hit_value hits))]),
   fold_left (λ s h, audit "shared_kb.read" (cx_agent cx) (cx_tick cx)
                       [("path", VStr (h_path h)); ("search", VStr query)] true None s) hits s).

(** ** Runs *)

Inductive kb_op :=
| OCreate (p agent text : string) (tick : Z)
| OApply (p agent text : string) (expected tick : Z)
| ODelete (p agent : string)
| OAcquire (resource agent : string) (tick : Z) (lease : option Z) (tok : string)
| ORelease (resource agent tok : string)
| ORenew (resource agent : string) (tick : Z) (tok : string) (lease : option Z)
| OExpire (tick : Z).

(** One call, and whether it did what it is for. *)
Definition kb_step (o : kb_op) (k : SharedKB) : bool * SharedKB :=
  match o with
  | OCreate p a t n => let '(r, k) := create p a t n k in (if r then false else true, k)
  | OApply p a t v n => let '(r, k) := _apply_committed p a t v n k in (if r then false else true, k)
  | ODelete p a => let '(r, k) := delete p a k in (match r with inr b => b | inl _ => false end, k)
  | OAcquire p a n l tok =>
      let '(r, m) := acquire p a n l tok (locks k) in (if r then false else true, set_kb_locks m k)
  | ORelease p a tok =>
      let '(r, m) := release p a tok (locks k) in (if r then false else true, set_kb_locks m k)
  | ORenew p a n tok l =>
      let '(r, m) := renew p a n tok l (locks k) in
      (match r with inr b => b | inl _ => false end, set_kb_locks m k)
  | OExpire n => (true, set_kb_locks (check_expired n (locks k)).2 k)
  end.
Fixpoint kb_run (ops : list kb_op) (k : SharedKB) : list (kb_op * bool) * SharedKB :=
  match ops with
  | [] => ([], k)
  | o :: ops' => let '(ok, k1) := kb_step o k in
                 let '(tr, k2) := kb_run ops' k1 in ((o, ok) :: tr, k2)
  end.

(** ** What the history of a path says *)

(** The successful writes to a path, and what the last change left there. *)
Definition writes_to (p : string) (ev : kb_op * bool) : bool :=
  match ev with
  | (OCreate q _ _ _, true) | (OApply q _ _ _ _, true) => bool_decide (q = p)
  | _ => false
  end.
Definition writes (p : string) (tr : list (kb_op * bool)) : Z :=
  Z.of_nat (length (List.filter (writes_to p) tr)).
Definition after (p : string) (ev : kb_op * bool) (c : option string) : option string :=
  match ev with
  | (OCreate q _ t _, true) | (OApply q _ t _ _, true) => if decide (q = p) then Some t else c
  | (ODelete q _, true) => if decide (q = p) then None else c
  | _ => c
  end.
Definition current (p : string) (tr : list (kb_op * bool)) : option string :=
  fold_left (λ c ev, after p ev c) tr None.

(** A state that a history leads to. *)
Definition explains (rules : list PermissionRule) (tr : list (kb_op * bool)) (k : SharedKB) : Prop :=
  _permissions k = rules ∧
  ∀ p, get_version p (_versions k) = writes p tr ∧ content <$> live_resource p k = current p tr.

Lemma writes_snoc p tr ev :
  writes p (tr ++ [ev]) = writes p tr + (if writes_to p ev then 1 else 0).
Proof.
  unfold writes. rewrite List.filter_app, length_app. simpl.
  destruct (writes_to p ev); simpl; lia.
Qed.
Lemma current_snoc p tr ev : current p (tr ++ [ev]) = after p ev (current p tr).
Proof. unfold current. by rewrite fold_left_app. Qed.

Lemma get_version_increment p q a n d :
  get_version p (increment q a n d) = get_version p d + (if decide (q = p) then 1 else 0).
Proof.
  unfold get_version, increment. rewrite dget_dset. repeat case_decide; subst; try done.
  - destruct (dget q d); simpl; lia.
  - destruct (dget p d); lia.
Qed.

(** Calls that leave versions and resources alone. *)
Lemma explains_locks rules tr k m o ok :
  explains rules tr k → (∀ p, writes_to p (o, ok) = false) → (∀ p c, after p (o, ok) c = c) →
  explains rules (tr ++ [(o, ok)]) (set_kb_locks m k).
Proof.
  intros [Hp H] Hw Ha. split; [done|]. intros p.
  rewrite writes_snoc, current_snoc, Hw, Ha, Z.add_0_r. apply H.
Qed.

(** A write of [text] at [q] that succeeded. *)
Lemma explains_write rules tr k q r o :
  explains rules tr k → exists_ r = true →
  (∀ p, writes_to p (o, true) = bool_decide (q = p)) →
  (∀ p c, after p (o, true) c = if decide (q = p) then Some (content r) else c) →
  ∀ a n, explains rules (tr ++ [(o, true)])
    (mkKb (_permissions k) (locks k) (increment q a n (_versions k)) (dset q r (_resources k))).
Proof.
  intros [Hp H] He Hw Ha a n. split; [done|]. intros p. destruct (H p) as [Hv Hc].
  rewrite writes_snoc, current_snoc, Hw, Ha. simpl. rewrite get_version_increment, Hv.
  unfold live_resource. simpl. rewrite dget_dset. fold (live_resource p k). rewrite <-Hc.
  destruct (decide (q = p)) as [->|Hne].
  - rewrite bool_decide_true, decide_True, He by done. done.
  - rewrite bool_decide_false, decide_False by congruence. done.
Qed.

Lemma explains_same rules tr k o : explains rules tr k → explains rules (tr ++ [(o, false)]) k.
Proof.
  intros [Hp H]. split; [done|]. intros p. rewrite writes_snoc, current_snoc.
  assert (writes_to p (o, false) = false) as -> by by destruct o.
  assert (after p (o, false) (current p tr) = current p tr) as -> by by destruct o.
  rewrite Z.add_0_r. apply H.
Qed.

Lemma explains_create rules tr k p a t n :
  explains rules tr k →
  let '(ok, k') := kb_step (OCreate p a t n) k in explains rules (tr ++ [(OCreate p a t n, ok)]) k'.
Proof.
  intros He. simpl. unfold create. destruct (negb _); [by apply explains_same|].
  destruct (live_resource p k); [by apply explains_same|]. by apply (explains_write rules tr k p).
Qed.

Lemma explains_apply rules tr k p a t v n :
  explains rules tr k →
  let '(ok, k') := kb_step (OApply p a t v n) k in explains rules (tr ++ [(OApply p a t v n, ok)]) k'.
Proof.
  intros He. simpl. unfold _apply_committed. destruct (negb _); [by apply explains_same|].
  destruct (get_lock _ _); [|by apply explains_same].
  destruct (decide _); [by apply explains_same|].
  destruct (assert_version _ _ _); [by apply explains_same|]. by apply (explains_write rules tr k p).
Qed.

Lemma explains_delete rules tr k p a :
  explains rules tr k →
  let '(ok, k') := kb_step (ODelete p a) k in explains rules (tr ++ [(ODelete p a, ok)]) k'.
Proof.
  intros He. simpl. unfold delete. destruct (negb _); [by apply explains_same|].
  destruct (live_resource p k) as [r|] eqn:El; [|by apply explains_same].
  destruct He as [Hp H]. split; [done|]. intros q. destruct (H q) as [Hv Hc].
  rewrite writes_snoc, current_snoc, Z.add_0_r. simpl. split; [done|].
  unfold live_resource. simpl. rewrite dget_dset. fold (live_resource q k). rewrite <-Hc.
  destruct (decide (q = p)) as [->|Hne]; [by rewrite decide_True|by rewrite decide_False by congruence].
Qed.

Lemma explains_step rules tr k o :
  explains rules tr k →
  let '(ok, k') := kb_step o k in explains rules (tr ++ [(o, ok)]) k'.
Proof.
  intros He. destruct o.
  - by apply explains_create.
  - by apply explains_apply.
  - by apply explains_delete.
  - simpl. destruct (acquire _ _ _ _ _ _) as [r m]. by apply explains_locks; [|intros ?; destruct r..].
  - simpl. destruct (release _ _ _ _) as [r m]. by apply explains_locks; [|intros ?; destruct r..].
  - simpl. destruct (renew _ _ _ _ _ _) as [r m]. by apply explains_locks; [|intros ?; destruct r as [|[]]..].
  - simpl. by apply explains_locks.
Qed.

Lemma explains_run rules tr k ops :
  explains rules tr k →
  let '(tr', k') := kb_run ops k in explains rules (tr ++ tr') k'.
Proof.
  revert tr k. induction ops as [|o ops IH]; intros tr k He; simpl; [by rewrite app_nil_r|].
  pose proof (explains_step _ _ _ o He) as Hs. destruct (kb_step o k) as [ok k1].
  specialize (IH _ _ Hs). destruct (kb_run ops k1) as [tr' k']. by rewrite <-app_assoc in IH.
Qed.

Lemma explains_init rules lease : explains rules [] (SharedKB_init rules lease).
Proof. by split. Qed.

(** C28: after any calls on a fresh knowledge base, a write by an agent is accepted exactly
    when the rules allow it, the agent holds the lock of the path, and the version it carries
    is the number of writes the path has seen: no write is lost under another that did not
    know of it.  A read shows what the last successful call left at the path. *)
Theorem kb_no_lost_update rules lease ops :
  let '(tr, k) := kb_run ops (SharedKB_init rules lease) in
  ∀ p a,
    (∀ text v n, (kb_step (OApply p a text v n) k).1 = true ↔
       check rules a p "write" = true ∧
       (∃ l, get_lock p (locks k) = Some l ∧ owner_agent_id l = a) ∧ v = writes p tr) ∧
    (∀ c, (∃ r, read p a k = inr r ∧ content r = c) ↔
       check rules a p "read" = true ∧ current p tr = Some c).
Proof.
  pose proof (explains_run rules [] _ ops (explains_init rules lease)) as He.
  destruct (kb_run ops _) as [tr k]. destruct He as [Hp H]. simpl in H. intros p a.
  destruct (H p) as [Hv Hc]. rewrite <-Hc, <-Hp, <-Hv. split.
  - intros text v n. simpl. unfold _apply_committed, permitted, assert_version. simpl.
    destruct (check _ _ _ _); simpl; [|split; [done|by intros []]].
    destruct (get_lock p (locks k)) as [l|]; [|split; [done|by intros (_ & (? & ? & _) & _)]].
    destruct (decide (owner_agent_id l ≠ a)) as [Hne|Heq].
    { split; [done|]. intros (_ & (? & ? & ?) & _). simplify_eq. }
    apply dec_stable in Heq. case_decide as Hver.
    + split; [|done]. intros _. split; [done|]. by split; [exists l|].
    + split; [done|]. by intros (_ & _ & ->).
  - intros c. unfold read, permitted. simpl.
    destruct (check _ _ _ _); simpl; [|split; [by intros (? & ? & _)|by intros []]].
    destruct (live_resource p k) as [r|]; simpl.
    + split; [intros (? & [= <-] & <-); done|intros [_ [= <-]]; by exists r].
    + split; [by intros (? & ? & _)|by intros []].
Qed.

(** ** Exclusion *)

Lemma dget_dmap {V W} (f : V → W) k (d : dict V) : dget k (dmap f d) = f <$> dget k d.
Proof. induction d as [|[k' v] d IH]; simpl; [done|]. by case_decide. Qed.

Section Held.
Variables (p a tok : string) (expiry : Z).

(** The path is locked by [a] with token [tok] up to the tick [expiry]. *)
Definition held (m : LockManager) : Prop :=
  ∃ l, dget p (_locks m) = Some l ∧ lock_status l = ACTIVE ∧ owner_agent_id l = a ∧
       token l = tok ∧ lease_until_tick l = expiry.

(** Calls made before the lease ends, other than the holder's release and renewal. *)
Definition keeps_lock (o : kb_op) : Prop :=
  match o with
  | OAcquire _ _ n _ _ | OExpire n => n < expiry
  | ORelease q b t | ORenew q b _ t _ => ¬ (q = p ∧ b = a ∧ t = tok)
  | _ => True
  end.

Lemma held_other q l m : q ≠ p → held m → held (set_locks (dset q l) m).
Proof. intros Hne (x & Hx & Hr). exists x. simpl. by rewrite dget_dset_ne. Qed.

Lemma held_get m : held m → ∃ l, get_lock p m = Some l ∧ owner_agent_id l = a ∧ token l = tok.
Proof.
  intros (l & Hl & Hs & Ho & Ht & _). exists l. unfold get_lock, active. by rewrite Hl, Hs.
Qed.

Lemma acquire_held b n l t m : held m → n < expiry →
  ∃ e, acquire p b n l t m = (inl e, m).
Proof.
  intros (x & Hx & Hs & _ & _ & Hu) Hn. unfold acquire. rewrite Hx. unfold active. rewrite Hs, Hu.
  rewrite (proj2 (Z.ltb_lt _ _) Hn). simpl. eauto.
Qed.

Lemma release_held b t m : held m → ¬ (b = a ∧ t = tok) →
  ∃ e, release p b t m = (Some e, m).
Proof.
  intros (l & Hg & Ho & Ht)%held_get Hne. unfold release. rewrite Hg, Ho, Ht.
  destruct (decide (tok = t)) as [->|]; [|rewrite bool_decide_false by done; simpl; eauto].
  rewrite (bool_decide_false (a = b)) by (intros ->; by apply Hne). rewrite orb_true_r. eauto.
Qed.

Lemma check_expired_held n m : held m → n < expiry → held (check_expired n m).2.
Proof.
  intros (l & Hl & Hs & Hr) Hn. exists l. simpl. split; [|done].
  rewrite dget_dmap, Hl. simpl. unfold lapsed. destruct Hr as (_ & _ & ->).
  rewrite (proj2 (Z.leb_gt _ _) Hn), andb_false_r. done.
Qed.

Lemma held_step o k : keeps_lock o → held (locks k) → held (locks (kb_step o k).2).
Proof.
  intros Ho Hh. destruct o as [q b t n|q b t v n|q b|q b n l t|q b t|q b n t l|n]; simpl.
  - unfold create. destruct (negb _); [done|]. by destruct (live_resource _ _).
  - unfold _apply_committed. destruct (negb _); [done|]. destruct (get_lock _ _); [|done].
    destruct (decide _); [done|]. by destruct (assert_version _ _ _).
  - unfold delete. destruct (negb _); [done|]. by destruct (live_resource _ _).
  - destruct (decide (q = p)) as [->|Hne].
    + destruct (acquire_held b n l t _ Hh Ho) as [e ->]. done.
    + unfold acquire. destruct (match dget q _ with Some _ => _ | None => None end); [done|].
      destruct Hh as (x & Hx & Hr). exists x. simpl. by rewrite dget_dset_ne.
  - destruct (decide (q = p)) as [->|Hne].
    + destruct (release_held b t _ Hh) as [e ->]; [naive_solver|done].
    + unfold release. destruct (get_lock q _); [|done]. destruct (_ || _); [done|]. by apply held_other.
  - unfold renew. destruct (get_lock q (locks k)) as [x|] eqn:Eg; [|done].
    destruct (decide (q = p)) as [->|Hne].
    + destruct (held_get _ Hh) as (y & Hy & Hyo & Hyt). simplify_eq.
      destruct (decide (token x = t)) as [Ht|]; [|by rewrite bool_decide_false].
      rewrite bool_decide_true by done. simpl.
      rewrite (bool_decide_false (owner_agent_id x = b)); [done|].
      intros Hb. apply Ho. split; [done|]. split; congruence.
    + destruct (negb _); [done|]. destruct (negb _); [done|]. destruct (_ <=? _); [done|].
      by apply held_other.
  - by apply check_expired_held.
Qed.

Lemma held_run ops k : Forall keeps_lock ops → held (locks k) → held (locks (kb_run ops k).2).
Proof.
  revert k. induction ops as [|o ops IH]; intros k Hf Hh; [done|].
  apply Forall_cons in Hf as [Ho Hf]. simpl.
  pose proof (held_step o k Ho Hh) as H1. destruct (kb_step o k) as [ok k1].
  specialize (IH k1 Hf H1). by destruct (kb_run ops k1).
Qed.
End Held.

(** An agent that acquires the lock of a path keeps it to the end of its lease, through
    any calls of others: until then, unless the agent itself releases or renews it, nobody
    acquires the lock, no other agent's write to the path is accepted, and nobody without both
    the agent's name and the token releases it. *)
Theorem kb_lock_exclusive k p a n lease tok ops :
  let expiry := n + lease_of lease (locks k) in
  (kb_step (OAcquire p a n lease tok) k).1 = true →
  Forall (keeps_lock p a tok expiry) ops →
  let k2 := (kb_run ops (kb_step (OAcquire p a n lease tok) k).2).2 in
  (∀ b n' l' t', n' < expiry → (kb_step (OAcquire p b n' l' t') k2).1 = false) ∧
  (∀ b text v n', b ≠ a → (kb_step (OApply p b text v n') k2).1 = false) ∧
  (∀ b t', ¬ (b = a ∧ t' = tok) → (kb_step (ORelease p b t') k2).1 = false).
Proof.
  intros expiry Hok Hf k2. assert (Hh : held p a tok expiry (locks k2)).
  { apply held_run; [done|]. revert Hok. simpl. unfold acquire.
    destruct (match dget p _ with Some _ => _ | None => None end); [done|]. intros _.
    eexists. simpl. rewrite dget_dset_eq. done. }
  split; [|split].
  - intros b n' l' t' Hn. simpl. destruct (acquire_held p a tok expiry b n' l' t' _ Hh Hn) as [e ->]. done.
  - intros b text v n' Hne. simpl. unfold _apply_committed.
    destruct (negb _); [done|]. destruct (held_get _ _ _ _ _ Hh) as (l & -> & Ho & _).
    rewrite decide_True by congruence. done.
  - intros b t' Hne. simpl. destruct (release_held p a tok expiry b t' _ Hh Hne) as [e ->]. done.
Qed.

(** ** Witness and examples *)

Definition sample_rules : list PermissionRule :=
  [Rule "kb/*" "ceo" ["create"; "read"; "write"; "delete"; "kb_write"];
   Rule "kb/*" "eng" ["read"; "write"]].
Definition sample_kb : SharedKB :=
  (kb_run [OCreate "kb/a" "ceo" "v1" 0] (SharedKB_init sample_rules 4)).2.

Lemma kb_lock_exclusive_witness :
  (kb_step (OAcquire "kb/a" "ceo" 1 None "t1") sample_kb).1 = true ∧
  (kb_step (OApply "kb/a" "eng" "mine" 1 2)
     (kb_run [OAcquire "kb/a" "eng" 2 None "t2"; ORelease "kb/a" "eng" "t1"; OExpire 4]
        (kb_step (OAcquire "kb/a" "ceo" 1 None "t1") sample_kb).2).2).1 = false.
Proof.
  split; [reflexivity|].
  apply (kb_lock_exclusive sample_kb "kb/a" "ceo" 1 None "t1"
           [OAcquire "kb/a" "eng" 2 None "t2"; ORelease "kb/a" "eng" "t1"; OExpire 4]).
  - reflexivity.
  - repeat constructor. by intros (_ & ? & _).
  - done.
Defined.

(** A path that is deleted and created again carries version 1 next to a version counter that
    went on: whoever reads it and writes with the version it shows is refused. *)
Lemma recreate_refuses_readers :
  let k := (kb_run [ODelete "kb/a" "ceo"; OCreate "kb/a" "ceo" "v2" 1;
                    OAcquire "kb/a" "ceo" 1 None "t1"] sample_kb).2 in
  ∃ r, read "kb/a" "ceo" k = inr r ∧
    (_apply_committed "kb/a" "ceo" "v3" (r_version r) 1 k).1 = inl (VersionConflictError "kb/a" 1 2).
Proof. eexists. by split. Qed.

(** A recursive pattern as the documentation writes it matches no path below it. *)
Lemma recursive_scope_matches_nothing :
  _path_matches "project/research/report.md" "project/**" = false.
Proof. reflexivity. Qed.

(** The tool asks for an operation that the list of operations does not have; the commit asks
    for another: an agent the documented [write] is granted to cannot use the tool. *)
Lemma write_rule_is_not_enough cx text v tok s :
  _permissions (kb s) = sample_rules → cx_agent cx = "eng" →
  success (handle_kb_write cx "kb/a" text v tok s).1 = false ∧
  check sample_rules "eng" "kb/a" (op_value WRITE) = true.
Proof. intros Hp Ha. unfold handle_kb_write. by rewrite Hp, Ha. Qed.
