(* ===== verification/LegacyPatch.v ===== *)
(** * Unified-diff patches of the previous architecture (legacy/patch_ops.py)

    A strict engine: the text is parsed into hunks, and a hunk applies where its context and
    removed lines equal the content at its position.  Files are sequences of lines.  Digits
    are the ASCII ones. *)

From stdpp Require Import base gmap strings list.
From Stdlib Require Import ZArith Ascii.
From S2P Require Import Prelude PyValue Json.

Open Scope string_scope.
Open Scope Z_scope.
Open Scope nat_scope.

(** ** Lines *)

(** The boundaries of [str.splitlines]; a carriage return takes a following line feed. *)
Definition LF : string := byte_str [10].
Definition CR : string := byte_str [13].
Definition LINE_ENDS : list string :=
  map byte_str [[10]; [11]; [12]; [13]; [28]; [29]; [30]; [194; 133]; [226; 128; 168]; [226; 128; 169]].

Fixpoint split_chars (cs : list string) (cur : string) : list string :=
  match cs with
  | [] => if nonempty cur then [cur] else []
  | c :: cs' =>
      if decide (c = CR) then
        match cs' with
        | d :: cs'' => if decide (d = LF) then cur :: split_chars cs'' ""
                       else cur :: split_chars cs' ""
        | [] => [cur]
        end
      else if decide (c ∈ LINE_ENDS) then cur :: split_chars cs' ""
      else split_chars cs' (cur +:+ c)
  end.
Definition splitlines (s : string) : list string := split_chars (utf8_chars s) "".

(** ** Hunks *)

Inductive patch_error :=
| EmptyPatch
| MalformedHeader (line : string)
| UnexpectedEnd
| MalformedLine (line : string)
| ExceedsOld (old_count : Z)
| ExceedsNew (new_count : Z)
| NoHunks
| NewFileExists
| NewFileContext
| Overlap (at_line consumed : Z)
| Mismatch (old_start at_line : Z) (expected : string) (found : option string).
(** [PatchError.conflict] *)
Definition conflict (e : patch_error) : bool :=
  match e with NewFileExists | Mismatch _ _ _ _ => true | _ => false end.

Record PatchHunk := mkHunk {
  old_start : Z; old_count : Z; new_start : Z; new_count : Z; lines : list string }.
Definition is_new_file (h : PatchHunk) : bool := (old_start h =? 0)%Z && (old_count h =? 0)%Z.

(** [_HUNK_RE]: one or more digits. *)
Definition number (s : string) : option (Z * string) :=
  match digits 0 0 s with
  | (_, O, _) => None
  | (n, _, rest) => Some (n, rest)
  end.
Definition token (t s : string) : option string :=
  if String.prefix t s then Some (String.substring (String.length t) (String.length s - String.length t) s)
  else None.
(** [(\d+)(?:,(\d+))?], the count 1 when it is absent *)
Definition hunk_range (s : string) : option (Z * Z * string) :=
  match number s with
  | None => None
  | Some (a, r) =>
      match token "," r with
      | Some r' => match number r' with
                   | Some (n, r'') => Some (a, n, r'')
                   | None => Some (a, 1%Z, r)
                   end
      | None => Some (a, 1%Z, r)
      end
  end.
Definition hunk_header (s : string) : option (Z * Z * Z * Z) :=
  match token "@@ -" s with
  | None => None
  | Some r =>
      match hunk_range r with
      | None => None
      | Some (a, n, r) =>
          match token " +" r with
          | None => None
          | Some r =>
              match hunk_range r with
              | None => None
              | Some (c, m, r) => match token " @@" r with
                                  | Some _ => Some (a, n, c, m)
                                  | None => None
                                  end
              end
          end
      end
  end.

(** [lines[i][:1]] *)
Inductive prefix := Context | Added | Removed.
Definition line_prefix (l : string) : option prefix :=
  match l with
  | String c _ => if decide (c = " "%char) then Some Context
                  else if decide (c = "+"%char) then Some Added
                  else if decide (c = "-"%char) then Some Removed
                  else None
  | EmptyString => None
  end.
(** [ln[1:]] *)
Definition line_text (l : string) : string := match l with String _ t => t | EmptyString => "" end.

(** The body of a hunk: its lines, and the lines after it. *)
Fixpoint hunk_body (old_count new_count old_seen new_seen : Z) (ls : list string) :
    patch_error + (list string * list string) :=
  if negb ((old_seen <? old_count) || (new_seen <? new_count))%Z then inr ([], ls) else
  match ls with
  | [] => inl UnexpectedEnd
  | l :: ls' =>
      let next o n := match hunk_body old_count new_count o n ls' with
                      | inl e => inl e
                      | inr (body, rest) => inr (l :: body, rest)
                      end in
      match line_prefix l with
      | None => inl (MalformedLine l)
      | Some Context => next (old_seen + 1)%Z (new_seen + 1)%Z
      | Some Removed =>
          if (old_count <? old_seen + 1)%Z then inl (ExceedsOld old_count)
          else next (old_seen + 1)%Z new_seen
      | Some Added =>
          if (new_count <? new_seen + 1)%Z then inl (ExceedsNew new_count)
          else next old_seen (new_seen + 1)%Z
      end
  end.

Definition file_header (l : string) : bool :=
  existsb (λ p, String.prefix p l) ["--- "; "+++ "; "diff --git "; "index "].
Fixpoint skip_headers (ls : list string) : list string :=
  match ls with
  | [] => []
  | l :: ls' => if file_header l then skip_headers ls' else ls
  end.

(** The loop over the lines; every turn consumes one at least, so their number is enough fuel. *)
Fixpoint parse_hunks (fuel : nat) (ls : list string) : patch_error + list PatchHunk :=
  match fuel with
  | O => inr []
  | S f =>
      match ls with
      | [] => inr []
      | l :: ls' =>
          if String.prefix "@@" l then
            match hunk_header l with
            | None => inl (MalformedHeader l)
            | Some (a, n, c, m) =>
                match hunk_body n m 0 0 ls' with
                | inl e => inl e
                | inr (body, rest) =>
                    match parse_hunks f rest with
                    | inl e => inl e
                    | inr hs => inr (mkHunk a n c m body :: hs)
                    end
                end
            end
          else parse_hunks f ls'
      end
  end.

Definition parse_unified_patch (text : string) : patch_error + list PatchHunk :=
  if negb (nonempty text) || negb (nonempty (strip text)) then inl EmptyPatch else
  let ls := skip_headers (splitlines text) in
  match parse_hunks (length ls) ls with
  | inl e => inl e
  | inr [] => inl NoHunks
  | inr hs => inr hs
  end.

(** ** Application *)

Definition on_old (l : string) : bool :=
  match line_prefix l with Some Context | Some Removed => true | _ => false end.
Definition on_new (l : string) : bool :=
  match line_prefix l with Some Context | Some Added => true | _ => false end.
Definition is_added (l : string) : bool := match line_prefix l with Some Added => true | _ => false end.

(** The match of one hunk from index [idx]: the index after it. *)
Fixpoint match_hunk (start : Z) (old_lines : list string) (ls : list string) (idx : nat) :
    patch_error + nat :=
  match ls with
  | [] => inr idx
  | l :: ls' =>
      if on_old l then
        if decide (old_lines !! idx = Some (line_text l))
        then match_hunk start old_lines ls' (S idx)
        else inl (Mismatch start (Z.of_nat idx + 1) (line_text l) (old_lines !! idx))
      else match_hunk start old_lines ls' idx
  end.

Definition slice (i j : nat) (l : list string) : list string := take (j - i) (drop i l).

(** The loop over the hunks: the lines so far and the number of old lines consumed. *)
Fixpoint apply_hunks (content : string) (old_lines : list string) (hs : list PatchHunk)
    (out : list string) (cursor : nat) : patch_error + (list string * nat) :=
  match hs with
  | [] => inr (out, cursor)
  | h :: hs' =>
      if is_new_file h then
        if nonempty (strip content) then inl NewFileExists
        else if existsb on_old (lines h) then inl NewFileContext
        else apply_hunks content old_lines hs' (map line_text (List.filter is_added (lines h))) cursor
      else
        let pos := (old_start h - 1)%Z in
        if (pos <? Z.of_nat cursor)%Z then inl (Overlap (pos + 1) (Z.of_nat cursor)) else
        match match_hunk (old_start h) old_lines (lines h) (Z.to_nat pos) with
        | inl e => inl e
        | inr idx =>
            apply_hunks content old_lines hs'
              (out ++ slice cursor (Z.to_nat pos) old_lines
                   ++ map line_text (List.filter on_new (lines h)))%list idx
        end
  end.

Definition apply_patch (content text : string) : patch_error + string :=
  match parse_unified_patch text with
  | inl e => inl e
  | inr hs =>
      match apply_hunks content (splitlines content) hs [] 0 with
      | inl e => inl e
      | inr (out, cursor) => inr (str_join LF (out ++ drop cursor (splitlines content))%list)
      end
  end.

(** ** What a patch says

    A hunk replaces the old lines at its position by the new ones; what lies between the hunks
    is kept. *)
Definition old_side (h : PatchHunk) : list string := map line_text (List.filter on_old (lines h)).
Definition new_side (h : PatchHunk) : list string := map line_text (List.filter on_new (lines h)).
Definition position (h : PatchHunk) : nat := Z.to_nat (old_start h - 1).

(** [patched c hs old new]: the hunks turn the lines [old], which follow the first [c] lines of
    the file, into [new].  The last case is an insertion past the end of the file, which the
    engine makes at the end. *)
Inductive patched : nat → list PatchHunk → list string → list string → Prop :=
| patched_nil c rest : patched c [] rest rest
| patched_cons c h hs gap rest out :
    (Z.of_nat c ≤ old_start h - 1)%Z → c + length gap = position h →
    patched (position h + length (old_side h)) hs rest out →
    patched c (h :: hs) (gap ++ old_side h ++ rest) (gap ++ new_side h ++ out)
| patched_beyond c h hs gap out :
    (Z.of_nat c ≤ old_start h - 1)%Z → c + length gap < position h → old_side h = [] →
    patched (position h) hs [] out →
    patched c (h :: hs) gap (gap ++ new_side h ++ out).

Lemma match_hunk_iff start old ls i j :
  let side := map line_text (List.filter on_old ls) in
  match_hunk start old ls i = inr j ↔ (∃ rest, drop i old = (side ++ rest)%list) ∧ j = i + length side.
Proof.
  revert i. induction ls as [|l ls IH]; intros i; simpl.
  { split; [intros [= <-]; split; [by eexists|lia]|]. intros [_ ->]. f_equal. lia. }
  destruct (on_old l); simpl; [|apply IH].
  case_decide as Hl.
  - rewrite IH. rewrite (drop_S old _ i Hl). split; intros [(rest & Hr) ->]; split; try lia.
    + exists rest. by rewrite Hr.
    + exists rest. simpl in Hr. by injection Hr.
  - split; [done|]. intros [(rest & Hr) _]. destruct Hl. rewrite <-(Nat.add_0_r i), <-lookup_drop, Hr. done.
Qed.

Lemma slice_app i j (l : list string) : i ≤ j → drop i l = (slice i j l ++ drop j l)%list.
Proof.
  intros H. unfold slice. rewrite <-(take_drop (j - i) (drop i l)) at 1.
  rewrite drop_drop. by replace (i + (j - i)) with j by lia.
Qed.

Lemma apply_hunks_out content old hs out c :
  Forall (λ h, is_new_file h = false) hs →
  apply_hunks content old hs out c =
    match apply_hunks content old hs [] c with
    | inl e => inl e
    | inr (o, c') => inr ((out ++ o)%list, c')
    end.
Proof.
  intros Hf. revert out c. induction Hf as [|h hs Hh Hf IH]; intros out c; simpl.
  { by rewrite app_nil_r. }
  rewrite Hh. destruct (_ <? _)%Z; [done|]. destruct (match_hunk _ _ _ _) as [e|j]; [done|].
  rewrite IH, (IH (slice _ _ _ ++ _)%list). destruct (apply_hunks _ _ hs [] j) as [e|[o c']]; [done|].
  by rewrite !app_assoc.
Qed.

Lemma slice_split (old gap r : list string) c :
  drop c old = (gap ++ r)%list →
  drop (c + length gap) old = r ∧ slice c (c + length gap) old = gap.
Proof.
  intros H. unfold slice. rewrite <-drop_drop, H, drop_app_length. split; [done|].
  replace (c + length gap - c) with (length gap) by lia. apply take_app_length.
Qed.

(** A slice that stops short stops at the end of the file. *)
Lemma slice_short (old : list string) c p :
  c ≤ p → c + length (slice c p old) = p ∨ c + length (slice c p old) < p ∧ drop p old = [].
Proof.
  intros. unfold slice. rewrite length_take, length_drop.
  destruct (decide (p - c ≤ length old - c)); [left; lia|right].
  split; [lia|apply drop_ge; lia].
Qed.

(** The step of the loop and of the relation on one hunk that is in order. *)
Section OneHunk.
Variables (old : list string) (c : nat) (h : PatchHunk) (hs : list PatchHunk).
Hypothesis order : (Z.of_nat c ≤ old_start h - 1)%Z.

Lemma position_ge : c ≤ position h.
Proof. unfold position. lia. Qed.

Lemma patched_match new :
  patched c (h :: hs) (drop c old) new →
  ∃ rest, drop (position h) old = (old_side h ++ rest)%list ∧
  ∃ out, patched (position h + length (old_side h)) hs rest out ∧
    new = (slice c (position h) old ++ new_side h ++ out)%list.
Proof.
  intros H. inversion H as [|? ? ? gap rest out _ Hgap Hp Ec Ehs Ed Enew|? ? ? gap out _ Hgap Hs Hp Ec Ehs Ed Enew]; subst.
  - destruct (slice_split old gap (old_side h ++ rest) c) as [H1 H2]; [done|].
    rewrite Hgap in H1, H2. exists rest. split; [done|]. exists out. by rewrite H2.
  - exists []. rewrite Hs. simpl.
    assert (drop (position h) old = []) as ->.
    { apply drop_ge. rewrite length_drop in Hgap. lia. }
    split; [done|]. exists out. rewrite Nat.add_0_r. split; [done|]. f_equal.
    unfold slice. symmetry. apply take_ge. lia.
Qed.

Lemma match_patched rest out :
  drop (position h) old = (old_side h ++ rest)%list →
  patched (position h + length (old_side h)) hs rest out →
  patched c (h :: hs) (drop c old) (slice c (position h) old ++ new_side h ++ out).
Proof.
  intros Hd Hp. pose proof position_ge as Hge. rewrite (slice_app c (position h) old), Hd by done.
  destruct (slice_short old c (position h) Hge) as [Hs|[Hs Hnil]]; [by apply patched_cons|].
  rewrite Hnil in Hd. symmetry in Hd. apply app_nil in Hd as [Hd ->].
  rewrite Hd in Hp |- *. simpl in Hp. rewrite Nat.add_0_r in Hp. rewrite app_nil_r.
  by apply patched_beyond.
Qed.
End OneHunk.

Lemma apply_hunks_iff content old hs c new :
  Forall (λ h, is_new_file h = false) hs →
  (∃ o c', apply_hunks content old hs [] c = inr (o, c') ∧ new = (o ++ drop c' old)%list) ↔
  patched c hs (drop c old) new.
Proof.
  intros Hf. revert c new. induction Hf as [|h hs Hh Hf IH]; intros c new; simpl.
  { split; [intros (o & c' & [= <- <-] & ->); constructor|].
    intros H. inversion H; subst. by do 2 eexists. }
  rewrite Hh. fold (position h) (new_side h).
  destruct (Z.ltb_spec (old_start h - 1) (Z.of_nat c)) as [Hlt|Hge].
  { split; [by intros (? & ? & ? & _)|]. intros H. inversion H; subst; lia. }
  destruct (match_hunk (old_start h) old (lines h) (position h)) as [e|j] eqn:Em.
  { split; [by intros (? & ? & ? & _)|]. intros (rest & Hd & _)%patched_match. exfalso.
    assert (match_hunk (old_start h) old (lines h) (position h) = inr (position h + length (old_side h)))
      by (apply match_hunk_iff; split; [by exists rest|done]).
    congruence. }
  apply match_hunk_iff in Em as [(rest & Hr) Hj]. fold (old_side h) in Hr, Hj.
  assert (Hrest : drop j old = rest) by by rewrite Hj, <-drop_drop, Hr, drop_app_length.
  rewrite apply_hunks_out by done. split.
  - intros (o & c' & Ho & ->).
    destruct (apply_hunks content old hs [] j) as [e|[o1 c1]] eqn:Ea; [done|].
    injection Ho as <- <-. rewrite <-!app_assoc. apply (match_patched old c h hs Hge rest); [done|].
    rewrite <-Hj, <-Hrest. apply IH. eauto.
  - intros (rest' & Hd & out & Hp & ->)%patched_match.
    rewrite Hr in Hd. apply app_inv_head in Hd as <-.
    rewrite <-Hj, <-Hrest in Hp. apply IH in Hp as (o & c' & -> & ->).
    do 2 eexists. split; [done|]. by rewrite <-!app_assoc.
Qed.

(** Applying a patch of edits to existing content succeeds with exactly the contents the
    hunks describe: the lines between the hunks kept, the old side of each hunk found at its
    position and replaced by the new side. *)
Theorem apply_patch_iff content text hs r :
  parse_unified_patch text = inr hs → Forall (λ h, is_new_file h = false) hs →
  (apply_patch content text = inr r ↔
   ∃ new, patched 0 hs (splitlines content) new ∧ r = str_join LF new).
Proof.
  intros Hp Hf. unfold apply_patch. rewrite Hp.
  pose proof (λ new, apply_hunks_iff content (splitlines content) hs 0 new Hf) as H.
  rewrite drop_0 in H. split.
  - destruct (apply_hunks _ _ hs [] 0) as [e|[o c']] eqn:Ea; [done|]. intros [= <-].
    eexists. split; [apply H; eauto|done].
  - intros (new & Hn & ->). apply H in Hn as (o & c' & -> & ->). done.
Qed.

(** ** The inverse patch *)

Definition reverse_line (l : string) : string :=
  match line_prefix l with
  | Some Added => String "-"%char (line_text l)
  | Some Removed => String "+"%char (line_text l)
  | _ => l
  end.
Definition reverse (h : PatchHunk) : PatchHunk :=
  mkHunk (new_start h) (new_count h) (old_start h) (old_count h) (map reverse_line (lines h)).

Lemma reverse_line_cases l :
  on_old (reverse_line l) = on_new l ∧ on_new (reverse_line l) = on_old l ∧
  line_text (reverse_line l) = line_text l.
Proof.
  unfold reverse_line, on_old, on_new. destruct (line_prefix l) as [[]|] eqn:E; rewrite ?E; done.
Qed.

Lemma reverse_sides h : old_side (reverse h) = new_side h ∧ new_side (reverse h) = old_side h.
Proof.
  unfold old_side, new_side, reverse. simpl.
  induction (lines h) as [|l ls [IH1 IH2]]; simpl; [done|].
  destruct (reverse_line_cases l) as (-> & -> & Ht).
  destruct (on_new l), (on_old l); simpl; rewrite ?Ht, IH1, IH2; done.
Qed.

(** The new positions are those the earlier hunks shift the old ones to. *)
Fixpoint aligned (c d : nat) (hs : list PatchHunk) : Prop :=
  match hs with
  | [] => True
  | h :: hs' =>
      let d' := d + (position h - c) in
      new_start h = (Z.of_nat d' + 1)%Z ∧
      aligned (position h + length (old_side h)) (d' + length (new_side h)) hs'
  end.

(** The inverse of a patch whose hunks have context or removed lines undoes it. *)
Lemma patched_reverse c d hs old new :
  patched c hs old new → aligned c d hs → Forall (λ h, old_side h ≠ []) hs →
  patched d (map reverse hs) new old.
Proof.
  intros H. revert d.
  induction H as [c rest|c h hs gap rest out Ho Hg _ IH|c h hs gap out _ _ Hs]; simpl; intros d Ha Hf.
  - constructor.
  - destruct Ha as [Hd Ha]. apply Forall_cons in Hf as [_ Hf].
    destruct (reverse_sides h) as [Hro Hrn]. rewrite <-Hro, <-Hrn.
    assert (Hpos : position (reverse h) = d + length gap).
    { unfold position. simpl. rewrite Hd. lia. }
    apply patched_cons; [simpl; lia|by rewrite Hpos|].
    rewrite Hro, Hpos. replace (position h - c) with (length gap) in Ha by lia. by apply IH.
  - apply Forall_cons in Hf as [Hne _]. by destruct Hne.
Qed.

Lemma aligned_edits c d hs : aligned c d hs → Forall (λ h, is_new_file h = false) (map reverse hs).
Proof.
  revert c d. induction hs as [|h hs IH]; simpl; intros c d; [constructor|].
  intros [Hd Ha]. constructor; [|by eapply IH]. unfold is_new_file. simpl.
  apply andb_false_iff. left. apply Z.eqb_neq. lia.
Qed.

Lemma patch_reversible content content' old hs o c :
  apply_hunks content old hs [] 0 = inr (o, c) →
  Forall (λ h, is_new_file h = false) hs → Forall (λ h, old_side h ≠ []) hs → aligned 0 0 hs →
  let new := (o ++ drop c old)%list in
  ∃ o' c', apply_hunks content' new (map reverse hs) [] 0 = inr (o', c') ∧
           old = (o' ++ drop c' new)%list.
Proof.
  intros Ho Hf Hs Ha new. apply apply_hunks_iff; [by eapply aligned_edits|]. rewrite drop_0.
  eapply patched_reverse; [|done|done].
  pose proof (apply_hunks_iff content old hs 0 new Hf) as [H _]. rewrite drop_0 in H. apply H. eauto.
Qed.

(** ** Witness and examples *)

Definition text_of (ls : list string) : string := str_join LF ls.
Definition sample_patch : string :=
  text_of ["--- a/f"; "+++ b/f"; "@@ -2,2 +2,2 @@"; " b"; "-c"; "+x"].

Lemma apply_patch_iff_witness :
  ∃ new, (∃ hs, patched 0 hs ["a"; "b"; "c"; "d"] new) ∧ str_join LF new = text_of ["a"; "b"; "x"; "d"].
Proof.
  destruct (parse_unified_patch sample_patch) as [e|hs] eqn:E; [by vm_compute in E|].
  assert (Hf : Forall (λ h, is_new_file h = false) hs).
  { vm_compute in E. injection E as <-. by repeat constructor. }
  destruct (apply_patch_iff (text_of ["a"; "b"; "c"; "d"]) sample_patch hs
              (text_of ["a"; "b"; "x"; "d"]) E Hf) as [H _].
  destruct H as (new & Hn & Hr); [reflexivity|].
  exists new. split; [exists hs; exact Hn|done].
Defined.

(** An insertion hunk without context says "after this line" in the unified format; the engine
    inserts before it. *)
Lemma insertion_misplaced :
  apply_patch (text_of ["a"; "b"; "c"]) (text_of ["@@ -2,0 +3 @@"; "+x"]) =
    inr (text_of ["a"; "x"; "b"; "c"]).
Proof. reflexivity. Qed.

(** Context lines may exceed the counts of the header. *)
Lemma context_exceeds_count :
  ∃ h, parse_unified_patch (text_of ["@@ -1 +1,2 @@"; " a"; " b"]) = inr [h] ∧
       old_count h = 1%Z ∧ length (old_side h) = 2.
Proof. eexists. by split. Qed.

(** An insertion past the end of the file is accepted. *)
Lemma insertion_past_end :
  apply_patch "a" (text_of ["@@ -9,0 +9 @@"; "+x"]) = inr (text_of ["a"; "x"]).
Proof. reflexivity. Qed.
