(* ===== verification/LegacyAgentState.v ===== *)
(** * The lifecycle of an agent in the previous architecture (legacy/agent_state.py)

    A state machine per agent, whose transitions a table allows, and an audit log the machines
    share.  The time stamp of an entry is an argument. *)

From stdpp Require Import base gmap strings list relations.
From Stdlib Require Import ZArith.
From S2P Require Import Prelude PyValue.

Open Scope string_scope.
Open Scope nat_scope.

(** ** States *)

Inductive AgentState :=
| CREATED | INITIALIZED | READY | IDLE | PROCESSING | WAITING | WAITING_FOR_LLM
| WAITING_FOR_TOOL | WAITING_FOR_CHILD | WAITING_FOR_MAIL | WAITING_FOR_LOCK
| WAITING_FOR_HUMAN | WAITING_FOR_EXTERNAL | BLOCKED | PAUSED | FAILED | TERMINATED.
#[global] Instance AgentState_eq_dec : EqDecision AgentState.
Proof. solve_decision. Defined.

Definition WAITING_STATES : list AgentState :=
  [WAITING; WAITING_FOR_LLM; WAITING_FOR_TOOL; WAITING_FOR_CHILD; WAITING_FOR_MAIL;
   WAITING_FOR_LOCK; WAITING_FOR_HUMAN; WAITING_FOR_EXTERNAL].
Definition PHASE_LIFECYCLE : list AgentState := [CREATED; INITIALIZED; READY].
Definition PHASE_RUNNING : list AgentState :=
  ([IDLE; PROCESSING] ++ WAITING_STATES ++ [BLOCKED; PAUSED; FAILED])%list.
Definition PHASE_TERMINAL : list AgentState := [TERMINATED].
Definition is_running (s : AgentState) : bool := bool_decide (s ∈ PHASE_RUNNING).
Definition is_terminal (s : AgentState) : bool := bool_decide (s ∈ PHASE_TERMINAL).

Definition TRANSITION_TABLE (s : AgentState) : list AgentState :=
  match s with
  | CREATED => [INITIALIZED]
  | INITIALIZED => [READY]
  | READY => [IDLE; PROCESSING; TERMINATED]
  | IDLE => [READY; PROCESSING; PAUSED; FAILED; TERMINATED]
  | PROCESSING =>
      [WAITING; WAITING_FOR_LLM; WAITING_FOR_TOOL; WAITING_FOR_CHILD; WAITING_FOR_MAIL;
       WAITING_FOR_LOCK; WAITING_FOR_HUMAN; WAITING_FOR_EXTERNAL; BLOCKED; IDLE; FAILED; PAUSED]
  | WAITING | WAITING_FOR_LLM | WAITING_FOR_TOOL | WAITING_FOR_CHILD | WAITING_FOR_MAIL
  | WAITING_FOR_LOCK | WAITING_FOR_HUMAN | WAITING_FOR_EXTERNAL =>
      [PROCESSING; BLOCKED; FAILED; PAUSED]
  | BLOCKED => [IDLE; PROCESSING; FAILED; TERMINATED]
  | PAUSED =>
      [IDLE; PROCESSING; READY; WAITING; WAITING_FOR_LLM; WAITING_FOR_TOOL; WAITING_FOR_CHILD;
       WAITING_FOR_MAIL; WAITING_FOR_LOCK; WAITING_FOR_HUMAN; WAITING_FOR_EXTERNAL; BLOCKED;
       FAILED; TERMINATED]
  | FAILED => [IDLE; TERMINATED; PROCESSING]
  | TERMINATED => []
  end.

(** ** The audit log *)

Record AuditEntry := mkEntry {
  timestamp : string;
  agent_id : string;
  from_state : AgentState;
  to_state : AgentState;
  tick : option Z;
  reason : string;
  metadata : dict value }.
Definition AuditLog : Type := list AuditEntry.

Definition record (e : AuditEntry) (log : AuditLog) : AuditLog := (log ++ [e])%list.
Definition for_agent (a : string) (log : AuditLog) : list AuditEntry :=
  List.filter (λ e, bool_decide (agent_id e = a)) log.
Definition last_for_agent (a : string) (log : AuditLog) : option AuditEntry := last (for_agent a log).

(** ** The machine *)

Record AgentStateMachine := mkMachine {
  _agent_id : string; _state : AgentState; _transition_count : nat }.

Record InvalidTransitionError := Invalid {
  err_agent : string; err_from : AgentState; err_to : AgentState }.

(** What a caller may say about a transition. *)
Record remark := Remark { r_now : string; r_tick : option Z; r_reason : string; r_meta : dict value }.

Definition AgentStateMachine_init (a : string) (initial : AgentState) (now : string) (log : AuditLog) :
    AgentStateMachine * AuditLog :=
  (mkMachine a initial 0,
   if decide (initial = CREATED) then log
   else record (mkEntry now a CREATED initial None "initialized with non-default state" []) log).

Definition can_transition_to (m : AgentStateMachine) (target : AgentState) : bool :=
  bool_decide (target ∈ TRANSITION_TABLE (_state m)).

Definition transition (target : AgentState) (r : remark) (m : AgentStateMachine) (log : AuditLog) :
    (InvalidTransitionError + AuditEntry) * AgentStateMachine * AuditLog :=
  if can_transition_to m target then
    let e := mkEntry (r_now r) (_agent_id m) (_state m) target (r_tick r) (r_reason r) (r_meta r) in
    (inr e, mkMachine (_agent_id m) target (S (_transition_count m)), record e log)
  else (inl (Invalid (_agent_id m) (_state m) target), m, log).

Definition initialize := transition INITIALIZED.
Definition mark_ready := transition READY.
Definition start := transition IDLE.
Definition begin_processing := transition PROCESSING.
Definition wait := transition WAITING.
Definition wait_for_llm := transition WAITING_FOR_LLM.
Definition wait_for_tool := transition WAITING_FOR_TOOL.
Definition wait_for_child := transition WAITING_FOR_CHILD.
Definition wait_for_mail := transition WAITING_FOR_MAIL.
Definition wait_for_lock := transition WAITING_FOR_LOCK.
Definition wait_for_human := transition WAITING_FOR_HUMAN.
Definition wait_for_external := transition WAITING_FOR_EXTERNAL.
Definition wake_up := transition READY.
Definition block := transition BLOCKED.
Definition resume_from_wait := transition PROCESSING.
Definition resolve_block := transition IDLE.
Definition finish_processing := transition IDLE.
Definition pause := transition PAUSED.
Definition unpause (target : AgentState) := transition target.
Definition fail := transition FAILED.
Definition recover := transition IDLE.
Definition terminate := transition TERMINATED.

(** ** Agents that share a log *)

Record agents := mkAgents { machines : dict AgentStateMachine; log : AuditLog }.

Inductive agents_step : agents → agents → Prop :=
| step_new a initial now m l s :
    dget a (machines s) = None →
    AgentStateMachine_init a initial now (log s) = (m, l) →
    agents_step s (mkAgents (dset a m (machines s)) l)
| step_transition a m target r x m' l s :
    dget a (machines s) = Some m →
    transition target r m (log s) = (x, m', l) →
    agents_step s (mkAgents (dset a m' (machines s)) l).

(** ** Reconstruction from the log *)

(** The entries follow one another from [s] to [u]; the first may be the record of a state an
    agent was created in. *)
Fixpoint follows (s : AgentState) (l : list AuditEntry) (u : AgentState) : Prop :=
  match l with
  | [] => s = u
  | e :: l' => from_state e = s ∧ follows (to_state e) l' u
  end.
Definition by_table (e : AuditEntry) : Prop := to_state e ∈ TRANSITION_TABLE (from_state e).

Lemma follows_snoc s l u e : follows s l u → from_state e = u → follows s (l ++ [e]) (to_state e).
Proof.
  revert s. induction l as [|x l IH]; simpl; intros s; [by intros -> ?|].
  intros [? Hf] He. split; [done|]. by apply IH.
Qed.

Lemma for_agent_record a e l :
  for_agent a (record e l) =
    (for_agent a l ++ (if decide (agent_id e = a) then [e] else []))%list.
Proof.
  unfold for_agent, record. rewrite List.filter_app. simpl. f_equal.
  case_decide as H; [by rewrite bool_decide_true|by rewrite bool_decide_false].
Qed.

(** What the log says of agent [a], whose machine is [m]. *)
Definition told (a : string) (m : AgentStateMachine) (l : AuditLog) : Prop :=
  _agent_id m = a ∧ follows CREATED (for_agent a l) (_state m) ∧
  ∃ extra, extra ≤ 1 ∧ length (for_agent a l) = _transition_count m + extra ∧
           Forall by_table (drop extra (for_agent a l)).

Definition ainv (s : agents) : Prop :=
  ∀ a, match dget a (machines s) with
       | Some m => told a m (log s)
       | None => for_agent a (log s) = []
       end.

Lemma ainv_new a initial now s :
  ainv s → dget a (machines s) = None →
  let '(m, l) := AgentStateMachine_init a initial now (log s) in
  ainv (mkAgents (dset a m (machines s)) l).
Proof.
  intros Hi Ha b. simpl. rewrite dget_dset. specialize (Hi b) as Hb.
  destruct (decide (b = a)) as [->|Hne].
  - rewrite Ha in Hb. split; [done|]. simpl. case_decide as Hc.
    + rewrite Hb. subst. split; [done|]. exists 0. split; [lia|]. by split.
    + rewrite for_agent_record, Hb. simpl. rewrite decide_True by done.
      split; [done|]. exists 1. split; [lia|]. split; [done|]. constructor.
  - assert (for_agent b (if decide (initial = CREATED) then log s
              else record (mkEntry now a CREATED initial None "initialized with non-default state" [])
                     (log s)) = for_agent b (log s)) as Hl.
    { case_decide; [done|]. rewrite for_agent_record. simpl.
      rewrite decide_False by congruence. by rewrite app_nil_r. }
    destruct (dget b (machines s)) as [m|]; unfold told; by rewrite Hl.
Qed.

Lemma ainv_transition a m target r s :
  ainv s → dget a (machines s) = Some m →
  let '(_, m', l) := transition target r m (log s) in
  ainv (mkAgents (dset a m' (machines s)) l).
Proof.
  intros Hi Ha. pose proof (Hi a) as Hm. rewrite Ha in Hm.
  destruct Hm as (Hid & Hf & extra & Hle & Hlen & Hall).
  unfold transition, can_transition_to. case_bool_decide as Ht; intros b; simpl; rewrite dget_dset;
    specialize (Hi b) as Hb; destruct (decide (b = a)) as [->|Hne].
  - unfold told. simpl. rewrite for_agent_record. simpl. rewrite decide_True by done.
    split; [done|]. split; [by apply (follows_snoc _ _ (_state m) (mkEntry _ _ _ target _ _ _))|].
    exists extra. split; [done|]. rewrite length_app. simpl. split; [lia|].
    rewrite drop_app_le by lia. apply Forall_app. split; [done|]. by constructor.
  - rewrite <-Hid in Hne.
    assert (for_agent b (record (mkEntry (r_now r) (_agent_id m) (_state m) target (r_tick r)
              (r_reason r) (r_meta r)) (log s)) = for_agent b (log s)) as Hl.
    { rewrite for_agent_record. simpl. rewrite decide_False by congruence. by rewrite app_nil_r. }
    destruct (dget b (machines s)) as [m'|]; unfold told; by rewrite Hl.
  - split; [done|]. split; [done|]. by exists extra.
  - done.
Qed.

(** Whatever agents are created and moved, in whatever order they share the audit log, the
    log tells every agent's history: its entries of the agent lead without a gap from the
    created state to the current one, each but the record of a creation by the transition
    table, and there are as many of these as the machine counts. *)
Theorem audit_reconstructs s :
  rtc agents_step (mkAgents [] []) s →
  ∀ a m, dget a (machines s) = Some m →
    follows CREATED (for_agent a (log s)) (_state m) ∧
    ∃ extra, extra ≤ 1 ∧ length (for_agent a (log s)) = _transition_count m + extra ∧
             Forall by_table (drop extra (for_agent a (log s))).
Proof.
  intros Hr. assert (ainv s) as Hi.
  { revert s Hr. apply (rtc_ind_r ainv); [by intros b|].
    intros s1 s2 _ [b initial now m l s' Hn Hm|b m target r x m' l s' Hm Ht] Hs.
    - pose proof (ainv_new b initial now s' Hs Hn) as H. by rewrite Hm in H.
    - pose proof (ainv_transition b m target r s' Hs Hm) as H. by rewrite Ht in H. }
  intros a m Ha. specialize (Hi a). rewrite Ha in Hi. apply Hi.
Qed.

Definition sample_remark : remark := Remark "t" None "" [].
Definition sample_agents : agents :=
  let '(m, l) := AgentStateMachine_init "eng" READY "t" [] in
  let '(_, m, l) := transition PROCESSING sample_remark m l in
  mkAgents [("eng", m)] l.

Lemma audit_reconstructs_witness :
  ∃ m, dget "eng" (machines sample_agents) = Some m ∧ _state m = PROCESSING ∧
       follows CREATED (for_agent "eng" (log sample_agents)) (_state m).
Proof.
  eexists. split; [reflexivity|]. split; [reflexivity|].
  apply (audit_reconstructs sample_agents); [|reflexivity].
  eapply rtc_l; [by apply (step_new "eng" READY "t")|].
  eapply rtc_l; [by eapply (step_transition "eng" _ PROCESSING sample_remark)|].
  apply rtc_refl.
Defined.

(** The table has no trap: every state can be reached from the first and can reach the last. *)
Definition moves (s u : AgentState) : Prop := u ∈ TRANSITION_TABLE s.
Lemma every_state_ends s : rtc moves s TERMINATED ∧ rtc moves CREATED s.
Proof.
  assert (Hstep : ∀ s u v, moves s u → rtc moves u v → rtc moves s v) by (intros; by eapply rtc_l).
  assert (H : ∀ s u, bool_decide (u ∈ TRANSITION_TABLE s) = true → moves s u)
    by (intros ??; by rewrite bool_decide_eq_true).
  assert (HI : rtc moves CREATED PROCESSING).
  { apply (Hstep _ INITIALIZED), (Hstep _ READY), (Hstep _ PROCESSING), rtc_refl; by apply H. }
  assert (HF : rtc moves FAILED TERMINATED)
    by (apply (Hstep _ TERMINATED), rtc_refl; by apply H).
  split.
  - destruct s; try (apply (Hstep _ FAILED), HF; by apply H); try apply rtc_refl;
      try (apply (Hstep _ TERMINATED), rtc_refl; by apply H); try apply HF.
    + apply (Hstep _ INITIALIZED), (Hstep _ READY), (Hstep _ TERMINATED), rtc_refl; by apply H.
    + apply (Hstep _ READY), (Hstep _ TERMINATED), rtc_refl; by apply H.
  - destruct s; try (eapply rtc_r; [apply HI|by apply H]); try apply rtc_refl; try apply HI.
    + apply (Hstep _ INITIALIZED), rtc_refl; by apply H.
    + apply (Hstep _ INITIALIZED), (Hstep _ READY), rtc_refl; by apply H.
    + etrans; [apply HI|]. apply (Hstep _ PAUSED), (Hstep _ TERMINATED), rtc_refl; by apply H.
Qed.

(** [pause] is documented for every running state; the table refuses three of them. *)
Lemma pause_refused a n r l :
  Forall (λ s, is_running s = true ∧
               (pause r (mkMachine a s n) l).1.1 = inl (Invalid a s PAUSED)) [BLOCKED; PAUSED; FAILED].
Proof. by repeat constructor. Qed.
