(* ===== verification/LegacyPredicate.v ===== *)
(** * The predicate language of the previous architecture (legacy/predicate.py, level L0)

    A predicate is text, parsed into a JSON-like syntax tree; the tree is checked statically,
    brought to a canonical form whose digest is its replay key, and evaluated on a state.
    Trees and states are Python values, as in the source, so ill-formed trees are in the model.

    Error messages are left out: an error is its class, a complaint of the checker its kind.
    Digits are the ASCII ones.  Level L1 hands Python source to Python's own parser and is not
    modelled. *)

From stdpp Require Import base gmap strings list.
From Stdlib Require Import ZArith QArith Ascii.
From S2P Require Import Prelude PyValue Json Sha256.

Open Scope string_scope.
Open Scope nat_scope.

Inductive pred_error :=
| PredicateSyntaxError
| PredicateTypeError
| PredicateEscalationError
| BuiltinError.   (** an exception of Python's own, which the code does not convert *)

(** ** Values *)

Definition _CMP_OPS : list string := ["=="; "!="; "<"; "<="; ">"; ">="].
Definition _KNOWN_OPS : list string :=
  (_CMP_OPS ++ ["in"; "all"; "any"; "exists"; "count"; "and"; "or"; "not"])%list.

Definition _is_scalar (v : value) : bool :=
  match v with VStr _ | VInt _ | VFloat _ | VBool _ => true | _ => false end.
Definition _is_number (v : value) : bool :=
  match v with VInt _ | VFloat _ => true | _ => false end.
Definition is_bool (v : value) : bool := match v with VBool _ => true | _ => false end.
Definition _strict_eq (a b : value) : bool :=
  if is_bool a || is_bool b then is_bool a && is_bool b && py_eq a b else py_eq a b.

(** The order of two numbers; every entry of the table is computed, so two values without an
    order fail for [==] too. *)
Definition _compare (op : string) (a b : value) : option bool :=
  match as_number a, as_number b with
  | Some p, Some q =>
      let lt x y := negb (Qle_bool y x) in
      if decide (op = "==") then Some (Qeq_bool p q)
      else if decide (op = "!=") then Some (negb (Qeq_bool p q))
      else if decide (op = "<") then Some (lt p q)
      else if decide (op = "<=") then Some (Qle_bool p q)
      else if decide (op = ">") then Some (lt q p)
      else if decide (op = ">=") then Some (Qle_bool q p)
      else None
  | _, _ => None
  end.

(** ** Field paths: [_FIELD_RE] *)

Definition ident_start (c : ascii) : bool :=
  let n := ord c in
  (((65 <=? n) && (n <=? 90)) || ((97 <=? n) && (n <=? 122)) || (n =? 95))%Z.
Definition is_digit (c : ascii) : bool := match digit c with Some _ => true | None => false end.
Definition ident_char (c : ascii) : bool := ident_start c || is_digit c.

(** [s.split(".")] *)
Fixpoint split_dots (s : string) : list string :=
  match s with
  | EmptyString => [""]
  | String c s' =>
      if decide (c = "."%char) then "" :: split_dots s'
      else match split_dots s' with
           | x :: l => String c x :: l
           | [] => [String c ""]
           end
  end.
Fixpoint all_chars (f : ascii → bool) (s : string) : bool :=
  match s with EmptyString => true | String c s' => f c && all_chars f s' end.
Definition identifier (s : string) : bool :=
  match s with String c s' => ident_start c && all_chars ident_char s' | EmptyString => false end.
(** [$] also matches before a line feed that ends the text. *)
Fixpoint drop_last_lf (s : string) : string :=
  match s with
  | EmptyString => ""
  | String c s' => if decide (c = ascii_of_nat 10 ∧ s' = "") then "" else String c (drop_last_lf s')
  end.
Definition is_field (s : string) : bool := forallb identifier (split_dots (drop_last_lf s)).

(** ** Tokens *)

Inductive kind := Lparen | Rparen | Lbrace | Rbrace | Comma | Cmp | Num | Str | Word.
#[global] Instance kind_eq_dec : EqDecision kind.
Proof. solve_decision. Defined.
Abbreviation tok := (kind * string)%type.

Definition concat (l : list string) : string := fold_right String.append "" l.
Fixpoint span (p : string → bool) (l : list string) : list string * list string :=
  match l with
  | c :: l' => if p c then let '(a, b) := span p l' in (c :: a, b) else ([], l)
  | [] => ([], [])
  end.
Definition one (p : ascii → bool) (c : string) : bool :=
  match c with String a EmptyString => p a | _ => false end.
Definition is_space (c : string) : bool := bool_decide (c ∈ WHITESPACE).

Definition scan_fraction (l : list string) : list string * list string :=
  match l with
  | "." :: l' => match span (one is_digit) l' with ([], _) => ([], l) | (d, r) => ("." :: d, r) end
  | _ => ([], l)
  end.
Definition scan_exponent (l : list string) : list string * list string :=
  match l with
  | c :: l' =>
      if bool_decide (c = "e") || bool_decide (c = "E") then
        let '(s, l'') := match l' with
                         | d :: l'' => if bool_decide (d = "+") || bool_decide (d = "-")
                                       then ([d], l'') else ([], l')
                         | [] => ([], l')
                         end in
        match span (one is_digit) l'' with
        | ([], _) => ([], l)
        | (d, r) => (c :: s ++ d, r)%list
        end
      else ([], l)
  | [] => ([], l)
  end.
Definition scan_number (l : list string) : option (string * list string) :=
  let '(sign, l1) := match l with "-" :: l1 => (["-"], l1) | _ => ([], l) end in
  match span (one is_digit) l1 with
  | ([], _) => None
  | (d, l2) =>
      let '(f, l3) := scan_fraction l2 in
      let '(e, l4) := scan_exponent l3 in
      Some (concat (sign ++ d ++ f ++ e), l4)
  end.

(** The rest of a string literal after its opening quote, the closing one included. *)
Fixpoint scan_string (q : string) (l : list string) : option (list string * list string) :=
  match l with
  | [] => None
  | c :: l' =>
      if decide (c = q) then Some ([c], l')
      else if decide (c = "\") then
        match l' with
        | d :: l'' => if decide (d = byte_str [10]) then None
                      else match scan_string q l'' with
                           | Some (s, r) => Some (c :: d :: s, r)
                           | None => None
                           end
        | [] => None
        end
      else match scan_string q l' with
           | Some (s, r) => Some (c :: s, r)
           | None => None
           end
  end.

(** The alternatives of [_TOKEN_RE]; white space has no token. *)
Definition scan_space (l : list string) : option (option tok * list string) :=
  match span is_space l with ([], _) => None | (_, r) => Some (None, r) end.
Definition scan_single (l : list string) : option (option tok * list string) :=
  match l with
  | c :: r =>
      (λ k, (Some (k, c), r)) <$>
        (if decide (c = "(") then Some Lparen else if decide (c = ")") then Some Rparen
         else if decide (c = "{") then Some Lbrace else if decide (c = "}") then Some Rbrace
         else if decide (c = ",") then Some Comma else None)
  | [] => None
  end.
Definition scan_cmp (l : list string) : option (option tok * list string) :=
  match l with
  | c :: d :: r => if bool_decide (d = "=") && bool_decide (c ∈ ["="; "!"; "<"; ">"])
                   then Some (Some (Cmp, c +:+ d), r)
                   else if bool_decide (c ∈ ["<"; ">"]) then Some (Some (Cmp, c), d :: r) else None
  | [c] => if bool_decide (c ∈ ["<"; ">"]) then Some (Some (Cmp, c), []) else None
  | [] => None
  end.
Definition scan_num (l : list string) : option (option tok * list string) :=
  (λ tr, (Some (Num, tr.1), tr.2)) <$> scan_number l.
Definition quotes : list string := ["'"; byte_str [34]].
Definition scan_str (l : list string) : option (option tok * list string) :=
  match l with
  | c :: l' => if bool_decide (c ∈ quotes)
               then (λ sr, (Some (Str, c +:+ concat sr.1), sr.2)) <$> scan_string c l' else None
  | [] => None
  end.
Definition word_start (c : ascii) : bool := ident_start c || bool_decide (c = "."%char).
Definition word_char (c : ascii) : bool := ident_char c || bool_decide (c = "."%char).
Definition scan_word (l : list string) : option (option tok * list string) :=
  match l with
  | c :: l' => if one word_start c
               then let '(w, r) := span (one word_char) l' in Some (Some (Word, concat (c :: w)), r)
               else None
  | [] => None
  end.
Fixpoint first_of {A B} (fs : list (A → option B)) (x : A) : option B :=
  match fs with
  | [] => None
  | f :: fs' => match f x with Some y => Some y | None => first_of fs' x end
  end.
Definition scan : list string → option (option tok * list string) :=
  first_of [scan_space; scan_single; scan_cmp; scan_num; scan_str; scan_word].

(** Every turn consumes a character at least. *)
Fixpoint tokenize_loop (fuel : nat) (l : list string) : option (list tok) :=
  match fuel with
  | O => Some []
  | S f =>
      match l with
      | [] => Some []
      | _ => match scan l with
             | None => None
             | Some (t, r) => match tokenize_loop f r with
                              | Some ts => Some (match t with Some t => t :: ts | None => ts end)
                              | None => None
                              end
             end
      end
  end.
Definition _tokenize (text : string) : option (list tok) :=
  tokenize_loop (length (utf8_chars text)) (utf8_chars text).

Definition unescape_char (c : string) : string :=
  if decide (c = "n") then byte_str [10] else if decide (c = "t") then byte_str [9]
  else if decide (c = "r") then byte_str [13] else c.
Fixpoint unescape_chars (l : list string) : list string :=
  match l with
  | [] => []
  | c :: l' =>
      if decide (c = "\") then match l' with
                               | d :: l'' => unescape_char d :: unescape_chars l''
                               | [] => [c]
                               end
      else c :: unescape_chars l'
  end.
Definition _unescape (raw : string) : string := concat (unescape_chars (utf8_chars raw)).
(** [value[1:-1]] *)
Definition unquote (s : string) : string := String.substring 1 (String.length s - 2) s.

(** [int(s)] or [float(s)] of a number token *)
Definition number_value (s : string) : value :=
  let '(neg, s1) := if starts_with 45 s then (true, str_tail s) else (false, s) in
  let sign z := if neg : bool then (- z)%Z else z in
  let '(n, _, r) := digits 0 0 s1 in
  let '(m, k, r1) := if starts_with 46 r then digits n 0 (str_tail r) else (n, 0, r) in
  let e := match parse_exp r1 with Some (e, _) => Some e | None => None end in
  if starts_with 46 r || match e with Some _ => true | None => false end
  then VFloat (inject_Z (sign m) * pow10 (default 0%Z e - Z.of_nat k))
  else VInt (sign m).

(** ** The parser

    A position in the token list is the rest of it.  The three levels call one another, and
    the fuel bounds the nesting and the loops; [parse_total] shows it is enough. *)

Inductive outcome (A : Type) := Done (a : A) | Failed (e : pred_error) | Unfinished.
Arguments Done {A} a.
Arguments Failed {A} e.
Arguments Unfinished {A}.
#[global] Instance outcome_bind : MBind outcome := λ A B f m,
  match m with Done a => f a | Failed e => Failed e | Unfinished => Unfinished end.
#[global] Instance outcome_ret : MRet outcome := λ A a, Done a.

Definition syntax_error {A} : outcome A := Failed PredicateSyntaxError.
Definition _next (ts : list tok) : outcome (tok * list tok) :=
  match ts with t :: r => Done (t, r) | [] => syntax_error end.
Definition _expect (k : kind) (ts : list tok) : outcome (list tok) :=
  t ← _next ts; if decide (t.1.1 = k) then Done t.2 else syntax_error.
Definition _parse_field (ts : list tok) : outcome (string * list tok) :=
  t ← _next ts;
  if decide (t.1.1 = Word)
  then if negb (bool_decide (t.1.2 = ".")) && negb (is_field t.1.2) then syntax_error
       else Done (t.1.2, t.2)
  else syntax_error.
Definition _parse_cmp (ts : list tok) : outcome (string * list tok) :=
  t ← _next ts; if decide (t.1.1 = Cmp) then Done (t.1.2, t.2) else syntax_error.
Definition _parse_number (ts : list tok) : outcome (value * list tok) :=
  t ← _next ts; if decide (t.1.1 = Num) then Done (number_value t.1.2, t.2) else syntax_error.
Definition _parse_literal (ts : list tok) : outcome (value * list tok) :=
  t ← _next ts;
  let '(k, v, r) := t in
  if decide (k = Str) then Done (VStr (_unescape (unquote v)), r)
  else if decide (k = Num) then Done (number_value v, r)
  else if decide (k = Word ∧ v = "true") then Done (VBool true, r)
  else if decide (k = Word ∧ v = "false") then Done (VBool false, r)
  else syntax_error.

Definition is_word (w : string) (ts : list tok) : bool :=
  match ts with (Word, v) :: _ => bool_decide (v = w) | _ => false end.
Definition is_kind (k : kind) (ts : list tok) : bool :=
  match ts with (k', _) :: _ => bool_decide (k' = k) | [] => false end.
(** [_looks_like_call]: the token after the current one opens a parenthesis. *)
Definition _looks_like_call (ts : list tok) : bool :=
  match ts with _ :: r => is_kind Lparen r | [] => false end.

(** The members of a set, up to its closing brace. *)
Fixpoint parse_members (fuel : nat) (ts : list tok) : outcome (list value * list tok) :=
  match fuel with
  | O => Unfinished
  | S f =>
      m ← _parse_literal ts;
      if is_kind Comma m.2 then ms ← parse_members f (tail m.2); Done (m.1 :: ms.1, ms.2)
      else Done ([m.1], m.2)
  end.

Definition node (op : string) (args : list value) : value := VList (VStr op :: args).

(** A comparison of a field, or its membership in a set. *)
Definition parse_leaf (fuel : nat) (ts : list tok) : outcome (value * list tok) :=
  f ← _parse_field ts;
  if is_word "in" f.2 then
    r ← _expect Lbrace (tail f.2);
    ms ← parse_members fuel r;
    r ← _expect Rbrace ms.2;
    Done (node "in" [VStr f.1; VList ms.1], r)
  else
    c ← _parse_cmp f.2;
    l ← _parse_literal c.2;
    Done (node c.1 [VStr f.1; l.1], l.2).

Section Levels.
(** [_parse_chain], one level down. *)
Variable chain : list tok → outcome (value * list tok).

(** The arguments of [and(...)] and [or(...)], up to the closing parenthesis. *)
Fixpoint parse_preds (fuel : nat) (ts : list tok) : outcome (list value * list tok) :=
  match fuel with
  | O => Unfinished
  | S f =>
      p ← chain ts;
      if is_kind Comma p.2 then ps ← parse_preds f (tail p.2); Done (p.1 :: ps.1, ps.2)
      else Done ([p.1], p.2)
  end.

Definition _parse_atom (fuel : nat) (ts : list tok) : outcome (value * list tok) :=
  match ts with
  | [] => syntax_error
  | (k, v) :: r =>
      if decide (k = Lparen) then
        p ← chain r; r ← _expect Rparen p.2; Done (p.1, r)
      else if decide (k ≠ Word) then syntax_error
      else
        let call := _looks_like_call ts in
        if bool_decide (v ∈ ["and"; "or"]) && call then
          ps ← parse_preds fuel (tail r); r ← _expect Rparen ps.2; Done (node v ps.1, r)
        else if bool_decide (v ∈ ["all"; "any"]) && call then
          f ← _parse_field (tail r); r ← _expect Comma f.2;
          p ← chain r; r ← _expect Rparen p.2; Done (node v [VStr f.1; p.1], r)
        else if bool_decide (v = "exists") && call then
          f ← _parse_field (tail r); r ← _expect Rparen f.2; Done (node "exists" [VStr f.1], r)
        else if bool_decide (v = "count") && call then
          f ← _parse_field (tail r); r ← _expect Rparen f.2;
          c ← _parse_cmp r; n ← _parse_number c.2;
          Done (node "count" [VStr f.1; VStr c.1; n.1], n.2)
        else parse_leaf fuel ts
  end.

(** [not], any number of times, then an atom. *)
Fixpoint _parse_term (fuel : nat) (ts : list tok) : outcome (value * list tok) :=
  match fuel with
  | O => Unfinished
  | S f => if is_word "not" ts
           then t ← _parse_term f (tail ts); Done (node "not" [t.1], t.2)
           else _parse_atom fuel ts
  end.

(** The rest of an infix chain after the term [acc]. *)
Fixpoint chain_rest (fuel : nat) (acc : value) (ts : list tok) : outcome (value * list tok) :=
  match fuel with
  | O => Unfinished
  | S f =>
      match ts with
      | (Word, op) :: r =>
          if bool_decide (op ∈ ["and"; "or"])
          then t ← _parse_term fuel r; chain_rest f (node op [acc; t.1]) t.2
          else Done (acc, ts)
      | _ => Done (acc, ts)
      end
  end.
End Levels.

(** The fuel counts the nesting; the loops at one level have the same bound. *)
Fixpoint _parse_chain (fuel : nat) (ts : list tok) : outcome (value * list tok) :=
  match fuel with
  | O => Unfinished
  | S f => t ← _parse_term (_parse_chain f) f ts; chain_rest (_parse_chain f) f t.1 t.2
  end.

Definition parse (text : string) : outcome value :=
  if negb (nonempty text) || negb (nonempty (strip text)) then syntax_error else
  match _tokenize text with
  | None => syntax_error
  | Some ts =>
      p ← _parse_chain (length ts + 3) ts;
      match p.2 with [] => Done p.1 | _ => syntax_error end
  end.

(** ** Canonical form and replay key *)

(** [for m in members] *)
Definition iterate (v : value) : option (list value) :=
  match v with
  | VList l => Some l
  | VStr s => Some (map VStr (utf8_chars s))
  | VDict d => Some (map VStr (dkeys d))
  | _ => None
  end.
(** [uniq[json.dumps(m)] = m] for each member, then the values by sorted key *)
Definition uniq (ms : list value) : dict value := fold_left (λ d m, dset (dumps m) m d) ms [].
Definition sorted_members (ms : list value) : list value :=
  let d := uniq ms in omap (λ k, dget k d) (py_sorted String.leb (dkeys d)).

Definition head_is (op : string) (v : value) : option (list value) :=
  match v with
  | VList (VStr s :: l) => if decide (s = op) then Some l else None
  | _ => None
  end.
(** [kids.extend(c[1:])] or [kids.append(c)] *)
Definition flatten (op : string) (cs : list value) : list value :=
  flat_map (λ c, match head_is op c with Some l => l | None => [c] end) cs.

Fixpoint mapM_opt {A B} (f : A → option B) (l : list A) : option (list B) :=
  match l with
  | [] => Some []
  | x :: l' => y ← f x; ys ← mapM_opt f l'; Some (y :: ys)
  end.

(** Tuples are lists here; [None] when the members of a set are not iterable. *)
Fixpoint canonical (n : value) : option value :=
  match n with
  | VList l =>
      match l with
      | VStr op :: cs =>
          if decide (op = "in" ∧ length cs = 2)
          then match cs with
               | [f; members] => (λ ms, node op [f; VList (sorted_members ms)]) <$> iterate members
               | _ => None
               end
          else if bool_decide (op ∈ ["and"; "or"])
          then (λ ks, node op (flatten op ks)) <$> mapM_opt canonical cs
          else (λ ks, node op ks) <$> mapM_opt canonical cs
      | _ => VList <$> mapM_opt canonical l
      end
  | _ => Some n
  end.

(** [json.dumps(v, sort_keys=True, separators=(",", ":"))] *)
Fixpoint dumps_compact (v : value) : string :=
  match v with
  | VList l => "[" +:+ str_join "," (map dumps_compact l) +:+ "]"
  | VDict d =>
      let ds := map (λ kv, (kv.1, dumps_compact kv.2)) d in
      "{" +:+ str_join "," (map (λ kv, dumps_str kv.1 +:+ ":" +:+ kv.2)
                              (py_sorted (λ a b, String.leb a.1 b.1) ds)) +:+ "}"
  | _ => dumps v
  end.
Definition replay_key (n : value) : option string :=
  (λ c, hexdigest (dumps_compact c)) <$> canonical n.

(** ** Evaluation *)

Record EvaluationStep := Step { st_op : string; st_path : string; st_result : bool; st_missing : bool }.
Abbreviation verdict := (pred_error + bool * list EvaluationStep)%type.

(** [_resolve]; [None] is [_MISSING]. *)
Fixpoint resolve_path (cur : value) (parts : list string) : option value :=
  match parts with
  | [] => Some cur
  | p :: ps => match vget cur p with Some v => resolve_path v ps | None => None end
  end.
Definition _resolve (scope : value) (path : string) : option value :=
  if decide (path = ".") then Some scope else resolve_path scope (split_dots path).

(** [val in lit] *)
Definition member (v lit : value) : option bool :=
  match lit with
  | VList l => Some (existsb (py_eq v) l)
  | VStr s => match v with VStr t => Some (str_contains t s) | _ => None end
  | VDict d => if hashable v
               then Some (match v with VStr t => dmem t d | _ => false end) else None
  | _ => None
  end.

Definition step (op path : string) (b : bool) : verdict := inr (b, [Step op path b false]).
Definition missing (op path : string) : verdict := inr (false, [Step op path false true]).
Definition type_error : verdict := inl PredicateTypeError.
(** A sub-evaluation, and the step that records its result under [op]. *)
Definition noted (op : string) (r : verdict) (f : bool → bool) : verdict :=
  match r with
  | inl e => inl e
  | inr (b, st) => inr (f b, st ++ [Step op "" (f b) false])%list
  end.
Definition after (st : list EvaluationStep) (r : verdict) : verdict :=
  match r with inl e => inl e | inr (b, st') => inr (b, st ++ st')%list end.

(** The comparison leaves: the field's value is [v]. *)
Definition eval_leaf (op f : string) (v lit : value) : verdict :=
  if bool_decide (op ∈ ["=="; "!="]) then
    if is_dict v || is_list v then type_error
    else step op f (if decide (op = "==") then _strict_eq v lit else negb (_strict_eq v lit))
  else if bool_decide (op ∈ ["<"; "<="; ">"; ">="]) then
    if negb (_is_number v) || negb (_is_number lit) then type_error
    else match _compare op v lit with Some b => step op f b | None => inl BuiltinError end
  else match member v lit with Some b => step op f b | None => type_error end.

Definition eval_count (f : string) (cmp num : value) (items : list value) : verdict :=
  match cmp with
  | VStr c =>
      if bool_decide (c ∈ _CMP_OPS)
      then match _compare c (VInt (Z.of_nat (length items))) num with
           | Some b => step "count" f b
           | None => inl BuiltinError
           end
      else type_error
  | VList _ | VDict _ => inl BuiltinError
  | _ => type_error
  end.

(** The field of a node, resolved in the scope; a field that is not a string has no [split]. *)
Definition with_field (op : string) (f scope : value) (k : string → value → verdict) : verdict :=
  match f with
  | VStr path => match _resolve scope path with Some v => k path v | None => missing op path end
  | _ => inl BuiltinError
  end.

Fixpoint eval_node (n scope : value) {struct n} : verdict :=
  match n with
  | VList (VStr op :: args) =>
      if negb (bool_decide (op ∈ _KNOWN_OPS)) then inl PredicateEscalationError
      else if bool_decide (op ∈ ["and"; "or"]) then
        let stop := bool_decide (op = "or") in
        match args with
        | [] => type_error
        | _ =>
            (fix go l := match l with
                         | [] => inr (negb stop, [])
                         | c :: l' =>
                             match noted op (eval_node c scope) id with
                             | inl e => inl e
                             | inr (b, st) => if Bool.eqb b stop then inr (stop, st)
                                              else after st (go l')
                             end
                         end) args
        end
      else if decide (op = "not") then
        match args with
        | [c] => noted "not" (eval_node c scope) negb
        | _ => type_error
        end
      else if bool_decide (op ∈ ["all"; "any"]) then
        match args with
        | [f; c] =>
            with_field op f scope (λ path v,
              match v with
              | VList els =>
                  let stop := bool_decide (op = "any") in
                  (fix go l := match l with
                               | [] => inr (negb stop, [Step op path (negb stop) false])
                               | e :: l' =>
                                   match eval_node c e with
                                   | inl e => inl e
                                   | inr (b, st) => if Bool.eqb b stop
                                                    then inr (stop, st ++ [Step op path stop false])%list
                                                    else after st (go l')
                                   end
                               end) els
              | _ => type_error
              end)
        | _ => type_error
        end
      else if decide (op = "exists") then
        match args with
        | [VStr path] => let ok := match _resolve scope path with Some _ => true | None => false end in
                         inr (ok, [Step "exists" path ok (negb ok)])
        | [_] => inl BuiltinError
        | _ => type_error
        end
      else if decide (op = "count") then
        match args with
        | [f; cmp; num] =>
            with_field op f scope (λ path v,
              match v with VList els => eval_count path cmp num els | _ => type_error end)
        | _ => type_error
        end
      else
        match args with
        | [f; lit] => with_field op f scope (λ path v, eval_leaf op path v lit)
        | _ => type_error
        end
  | _ => type_error
  end.

Record PredicateEvaluation := Evaluation {
  pe_value : bool; steps : list EvaluationStep; pe_replay_key : string }.
Definition first_failure (e : PredicateEvaluation) : option EvaluationStep :=
  List.find (λ s, negb (st_result s)) (steps e).

Definition evaluate_traced (n state : value) : pred_error + PredicateEvaluation :=
  if negb (is_dict state) then inl PredicateTypeError else
  match eval_node n state with
  | inl e => inl e
  | inr (b, st) => match replay_key n with
                   | Some k => inr (Evaluation b st k)
                   | None => inl BuiltinError
                   end
  end.
Definition evaluate (n state : value) : pred_error + bool :=
  match evaluate_traced n state with inl e => inl e | inr v => inr (pe_value v) end.

(** ** Static checking *)

Inductive complaint :=
| Unhashable   (** not a complaint: the test itself raises *)
| BadField (f : value) | DotOutside | BadNode (n : value) | Escalation (op : string)
| TooFew (op : string) | Arity (op : string) | BadCmp (c : value) | BadBound (n : value)
| BadSet (m : value) | BadMember (m : value) | BadLiteral (op : string) (l : value)
| NotNumber (op : string) (l : value).

(** What a walk collects: complaints, operators, fields, in the order of the walk. *)
Definition findings : Type := list complaint * list string * list string.
Definition nothing : findings := ([], [], []).
Definition join (a b : findings) : findings :=
  (a.1.1 ++ b.1.1, a.1.2 ++ b.1.2, a.2 ++ b.2)%list.
Definition complain (c : complaint) : findings := ([c], [], []).
Definition complain_if (b : bool) (c : complaint) : findings := if b then complain c else nothing.

Definition _check_field (f : value) (in_quant : bool) : findings :=
  match f with
  | VStr s => if decide (s = ".") then if in_quant then ([], [], ["."]) else complain DotOutside
              else if is_field s then ([], [], [s]) else complain (BadField f)
  | _ => complain (BadField f)
  end.

Definition check_leaf (op : string) (args : list value) (q : bool) : findings :=
  match args with
  | [f; l] =>
      join (_check_field f q)
        (join (complain_if (negb (_is_scalar l)) (BadLiteral op l))
              (complain_if (bool_decide (op ∈ ["<"; "<="; ">"; ">="]) && negb (_is_number l))
                 (NotNumber op l)))
  | _ => complain (Arity op)
  end.
Definition check_set (args : list value) (q : bool) : findings :=
  match args with
  | [f; m] =>
      join (_check_field f q)
        (match m with
         | VList ((_ :: _) as l) =>
             fold_right (λ x a, join (complain_if (negb (_is_scalar x)) (BadMember x)) a) nothing l
         | _ => complain (BadSet m)
         end)
  | _ => complain (Arity "in")
  end.
Definition check_count (args : list value) (q : bool) : findings :=
  match args with
  | [f; c; n] =>
      join (_check_field f q)
        (join (complain_if (match c with VStr s => negb (bool_decide (s ∈ _CMP_OPS)) | _ => true end)
                 (if hashable c then BadCmp c else Unhashable))
              (complain_if (negb (_is_number n)) (BadBound n)))
  | _ => complain (Arity "count")
  end.

Fixpoint walk (n : value) (in_quant : bool) {struct n} : findings :=
  match n with
  | VList (VStr op :: args) =>
      if negb (bool_decide (op ∈ _KNOWN_OPS)) then complain (Escalation op) else
      join ([], [op], [])
        (if bool_decide (op ∈ ["and"; "or"]) then
           join (complain_if (match args with [] => true | _ => false end) (TooFew op))
             ((fix go l := match l with [] => nothing | c :: l' => join (walk c in_quant) (go l') end) args)
         else if decide (op = "not") then
           match args with [c] => walk c in_quant | _ => complain (Arity op) end
         else if bool_decide (op ∈ ["all"; "any"]) then
           match args with
           | [f; c] => join (_check_field f in_quant) (walk c true)
           | _ => complain (Arity op)
           end
         else if decide (op = "exists") then
           match args with [f] => _check_field f in_quant | _ => complain (Arity op) end
         else if decide (op = "count") then check_count args in_quant
         else if decide (op = "in") then check_set args in_quant
         else check_leaf op args in_quant)
  | _ => complain (BadNode n)
  end.

Record PredicateValidation := Validation {
  ok : bool; errors : list complaint; pv_replay_key : string; ops : list string; fields : list string }.

(** [tuple(dict.fromkeys(fields))] *)
Definition from_keys (l : list string) : list string :=
  dkeys (fold_left (λ d k, dset k () d) l []).
(** [None]: the walk or the replay key raised. *)
Definition validate (n : value) : option PredicateValidation :=
  let '(es, os, fs) := walk n false in
  if existsb (λ c, match c with Unhashable => true | _ => false end) es then None else
  match es with
  | [] => (λ k, Validation true [] k os (from_keys fs)) <$> replay_key n
  | _ => Some (Validation false es "" [] [])
  end.

(** The sets of the [in] nodes of a tree. *)
Fixpoint sets (n : value) : list (list value) :=
  match n with
  | VList (VStr op :: args) =>
      (match args with
       | [_; VList ms] => if decide (op = "in") then [ms] else []
       | _ => []
       end ++ flat_map sets args)%list
  | _ => []
  end.
(** No two members of a set print alike. *)
Definition distinct (n : value) : Prop :=
  ∀ ms, ms ∈ sets n → ∀ x y, x ∈ ms → y ∈ ms → dumps x = dumps y → x = y.

(** ** The parser always finishes *)

(** The parser did not run out of fuel and took tokens off the front, at least [k], or it
    found a syntax error. *)
Definition finishes {A} (k : nat) (ts : list tok) (m : outcome (A * list tok)) : Prop :=
  match m with
  | Done (_, r) => length r + k ≤ length ts
  | Failed e => e = PredicateSyntaxError
  | Unfinished => False
  end.

Lemma finishes_bind {A B} k j ts (m : outcome (A * list tok)) (f : A * list tok → outcome (B * list tok)) :
  finishes k ts m →
  (∀ a r, length r + k ≤ length ts → finishes j ts (f (a, r))) → finishes j ts (m ≫= f).
Proof. destruct m as [[a r]| |]; simpl; auto. Qed.

Lemma finishes_weaken {A} k j ts ts' (m : outcome (A * list tok)) :
  finishes k ts m → length ts + j ≤ length ts' + k → finishes j ts' m.
Proof. destruct m as [[a r]| |]; simpl; [lia|done..]. Qed.

Lemma next_finishes ts : finishes 1 ts (_next ts).
Proof. destruct ts; simpl; [done|lia]. Qed.

Ltac token_tac :=
  intros; unfold _parse_field, _parse_cmp, _parse_number, _parse_literal;
  eapply finishes_bind; [apply next_finishes|]; intros [k v] r Hr; simpl;
  repeat case_decide; repeat (match goal with |- context [if ?c then _ else _] => destruct c end);
  simpl; try done; lia.
Lemma field_finishes ts : finishes 1 ts (_parse_field ts).
Proof. token_tac. Qed.
Lemma cmp_finishes ts : finishes 1 ts (_parse_cmp ts).
Proof. token_tac. Qed.
Lemma number_finishes ts : finishes 1 ts (_parse_number ts).
Proof. token_tac. Qed.
Lemma literal_finishes ts : finishes 1 ts (_parse_literal ts).
Proof. token_tac. Qed.

Lemma expect_bind {B} k j ts ts' (f : list tok → outcome (B * list tok)) :
  length ts ≤ length ts' →
  (∀ r, S (length r) ≤ length ts → finishes j ts' (f r)) → finishes j ts' (_expect k ts ≫= f).
Proof.
  intros Hle H. unfold _expect. destruct ts as [|t r]; simpl; [done|].
  destruct (decide _); simpl; [|done]. by apply H.
Qed.

Lemma tail_length {A} (l : list A) : length (tail l) ≤ length l.
Proof. destruct l; simpl; lia. Qed.
Lemma kind_tail k ts : is_kind k ts = true → S (length (tail ts)) = length ts.
Proof. by destruct ts as [|[]]. Qed.
Lemma word_tail w ts : is_word w ts = true → S (length (tail ts)) = length ts.
Proof. by destruct ts as [|[]]. Qed.

Lemma members_finishes fuel ts : length ts < fuel → finishes 1 ts (parse_members fuel ts).
Proof.
  revert ts. induction fuel as [|f IH]; intros ts Hf; [lia|]. simpl.
  eapply finishes_bind; [apply literal_finishes|]. intros m r Hr. simpl.
  destruct (is_kind Comma r) eqn:Ek; [|simpl; lia]. apply kind_tail in Ek.
  eapply (finishes_bind 1); [eapply (finishes_weaken 1 1); [apply IH|]; lia|].
  intros ms r' Hr'. simpl. lia.
Qed.

Lemma leaf_finishes fuel ts : length ts < fuel → finishes 1 ts (parse_leaf fuel ts).
Proof.
  intros Hf. unfold parse_leaf. eapply finishes_bind; [apply field_finishes|]. intros f r Hr. simpl.
  destruct (is_word "in" r) eqn:Ew.
  - apply word_tail in Ew. apply expect_bind; [lia|]. intros r1 Hr1.
    eapply (finishes_bind 1); [eapply (finishes_weaken 1 1); [apply members_finishes|]; lia|].
    intros ms r2 Hr2. simpl. apply expect_bind; [lia|]. intros r3 Hr3. simpl. lia.
  - eapply (finishes_bind 1); [eapply (finishes_weaken 1 1); [apply cmp_finishes|]; lia|].
    intros c r1 Hr1. simpl.
    eapply (finishes_bind 1); [eapply (finishes_weaken 1 1); [apply literal_finishes|]; lia|].
    intros l r2 Hr2. simpl. lia.
Qed.

Section LevelsFinish.
Variables (chain : list tok → outcome (value * list tok)) (N : nat).
Hypothesis chain_finishes : ∀ ts, length ts < N → finishes 1 ts (chain ts).

Lemma preds_finishes fuel ts :
  length ts < N → length ts < fuel → finishes 1 ts (parse_preds chain fuel ts).
Proof.
  revert ts. induction fuel as [|f IH]; intros ts HN Hf; [lia|]. simpl.
  eapply finishes_bind; [by apply chain_finishes|]. intros p r Hr. simpl.
  destruct (is_kind Comma r) eqn:Ek; [|simpl; lia]. apply kind_tail in Ek.
  eapply (finishes_bind 1); [eapply (finishes_weaken 1 1); [apply IH|]; lia|].
  intros ps r' Hr'. simpl. lia.
Qed.

(** A field, then a token, after the two tokens that open a call. *)
Lemma field_arg {A} k ts r (K : string → list tok → outcome (A * list tok)) :
  S (length r) = length ts →
  (∀ f r', S (S (length r')) ≤ length ts → finishes 1 ts (K f r')) →
  finishes 1 ts (f ← _parse_field (tail r); r ← _expect k f.2; K f.1 r).
Proof.
  intros Hr HK. pose proof (tail_length r).
  eapply (finishes_bind 1); [eapply (finishes_weaken 1 1); [apply field_finishes|]; lia|].
  intros f r1 Hr1. simpl. apply expect_bind; [lia|]. intros r2 Hr2. apply HK. lia.
Qed.

Lemma atom_finishes fuel ts :
  length ts ≤ N → length ts < fuel → finishes 1 ts (_parse_atom chain fuel ts).
Proof.
  intros HN Hf. unfold _parse_atom. destruct ts as [|[k v] r]; [done|].
  assert (Hr : S (length r) = length ((k, v) :: r)) by done.
  assert (Hchain : ∀ r', length r' ≤ length r → finishes 1 ((k, v) :: r)
            (p ← chain r'; r ← _expect Rparen p.2; Done (p.1, r))).
  { intros r' Hr'. eapply (finishes_bind 1).
    - eapply (finishes_weaken 1 1); [apply chain_finishes|]; simpl in *; lia.
    - intros p r1 Hr1. simpl. apply expect_bind; [lia|]. intros r2 Hr2. simpl in *. lia. }
  pose proof (tail_length r) as Htail.
  destruct (decide (k = Lparen)); [by apply Hchain|].
  destruct (decide (k ≠ Word)); [done|].
  destruct (_ && _).
  { eapply (finishes_bind 1).
    - eapply (finishes_weaken 1 1); [apply preds_finishes|]; simpl in *; lia.
    - intros ps r1 Hr1. simpl. apply expect_bind; [lia|]. intros r2 Hr2. simpl in *. lia. }
  destruct (_ && _).
  { apply (field_arg Comma ((k, v) :: r) r (λ f r', p ← chain r'; r' ← _expect Rparen p.2;
      Done (node v [VStr f; p.1], r'))); [done|]. intros f r' Hr'.
    eapply (finishes_bind 1).
    - eapply (finishes_weaken 1 1); [apply chain_finishes|]; simpl in *; lia.
    - intros p r1 Hr1. simpl. apply expect_bind; [lia|]. intros r2 Hr2. simpl in *. lia. }
  destruct (_ && _).
  { apply (field_arg Rparen ((k, v) :: r) r (λ f r', Done (node "exists" [VStr f], r'))); [done|].
    intros f r' Hr'. simpl in *. lia. }
  destruct (_ && _).
  { apply (field_arg Rparen ((k, v) :: r) r (λ f r', c ← _parse_cmp r'; n ← _parse_number c.2;
      Done (node "count" [VStr f; VStr c.1; n.1], n.2))); [done|]. intros f r' Hr'.
    eapply (finishes_bind 1); [eapply (finishes_weaken 1 1); [apply cmp_finishes|]; lia|].
    intros c r1 Hr1. simpl.
    eapply (finishes_bind 1); [eapply (finishes_weaken 1 1); [apply number_finishes|]; lia|].
    intros m r2 Hr2. simpl in *. lia. }
  by apply leaf_finishes.
Qed.

Lemma term_finishes fuel ts :
  length ts ≤ N → S (length ts) < fuel → finishes 1 ts (_parse_term chain fuel ts).
Proof.
  revert ts. induction fuel as [|f IH]; intros ts HN Hf; [lia|]. simpl.
  destruct (is_word "not" ts) eqn:Ew; [|apply atom_finishes; lia]. apply word_tail in Ew.
  eapply (finishes_bind 1); [eapply (finishes_weaken 1 1); [apply IH|]; lia|].
  intros t r Hr. simpl. lia.
Qed.

Lemma rest_finishes fuel acc ts :
  length ts ≤ N → length ts < fuel → finishes 0 ts (chain_rest chain fuel acc ts).
Proof.
  revert acc ts. induction fuel as [|f IH]; intros acc ts HN Hf; [lia|]. cbn [chain_rest].
  destruct ts as [|[[] op] r]; try (simpl; lia).
  destruct (bool_decide _); [|simpl; lia]. simpl in HN, Hf.
  eapply (finishes_bind 2); [eapply (finishes_weaken 1 2); [apply term_finishes|]; simpl; lia|].
  intros t r' Hr'. simpl in Hr'.
  eapply (finishes_weaken 0 0); [apply IH|]; simpl; lia.
Qed.
End LevelsFinish.

Lemma chain_finishes fuel ts : length ts + 2 < fuel → finishes 1 ts (_parse_chain fuel ts).
Proof.
  revert ts. induction fuel as [|f IH]; intros ts Hf; [lia|]. simpl.
  assert (Hc : ∀ ts', length ts' < length ts → finishes 1 ts' (_parse_chain f ts'))
    by (intros; apply IH; lia).
  eapply finishes_bind; [apply (term_finishes _ (length ts)); [done|lia..]|].
  intros t r Hr. simpl. eapply (finishes_weaken 0 1); [apply (rest_finishes _ (length ts)); [done|lia..]|lia].
Qed.

(** Parsing ends on every text, with a tree or a syntax error. *)
Theorem parse_total text : (∃ n, parse text = Done n) ∨ parse text = syntax_error.
Proof.
  unfold parse. destruct (_ || _); [by right|]. destruct (_tokenize text) as [ts|]; [|by right].
  pose proof (chain_finishes (length ts + 3) ts ltac:(lia)) as H.
  destruct (_parse_chain (length ts + 3) ts) as [[n r]|e|]; simpl in *; [|subst; by right|done].
  destruct r; [left; eauto|by right].
Qed.

(** ** What validation promises *)

Definition clean (n : value) (q : bool) : Prop := (walk n q).1.1 = [].
Lemma join_clean a b : (join a b).1.1 = [] ↔ a.1.1 = [] ∧ b.1.1 = [].
Proof. unfold join. simpl. apply app_nil. Qed.
Lemma complain_if_clean b c : (complain_if b c).1.1 = [] ↔ b = false.
Proof. by destruct b. Qed.
Lemma check_field_clean f q : (_check_field f q).1.1 = [] → ∃ s, f = VStr s.
Proof. destruct f; simpl; try done. eauto. Qed.

(** The children a clean node hands on, and the context it hands them in. *)
Lemma walk_junction l q :
  ((fix go l := match l with [] => nothing | c :: l' => join (walk c q) (go l') end) l).1.1 = [] ↔
  Forall (λ c, clean c q) l.
Proof.
  induction l as [|c l IH]; [by split|]. rewrite join_clean, Forall_cons, IH. done.
Qed.

(** The five shapes of a clean node. *)
Inductive shape (q : bool) : string → list value → Prop :=
| ShJunction op cs : op ∈ ["and"; "or"] → cs ≠ [] → Forall (λ c, clean c q) cs → shape q op cs
| ShNot c : clean c q → shape q "not" [c]
| ShQuant op f c : op ∈ ["all"; "any"] → clean c true → shape q op [VStr f; c]
| ShExists f : shape q "exists" [VStr f]
| ShCount f cmp n : cmp ∈ _CMP_OPS → _is_number n = true → shape q "count" [VStr f; VStr cmp; n]
| ShIn f ms : Forall (λ m, _is_scalar m = true) ms → shape q "in" [VStr f; VList ms]
| ShLeaf op f l : op ∈ _CMP_OPS → _is_scalar l = true → shape q op [VStr f; l].

Lemma members_clean ms :
  (fold_right (λ x a, join (complain_if (negb (_is_scalar x)) (BadMember x)) a) nothing ms).1.1 = [] →
  Forall (λ m, _is_scalar m = true) ms.
Proof.
  induction ms as [|m ms IH]; simpl; intros H; [constructor|].
  apply app_eq_nil in H as [H1 H2]. constructor; [|by apply IH].
  apply complain_if_clean in H1. by destruct (_is_scalar m).
Qed.

Lemma clean_shape n q : clean n q → ∃ op args, n = VList (VStr op :: args) ∧ shape q op args.
Proof.
  unfold clean. destruct n as [| | | | |[|[| | | |op| |] args]|]; try done. cbn [walk].
  case_bool_decide as Hk; [|done]. cbn [negb]. rewrite join_clean. intros [_ H].
  exists op, args. split; [done|].
  case_bool_decide as Hj.
  { rewrite join_clean, walk_junction in H. destruct H as [H1 H2].
    apply ShJunction; [done| |done]. by destruct args. }
  destruct (decide (op = "not")) as [->|]; [destruct args as [|c []]; try done; by apply ShNot|].
  case_bool_decide as Hq.
  { destruct args as [|f [|c []]]; try done. rewrite join_clean in H. destruct H as [H1 H2].
    apply check_field_clean in H1 as [s ->]. by apply ShQuant. }
  destruct (decide (op = "exists")) as [->|].
  { destruct args as [|f []]; try done. apply check_field_clean in H as [s ->]. apply ShExists. }
  destruct (decide (op = "count")) as [->|].
  { destruct args as [|f [|c [|m []]]]; try done. unfold check_count in H.
    rewrite !join_clean, !complain_if_clean in H. destruct H as (H1 & H2 & H3).
    apply check_field_clean in H1 as [s ->]. destruct c; try done.
    apply negb_false_iff, bool_decide_eq_true in H2. apply ShCount; [done|]. by destruct (_is_number m). }
  destruct (decide (op = "in")) as [->|].
  { destruct args as [|f [|m []]]; try done. unfold check_set in H.
    rewrite join_clean in H. destruct H as [H1 H2]. apply check_field_clean in H1 as [s ->].
    destruct m as [| | | | |[|x ms]|]; try done. apply ShIn. by apply members_clean. }
  destruct args as [|f [|l []]]; try done. unfold check_leaf in H.
  rewrite !join_clean, !complain_if_clean in H. destruct H as (H1 & H2 & _).
  apply check_field_clean in H1 as [s ->]. apply ShLeaf; [|by destruct (_is_scalar l)].
  clear -Hk Hj Hq n n0 n1 n2. unfold _KNOWN_OPS in Hk. set_solver.
Qed.

(** ** The value of a node, its trace left out *)

Definition vof (r : verdict) : pred_error + bool :=
  match r with inl e => inl e | inr (b, _) => inr b end.
Fixpoint junction (stop : bool) (l : list (pred_error + bool)) : pred_error + bool :=
  match l with
  | [] => inr (negb stop)
  | inl e :: _ => inl e
  | inr b :: l' => if Bool.eqb b stop then inr stop else junction stop l'
  end.

Lemma vof_after st r : vof (after st r) = vof r.
Proof. by destruct r as [|[]]. Qed.

Lemma junction_loop stop scope cs :
  vof ((fix go l := match l with
                    | [] => inr (negb stop, [])
                    | c :: l' =>
                        match noted (if stop then "or" else "and") (eval_node c scope) id with
                        | inl e => inl e
                        | inr (b, st) => if Bool.eqb b stop then inr (stop, st)
                                         else after st (go l')
                        end
                    end) cs) = junction stop (map (λ c, vof (eval_node c scope)) cs).
Proof.
  induction cs as [|c cs IH]; [done|]. cbn [map junction]. rewrite <- IH.
  destruct (eval_node c scope) as [|[b st]]; simpl; [done|]. destruct (Bool.eqb _ _); [done|].
  apply vof_after.
Qed.

Lemma eval_junction op cs scope :
  op ∈ ["and"; "or"] → cs ≠ [] →
  vof (eval_node (node op cs) scope) =
    junction (bool_decide (op = "or")) (map (λ c, vof (eval_node c scope)) cs).
Proof.
  intros Hop Hcs.
  assert (op = if bool_decide (op = "or") then "or" else "and") as E.
  { case_bool_decide; set_solver. }
  destruct cs as [|c cs]; [done|]. rewrite <- junction_loop, <- E.
  cbn [node eval_node].
  rewrite (bool_decide_eq_true_2 (op ∈ _KNOWN_OPS)) by (unfold _KNOWN_OPS, _CMP_OPS; set_solver).
  by rewrite (bool_decide_eq_true_2 (op ∈ ["and"; "or"])).
Qed.

Lemma eval_quant op f c scope :
  op ∈ ["all"; "any"] →
  vof (eval_node (node op [VStr f; c]) scope) =
    match _resolve scope f with
    | None => inr false
    | Some (VList els) => junction (bool_decide (op = "any")) (map (λ e, vof (eval_node c e)) els)
    | Some _ => inl PredicateTypeError
    end.
Proof.
  intros Hop. cbn [node eval_node].
  rewrite (bool_decide_eq_true_2 (op ∈ _KNOWN_OPS)) by (unfold _KNOWN_OPS, _CMP_OPS; set_solver).
  rewrite (bool_decide_eq_false_2 (op ∈ ["and"; "or"])) by set_solver.
  rewrite decide_False by set_solver.
  rewrite (bool_decide_eq_true_2 (op ∈ ["all"; "any"])) by done. cbn [negb with_field].
  generalize (bool_decide (op = "any")). intros stop.
  destruct (_resolve scope f) as [[| | | | |els|]|]; try done. clear.
  induction els as [|e els IH]; [done|]. cbn [map junction]. rewrite <- IH.
  destruct (eval_node c e) as [|[b st]]; simpl; [done|]. destruct (Bool.eqb _ _); [done|].
  apply vof_after.
Qed.

Lemma eval_not c scope :
  vof (eval_node (node "not" [c]) scope) =
    match vof (eval_node c scope) with inl e => inl e | inr b => inr (negb b) end.
Proof. cbn. by destruct (eval_node c scope) as [|[]]. Qed.

Lemma eval_leaf_node op f l scope :
  op ∈ "in" :: _CMP_OPS →
  eval_node (node op [VStr f; l]) scope =
    match _resolve scope f with Some v => eval_leaf op f v l | None => missing op f end.
Proof.
  intros Hop. cbn [node eval_node]. unfold _CMP_OPS in Hop.
  rewrite (bool_decide_eq_true_2 (op ∈ _KNOWN_OPS)) by (unfold _KNOWN_OPS, _CMP_OPS; set_solver).
  rewrite (bool_decide_eq_false_2 (op ∈ ["and"; "or"])) by set_solver.
  rewrite decide_False by set_solver.
  rewrite (bool_decide_eq_false_2 (op ∈ ["all"; "any"])) by set_solver.
  rewrite decide_False by set_solver. rewrite decide_False by set_solver. done.
Qed.

Lemma eval_count_node f cmp m scope :
  eval_node (node "count" [VStr f; cmp; m]) scope =
    match _resolve scope f with
    | Some (VList els) => eval_count f cmp m els
    | Some _ => type_error
    | None => missing "count" f
    end.
Proof. reflexivity. Qed.

(** ** A validated predicate evaluates *)

Definition proper (r : pred_error + bool) : Prop :=
  match r with inl e => e = PredicateTypeError | inr _ => True end.
Lemma junction_proper stop l : Forall proper l → proper (junction stop l).
Proof.
  induction 1 as [|[e|b] l H _ IH]; simpl; [done|done|]. by destruct (Bool.eqb b stop).
Qed.

Lemma compare_numbers op a b :
  op ∈ _CMP_OPS → _is_number a = true → _is_number b = true → is_Some (_compare op a b).
Proof.
  intros Hop Ha Hb. unfold _compare. destruct a, b; try done; simpl;
    repeat case_decide; try (by eexists); unfold _CMP_OPS in Hop; set_solver.
Qed.
Lemma eval_leaf_proper op f v l : proper (vof (eval_leaf op f v l)).
Proof.
  unfold eval_leaf. case_bool_decide; [by destruct (_ || _)|].
  case_bool_decide as Hop; [|by destruct (member v l)].
  destruct (_is_number v) eqn:Hv; [|done]. destruct (_is_number l) eqn:Hl; [|done].
  destruct (compare_numbers op v l) as [b ->]; [unfold _CMP_OPS; set_solver|done..].
Qed.

Lemma clean_evaluates n q scope : clean n q → proper (vof (eval_node n scope)).
Proof.
  revert q scope. induction n as [| | | | |l IH|] using value_ind; intros qt scope Hc;
    apply clean_shape in Hc as (op & args & [= ->] & Hs).
  apply Forall_cons in IH as [_ IH].
  change (VList (VStr op :: args)) with (node op args).
  inversion Hs as [? cs Hop Hne Hcs|c Hcl|? f c Hop Hcl|f|f cmp m Hcmp Hm|f ms Hms|? f lit Hop Hlit];
    subst.
  - rewrite eval_junction by done. apply junction_proper, Forall_map.
    rewrite Forall_forall in IH, Hcs |- *. intros c Hc. by apply (IH c Hc qt), Hcs.
  - rewrite eval_not. apply Forall_cons in IH as [IH _]. specialize (IH qt scope Hcl).
    by destruct (vof _).
  - rewrite eval_quant by done. destruct (_resolve scope f) as [[| | | | |els|]|]; try done.
    apply junction_proper, Forall_map, Forall_forall. intros e _.
    rewrite !Forall_cons in IH. by apply (proj1 (proj2 IH) true).
  - done.
  - rewrite eval_count_node. destruct (_resolve scope f) as [[| | | | |els|]|]; try done.
    unfold eval_count.
    rewrite bool_decide_eq_true_2 by done.
    by destruct (compare_numbers cmp (VInt (Z.of_nat (length els))) m) as [b ->].
  - rewrite eval_leaf_node by set_solver. destruct (_resolve scope f); [apply eval_leaf_proper|done].
  - rewrite eval_leaf_node by set_solver. destruct (_resolve scope f); [apply eval_leaf_proper|done].
Qed.

(** ** The canonical form means the same *)

Lemma uniq_get ms k v : dget k (uniq ms) = Some v → v ∈ ms ∧ dumps v = k.
Proof.
  induction ms as [|m ms IH] using rev_ind; [done|]. unfold uniq in *. rewrite fold_left_app. simpl.
  destruct (decide (k = dumps m)) as [->|Hne].
  - rewrite dget_dset_eq. intros [= ->]. split; [set_solver|done].
  - rewrite dget_dset_ne by done. intros H%IH. set_solver.
Qed.
Lemma uniq_has ms m : m ∈ ms → is_Some (dget (dumps m) (uniq ms)).
Proof.
  induction ms as [|x ms IH] using rev_ind; [by intros ?%not_elem_of_nil|].
  unfold uniq in *. rewrite fold_left_app. simpl. intros Hm.
  destruct (decide (dumps m = dumps x)) as [->|Hne]; [by rewrite dget_dset_eq|].
  rewrite dget_dset_ne by done. apply IH. set_solver.
Qed.

Lemma sorted_members_elem ms x :
  (∀ x y, x ∈ ms → y ∈ ms → dumps x = dumps y → x = y) → x ∈ sorted_members ms ↔ x ∈ ms.
Proof.
  intros Hd. unfold sorted_members. rewrite list_elem_of_omap.
  setoid_rewrite py_sorted_elem. split.
  - intros (k & _ & H). by apply uniq_get in H as [? _].
  - intros Hx. destruct (uniq_has ms x Hx) as [y Hy].
    exists (dumps x). split; [by eapply dget_keys|]. rewrite Hy. f_equal.
    apply uniq_get in Hy as [? ?]. by apply Hd.
Qed.

Lemma existsb_same {A} (f : A → bool) l l' : (∀ x, x ∈ l ↔ x ∈ l') → existsb f l = existsb f l'.
Proof.
  intros H. apply eq_true_iff_eq. rewrite !existsb_exists.
  setoid_rewrite <- list_elem_of_In. split; intros (x & ? & ?); exists x; by rewrite H in *.
Qed.

Lemma junction_app stop l l' :
  junction stop (l ++ l')%list = junction stop (junction stop l :: l').
Proof.
  induction l as [|[e|b] l IH]; simpl; [by destruct stop|done|].
  destruct (Bool.eqb b stop) eqn:E; simpl; [by rewrite Bool.eqb_reflx|]. by rewrite IH.
Qed.

Lemma head_is_node op c l : head_is op c = Some l → c = node op l.
Proof.
  unfold head_is. destruct c as [| | | | |[|[| | | |s| |] args]|]; try done.
  case_decide; [|done]. by intros [= ->]; subst.
Qed.

Lemma flatten_eval op ks scope :
  op ∈ ["and"; "or"] → Forall (λ k, ∀ l, k = node op l → l ≠ []) ks →
  junction (bool_decide (op = "or")) (map (λ c, vof (eval_node c scope)) (flatten op ks)) =
  junction (bool_decide (op = "or")) (map (λ c, vof (eval_node c scope)) ks).
Proof.
  intros Hop. induction 1 as [|k ks Hk _ IH]; [done|].
  cbn [flatten flat_map]. rewrite map_app, junction_app. cbn [map junction]. unfold flatten in IH.
  rewrite IH. destruct (head_is op k) as [l|] eqn:E.
  - apply head_is_node in E as ->. by rewrite <- eval_junction by (done || by apply Hk).
  - cbn [map junction]. destruct (vof _) as [|b]; [done|].
    by destruct b, (bool_decide (op = "or")).
Qed.

Lemma mapM_opt_some {A B} (f : A → option B) (R : A → B → Prop) l :
  (∀ x, x ∈ l → ∃ y, f x = Some y ∧ R x y) → ∃ ys, mapM_opt f l = Some ys ∧ Forall2 R l ys.
Proof.
  induction l as [|x l IH]; intros H; simpl; [by exists []|].
  destruct (H x) as (y & -> & Hy); [set_solver|]. destruct IH as (ys & -> & Hys); [set_solver|].
  exists (y :: ys). by split; [|constructor].
Qed.

Lemma canonical_scalar l : _is_scalar l = true → canonical l = Some l.
Proof. by destruct l. Qed.

Lemma canonical_node op args :
  op ≠ "in" ∨ length args ≠ 2 →
  canonical (node op args) =
    (λ ks, node op (if bool_decide (op ∈ ["and"; "or"]) then flatten op ks else ks)) <$> mapM_opt canonical args.
Proof.
  intros H. cbn [node canonical]. rewrite decide_False by (intros [? ?]; tauto).
  by destruct (bool_decide _).
Qed.

Lemma flatten_nonempty op ks :
  ks ≠ [] → Forall (λ k, ∀ l, k = node op l → l ≠ []) ks → flatten op ks ≠ [].
Proof.
  intros Hks H. destruct H as [|k ks Hk _]; [done|]. unfold flatten. simpl.
  destruct (head_is op k) as [l|] eqn:E; [|done]. apply head_is_node in E.
  specialize (Hk l E). by destruct l.
Qed.

Lemma children_same cs ks scope :
  Forall2 (λ c k, ∀ scope, vof (eval_node k scope) = vof (eval_node c scope)) cs ks →
  map (λ c, vof (eval_node c scope)) ks = map (λ c, vof (eval_node c scope)) cs.
Proof. induction 1; simpl; congruence. Qed.

(** What the canonical form [k] of the node [n] keeps. *)
Definition same_meaning (n k : value) : Prop :=
  (∃ op args, k = node op args ∧ (op ∈ ["and"; "or"] → args ≠ [])) ∧
  ∀ scope, vof (eval_node k scope) = vof (eval_node n scope).

Lemma sets_child op args c ms : c ∈ args → ms ∈ sets c → ms ∈ sets (node op args).
Proof.
  intros Hc Hms. cbn [node sets]. apply elem_of_app. right.
  apply list_elem_of_In, in_flat_map. exists c. by rewrite <- !list_elem_of_In.
Qed.

Lemma junction_means op cs :
  op ∈ ["and"; "or"] → cs ≠ [] → Forall (λ c, ∃ k, canonical c = Some k ∧ same_meaning c k) cs →
  ∃ k, canonical (node op cs) = Some k ∧ same_meaning (node op cs) k.
Proof.
  intros Hop Hne Hcs. rewrite Forall_forall in Hcs.
  destruct (mapM_opt_some canonical same_meaning cs Hcs) as (ks & Eks & Hks).
  assert (Forall (λ k, ∀ l, k = node op l → l ≠ []) ks) as Hfl.
  { clear -Hks Hop. induction Hks as [|c k cs ks [(o & a & -> & Ho) _] _ IH]; constructor; [|done].
    intros l [= -> ->]. by apply Ho. }
  assert (ks ≠ []) as Hnk by (by destruct Hks).
  exists (node op (flatten op ks)). split; [|split].
  - rewrite canonical_node by set_solver. by rewrite Eks, bool_decide_eq_true_2.
  - exists op, (flatten op ks). split; [done|]. intros _. by apply flatten_nonempty.
  - intros scope. rewrite !eval_junction by (done || by apply flatten_nonempty).
    rewrite flatten_eval by done. f_equal. apply children_same.
    eapply Forall2_impl; [done|]. by intros ?? [].
Qed.

Lemma canonical_means n qt :
  clean n qt → distinct n → ∃ k, canonical n = Some k ∧ same_meaning n k.
Proof.
  revert qt. induction n as [| | | | |l IH|] using value_ind; intros qt Hc Hd;
    apply clean_shape in Hc as (op & args & [= ->] & Hs).
  apply Forall_cons in IH as [_ IH]. change (VList (VStr op :: args)) with (node op args) in *.
  assert (Hchild : ∀ c q', c ∈ args → clean c q' → ∃ k, canonical c = Some k ∧ same_meaning c k).
  { intros c q' Hc Hcl. rewrite Forall_forall in IH. apply (IH c Hc q' Hcl).
    intros ms Hms. apply Hd. by eapply sets_child. }
  clear IH.
  inversion Hs as [? cs Hop Hne Hcs|c Hcl|? f c Hop Hcl|f|f cmp m Hcmp Hm|f ms Hms|? f lit Hop Hlit];
    subst.
  - apply junction_means; [done..|]. rewrite Forall_forall in Hcs |- *. intros c Hc.
    by apply (Hchild c qt), Hcs.
  - destruct (Hchild c qt) as (k & Ek & Hk); [set_solver|done|].
    exists (node "not" [k]). split; [|split].
    + rewrite canonical_node by (by left). cbn. by rewrite Ek.
    + exists "not", [k]. split; [done|]. set_solver.
    + intros scope. rewrite !eval_not. by rewrite (proj2 Hk).
  - destruct (Hchild c true) as (k & Ek & Hk); [set_solver|done|].
    exists (node op [VStr f; k]). split; [|split].
    + rewrite canonical_node by set_solver. cbn. rewrite Ek. cbn. by rewrite bool_decide_eq_false_2 by set_solver.
    + exists op, [VStr f; k]. by split.
    + intros scope. rewrite !eval_quant by done.
      destruct (_resolve scope f) as [[| | | | |els|]|]; try done. f_equal.
      apply map_ext. intros e. apply (proj2 Hk).
  - exists (node "exists" [VStr f]). split; [done|]. split; [|done].
    exists "exists", [VStr f]. by split.
  - exists (node "count" [VStr f; VStr cmp; m]). split; [by destruct m|]. split; [|done].
    exists "count", [VStr f; VStr cmp; m]. by split.
  - exists (node "in" [VStr f; VList (sorted_members ms)]). split; [done|]. split.
    { exists "in", [VStr f; VList (sorted_members ms)]. by split. }
    intros scope. rewrite !eval_leaf_node by set_solver. destruct (_resolve scope f) as [v|]; [|done].
    unfold eval_leaf. cbn. erewrite existsb_same; [done|]. intros x. apply sorted_members_elem.
    apply Hd. cbn. set_solver.
  - exists (node op [VStr f; lit]). unfold _CMP_OPS in Hop. split; [|split; [|done]].
    + rewrite canonical_node by set_solver. cbn [mapM_opt canonical].
      rewrite canonical_scalar by done. cbn. by rewrite bool_decide_eq_false_2 by set_solver.
    + exists op, [VStr f; lit]. by split.
Qed.

Lemma validate_ok n pv :
  validate n = Some pv → ok pv = true → clean n false ∧ replay_key n = Some (pv_replay_key pv).
Proof.
  unfold validate, clean. destruct (walk n false) as [[es os] fs]. simpl.
  destruct (existsb _ es); [done|]. destruct es as [|e es].
  - destruct (replay_key n) as [k|]; [|done]. by intros [= <-].
  - by intros [= <-].
Qed.

Lemma evaluate_vof n d k :
  replay_key n = Some k → evaluate n (VDict d) = vof (eval_node n (VDict d)).
Proof.
  intros Hk. unfold evaluate, evaluate_traced. simpl.
  destruct (eval_node n (VDict d)) as [|[b st]]; [done|]. by rewrite Hk.
Qed.

(** ** Theorems *)

(** C31: a predicate that the static check accepts never escalates and never trips over itself:
    on every state it yields a verdict that carries the key the check returned, or it reports
    that a field has the wrong type. *)
Theorem validated_evaluates n pv d :
  validate n = Some pv → ok pv = true →
  (∃ ev, evaluate_traced n (VDict d) = inr ev ∧ pe_replay_key ev = pv_replay_key pv) ∨
  evaluate_traced n (VDict d) = inl PredicateTypeError.
Proof.
  intros Hv Hok. destruct (validate_ok n pv Hv Hok) as [Hc Hk].
  pose proof (clean_evaluates n false (VDict d) Hc) as H. unfold evaluate_traced. simpl.
  destruct (eval_node n (VDict d)) as [e|[b st]]; simpl in H; [subst; by right|].
  left. rewrite Hk. by eexists.
Qed.

(** Two accepted predicates with the same canonical form, however the junctions are nested
    and the sets ordered, give the same verdict on every state, provided that different members
    of a set print differently. *)
Theorem canonical_sound n m pn pm :
  validate n = Some pn → ok pn = true → distinct n →
  validate m = Some pm → ok pm = true → distinct m →
  canonical n = canonical m → ∀ d, evaluate n (VDict d) = evaluate m (VDict d).
Proof.
  intros Hn Hon Hdn Hm Hom Hdm He d.
  destruct (validate_ok n pn Hn Hon) as [Hcn Hkn], (validate_ok m pm Hm Hom) as [Hcm Hkm].
  destruct (canonical_means n false Hcn Hdn) as (k & Ek & _ & Hmn).
  destruct (canonical_means m false Hcm Hdm) as (k' & Ek' & _ & Hmm).
  rewrite (evaluate_vof n d _ Hkn), (evaluate_vof m d _ Hkm), <- Hmn, <- Hmm. congruence.
Qed.

(** [a in {1, 2} and (b == true and c > 0)], as parsed *)
Definition sample (text : string) : value := match parse text with Done n => n | _ => VNone end.
Definition left_nested : value := sample "a in {2, 1} and b == true and c > 0".
Definition right_nested : value := sample "and(a in {1, 2}, (b == true and c > 0))".

Lemma distinct_check n :
  forallb (λ ms, forallb (λ x, forallb (λ y,
    bool_decide (dumps x ≠ dumps y) || match x, y with VInt a, VInt b => bool_decide (a = b) | _, _ => false end) ms) ms) (sets n) = true →
  distinct n.
Proof.
  intros H ms Hms x y Hx Hy He. rewrite forallb_forall in H.
  apply list_elem_of_In, H in Hms. rewrite forallb_forall in Hms.
  apply list_elem_of_In, Hms in Hx. rewrite forallb_forall in Hx.
  apply list_elem_of_In, Hx in Hy. apply orb_true_iff in Hy as [Hy|Hy].
  - by apply bool_decide_eq_true in Hy.
  - destruct x, y; try done. apply bool_decide_eq_true in Hy. by subst.
Qed.

Lemma validated_evaluates_witness :
  ∃ pv, validate left_nested = Some pv ∧ ok pv = true ∧
    ((∃ ev, evaluate_traced left_nested (VDict [("a", VInt 1)]) = inr ev ∧
            pe_replay_key ev = pv_replay_key pv) ∨
     evaluate_traced left_nested (VDict [("a", VInt 1)]) = inl PredicateTypeError).
Proof.
  destruct (validate left_nested) as [pv|] eqn:E; [|exfalso; vm_compute in E; discriminate].
  exists pv. assert (ok pv = true) as Hok.
  { vm_compute in E. injection E as <-. reflexivity. }
  split; [done|]. split; [done|]. by apply (validated_evaluates left_nested pv).
Defined.

Lemma canonical_sound_witness :
  left_nested ≠ right_nested ∧
  evaluate left_nested (VDict [("a", VInt 1)]) = evaluate right_nested (VDict [("a", VInt 1)]).
Proof.
  split; [by vm_compute|].
  destruct (validate left_nested) as [pn|] eqn:En; [|exfalso; vm_compute in En; discriminate].
  destruct (validate right_nested) as [pm|] eqn:Em; [|exfalso; vm_compute in Em; discriminate].
  apply (canonical_sound left_nested right_nested pn pm).
  - done.
  - vm_compute in En. by injection En as <-.
  - apply distinct_check. vm_compute. reflexivity.
  - done.
  - vm_compute in Em. by injection Em as <-.
  - apply distinct_check. vm_compute. reflexivity.
  - vm_compute. reflexivity.
Defined.

(** The comparison [==] keeps booleans and numbers apart, the membership test does not. *)
Lemma membership_is_loose :
  evaluate (sample "flag == true") (VDict [("flag", VInt 1)]) = inr false ∧
  evaluate (sample "flag in {true}") (VDict [("flag", VInt 1)]) = inr true.
Proof. by vm_compute. Qed.
