(* ===== verification/LegacyOutbox.v ===== *)
(** * The mail outbox of the previous architecture (legacy/outbox.py)

    Mails are staged in a tick, committed with it and handed to the mail system by [dispatch],
    which repeats what fails.  The dict holds the entries; entry objects are reachable through
    it.  The random identifier of an entry is an argument of [stage], and the delivery callback
    is a parameter that returns or raises with a message. *)

From stdpp Require Import base gmap strings list pretty.
From Stdlib Require Import ZArith.
From S2P Require Import Prelude PyValue.

Open Scope string_scope.
Open Scope Z_scope.

Inductive OutboxStatus := STAGED | COMMITTED | DISPATCHING | DISPATCHED | FAILED | DEAD.
#[global] Instance OutboxStatus_eq_dec : EqDecision OutboxStatus.
Proof. solve_decision. Defined.
Definition status_value (s : OutboxStatus) : string :=
  match s with
  | STAGED => "staged" | COMMITTED => "committed" | DISPATCHING => "dispatching"
  | DISPATCHED => "dispatched" | FAILED => "failed" | DEAD => "dead"
  end.

(** The mail itself; attachments are references to assets. *)
Record Mail := mkMail {
  from_agent : string; to : list string; subject : string; body : string;
  email_type : string; mail_task : string; attachments : list value }.

Record OutboxEntry := mkEntry {
  entry_id : string;
  idempotency_key : string;
  effect_id : string;
  status : OutboxStatus;
  mail : Mail;
  attempt_count : Z;
  max_retries : Z;
  last_error : string;
  next_retry_tick : option Z;
  dispatched_at_tick : option Z }.
Definition set_status (s : OutboxStatus) (e : OutboxEntry) : OutboxEntry :=
  mkEntry (entry_id e) (idempotency_key e) (effect_id e) s (mail e) (attempt_count e)
    (max_retries e) (last_error e) (next_retry_tick e) (dispatched_at_tick e).
Definition has_status (s : OutboxStatus) (e : OutboxEntry) : bool := bool_decide (status e = s).

Record Outbox := mkOutbox {
  _entries : dict OutboxEntry;
  _idempotency_keys : gset string;
  _max_retries : Z }.
Definition Outbox_init (retries : Z) : Outbox := mkOutbox [] ∅ retries.
Definition set_entries (f : dict OutboxEntry → dict OutboxEntry) (o : Outbox) : Outbox :=
  mkOutbox (f (_entries o)) (_idempotency_keys o) (_max_retries o).

(** [key_hex] is the random suffix. *)
Definition _make_key (m : Mail) (key_hex : string) : string :=
  from_agent m +:+ ":" +:+ subject m +:+ ":" +:+ mail_task m +:+ ":" +:+ key_hex.

Definition stage (m : Mail) (effect idempotency id_hex key_hex : string) (o : Outbox) :
    OutboxEntry * Outbox :=
  let key := if nonempty idempotency then idempotency else _make_key m key_hex in
  let existing := if decide (key ∈ _idempotency_keys o)
                  then List.find (λ e, bool_decide (idempotency_key e = key)) (dvalues (_entries o))
                  else None in
  match existing with
  | Some e => (e, o)
  | None =>
      let e := mkEntry ("out." +:+ id_hex) key effect STAGED m 0 (_max_retries o) "" None None in
      (e, mkOutbox (dset (entry_id e) e (_entries o)) ({[key]} ∪ _idempotency_keys o) (_max_retries o))
  end.

Definition commit (id : string) (o : Outbox) : option OutboxEntry * Outbox :=
  match dget id (_entries o) with
  | Some e => if has_status STAGED e
              then let e := set_status COMMITTED e in (Some e, set_entries (dset id e) o)
              else (Some e, o)
  | None => (None, o)
  end.

(** What the callback answers: [None] when it returns, the message when it raises. *)
Definition delivery : Type := OutboxEntry → option string.

(** Due for dispatch at [tick]. *)
Definition due (tick : Z) (e : OutboxEntry) : bool :=
  has_status COMMITTED e && match next_retry_tick e with Some t => negb (tick <? t) | None => true end.

(** The attempt on one entry: the entry afterwards, and whether it was delivered. *)
Definition attempt (deliver : delivery) (tick : Z) (e : OutboxEntry) : OutboxEntry * bool :=
  let e := set_status DISPATCHING e in
  match deliver e with
  | None =>
      (mkEntry (entry_id e) (idempotency_key e) (effect_id e) DISPATCHED (mail e) (attempt_count e)
         (max_retries e) (last_error e) (next_retry_tick e) (Some tick), true)
  | Some msg =>
      let n := attempt_count e + 1 in
      (mkEntry (entry_id e) (idempotency_key e) (effect_id e)
         (if max_retries e <? n then DEAD else COMMITTED) (mail e) n (max_retries e) msg
         (if max_retries e <? n then next_retry_tick e else Some (tick + 1))
         (dispatched_at_tick e), false)
  end.

(** The loop over a snapshot of the entries; the calls made, with their outcome. *)
Fixpoint dispatch_loop (deliver : delivery) (tick : Z) (ids : list string) (o : Outbox) :
    list (OutboxEntry * bool) * Outbox :=
  match ids with
  | [] => ([], o)
  | id :: ids' =>
      match dget id (_entries o) with
      | Some e =>
          if due tick e then
            let r := attempt deliver tick e in
            let '(l, o) := dispatch_loop deliver tick ids' (set_entries (dset id r.1) o) in
            (r :: l, o)
          else dispatch_loop deliver tick ids' o
      | None => dispatch_loop deliver tick ids' o
      end
  end.
(** The dispatched and the failed entries are the two parts of the list of calls. *)
Definition dispatch (deliver : delivery) (tick : Z) (o : Outbox) : list (OutboxEntry * bool) * Outbox :=
  dispatch_loop deliver tick (dkeys (_entries o)) o.

Definition remove_with (s : OutboxStatus) (id : string) (o : Outbox) : Outbox :=
  match dget id (_entries o) with
  | Some e => if has_status s e
              then mkOutbox (dpop id (_entries o)) (_idempotency_keys o ∖ {[idempotency_key e]})
                     (_max_retries o)
              else o
  | None => o
  end.
Definition rollback : string → Outbox → Outbox := remove_with STAGED.
Definition rollback_committed : string → Outbox → Outbox := remove_with COMMITTED.

Definition get (id : string) (o : Outbox) : option OutboxEntry := dget id (_entries o).
Definition entries_by_status (s : OutboxStatus) (o : Outbox) : list OutboxEntry :=
  List.filter (has_status s) (dvalues (_entries o)).
Definition pending_count (o : Outbox) : nat :=
  length (List.filter (λ e, has_status STAGED e || has_status COMMITTED e) (dvalues (_entries o))).
Definition dead_count (o : Outbox) : nat := length (entries_by_status DEAD o).
Definition summary (o : Outbox) : nat * dict nat :=
  (length (_entries o),
   fold_left (λ d e, let k := status_value (status e) in dset k (S (default O (dget k d))) d)
     (dvalues (_entries o)) []).

(** ** Runs *)

Inductive op :=
| OStage (m : Mail) (effect idempotency id_hex key_hex : string)
| OCommit (id : string)
| ODispatch (deliver : delivery) (tick : Z)
| ORollback (id : string)
| ORollbackCommitted (id : string).

(** The deliveries a call attempts, and the outbox after it. *)
Definition outbox_step (a : op) (o : Outbox) : list (OutboxEntry * bool) * Outbox :=
  match a with
  | OStage m eff idem i k => ([], (stage m eff idem i k o).2)
  | OCommit id => ([], (commit id o).2)
  | ODispatch f t => dispatch f t o
  | ORollback id => ([], rollback id o)
  | ORollbackCommitted id => ([], rollback_committed id o)
  end.
Fixpoint outbox_run (ops : list op) (o : Outbox) : list (OutboxEntry * bool) * Outbox :=
  match ops with
  | [] => ([], o)
  | a :: ops' => let '(l, o) := outbox_step a o in
                 let '(l', o) := outbox_run ops' o in (l ++ l', o)%list
  end.
(** The identifiers a run gives out. *)
Definition fresh_ids (ops : list op) : list string :=
  omap (λ a, match a with OStage _ _ _ i _ => Some i | _ => None end) ops.

(** ** The account of the deliveries *)

Definition calls (id : string) (l : list (OutboxEntry * bool)) : nat :=
  length (List.filter (λ c, bool_decide (entry_id c.1 = id)) l).
(** The keys of the mails that were delivered, in order. *)
Definition delivered (l : list (OutboxEntry * bool)) : list string :=
  map (λ c, idempotency_key c.1) (List.filter snd l).

Lemma calls_app id l l' : calls id (l ++ l') = (calls id l + calls id l')%nat.
Proof. unfold calls. by rewrite List.filter_app, length_app. Qed.
Lemma calls_one id c : calls id [c] = if decide (entry_id c.1 = id) then 1%nat else 0%nat.
Proof. unfold calls. simpl. by case_decide; [rewrite bool_decide_true|rewrite bool_decide_false]. Qed.
Lemma delivered_app l l' : delivered (l ++ l') = (delivered l ++ delivered l')%list.
Proof. unfold delivered. by rewrite List.filter_app, map_app. Qed.

Section Account.
Variables (M : Z) (M_pos : 0 ≤ M).

(** The state of an entry tells how often delivery was attempted. *)
Definition account (log : list (OutboxEntry * bool)) (e : OutboxEntry) : Prop :=
  let n := Z.of_nat (calls (entry_id e) log) in
  match status e with
  | STAGED => attempt_count e = 0 ∧ n = 0
  | COMMITTED => n = attempt_count e ∧ n ≤ M
  | DISPATCHED => n ≤ M + 1
  | DEAD => n ≤ M + 1
  | _ => False
  end.

Record oinv (used : list string) (log : list (OutboxEntry * bool)) (o : Outbox) : Prop := {
  oi_keys : NoDup (dkeys (_entries o));
  oi_entry : ∀ k e, dget k (_entries o) = Some e →
    entry_id e = k ∧ max_retries e = M ∧ k ∈ used ∧ idempotency_key e ∈ _idempotency_keys o ∧
    account log e;
  oi_unique : ∀ k e k' e', dget k (_entries o) = Some e → dget k' (_entries o) = Some e' →
    idempotency_key e = idempotency_key e' → k = k';
  oi_gone : ∀ id, dget id (_entries o) = None →
    Z.of_nat (calls id log) ≤ M + 1 ∧ (id ∉ used → calls id log = 0%nat);
  oi_once : NoDup (delivered log);
  oi_delivered : ∀ key, key ∈ delivered log ↔
    ∃ k e, dget k (_entries o) = Some e ∧ status e = DISPATCHED ∧ idempotency_key e = key;
  oi_max : _max_retries o = M }.

Lemma oinv_init : oinv [] [] (Outbox_init M).
Proof.
  split; simpl; [constructor|done|done| |constructor| |done].
  - intros id _. split; [unfold calls; simpl; lia|done].
  - intros key. split; [by intros ?%not_elem_of_nil|by intros (? & ? & ? & _)].
Qed.

Lemma find_none key o e :
  List.find (λ e, bool_decide (idempotency_key e = key)) (dvalues (_entries o)) = None →
  ∀ k, dget k (_entries o) = Some e → idempotency_key e ≠ key.
Proof.
  intros H k Hk Hkey. eapply List.find_none in H.
  - by rewrite bool_decide_eq_false in H.
  - apply dget_Some_elem in Hk. apply list_elem_of_In. unfold dvalues.
    apply list_elem_of_fmap. by exists (k, e).
Qed.

Lemma stage_oinv used log o m eff idem i hex :
  oinv used log o → ("out." +:+ i) ∉ used →
  oinv (("out." +:+ i) :: used) log (stage m eff idem i hex o).2.
Proof.
  intros [H1 H2 H3 H4 H5 H6 H7] Hfresh. unfold stage.
  generalize (if nonempty idem then idem else _make_key m hex). intros key.
  assert (Hweak : oinv (("out." +:+ i) :: used) log o).
  { split; try done.
    - intros k e Hk. destruct (H2 k e Hk) as (? & ? & ? & ? & ?). set_solver.
    - intros id Hid. destruct (H4 id Hid) as [Hle H0]. split; [done|]. set_solver. }
  destruct (if decide (key ∈ _idempotency_keys o) then _ else _) as [e|] eqn:Ef; [done|].
  assert (Hnew : ∀ k e, dget k (_entries o) = Some e → idempotency_key e ≠ key).
  { intros k e Hk. case_decide as Hin; [by eapply find_none|].
    intros <-. by destruct (H2 k e Hk) as (? & ? & ? & ? & ?). }
  clear Ef. assert (Hnone : dget ("out." +:+ i) (_entries o) = None).
  { destruct (dget _ _) as [e|] eqn:E; [|done]. by destruct (H2 _ e E) as (? & ? & ? & ?). }
  destruct (H4 _ Hnone) as [_ Hzero]. specialize (Hzero Hfresh).
  split; simpl.
  - by apply dkeys_dset_NoDup.
  - intros k e. rewrite dget_dset. destruct (decide (k = _)) as [->|].
    + intros [= <-]. simpl. repeat (split; [done || set_solver|]). simpl. lia.
    + intros He. destruct (H2 k e He) as (? & ? & ? & ? & ?).
      repeat (split; [done || set_solver|]). done.
  - intros k e k' e'. rewrite !dget_dset.
    destruct (decide (k = _)) as [->|], (decide (k' = _)) as [->|]; [done|..|apply H3].
    + intros [= <-] Hk' He. simpl in He. by destruct (Hnew k' e').
    + intros Hk [= <-] He. simpl in He. by destruct (Hnew k e).
  - intros id. rewrite dget_dset. case_decide; [done|]. intros Hid.
    destruct (H4 id Hid) as [Hle H0]. split; [done|]. set_solver.
  - done.
  - intros kk. rewrite H6. split.
    + intros (k & e & Hk & Hs & He). exists k, e. rewrite dget_dset_ne; [done|]. congruence.
    + intros (k & e & Hk & Hs & He). rewrite dget_dset in Hk. case_decide; [|by exists k, e].
      injection Hk as <-. done.
  - done.
Qed.

(** A change of one entry that keeps its identity. *)
Lemma update_oinv used log log' o k e e' :
  oinv used log o → dget k (_entries o) = Some e →
  entry_id e' = entry_id e → idempotency_key e' = idempotency_key e → max_retries e' = max_retries e →
  (∀ id, id ≠ k → calls id log' = calls id log) → account log' e' → status e ≠ DISPATCHED →
  delivered log' = (delivered log ++ (if decide (status e' = DISPATCHED)
                                      then [idempotency_key e] else []))%list →
  oinv used log' (set_entries (dset k e') o).
Proof.
  intros [H1 H2 H3 H4 H5 H6 H7] Hk Hid Hkey Hmax Hcalls Hacc Hst Hdel.
  destruct (H2 k e Hk) as (E1 & E2 & E3 & E4 & _).
  split; simpl.
  - by apply dkeys_dset_NoDup.
  - intros k' f. rewrite dget_dset. destruct (decide (k' = k)) as [->|].
    + intros [= <-]. subst. by rewrite Hid, Hkey, Hmax.
    + intros Hf. destruct (H2 k' f Hf) as (F1 & F2 & F3 & F4 & F5).
      repeat (split; [done|]). unfold account in *. by rewrite Hcalls by congruence.
  - intros k1 e1 k2 e2. rewrite !dget_dset.
    destruct (decide (k1 = k)) as [->|], (decide (k2 = k)) as [->|]; [done|..|apply H3].
    + intros [= <-] Hk2 He. rewrite Hkey in He. by eapply H3.
    + intros Hk1 [= <-] He. rewrite Hkey in He. by eapply H3.
  - intros id. rewrite dget_dset. destruct (decide (id = k)); [done|]. rewrite Hcalls by done. apply H4.
  - rewrite Hdel. case_decide; [|by rewrite app_nil_r]. apply NoDup_app. split; [done|]. split.
    + intros x Hx%H6 ->%list_elem_of_singleton. destruct Hx as (k' & f & Hf & Hs & He).
      assert (k' = k) as -> by (by eapply H3). congruence.
    + apply NoDup_singleton.
  - intros key. rewrite Hdel, elem_of_app, H6. split.
    + intros [(k' & f & Hf & Hs & He)|Hx].
      * exists k', f. rewrite dget_dset_ne; [done|]. congruence.
      * case_decide; [|by apply not_elem_of_nil in Hx]. apply list_elem_of_singleton in Hx as ->.
        exists k, e'. by rewrite dget_dset_eq.
    + intros (k' & f & Hf & Hs & He). rewrite dget_dset in Hf. destruct (decide (k' = k)) as [->|].
      * injection Hf as <-. right. rewrite decide_True by done. rewrite <- He, Hkey. set_solver.
      * left. by exists k', f.
  - done.
Qed.

Lemma has_status_spec s e : has_status s e = true ↔ status e = s.
Proof. apply bool_decide_eq_true. Qed.

Lemma attempt_oinv used log o f tick id e :
  oinv used log o → dget id (_entries o) = Some e → due tick e = true →
  oinv used (log ++ [attempt f tick e]) (set_entries (dset id (attempt f tick e).1) o).
Proof.
  intros Hi Hid Hdue. destruct (oi_entry _ _ _ Hi id e Hid) as (E1 & E2 & _ & _ & E5).
  unfold due in Hdue. apply andb_true_iff in Hdue as [Hst%has_status_spec _].
  unfold account in E5. rewrite Hst, E1 in E5. destruct E5 as [En Eb].
  assert (Hcalls : ∀ i, calls i (log ++ [attempt f tick e]) =
            if decide (id = i) then S (calls i log) else calls i log).
  { intros i. rewrite calls_app, calls_one. unfold attempt.
    destruct (f _); simpl; rewrite E1; case_decide; lia. }
  eapply (update_oinv used log _ o id e); try done.
  - unfold attempt. by destruct (f _).
  - unfold attempt. by destruct (f _).
  - unfold attempt. by destruct (f _).
  - intros i Hne. rewrite Hcalls. by rewrite decide_False.
  - unfold account. rewrite Hcalls. unfold attempt.
    destruct (f _) as [msg|]; simpl; rewrite E1, decide_True by done; [|lia].
    rewrite E2. destruct (M <? attempt_count e + 1) eqn:Hlt; lia.
  - congruence.
  - rewrite delivered_app. f_equal. unfold attempt, delivered.
    destruct (f _) as [msg|]; simpl; [|done]. destruct (_ <? _); done.
Qed.

Lemma dispatch_loop_oinv f tick ids used log o :
  oinv used log o → let '(l, o') := dispatch_loop f tick ids o in oinv used (log ++ l) o'.
Proof.
  revert log o. induction ids as [|id ids IH]; intros log o Hi; simpl; [by rewrite app_nil_r|].
  destruct (dget id (_entries o)) as [e|] eqn:Hid; [|by apply IH].
  destruct (due tick e) eqn:Hd; [|by apply IH].
  pose proof (IH _ _ (attempt_oinv used log o f tick id e Hi Hid Hd)) as H.
  destruct (dispatch_loop _ _ _ _) as [l o']. by rewrite <- app_assoc in H.
Qed.

Lemma remove_oinv s used log o id :
  s = STAGED ∨ s = COMMITTED → oinv used log o → oinv used log (remove_with s id o).
Proof.
  intros Hs Hi. unfold remove_with. destruct (dget id (_entries o)) as [e|] eqn:Hid; [|done].
  destruct (has_status s e) eqn:He; [|done]. apply has_status_spec in He.
  destruct Hi as [H1 H2 H3 H4 H5 H6 H7]. destruct (H2 id e Hid) as (E1 & _ & E3 & _ & E5).
  assert (Hsub : ∀ k f, dget k (dpop id (_entries o)) = Some f → dget k (_entries o) = Some f ∧ k ≠ id).
  { intros k f. destruct (decide (k = id)) as [->|].
    - rewrite dget_dpop_eq. done.
    - by rewrite dget_dpop_ne. }
  split; simpl.
  - by apply dkeys_dpop_NoDup.
  - intros k f [Hf Hne]%Hsub. destruct (H2 k f Hf) as (F1 & F2 & F3 & F4 & F5).
    repeat (split; [done|]). split; [|done]. apply elem_of_difference. split; [done|].
    intros Heq%elem_of_singleton. by destruct Hne; eapply H3.
  - intros k f k' f' [Hf _]%Hsub [Hf' _]%Hsub. by eapply H3.
  - intros k. destruct (decide (k = id)) as [->|]; [|rewrite dget_dpop_ne by done; apply H4].
    intros _. split; [|done]. unfold account in E5. rewrite He, E1 in E5.
    destruct Hs as [Hs|Hs]; rewrite Hs in E5; lia.
  - done.
  - intros key. rewrite H6. split; intros (k & f & Hf & Hst & Hkey); exists k, f.
    + rewrite dget_dpop_ne; [done|]. intros ->. destruct Hs; congruence.
    + by apply Hsub in Hf as [? _].
  - done.
Qed.

Lemma commit_oinv used log o id : oinv used log o → oinv used log (commit id o).2.
Proof.
  intros Hi. unfold commit. destruct (dget id (_entries o)) as [e|] eqn:Hid; [|done].
  destruct (has_status STAGED e) eqn:He; [|done]. apply has_status_spec in He. simpl.
  destruct (oi_entry _ _ _ Hi id e Hid) as (E1 & _ & _ & _ & E5).
  eapply (update_oinv used log log o id e); try done.
  - unfold account in *. rewrite He in E5. simpl. lia.
  - congruence.
  - simpl. by rewrite app_nil_r.
Qed.

Definition used_ids (ops : list op) : list string := map (λ i, "out." +:+ i) (fresh_ids ops).

Lemma run_oinv ops used log o :
  oinv used log o → NoDup (fresh_ids ops) → (∀ i, i ∈ fresh_ids ops → ("out." +:+ i) ∉ used) →
  let '(l, o') := outbox_run ops o in ∃ used', oinv used' (log ++ l) o'.
Proof.
  revert used log o. induction ops as [|a ops IH]; intros used log o Hi Hn Hf; simpl.
  { exists used. by rewrite app_nil_r. }
  destruct (outbox_step a o) as [l o1] eqn:E.
  assert (∃ used1, oinv used1 (log ++ l) o1 ∧ NoDup (fresh_ids ops) ∧
            ∀ i, i ∈ fresh_ids ops → ("out." +:+ i) ∉ used1) as (used1 & Hi1 & Hn1 & Hf1).
  { destruct a; simpl in E; try (injection E as <- <-; rewrite app_nil_r); simpl in Hn, Hf.
    - exists (("out." +:+ id_hex) :: used). apply NoDup_cons in Hn as [Hni Hn].
      split; [apply stage_oinv; [done|apply Hf; set_solver]|]. split; [done|].
      intros i Hin. apply not_elem_of_cons. split; [|apply Hf; set_solver].
      intros Heq%(inj (String.append "out.")). by subst.
    - exists used. split; [by apply commit_oinv|done].
    - exists used. unfold dispatch in E.
      pose proof (dispatch_loop_oinv deliver tick (dkeys (_entries o)) used log o Hi) as H.
      rewrite E in H. done.
    - exists used. split; [by apply remove_oinv; [left|]|done].
    - exists used. split; [by apply remove_oinv; [right|]|done]. }
  pose proof (IH used1 _ o1 Hi1 Hn1 Hf1) as H.
  destruct (outbox_run ops o1) as [l' o2]. by rewrite <- app_assoc in H.
Qed.

Lemma calls_bounded used log o id : oinv used log o → Z.of_nat (calls id log) ≤ M + 1.
Proof.
  intros Hi. destruct (dget id (_entries o)) as [e|] eqn:Hid; [|by eapply oi_gone].
  destruct (oi_entry _ _ _ Hi id e Hid) as (E1 & _ & _ & _ & E5). unfold account in E5.
  rewrite E1 in E5. destruct (status e); lia.
Qed.
End Account.

(** ** Repeated dispatch *)

Lemma dispatch_loop_get f tick ids o id :
  NoDup ids →
  dget id (_entries (dispatch_loop f tick ids o).2) =
    (λ e, if bool_decide (id ∈ ids) && due tick e then (attempt f tick e).1 else e) <$>
      dget id (_entries o).
Proof.
  intros Hn. revert o. induction Hn as [|i ids Hi Hn IH]; intros o; simpl.
  { by destruct (dget id _). }
  assert (Hother : ∀ o', dget id (_entries o') = dget id (_entries o) → id ≠ i →
            dget id (_entries (dispatch_loop f tick ids o').2) =
            (λ e, if bool_decide (id ∈ i :: ids) && due tick e then (attempt f tick e).1 else e) <$>
              dget id (_entries o)).
  { intros o' Ho' Hne. rewrite IH, Ho'.
    by assert (bool_decide (id ∈ i :: ids) = bool_decide (id ∈ ids)) as ->
      by (apply bool_decide_ext; set_solver). }
  destruct (decide (id = i)) as [->|Hne].
  - rewrite (bool_decide_eq_true_2 (i ∈ i :: ids)) by set_solver.
    destruct (dget i (_entries o)) as [e|] eqn:He; simpl; [|by rewrite IH, He].
    destruct (due tick e) eqn:Hd;
      [|rewrite IH, He; simpl; by rewrite bool_decide_eq_false_2 by done].
    destruct (dispatch_loop f tick ids _) as [l o'] eqn:E. simpl.
    replace o' with (dispatch_loop f tick ids (set_entries (dset i (attempt f tick e).1) o)).2
      by by rewrite E.
    rewrite IH. simpl. rewrite dget_dset_eq. simpl. by rewrite bool_decide_eq_false_2 by done.
  - destruct (dget i (_entries o)) as [e|]; simpl; [|by apply Hother].
    destruct (due tick e); [|by apply Hother].
    destruct (dispatch_loop f tick ids _) as [l o'] eqn:E. simpl.
    replace o' with (dispatch_loop f tick ids (set_entries (dset i (attempt f tick e).1) o)).2
      by by rewrite E.
    apply Hother; [|done]. simpl. by rewrite dget_dset_ne.
Qed.

(** [dispatch] at [t], then at the ticks that follow. *)
Fixpoint dispatches (fs : list delivery) (t : Z) : list op :=
  match fs with
  | [] => []
  | f :: fs' => ODispatch f t :: dispatches fs' (t + 1)
  end.

(** After [j] attempts an entry is done, or waits for [t] at most. *)
Definition progress (id : string) (j t : Z) (o : Outbox) : Prop :=
  ∃ e, dget id (_entries o) = Some e ∧
    (status e = DISPATCHED ∨ status e = DEAD ∨
     status e = COMMITTED ∧ j ≤ attempt_count e ∧ ∀ n, next_retry_tick e = Some n → n ≤ t).

Lemma dispatch_progress f id j t o :
  NoDup (dkeys (_entries o)) → progress id j t o → progress id (j + 1) (t + 1) (dispatch f t o).2.
Proof.
  intros Hn (e & Hid & He). unfold progress, dispatch. rewrite dispatch_loop_get, Hid by done.
  eexists. split; [done|].
  rewrite bool_decide_eq_true_2 by (by eapply dget_keys). simpl. unfold due, has_status.
  destruct He as [He|[He|(He & Hj & Ht)]]; rewrite He; simpl; [by left|by right; left|].
  assert (match next_retry_tick e with Some n => negb (t <? n) | None => true end = true) as ->.
  { destruct (next_retry_tick e) as [n|]; [|done]. specialize (Ht n eq_refl). lia. }
  unfold attempt. destruct (f _) as [msg|]; simpl; [|by left].
  destruct (_ <? _); [by right; left|]. right. right. split; [done|]. split; [lia|].
  intros n [= <-]. lia.
Qed.

Lemma outbox_run_snoc ops a o :
  (outbox_run (ops ++ [a]) o).2 = (outbox_step a (outbox_run ops o).2).2.
Proof.
  revert o. induction ops as [|b ops IH]; intros o; simpl.
  { destruct (outbox_step a o) as [l o1]. done. }
  destruct (outbox_step b o) as [l o1]. specialize (IH o1).
  destruct (outbox_run (ops ++ [a]) o1) as [l1 o2]. destruct (outbox_run ops o1) as [l2 o3]. done.
Qed.
Lemma outbox_run_app ops ops' o :
  (outbox_run (ops ++ ops') o).2 = (outbox_run ops' (outbox_run ops o).2).2.
Proof.
  revert ops. induction ops' as [|a ops' IH]; intros ops; [by rewrite app_nil_r|].
  change (a :: ops') with ([a] ++ ops')%list. rewrite app_assoc, IH, outbox_run_snoc. simpl.
  destruct (outbox_step a _) as [l o1]. simpl. by destruct (outbox_run ops' o1).
Qed.

Lemma fresh_ids_app ops ops' : fresh_ids (ops ++ ops') = (fresh_ids ops ++ fresh_ids ops')%list.
Proof. apply omap_app. Qed.
Lemma dispatches_fresh fs t : fresh_ids (dispatches fs t) = [].
Proof. revert t. induction fs as [|f fs IH]; intros t; simpl; [done|]. apply IH. Qed.

Lemma reachable_oinv M ops :
  0 ≤ M → NoDup (fresh_ids ops) →
  let '(l, o) := outbox_run ops (Outbox_init M) in ∃ used, oinv M used l o.
Proof.
  intros HM Hn. pose proof (run_oinv M HM ops [] [] _ (oinv_init M HM) Hn) as H. simpl in H.
  apply H. intros i _ Hi. by apply not_elem_of_nil in Hi.
Qed.

Lemma dispatches_progress M id fs j t ops :
  0 ≤ M → NoDup (fresh_ids ops) →
  progress id j t (outbox_run ops (Outbox_init M)).2 →
  progress id (j + Z.of_nat (length fs)) (t + Z.of_nat (length fs))
    (outbox_run (ops ++ dispatches fs t) (Outbox_init M)).2.
Proof.
  intros HM. revert ops j t. induction fs as [|f fs IH]; intros ops j t Hn Hp; simpl.
  { by rewrite app_nil_r, !Z.add_0_r. }
  change (ODispatch f t :: dispatches fs (t + 1)) with ([ODispatch f t] ++ dispatches fs (t + 1))%list.
  rewrite app_assoc.
  replace (j + Z.of_nat (S (length fs))) with (j + 1 + Z.of_nat (length fs)) by lia.
  replace (t + Z.of_nat (S (length fs))) with (t + 1 + Z.of_nat (length fs)) by lia.
  apply IH.
  - by rewrite fresh_ids_app, app_nil_r.
  - rewrite outbox_run_snoc. simpl. apply dispatch_progress; [|done].
    pose proof (reachable_oinv M ops HM Hn) as H. destruct (outbox_run ops _) as [l o].
    destruct H as [used H]. apply H.
Qed.

(** ** Theorems *)

(** C36: whatever is staged, committed, rolled back and dispatched, and however deliveries fail,
    a mail goes out at most once per idempotency key, an entry is tried at most once more than
    the configured retries, and the keys that went out are those of the dispatched entries. *)
Theorem outbox_at_most_once retries ops :
  0 ≤ retries → NoDup (fresh_ids ops) →
  let '(log, o) := outbox_run ops (Outbox_init retries) in
  NoDup (delivered log) ∧
  (∀ id, Z.of_nat (calls id log) ≤ retries + 1) ∧
  (∀ key, key ∈ delivered log ↔
     ∃ id e, get id o = Some e ∧ status e = DISPATCHED ∧ idempotency_key e = key).
Proof.
  intros Hr Hn. pose proof (reachable_oinv retries ops Hr Hn) as H.
  destruct (outbox_run ops _) as [log o]. destruct H as [used Hi].
  split; [apply Hi|]. split; [|apply Hi]. intros id. by eapply calls_bounded.
Qed.

(** C37: a committed mail does not wait for ever: in any reachable outbox, when it is due,
    dispatching in as many consecutive ticks as there are attempts leaves it dispatched or
    dead, whatever each attempt does. *)
Theorem outbox_drains retries ops id e fs t :
  0 ≤ retries → NoDup (fresh_ids ops) → retries < Z.of_nat (length fs) →
  let o := (outbox_run ops (Outbox_init retries)).2 in
  get id o = Some e → due t e = true →
  ∃ e', get id (outbox_run (dispatches fs t) o).2 = Some e' ∧
    (status e' = DISPATCHED ∨ status e' = DEAD).
Proof.
  intros Hr Hn Hl o Hid Hdue. unfold due in Hdue.
  apply andb_true_iff in Hdue as [Hst%has_status_spec Hnext].
  assert (Hops : NoDup (fresh_ids (ops ++ dispatches fs t)))
    by by rewrite fresh_ids_app, dispatches_fresh, app_nil_r.
  pose proof (reachable_oinv retries ops Hr Hn) as Hi. fold o in Hid.
  assert (0 ≤ attempt_count e) as Ha.
  { unfold o in Hid. destruct (outbox_run ops _) as [l o1]. destruct Hi as [used Hi].
    destruct (oi_entry _ _ _ _ Hi id e Hid) as (_ & _ & _ & _ & H5). unfold account in H5.
    rewrite Hst in H5. lia. }
  assert (progress id 0 t o) as Hp.
  { exists e. split; [done|]. right. right. split; [done|]. split; [done|].
    intros n Hnn. rewrite Hnn in Hnext. lia. }
  apply (dispatches_progress retries id fs 0 t ops Hr Hn) in Hp as (e' & Hid' & He').
  rewrite outbox_run_app in Hid'. exists e'. split; [done|].
  destruct He' as [He'|[He'|(He' & Hj & _)]]; [by left|by right|exfalso].
  pose proof (reachable_oinv retries _ Hr Hops) as Hi'. rewrite <- outbox_run_app in Hid'.
  destruct (outbox_run (ops ++ dispatches fs t) _) as [l o1]. destruct Hi' as [used' Hi'].
  destruct (oi_entry _ _ _ _ Hi' id e' Hid') as (_ & _ & _ & _ & H5). unfold account in H5.
  rewrite He' in H5. lia.
Qed.

(** ** Witnesses *)

Definition sample_mail : Mail := mkMail "a" ["b"] "hi" "" "progress" "" [].
(** Two mails with one key, the first delivery failing. *)
Definition sample_ops : list op :=
  [OStage sample_mail "" "k" "1" "x"; OStage sample_mail "" "k" "2" "y"; OCommit "out.1";
   ODispatch (λ _, Some "down") 1; ODispatch (λ _, None) 1].

Lemma sample_fresh : NoDup (fresh_ids sample_ops).
Proof. apply (bool_decide_unpack _). vm_compute. exact I. Qed.

Lemma outbox_at_most_once_witness :
  (outbox_run (sample_ops ++ [ODispatch (λ _, None) 2; ODispatch (λ _, None) 3]) (Outbox_init 3)).1.*2
    = [false; true] ∧
  let '(log, o) := outbox_run sample_ops (Outbox_init 3) in
  NoDup (delivered log) ∧ (∀ id, Z.of_nat (calls id log) ≤ 3 + 1) ∧
  (∀ key, key ∈ delivered log ↔
     ∃ id e, get id o = Some e ∧ status e = DISPATCHED ∧ idempotency_key e = key).
Proof.
  split; [vm_compute; reflexivity|].
  apply (outbox_at_most_once 3 sample_ops); [lia|apply sample_fresh].
Defined.

Lemma outbox_drains_witness :
  ∃ e, get "out.1" (outbox_run sample_ops (Outbox_init 1)).2 = Some e ∧
  ∃ e', get "out.1" (outbox_run (dispatches [λ _, Some "down"; λ _, Some "down"] 2)
                       (outbox_run sample_ops (Outbox_init 1)).2).2 = Some e' ∧
    (status e' = DISPATCHED ∨ status e' = DEAD).
Proof.
  eexists. split; [vm_compute; reflexivity|].
  eapply (outbox_drains 1 sample_ops "out.1"); [lia|apply sample_fresh|simpl; lia|..].
  - vm_compute. reflexivity.
  - vm_compute. reflexivity.
Defined.
