(* ===== verification/LegacyOps.v ===== *)
(** * Pending operations of the previous architecture (legacy/pending_ops.py)

    The registry of requests to the outside: their lifecycle, and the history of the request
    identifiers the agents chose.  Operations live in the registry's dict.  The random
    identifier of an operation is an argument of [submit].  A chosen request identifier is a
    string, as the intents that carry one declare it. *)

From stdpp Require Import base gmap strings list.
From Stdlib Require Import ZArith.
From S2P Require Import Prelude PyValue.

Open Scope string_scope.
Open Scope Z_scope.

Inductive OpStatus := SUBMITTED | PENDING | COMPLETED | FAILED | CANCELLED | TIMED_OUT.
#[global] Instance OpStatus_eq_dec : EqDecision OpStatus.
Proof. solve_decision. Defined.
Definition status_value (s : OpStatus) : string :=
  match s with
  | SUBMITTED => "submitted" | PENDING => "pending" | COMPLETED => "completed"
  | FAILED => "failed" | CANCELLED => "cancelled" | TIMED_OUT => "timed_out"
  end.

Inductive OpType :=
| LLM_REQUEST | TOOL_REQUEST | EMAIL_DELIVERY | HUMAN_DECISION | LOCK_ACQUISITION | EXTERNAL_REQUEST.
#[global] Instance OpType_eq_dec : EqDecision OpType.
Proof. solve_decision. Defined.
Definition type_value (t : OpType) : string :=
  match t with
  | LLM_REQUEST => "llm_request" | TOOL_REQUEST => "tool_request"
  | EMAIL_DELIVERY => "email_delivery" | HUMAN_DECISION => "human_decision"
  | LOCK_ACQUISITION => "lock_acquisition" | EXTERNAL_REQUEST => "external_request"
  end.

(** The contract of a tool call (tool_protocol.py). *)
Record ToolRequest := mkToolRequest {
  q_request_id : string; q_agent_id : string; q_task_id : string; q_tool_name : string;
  tool_version : string; manifest_hash : string; input_hash : string; q_state_epoch : Z;
  workspace_version : string; q_created_tick : Z; q_deadline_tick : option Z;
  q_arguments : dict value }.

Record PendingOperation := mkOp {
  request_id : string;
  op_type : OpType;
  agent_id : string;
  task_id : string;
  activation_id : string;
  created_tick : Z;
  eligible_tick : Z;
  deadline_tick : option Z;
  status : OpStatus;
  result : dict value;
  error : string;
  retry_count : Z;
  max_retries : Z;
  state_epoch : Z;
  tool_request : option ToolRequest;
  metadata : dict value }.
Definition conclude (s : OpStatus) (r : dict value) (err : string) (m : dict value)
    (o : PendingOperation) : PendingOperation :=
  mkOp (request_id o) (op_type o) (agent_id o) (task_id o) (activation_id o) (created_tick o)
    (eligible_tick o) (deadline_tick o) s r err (retry_count o) (max_retries o) (state_epoch o)
    (tool_request o) m.
Definition set_status (s : OpStatus) (o : PendingOperation) : PendingOperation :=
  conclude s (result o) (error o) (metadata o) o.
Definition is_status (l : list OpStatus) (o : PendingOperation) : bool := bool_decide (status o ∈ l).
Definition in_flight : PendingOperation → bool := is_status [SUBMITTED; PENDING].
Definition dead : PendingOperation → bool := is_status [CANCELLED; TIMED_OUT; FAILED].

(** The record of a submission in the history. *)
Record Seen := mkSeen { s_status : string; s_type : string; s_tool : value; s_agent : string }.

Record Registry := mkRegistry {
  _operations : dict PendingOperation;
  _seen_requests : dict Seen }.
Definition Registry_init : Registry := mkRegistry [] [].
Definition set_ops (f : dict PendingOperation → dict PendingOperation) (r : Registry) : Registry :=
  mkRegistry (f (_operations r)) (_seen_requests r).

(** [metadata.get("request_id")], when it is truthy *)
Definition chosen (m : dict value) : option string :=
  match dget "request_id" m with
  | Some (VStr s) => if nonempty s then Some s else None
  | _ => None
  end.
Definition chosen_id (o : PendingOperation) : option string := chosen (metadata o).

Definition record_submitted (o : PendingOperation) (r : Registry) : Registry :=
  match chosen_id o with
  | None => r
  | Some req =>
      mkRegistry (_operations r)
        (dset req (mkSeen (status_value (status o)) (type_value (op_type o))
                     (default (VStr "") (dget "tool_name" (metadata o))) (agent_id o))
           (_seen_requests r))
  end.
Definition is_seen (agent req : string) (r : Registry) : bool :=
  match dget req (_seen_requests r) with
  | Some s => bool_decide (s_agent s = agent)
  | None => false
  end.
Definition seen_requests_snapshot (r : Registry) : dict Seen := _seen_requests r.
Definition restore_seen_requests (snapshot : dict Seen) (r : Registry) : Registry :=
  mkRegistry (_operations r) snapshot.

Definition submit (id : string) (ty : OpType) (agent : string) (created eligible : Z)
    (deadline : option Z) (task activation : string) (meta : dict value) (epoch : Z)
    (r : Registry) : PendingOperation * Registry :=
  let o := mkOp id ty agent task activation created
             (if decide (eligible = 0) then created + 1 else eligible) deadline SUBMITTED [] ""
             0 3 epoch None meta in
  (o, record_submitted o (set_ops (dset id o) r)).

Definition complete (id : string) (res : dict value) (r : Registry) :
    option PendingOperation * Registry :=
  match dget id (_operations r) with
  | None => (None, r)
  | Some o =>
      if dead o then (Some o, r) else
      let o := conclude COMPLETED res (error o) (metadata o) o in
      (Some o, set_ops (dset id o) r)
  end.

(** The contract result of an executor, with its JSON dump. *)
Record ToolResultContract := Contract { c_request_id : string; c_data : dict value; c_dump : value }.
Definition complete_tool (id : string) (c : ToolResultContract) (r : Registry) :
    option PendingOperation * Registry :=
  match dget id (_operations r) with
  | None => (None, r)
  | Some o =>
      if dead o then (Some o, r) else
      if decide (c_request_id c ≠ id) then (Some o, r) else
      let o := conclude COMPLETED (c_data c) (error o)
                 (dset "tool_result" (c_dump c) (metadata o)) o in
      (Some o, set_ops (dset id o) r)
  end.

Definition fail (id err : string) (r : Registry) : option PendingOperation * Registry :=
  match dget id (_operations r) with
  | None => (None, r)
  | Some o => let o := conclude FAILED (result o) err (metadata o) o in
              (Some o, set_ops (dset id o) r)
  end.

Definition cancel (id : string) (r : Registry) : option PendingOperation * Registry :=
  match dget id (_operations r) with
  | None => (None, r)
  | Some o => if in_flight o
              then let o := set_status CANCELLED o in (Some o, set_ops (dset id o) r)
              else (None, r)
  end.

Definition overdue (tick : Z) (o : PendingOperation) : bool :=
  in_flight o && match deadline_tick o with Some d => d <? tick | None => false end.
Definition mark_expired (tick : Z) (o : PendingOperation) : PendingOperation :=
  if overdue tick o then set_status TIMED_OUT o else o.
Definition timeout_expired (tick : Z) (r : Registry) : list PendingOperation * Registry :=
  (map (set_status TIMED_OUT) (List.filter (overdue tick) (dvalues (_operations r))),
   set_ops (map (λ kv, (kv.1, mark_expired tick kv.2))) r).

Definition collectable (tick : Z) (o : PendingOperation) : bool :=
  is_status [COMPLETED] o && (eligible_tick o <=? tick).
Definition collect_completed (tick : Z) (r : Registry) : list PendingOperation :=
  List.filter (collectable tick) (dvalues (_operations r)).

Definition by_agent (agent : string) (o : PendingOperation) : bool := bool_decide (agent_id o = agent).
Definition get_by_agent (agent : string) (st : option OpStatus) (r : Registry) : list PendingOperation :=
  let ops := List.filter (by_agent agent) (dvalues (_operations r)) in
  match st with Some s => List.filter (is_status [s]) ops | None => ops end.
Definition get_by_id (id : string) (r : Registry) : option PendingOperation := dget id (_operations r).
Definition count_in_flight (agent : string) (ty : option OpType) (r : Registry) : nat :=
  length (List.filter (λ o, by_agent agent o && in_flight o &&
                         match ty with Some t => bool_decide (op_type o = t) | None => true end)
            (dvalues (_operations r))).
Definition find_in_flight_request_id (agent req : string) (r : Registry) : option PendingOperation :=
  List.find (λ o, by_agent agent o && in_flight o &&
               match dget "request_id" (metadata o) with
               | Some v => veq_str v req
               | None => false
               end) (dvalues (_operations r)).

Definition remove (id : string) (r : Registry) : option PendingOperation * Registry :=
  (dget id (_operations r), set_ops (dpop id) r).
Definition remove_for_rollback (id : string) (r : Registry) : option PendingOperation * Registry :=
  let o := dget id (_operations r) in
  (o, mkRegistry (dpop id (_operations r))
        (match o with
         | Some o => match chosen_id o with
                     | Some req => dpop req (_seen_requests r)
                     | None => _seen_requests r
                     end
         | None => _seen_requests r
         end)).
Definition finished : PendingOperation → bool := is_status [COMPLETED; FAILED; CANCELLED; TIMED_OUT].
Definition remove_completed (r : Registry) : nat * Registry :=
  let to_remove := List.filter (λ kv, finished kv.2) (_operations r) in
  (length to_remove, fold_left (λ r kv, set_ops (dpop kv.1) r) to_remove r).

Definition pending_count (r : Registry) : nat :=
  length (List.filter in_flight (dvalues (_operations r))).
Definition completed_count (r : Registry) : nat :=
  length (List.filter (is_status [COMPLETED]) (dvalues (_operations r))).
Definition iter_ops (r : Registry) : list PendingOperation := dvalues (_operations r).
Definition summary (r : Registry) : nat * dict nat :=
  (length (_operations r),
   fold_left (λ d o, let k := status_value (status o) in dset k (S (default O (dget k d))) d)
     (dvalues (_operations r)) []).

(** ** Runs *)

Inductive call :=
| CSubmit (id : string) (ty : OpType) (agent : string) (created eligible : Z) (deadline : option Z)
    (task activation : string) (meta : dict value) (epoch : Z)
| CComplete (id : string) (res : dict value)
| CCompleteTool (id : string) (c : ToolResultContract)
| CFail (id err : string)
| CCancel (id : string)
| CTimeout (tick : Z)
| CRemove (id : string)
| CRollback (id : string)
| CRemoveCompleted.

Definition do_call (c : call) (r : Registry) : Registry :=
  match c with
  | CSubmit id ty a cr el d t ac m e => (submit id ty a cr el d t ac m e r).2
  | CComplete id res => (complete id res r).2
  | CCompleteTool id c => (complete_tool id c r).2
  | CFail id err => (fail id err r).2
  | CCancel id => (cancel id r).2
  | CTimeout t => (timeout_expired t r).2
  | CRemove id => (remove id r).2
  | CRollback id => (remove_for_rollback id r).2
  | CRemoveCompleted => (remove_completed r).2
  end.
Definition do_calls (cs : list call) (r : Registry) : Registry := fold_left (λ r c, do_call c r) cs r.
(** The operation and the agent of a call that submits under the chosen identifier [req]. *)
Definition claims (req : string) (c : call) : option (string * string) :=
  match c with
  | CSubmit id _ a _ _ _ _ _ m _ => if decide (chosen m = Some req) then Some (id, a) else None
  | _ => None
  end.
(** The identifier a call registers. *)
Definition registers (c : call) : option string :=
  match c with CSubmit id _ _ _ _ _ _ _ _ _ => Some id | _ => None end.

(** ** What the calls keep *)

Lemma do_calls_snoc cs c r : do_calls (cs ++ [c]) r = do_call c (do_calls cs r).
Proof. unfold do_calls. by rewrite fold_left_app. Qed.

(** The operations of one registry after those of another: every operation was there with the
    same key and the same chosen identifier. *)
Definition from_ops (r r' : Registry) : Prop :=
  ∀ k o', dget k (_operations r') = Some o' →
    ∃ o, dget k (_operations r) = Some o ∧ request_id o' = request_id o ∧
         chosen_id o' = chosen_id o ∧ (dead o = true → dead o' = true).

Lemma from_ops_refl r : from_ops r r.
Proof. intros k o Hk. by exists o. Qed.
Lemma from_ops_set r k o o' :
  dget k (_operations r) = Some o → request_id o' = request_id o → chosen_id o' = chosen_id o →
  (dead o = true → dead o' = true) → from_ops r (set_ops (dset k o') r).
Proof.
  intros Hk H1 H2 H3 j p. simpl. rewrite dget_dset. destruct (decide (j = k)) as [->|].
  - intros [= <-]. by exists o.
  - intros Hj. by exists p.
Qed.
Lemma from_ops_pop r k seen : from_ops r (mkRegistry (dpop k (_operations r)) seen).
Proof.
  intros j o. simpl. rewrite dget_dpop. destruct (decide (j = k)); [done|]. intros Hj. by exists o.
Qed.
Lemma from_ops_trans r1 r2 r3 : from_ops r1 r2 → from_ops r2 r3 → from_ops r1 r3.
Proof.
  intros H1 H2 k o Hk. destruct (H2 k o Hk) as (o2 & Hk2 & E1 & E2 & E3).
  destruct (H1 k o2 Hk2) as (o1 & Hk1 & F1 & F2 & F3). exists o1.
  split; [done|]. split; [congruence|]. split; [congruence|]. auto.
Qed.

Lemma dget_map {V W} (f : V → W) k (d : dict V) :
  dget k (map (λ kv, (kv.1, f kv.2)) d) = f <$> dget k d.
Proof. induction d as [|[k' v] d IH]; simpl; [done|]. by case_decide. Qed.

Lemma in_flight_alive o : in_flight o = true → dead o = false.
Proof. unfold in_flight, dead, is_status. by destruct (status o). Qed.

(** Every call but the one that registers [k]. *)
Lemma call_from c r : registers c = None → from_ops r (do_call c r).
Proof.
  intros Hc. destruct c; simpl in *; try done.
  - unfold complete. destruct (dget id _) as [o|] eqn:Ho; [|apply from_ops_refl].
    destruct (dead o) eqn:Hd; [apply from_ops_refl|]. simpl.
    apply (from_ops_set _ _ o); [done..|]. by rewrite Hd.
  - unfold complete_tool. destruct (dget id _) as [o|] eqn:Ho; [|apply from_ops_refl].
    destruct (dead o) eqn:Hd; [apply from_ops_refl|].
    destruct (decide _); [apply from_ops_refl|]. simpl.
    apply (from_ops_set _ _ o); [done..| |by rewrite Hd].
    unfold chosen_id, chosen, conclude. simpl. by rewrite dget_dset_ne.
  - unfold fail. destruct (dget id _) as [o|] eqn:Ho; [|apply from_ops_refl]. simpl.
    by apply (from_ops_set _ _ o).
  - unfold cancel. destruct (dget id _) as [o|] eqn:Ho; [|apply from_ops_refl].
    destruct (in_flight o) eqn:Hf; [|apply from_ops_refl]. simpl. by apply (from_ops_set _ _ o).
  - intros k o. simpl. rewrite dget_map. destruct (dget k _) as [p|] eqn:Hp; [|done].
    intros [= <-]. exists p. unfold mark_expired. by destruct (overdue tick p).
  - apply from_ops_pop.
  - apply from_ops_pop.
  - unfold remove_completed. simpl. generalize (List.filter (λ kv, finished kv.2) (_operations r)).
    intros l. revert r. induction l as [|kv l IH]; intros r; [apply from_ops_refl|]. simpl.
    eapply from_ops_trans; [|apply IH]. apply from_ops_pop.
Qed.

Lemma record_ops o r : _operations (record_submitted o r) = _operations r.
Proof. unfold record_submitted. by destruct (chosen_id o). Qed.
Lemma submit_ops id ty a cr el d t ac m e r :
  ∃ o, _operations (do_call (CSubmit id ty a cr el d t ac m e) r) = dset id o (_operations r) ∧
       request_id o = id ∧ chosen_id o = chosen m.
Proof. eexists. split; [simpl; by rewrite record_ops|done]. Qed.

(** Operations are found under their own identifier. *)
Definition well_keyed (r : Registry) : Prop := ∀ k o, dget k (_operations r) = Some o → request_id o = k.
Lemma call_well_keyed c r : well_keyed r → well_keyed (do_call c r).
Proof.
  intros Hw. destruct (registers c) as [id|] eqn:Hc.
  - destruct c; try done.
    destruct (submit_ops id0 ty agent created eligible deadline task activation meta epoch r)
      as (o & H1 & H2 & _).
    intros k p. rewrite H1, dget_dset. destruct (decide (k = id0)) as [->|]; [by intros [= <-]|apply Hw].
  - intros k o Hk. destruct (call_from c r Hc k o Hk) as (p & Hp & E & _). rewrite E. by apply Hw.
Qed.

Lemma in_dvalues {V} (v : V) (d : dict V) : NoDup (dkeys d) → v ∈ dvalues d → ∃ k, dget k d = Some v.
Proof.
  intros Hn ([k w] & -> & Hin)%list_elem_of_fmap. exists k. by apply elem_dget.
Qed.

Lemma call_nodup c r : NoDup (dkeys (_operations r)) → NoDup (dkeys (_operations (do_call c r))).
Proof.
  intros Hn. destruct c; simpl.
  - rewrite record_ops. by apply dkeys_dset_NoDup.
  - unfold complete. destruct (dget _ _); [|done]. destruct (dead _); [done|]. by apply dkeys_dset_NoDup.
  - unfold complete_tool. destruct (dget _ _); [|done]. destruct (dead _); [done|].
    destruct (decide _); [done|]. by apply dkeys_dset_NoDup.
  - unfold fail. destruct (dget _ _); [|done]. by apply dkeys_dset_NoDup.
  - unfold cancel. destruct (dget _ _); [|done]. destruct (in_flight _); [|done]. by apply dkeys_dset_NoDup.
  - unfold dkeys in *. by rewrite map_map.
  - by apply dkeys_dpop_NoDup.
  - by apply dkeys_dpop_NoDup.
  - generalize (List.filter (λ kv, finished kv.2) (_operations r)). intros l. revert r Hn.
    induction l as [|kv l IH]; intros r Hn; [done|]. simpl. apply IH. by apply dkeys_dpop_NoDup.
Qed.

Lemma reachable_wf cs : well_keyed (do_calls cs Registry_init) ∧
  NoDup (dkeys (_operations (do_calls cs Registry_init))).
Proof.
  induction cs as [|c cs [H1 H2]] using rev_ind; [by split; [|constructor]|].
  rewrite do_calls_snoc. split; [by apply call_well_keyed|by apply call_nodup].
Qed.

(** An operation that is gone, or dead. *)
Definition buried (id : string) (r : Registry) : Prop :=
  match dget id (_operations r) with Some o => dead o = true | None => True end.
Lemma call_buried id c r : registers c ≠ Some id → buried id r → buried id (do_call c r).
Proof.
  unfold buried. intros Hc Hb. destruct (dget id (_operations (do_call c r))) as [o'|] eqn:E; [|done].
  destruct (registers c) as [k|] eqn:Hr.
  - destruct c; try done. injection Hr as ->.
    destruct (submit_ops k ty agent created eligible deadline task activation meta epoch r)
      as (o & H & _). rewrite H, dget_dset_ne in E by (simpl in Hc; congruence). by rewrite E in Hb.
  - destruct (call_from c r Hr id o' E) as (o & Ho & _ & _ & Hd). rewrite Ho in Hb. auto.
Qed.

(** ** Chosen identifiers *)

(** The operations that carry [req] were submitted by calls of [hist]. *)
Definition carried (req : string) (hist : list call) (r : Registry) : Prop :=
  ∀ k o, dget k (_operations r) = Some o → chosen_id o = Some req →
    ∃ c a, c ∈ hist ∧ claims req c = Some (k, a).

Lemma call_carried req hist c r : carried req hist r → carried req (hist ++ [c]) (do_call c r).
Proof.
  intros Hc. destruct (registers c) as [id|] eqn:Hr.
  - destruct c; try done. injection Hr as ->.
    destruct (submit_ops id ty agent created eligible deadline task activation meta epoch r)
      as (o & H1 & H2 & H3).
    intros k p. rewrite H1, dget_dset. destruct (decide (k = id)) as [->|].
    + intros [= <-] Ho. eexists. exists agent. split; [apply elem_of_app; right; by apply list_elem_of_singleton|].
      simpl. rewrite decide_True by congruence. done.
    + intros Hk Ho. destruct (Hc k p Hk Ho) as (c & a & Hin & Hcl). exists c, a. set_solver.
  - intros k p Hk Ho. destruct (call_from c r Hr k p Hk) as (o & Hk' & _ & E & _).
    destruct (Hc k o Hk') as (c' & a & Hin & Hcl); [congruence|]. exists c', a. set_solver.
Qed.

Lemma call_seen agent req hist c r :
  carried req hist r → is_seen agent req r = true →
  (∀ id a, claims req c = Some (id, a) → a = agent) →
  (∀ id, c = CRollback id → ∀ c' a, c' ∈ hist → claims req c' ≠ Some (id, a)) →
  is_seen agent req (do_call c r) = true.
Proof.
  intros Hc Hs Hcl Hrb. destruct c; try done.
  - simpl in Hcl. unfold is_seen, do_call, submit, record_submitted, chosen_id. simpl.
    destruct (chosen meta) as [q|]; [|done]. simpl. rewrite dget_dset.
    destruct (decide (req = q)) as [->|]; [|done]. simpl.
    rewrite decide_True in Hcl by done. by rewrite (Hcl id agent0 eq_refl), bool_decide_eq_true_2.
  - simpl. unfold complete. destruct (dget _ _); [|done]. by destruct (dead _).
  - simpl. unfold complete_tool. destruct (dget _ _); [|done]. destruct (dead _); [done|].
    by destruct (decide _).
  - simpl. unfold fail. by destruct (dget _ _).
  - simpl. unfold cancel. destruct (dget _ _); [|done]. by destruct (in_flight _).
  - unfold is_seen in *. simpl. destruct (dget id (_operations r)) as [o|] eqn:Ho; [|done].
    destruct (chosen_id o) as [q|] eqn:Hq; [|done].
    rewrite dget_dpop_ne; [done|]. intros <-.
    destruct (Hc id o Ho Hq) as (c' & a & Hin & H). by apply (Hrb id eq_refl c' a).
  - unfold is_seen in *. simpl. generalize (List.filter (λ kv, finished kv.2) (_operations r)).
    intros l. clear -Hs. revert r Hs. induction l as [|kv l IH]; intros r Hs; [done|]. simpl. by apply IH.
Qed.

(** ** Theorems *)

(** An operation that was cancelled, timed out or failed stays so: whatever calls follow,
    late results among them, what is collected is never this operation. *)
Theorem dead_never_collected cs0 cs id o tick p :
  let r := do_calls cs0 Registry_init in
  get_by_id id r = Some o → dead o = true → Forall (λ c, registers c ≠ Some id) cs →
  p ∈ collect_completed tick (do_calls cs r) → request_id p ≠ id.
Proof.
  intros r Ho Hd Hcs Hp.
  assert (buried id (do_calls cs r)) as Hb.
  { clear Hp. induction cs as [|c cs IH] using rev_ind.
    - unfold buried. change (dget id (_operations (do_calls [] r))) with (get_by_id id r). by rewrite Ho.
    - apply Forall_app in Hcs as [Hcs Hc]. rewrite do_calls_snoc. apply call_buried; [|by apply IH].
      by apply Forall_inv in Hc. }
  assert (do_calls cs r = do_calls (cs0 ++ cs) Registry_init) as Hr.
  { unfold r, do_calls. by rewrite fold_left_app. }
  destruct (reachable_wf (cs0 ++ cs)) as [Hw Hn]. rewrite <- Hr in Hw, Hn.
  unfold collect_completed in Hp. apply elem_of_bfilter in Hp as [Hp Hc].
  apply in_dvalues in Hp as [k Hk]; [|done]. intros He.
  rewrite (Hw k p Hk) in He. subst k. unfold buried in Hb. rewrite Hk in Hb.
  unfold collectable, dead, is_status in *. by destruct (status p).
Qed.

(** The identifier an agent chose for a request stays in the history, also when the
    operation is consumed, so that a replay is recognised, until the operation is rolled back
    or another agent submits under the same identifier. *)
Theorem replay_recognised cs0 cs id ty agent created eligible deadline task act meta epoch req :
  chosen meta = Some req →
  let c0 := CSubmit id ty agent created eligible deadline task act meta epoch in
  let hist := (cs0 ++ [c0] ++ cs)%list in
  (∀ c i a, c ∈ cs → claims req c = Some (i, a) → a = agent) →
  (∀ i, CRollback i ∈ cs → ∀ c a, c ∈ hist → claims req c ≠ Some (i, a)) →
  is_seen agent req (do_calls hist Registry_init) = true.
Proof.
  intros Hm c0 hist Hcl Hrb. unfold hist. rewrite app_assoc.
  assert (Hcarried : ∀ l, carried req l (do_calls l Registry_init)).
  { intros l. induction l as [|c l IH] using rev_ind; [by intros k o|].
    rewrite do_calls_snoc. by apply call_carried. }
  assert (∀ l, (∃ l', cs = (l ++ l')%list) →
            is_seen agent req (do_calls ((cs0 ++ [c0]) ++ l) Registry_init) = true) as H.
  2: { apply H. exists []. by rewrite app_nil_r. }
  induction l as [|c l IH] using rev_ind; intros [l' Hl].
  - rewrite app_nil_r, do_calls_snoc. unfold is_seen, c0. simpl. unfold record_submitted, chosen_id.
    simpl. rewrite Hm. simpl. rewrite dget_dset_eq. simpl. by apply bool_decide_eq_true.
  - rewrite app_assoc, do_calls_snoc. eapply call_seen; [apply Hcarried|..].
    + apply IH. exists (c :: l'). by rewrite Hl, <- app_assoc.
    + intros i a. apply Hcl. rewrite Hl. set_solver.
    + intros i -> c' a Hin. apply Hrb; [rewrite Hl; set_solver|].
      unfold hist. rewrite Hl. set_solver.
Qed.

(** A sweep for timeouts reports and ends exactly the operations in flight past their
    deadline, and leaves none. *)
Theorem timeout_sweep tick r :
  let '(expired, r') := timeout_expired tick r in
  expired = map (set_status TIMED_OUT) (List.filter (overdue tick) (iter_ops r)) ∧
  (∀ id, get_by_id id r' = (λ o, if overdue tick o then set_status TIMED_OUT o else o) <$> get_by_id id r) ∧
  Forall (λ o, overdue tick o = false) (iter_ops r').
Proof.
  split; [done|]. split; [intros id; apply dget_map|]. unfold iter_ops, dvalues. simpl.
  apply Forall_forall. intros o. rewrite map_map. intros ([k p] & -> & _)%list_elem_of_fmap.
  simpl. unfold mark_expired. by destruct (overdue tick p) eqn:E.
Qed.

(** A failure overrides every other end, also a cancellation. *)
Lemma fail_overrides :
  ∀ s, ∃ r o, get_by_id "op.1" r = Some o ∧ status o = s ∧
    status <$> (fail "op.1" "late" r).1 = Some FAILED.
Proof.
  intros s. set (o := (submit "op.1" LLM_REQUEST "a" 0 0 None "" "" [] 0 Registry_init).1).
  exists (mkRegistry [("op.1", set_status s o)] []), (set_status s o). done.
Qed.

(** The history is keyed by the identifier alone: another agent's submission under the same
    identifier makes the first agent's replay unknown. *)
Lemma seen_request_stolen :
  let sub id agent := CSubmit id TOOL_REQUEST agent 0 0 None "" "" [("request_id", VStr "r")] 0 in
  is_seen "a" "r" (do_calls [sub "op.1" "a"] Registry_init) = true ∧
  is_seen "a" "r" (do_calls [sub "op.1" "a"; sub "op.2" "b"] Registry_init) = false.
Proof. done. Qed.

(** ** Witnesses *)

Definition sample_submit (id agent req : string) : call :=
  CSubmit id TOOL_REQUEST agent 0 0 (Some 3) "" "" [("request_id", VStr req)] 0.

Lemma dead_never_collected_witness :
  ∃ o, get_by_id "op.1" (do_calls [sample_submit "op.1" "a" "r"; CCancel "op.1"] Registry_init) = Some o ∧
    dead o = true ∧
    ∀ p, p ∈ collect_completed 5 (do_calls [CComplete "op.1" []]
               (do_calls [sample_submit "op.1" "a" "r"; CCancel "op.1"] Registry_init)) →
      request_id p ≠ "op.1".
Proof.
  eexists. split; [reflexivity|]. split; [reflexivity|]. intros p.
  eapply (dead_never_collected [sample_submit "op.1" "a" "r"; CCancel "op.1"] [CComplete "op.1" []]).
  - reflexivity.
  - reflexivity.
  - by repeat constructor.
Defined.

Lemma replay_recognised_witness :
  is_seen "a" "r" (do_calls [sample_submit "op.1" "a" "r"; CComplete "op.1" []; CRemove "op.1"]
                     Registry_init) = true.
Proof.
  apply (replay_recognised [] [CComplete "op.1" []; CRemove "op.1"] "op.1" TOOL_REQUEST "a" 0 0
           (Some 3) "" "" [("request_id", VStr "r")] 0 "r").
  - reflexivity.
  - intros c i a [->|[->|[]%not_elem_of_nil]%elem_of_cons]%elem_of_cons; done.
  - intros i [|[|[]%not_elem_of_nil]%elem_of_cons]%elem_of_cons; done.
Defined.
