(* ===== verification/LegacyBudget.v ===== *)
(** * LLM budgets of the previous architecture (legacy/budget.py)

    Prices, accumulated usage per agent, task and simulation, and the admission check.  Costs
    and times are floats in the code; here they are the rationals they denote, without
    rounding, so sums are compared up to the equality of rationals ([≡]).  Saving and loading
    go through the validation library and are not modelled. *)

From stdpp Require Import base strings list.
From Stdlib Require Import ZArith QArith Lqa.
From S2P Require Import Prelude PyValue.

Open Scope string_scope.
Open Scope Z_scope.

(** ** Prices and estimates *)

Abbreviation price := (Q * Q)%type.

(** US dollars per million tokens, input and output *)
Definition DEFAULT_PRICING_PER_1M : dict price :=
  [("gpt-4o", (5#2, 10#1)); ("gpt-4o-mini", (3#20, 3#5)); ("gpt-4-turbo", (10#1, 30#1));
   ("gpt-4", (30#1, 60#1)); ("gpt-3.5-turbo", (1#2, 3#2));
   ("claude-opus-4", (15#1, 75#1)); ("claude-sonnet-4", (3#1, 15#1));
   ("claude-3-5-sonnet", (3#1, 15#1)); ("claude-3-opus", (15#1, 75#1));
   ("claude-3-haiku", (1#4, 5#4));
   ("gemini-2.0-flash", (1#10, 2#5)); ("gemini-1.5-pro", (5#4, 5#1));
   ("gemini-1.5-flash", (3#40, 3#10)); ("ollama", (0#1, 0#1))]%Q.
Definition DEFAULT_PRICE_PER_1M : price := (1#1, 2#1)%Q.

Definition price_of (model : string) (pricing : option (dict price)) : price :=
  let table := fold_left (λ d kv, dset kv.1 kv.2 d) (default [] pricing) DEFAULT_PRICING_PER_1M in
  default DEFAULT_PRICE_PER_1M (dget model table).
Definition estimate_cost (model : string) (input output : Z) (pricing : option (dict price)) : Q :=
  let p := price_of model pricing in
  ((inject_Z (Z.max 0 input) * p.1 + inject_Z (Z.max 0 output) * p.2) / 1000000)%Q.

(** A message: a dict, or an object with its [content] attribute if it has one. *)
Inductive message := MDict (d : dict value) | MObject (content : option value).
Definition py_str (v : value) : string := match v with VStr s => s | _ => repr v end.
Definition message_content (m : message) : value :=
  match m with
  | MDict d => default (VStr "") (dget "content" d)
  | MObject c => match c with Some v => if truthy v then v else VStr "" | None => VStr "" end
  end.
Definition estimate_input_tokens (ms : list message) : Z :=
  Z.div (fold_right (λ m n, Z.of_nat (length (utf8_chars (py_str (message_content m)))) + n) 0 ms) 4.

(** ** Usage *)

Record BudgetUsage := mkUsage {
  request_count : Z; input_tokens : Z; output_tokens : Z; cost : Q; wall_time_seconds : Q }.
Definition no_usage : BudgetUsage := mkUsage 0 0 0 0%Q 0%Q.
Definition total_tokens (u : BudgetUsage) : Z := input_tokens u + output_tokens u.
Definition add (u v : BudgetUsage) : BudgetUsage :=
  mkUsage (request_count u + request_count v) (input_tokens u + input_tokens v)
    (output_tokens u + output_tokens v) (cost u + cost v)%Q
    (wall_time_seconds u + wall_time_seconds v)%Q.

(** [max(0.0, q)] *)
Definition Qmax0 (q : Q) : Q := if Qle_bool q 0 then 0%Q else q.

Definition estimate_llm_usage (model : string) (ms : list message) (max_tokens timeout_ticks : Z)
    (tick_duration : Q) (pricing : option (dict price)) : BudgetUsage :=
  let input := estimate_input_tokens ms in
  let output := Z.max 0 max_tokens in
  mkUsage 1 input output (estimate_cost model input output pricing)
    (Qmax0 (inject_Z timeout_ticks) * Qmax0 tick_duration)%Q.

(** ** Limits *)

Record BudgetLimits := Limits {
  l_requests : Z; l_tokens : Z; l_cost : Q; l_wall : Q; concurrency : Z }.
Record BudgetConfig := Config {
  c_pricing : option (dict price);
  c_agent : BudgetLimits;
  c_task : BudgetLimits;
  c_simulation : BudgetLimits }.
Definition BudgetConfig_init : BudgetConfig :=
  Config None (Limits 1000 10000000 (100#1)%Q (86400#1)%Q 0)
    (Limits 5000 50000000 (500#1)%Q (604800#1)%Q 0)
    (Limits 100000 1000000000 (10000#1)%Q (2592000#1)%Q 0).

Record InFlightCounts := Counts { n_agent : Z; n_task : Z; n_simulation : Z }.
Record BudgetCheckResult := Exceeded {
  scope : string; dimension : string; current : Q; limit : Q; estimate : Q }.

(** ** The tracker *)

Record BudgetTracker := mkTracker {
  _config : BudgetConfig;
  _agent_usage : dict BudgetUsage;
  _task_usage : dict BudgetUsage;
  _simulation_usage : BudgetUsage }.
Definition BudgetTracker_init (c : BudgetConfig) : BudgetTracker := mkTracker c [] [] no_usage.
Definition agent_usage (a : string) (t : BudgetTracker) : BudgetUsage :=
  default no_usage (dget a (_agent_usage t)).
Definition task_usage (a : string) (t : BudgetTracker) : BudgetUsage :=
  default no_usage (dget a (_task_usage t)).

(** The arguments of [record_llm] that say what a completed invocation used. *)
Record invocation := Invocation {
  i_model : string; i_input : Z; i_output : Z; i_cost : option Q; i_wall : Q;
  i_pricing : option (dict price) }.
Definition usage_of (c : BudgetConfig) (i : invocation) : BudgetUsage :=
  let cost := match i_cost i with
              | Some q => q
              | None => estimate_cost (i_model i) (i_input i) (i_output i)
                          (match i_pricing i with Some p => Some p | None => c_pricing c end)
              end in
  mkUsage 1 (Z.max 0 (i_input i)) (Z.max 0 (i_output i)) (Qmax0 cost) (Qmax0 (i_wall i)).

Definition charge (who : string) (u : BudgetUsage) (d : dict BudgetUsage) : dict BudgetUsage :=
  dset who (add (default no_usage (dget who d)) u) d.
Definition record_llm (agent task : string) (i : invocation) (t : BudgetTracker) :
    BudgetUsage * BudgetTracker :=
  let u := usage_of (_config t) i in
  (u, mkTracker (_config t) (charge agent u (_agent_usage t))
        (if nonempty task then charge task u (_task_usage t) else _task_usage t)
        (add (_simulation_usage t) u)).

Definition Qlt_bool (a b : Q) : bool := negb (Qle_bool b a).

Definition _check_scope (name : string) (u : BudgetUsage) (l : BudgetLimits) (e : BudgetUsage) :
    option BudgetCheckResult :=
  if Qlt_bool 0 (l_cost l) && Qlt_bool (l_cost l) (cost u + cost e)
  then Some (Exceeded name "cost" (cost u) (l_cost l) (cost e)) else
  if (0 <? l_tokens l) && (l_tokens l <? total_tokens u + total_tokens e)
  then Some (Exceeded name "total_tokens" (inject_Z (total_tokens u)) (inject_Z (l_tokens l))
               (inject_Z (total_tokens e))) else
  if (0 <? l_requests l) && (l_requests l <? request_count u + request_count e)
  then Some (Exceeded name "request_count" (inject_Z (request_count u)) (inject_Z (l_requests l))
               (inject_Z (request_count e))) else
  if Qlt_bool 0 (l_wall l) && Qlt_bool (l_wall l) (wall_time_seconds u + wall_time_seconds e)
  then Some (Exceeded name "wall_time" (wall_time_seconds u) (l_wall l) (wall_time_seconds e))
  else None.

Definition too_many (name : string) (in_flight plan cap : Z) : BudgetCheckResult :=
  Exceeded name "concurrency" (inject_Z in_flight) (inject_Z cap) (inject_Z plan).

Definition orelse {A} (m n : option A) : option A := match m with Some x => Some x | None => n end.

(** [legacy] is the caller's own cap; [None] admits the round. *)
Definition check (agent task : string) (e : BudgetUsage) (n : InFlightCounts) (legacy : option Z)
    (limits : option BudgetConfig) (t : BudgetTracker) : option BudgetCheckResult :=
  let limits := default (_config t) limits in
  let cap := match legacy with
             | Some z => if concurrency (c_agent limits) =? 0 then z else concurrency (c_agent limits)
             | None => concurrency (c_agent limits)
             end in
  let plan := Z.max 0 (request_count e) in
  let gate := (0 <? cap) || match legacy with Some _ => cap =? 0 | None => false end in
  if gate && (cap <? n_agent n + plan) then Some (too_many "agent" (n_agent n) plan cap) else
  orelse (_check_scope "agent" (agent_usage agent t) (c_agent limits) e) (
  orelse (if nonempty task then
            let l := c_task limits in
            if (0 <? concurrency l) && (concurrency l <? n_task n + plan)
            then Some (too_many "task" (n_task n) plan (concurrency l))
            else _check_scope "task" (task_usage task t) l e
          else None) (
  let l := c_simulation limits in
  if (0 <? concurrency l) && (concurrency l <? n_simulation n + plan)
  then Some (too_many "simulation" (n_simulation n) plan (concurrency l))
  else _check_scope "simulation" (_simulation_usage t) l e)).

(** [record_llm] for each invocation of a round *)
Definition record_all (agent task : string) (l : list invocation) (t : BudgetTracker) : BudgetTracker :=
  fold_left (λ t i, (record_llm agent task i t).2) l t.

(** ** Usage up to the equality of rationals *)

#[global] Instance usage_equiv : Equiv BudgetUsage := λ u v,
  request_count u = request_count v ∧ input_tokens u = input_tokens v ∧
  output_tokens u = output_tokens v ∧ (cost u == cost v)%Q ∧
  (wall_time_seconds u == wall_time_seconds v)%Q.
#[global] Instance usage_equivalence : Equivalence (≡@{BudgetUsage}).
Proof.
  split.
  - intros u. by repeat split.
  - intros u v (? & ? & ? & ? & ?). repeat split; try done; by symmetry.
  - intros u v w (? & ? & ? & ? & ?) (? & ? & ? & ? & ?).
    repeat split; first [congruence | by etransitivity].
Qed.
#[global] Instance add_proper : Proper ((≡) ==> (≡) ==> (≡)) add.
Proof.
  intros u u' (E1 & E2 & E3 & E4 & E5) v v' (F1 & F2 & F3 & F4 & F5).
  repeat split; simpl; [congruence..| |]; by rewrite ?E4, ?F4, ?E5, ?F5.
Qed.
Lemma add_comm u v : add u v ≡ add v u.
Proof. repeat split; simpl; first [lia|ring]. Qed.
Lemma add_assoc u v w : add u (add v w) ≡ add (add u v) w.
Proof. repeat split; simpl; first [lia|ring]. Qed.
Lemma add_none_l u : add no_usage u ≡ u.
Proof. repeat split; simpl; first [lia|ring]. Qed.
Lemma add_none_r u : add u no_usage ≡ u.
Proof. repeat split; simpl; first [lia|ring]. Qed.

Definition total (l : list BudgetUsage) : BudgetUsage := fold_right add no_usage l.

(** ** Recording *)

Lemma charge_get who a u d :
  default no_usage (dget a (charge who u d)) =
    if decide (a = who) then add (default no_usage (dget who d)) u else default no_usage (dget a d).
Proof. unfold charge. rewrite dget_dset. by case_decide. Qed.

Lemma charge_total who u d : total (dvalues (charge who u d)) ≡ add (total (dvalues d)) u.
Proof.
  unfold charge. induction d as [|[k v] d IH].
  - simpl. by rewrite add_none_r.
  - simpl. destruct (decide (who = k)) as [->|]; simpl.
    + rewrite <- !add_assoc. by rewrite (add_comm u).
    + rewrite IH. by rewrite add_assoc.
Qed.

Definition used (c : BudgetConfig) (l : list invocation) : BudgetUsage := total (map (usage_of c) l).

Lemma record_all_spec agent task l t :
  let t' := record_all agent task l t in
  let u := used (_config t) l in
  _config t' = _config t ∧
  agent_usage agent t' ≡ add (agent_usage agent t) u ∧
  (task ≠ "" → task_usage task t' ≡ add (task_usage task t) u) ∧
  _simulation_usage t' ≡ add (_simulation_usage t) u.
Proof.
  revert t. induction l as [|i l IH]; intros t; simpl.
  { split; [done|]. unfold used. simpl. by rewrite !add_none_r. }
  destruct (IH (record_llm agent task i t).2) as (H1 & H2 & H3 & H4).
  unfold record_all in *. simpl in *. split; [done|].
  unfold used in *. simpl. split; [|split].
  - rewrite H2. unfold agent_usage. simpl. rewrite charge_get, decide_True by done.
    by rewrite add_assoc.
  - intros Ht. rewrite (H3 Ht). unfold task_usage. simpl. unfold nonempty.
    rewrite bool_decide_eq_false_2 by done. simpl. rewrite charge_get, decide_True by done.
    by rewrite add_assoc.
  - rewrite H4. by rewrite add_assoc.
Qed.

(** ** Caps *)

Definition within (u v : BudgetUsage) : Prop :=
  request_count u ≤ request_count v ∧ total_tokens u ≤ total_tokens v ∧
  (cost u <= cost v)%Q ∧ (wall_time_seconds u <= wall_time_seconds v)%Q.
(** A cap of 0 is no cap. *)
Definition fits (l : BudgetLimits) (u : BudgetUsage) : Prop :=
  (0 < l_requests l → request_count u ≤ l_requests l) ∧
  (0 < l_tokens l → total_tokens u ≤ l_tokens l) ∧
  ((0 < l_cost l)%Q → (cost u <= l_cost l)%Q) ∧
  ((0 < l_wall l)%Q → (wall_time_seconds u <= l_wall l)%Q).

#[global] Instance fits_proper l : Proper ((≡) ==> iff) (fits l).
Proof.
  intros u v (E1 & E2 & E3 & E4 & E5). unfold fits, total_tokens.
  rewrite E1, E2, E3. by setoid_rewrite E4; setoid_rewrite E5.
Qed.

Lemma Qlt_bool_false a b : Qlt_bool a b = false ↔ (b <= a)%Q.
Proof. unfold Qlt_bool. rewrite negb_false_iff. apply Qle_bool_iff. Qed.

Lemma check_scope_fits name u l e v :
  _check_scope name u l e = None → within v e → fits l (add u v).
Proof.
  unfold _check_scope. intros H (V1 & V2 & V3 & V4).
  destruct (Qlt_bool 0 (l_cost l) && _) eqn:C1; [done|].
  destruct ((0 <? l_tokens l) && _) eqn:C2; [done|].
  destruct ((0 <? l_requests l) && _) eqn:C3; [done|].
  destruct (Qlt_bool 0 (l_wall l) && _) eqn:C4; [done|].
  apply andb_false_iff in C1, C2, C3, C4. rewrite !Qlt_bool_false in C1, C4.
  unfold fits, total_tokens in *. simpl.
  split; [lia|]. split; [lia|]. split; intros Hpos; lra.
Qed.

Lemma orelse_none {A} (m n : option A) : orelse m n = None ↔ m = None ∧ n = None.
Proof. destruct m; simpl; [split; [done|by intros []]|by split; [|intros []]]. Qed.

(** What an admission promises, scope by scope. *)
Lemma check_admits agent task e n legacy limits t :
  check agent task e n legacy limits t = None →
  let c := default (_config t) limits in
  _check_scope "agent" (agent_usage agent t) (c_agent c) e = None ∧
  (task ≠ "" → _check_scope "task" (task_usage task t) (c_task c) e = None) ∧
  _check_scope "simulation" (_simulation_usage t) (c_simulation c) e = None ∧
  (0 < concurrency (c_agent c) → n_agent n + Z.max 0 (request_count e) ≤ concurrency (c_agent c)).
Proof.
  unfold check. set (c := default (_config t) limits). intros H.
  destruct (_ && (_ <? n_agent n + _)) eqn:G; [done|]. apply orelse_none in H as [Ha H].
  apply orelse_none in H as [Ht Hs].
  split; [done|]. split; [|split].
  - intros Hne. unfold nonempty in Ht. rewrite bool_decide_eq_false_2 in Ht by done. simpl in Ht.
    by destruct (_ && _) in Ht.
  - by destruct (_ && _) in Hs.
  - intros Hpos. apply andb_false_iff in G.
    destruct legacy as [z|]; [destruct (concurrency (c_agent c) =? 0) eqn:Hz|]; lia.
Qed.

(** Price tables with prices that are not negative. *)
Definition priced (pricing : option (dict price)) : Prop :=
  ∀ model, (0 <= (price_of model pricing).1)%Q ∧ (0 <= (price_of model pricing).2)%Q.

Lemma Qmax0_nonneg q : (0 <= Qmax0 q)%Q.
Proof.
  unfold Qmax0. destruct (Qle_bool q 0) eqn:E; [lra|].
  apply not_true_iff_false in E. rewrite Qle_bool_iff in E. lra.
Qed.
Lemma Qmax0_le a b : (0 <= b)%Q → (a <= b)%Q → (Qmax0 a <= b)%Q.
Proof. unfold Qmax0. by destruct (Qle_bool a 0). Qed.

(** An invocation that stays below the tokens and the time of its estimate costs at most the
    estimate. *)
Lemma estimate_covers c ms max_tokens ticks d i :
  priced (c_pricing c) → i_cost i = None → i_pricing i = None →
  i_input i ≤ estimate_input_tokens ms → i_output i ≤ max_tokens → 0 ≤ max_tokens →
  (i_wall i <= Qmax0 (inject_Z ticks) * Qmax0 d)%Q →
  within (usage_of c i) (estimate_llm_usage (i_model i) ms max_tokens ticks d (c_pricing c)).
Proof.
  intros Hp Hc Hpr Hi Ho Hm Hw. destruct (Hp (i_model i)) as [P1 P2].
  assert (0 ≤ estimate_input_tokens ms) as Hpos.
  { clear. unfold estimate_input_tokens. apply Z.div_pos; [|lia].
    induction ms as [|m ms IH]; simpl; lia. }
  unfold usage_of, estimate_llm_usage, within, total_tokens. rewrite Hc, Hpr. simpl.
  split; [lia|]. split; [lia|]. split.
  - unfold estimate_cost.
    assert (∀ x y, 0 ≤ x → x ≤ y → (0 <= inject_Z x <= inject_Z y)%Q) as Hz.
    { intros x y Hx Hy. split; [change 0%Q with (inject_Z 0)|]; by rewrite <- Zle_Qle. }
    destruct (Hz (Z.max 0 (i_input i)) (Z.max 0 (estimate_input_tokens ms))) as [A1 A2]; [lia..|].
    destruct (Hz (Z.max 0 (i_output i)) (Z.max 0 (Z.max 0 max_tokens))) as [B1 B2]; [lia..|].
    revert P1 P2 A1 A2 B1 B2. generalize (price_of (i_model i) (c_pricing c)). intros [p q]. simpl.
    generalize (inject_Z (Z.max 0 (i_input i))) (inject_Z (Z.max 0 (estimate_input_tokens ms)))
      (inject_Z (Z.max 0 (i_output i))) (inject_Z (Z.max 0 (Z.max 0 max_tokens))).
    intros x x' y y' P1 P2 A1 A2 B1 B2.
    assert (x * p <= x' * p)%Q by (by apply Qmult_le_compat_r).
    assert (y * q <= y' * q)%Q by (by apply Qmult_le_compat_r).
    assert (0 <= x * p)%Q by (by apply Qmult_le_0_compat).
    assert (0 <= y * q)%Q by (by apply Qmult_le_0_compat).
    unfold Qdiv. apply Qmax0_le.
    + apply Qmult_le_0_compat; [lra|]. by vm_compute.
    + apply Qmult_le_compat_r; [lra|]. by vm_compute.
  - apply Qmax0_le; [|done]. apply Qmult_le_0_compat; apply Qmax0_nonneg.
Qed.

(** ** Theorems *)

(** When the check admits a round, recording invocations that together stay within its
    estimate leaves every capped dimension of the agent, of the task and of the simulation
    within its cap, and the round keeps the agent's own cap on concurrent requests. *)
Theorem admission_keeps_caps agent task e n legacy limits t l :
  check agent task e n legacy limits t = None → within (used (_config t) l) e →
  let c := default (_config t) limits in
  let t' := record_all agent task l t in
  fits (c_agent c) (agent_usage agent t') ∧
  (task ≠ "" → fits (c_task c) (task_usage task t')) ∧
  fits (c_simulation c) (_simulation_usage t') ∧
  (0 < concurrency (c_agent c) → n_agent n + Z.max 0 (request_count e) ≤ concurrency (c_agent c)).
Proof.
  intros H Hw c t'. destruct (check_admits _ _ _ _ _ _ _ H) as (Ha & Ht & Hs & Hc).
  destruct (record_all_spec agent task l t) as (_ & Ra & Rt & Rs). fold t' in Ra, Rt, Rs.
  split; [|split; [|split; [|done]]].
  - rewrite Ra. by eapply check_scope_fits.
  - intros Hne. rewrite (Rt Hne). eapply check_scope_fits; [by apply Ht|done].
  - rewrite Rs. by eapply check_scope_fits.
Qed.

(** The accounts agree: whatever is recorded, the usage of the simulation is the sum of
    the usages of the agents. *)
Theorem accounts_agree c (calls : list (string * string * invocation)) :
  let t := fold_left (λ t x, (record_llm x.1.1 x.1.2 x.2 t).2) calls (BudgetTracker_init c) in
  _simulation_usage t ≡ total (dvalues (_agent_usage t)).
Proof.
  induction calls as [|x calls IH] using rev_ind; [done|].
  rewrite fold_left_app. simpl in *. by rewrite charge_total, IH.
Qed.

(** ** Witness *)

Definition sample_limits : BudgetConfig :=
  Config None (Limits 2 100 1 10 1) (Limits 0 0 0 0 0) (Limits 5 0 0 0 0).
Definition sample_invocation : invocation := Invocation "gpt-4" 10 20 None 1 None.

Lemma admission_keeps_caps_witness :
  check "a" "" (mkUsage 1 10 20 1 1) (Counts 0 0 0) None None (BudgetTracker_init sample_limits) = None ∧
  fits (c_agent sample_limits)
    (agent_usage "a" (record_all "a" "" [sample_invocation] (BudgetTracker_init sample_limits))).
Proof.
  split; [vm_compute; reflexivity|].
  eapply (admission_keeps_caps "a" "" (mkUsage 1 10 20 1 1) (Counts 0 0 0) None None
            (BudgetTracker_init sample_limits) [sample_invocation]).
  - vm_compute. reflexivity.
  - repeat split; vm_compute; discriminate.
Defined.
