(* ===== verification/LegacyScheduler.v ===== *)
(** * The scheduler of the previous architecture (legacy/scheduler.py, models/activation.py)

    Wake events, wake conditions, the ready set of a tick and its activations.  Events are
    objects of the scheduler's list; an event's identifier is its reference, and only its
    status changes.  Deadlines are instants of one clock, so the normalisation of time zones
    is left out; [None] sorts after every deadline. *)

From stdpp Require Import base gmap strings list pretty sorting.
From Stdlib Require Import ZArith Sorted.
From S2P Require Import Prelude PyValue LegacyAgentState LegacyTransaction.

Open Scope string_scope.
Open Scope Z_scope.

(** ** Data (models/activation.py) *)

Inductive WakeEventType :=
| NEW_EMAIL | TOOL_RESULT | CHILD_TASK_CHANGE | LOCK_AVAILABLE | RETRY_TIMER | HUMAN_MESSAGE
| DEADLINE_APPROACHING | TIMER_EXPIRY | BOOTSTRAP | EXTERNAL_RESULT | SCHEDULE_TRIGGER
| HUMAN_ACTION.
#[global] Instance WakeEventType_eq_dec : EqDecision WakeEventType.
Proof. solve_decision. Defined.

Record WakeCondition := Condition {
  event_types : list WakeEventType;
  wake_at_tick : Z;
  task_ids : gset string;
  resources : gset string;
  thread_ids : gset string;
  sender_ids : gset string }.
Definition WakeCondition_init : WakeCondition := Condition [BOOTSTRAP] 0 ∅ ∅ ∅ ∅.

Record WakeupEvent := mkEvent {
  event_id : string;
  event_type : WakeEventType;
  target_agent_id : string;
  e_tick : Z;
  visible_at_tick : Z;
  source_agent_id : string;
  e_task : string;
  e_resource : string;
  thread_id : string;
  e_details : dict value }.

Inductive EventStatus := QUEUED | ELIGIBLE | CLAIMED | CONSUMED | DEFERRED | EXPIRED.
#[global] Instance EventStatus_eq_dec : EqDecision EventStatus.
Proof. solve_decision. Defined.
Record QueuedEvent := Queued { event : WakeupEvent; e_status : EventStatus }.

Record ReadyCandidate := Candidate { c_agent : string; c_events : list WakeupEvent; c_tick : Z }.
Record AgentActivation := mkActivation {
  activation_id : string;
  a_agent : string;
  a_tick : Z;
  wake_events : list WakeupEvent;
  completed : bool;
  llm_calls : Z;
  tool_calls : Z;
  llm_invocation_id : option string;
  a_error : option string }.

Record AgentScheduler := mkScheduler {
  capacity : nat;                       (** [max_active_agents_per_tick] *)
  _wake_conditions : dict WakeCondition;
  _events : list QueuedEvent;
  _activations_this_tick : dict AgentActivation;
  _activation_history : list AgentActivation;
  _activation_counter : N;
  _last_overflow : list ReadyCandidate }.
Definition AgentScheduler_init (cap : nat) : AgentScheduler := mkScheduler cap [] [] [] [] 0 [].
Definition set_events (f : list QueuedEvent → list QueuedEvent) (s : AgentScheduler) : AgentScheduler :=
  mkScheduler (capacity s) (_wake_conditions s) (f (_events s)) (_activations_this_tick s)
    (_activation_history s) (_activation_counter s) (_last_overflow s).
Definition set_overflow (l : list ReadyCandidate) (s : AgentScheduler) : AgentScheduler :=
  mkScheduler (capacity s) (_wake_conditions s) (_events s) (_activations_this_tick s)
    (_activation_history s) (_activation_counter s) l.

(** ** Conditions and events *)

Definition update_wake_condition (agent : string) (c : WakeCondition) (s : AgentScheduler) : AgentScheduler :=
  mkScheduler (capacity s) (dset agent c (_wake_conditions s)) (_events s)
    (_activations_this_tick s) (_activation_history s) (_activation_counter s) (_last_overflow s).
Definition register_agent (agent : string) (c : option WakeCondition) : AgentScheduler → AgentScheduler :=
  update_wake_condition agent (default WakeCondition_init c).
Definition get_wake_condition (agent : string) (s : AgentScheduler) : option WakeCondition :=
  dget agent (_wake_conditions s).

Definition visible_from (e : WakeupEvent) : Z :=
  if 0 <=? visible_at_tick e then visible_at_tick e else e_tick e + 1.
Definition enqueue_event (e : WakeupEvent) (s : AgentScheduler) : AgentScheduler :=
  let e := mkEvent (event_id e) (event_type e) (target_agent_id e) (e_tick e) (visible_from e)
             (source_agent_id e) (e_task e) (e_resource e) (thread_id e) (e_details e) in
  set_events (λ l, l ++ [Queued e QUEUED])%list s.

(** [set and value and value not in set], negated *)
Definition admits (allowed : gset string) (v : string) : bool :=
  bool_decide (allowed = ∅) || negb (nonempty v) || bool_decide (v ∈ allowed).
Definition _matches (c : WakeCondition) (e : WakeupEvent) (tick : Z) : bool :=
  negb (tick <? visible_from e) && negb (tick <? wake_at_tick c)
  && bool_decide (event_type e ∈ event_types c)
  && admits (task_ids c) (e_task e) && admits (resources c) (e_resource e)
  && admits (thread_ids c) (thread_id e) && admits (sender_ids c) (source_agent_id e).

(** ** The ready set *)

Definition urgency_fn : Type := string → Z * option Z.
Definition urgency_key : Type := Z * option Z * string.
Definition _urgency_key (urgency : option urgency_fn) (agent : string) : urgency_key :=
  match urgency with
  | None => (0, None, agent)
  | Some f => let '(rank, deadline) := f agent in (- rank, deadline, agent)
  end.
Definition deadline_compare (a b : option Z) : comparison :=
  match a, b with
  | None, None => Eq
  | None, Some _ => Gt
  | Some _, None => Lt
  | Some x, Some y => Z.compare x y
  end.
(** Tuples compare by their first difference. *)
Definition key_leb (a b : urgency_key) : bool :=
  match Z.compare a.1.1 b.1.1 with
  | Lt => true
  | Gt => false
  | Eq => match deadline_compare a.1.2 b.1.2 with
          | Lt => true
          | Gt => false
          | Eq => String.leb a.2 b.2
          end
  end.
Definition more_urgent (urgency : option urgency_fn) (a b : string) : bool :=
  key_leb (_urgency_key urgency a) (_urgency_key urgency b).

Definition unschedulable : list AgentState := [PAUSED; LegacyAgentState.FAILED; TERMINATED; CREATED; INITIALIZED].
(** An eligible event that wakes its target now. *)
Definition wakes (tick : Z) (states : dict AgentState) (s : AgentScheduler) (q : QueuedEvent) : bool :=
  let agent := target_agent_id (event q) in
  bool_decide (e_status q = ELIGIBLE)
  && match dget agent states with Some st => negb (bool_decide (st ∈ unschedulable)) | None => false end
  && match get_wake_condition agent s with Some c => _matches c (event q) tick | None => false end.

Definition restatus (f : QueuedEvent → EventStatus) (s : AgentScheduler) : AgentScheduler :=
  set_events (map (λ q, Queued (event q) (f q))) s.
(** [qe.event.event_id in event_ids] *)
Definition named (ids : list string) (q : QueuedEvent) : bool := bool_decide (event_id (event q) ∈ ids).

Definition requeue_events (ids : list string) : AgentScheduler → AgentScheduler :=
  restatus (λ q, if bool_decide (e_status q ∈ [CLAIMED; ELIGIBLE]) && named ids q
                 then QUEUED else e_status q).

Definition ids_of (c : ReadyCandidate) : list string := map event_id (c_events c).
Definition compute_ready_set (tick : Z) (states : dict AgentState) (urgency : option urgency_fn)
    (s : AgentScheduler) : list ReadyCandidate * AgentScheduler :=
  let s := restatus (λ q, if decide (e_status q = QUEUED) then ELIGIBLE else e_status q) s in
  let agent_events := group_by target_agent_id (map event (List.filter (wakes tick states s) (_events s))) in
  let candidates := map (λ a, Candidate a (default [] (dget a agent_events)) tick)
                      (py_sorted (more_urgent urgency) (dkeys agent_events)) in
  let overflow := drop (capacity s) candidates in
  (take (capacity s) candidates,
   fold_left (λ s c, requeue_events (ids_of c) s) overflow (set_overflow overflow s)).

(** ** Activations *)

Definition claim_events (ids : list string) (s : AgentScheduler) : list WakeupEvent * AgentScheduler :=
  let hit q := bool_decide (e_status q = ELIGIBLE) && named ids q in
  (map event (List.filter hit (_events s)), restatus (λ q, if hit q then CLAIMED else e_status q) s).
Definition defer_events (ids : list string) : AgentScheduler → AgentScheduler :=
  restatus (λ q, if bool_decide (e_status q = CLAIMED) && named ids q then ELIGIBLE else e_status q).
Definition consume_events (ids : list string) : AgentScheduler → AgentScheduler :=
  restatus (λ q, if bool_decide (e_status q = CLAIMED) && named ids q then CONSUMED else e_status q).

Inductive sched_error := AlreadyActive (agent : string) | ActivationNotFound (id : string).

Definition begin_activation (c : ReadyCandidate) (tick : Z) (s : AgentScheduler) :
    (sched_error + AgentActivation) * AgentScheduler :=
  if dmem (c_agent c) (_activations_this_tick s) then (inl (AlreadyActive (c_agent c)), s) else
  let n := N.succ (_activation_counter s) in
  let act := mkActivation ("act." +:+ pad6 n) (c_agent c) tick (c_events c) false 0 0 None None in
  let s := (claim_events (ids_of c) s).2 in
  (inr act,
   mkScheduler (capacity s) (_wake_conditions s) (_events s)
     (dset (c_agent c) act (_activations_this_tick s)) (_activation_history s) n (_last_overflow s)).

Definition complete_activation (id : string) (success : bool) (err : option string)
    (llm tool : Z) (invocation : option string) (s : AgentScheduler) :
    (sched_error + AgentActivation) * AgentScheduler :=
  match List.find (λ kv, bool_decide (activation_id kv.2 = id)) (_activations_this_tick s) with
  | None => (inl (ActivationNotFound id), s)
  | Some (k, a) =>
      let a := mkActivation (activation_id a) (a_agent a) (a_tick a) (wake_events a) success llm
                 tool invocation err in
      let ids := map event_id (wake_events a) in
      let s := if success then consume_events ids s else defer_events ids s in
      (inr a,
       mkScheduler (capacity s) (_wake_conditions s) (_events s)
         (dset k a (_activations_this_tick s)) (_activation_history s ++ [a])%list
         (_activation_counter s) (_last_overflow s))
  end.

Definition end_tick (s : AgentScheduler) : AgentScheduler :=
  let s := restatus (λ q, if decide (e_status q = ELIGIBLE) then EXPIRED else e_status q) s in
  mkScheduler (capacity s) (_wake_conditions s) (_events s) [] (_activation_history s)
    (_activation_counter s) (_last_overflow s).
Definition get_activation_history (s : AgentScheduler) : list AgentActivation := _activation_history s.
Definition pending_event_count (s : AgentScheduler) : nat :=
  length (List.filter (λ q, bool_decide (e_status q ∈ [QUEUED; ELIGIBLE; CLAIMED])) (_events s)).
Definition all_events (s : AgentScheduler) : list QueuedEvent := _events s.
Definition clear (s : AgentScheduler) : AgentScheduler :=
  mkScheduler (capacity s) (_wake_conditions s) [] [] [] 0 (_last_overflow s).

(** ** A tick

    The calls the simulation makes: the ready set, an activation for each candidate, their
    completion, the requeueing after a rollback, and the end of the tick. *)

(** A loop whose body may raise; the state at the failure stays. *)
Fixpoint each {A B} (f : A → AgentScheduler → (sched_error + B) * AgentScheduler) (l : list A)
    (s : AgentScheduler) : (sched_error + list B) * AgentScheduler :=
  match l with
  | [] => (inr [], s)
  | x :: l' =>
      match f x s with
      | (inl e, s) => (inl e, s)
      | (inr y, s) => match each f l' s with
                      | (inl e, s) => (inl e, s)
                      | (inr ys, s) => (inr (y :: ys), s)
                      end
      end
  end.

(** [activation = self._activations_this_tick.get(agent)], completed if there is one. *)
Definition finish (rolled_back : bool) (c : ReadyCandidate) (s : AgentScheduler) :
    (sched_error + ()) * AgentScheduler :=
  match dget (c_agent c) (_activations_this_tick s) with
  | Some a => match complete_activation (activation_id a) (negb rolled_back) None 0 0 None s with
              | (inl e, s) => (inl e, s)
              | (inr _, s) => (inr (), s)
              end
  | None => (inr (), s)
  end.
Definition requeue_activation (c : ReadyCandidate) (s : AgentScheduler) : AgentScheduler :=
  match dget (c_agent c) (_activations_this_tick s) with
  | Some a => requeue_events (map event_id (wake_events a)) s
  | None => s
  end.

Definition run_tick (tick : Z) (states : dict AgentState) (urgency : option urgency_fn)
    (rolled_back : bool) (s : AgentScheduler) :
    (sched_error + list AgentActivation) * AgentScheduler :=
  let '(ready, s) := compute_ready_set tick states urgency s in
  match each (λ c, begin_activation c tick) ready s with
  | (inl e, s) => (inl e, s)
  | (inr acts, s) =>
      match each (finish rolled_back) ready s with
      | (inl e, s) => (inl e, s)
      | (inr _, s) =>
          let s := if rolled_back then fold_left (λ s c, requeue_activation c s) ready s else s in
          (inr acts, end_tick s)
      end
  end.

(** ** The statuses through a tick *)

Section Tick.
Variable base : list QueuedEvent.
Hypothesis unique : NoDup (map (λ q, event_id (event q)) base).

(** The events of [s] are those of [base], with the statuses [f]. *)
Definition at_stage (f : QueuedEvent → EventStatus) (s : AgentScheduler) : Prop :=
  _events s = map (λ q, Queued (event q) (f q)) base.

Lemma restatus_stage g f s :
  at_stage f s → at_stage (λ q, g (Queued (event q) (f q))) (restatus g s).
Proof. unfold at_stage. intros H. simpl. by rewrite H, map_map. Qed.
Lemma at_stage_ext f g s : (∀ q, q ∈ base → f q = g q) → at_stage f s → at_stage g s.
Proof.
  intros H Hs. unfold at_stage in *. rewrite Hs. apply map_ext_in. intros q Hq.
  by rewrite H by by apply list_elem_of_In.
Qed.

(** One of the candidates carries the event. *)
Definition covered (l : list ReadyCandidate) (q : QueuedEvent) : bool :=
  existsb (λ c, named (ids_of c) q) l.

Lemma requeue_stage l f s :
  at_stage f s →
  at_stage (λ q, if bool_decide (f q ∈ [CLAIMED; ELIGIBLE]) && covered l q then QUEUED else f q)
    (fold_left (λ s c, requeue_events (ids_of c) s) l s).
Proof.
  revert f s. induction l as [|c l IH]; intros f s Hs; simpl.
  - eapply at_stage_ext; [|done]. intros q _. by rewrite andb_false_r.
  - eapply at_stage_ext; [|apply IH, restatus_stage, Hs]. intros q _. simpl.
    change (named (ids_of c) (Queued (event q) (f q))) with (named (ids_of c) q).
    destruct (bool_decide (f q ∈ _)) eqn:E; simpl; [|by rewrite E].
    destruct (named (ids_of c) q); simpl; [done|]. by rewrite E.
Qed.

Lemma claim_stage ids f s :
  at_stage f s →
  at_stage (λ q, if bool_decide (f q = ELIGIBLE) && named ids q then CLAIMED else f q)
    (claim_events ids s).2.
Proof.
  apply (restatus_stage (λ q, if bool_decide (e_status q = ELIGIBLE) && named ids q
                              then CLAIMED else e_status q)).
Qed.

(** ** Activations *)

Definition act_id (n : N) : string := "act." +:+ pad6 n.
Lemma act_id_inj n m : act_id n = act_id m → n = m.
Proof.
  unfold act_id. intros H%(inj (String.append "act.")). apply eff_id_inj. unfold eff_id. by rewrite H.
Qed.

(** The activations of the tick are those of the candidates [l]. *)
Record acts_ok (l : list ReadyCandidate) (s : AgentScheduler) : Prop := {
  ao_keys : NoDup (dkeys (_activations_this_tick s));
  ao_agents : ∀ k, k ∈ dkeys (_activations_this_tick s) ↔ k ∈ map c_agent l;
  ao_events : ∀ c, c ∈ l → ∃ a, dget (c_agent c) (_activations_this_tick s) = Some a ∧
                             wake_events a = c_events c;
  ao_ids : ∀ k a, dget k (_activations_this_tick s) = Some a →
             ∃ n, (n ≤ _activation_counter s)%N ∧ activation_id a = act_id n;
  ao_distinct : ∀ k a k' a', dget k (_activations_this_tick s) = Some a →
     dget k' (_activations_this_tick s) = Some a' → activation_id a = activation_id a' → k = k' }.

Lemma begin_ok l c tick s f :
  acts_ok l s → c_agent c ∉ map c_agent l → at_stage f s →
  ∃ a s', begin_activation c tick s = (inr a, s') ∧ a_agent a = c_agent c ∧ acts_ok (c :: l) s' ∧
    at_stage (λ q, if bool_decide (f q = ELIGIBLE) && named (ids_of c) q then CLAIMED else f q) s' ∧
    capacity s' = capacity s.
Proof.
  intros [H1 H2 H3 H4 H5] Hc Hf. unfold begin_activation.
  assert (dget (c_agent c) (_activations_this_tick s) = None) as Hnone.
  { apply dget_None_keys. by rewrite H2. }
  rewrite (proj2 (dmem_false _ _) Hnone).
  eexists _, _. split; [done|]. split; [done|]. split; [|split; [by apply claim_stage|done]].
  set (act := mkActivation _ _ _ _ _ _ _ _ _).
  split; simpl.
  - by apply dkeys_dset_NoDup.
  - intros k. rewrite <- !dmem_keys. unfold dmem. rewrite dget_dset, elem_of_cons, <- H2, <- dmem_keys.
    unfold dmem. destruct (decide (k = c_agent c)) as [->|]; [naive_solver|]. naive_solver.
  - intros c' [->|Hc']%elem_of_cons; [exists act; by rewrite dget_dset_eq|].
    destruct (H3 c' Hc') as (a & Ha & He). exists a. rewrite dget_dset_ne; [done|].
    intros Heq. apply Hc. rewrite <- Heq. apply list_elem_of_fmap. by exists c'.
  - intros k a. rewrite dget_dset. destruct (decide (k = c_agent c)) as [->|].
    + intros [= <-]. exists (N.succ (_activation_counter s)). split; [simpl; lia|done].
    + intros Ha. destruct (H4 k a Ha) as (m & Hm & E). exists m. split; [simpl; lia|done].
  - assert (∀ k a, dget k (_activations_this_tick s) = Some a → activation_id a ≠ activation_id act) as Hnew.
    { intros k a Ha E. destruct (H4 k a Ha) as (n & Hn & E'). rewrite E' in E.
      apply act_id_inj in E. lia. }
    intros k a k' a'. rewrite !dget_dset.
    destruct (decide (k = c_agent c)) as [->|], (decide (k' = c_agent c)) as [->|]; [done|..|apply H5].
    + intros [= <-] Ha' E. by destruct (Hnew k' a' Ha').
    + intros Ha [= <-] E. by destruct (Hnew k a Ha).
Qed.

Lemma begin_all l begun tick s f :
  acts_ok begun s → NoDup (map c_agent (l ++ begun)) → at_stage f s →
  ∃ acts s', each (λ c, begin_activation c tick) l s = (inr acts, s') ∧
    map a_agent acts = map c_agent l ∧ acts_ok (rev l ++ begun) s' ∧
    at_stage (λ q, if bool_decide (f q = ELIGIBLE) && covered l q then CLAIMED else f q) s' ∧
    capacity s' = capacity s.
Proof.
  revert begun s f. induction l as [|c l IH]; intros begun s f Ha Hn Hf; simpl.
  - exists [], s. repeat (split; [by try done|]). split; [|done].
    eapply at_stage_ext; [|done]. intros q _. by rewrite andb_false_r.
  - simpl in Hn. apply NoDup_cons in Hn as [Hni Hn]. rewrite map_app in Hni.
    destruct (begin_ok begun c tick s f Ha) as (a & s1 & E & Eag & Ha1 & Hf1 & Hcap);
      [set_solver|done|].
    assert (NoDup (map c_agent (l ++ c :: begun))) as Hn'.
    { rewrite map_app in Hn |- *. simpl. rewrite <- Permutation_middle. by apply NoDup_cons. }
    rewrite E. destruct (IH (c :: begun) s1 _ Ha1 Hn' Hf1)
      as (acts & s2 & E2 & Eags & Ha2 & Hf2 & Hcap2).
    rewrite E2. exists (a :: acts), s2. split; [done|]. split; [simpl; congruence|].
    split; [by rewrite <- app_assoc|]. split; [|congruence].
    eapply at_stage_ext; [|done]. intros q _. simpl.
    destruct (decide (f q = ELIGIBLE)) as [E'|E'].
    + rewrite E'. simpl. destruct (named (ids_of c) q); simpl; [done|]. done.
    + assert (bool_decide (f q = ELIGIBLE) = false) as En by by apply bool_decide_eq_false_2.
      rewrite En. simpl. by rewrite En.
Qed.

Lemma acts_ok_same l s s' :
  _activations_this_tick s' = _activations_this_tick s → _activation_counter s' = _activation_counter s →
  acts_ok l s → acts_ok l s'.
Proof. intros E1 E2 []. split; by rewrite ?E1, ?E2. Qed.

Lemma finish_ok l c rb s f :
  acts_ok l s → c ∈ l → at_stage f s →
  ∃ s', finish rb c s = (inr (), s') ∧ acts_ok l s' ∧
    at_stage (λ q, if bool_decide (f q = CLAIMED) && named (ids_of c) q
                   then (if rb then ELIGIBLE else CONSUMED) else f q) s'.
Proof.
  intros Ha Hc Hf. destruct (ao_events _ _ Ha c Hc) as (a & Hk & He).
  unfold finish. rewrite Hk. unfold complete_activation.
  destruct (List.find _ (_activations_this_tick s)) as [[k a']|] eqn:Efind.
  2: { exfalso. eapply List.find_none in Efind; [|apply list_elem_of_In, dget_Some_elem, Hk].
       by rewrite bool_decide_eq_false in Efind. }
  apply List.find_some in Efind as [Hin Hid]. apply bool_decide_eq_true in Hid. simpl in Hid.
  apply list_elem_of_In, elem_dget in Hin; [|apply Ha].
  assert (k = c_agent c) as -> by (by eapply (ao_distinct _ _ Ha)).
  assert (a' = a) as -> by congruence. clear Hin Hid.
  eexists. split; [done|]. split.
  - destruct Ha as [H1 H2 H3 H4 H5].
    match goal with |- acts_ok _ (mkScheduler _ _ _ (dset _ ?b _) _ _ _) => set (act := b) end.
    assert (Hthis : _activations_this_tick (if negb rb then consume_events (map event_id (wake_events a)) s
              else defer_events (map event_id (wake_events a)) s) = _activations_this_tick s) by by destruct rb.
    assert (Hcount : _activation_counter (if negb rb then consume_events (map event_id (wake_events a)) s
              else defer_events (map event_id (wake_events a)) s) = _activation_counter s) by by destruct rb.
    assert (Hget : ∀ k b, dget k (dset (c_agent c) act (_activations_this_tick s)) = Some b →
              ∃ b', dget k (_activations_this_tick s) = Some b' ∧ activation_id b = activation_id b').
    { intros k b. rewrite dget_dset. destruct (decide (k = c_agent c)) as [->|].
      - intros [= <-]. by exists a.
      - intros Hb. by exists b. }
    split; simpl; rewrite ?Hthis, ?Hcount.
    + by apply dkeys_dset_NoDup.
    + intros k. rewrite <- H2, dkeys_dset, decide_True; [done|]. by eapply dget_keys.
    + intros c' Hc'. destruct (H3 c' Hc') as (b & Hb & Hw). rewrite dget_dset.
      destruct (decide (c_agent c' = c_agent c)) as [E|]; [|by exists b].
      exists act. split; [done|]. simpl. rewrite <- Hw. rewrite E in Hb. congruence.
    + intros k b Hb. destruct (Hget k b Hb) as (b' & Hb' & E). rewrite E. by eapply H4.
    + intros k b k' b' Hb Hb' E. destruct (Hget k b Hb) as (d & Hd & E1).
      destruct (Hget k' b' Hb') as (d' & Hd' & E2). eapply H5; [done..|congruence].
  - unfold at_stage. simpl. rewrite He. destruct rb; simpl.
    + apply (restatus_stage (λ q, if bool_decide (e_status q = CLAIMED) && named (ids_of c) q
                                  then ELIGIBLE else e_status q) f s Hf).
    + apply (restatus_stage (λ q, if bool_decide (e_status q = CLAIMED) && named (ids_of c) q
                                  then CONSUMED else e_status q) f s Hf).
Qed.

Lemma finish_all l l' rb s f :
  acts_ok l s → (∀ c, c ∈ l' → c ∈ l) → at_stage f s →
  ∃ us s', each (finish rb) l' s = (inr us, s') ∧ acts_ok l s' ∧
    at_stage (λ q, if bool_decide (f q = CLAIMED) && covered l' q
                   then (if rb then ELIGIBLE else CONSUMED) else f q) s'.
Proof.
  revert s f. induction l' as [|c l' IH]; intros s f Ha Hsub Hf; simpl.
  - exists [], s. split; [done|]. split; [done|]. eapply at_stage_ext; [|done].
    intros q _. by rewrite andb_false_r.
  - destruct (finish_ok l c rb s f Ha) as (s1 & E1 & Ha1 & Hf1); [set_solver|done|].
    assert (∀ c, c ∈ l' → c ∈ l) as Hsub' by set_solver.
    rewrite E1. destruct (IH s1 _ Ha1 Hsub' Hf1) as (us & s2 & E2 & Ha2 & Hf2).
    rewrite E2. exists (() :: us), s2. split; [done|]. split; [done|].
    eapply at_stage_ext; [|done]. intros q _. simpl.
    destruct (bool_decide (f q = CLAIMED)) eqn:E; simpl; [|by rewrite E].
    destruct (named (ids_of c) q); simpl; [by destruct rb|]. by rewrite E.
Qed.

Lemma requeue_all l l' s :
  acts_ok l s → (∀ c, c ∈ l' → c ∈ l) →
  fold_left (λ s c, requeue_activation c s) l' s =
  fold_left (λ s c, requeue_events (ids_of c) s) l' s.
Proof.
  revert s. induction l' as [|c l' IH]; intros s Ha Hsub; simpl; [done|].
  unfold requeue_activation at 2. destruct (ao_events _ _ Ha c) as (a & -> & ->); [set_solver|].
  apply IH; [|set_solver]. by eapply acts_ok_same; [..|exact Ha].
Qed.

(** ** What wakes whom *)

Variables (tick : Z) (states : dict AgentState) (conditions : dict WakeCondition).
(** A queued event that wakes its target in this tick. *)
Definition woken (q : QueuedEvent) : bool :=
  let agent := target_agent_id (event q) in
  bool_decide (e_status q = QUEUED)
  && match dget agent states with Some st => negb (bool_decide (st ∈ unschedulable)) | None => false end
  && match dget agent conditions with Some c => _matches c (event q) tick | None => false end.
Definition woken_events : list WakeupEvent := map event (List.filter woken base).
Definition candidate (a : string) : ReadyCandidate :=
  Candidate a (keyed target_agent_id a woken_events) tick.

Lemma unique_event q q' : q ∈ base → q' ∈ base → event_id (event q) = event_id (event q') → q = q'.
Proof.
  revert unique. clear. induction base as [|x l IH]; simpl; [by intros _ ?%not_elem_of_nil|].
  intros [Hx Hn]%NoDup_cons [->|Hq]%elem_of_cons [->|Hq']%elem_of_cons E; [done|..|by apply IH].
  - destruct Hx. rewrite E. apply list_elem_of_fmap. by exists q'.
  - destruct Hx. rewrite <- E. apply list_elem_of_fmap. by exists q.
Qed.

Lemma woken_events_elem e : e ∈ woken_events ↔ ∃ q, q ∈ base ∧ woken q = true ∧ event q = e.
Proof.
  unfold woken_events. split.
  - intros (q & -> & [Hq Hw]%elem_of_bfilter)%list_elem_of_fmap. by exists q.
  - intros (q & Hq & Hw & <-). apply list_elem_of_fmap. exists q. by rewrite elem_of_bfilter.
Qed.

Lemma covered_iff l q :
  q ∈ base → covered (map candidate l) q = woken q && bool_decide (target_agent_id (event q) ∈ l).
Proof.
  intros Hq. apply eq_true_iff_eq. unfold covered. rewrite existsb_exists, andb_true_iff, bool_decide_eq_true.
  unfold named. split.
  - intros (c & (a & -> & Ha)%list_elem_of_In%list_elem_of_fmap & Hn%bool_decide_eq_true).
    unfold ids_of, candidate in Hn. simpl in Hn. apply list_elem_of_fmap in Hn as (e & He & Hin).
    apply elem_of_bfilter in Hin as [Hin Htgt%bool_decide_eq_true].
    apply woken_events_elem in Hin as (q' & Hq' & Hw & <-).
    assert (q = q') as -> by by apply unique_event. split; [done|]. by rewrite Htgt.
  - intros [Hw Ha]. exists (candidate (target_agent_id (event q))). split.
    + apply list_elem_of_In, list_elem_of_fmap. by exists (target_agent_id (event q)).
    + apply bool_decide_eq_true. unfold ids_of, candidate. simpl. apply list_elem_of_fmap.
      exists (event q). split; [done|]. apply elem_of_bfilter. rewrite bool_decide_eq_true.
      split; [|done]. apply woken_events_elem. by exists q.
Qed.

(** ** The ready set *)

Lemma key_leb_total a b : key_leb a b = true ∨ key_leb b a = true.
Proof.
  unfold key_leb. destruct a as [[r d] x], b as [[r' d'] y]. simpl.
  rewrite (Z.compare_antisym r r'). destruct (Z.compare_spec r r'); simpl; [|by left|by right].
  destruct d as [z|], d' as [z'|]; simpl; [|by left|by right|apply String.leb_total].
  rewrite (Z.compare_antisym z z'). destruct (Z.compare_spec z z'); simpl; [|by left|by right].
  apply String.leb_total.
Qed.
Lemma key_leb_trans a b c : key_leb a b = true → key_leb b c = true → key_leb a c = true.
Proof.
  unfold key_leb. destruct a as [[r d] x], b as [[r' d'] y], c as [[r'' d''] z]. simpl.
  destruct (Z.compare_spec r r'), (Z.compare_spec r' r''), (Z.compare_spec r r''); try done; try lia.
  destruct d as [u|], d' as [v|], d'' as [w|]; simpl; try done; try apply string_leb_trans.
  destruct (Z.compare_spec u v), (Z.compare_spec v w), (Z.compare_spec u w); try done; try lia.
  apply string_leb_trans.
Qed.

Variable urgency : option urgency_fn.
Definition agents : list string :=
  py_sorted (more_urgent urgency) (dkeys (group_by target_agent_id woken_events)).
Lemma agents_NoDup : NoDup agents.
Proof. unfold agents. rewrite py_sorted_perm. apply group_by_NoDup. Qed.
Lemma agents_elem a : a ∈ agents ↔ ∃ e, e ∈ woken_events ∧ target_agent_id e = a.
Proof. unfold agents. by rewrite py_sorted_elem, group_by_keys. Qed.

(** The statuses between two ticks. *)
Definition settled (q : QueuedEvent) : Prop :=
  e_status q = QUEUED ∨ e_status q = CONSUMED ∨ e_status q = EXPIRED.
Hypothesis base_settled : ∀ q, q ∈ base → settled q.

Definition marked (q : QueuedEvent) : EventStatus :=
  if decide (e_status q = QUEUED) then ELIGIBLE else e_status q.

Lemma ready_eq s :
  _events s = base → _wake_conditions s = conditions →
  ∃ s1, compute_ready_set tick states urgency s =
      (map candidate (take (capacity s) agents),
       fold_left (λ s c, requeue_events (ids_of c) s) (map candidate (drop (capacity s) agents)) s1) ∧
    at_stage marked s1 ∧ _activations_this_tick s1 = _activations_this_tick s ∧
    _activation_counter s1 = _activation_counter s.
Proof.
  intros He Hc. unfold compute_ready_set.
  set (s0 := restatus _ s).
  assert (Hf : at_stage marked s0) by (unfold at_stage; simpl; by rewrite He).
  assert (map event (List.filter (wakes tick states s0) (_events s0)) = woken_events) as ->.
  { rewrite Hf. unfold woken_events. clear -base_settled Hc. induction base as [|q l IH]; [done|].
    simpl.
    assert (wakes tick states s0 (Queued (event q) (marked q)) = woken q) as ->.
    { unfold wakes, woken, get_wake_condition. simpl. rewrite Hc. f_equal. f_equal.
      unfold marked. by destruct (base_settled q ltac:(by left)) as [->|[->| ->]]. }
    destruct (woken q); simpl; rewrite IH; try done; intros x Hx; apply base_settled; by right. }
  assert (map (λ a, Candidate a (default [] (dget a (group_by target_agent_id woken_events))) tick)
            (py_sorted (more_urgent urgency) (dkeys (group_by target_agent_id woken_events))) =
          map candidate agents) as ->.
  { apply map_ext. intros a. unfold candidate. by rewrite group_by_get. }
  rewrite firstn_map, skipn_map.
  by exists (set_overflow (map candidate (drop (capacity s) agents)) s0).
Qed.

Lemma requeue_fold_acts l s :
  let s' := fold_left (λ s c, requeue_events (ids_of c) s) l s in
  _activations_this_tick s' = _activations_this_tick s ∧ _activation_counter s' = _activation_counter s.
Proof. revert s. induction l as [|c l IH]; intros s; simpl; [done|]. apply (IH (requeue_events (ids_of c) s)). Qed.

(** What a tick does to a queued event. *)
Definition fate (rb : bool) (ready : list string) (q : QueuedEvent) : EventStatus :=
  if decide (e_status q = QUEUED)
  then if negb (woken q) then EXPIRED
       else if rb || negb (bool_decide (target_agent_id (event q) ∈ ready)) then QUEUED else CONSUMED
  else e_status q.

Lemma map_agent l : map c_agent (map candidate l) = l.
Proof. rewrite map_map. apply map_id. Qed.

Lemma ready_or_over n q :
  let r := bool_decide (target_agent_id (event q) ∈ take n agents) in
  let o := bool_decide (target_agent_id (event q) ∈ drop n agents) in
  q ∈ base → settled q ∧ r && o = false ∧ negb (woken q) || r || o = true.
Proof.
  intros r o Hq. split; [by apply base_settled|]. unfold r, o.
  pose proof agents_NoDup as Hnd. rewrite <- (take_drop n agents) in Hnd.
  apply NoDup_app in Hnd as (_ & Hdisj & _).
  rewrite andb_false_iff, !orb_true_iff, negb_true_iff, !bool_decide_eq_false, !bool_decide_eq_true.
  split.
  - destruct (decide (target_agent_id (event q) ∈ take n agents)); [right|by left]. by apply Hdisj.
  - destruct (woken q) eqn:Hw; [|by left; left].
    assert (target_agent_id (event q) ∈ (take n agents ++ drop n agents)%list) as Hin.
    { rewrite take_drop. apply agents_elem. exists (event q). split; [|done].
      apply woken_events_elem. by exists q. }
    apply elem_of_app in Hin. tauto.
Qed.

Lemma tick_stages rb s :
  _events s = base → _wake_conditions s = conditions → _activations_this_tick s = [] →
  ∃ acts s', run_tick tick states urgency rb s = (inr acts, s') ∧
    map a_agent acts = take (capacity s) agents ∧
    at_stage (fate rb (take (capacity s) agents)) s' ∧ _activations_this_tick s' = [].
Proof.
  intros He Hc Ha. destruct (ready_eq s He Hc) as (s1 & Er & Hf1 & Ha1 & Hn1).
  unfold run_tick. rewrite Er. set (R := take (capacity s) agents). set (O := drop (capacity s) agents).
  pose proof (requeue_stage (map candidate O) _ _ Hf1) as Hf2.
  destruct (requeue_fold_acts (map candidate O) s1) as [Ha2 Hn2].
  set (s2 := fold_left _ (map candidate O) s1) in *.
  assert (NoDup (R ++ O)) as Hnd by (unfold R, O; rewrite take_drop; apply agents_NoDup).
  apply NoDup_app in Hnd as (HndR & Hdisj & _).
  assert (acts_ok [] s2) as Hok2.
  { split; rewrite Ha2, Ha1, Ha; simpl; try done; [constructor|]. by intros c ?%not_elem_of_nil. }
  assert (NoDup (map c_agent (map candidate R ++ []))) as HndR' by by rewrite app_nil_r, map_agent.
  destruct (begin_all (map candidate R) [] tick s2 _ Hok2 HndR' Hf2)
    as (acts & s3 & E3 & Eag & Hok3 & Hf3 & _).
  rewrite E3, app_nil_r in *.
  assert (∀ c, c ∈ map candidate R → c ∈ rev (map candidate R)) as Hsub
    by (intros c; by rewrite elem_of_rev).
  destruct (finish_all _ (map candidate R) rb s3 _ Hok3 Hsub Hf3) as (us & s4 & E4 & Hok4 & Hf4).
  rewrite E4. exists acts. eexists. split; [done|]. rewrite map_agent in Eag. split; [done|].
  split; [|done].
  pose proof (ready_or_over (capacity s)) as Hfacts. fold R O in Hfacts.
  set (expire := λ q, if decide (e_status q = ELIGIBLE) then EXPIRED else e_status q).
  enough (at_stage (fate rb R) (restatus expire
    (if rb then fold_left (λ s c, requeue_activation c s) (map candidate R) s4 else s4))) as H by exact H.
  destruct rb; [rewrite (requeue_all _ _ _ Hok4 Hsub)|];
    [pose proof (requeue_stage (map candidate R) _ _ Hf4) as Hf5|pose proof Hf4 as Hf5];
    apply (restatus_stage expire) in Hf5;
    (eapply at_stage_ext; [|exact Hf5]); intros q Hq; destruct (Hfacts q Hq) as (Hs & Hro & Hw);
    rewrite !covered_iff by done; unfold fate, marked, expire; clear -Hs Hro Hw; revert Hro Hw;
    generalize (bool_decide (target_agent_id (event q) ∈ R)) (bool_decide (target_agent_id (event q) ∈ O))
      (woken q); intros r o w; destruct Hs as [->|[->| ->]], r, o, w; done.
Qed.
End Tick.

(** ** Theorems *)

(** Between two ticks: event identifiers differ, no event is claimed or eligible, and no
    activation is open. *)
Definition boundary (s : AgentScheduler) : Prop :=
  NoDup (map (λ q, event_id (event q)) (_events s)) ∧
  (∀ q, q ∈ _events s → settled q) ∧ _activations_this_tick s = [].

(** C40: the ready set has at most as many agents as the capacity, each once, with all the
    events that wake it now; an agent with such an event that is not in it found the capacity
    used up by agents at least as urgent. *)
Theorem ready_set_exact tick states urgency s :
  boundary s →
  let ready := (compute_ready_set tick states urgency s).1 in
  let wakes := woken tick states (_wake_conditions s) in
  (length ready ≤ capacity s)%nat ∧ NoDup (map c_agent ready) ∧
  (∀ c, c ∈ ready → c_events c ≠ [] ∧ ∀ e, e ∈ c_events c ↔
     target_agent_id e = c_agent c ∧ ∃ q, q ∈ _events s ∧ wakes q = true ∧ event q = e) ∧
  (∀ q, q ∈ _events s → wakes q = true → target_agent_id (event q) ∈ map c_agent ready ∨
     length ready = capacity s ∧
     ∀ c, c ∈ ready → more_urgent urgency (c_agent c) (target_agent_id (event q)) = true).
Proof.
  intros (Hu & Hs & _) ready wakes. subst wakes.
  destruct (ready_eq (_events s) tick states (_wake_conditions s) urgency Hs s eq_refl eq_refl)
    as (s1 & E & _).
  set (A := agents (_events s) tick states (_wake_conditions s) urgency) in *.
  assert (ready = map (candidate (_events s) tick states (_wake_conditions s)) (take (capacity s) A))
    as -> by (unfold ready; by rewrite E).
  rewrite map_agent. rewrite length_map, length_take.
  split; [lia|]. split; [eapply sublist_NoDup; [apply agents_NoDup|apply sublist_take]|]. split.
  - intros c (a & -> & Ha)%list_elem_of_fmap. simpl.
    assert (∀ e, e ∈ keyed target_agent_id a (woken_events (_events s) tick states (_wake_conditions s)) ↔
      target_agent_id e = a ∧ ∃ q, q ∈ _events s ∧ woken tick states (_wake_conditions s) q = true ∧ event q = e) as Hk.
    { intros e. unfold keyed. rewrite elem_of_bfilter, bool_decide_eq_true, woken_events_elem. naive_solver. }
    split; [|done]. assert (a ∈ A) as Hin.
    { rewrite <- (take_drop (capacity s) A). apply elem_of_app. by left. }
    apply agents_elem in Hin as (e & He & <-). intros Hnil.
    assert (e ∈ ([] : list WakeupEvent)) as []%not_elem_of_nil. rewrite <- Hnil.
    unfold keyed. by rewrite elem_of_bfilter, bool_decide_eq_true.
  - intros q Hq Hw.
    destruct (ready_or_over (_events s) tick states (_wake_conditions s) urgency Hs (capacity s) q Hq)
      as (_ & _ & H).
    rewrite Hw in H. simpl in H. apply orb_true_iff in H as [H|H]; apply bool_decide_eq_true in H;
      [by left|right]. fold A in H. split.
    + assert (drop (capacity s) A ≠ []) as Hd by (by destruct (drop (capacity s) A); [apply not_elem_of_nil in H|]).
      destruct (decide (length A ≤ capacity s)%nat); [by rewrite drop_ge in Hd|lia].
    + intros c (a & -> & Ha)%list_elem_of_fmap. simpl.
      assert (StronglySorted (λ x y, more_urgent urgency x y = true) A) as Hsort.
      { apply py_sorted_sorted; intros; [apply key_leb_total|by eapply key_leb_trans]. }
      rewrite <- (take_drop (capacity s) A) in Hsort.
      exact (StronglySorted_app_1_elem_of (λ x y, more_urgent urgency x y = true) _ _ _ _ Hsort Ha H).
Qed.

(** A tick settles every queued event, and no event is lost to a crowded or a failed tick:
    an event that wakes an agent of the ready set is consumed, or queued again when the tick
    rolls back; one that wakes an agent beyond the capacity is queued again; one that wakes
    nobody expires.  The calls never raise, each agent of the ready set is activated exactly
    once, and the state is again one between ticks. *)
Theorem tick_settles_events tick states urgency rolled_back s :
  boundary s →
  let ready := map c_agent (compute_ready_set tick states urgency s).1 in
  ∃ acts s', run_tick tick states urgency rolled_back s = (inr acts, s') ∧
    map a_agent acts = ready ∧ boundary s' ∧
    _events s' = map (λ q, Queued (event q)
      (if decide (e_status q ≠ QUEUED) then e_status q
       else if negb (woken tick states (_wake_conditions s) q) then EXPIRED
       else if bool_decide (target_agent_id (event q) ∈ ready) && negb rolled_back then CONSUMED
       else QUEUED)) (_events s).
Proof.
  intros (Hu & Hs & Ha) ready.
  destruct (ready_eq (_events s) tick states (_wake_conditions s) urgency Hs s eq_refl eq_refl)
    as (s1 & E & _).
  assert (ready = take (capacity s) (agents (_events s) tick states (_wake_conditions s) urgency)) as ->.
  { unfold ready. rewrite E. simpl. apply map_agent. }
  destruct (tick_stages (_events s) Hu tick states (_wake_conditions s) urgency Hs rolled_back s
              eq_refl eq_refl Ha) as (acts & s' & Er & Eag & Hf & Ha').
  exists acts, s'. split; [done|]. split; [done|].
  assert (_events s' = map (λ q, Queued (event q) (fate tick states (_wake_conditions s) rolled_back
            (take (capacity s) (agents (_events s) tick states (_wake_conditions s) urgency)) q)) (_events s))
    as Hev by exact Hf.
  split.
  - split; [|split; [|done]].
    + by rewrite Hev, map_map.
    + intros q. rewrite Hev. intros (p & -> & Hp)%list_elem_of_fmap. specialize (Hs p Hp).
      unfold settled in *. simpl. unfold fate. destruct (decide _); [|done].
      destruct (negb _); [by right; right|]. destruct (_ || _); [by left|by right; left].
  - rewrite Hev. apply map_ext. intros q. f_equal. unfold fate.
    destruct (decide (e_status q = QUEUED)) as [Eq|Eq].
    + rewrite decide_False by (intros []; done). destruct (negb _); [done|].
      by destruct rolled_back, (bool_decide _).
    + by rewrite decide_True.
Qed.

(** ** Witnesses *)

Definition sample_event (id agent : string) (visible : Z) : WakeupEvent :=
  mkEvent id NEW_EMAIL agent 0 visible "b" "" "" "" [].
Definition mail_condition : WakeCondition := Condition [NEW_EMAIL] 0 ∅ ∅ ∅ ∅.
Definition sample_scheduler : AgentScheduler :=
  enqueue_event (sample_event "e1" "a" 1) (enqueue_event (sample_event "e2" "c" 1)
    (register_agent "a" (Some mail_condition) (register_agent "c" (Some mail_condition)
       (AgentScheduler_init 1)))).
Definition sample_states : dict AgentState := [("a", IDLE); ("c", IDLE)].

Lemma sample_boundary : boundary sample_scheduler.
Proof.
  split; [|split; [|done]].
  - apply (bool_decide_unpack _). vm_compute. exact I.
  - intros q [->|[->|[]%not_elem_of_nil]%elem_of_cons]%elem_of_cons; by left.
Qed.

Lemma ready_set_exact_witness :
  map c_agent (compute_ready_set 1 sample_states None sample_scheduler).1 = ["a"] ∧
  (length (compute_ready_set 1 sample_states None sample_scheduler).1 ≤ 1)%nat.
Proof.
  split; [vm_compute; reflexivity|].
  exact (proj1 (ready_set_exact 1 sample_states None sample_scheduler sample_boundary)).
Defined.

Lemma tick_settles_events_witness :
  ∃ acts s', run_tick 1 sample_states None false sample_scheduler = (inr acts, s') ∧
    boundary s' ∧ map e_status (_events s') = [QUEUED; CONSUMED].
Proof.
  destruct (tick_settles_events 1 sample_states None false sample_scheduler sample_boundary)
    as (acts & s' & E & _ & Hb & Hev).
  exists acts, s'. split; [exact E|]. split; [exact Hb|]. rewrite Hev. vm_compute. reflexivity.
Defined.

(** An event that is to become visible later than in the next tick expires before. *)
Lemma delayed_event_lost :
  let s0 := enqueue_event (sample_event "e1" "a" 2)
              (register_agent "a" (Some mail_condition) (AgentScheduler_init 1)) in
  let s1 := (run_tick 1 sample_states None false s0).2 in
  map e_status (_events s1) = [EXPIRED] ∧
  (compute_ready_set 2 sample_states None s1).1 = [] ∧
  map c_agent (compute_ready_set 2 sample_states None s0).1 = ["a"].
Proof. by vm_compute. Qed.
