(* ===== verification/LegacyRecords.v ===== *)
(** * The record store of the previous architecture (legacy/record_store.py)

    Typed records with field and invariant checks, the append-only ledger with its replay, the
    undo of one mutation, the two tool handlers, and the part of the commit of a tick
    (legacy/simulation.py) that applies record effects, fails them alone or with their group,
    and rolls a tick back.  Effects of other types do not touch the store; an exception that
    ends the loop comes from one of them.

    A record is a dictionary; [dict(...)] and the validation of a ledger entry copy it, so no two
    places share one.  Floats are exact rationals.  Keys, types and fields are strings and a
    record is a dict, as the annotations say. *)

From stdpp Require Import base gmap strings list.
From Stdlib Require Import ZArith QArith Ascii.
From S2P Require Import Prelude PyValue LlmRuntime LegacyTransaction LegacyKb.

Open Scope string_scope.
Open Scope nat_scope.

(** ** Schemas *)

Inductive field_type := TString | TInt | TFloat | TDate | TBool.
#[global] Instance field_type_eq_dec : EqDecision field_type.
Proof. solve_decision. Defined.
Definition type_text (t : field_type) : string :=
  match t with
  | TString => "string" | TInt => "int" | TFloat => "float" | TDate => "date" | TBool => "bool"
  end.
Record FieldSpec := Field { f_name : string; f_type : field_type; required : bool }.

Inductive rule_kind := NonNegative | Positive.
Record InvariantRule := Invariant { r_kind : rule_kind; r_field : string }.

Record RecordSchema := Schema {
  record_type : string; fields : list FieldSpec; invariants : list InvariantRule;
  unique_fields : list string }.

Record rec_error := RecordInvariantError { e_type : string; e_key : string; e_message : string }.

(** The constructor of a schema with its validator. *)
Definition schema_new (ty : string) (fs : list FieldSpec) (rules : list InvariantRule)
    (uniq : list string) : res RecordSchema :=
  if negb (nonempty (strip ty))
  then Raise (Exn ValueError "record_type must be non-empty") else
  match List.find (λ u, negb (bool_decide (u ∈ map f_name fs))) uniq with
  | Some u => Raise (Exn ValueError ("unique field '" +:+ u +:+ "' not declared in fields"))
  | None => Ok (Schema ty fs rules uniq)
  end.

Definition type_ok (t : field_type) (v : value) : bool :=
  match t with
  | TString | TDate => is_str v
  | TInt => match v with VInt _ => true | _ => false end
  | TFloat => match as_number v with Some _ => true | None => false end
  | TBool => match v with VBool _ => true | _ => false end
  end.

Definition check_field (ty key : string) (data : dict value) (f : FieldSpec) : option rec_error :=
  match dget (f_name f) data with
  | None =>
      if required f
      then Some (RecordInvariantError ty key ("missing required field '" +:+ f_name f +:+ "'"))
      else None
  | Some v =>
      if type_ok (f_type f) v then None
      else Some (RecordInvariantError ty key
                   ("field '" +:+ f_name f +:+ "' must be " +:+ type_text (f_type f)
                    +:+ " (got " +:+ repr v +:+ ")"))
  end.

(** A loop that raises at the first element that is refused. *)
Fixpoint first_error {A} (f : A → option rec_error) (l : list A) : option rec_error :=
  match l with
  | [] => None
  | x :: l' => match f x with Some e => Some e | None => first_error f l' end
  end.
Definition validate_record (s : RecordSchema) (key : string) (data : dict value) : option rec_error :=
  first_error (check_field (record_type s) key data) (fields s).

(** [InvariantRule.check] *)
Definition rule_ok (r : InvariantRule) (data : dict value) : bool :=
  match as_number (default (VInt 0) (dget (r_field r) data)) with
  | Some q => match r_kind r with
              | NonNegative => Qle_bool 0 q
              | Positive => negb (Qle_bool q 0)
              end
  | None => false
  end.
Definition check (ty key : string) (data : dict value) (r : InvariantRule) : option rec_error :=
  if rule_ok r data then None
  else Some (RecordInvariantError ty key
               (r_field r +:+ " must be "
                +:+ match r_kind r with NonNegative => ">= 0" | Positive => "> 0" end
                +:+ " (got " +:+ repr (default (VInt 0) (dget (r_field r) data)) +:+ ")")).

(** ** The store *)

Inductive ledger_op := OpUpsert | OpDelta.
Record LedgerEntry := Entry {
  ledger_id : N; le_tick : Z; le_agent : string; le_type : string; le_key : string;
  op : ledger_op; before : option (dict value); after : dict value;
  delta_field : option string; delta_value : option Q }.
Record MutationResult := Mutated {
  mr_type : string; mr_key : string; mr_record : dict value; ledger_ids : list N;
  mr_version : Z }.

Record RecordStore := mkStore {
  _schemas : dict RecordSchema;
  _records : dict (dict value);
  _ledger : list LedgerEntry;
  _ledger_counter : N;
  _version_counter : dict Z }.
Definition RecordStore_init : RecordStore := mkStore [] [] [] 0 [].

Definition full_key (ty key : string) : string := ty +:+ ":" +:+ key.

Definition register_schema (sc : RecordSchema) (s : RecordStore) : res () * RecordStore :=
  if dmem (record_type sc) (_schemas s)
  then (Raise (Exn ValueError ("record type '" +:+ record_type sc +:+ "' already registered")), s)
  else (Ok (), mkStore (dset (record_type sc) sc (_schemas s)) (_records s) (_ledger s)
                 (_ledger_counter s) (_version_counter s)).
Definition has_schema (ty : string) (s : RecordStore) : bool := dmem ty (_schemas s).
Definition schema (ty : string) (s : RecordStore) : rec_error + RecordSchema :=
  match dget ty (_schemas s) with
  | Some sc => inr sc
  | None => inl (RecordInvariantError ty "" "record type not registered")
  end.
Definition get (ty key : string) (s : RecordStore) : option (dict value) :=
  dget (full_key ty key) (_records s).

(** ** Mutations *)

(** The key of another record of the type that holds the value of the unique field. *)
Definition unique_clash (ty full : string) (data : dict value) (records : dict (dict value))
    (uf : string) : option string :=
  match dget uf data with
  | None | Some VNone => None
  | Some v =>
      fst <$> List.find (λ kv, startswith (ty +:+ ":") kv.1 && negb (bool_decide (kv.1 = full))
                               && py_eq (opt_or_none (dget uf kv.2)) v) records
  end.
Definition check_unique (ty key : string) (data : dict value) (records : dict (dict value))
    (uf : string) : option rec_error :=
  (λ other, RecordInvariantError ty key
     (uf +:+ "=" +:+ repr (opt_or_none (dget uf data)) +:+ " already used by '" +:+ other +:+ "'"))
  <$> unique_clash ty (full_key ty key) data records uf.

(** What both mutations do once their checks have passed. *)
Definition store_record (ty key agent : string) (tick : Z) (o : ledger_op)
    (prior : option (dict value)) (r : dict value) (df : option string) (dv : option Q)
    (s : RecordStore) : MutationResult * RecordStore :=
  let k := full_key ty key in
  let n := N.succ (_ledger_counter s) in
  let v := (default 0 (dget k (_version_counter s)) + 1)%Z in
  (Mutated ty key r [n] v,
   mkStore (_schemas s) (dset k r (_records s))
     (_ledger s ++ [Entry n tick agent ty key o prior r df dv])%list n
     (dset k v (_version_counter s))).

Definition upsert (ty key : string) (data : dict value) (agent : string) (tick : Z)
    (s : RecordStore) : (rec_error + MutationResult) * RecordStore :=
  match schema ty s with
  | inl e => (inl e, s)
  | inr sc =>
      match validate_record sc key data with
      | Some e => (inl e, s)
      | None =>
          match first_error (check_unique ty key data (_records s)) (unique_fields sc) with
          | Some e => (inl e, s)
          | None =>
              match first_error (check ty key data) (invariants sc) with
              | Some e => (inl e, s)
              | None =>
                  let '(r, s') := store_record ty key agent tick OpUpsert (get ty key s) data
                                    None None s in
                  (inr r, s')
              end
          end
      end
  end.

Definition default_value (t : field_type) : value :=
  match t with
  | TString | TDate => VStr "" | TInt | TFloat => VInt 0 | TBool => VBool false
  end.
(** The dict comprehension over the declared fields: a repeated name keeps its place and takes
    the last value. *)
Definition defaults (sc : RecordSchema) : dict value :=
  foldl (λ d f, dset (f_name f) (default_value (f_type f)) d) [] (fields sc).

Definition apply_delta (ty key field : string) (delta : Q) (agent : string) (tick : Z)
    (s : RecordStore) : (rec_error + MutationResult) * RecordStore :=
  match schema ty s with
  | inl e => (inl e, s)
  | inr sc =>
      let existing := default (defaults sc) (get ty key s) in
      match as_number (default (VInt 0) (dget field existing)) with
      | None =>
          (inl (RecordInvariantError ty key
                  ("cannot delta non-numeric field '" +:+ field +:+ "'")), s)
      | Some q =>
          let r := dset field (VFloat (q + delta)) existing in
          match first_error (check ty key r) (invariants sc) with
          | Some e => (inl e, s)
          | None =>
              let '(m, s') := store_record ty key agent tick OpDelta (Some existing) r
                                (Some field) (Some delta) s in
              (inr m, s')
          end
      end
  end.

Definition invert_mutation (ty key : string) (prior : option (dict value)) (ids : list N)
    (s : RecordStore) : RecordStore :=
  let k := full_key ty key in
  let ledger := List.filter (λ e, negb (bool_decide (ledger_id e ∈ ids))) (_ledger s) in
  match prior with
  | None => mkStore (_schemas s) (dpop k (_records s)) ledger (_ledger_counter s)
              (dpop k (_version_counter s))
  | Some r => mkStore (_schemas s) (dset k r (_records s)) ledger (_ledger_counter s)
                (_version_counter s)
  end.

(** ** Replay *)

(** [v + w] for a number [w]: a sum with a float is a float. *)
Definition py_add_number (v w : value) : res value :=
  match as_number v, as_number w with
  | Some p, Some q =>
      Ok (match v, w with
          | VFloat _, _ | _, VFloat _ => VFloat (p + q)
          | _, _ => VInt (Qnum p + Qnum q)
          end)
  | _, _ => Raise (Exn TypeError ("unsupported operand type(s) for +: '" +:+ type_name v
                                  +:+ "' and '" +:+ type_name w +:+ "'"))
  end.
(** [entry.delta_value or 0] *)
Definition delta_or_zero (d : option Q) : value :=
  match d with
  | Some q => if truthy (VFloat q) then VFloat q else VInt 0
  | None => VInt 0
  end.
Definition replay_entry (e : LedgerEntry) (state : dict (dict value)) : res (dict (dict value)) :=
  let k := full_key (le_type e) (le_key e) in
  match op e with
  | OpUpsert => Ok (dset k (after e) state)
  | OpDelta =>
      let current := default [] (dget k state) in
      let f := default "" (delta_field e) in
      v ← py_add_number (default (VInt 0) (dget f current)) (delta_or_zero (delta_value e));
      Ok (dset k (dset f v current) state)
  end.
Fixpoint replay_loop (l : list LedgerEntry) (state : dict (dict value)) : res (dict (dict value)) :=
  match l with
  | [] => Ok state
  | e :: l' => state' ← replay_entry e state; replay_loop l' state'
  end.
Definition replay (s : RecordStore) : res (dict (dict value)) := replay_loop (_ledger s) [].

(** ** Tool handlers *)

Record records_device := mkRecords { store : RecordStore; tx : option TransactionBuffer }.

Definition not_registered (name ty : string) (cx : ToolContext) : ToolResult :=
  tool_fail name cx ("record type '" +:+ ty +:+ "' not registered") "SCHEMA_NOT_REGISTERED" false.
Definition staged_ok (name : string) (cx : ToolContext) : ToolResult :=
  tool_ok name cx (VDict [("staged", VBool true)]).

Definition handle_record_upsert (cx : ToolContext) (ty key : string) (r : option (dict value))
    (d : records_device) : ToolResult * records_device :=
  if negb (nonempty ty) || negb (nonempty key)
  then (tool_fail "record_upsert" cx "record_upsert requires 'record_type' and 'key'"
          "INVALID_ARGUMENT" false, d)
  else if negb (has_schema ty (store d)) then (not_registered "record_upsert" ty cx, d)
  else (staged_ok "record_upsert" cx,
        mkRecords (store d)
          ((λ b, (stage RECORD_UPSERT (cx_agent cx) (full_key ty key)
                    [("record_type", VStr ty); ("key", VStr key);
                     ("record", VDict (default [] r))] None None "" "per_effect" b).2) <$> tx d)).

Definition handle_record_delta (cx : ToolContext) (ty key field : string) (delta : Q)
    (d : records_device) : ToolResult * records_device :=
  if negb (nonempty ty) || negb (nonempty key) || negb (nonempty field)
  then (tool_fail "record_delta" cx "record_delta requires 'record_type', 'key' and 'field'"
          "INVALID_ARGUMENT" false, d)
  else if negb (has_schema ty (store d)) then (not_registered "record_delta" ty cx, d)
  else (staged_ok "record_delta" cx,
        mkRecords (store d)
          ((λ b, (stage RECORD_DELTA (cx_agent cx) (full_key ty key)
                    [("record_type", VStr ty); ("key", VStr key); ("field", VStr field);
                     ("delta", VFloat delta)] None None "" "per_effect" b).2) <$> tx d)).

(** ** The commit of a tick, for record effects

    [committed] holds the effects the buffer committed, [applied] the places of those that were
    applied, in order.  [invert_data] carries what the undo of an effect needs. *)

Definition set_invert (d : dict value) (e : StagedEffect) : StagedEffect :=
  mkEffect (effect_id e) (effect_type e) (agent_id e) (resource e) (data e) (expected_version e)
    (lock_token e) (status e) (error e) (side_effect e) (group_id e) (atomicity e) d.

Definition text_or (d : string) (v : option value) : string :=
  match v with Some (VStr s) => s | _ => d end.
Definition dict_or_empty (v : option value) : dict value :=
  match v with Some (VDict d) => d | _ => [] end.
Definition number_or_zero (v : option value) : Q :=
  match v with Some v => default 0%Q (as_number v) | None => 0%Q end.
Definition ids_of (v : option value) : list N :=
  match v with
  | Some (VList l) => omap (λ v, match v with VInt z => Some (Z.to_N z) | _ => None end) l
  | _ => []
  end.

Definition effect_record_type (e : StagedEffect) : string := text_or "" (dget "record_type" (data e)).
Definition effect_key (e : StagedEffect) : string := text_or (resource e) (dget "key" (data e)).

(** The body of the branch for record effects before and in its [try]. *)
Definition capture (s : RecordStore) (e : StagedEffect) : StagedEffect :=
  set_invert
    (dset "record_before"
       (match get (effect_record_type e) (effect_key e) s with
        | Some r => VDict r | None => VNone end)
       (dset "record_key" (VStr (effect_key e))
          (dset "record_type" (VStr (effect_record_type e)) (invert_data e)))) e.
Definition mutate (tick : Z) (e : StagedEffect) (s : RecordStore) :
    (rec_error + MutationResult) * RecordStore :=
  if bool_decide (effect_type e = RECORD_UPSERT)
  then upsert (effect_record_type e) (effect_key e) (dict_or_empty (dget "record" (data e)))
         (agent_id e) tick s
  else apply_delta (effect_record_type e) (effect_key e) (text_or "" (dget "field" (data e)))
         (number_or_zero (dget "delta" (data e))) (agent_id e) tick s.
Definition keep_ids (r : MutationResult) (e : StagedEffect) : StagedEffect :=
  set_invert (dset "ledger_ids" (VList (map (λ n, VInt (Z.of_N n)) (ledger_ids r))) (invert_data e)) e.

(** [_invert_one]: a missing entry of [invert_data] is a [KeyError], which is swallowed. *)
Definition _invert_one (e : StagedEffect) (s : RecordStore) : RecordStore :=
  match dget "record_type" (invert_data e), dget "record_key" (invert_data e) with
  | Some (VStr ty), Some (VStr key) =>
      invert_mutation ty key
        (match dget "record_before" (invert_data e) with Some (VDict r) => Some r | _ => None end)
        (ids_of (dget "ledger_ids" (invert_data e))) s
  | _, _ => s
  end.

Record commit_state := mkCommit {
  cstore : RecordStore; committed : list StagedEffect; applied : list nat }.

(** One member of the loop of [_fail_locally] over the committed effects. *)
Definition fail_member (i : nat) (group : string) (w : commit_state) (j : nat) : commit_state :=
  match committed w !! j with
  | Some m =>
      if bool_decide (j = i) || negb (bool_decide (group_id m = group)) then w
      else mkCommit (if has_status COMMITTED m then _invert_one m (cstore w) else cstore w)
             (<[j := fail ("group member failed (group " +:+ group +:+ ")") m]> (committed w))
             (applied w)
  | None => w
  end.
Definition _fail_locally (i : nat) (msg : string) (w : commit_state) : commit_state :=
  match committed w !! i with
  | Some e =>
      let w := mkCommit (cstore w) (<[i := fail msg e]> (committed w)) (applied w) in
      if nonempty (group_id e) && bool_decide (atomicity e = "group")
      then foldl (fail_member i (group_id e)) w (seq 0 (length (committed w)))
      else w
  | None => w
  end.

Definition apply_effect (tick : Z) (w : commit_state) (i : nat) : commit_state :=
  match committed w !! i with
  | Some e =>
      if has_status COMMITTED e then
        let e := capture (cstore w) e in
        match mutate tick e (cstore w) with
        | (inl err, s) =>
            _fail_locally i (e_message err) (mkCommit s (<[i := e]> (committed w)) (applied w))
        | (inr r, s) => mkCommit s (<[i := keep_ids r e]> (committed w)) (applied w ++ [i])%list
        end
      else w
  | None => w
  end.
(** The loop over the first [n] committed effects: all of them, or those before the one whose
    application raises. *)
Definition apply_committed (tick : Z) (n : nat) (w : commit_state) : commit_state :=
  foldl (apply_effect tick) w (seq 0 n).

Definition set_rolled_back (l : list StagedEffect) (i : nat) : list StagedEffect :=
  alter (λ e, with_status ROLLED_BACK (error e) e) i l.
(** [_rollback]: the applied effects are inverted in reverse order. *)
Definition _rollback (w : commit_state) : commit_state :=
  mkCommit
    (foldl (λ s i, match committed w !! i with Some e => _invert_one e s | None => s end)
       (cstore w) (rev (applied w)))
    (foldl set_rolled_back (committed w) (applied w)) (applied w).

(** A tick in which every effect is tried, and one in which an exception of the kernel, with the
    text [msg], ends the loop at the effect numbered [n]: that effect is the one marked [FAILED]. *)
Definition commit_tick (tick : Z) (l : list StagedEffect) (s : RecordStore) : commit_state :=
  apply_committed tick (length l) (mkCommit s l []).
Definition failed_tick (tick : Z) (n : nat) (msg : string) (l : list StagedEffect) (s : RecordStore) :
    commit_state :=
  let w := _rollback (apply_committed tick n (mkCommit s l [])) in
  mkCommit (cstore w)
    (alter (fail msg) n
       (map (λ e, if has_status COMMITTED e then with_status ROLLED_BACK (error e) e else e) (committed w)))
    (applied w).

(** ** What an undo does *)

Record undo := Undo {
  u_type : string; u_key : string; u_before : option (dict value); u_ids : list N }.
Definition undo_of (e : StagedEffect) : option undo :=
  match dget "record_type" (invert_data e), dget "record_key" (invert_data e) with
  | Some (VStr ty), Some (VStr key) =>
      Some (Undo ty key (match dget "record_before" (invert_data e) with
                         | Some (VDict r) => Some r | _ => None end)
              (ids_of (dget "ledger_ids" (invert_data e))))
  | _, _ => None
  end.
Definition undo_key (u : undo) : string := full_key (u_type u) (u_key u).
Definition run_undo (s : RecordStore) (u : undo) : RecordStore :=
  invert_mutation (u_type u) (u_key u) (u_before u) (u_ids u) s.
Definition without (ids : list N) (l : list LedgerEntry) : list LedgerEntry :=
  List.filter (λ e, negb (bool_decide (ledger_id e ∈ ids))) l.

Lemma invert_one_undo e s :
  _invert_one e s = match undo_of e with Some u => run_undo s u | None => s end.
Proof.
  unfold _invert_one, undo_of.
  destruct (dget "record_type" _) as [[]|]; try done.
  by destruct (dget "record_key" _) as [[]|].
Qed.
Lemma run_undo_records s u k :
  dget k (_records (run_undo s u)) =
    if decide (k = undo_key u) then u_before u else dget k (_records s).
Proof.
  unfold run_undo, invert_mutation, undo_key.
  destruct (u_before u); simpl; [apply dget_dset|apply dget_dpop].
Qed.
Lemma run_undo_ledger s u : _ledger (run_undo s u) = without (u_ids u) (_ledger s).
Proof. unfold run_undo, invert_mutation. by destruct (u_before u). Qed.
Lemma run_undo_counter s u : _ledger_counter (run_undo s u) = _ledger_counter s.
Proof. unfold run_undo, invert_mutation. by destruct (u_before u). Qed.
Lemma run_undo_schemas s u : _schemas (run_undo s u) = _schemas s.
Proof. unfold run_undo, invert_mutation. by destruct (u_before u). Qed.

Lemma elem_ledger_without x ids l : x ∈ without ids l ↔ x ∈ l ∧ ledger_id x ∉ ids.
Proof.
  unfold without. rewrite list_elem_of_In, filter_In, negb_true_iff, bool_decide_eq_false.
  by rewrite <-list_elem_of_In.
Qed.
Lemma without_app ids l l' : without ids (l ++ l') = (without ids l ++ without ids l')%list.
Proof. apply List.filter_app. Qed.
Lemma without_none ids l : (∀ x, x ∈ l → ledger_id x ∉ ids) → without ids l = l.
Proof.
  induction l as [|x l IH]; [done|]. intros H. unfold without. cbn [List.filter].
  rewrite bool_decide_eq_false_2 by (apply H; left). simpl. f_equal. apply IH.
  intros y Hy. apply H. by right.
Qed.
Lemma without_without ids ids' l : without ids (without ids' l) = without (ids' ++ ids) l.
Proof.
  induction l as [|x l IH]; [done|]. unfold without in *. cbn [List.filter].
  destruct (decide (ledger_id x ∈ ids')) as [H|H].
  - rewrite (bool_decide_eq_true_2 _ H), (bool_decide_eq_true_2 (_ ∈ (_ ++ _)%list)) by set_solver.
    apply IH.
  - rewrite (bool_decide_eq_false_2 _ H). cbn [negb List.filter].
    destruct (decide (ledger_id x ∈ ids)) as [H'|H'].
    + rewrite (bool_decide_eq_true_2 _ H'), (bool_decide_eq_true_2 (_ ∈ (_ ++ _)%list)) by set_solver.
      apply IH.
    + rewrite (bool_decide_eq_false_2 _ H'), (bool_decide_eq_false_2 (_ ∈ (_ ++ _)%list)) by set_solver.
      simpl. by rewrite IH.
Qed.
Lemma without_subset ids ids' l : ids' ⊆ ids → without ids (without ids' l) = without ids l.
Proof.
  intros H. rewrite without_without. unfold without. apply List.filter_ext. intros x.
  f_equal. apply bool_decide_ext. set_solver.
Qed.

Lemma without_one ids ids' x :
  ledger_id x ∈ ids → without ids (without ids' [x]) = [].
Proof.
  intros H. rewrite without_without. unfold without. cbn [List.filter].
  by rewrite bool_decide_eq_true_2 by set_solver.
Qed.

(** The value the first of the undos of a key restores, which is the last one to run. *)
Definition first_before (k : string) (us : list undo) : option (option (dict value)) :=
  u_before <$> List.find (λ u, bool_decide (k = undo_key u)) us.
Lemma run_undos_records k us s :
  dget k (_records (foldl run_undo s (rev us))) =
    match first_before k us with Some b => b | None => dget k (_records s) end.
Proof.
  unfold first_before. induction us as [|u us IH]; [done|]. simpl. rewrite foldl_snoc.
  rewrite run_undo_records. destruct (decide (k = undo_key u)) as [H|H].
  - by rewrite bool_decide_eq_true_2.
  - by rewrite bool_decide_eq_false_2.
Qed.
Lemma run_undos_ledger us s :
  _ledger (foldl run_undo s (rev us)) = without (flat_map u_ids us) (_ledger s).
Proof.
  induction us as [|u us IH]; simpl.
  - symmetry. apply without_none. set_solver.
  - rewrite foldl_snoc, run_undo_ledger, IH, without_without. unfold without.
    apply List.filter_ext. intros x. f_equal. apply bool_decide_ext. set_solver.
Qed.
Lemma run_undos_schemas us s : _schemas (foldl run_undo s us) = _schemas s.
Proof. revert s. induction us as [|u us IH]; intros s; simpl; [done|]. by rewrite IH, run_undo_schemas. Qed.
Lemma run_undos_counter us s : _ledger_counter (foldl run_undo s us) = _ledger_counter s.
Proof. revert s. induction us as [|u us IH]; intros s; simpl; [done|]. by rewrite IH, run_undo_counter. Qed.

(** ** What a mutation does *)

(** A mutation that succeeds: the entry it appends. *)
Record mutated (s s' : RecordStore) (x : LedgerEntry) : Prop := {
  mut_schemas : _schemas s' = _schemas s;
  mut_records : _records s' = dset (full_key (le_type x) (le_key x)) (after x) (_records s);
  mut_ledger : _ledger s' = (_ledger s ++ [x])%list;
  mut_counter : _ledger_counter s' = N.succ (_ledger_counter s);
  mut_id : ledger_id x = N.succ (_ledger_counter s);
  mut_rules : ∃ sc, dget (le_type x) (_schemas s) = Some sc ∧
                    ∀ r, r ∈ invariants sc → rule_ok r (after x) = true;
  mut_entry : op x = OpUpsert ∨
    op x = OpDelta ∧ ∃ prior sc f q v d,
      dget (le_type x) (_schemas s) = Some sc ∧
      prior = default (defaults sc) (get (le_type x) (le_key x) s) ∧
      before x = Some prior ∧ after x = dset f v prior ∧
      delta_field x = Some f ∧ delta_value x = Some d ∧
      as_number (default (VInt 0) (dget f prior)) = Some q ∧ v = VFloat (q + d) }.

Lemma first_error_None {A} (f : A → option rec_error) l x :
  first_error f l = None → x ∈ l → f x = None.
Proof.
  induction l as [|y l IH]; simpl; [set_solver|].
  destruct (f y) eqn:E; [done|]. intros H [->|Hx]%elem_of_cons; auto.
Qed.
Lemma check_rule ty key d r : check ty key d r = None → rule_ok r d = true.
Proof. unfold check. by destruct (rule_ok r d). Qed.

Lemma upsert_cases ty key d agent tick s :
  (∃ e, upsert ty key d agent tick s = (inl e, s)) ∨
  ∃ r s' x, upsert ty key d agent tick s = (inr r, s') ∧ mutated s s' x ∧
    le_type x = ty ∧ le_key x = key ∧ op x = OpUpsert ∧ after x = d ∧
    ledger_ids r = [ledger_id x].
Proof.
  unfold upsert, schema.
  destruct (dget ty (_schemas s)) as [sc|] eqn:Esc; [|left; eauto].
  destruct (validate_record sc key d); [left; eauto|].
  destruct (first_error (check_unique _ _ _ _) _); [left; eauto|].
  destruct (first_error (check ty key d) _) eqn:Er; [left; eauto|].
  right. unfold store_record.
  eexists _, _, (Entry (N.succ (_ledger_counter s)) tick agent ty key OpUpsert (get ty key s) d
                   None None).
  split; [reflexivity|].
  split; [|split_and!; done].
  constructor; try done; [|by left]. exists sc. split; [done|].
  intros r Hr. apply (check_rule ty key). by apply (first_error_None _ _ _ Er).
Qed.
Lemma delta_cases ty key f d agent tick s :
  (∃ e, apply_delta ty key f d agent tick s = (inl e, s)) ∨
  ∃ r s' x, apply_delta ty key f d agent tick s = (inr r, s') ∧ mutated s s' x ∧
    le_type x = ty ∧ le_key x = key ∧ op x = OpDelta ∧ ledger_ids r = [ledger_id x].
Proof.
  unfold apply_delta, schema.
  destruct (dget ty (_schemas s)) as [sc|] eqn:Esc; [|left; eauto].
  set (prior := default (defaults sc) (get ty key s)).
  destruct (as_number (default (VInt 0) (dget f prior))) as [q|] eqn:Eq; [|left; eauto].
  destruct (first_error _ _) eqn:Er; [left; eauto|].
  right. unfold store_record.
  eexists _, _, (Entry (N.succ (_ledger_counter s)) tick agent ty key OpDelta (Some prior)
                   (dset f (VFloat (q + d)) prior) (Some f) (Some d)).
  split; [reflexivity|].
  split; [|split_and!; done].
  constructor; try done.
  - exists sc. split; [done|].
    intros r Hr. apply (check_rule ty key). by apply (first_error_None _ _ _ Er).
  - right. split; [done|]. exists prior, sc, f, q, (VFloat (q + d)), d. by split_and!.
Qed.
Lemma mutate_cases tick e s :
  (∃ err, mutate tick e s = (inl err, s)) ∨
  ∃ r s' x, mutate tick e s = (inr r, s') ∧ mutated s s' x ∧
    le_type x = effect_record_type e ∧ le_key x = effect_key e ∧
    (op x = OpDelta → effect_type e ≠ RECORD_UPSERT) ∧ ledger_ids r = [ledger_id x].
Proof.
  unfold mutate. case_bool_decide as Ht.
  - destruct (upsert_cases (effect_record_type e) (effect_key e)
                (dict_or_empty (dget "record" (data e))) (agent_id e) tick s)
      as [?|(r & s' & x & ? & ? & ? & ? & Ho & ? & ?)]; [by left|right].
    exists r, s', x. split_and!; try done. by rewrite Ho.
  - destruct (delta_cases (effect_record_type e) (effect_key e) (text_or "" (dget "field" (data e)))
                (number_or_zero (dget "delta" (data e))) (agent_id e) tick s)
      as [?|(r & s' & x & ? & ? & ? & ? & ? & ?)]; [by left|right].
    exists r, s', x. by split_and!.
Qed.

(** ** The loop of the commit and its rollback *)

Definition undos (l : list StagedEffect) (ap : list nat) : list undo :=
  omap (λ i, l !! i ≫= undo_of) ap.
Definition world_undos (w : commit_state) : list undo := undos (committed w) (applied w).

Lemma undos_ext l l' ap :
  (∀ i, i ∈ ap → l !! i ≫= undo_of = l' !! i ≫= undo_of) → undos l ap = undos l' ap.
Proof.
  intros H. induction ap as [|i ap IH]; [done|]. unfold undos in *. cbn [omap list_omap].
  rewrite (H i) by left. rewrite IH; [done|]. intros j Hj. apply H. by right.
Qed.
Lemma undos_insert l ap i e :
  i ∉ ap → undos (<[i := e]> l) ap = undos l ap.
Proof.
  intros Hi. apply undos_ext. intros j Hj. rewrite list_lookup_insert_ne; [done|].
  by intros ->.
Qed.
Lemma undos_fail l ap i e msg :
  l !! i = Some e → undos (<[i := fail msg e]> l) ap = undos l ap.
Proof.
  intros Hl. apply undos_ext. intros j _. destruct (decide (i = j)) as [<-|].
  - rewrite list_lookup_insert_eq by (by eapply lookup_lt_Some). by rewrite Hl.
  - by rewrite list_lookup_insert_ne.
Qed.
Lemma elem_undos l ap i e u : i ∈ ap → l !! i = Some e → undo_of e = Some u → u ∈ undos l ap.
Proof.
  intros Hi Hl Hu. unfold undos. apply list_elem_of_omap. exists i. split; [done|].
  by rewrite Hl.
Qed.
Lemma ids_of_map l : ids_of (Some (VList (map (λ n, VInt (Z.of_N n)) l))) = l.
Proof.
  unfold ids_of. induction l as [|n l IH]; [done|]. csimpl. rewrite N2Z.id. by f_equal.
Qed.
Ltac decide_strings :=
  repeat match goal with
  | |- context [decide (?a = ?b :> string)] =>
      first [rewrite (decide_True (P := a = b)) by reflexivity
            |rewrite (decide_False (P := a = b)) by discriminate]
  end.
Lemma undo_of_captured s e :
  undo_of (capture s e) =
    Some (Undo (effect_record_type e) (effect_key e)
            (get (effect_record_type e) (effect_key e) s)
            (ids_of (dget "ledger_ids" (invert_data e)))).
Proof.
  unfold undo_of, capture, set_invert. cbn [invert_data data resource].
  rewrite !dget_dset. decide_strings. by destruct (get _ _ s).
Qed.
Lemma undo_of_kept e r :
  undo_of (keep_ids r e) =
    (λ u, Undo (u_type u) (u_key u) (u_before u) (ledger_ids r)) <$> undo_of e.
Proof.
  unfold undo_of, keep_ids, set_invert. cbn [invert_data]. rewrite !dget_dset. decide_strings.
  rewrite ids_of_map.
  destruct (dget "record_type" _) as [[]|]; try done.
  by destruct (dget "record_key" _) as [[]|].
Qed.

(** What holds of a tick in progress: undoing what was applied gives back the store [s0]. *)
Record undoable (s0 : RecordStore) (n : nat) (w : commit_state) : Prop := {
  ub_schemas : _schemas (cstore w) = _schemas s0;
  ub_counter : (_ledger_counter s0 ≤ _ledger_counter (cstore w))%N;
  ub_ids : ∀ x, x ∈ _ledger (cstore w) → (ledger_id x ≤ _ledger_counter (cstore w))%N;
  ub_ledger : without (flat_map u_ids (world_undos w)) (_ledger (cstore w)) = _ledger s0;
  ub_records : ∀ k,
    match first_before k (world_undos w) with
    | Some b => b = dget k (_records s0)
    | None => dget k (_records (cstore w)) = dget k (_records s0)
    end;
  ub_applied : ∀ i, i ∈ applied w → i < n;
  ub_fresh : ∀ j e, committed w !! j = Some e → status e = COMMITTED →
               j ∈ applied w ∨ invert_data e = [] }.

Lemma first_before_None k us u : first_before k us = None → u ∈ us → k ≠ undo_key u.
Proof.
  unfold first_before. rewrite fmap_None. intros Hf Hu ->.
  apply list_elem_of_In in Hu. eapply find_none in Hf; [|done].
  by rewrite bool_decide_eq_true_2 in Hf.
Qed.

Lemma undoable_mono s0 n n' w : n ≤ n' → undoable s0 n w → undoable s0 n' w.
Proof. intros Hn []. constructor; auto. intros i Hi. specialize (ub_applied0 i Hi). lia. Qed.

(** Undoing an applied effect, or changing the list without touching [invert_data]. *)
Lemma undoable_undo s0 n w u :
  undoable s0 n w → u ∈ world_undos w →
  undoable s0 n (mkCommit (run_undo (cstore w) u) (committed w) (applied w)).
Proof.
  intros [] Hu. constructor; unfold world_undos; cbn [cstore committed applied]; try done.
  - by rewrite run_undo_schemas.
  - by rewrite run_undo_counter.
  - intros x. rewrite run_undo_ledger, run_undo_counter, elem_ledger_without. naive_solver.
  - rewrite run_undo_ledger, without_subset; [done|].
    intros i Hi. apply list_elem_of_In, in_flat_map. exists u.
    by rewrite <-!list_elem_of_In.
  - intros k. specialize (ub_records0 k).
    change (undos (committed w) (applied w)) with (world_undos w).
    destruct (first_before k (world_undos w)) eqn:E; [done|].
    rewrite run_undo_records, decide_False; [done|]. by eapply first_before_None.
Qed.
Lemma undoable_fail s0 n w i e msg :
  undoable s0 n w → committed w !! i = Some e →
  undoable s0 n (mkCommit (cstore w) (<[i := fail msg e]> (committed w)) (applied w)).
Proof.
  intros [] Hi. constructor; unfold world_undos; cbn [cstore committed applied];
    rewrite ?undos_fail by done; try done.
  intros j e'. destruct (decide (i = j)) as [<-|].
  - rewrite list_lookup_insert_eq by (by eapply lookup_lt_Some). intros [= <-]. done.
  - rewrite list_lookup_insert_ne by done. apply ub_fresh0.
Qed.
Lemma fail_member_undoable s0 n i g w j : undoable s0 n w → undoable s0 n (fail_member i g w j).
Proof.
  intros Hw. unfold fail_member. destruct (committed w !! j) as [m|] eqn:Hj; [|done].
  destruct (_ || _); [done|]. unfold has_status. case_bool_decide as Hs; [|by apply undoable_fail].
  rewrite invert_one_undo. destruct (undo_of m) as [u|] eqn:Hu; [|by apply undoable_fail].
  assert (j ∈ applied w) as Hap.
  { destruct (ub_fresh _ _ _ Hw j m Hj Hs) as [?|Hd]; [done|]. unfold undo_of in Hu.
    by rewrite Hd in Hu. }
  eapply (undoable_fail s0 n (mkCommit _ (committed w) (applied w))); [|done].
  apply undoable_undo; [done|]. by eapply elem_undos.
Qed.
Lemma fail_members_undoable s0 n i g js w :
  undoable s0 n w → undoable s0 n (foldl (fail_member i g) w js).
Proof.
  revert w. induction js as [|j js IH]; intros w Hw; simpl; [done|].
  apply IH. by apply fail_member_undoable.
Qed.

Lemma first_before_snoc k us u :
  first_before k (us ++ [u]) =
    match first_before k us with
    | Some b => Some b
    | None => if decide (k = undo_key u) then Some (u_before u) else None
    end.
Proof.
  unfold first_before. induction us as [|v us IH]; simpl.
  - destruct (decide (k = undo_key u)); [by rewrite bool_decide_eq_true_2|by rewrite bool_decide_eq_false_2].
  - case_bool_decide; [done|apply IH].
Qed.
Lemma world_undos_snoc s l ap i e u :
  l !! i = Some e → undo_of e = Some u → world_undos (mkCommit s l (ap ++ [i])) = (undos l ap ++ [u])%list.
Proof.
  intros Hl Hu. unfold world_undos, undos. cbn [committed applied].
  rewrite omap_app. f_equal. simpl. by rewrite Hl; simpl; rewrite Hu.
Qed.

Lemma apply_effect_undoable s0 tick n w :
  undoable s0 n w → undoable s0 (S n) (apply_effect tick w n).
Proof.
  intros Hw. apply (undoable_mono _ _ (S n)) in Hw as HS; [|lia].
  unfold apply_effect. destruct (committed w !! n) as [e|] eqn:Hn; [|done].
  unfold has_status. case_bool_decide as Hc; [|done].
  assert (n ∉ applied w) as Hna. { intros H. apply (ub_applied _ _ _ Hw) in H. lia. }
  destruct (ub_fresh _ _ _ Hw n e Hn Hc) as [?|Hd]; [done|].
  assert (n < length (committed w)) as Hlen by (by eapply lookup_lt_Some).
  destruct (mutate_cases tick (capture (cstore w) e) (cstore w))
    as [[err ->]|(r & s' & x & -> & Hx & Hty & Hkey & _ & Hids)].
  - unfold _fail_locally. cbn [committed cstore applied]. rewrite list_lookup_insert_eq by done.
    set (e' := capture (cstore w) e).
    assert (undoable s0 (S n)
              (mkCommit (cstore w) (<[n := fail (e_message err) e']> (committed w)) (applied w))) as Hf.
    { destruct HS. constructor; unfold world_undos; cbn [cstore committed applied];
        rewrite ?undos_insert by done; try done.
      intros j e''. destruct (decide (n = j)) as [<-|].
      - rewrite list_lookup_insert_eq by done. by intros [= <-].
      - rewrite list_lookup_insert_ne by done. apply ub_fresh0. }
    rewrite list_insert_insert_eq.
    destruct (_ && _); [|done]. by apply fail_members_undoable.
  - destruct Hx. destruct Hw.
    set (u := Undo (effect_record_type e) (effect_key e)
                (get (effect_record_type e) (effect_key e) (cstore w)) (ledger_ids r)).
    assert (undo_of (keep_ids r (capture (cstore w) e)) = Some u) as Hu
      by by rewrite undo_of_kept, undo_of_captured.
    assert (world_undos (mkCommit s' (<[n := keep_ids r (capture (cstore w) e)]> (committed w))
              (applied w ++ [n])) = (world_undos w ++ [u])%list) as HU.
    { erewrite world_undos_snoc; [|by apply list_lookup_insert_eq|done].
      by rewrite undos_insert. }
    constructor; rewrite ?HU; cbn [cstore committed applied].
    + congruence.
    + lia.
    + rewrite mut_ledger0, mut_counter0. intros y [Hy|Hy]%elem_of_app.
      * specialize (ub_ids0 y Hy). lia.
      * apply list_elem_of_singleton in Hy. subst y. lia.
    + rewrite mut_ledger0, flat_map_app, without_app. unfold u. cbn [flat_map u_ids].
      rewrite app_nil_r, Hids, <-!without_without, ub_ledger0.
      rewrite (without_one [ledger_id x]) by set_solver. rewrite app_nil_r.
      apply without_none. intros y Hy. rewrite <-ub_ledger0 in Hy.
      apply elem_ledger_without in Hy as [Hy _]. specialize (ub_ids0 y Hy).
      rewrite list_elem_of_singleton. lia.
    + intros k. specialize (ub_records0 k). rewrite first_before_snoc, mut_records0, dget_dset.
      rewrite Hty, Hkey. change (undo_key u) with (full_key (effect_record_type e) (effect_key e)).
      destruct (first_before k (world_undos w)); [done|]. destruct (decide _) as [->|]; done.
    + intros i [Hi|Hi%list_elem_of_singleton]%elem_of_app; [|lia]. specialize (ub_applied0 i Hi). lia.
    + intros j e'. destruct (decide (n = j)) as [<-|].
      * intros _ _. left. set_solver.
      * rewrite list_lookup_insert_ne by done. intros Hj Hs.
        destruct (ub_fresh0 j e' Hj Hs); [left; set_solver|by right].
Qed.

Definition fresh_effects (l : list StagedEffect) : Prop := Forall (λ e, invert_data e = []) l.
Definition ids_bounded (s : RecordStore) : Prop :=
  ∀ x, x ∈ _ledger s → (ledger_id x ≤ _ledger_counter s)%N.

Lemma apply_committed_undoable tick n l s :
  ids_bounded s → fresh_effects l → undoable s n (apply_committed tick n (mkCommit s l [])).
Proof.
  intros Hs Hl. unfold apply_committed. induction n as [|n IH].
  - constructor; unfold world_undos, undos; cbn; try done.
    + apply without_none. set_solver.
    + set_solver.
    + intros j e Hj _. right. by eapply (Forall_lookup_1 _ _ _ _ Hl).
  - rewrite seq_S, foldl_snoc. by apply apply_effect_undoable.
Qed.

Lemma rollback_undos w :
  cstore (_rollback w) = foldl run_undo (cstore w) (rev (world_undos w)).
Proof.
  unfold _rollback, world_undos. cbn [cstore]. destruct w as [s l ap]. cbn [committed applied cstore].
  induction ap as [|i ap IH]; [done|]. simpl. rewrite foldl_snoc, IH. unfold undos.
  destruct (l !! i) as [e|] eqn:Hi; simpl; [|done]. rewrite invert_one_undo.
  destruct (undo_of e) as [u|]; simpl; [|done]. by rewrite foldl_snoc.
Qed.

Lemma failed_tick_restores tick n msg l s :
  ids_bounded s → fresh_effects l →
  let s' := cstore (failed_tick tick n msg l s) in
  _ledger s' = _ledger s ∧ (∀ k, dget k (_records s') = dget k (_records s)) ∧
  _schemas s' = _schemas s ∧ ids_bounded s'.
Proof.
  intros Hs Hl. pose proof (apply_committed_undoable tick n l s Hs Hl) as [].
  unfold failed_tick. set (w := apply_committed tick n (mkCommit s l [])) in *.
  cbn [cstore]. rewrite rollback_undos. split_and!.
  - by rewrite run_undos_ledger.
  - intros k. rewrite run_undos_records.
    specialize (ub_records0 k). by destruct (first_before _ _).
  - by rewrite run_undos_schemas.
  - intros x. rewrite run_undos_ledger, elem_ledger_without, run_undos_counter. naive_solver.
Qed.

(** C32: Rolling a tick back gives back every record and the ledger, entry by entry, wherever the
    loop stopped and whatever effects and groups had failed before; no effect of the tick stays
    committed, and the one at which the loop stopped is failed with the exception's text. *)
Theorem rollback_restores_records tick n msg l s :
  ids_bounded s → fresh_effects l →
  let s' := cstore (failed_tick tick n msg l s) in
  _ledger s' = _ledger s ∧
  (∀ ty key, get ty key s' = get ty key s) ∧
  _schemas s' = _schemas s ∧
  (∀ e, e ∈ committed (failed_tick tick n msg l s) → status e ≠ COMMITTED) ∧
  ∀ e, committed (failed_tick tick n msg l s) !! n = Some e → status e = FAILED ∧ error e = Some msg.
Proof.
  intros Hs Hl. destruct (failed_tick_restores tick n msg l s Hs Hl) as (? & Hr & ? & _).
  split_and!; [done| |done| |].
  - intros ty key. apply Hr.
  - unfold failed_tick. cbn [committed]. intros e (i & He)%list_elem_of_lookup.
    destruct (decide (i = n)) as [->|Hi].
    + rewrite list_lookup_alter_eq in He. by apply fmap_Some in He as (x & _ & ->).
    + rewrite list_lookup_alter_ne, list_lookup_fmap in He by done.
      apply fmap_Some in He as (x & _ & ->). unfold has_status. by case_bool_decide.
  - unfold failed_tick. cbn [committed]. intros e. rewrite list_lookup_alter_eq.
    by intros (x & _ & ->)%fmap_Some.
Qed.

(** ** Histories of the store *)

Inductive event :=
| Register (sc : RecordSchema)
| Tick (tick : Z) (l : list StagedEffect) (stop : option (nat * string)).
Definition step_event (s : RecordStore) (ev : event) : RecordStore :=
  match ev with
  | Register sc => (register_schema sc s).2
  | Tick t l None => cstore (commit_tick t l s)
  | Tick t l (Some (n, msg)) => cstore (failed_tick t n msg l s)
  end.
Definition run_events (evs : list event) : RecordStore := foldl step_event RecordStore_init evs.
Definition fresh_event (ev : event) : Prop :=
  match ev with Register _ => True | Tick _ l _ => fresh_effects l end.

Lemma ids_bounded_event s ev : fresh_event ev → ids_bounded s → ids_bounded (step_event s ev).
Proof.
  intros Hf Hs. destruct ev as [sc|t l [[n msg]|]]; cbn [step_event fresh_event] in *.
  - unfold register_schema. by destruct (dmem _ _).
  - by destruct (failed_tick_restores t n msg l s Hs Hf) as (_ & _ & _ & ?).
  - by destruct (apply_committed_undoable t (length l) l s Hs Hf).
Qed.
Lemma run_events_ind (P : RecordStore → Prop) evs :
  P RecordStore_init →
  (∀ s ev, fresh_event ev → ids_bounded s → P s → P (step_event s ev)) →
  Forall fresh_event evs → ids_bounded (run_events evs) ∧ P (run_events evs).
Proof.
  intros Hi Hstep. unfold run_events. induction evs as [|ev evs IH] using rev_ind; intros Hf.
  - split; [|done]. by intros x ?%elem_of_nil.
  - apply Forall_app in Hf as [Hf [Hev _]%Forall_cons]. rewrite foldl_snoc.
    destruct (IH Hf) as [Hb HP]. split; [by apply ids_bounded_event|by apply Hstep].
Qed.

(** *** The rules of the schemas *)

(** The record is stored under a registered type and obeys its rules. *)
Definition lawful (s : RecordStore) (k : string) (r : dict value) : Prop :=
  ∃ ty key sc, k = full_key ty key ∧ dget ty (_schemas s) = Some sc ∧
    ∀ rule, rule ∈ invariants sc → rule_ok rule r = true.
Definition all_lawful (s : RecordStore) : Prop :=
  ∀ k r, dget k (_records s) = Some r → lawful s k r.
Definition undo_lawful (s : RecordStore) (e : StagedEffect) : Prop :=
  ∀ u r, undo_of e = Some u → u_before u = Some r → lawful s (undo_key u) r.

Lemma lawful_schemas s s' k r : _schemas s = _schemas s' → lawful s k r → lawful s' k r.
Proof. unfold lawful. intros ->. done. Qed.
Lemma all_lawful_undo s u :
  (∀ r, u_before u = Some r → lawful s (undo_key u) r) → all_lawful s → all_lawful (run_undo s u).
Proof.
  intros Hu Hs k r. rewrite run_undo_records. intros Hk.
  apply (lawful_schemas s); [by rewrite run_undo_schemas|].
  destruct (decide _) as [->|]; auto.
Qed.
Lemma all_lawful_mutated s s' x : mutated s s' x → all_lawful s → all_lawful s'.
Proof.
  intros [] Hs k r. rewrite mut_records0, dget_dset. intros Hk.
  apply (lawful_schemas s); [done|]. destruct (decide _) as [->|]; [|auto]. simplify_eq.
  destruct mut_rules0 as (sc & ? & ?). by exists (le_type x), (le_key x), sc.
Qed.

(** The whole of a tick in progress. *)
Definition world_lawful (w : commit_state) : Prop :=
  all_lawful (cstore w) ∧ ∀ i e, committed w !! i = Some e → undo_lawful (cstore w) e.

Lemma world_lawful_invert w e s ap l :
  world_lawful w → undo_lawful (cstore w) e → s = _invert_one e (cstore w) →
  l = committed w → world_lawful (mkCommit s l ap).
Proof.
  intros [Hs Hl] He -> ->. rewrite invert_one_undo.
  destruct (undo_of e) as [u|] eqn:Hu; [|done]. split; cbn [cstore committed].
  - apply all_lawful_undo; [|done]. intros r Hr. by apply He.
  - intros i e' Hi u' r Hu' Hr. apply (lawful_schemas (cstore w)); [by rewrite run_undo_schemas|].
    by eapply Hl.
Qed.
Lemma world_lawful_insert s l ap i e :
  world_lawful (mkCommit s l ap) → undo_lawful s e → world_lawful (mkCommit s (<[i := e]> l) ap).
Proof.
  intros [Hs Hl] He. split; [done|]. cbn [cstore committed]. intros j e'.
  intros [(_ & <- & _)|[_ Hj]]%list_lookup_insert_Some; [done|]. by apply Hl in Hj.
Qed.
Lemma world_lawful_lookup w i e :
  world_lawful w → committed w !! i = Some e → undo_lawful (cstore w) e.
Proof. intros [_ Hl] Hi. by eapply Hl. Qed.
Lemma world_lawful_member i g w j : world_lawful w → world_lawful (fail_member i g w j).
Proof.
  intros Hw. unfold fail_member. destruct (committed w !! j) as [m|] eqn:Hj; [|done].
  destruct (_ || _); [done|]. pose proof (world_lawful_lookup _ _ _ Hw Hj) as Hm.
  destruct (has_status COMMITTED m).
  - pose proof (world_lawful_invert w m _ (applied w) _ Hw Hm eq_refl eq_refl) as Hw'.
    apply world_lawful_insert; [done|]. exact (world_lawful_lookup _ _ _ Hw' Hj).
  - apply world_lawful_insert; [by destruct w|exact Hm].
Qed.
Lemma world_lawful_members i g js w :
  world_lawful w → world_lawful (foldl (fail_member i g) w js).
Proof.
  revert w. induction js as [|j js IH]; intros w Hw; simpl; [done|].
  by apply IH, world_lawful_member.
Qed.
Lemma world_lawful_fail w i msg : world_lawful w → world_lawful (_fail_locally i msg w).
Proof.
  intros Hw. unfold _fail_locally. destruct (committed w !! i) as [e|] eqn:Hi; [|done].
  pose proof (world_lawful_lookup _ _ _ Hw Hi) as He.
  destruct w as [s l ap]. cbn [cstore committed applied] in *.
  apply (world_lawful_insert _ _ _ i (fail msg e)) in Hw; [|exact He].
  destruct (_ && _); [|done]. by apply world_lawful_members.
Qed.
Lemma undo_lawful_capture s e : all_lawful s → undo_lawful s (capture s e).
Proof.
  intros Hs u r Hu. rewrite undo_of_captured in Hu. injection Hu as <-. intros Hr. by apply Hs.
Qed.
Lemma undo_lawful_kept s e r : undo_lawful s e → undo_lawful s (keep_ids r e).
Proof.
  intros He u d Hu. rewrite undo_of_kept in Hu.
  apply fmap_Some in Hu as (u' & Hu' & ->). by apply (He u').
Qed.

Lemma world_lawful_effect t w i : world_lawful w → world_lawful (apply_effect t w i).
Proof.
  intros Hw. unfold apply_effect. destruct (committed w !! i) as [e|] eqn:Hi; [|done].
  destruct (has_status _ _); [|done]. destruct w as [s l ap]. cbn [cstore committed applied] in *.
  assert (undo_lawful s (capture s e)) as Hc by apply undo_lawful_capture, Hw.
  destruct (mutate_cases t (capture s e) s) as [[err ->]|(r & s' & x & -> & Hx & _)].
  - by apply world_lawful_fail, world_lawful_insert.
  - apply (undo_lawful_kept _ _ r) in Hc. pose proof (mut_schemas _ _ _ Hx) as Hsc.
    assert (world_lawful (mkCommit s' l (ap ++ [i]))) as Hw'.
    { destruct Hw as [Hs Hl]. split; [by eapply all_lawful_mutated|].
      intros j e' Hj u' d Hu' Hd. apply (lawful_schemas s); [done|]. by eapply Hl. }
    apply world_lawful_insert; [done|]. intros u' d Hu' Hd. apply (lawful_schemas s); [done|].
    by eapply Hc.
Qed.
Lemma world_lawful_committed t n l s :
  all_lawful s → fresh_effects l → world_lawful (apply_committed t n (mkCommit s l [])).
Proof.
  intros Hs Hl. unfold apply_committed. generalize (seq 0 n). intros ks.
  assert (world_lawful (mkCommit s l [])) as Hw.
  { split; [done|]. cbn [committed cstore]. intros i e Hi u r. unfold undo_of.
    rewrite (Forall_lookup_1 _ _ _ _ Hl Hi). done. }
  revert Hw. generalize (mkCommit s l []). induction ks as [|i ks IH]; intros w Hw; simpl; [done|].
  apply IH. by apply world_lawful_effect.
Qed.

Lemma all_lawful_event s ev :
  fresh_event ev → ids_bounded s → all_lawful s → all_lawful (step_event s ev).
Proof.
  intros Hf Hb Hs. destruct ev as [sc|t l [[n msg]|]]; cbn [step_event fresh_event] in *.
  - unfold register_schema. destruct (dmem _ _) eqn:Hm; [done|]. cbn [snd].
    intros k r Hk. destruct (Hs k r Hk) as (ty & key & sc' & Hkey & Hsc & Hr).
    exists ty, key, sc'. split_and!; [done| |done]. cbn [_schemas].
    rewrite dget_dset_ne; [done|]. intros ->. apply dmem_false in Hm. by rewrite Hm in Hsc.
  - destruct (failed_tick_restores t n msg l s Hb Hf) as (_ & Hr & Hsc & _).
    intros k r. rewrite Hr. intros Hk. apply (lawful_schemas s); auto.
  - by apply world_lawful_committed.
Qed.

Definition colon : ascii := Ascii.ascii_of_nat 58.

(** The type of a key without a colon is what stands before the first colon. *)
Lemma full_key_inj ty ty' key key' :
  str_has colon ty = false → str_has colon ty' = false →
  full_key ty key = full_key ty' key' → ty = ty' ∧ key = key'.
Proof.
  unfold full_key. revert ty'. induction ty as [|c ty IH]; intros [|c' ty'] H H' Heq;
    injection Heq; intros; subst.
  - done.
  - by apply orb_false_iff in H' as [?%bool_decide_eq_false _].
  - by apply orb_false_iff in H as [?%bool_decide_eq_false _].
  - apply orb_false_iff in H as [_ H]. apply orb_false_iff in H' as [_ H'].
    by destruct (IH ty' H H') as [-> ->].
Qed.

(** Whatever effects succeed, fail alone or with their group, and whatever ticks are rolled
    back, every record obeys the rules of its type, provided type names have no colon. *)
Theorem records_keep_rules evs ty key sc r rule :
  Forall fresh_event evs →
  (∀ ty, dmem ty (_schemas (run_events evs)) = true → str_has colon ty = false) →
  dget ty (_schemas (run_events evs)) = Some sc →
  get ty key (run_events evs) = Some r →
  rule ∈ invariants sc → rule_ok rule r = true.
Proof.
  intros Hf Hc Hsc Hr Hrule.
  destruct (run_events_ind all_lawful evs) as [_ Hl]; [done|apply all_lawful_event|done|].
  destruct (Hl _ _ Hr) as (ty' & key' & sc' & Hkey & Hsc' & Hok).
  apply full_key_inj in Hkey as [<- <-];
    [|apply Hc; unfold dmem; by rewrite ?Hsc, ?Hsc'..].
  rewrite Hsc in Hsc'. simplify_eq. auto.
Qed.

(** *** Replay *)

(** Python's [==] on what a replay may compute differently: a sum with a zero delta keeps an
    integer where the store has a float. *)
Definition py_same (v w : value) : Prop :=
  v = w ∨ ∃ p q, as_number v = Some p ∧ as_number w = Some q ∧ (p == q)%Q.
Definition rec_same (a b : dict value) : Prop := ∀ f, option_Forall2 py_same (dget f a) (dget f b).

#[global] Instance py_same_refl : Reflexive py_same.
Proof. by left. Qed.
#[global] Instance option_py_same_refl : Reflexive (option_Forall2 py_same).
Proof. intros []; by constructor. Qed.
#[global] Instance rec_same_refl : Reflexive rec_same.
Proof. intros d f. reflexivity. Qed.
Lemma rec_same_set f v w a b : py_same v w → rec_same a b → rec_same (dset f v a) (dset f w b).
Proof. intros Hv Hab g. rewrite !dget_dset. destruct (decide _); [by constructor|apply Hab]. Qed.
Lemma py_same_number v w q :
  py_same v w → as_number w = Some q → ∃ p, as_number v = Some p ∧ (p == q)%Q.
Proof.
  intros [->|(p & q' & Hp & Hq' & Heq)] Hq; [by exists q|]. exists p. split; [done|]. congruence.
Qed.

Lemma as_number_int v q : as_number v = Some q → (∀ f, v ≠ VFloat f) → q = inject_Z (Qnum q).
Proof.
  destruct v as [|[]| |f| | |]; simpl; intros [= <-] H; try done. by destruct (H f).
Qed.
(** The sum a replay computes is the sum the store computed. *)
Lemma replay_sum v w q d :
  py_same v w → as_number w = Some q →
  ∃ x, py_add_number v (delta_or_zero (Some d)) = Ok x ∧ py_same x (VFloat (q + d)).
Proof.
  intros Hv Hq. destruct (py_same_number _ _ _ Hv Hq) as (p & Hp & Heq).
  unfold py_add_number, delta_or_zero. rewrite Hp. cbn [truthy].
  destruct (Qnum d =? 0)%Z eqn:Ed; cbn [negb as_number].
  - apply Z.eqb_eq in Ed. assert (d == 0)%Q as Hd by (unfold Qeq; simpl; lia).
    eexists. split; [reflexivity|]. right.
    destruct (match v with VFloat _ => true | _ => false end) eqn:Ev.
    + destruct v; try done. eexists _, _. split_and!; [reflexivity..|].
      rewrite Hd, Heq. simpl. ring.
    + assert (p = inject_Z (Qnum p)) as Hi by (eapply as_number_int; [done|]; by intros f ->).
      exists (inject_Z (Qnum p + 0)), (q + d)%Q. split_and!; [by destruct v|done|].
      rewrite Hd, <-Heq, Z.add_0_r, <-Hi. ring.
  - eexists. split; [reflexivity|]. right. exists (p + d)%Q, (q + d)%Q.
    split_and!; [by destruct v|done|]. by rewrite Heq.
Qed.

Definition replayable (s : RecordStore) : Prop :=
  ∃ st, replay s = Ok st ∧ ∀ k, option_Forall2 rec_same (dget k st) (dget k (_records s)).

Lemma replay_loop_snoc l x st :
  replay_loop (l ++ [x]) st = (st' ← replay_loop l st; replay_entry x st').
Proof.
  revert st. induction l as [|y l IH]; intros st; simpl.
  - destruct (replay_entry x st); done.
  - destruct (replay_entry y st); [apply IH|done].
Qed.
Lemma option_same_set k r r' (st d : dict (dict value)) :
  rec_same r r' →
  (∀ k, option_Forall2 rec_same (dget k st) (dget k d)) →
  ∀ k', option_Forall2 rec_same (dget k' (dset k r st)) (dget k' (dset k r' d)).
Proof. intros Hr H k'. rewrite !dget_dset. destruct (decide _); [by constructor|apply H]. Qed.

(** A mutation keeps the ledger replayable, unless it is a delta on a record that is missing. *)
Lemma replayable_mutated s s' x :
  mutated s s' x → (op x = OpDelta → get (le_type x) (le_key x) s ≠ None) →
  replayable s → replayable s'.
Proof.
  intros [] Hop (st & Hst & Hsame). unfold replayable, replay in *.
  rewrite mut_ledger0, mut_records0, replay_loop_snoc, Hst. cbn [mbind res_bind].
  unfold replay_entry.
  destruct mut_entry0 as [->|(Ho & prior & sc & f & q & v & d & Hsc & Hp & _ & -> & Hf & Hd & Hq & ->)].
  - eexists. split; [reflexivity|]. by apply option_same_set.
  - rewrite Ho in *. specialize (Hop eq_refl). unfold get in *.
    specialize (Hsame (full_key (le_type x) (le_key x))) as Hk.
    destruct (dget _ (_records s)) as [r|]; [|done]. simpl in Hp. subst prior.
    inversion Hk as [cur ? Hcur Hc|]; subst. cbn [default].
    rewrite Hf, Hd. cbn [default from_option id].
    assert (py_same (default (VInt 0) (dget f cur)) (default (VInt 0) (dget f r))) as Hv.
    { by destruct (Hcur f). }
    destruct (replay_sum _ _ _ d Hv Hq) as (z & -> & Hz).
    eexists. split; [reflexivity|]. apply option_same_set; [|done]. by apply rec_same_set.
Qed.

(** An effect of an atomic group: its failure undoes the other members. *)
Definition grouped (e : StagedEffect) : bool :=
  nonempty (group_id e) && bool_decide (atomicity e = "group").
(** No effect of an atomic group fails when the tick applies it. *)
Definition groups_apply (t : Z) (l : list StagedEffect) (s : RecordStore) : Prop :=
  ∀ n e, l !! n = Some e → grouped e = true → has_status COMMITTED e = true →
    let s' := cstore (apply_committed t n (mkCommit s l [])) in
    ∃ r, (mutate t (capture s' e) s').1 = inr r.
(** No delta of the tick meets a missing record. *)
Definition deltas_based (t : Z) (l : list StagedEffect) (s : RecordStore) : Prop :=
  ∀ n e, l !! n = Some e → effect_type e ≠ RECORD_UPSERT →
    get (effect_record_type e) (effect_key e) (cstore (apply_committed t n (mkCommit s l []))) ≠ None.
Definition based_event (s : RecordStore) (ev : event) : Prop :=
  match ev with
  | Tick t l None => groups_apply t l s ∧ deltas_based t l s
  | _ => True
  end.
Fixpoint based_events (s : RecordStore) (evs : list event) : Prop :=
  match evs with
  | [] => True
  | ev :: evs' => fresh_event ev ∧ based_event s ev ∧ based_events (step_event s ev) evs'
  end.

Lemma replayable_committed t n l s :
  groups_apply t l s → deltas_based t l s → replayable s →
  let w := apply_committed t n (mkCommit s l []) in
  replayable (cstore w) ∧ ∀ j, n ≤ j → committed w !! j = l !! j.
Proof.
  intros Hl Hb Hs. cbn zeta. induction n as [|n [IHr IHl]]; [done|].
  specialize (Hb n). specialize (Hl n). revert Hl Hb IHr IHl. unfold apply_committed. rewrite seq_S, foldl_snoc.
  generalize (foldl (apply_effect t) (mkCommit s l []) (seq 0 n)). cbn [Nat.add].
  intros w Hl Hb IHr IHl. unfold apply_effect. pose proof (IHl n (le_n n)) as Hn.
  destruct (committed w !! n) as [e|] eqn:He; [|split; [done|intros; apply IHl; lia]].
  destruct (has_status COMMITTED e) eqn:Hst; [|split; [done|intros; apply IHl; lia]].
  specialize (Hl e (eq_sym Hn)).
  destruct (mutate_cases t (capture (cstore w) e) (cstore w))
    as [[err Herr]|(r & s' & x & -> & Hx & Hty & Hkey & Hop & _)].
  - assert (grouped e = false) as Hp.
    { destruct (grouped e); [|done]. destruct (Hl eq_refl Hst) as [r Hr].
      rewrite Herr in Hr. discriminate Hr. }
    rewrite Herr. unfold _fail_locally. cbn [committed cstore applied].
    rewrite list_lookup_insert_eq by (by eapply lookup_lt_Some).
    unfold grouped in Hp. unfold capture, set_invert. cbn [group_id atomicity]. rewrite Hp.
    split; [done|]. intros j Hj. cbn [committed].
    rewrite list_insert_insert_eq, list_lookup_insert_ne by lia. apply IHl. lia.
  - split; cbn [cstore committed].
    + eapply replayable_mutated; [done| |done]. rewrite Hty, Hkey. intros Ho.
      by apply (Hb e), Hop.
    + intros j Hj. rewrite list_lookup_insert_ne by lia. apply IHl. lia.
Qed.

Lemma replayable_event s ev :
  fresh_event ev → based_event s ev → ids_bounded s → replayable s → replayable (step_event s ev).
Proof.
  intros Hf Hev Hb Hs. destruct ev as [sc|t l [[n msg]|]]; cbn [step_event fresh_event based_event] in *.
  - unfold register_schema. by destruct (dmem _ _).
  - destruct (failed_tick_restores t n msg l s Hb Hf) as (Hl & Hr & _ & _).
    destruct Hs as (st & Hst & Hsame). exists st. split.
    + unfold replay in *. by rewrite Hl.
    + intros k. rewrite Hr. apply Hsame.
  - destruct Hev as [Hp Hd]. by apply (replayable_committed t (length l) l s).
Qed.

(** C38: When no delta meets a missing record and no effect of an atomic group fails as it is
    applied, replaying the ledger succeeds and gives the current records, through effects that
    fail alone, groups that are applied and ticks that are rolled back; [replay_loses_defaults]
    and [group_failure_leaves_record] show that neither condition can be left out. *)
Theorem ledger_replays evs :
  based_events RecordStore_init evs →
  ∃ st, replay (run_events evs) = Ok st ∧
    ∀ ty key, option_Forall2 rec_same (dget (full_key ty key) st) (get ty key (run_events evs)).
Proof.
  intros Hevs.
  assert (∀ s, ids_bounded s → replayable s → based_events s evs →
            replayable (foldl step_event s evs)) as H.
  { clear Hevs. induction evs as [|ev evs IH]; intros s Hb Hs; simpl; [done|].
    intros (Hf & Hev & Hevs). apply IH; [by apply ids_bounded_event|by apply replayable_event|done]. }
  destruct (H RecordStore_init) as (st & Hst & Hsame); [by intros x ?%elem_of_nil|by exists []|done|].
  exists st. split; [done|]. intros ty key. apply Hsame.
Qed.

(** ** The contract of a mutation *)

Lemma first_error_Forall {A} (f : A → option rec_error) l :
  first_error f l = None ↔ Forall (λ x, f x = None) l.
Proof.
  induction l as [|x l IH]; simpl; [done|]. rewrite Forall_cons.
  destruct (f x); naive_solver.
Qed.
Lemma check_field_ok ty key d f :
  check_field ty key d f = None ↔
    match dget (f_name f) d with
    | Some v => type_ok (f_type f) v = true
    | None => required f = false
    end.
Proof.
  unfold check_field. destruct (dget _ d) as [v|].
  - by destruct (type_ok (f_type f) v).
  - by destruct (required f).
Qed.
Lemma unique_clash_None ty full d records uf v :
  dget uf d = Some v → v ≠ VNone → unique_clash ty full d records uf = None →
  ∀ k r, (k, r) ∈ records → k ≠ full → startswith (ty +:+ ":") k = true →
    py_eq (opt_or_none (dget uf r)) v = false.
Proof.
  intros Hv Hn. unfold unique_clash. rewrite Hv.
  assert (∀ A (x y : A), match v with VNone => x | _ => y end = y) as Hm by by destruct v.
  rewrite Hm, fmap_None. intros Hf k r Hin Hk Hp.
  apply list_elem_of_In in Hin. eapply find_none in Hf; [|done]. simpl in Hf.
  rewrite Hp, bool_decide_eq_false_2 in Hf by done. done.
Qed.

(** An upsert that succeeds has checked the fields, the unique fields against every other
    record of the type, and the rules; it sets that one record, appends one entry and counts the
    version.  An upsert that fails changes nothing. *)
Theorem upsert_contract ty key d agent tick s :
  match upsert ty key d agent tick s with
  | (inl _, s') => s' = s
  | (inr r, s') =>
      (∃ sc, dget ty (_schemas s) = Some sc ∧
        (∀ f, f ∈ fields sc → match dget (f_name f) d with
                              | Some v => type_ok (f_type f) v = true
                              | None => required f = false end) ∧
        (∀ uf v k o, uf ∈ unique_fields sc → dget uf d = Some v → v ≠ VNone →
           (k, o) ∈ _records s → k ≠ full_key ty key → startswith (ty +:+ ":") k = true →
           py_eq (opt_or_none (dget uf o)) v = false) ∧
        ∀ rule, rule ∈ invariants sc → rule_ok rule d = true) ∧
      (∀ k, dget k (_records s') = if decide (k = full_key ty key) then Some d else dget k (_records s)) ∧
      (∃ x, _ledger s' = (_ledger s ++ [x])%list ∧ ledger_ids r = [ledger_id x] ∧
            before x = get ty key s ∧ after x = d) ∧
      dget (full_key ty key) (_version_counter s') = Some (mr_version r) ∧
      mr_version r = (default 0 (dget (full_key ty key) (_version_counter s)) + 1)%Z
  end.
Proof.
  unfold upsert, schema.
  destruct (dget ty (_schemas s)) as [sc|] eqn:Esc; [|done].
  destruct (validate_record sc key d) eqn:Ev; [done|].
  destruct (first_error (check_unique ty key d (_records s)) _) eqn:Eu; [done|].
  destruct (first_error (check ty key d) _) eqn:Er; [done|].
  unfold validate_record in Ev.
  apply first_error_Forall in Ev, Eu, Er. rewrite Forall_forall in Ev. rewrite Forall_forall in Eu.
  rewrite Forall_forall in Er.
  unfold store_record. cbn -[get]. split_and!.
  - exists sc. split_and!; [done|..].
    + intros f Hf. by apply (check_field_ok (record_type sc) key), Ev.
    + intros uf v k o Huf Hv Hn. specialize (Eu uf Huf). unfold check_unique in Eu.
      apply fmap_None in Eu. by eapply unique_clash_None.
    + intros rule Hr. by apply (check_rule ty key), Er.
  - intros k. apply dget_dset.
  - eexists. split_and!; [reflexivity..].
  - apply dget_dset_eq.
  - done.
Qed.

(** ** A concrete store, and where the store surprises *)

Definition stock : RecordSchema :=
  Schema "stock" [Field "sku" TString true; Field "qty" TInt true]
    [Invariant NonNegative "qty"] ["sku"].
Definition item (sku : string) (n : Z) : dict value := [("sku", VStr sku); ("qty", VInt n)].
Definition upsert_effect (key group : string) (r : dict value) : StagedEffect :=
  mkEffect key RECORD_UPSERT "ann" (full_key "stock" key)
    [("record_type", VStr "stock"); ("key", VStr key); ("record", VDict r)] None None COMMITTED None
    false group (if nonempty group then "group" else "per_effect") [].
Definition delta_effect (key group : string) (d : Q) : StagedEffect :=
  mkEffect key RECORD_DELTA "ann" (full_key "stock" key)
    [("record_type", VStr "stock"); ("key", VStr key); ("field", VStr "qty"); ("delta", VFloat d)]
    None None COMMITTED None false group (if nonempty group then "group" else "per_effect") [].

(** An upsert and a sale, a sale beyond the stock that fails, a tick rolled back, and a group. *)
Definition stock_events : list event :=
  [Register stock;
   Tick 1 [upsert_effect "a" "" (item "A" 5); delta_effect "a" "" (-2)] None;
   Tick 2 [delta_effect "a" "" (-9); upsert_effect "b" "" (item "A" 1)] None;
   Tick 3 [delta_effect "a" "" 4; upsert_effect "b" "" (item "B" 1)] (Some (1, "boom"));
   Tick 4 [delta_effect "a" "g" 1; delta_effect "a" "g" (-2)] None].

Example stock_after :
  get "stock" "a" (run_events stock_events) = Some [("sku", VStr "A"); ("qty", VFloat 2)] ∧
  get "stock" "b" (run_events stock_events) = None.
Proof. vm_compute. done. Qed.

Lemma stock_fresh : Forall fresh_event stock_events.
Proof. repeat constructor. Qed.
Lemma stock_based : based_events RecordStore_init stock_events.
Proof.
  cbn [based_events stock_events based_event fresh_event]. split_and!; try done; try by repeat constructor.
  all: try (intros [|[|n]] e; [intros [= <-]; by vm_compute|intros [= <-]; by vm_compute|done]).
  all: intros [|[|n]] e; [intros [= <-] Hg _; try (vm_compute in Hg; discriminate Hg)
                         |intros [= <-] Hg _; try (vm_compute in Hg; discriminate Hg)|done];
    eexists; vm_compute; reflexivity.
Qed.

Lemma rollback_restores_records_witness :
  let s := run_events (take 2 stock_events) in
  _ledger (cstore (failed_tick 3 1 "boom" [delta_effect "a" "" 4; upsert_effect "b" "" (item "B" 1)] s))
    = _ledger s ∧ length (_ledger s) = 2.
Proof.
  split; [|by vm_compute].
  apply (rollback_restores_records 3 1 "boom" [delta_effect "a" "" 4; upsert_effect "b" "" (item "B" 1)]
           (run_events (take 2 stock_events))).
  - intros x Hx. vm_compute in Hx. repeat (apply elem_of_cons in Hx as [->|Hx]; [by vm_compute|]).
    by apply elem_of_nil in Hx.
  - repeat constructor.
Defined.
Lemma records_keep_rules_witness :
  rule_ok (Invariant NonNegative "qty") [("sku", VStr "A"); ("qty", VFloat 2)] = true.
Proof.
  apply (records_keep_rules stock_events "stock" "a" stock).
  - apply stock_fresh.
  - intros ty Ht. apply dmem_keys in Ht.
    assert (dkeys (_schemas (run_events stock_events)) = ["stock"]) as Hk by by vm_compute.
    rewrite Hk in Ht. apply list_elem_of_singleton in Ht as ->. done.
  - by vm_compute.
  - by vm_compute.
  - simpl. left.
Defined.
Lemma ledger_replays_witness :
  ∃ st, replay (run_events stock_events) = Ok st ∧
    ∀ ty key, option_Forall2 rec_same (dget (full_key ty key) st)
                (get ty key (run_events stock_events)).
Proof. apply (ledger_replays stock_events). apply stock_based. Defined.

(** A delta on a missing record starts from the defaults of the schema, its replay from nothing:
    the other fields are lost. *)
Lemma replay_loses_defaults :
  let s := (apply_delta "stock" "a" "qty" 2 "ann" 1 (register_schema stock RecordStore_init).2).2 in
  get "stock" "a" s = Some [("sku", VStr ""); ("qty", VFloat 2)] ∧
  replay s = Ok [("stock:a", [("qty", VFloat 2)])].
Proof. by vm_compute. Qed.

(** A delta turns an integer field into a float, which the schema then refuses: the record of the
    store cannot be written back. *)
Lemma delta_breaks_type :
  let s := run_events (take 2 stock_events) in
  ∃ r, get "stock" "a" s = Some r ∧ ∃ e, (upsert "stock" "a" r "ann" 2 s).1 = inl e.
Proof. eexists. split; [by vm_compute|]. eexists. by vm_compute. Qed.

(** A delta is not checked against the unique fields: two records made by deltas share the
    default value of a unique field. *)
Lemma delta_skips_uniqueness :
  let s0 := (register_schema stock RecordStore_init).2 in
  let s := (apply_delta "stock" "b" "qty" 1 "ann" 1
              (apply_delta "stock" "a" "qty" 1 "ann" 1 s0).2).2 in
  (dget "sku" <$> get "stock" "a" s) = Some (Some (VStr "")) ∧
  (dget "sku" <$> get "stock" "b" s) = Some (Some (VStr "")).
Proof. by vm_compute. Qed.

(** The members of a group are undone in the order in which they were applied: an upsert and a
    delta of one record whose group then fails leave the record, without a ledger entry. *)
Lemma group_failure_leaves_record :
  let s0 := (register_schema stock RecordStore_init).2 in
  let s := cstore (commit_tick 1 [upsert_effect "a" "g" (item "A" 5); delta_effect "a" "g" 1;
                                  delta_effect "a" "g" (-9)] s0) in
  get "stock" "a" s = Some (item "A" 5) ∧ replay s = Ok [].
Proof. by vm_compute. Qed.

(** What the handlers stage is applied as they were called. *)
Lemma staged_upsert_mutates cx ty key r d b :
  tx d = Some b → nonempty ty = true → nonempty key = true → has_schema ty (store d) = true →
  ∃ e b', (handle_record_upsert cx ty key r d).2 = mkRecords (store d) (Some b') ∧
    dget (effect_id e) (_effects b') = Some e ∧ invert_data e = [] ∧ group_id e = "" ∧
    ∀ t s, mutate t e s = upsert ty key (default [] r) (cx_agent cx) t s.
Proof.
  intros Hb Ht Hk Hs. unfold handle_record_upsert. rewrite Ht, Hk, Hs, Hb. simpl.
  eexists _, _. split; [reflexivity|]. split; [apply dget_dset_eq|]. done.
Qed.
Lemma staged_delta_mutates cx ty key f q d b :
  tx d = Some b → nonempty ty = true → nonempty key = true → nonempty f = true →
  has_schema ty (store d) = true →
  ∃ e b', (handle_record_delta cx ty key f q d).2 = mkRecords (store d) (Some b') ∧
    dget (effect_id e) (_effects b') = Some e ∧ invert_data e = [] ∧ group_id e = "" ∧
    ∀ t s, mutate t e s = apply_delta ty key f q (cx_agent cx) t s.
Proof.
  intros Hb Ht Hk Hf Hs. unfold handle_record_delta. rewrite Ht, Hk, Hf, Hs, Hb. simpl.
  eexists _, _. split; [reflexivity|]. split; [apply dget_dset_eq|]. done.
Qed.
