(* ===== verification/LegacyGraph.v ===== *)
(** * Cycle search in the graphs of the previous architecture

    Two modules of legacy/ search a graph for a cycle with the same depth-first traversal in
    three colours: models/position.py over delegation edges, agent_tree.py over parents and
    over children.  White nodes are unseen, grey ones are on the path, black ones are done.
    Here the grey nodes are the path, in order, and the black ones a list, latest first.

    The recursion is bounded by the nodes that are still white; [visit_spec] shows that the
    bound [S (length nodes)] is never met on a graph over these nodes. *)

From stdpp Require Import base gmap strings list relations.
From Stdlib Require Import Lia.
From S2P Require Import Prelude.

Open Scope string_scope.
Open Scope nat_scope.

Inductive dfs_result :=
| Cycle (c : list string)     (** the path from the node that is met again, and that node *)
| Finished (black : list string)
| OutOfFuel.

Section Dfs.
Variable succs : string → list string.

(** [path.index(y)] for a [y] on the path. *)
Fixpoint index_of (y : string) (l : list string) : nat :=
  match l with
  | [] => 0
  | x :: l' => if decide (x = y) then 0 else S (index_of y l')
  end.

(** The loop over the successors of the last node of the path. *)
Definition scan (visit : list string → string → dfs_result) (path : list string) :
    list string → list string → dfs_result :=
  fix loop black l :=
    match l with
    | [] => Finished black
    | y :: l' =>
        if decide (y ∈ path) then Cycle (drop (index_of y path) path ++ [y])%list
        else if decide (y ∈ black) then loop black l'
        else match visit black y with
             | Finished black' => loop black' l'
             | r => r
             end
    end.
Fixpoint visit (fuel : nat) (path black : list string) (node : string) : dfs_result :=
  match fuel with
  | O => OutOfFuel
  | S fuel =>
      let path := (path ++ [node])%list in
      match scan (λ b y, visit fuel path b y) path black (succs node) with
      | Finished black' => Finished (node :: black')
      | r => r
      end
  end.
(** The loop over the start nodes. *)
Fixpoint search (fuel : nat) (starts black : list string) : dfs_result :=
  match starts with
  | [] => Finished black
  | x :: l =>
      if decide (x ∈ black) then search fuel l black
      else match visit fuel [] black x with
           | Finished black' => search fuel l black'
           | r => r
           end
  end.

(** ** What the search finds *)

Definition edge : relation string := λ x y, y ∈ succs x.
Definition acyclic : Prop := ∀ x, ¬ tc edge x x.
(** A closed walk: the first node is also the last, and each step is an edge. *)
Fixpoint walk (l : list string) : Prop :=
  match l with
  | x :: (y :: _) as l' => edge x y ∧ walk l'
  | _ => True
  end.
Definition closed_walk (c : list string) : Prop :=
  ∃ x l, c = (x :: l ++ [x])%list ∧ walk c.

(** Each node stands before its successors, which are all there. *)
Inductive settled : list string → Prop :=
| settled_nil : settled []
| settled_cons x l : x ∉ l → (∀ y, edge x y → y ∈ l) → settled l → settled (x :: l).

Lemma settled_closed l x y : settled l → x ∈ l → edge x y → y ∈ l.
Proof.
  induction 1 as [|z l Hz Hs _ IH]; [by intros ?%elem_of_nil|].
  intros [->|Hx]%elem_of_cons Hy; right; auto.
Qed.
Lemma settled_tc l x y : settled l → x ∈ l → tc edge x y → y ∈ l.
Proof. intros Hl Hx. induction 1; eauto using settled_closed. Qed.
Lemma settled_acyclic l x : settled l → x ∈ l → ¬ tc edge x x.
Proof.
  induction 1 as [|z l Hz Hs Hl IH]; [by intros ?%elem_of_nil|].
  intros [->|Hx]%elem_of_cons Hc; [|by apply IH].
  destruct Hz. inversion Hc as [? ? He|? y ? He Ht]; subst; [by apply Hs|].
  by apply (settled_tc l y); [|apply Hs|].
Qed.

Lemma walk_snoc l x y : walk (l ++ [x]) → edge x y → walk (l ++ [x; y]).
Proof.
  induction l as [|z l IH]; [done|]. destruct l as [|u l]; simpl in *; naive_solver.
Qed.
Lemma walk_drop n l : walk l → walk (drop n l).
Proof.
  revert l. induction n as [|n IH]; intros [|x l]; [done..|]. simpl. intros H. apply IH.
  destruct l; [done|]. by destruct H.
Qed.
Lemma drop_index y l : y ∈ l → ∃ l', drop (index_of y l) l = y :: l'.
Proof.
  induction l as [|x l IH]; [by intros ?%elem_of_nil|]. intros Hy. simpl.
  destruct (decide (x = y)) as [->|Hn]; [by exists l|].
  apply elem_of_cons in Hy as [->|Hy]; [done|]. by apply IH.
Qed.
Lemma path_cycle path x y :
  walk (path ++ [x]) → edge x y → y ∈ (path ++ [x])%list →
  closed_walk (drop (index_of y (path ++ [x])) (path ++ [x]) ++ [y]).
Proof.
  intros Hw He Hy. pose proof (drop_index _ _ Hy) as [l' Hl'].
  exists y, l'. rewrite Hl'. split; [done|]. rewrite <-Hl'.
  apply (walk_snoc path) in He; [|done].
  change [x; y] with ([x] ++ [y])%list in He. rewrite app_assoc in He.
  apply (walk_drop (index_of y (path ++ [x]))) in He.
  rewrite drop_app_le in He; [done|].
  assert (length (drop (index_of y (path ++ [x])) (path ++ [x])) > 0) as Hlen by (rewrite Hl'; simpl; lia).
  rewrite length_drop in Hlen. lia.
Qed.
Lemma closed_walk_tc c : closed_walk c → ∃ x, tc edge x x.
Proof.
  intros (x & l & -> & Hw). exists x. revert Hw. generalize x at 1 3. induction l as [|y l IH]; intros z Hw.
  - simpl in Hw. apply tc_once. by destruct Hw.
  - destruct Hw as [He Hw]. eapply tc_l; [exact He|]. by apply IH.
Qed.

(** ** The search is exact *)

Variable nodes : list string.
Hypothesis nodes_closed : ∀ x y, x ∈ nodes → edge x y → y ∈ nodes.

(** The nodes that are still white. *)
Definition white (path black : list string) : list string :=
  List.filter (λ x, negb (bool_decide (x ∈ path) || bool_decide (x ∈ black))) nodes.
Lemma elem_white path black x : x ∈ white path black ↔ x ∈ nodes ∧ x ∉ path ∧ x ∉ black.
Proof.
  unfold white. rewrite list_elem_of_In, filter_In, <-list_elem_of_In.
  rewrite negb_true_iff, orb_false_iff, !bool_decide_eq_false. done.
Qed.
Lemma white_sub path black path' black' :
  (∀ x, x ∈ path ∨ x ∈ black → x ∈ path' ∨ x ∈ black') →
  length (white path' black') ≤ length (white path black).
Proof.
  intros H. unfold white. generalize nodes. intros l. induction l as [|x l IH]; [done|].
  cbn [List.filter].
  destruct (bool_decide (x ∈ path) || bool_decide (x ∈ black)) eqn:E1;
  destruct (bool_decide (x ∈ path') || bool_decide (x ∈ black')) eqn:E2; simpl; try lia.
  apply orb_true_iff in E1. rewrite !bool_decide_eq_true in E1.
  apply orb_false_iff in E2. rewrite !bool_decide_eq_false in E2. naive_solver.
Qed.
Lemma white_less path black x :
  x ∈ white path black → length (white (path ++ [x]) black) < length (white path black).
Proof.
  intros Hx. apply elem_white in Hx as (Hn & Hp & Hb). unfold white. revert Hn. generalize nodes.
  intros l. induction l as [|y l IH]; [by intros ?%elem_of_nil|].
  assert (length (List.filter (λ x0, negb (bool_decide (x0 ∈ (path ++ [x])%list) || bool_decide (x0 ∈ black))) l)
          ≤ length (List.filter (λ x0, negb (bool_decide (x0 ∈ path) || bool_decide (x0 ∈ black))) l)) as Hle.
  { clear. induction l as [|z l IH]; [done|]. cbn [List.filter].
    destruct (decide (z ∈ path)).
    - rewrite (bool_decide_eq_true_2 (z ∈ path)), (bool_decide_eq_true_2 (z ∈ (path ++ [x])%list)) by set_solver.
      done.
    - rewrite (bool_decide_eq_false_2 (z ∈ path)) by done.
      destruct (bool_decide (z ∈ (path ++ [x])%list)), (bool_decide (z ∈ black)); simpl; lia. }
  intros Hx. cbn [List.filter]. destruct (decide (y = x)) as [->|Hne].
  - rewrite (bool_decide_eq_true_2 (x ∈ (path ++ [x])%list)) by set_solver.
    rewrite (bool_decide_eq_false_2 (x ∈ path)), (bool_decide_eq_false_2 (x ∈ black)) by done.
    simpl. lia.
  - apply elem_of_cons in Hx as [->|Hx]; [done|]. specialize (IH Hx).
    assert (bool_decide (y ∈ (path ++ [x])%list) = bool_decide (y ∈ path)) as -> by (apply bool_decide_ext; set_solver).
    destruct (_ || _); simpl; lia.
Qed.

Definition clear_of (path black : list string) : Prop := ∀ x, x ∈ path → x ∉ black.
(** The outcome of visiting [target] nodes. *)
Definition outcome (path black target : list string) (r : dfs_result) : Prop :=
  match r with
  | OutOfFuel => False
  | Cycle c => closed_walk c
  | Finished b => settled b ∧ black ⊆ b ∧ target ⊆ b ∧ clear_of path b
  end.

Lemma scan_spec visit path x black l :
  walk (path ++ [x]) → x ∈ nodes → (∀ y, y ∈ l → edge x y) →
  settled black → clear_of (path ++ [x]) black →
  (∀ b y, settled b → clear_of (path ++ [x]) b → y ∉ b → y ∉ (path ++ [x])%list → edge x y → black ⊆ b →
     outcome (path ++ [x]) b [y] (visit b y)) →
  outcome (path ++ [x]) black l (scan visit (path ++ [x]) black l).
Proof.
  intros Hw Hx. revert black. induction l as [|y l IH]; intros black Hl Hs Hc Hv.
  - split_and!; [done|done|set_solver|done].
  - simpl. assert (edge x y) as He by (apply Hl; left).
    destruct (decide (y ∈ (path ++ [x])%list)) as [Hy|Hy]; [by apply path_cycle|].
    destruct (decide (y ∈ black)) as [Hb|Hb].
    + assert (outcome (path ++ [x]) black l (scan visit (path ++ [x]) black l)) as H
        by (apply IH; set_solver).
      destruct (scan _ _ black l); [done| |done]. simpl in *. set_solver.
    + specialize (Hv black y Hs Hc Hb Hy He) as Hy'. specialize (Hy' ltac:(done)).
      destruct (visit black y) as [c|b|]; [done| |done]. destruct Hy' as (Hs' & Hbb & Hyb & Hc').
      assert (outcome (path ++ [x]) b l (scan visit (path ++ [x]) b l)) as H.
      { apply IH; [set_solver|done|done|]. intros b' y' ? ? ? ? ? ?. apply Hv; try done. set_solver. }
      destruct (scan _ _ b l); [done| |done]. simpl in *. set_solver.
Qed.

Lemma visit_spec fuel path black x :
  length (white path black) ≤ fuel → x ∈ nodes → x ∉ path → x ∉ black →
  walk (path ++ [x]) → settled black → clear_of path black →
  outcome path black [x] (visit fuel path black x).
Proof.
  revert path black x. induction fuel as [|fuel IH]; intros path black x Hf Hx Hp Hb Hw Hs Hc.
  - assert (x ∈ white path black) as Hin by by apply elem_white.
    destruct (white path black); [by apply elem_of_nil in Hin|simpl in Hf; lia].
  - assert (x ∈ white path black) as Hin by by apply elem_white.
    apply white_less in Hin. cbn [visit].
    assert (clear_of (path ++ [x]) black) as Hc'.
    { intros y [Hy|Hy%list_elem_of_singleton]%elem_of_app; [by apply Hc|by subst]. }
    assert (outcome (path ++ [x]) black (succs x)
              (scan (λ b y, visit fuel (path ++ [x]) b y) (path ++ [x]) black (succs x))) as H.
    { apply scan_spec; try done. intros b y Hsb Hcb Hyb Hyp He Hbb.
      apply IH; try done.
      - assert (length (white (path ++ [x]) b) ≤ length (white (path ++ [x]) black)); [|lia].
        apply white_sub. set_solver.
      - by apply (nodes_closed x).
      - rewrite <-app_assoc. by apply walk_snoc. }
    destruct (scan _ _ black (succs x)) as [c|b|]; [done| |done].
    destruct H as (Hsb & Hbb & Hsx & Hcb). split_and!.
    + constructor; [|done|done]. apply Hcb. set_solver.
    + set_solver.
    + set_solver.
    + intros y Hy [->|Hyb]%elem_of_cons; [done|]. by apply (Hcb y); [set_solver|].
Qed.

Lemma search_spec fuel starts black :
  length nodes ≤ fuel → starts ⊆ nodes → settled black →
  outcome [] black starts (search fuel starts black).
Proof.
  intros Hf. revert black. induction starts as [|x l IH]; intros black Hl Hs.
  - split_and!; [done|done|set_solver|by intros x ?%elem_of_nil].
  - simpl. destruct (decide (x ∈ black)) as [Hb|Hb].
    + assert (outcome [] black l (search fuel l black)) as H by (apply IH; set_solver).
      destruct (search fuel l black); [done| |done]. simpl in *. set_solver.
    + assert (outcome [] black [x] (visit fuel [] black x)) as H.
      { apply visit_spec; try done; [|apply Hl; left|by apply not_elem_of_nil|by intros y ?%elem_of_nil].
        etrans; [|exact Hf]. unfold white. apply List.filter_length_le. }
      destruct (visit fuel [] black x) as [c|b|]; [done| |done].
      destruct H as (Hsb & Hbb & Hxb & _).
      assert (outcome [] b l (search fuel l b)) as H by (apply IH; set_solver).
      destruct (search fuel l b); [done| |done]. simpl in *. set_solver.
Qed.
End Dfs.

(** An order in which every node stands before its successors. *)
Definition ordering (succs : string → list string) (nodes order : list string) : Prop :=
  settled succs order ∧ (∀ x, x ∈ order ↔ x ∈ nodes) ∧ length order ≤ length nodes.

Lemma settled_NoDup succs l : settled succs l → NoDup l.
Proof. induction 1; by constructor. Qed.
Lemma settled_filter succs (nodes l : list string) :
  (∀ x y, x ∈ nodes → y ∈ succs x → y ∈ nodes) → settled succs l →
  settled succs (List.filter (λ x, bool_decide (x ∈ nodes)) l).
Proof.
  intros Hcl. induction 1 as [|x l Hx Hs _ IH]; [constructor|]. cbn [List.filter].
  destruct (decide (x ∈ nodes)) as [Hn|Hn].
  - rewrite bool_decide_eq_true_2 by done. constructor; [|intros y He|done].
    + rewrite elem_of_bfilter. naive_solver.
    + apply elem_of_bfilter. rewrite bool_decide_eq_true. eauto.
  - by rewrite bool_decide_eq_false_2.
Qed.
Lemma settled_ordering succs (nodes l : list string) :
  (∀ x y, x ∈ nodes → y ∈ succs x → y ∈ nodes) → settled succs l → nodes ⊆ l →
  ∃ order, ordering succs nodes order.
Proof.
  intros Hcl Hs Hn. exists (List.filter (λ x, bool_decide (x ∈ nodes)) l).
  assert (∀ x, x ∈ List.filter (λ x, bool_decide (x ∈ nodes)) l ↔ x ∈ nodes) as Hel.
  { intros x. rewrite elem_of_bfilter, bool_decide_eq_true. set_solver. }
  apply (settled_filter succs nodes) in Hs; [|done]. split_and!; [done|done|].
  apply submseteq_length, NoDup_submseteq; [by eapply settled_NoDup|]. intros x. apply Hel.
Qed.
Lemma ordering_acyclic succs (nodes order : list string) :
  (∀ x y, y ∈ succs x → x ∈ nodes) → ordering succs nodes order → acyclic succs.
Proof.
  intros Hcl (Hs & Hel & _) x Hx. apply (settled_acyclic succs order x); [done| |done].
  apply Hel. inversion Hx as [? ? He|? y ? He _]; subst; by apply (Hcl _ _ He).
Qed.

(** A search over all nodes ends: with a cycle when there is one, else with every node done. *)
Lemma search_exact succs nodes fuel :
  (∀ x y, y ∈ succs x → x ∈ nodes ∧ y ∈ nodes) → length nodes ≤ fuel →
  match search succs fuel nodes [] with
  | Cycle c => closed_walk succs c ∧ ¬ acyclic succs
  | Finished _ => acyclic succs ∧ ∃ order, ordering succs nodes order
  | OutOfFuel => False
  end.
Proof.
  intros Hcl Hf.
  assert (outcome succs [] [] nodes (search succs fuel nodes [])) as H.
  { apply (search_spec succs nodes); [|done|done|constructor]. intros x y _ He. by apply (Hcl x y). }
  destruct (search succs fuel nodes []) as [c|b|]; [|..|done].
  - split; [done|]. intros Ha. destruct (closed_walk_tc _ _ H) as [x Hx]. by apply (Ha x).
  - destruct H as (Hs & _ & Hn & _).
    destruct (settled_ordering succs nodes b) as [order Ho]; [|done|done|].
    { intros x y _ He. by apply (Hcl x y). }
    split; [|eauto]. eapply ordering_acyclic; [|done]. intros x y He. by apply (Hcl x y).
Qed.

(** A finite graph without cycles has an order. *)
Lemma acyclic_ordering succs nodes :
  (∀ x y, y ∈ succs x → x ∈ nodes ∧ y ∈ nodes) → acyclic succs →
  ∃ order, ordering succs nodes order.
Proof.
  intros Hcl Ha. pose proof (search_exact succs nodes (length nodes) Hcl (le_n _)) as H.
  destruct (search _ _ _ _); [by destruct H|by destruct H|done].
Qed.
