(* ===== verification/LegacyAgentTree.v ===== *)
(** * The organisation tree of the previous architecture (legacy/agent_tree.py)

    A list of configured agents, each with its parent and its children, is checked once and
    then only read.  The checks run in the order of the code, the cycle search is that of
    [LegacyGraph].  Fields of a configuration the tree does not read are one value.

    Loops over parents are bounded by the number of agents, the traversal of a subtree by the
    number of paths below its root; the theorems show that an accepted tree meets no bound. *)

From stdpp Require Import base gmap strings list relations.
From Stdlib Require Import ZArith Lia.
From S2P Require Import Prelude PyValue LegacyGraph.

Open Scope string_scope.
Open Scope nat_scope.

Record AgentConfig := mkAgent {
  agent_id : string; parent_id : option string; children : list string; settings : value }.

Inductive tree_error :=
| DuplicateAgentIdError (id : string)
| CycleDetectedError (path : list string)
| MultipleRootsError (roots : list string)
| NoRootError
| ParentChildMismatchError (id declared actual : string)
| ChildNotDeclaredError (parent missing : string)
| AgentNotFoundError (id : string)
| RecursionError.   (** the bound of the search, which no list of agents meets *)

Record AgentTree := mkTree {
  _agents : dict AgentConfig; _parent_map : dict (option string); _children_map : dict (list string);
  _root_id : string }.

(** ** Construction *)

Fixpoint find_duplicate (seen : list string) (l : list AgentConfig) : option string :=
  match l with
  | [] => None
  | a :: l' => if decide (agent_id a ∈ seen) then Some (agent_id a)
               else find_duplicate (agent_id a :: seen) l'
  end.
Definition agents_of (l : list AgentConfig) : dict AgentConfig :=
  foldl (λ d a, dset (agent_id a) a d) [] l.
Definition parents_of (l : list AgentConfig) : dict (option string) :=
  foldl (λ d a, dset (agent_id a) (parent_id a) d) [] l.
Definition _build_children_map (agents : dict AgentConfig) : dict (list string) :=
  foldl (λ d a, if dmem (agent_id a) d then d else dset (agent_id a) (children a) d) []
    (dvalues agents).

Fixpoint first_some {A B} (f : A → option B) (l : list A) : option B :=
  match l with
  | [] => None
  | x :: l' => match f x with Some y => Some y | None => first_some f l' end
  end.

Definition _check_root_count (agents : dict AgentConfig) : tree_error + string :=
  match map fst (List.filter (λ kv, match parent_id kv.2 with None => true | _ => false end) agents) with
  | [] => inl NoRootError
  | [r] => inr r
  | roots => inl (MultipleRootsError roots)
  end.
Definition check_parent (agents : dict AgentConfig) (a : AgentConfig) : option tree_error :=
  match parent_id a with
  | None => None
  | Some p =>
      match dget p agents with
      | None => Some (AgentNotFoundError p)
      | Some parent =>
          if decide (agent_id a ∈ children parent) then None
          else Some (ParentChildMismatchError (agent_id a) p "(not listed in any parent's children)")
      end
  end.
Definition check_children (agents : dict AgentConfig) (a : AgentConfig) : option tree_error :=
  first_some (λ c, if dmem c agents then None else Some (ChildNotDeclaredError (agent_id a) c))
    (children a).
Definition _check_parent_child_consistency (agents : dict AgentConfig) : option tree_error :=
  match first_some (check_parent agents) (dvalues agents) with
  | Some e => Some e
  | None => first_some (check_children agents) (dvalues agents)
  end.

(** The edges the two searches follow. *)
Definition up (agents : dict AgentConfig) (parents : dict (option string)) (x : string) : list string :=
  match dget x parents with
  | Some (Some p) => if dmem p agents then [p] else []
  | _ => []
  end.
Definition down (agents : dict AgentConfig) (kids : dict (list string)) (x : string) : list string :=
  List.filter (λ c, dmem c agents) (default [] (dget x kids)).
Definition cycle_error (r : dfs_result) : option tree_error :=
  match r with
  | Cycle c => Some (CycleDetectedError c)
  | Finished _ => None
  | OutOfFuel => Some RecursionError
  end.
Definition _check_no_cycles (agents : dict AgentConfig) (parents : dict (option string))
    (kids : dict (list string)) : option tree_error :=
  match cycle_error (search (up agents parents) (length agents) (dkeys agents) []) with
  | Some e => Some e
  | None => cycle_error (search (down agents kids) (length agents) (dkeys agents) [])
  end.

Definition AgentTree_init (l : list AgentConfig) : tree_error + AgentTree :=
  match find_duplicate [] l with
  | Some id => inl (DuplicateAgentIdError id)
  | None =>
      let agents := agents_of l in
      let parents := parents_of l in
      let kids := _build_children_map agents in
      match _check_root_count agents with
      | inl e => inl e
      | inr root =>
          match _check_parent_child_consistency agents with
          | Some e => inl e
          | None =>
              match _check_no_cycles agents parents kids with
              | Some e => inl e
              | None => inr (mkTree agents parents kids root)
              end
          end
      end
  end.

(** ** Queries *)

Definition get (id : string) (t : AgentTree) : tree_error + AgentConfig :=
  match dget id (_agents t) with Some a => inr a | None => inl (AgentNotFoundError id) end.
Definition all_ids (t : AgentTree) : list string := dkeys (_agents t).
Definition kids_of (id : string) (t : AgentTree) : list string := default [] (dget id (_children_map t)).
Definition parent_of (id : string) (t : AgentTree) : option string := default None (dget id (_parent_map t)).

Definition child_ids (id : string) (t : AgentTree) : tree_error + list string :=
  match get id t with inl e => inl e | inr _ => inr (kids_of id t) end.
(** A child without a configuration is a [KeyError], which the checks exclude. *)
Definition children_ (id : string) (t : AgentTree) : tree_error + list AgentConfig :=
  match get id t with
  | inl e => inl e
  | inr _ => inr (omap (λ c, dget c (_agents t)) (kids_of id t))
  end.
Definition parent (id : string) (t : AgentTree) : tree_error + option AgentConfig :=
  match get id t with
  | inl e => inl e
  | inr _ => inr (match parent_of id t with None => None | Some p => dget p (_agents t) end)
  end.
Definition siblings (id : string) (t : AgentTree) : tree_error + list AgentConfig :=
  match get id t with
  | inl e => inl e
  | inr a =>
      match parent_id a with
      | None => inr []
      | Some p => match children_ p t with
                  | inl e => inl e
                  | inr l => inr (List.filter (λ b, negb (bool_decide (agent_id b = id))) l)
                  end
      end
  end.

Fixpoint is_ancestor_loop (fuel : nat) (ancestor : string) (current : option string) (t : AgentTree) :
    option bool :=
  match current with
  | None => Some false
  | Some c =>
      if decide (c = ancestor) then Some true
      else match fuel with O => None | S f => is_ancestor_loop f ancestor (parent_of c t) t end
  end.
Definition is_ancestor (ancestor descendant : string) (t : AgentTree) : tree_error + option bool :=
  match get ancestor t, get descendant t with
  | inl e, _ | _, inl e => inl e
  | inr _, inr _ => inr (is_ancestor_loop (length (_agents t)) ancestor (Some descendant) t)
  end.

Fixpoint depth_loop (fuel : nat) (current : string) (t : AgentTree) : option nat :=
  match parent_of current t with
  | None => Some 0
  | Some p => match fuel with O => None | S f => S <$> depth_loop f p t end
  end.
Definition depth (id : string) (t : AgentTree) : tree_error + option nat :=
  match get id t with inl e => inl e | inr _ => inr (depth_loop (length (_agents t)) id t) end.

Fixpoint ancestors_loop (fuel : nat) (current : option string) (t : AgentTree) : option (list string) :=
  match current with
  | None => Some []
  | Some c => match fuel with O => None | S f => cons c <$> ancestors_loop f (parent_of c t) t end
  end.
Definition ancestors (id : string) (t : AgentTree) : tree_error + option (list string) :=
  match get id t with
  | inl e => inl e
  | inr _ => inr (ancestors_loop (length (_agents t)) (parent_of id t) t)
  end.

Definition can_delegate_to (delegator target : string) (t : AgentTree) : bool :=
  dmem delegator (_agents t) && dmem target (_agents t) && bool_decide (target ∈ kids_of delegator t).

(** The stack of the traversal, its top first. *)
Fixpoint subtree_loop (fuel : nat) (stack result : list string) (t : AgentTree) : option (list string) :=
  match stack with
  | [] => Some result
  | x :: st =>
      match fuel with
      | O => None
      | S f => subtree_loop f (rev (kids_of x t) ++ st) (result ++ [x]) t
      end
  end.
(** The number of paths that start at a node. *)
Fixpoint paths (fuel : nat) (x : string) (t : AgentTree) : nat :=
  match fuel with
  | O => 1
  | S f => S (sum_list (map (λ c, paths f c t) (kids_of x t)))
  end.
Definition subtree_ids (id : string) (t : AgentTree) : tree_error + option (list string) :=
  match get id t with
  | inl e => inl e
  | inr _ => inr (subtree_loop (paths (length (_agents t)) id t) [id] [] t)
  end.

Section Serialisation.
(** The validation library: a configuration from its dictionary, and back. *)
Variable parse_agent : value → res AgentConfig.
Variable dump_agent : AgentConfig → value.
Definition to_dict (t : AgentTree) : value :=
  VDict [("agents", VList (map dump_agent (dvalues (_agents t)))); ("root_id", VStr (_root_id t))].
Definition from_dict (data : dict value) : res (tree_error + AgentTree) :=
  match default (VList []) (dget "agents" data) with
  | VList l => agents ← res_mapM parse_agent l; Ok (AgentTree_init agents)
  | VDict [] | VStr "" => Ok (AgentTree_init [])
  | v => Raise (Exn TypeError ("'" +:+ type_name v +:+ "' object is not iterable"))
  end.
End Serialisation.

(** ** Well-formed configurations *)

Definition ids (l : list AgentConfig) : list string := map agent_id l.
(** [y] is listed as a child of [x]. *)
Definition lists (l : list AgentConfig) : relation string :=
  λ x y, ∃ a, a ∈ l ∧ agent_id a = x ∧ y ∈ children a.

Record well_formed (l : list AgentConfig) : Prop := {
  wf_ids : NoDup (ids l);
  wf_root : ∃ r, r ∈ l ∧ ∀ a, a ∈ l → parent_id a = None ↔ a = r;
  wf_parent : ∀ a p, a ∈ l → parent_id a = Some p → lists l p (agent_id a);
  wf_children : ∀ x y, lists l x y → y ∈ ids l;
  wf_acyclic : ∀ x, ¬ tc (lists l) x x }.

Lemma fold_dset {A V} (k : A → string) (v : A → V) l acc :
  NoDup (dkeys acc ++ map k l) →
  foldl (λ d a, dset (k a) (v a) d) acc l = (acc ++ map (λ a, (k a, v a)) l)%list.
Proof.
  revert acc. induction l as [|a l IH]; intros acc Hn; simpl; [by rewrite app_nil_r|].
  simpl in Hn. assert (k a ∉ dkeys acc) as Hk.
  { apply NoDup_app in Hn as (_ & Hn & _). intros H. apply (Hn _ H). left. }
  rewrite dset_new by done. rewrite IH, <-app_assoc; [done|].
  unfold dkeys. rewrite map_app, <-app_assoc. done.
Qed.

Lemma agents_of_map l : NoDup (ids l) → agents_of l = map (λ a, (agent_id a, a)) l.
Proof. intros H. unfold agents_of. by rewrite fold_dset. Qed.
Lemma parents_of_map l : NoDup (ids l) → parents_of l = map (λ a, (agent_id a, parent_id a)) l.
Proof. intros H. unfold parents_of. by rewrite fold_dset. Qed.
Lemma dkeys_map {V} (v : AgentConfig → V) l : dkeys (map (λ a, (agent_id a, v a)) l) = ids l.
Proof. unfold dkeys, ids. by rewrite map_map. Qed.
Lemma dvalues_map l : dvalues (map (λ a, (agent_id a, a)) l) = l.
Proof. unfold dvalues. rewrite map_map. simpl. apply map_id. Qed.
Lemma kids_of_map l :
  NoDup (ids l) → _build_children_map (agents_of l) = map (λ a, (agent_id a, children a)) l.
Proof.
  intros H. unfold _build_children_map. rewrite agents_of_map, dvalues_map by done.
  assert (∀ acc, NoDup (dkeys acc ++ ids l) →
    foldl (λ d a, if dmem (agent_id a) d then d else dset (agent_id a) (children a) d) acc l
    = foldl (λ d a, dset (agent_id a) (children a) d) acc l) as Hf.
  { clear H. induction l as [|a l IH]; intros acc Hn; simpl; [done|]. simpl in Hn.
    assert (agent_id a ∉ dkeys acc) as Hk.
    { apply NoDup_app in Hn as (_ & Hn & _). intros Hk. apply (Hn _ Hk). left. }
    assert (dmem (agent_id a) acc = false) as -> by by apply dmem_false, dget_None_keys.
    apply IH. rewrite dset_new by done. unfold dkeys. rewrite map_app, <-app_assoc. done. }
  by rewrite Hf, fold_dset.
Qed.

Lemma dget_map_agents {V} (v : AgentConfig → V) l id x :
  NoDup (ids l) →
  dget id (map (λ a, (agent_id a, v a)) l) = Some x ↔ ∃ a, a ∈ l ∧ agent_id a = id ∧ v a = x.
Proof.
  intros Hn. split.
  - intros H%dget_Some_elem. apply list_elem_of_fmap in H as (a & [= -> ->] & Ha). eauto.
  - intros (a & Ha & <- & <-). apply elem_dget; [by rewrite dkeys_map|].
    apply list_elem_of_fmap. by exists a.
Qed.
Lemma dmem_map_agents {V} (v : AgentConfig → V) l id :
  dmem id (map (λ a, (agent_id a, v a)) l) = true ↔ id ∈ ids l.
Proof. rewrite dmem_keys. by rewrite dkeys_map. Qed.

Lemma find_duplicate_None seen l :
  find_duplicate seen l = None ↔ NoDup (ids l) ∧ ∀ x, x ∈ ids l → x ∉ seen.
Proof.
  revert seen. induction l as [|a l IH]; intros seen; simpl.
  - split; [|done]. intros _. split; [constructor|by intros x ?%elem_of_nil].
  - destruct (decide (agent_id a ∈ seen)) as [H|H].
    + split; [done|]. intros [_ Hd]. destruct (Hd (agent_id a)); [left|done].
    + rewrite IH, NoDup_cons. set_solver.
Qed.
Lemma first_some_None {A B} (f : A → option B) l :
  first_some f l = None ↔ ∀ x, x ∈ l → f x = None.
Proof.
  induction l as [|x l IH]; simpl; [set_solver|]. destruct (f x) eqn:E; [set_solver|].
  rewrite IH. set_solver.
Qed.

Section Accepted.
Variable l : list AgentConfig.
Hypothesis Hids : NoDup (ids l).

Lemma same_agent a b : a ∈ l → b ∈ l → agent_id a = agent_id b → a = b.
Proof.
  intros Ha Hb He. unfold ids in Hids. revert Ha Hb. induction l as [|c m IH]; [by intros ?%elem_of_nil|].
  simpl in Hids. apply NoDup_cons in Hids as [Hc Hm].
  intros [->|Ha]%elem_of_cons [->|Hb]%elem_of_cons; try done; [| |by apply IH].
  - destruct Hc. rewrite He. apply list_elem_of_fmap. by exists b.
  - destruct Hc. rewrite <-He. apply list_elem_of_fmap. by exists a.
Qed.

Lemma roots_map :
  map fst (List.filter (λ kv, match parent_id kv.2 with None => true | _ => false end) (agents_of l))
  = ids (List.filter (λ a, match parent_id a with None => true | _ => false end) l).
Proof.
  rewrite agents_of_map by done. clear. induction l as [|a m IH]; [done|]. simpl.
  destruct (parent_id a); simpl; congruence.
Qed.
Lemma root_ok r :
  _check_root_count (agents_of l) = inr r ↔
    ∃ a, a ∈ l ∧ agent_id a = r ∧ ∀ b, b ∈ l → parent_id b = None ↔ b = a.
Proof.
  unfold _check_root_count. rewrite roots_map.
  assert (∀ b, b ∈ List.filter (λ a, match parent_id a with None => true | _ => false end) l
               ↔ b ∈ l ∧ parent_id b = None) as Hel.
  { intros b. rewrite elem_of_bfilter. destruct (parent_id b); naive_solver. }
  assert (NoDup (List.filter (λ a, match parent_id a with None => true | _ => false end) l)) as Hn.
  { apply NoDup_ListNoDup, List.NoDup_filter, NoDup_ListNoDup. unfold ids in Hids.
    by apply NoDup_fmap_1 in Hids. }
  destruct (List.filter _ l) as [|a [|b m]] eqn:E; simpl.
  - split; [done|]. intros (a & Ha & _ & Hr). specialize (Hr a Ha).
    exfalso. apply (not_elem_of_nil a), Hel. split; [done|]. by apply Hr.
  - assert (a ∈ l ∧ parent_id a = None) as [Ha Hp] by (apply Hel; left). split.
    + intros [= <-]. exists a. split_and!; [done|done|]. intros c Hc. split; [|by intros ->].
      intros Hpc. by apply list_elem_of_singleton, Hel.
    + intros (c & Hc & <- & Hr). f_equal. f_equal. by apply (Hr a).
  - split; [done|]. intros (c & Hc & _ & Hr).
    assert (a = c) as -> by (apply Hr; apply Hel; left).
    assert (b = c) as -> by (apply Hr; apply Hel; right; left).
    apply NoDup_cons in Hn as [[] _]. left.
Qed.

Lemma consistent_ok :
  _check_parent_child_consistency (agents_of l) = None ↔
    (∀ a p, a ∈ l → parent_id a = Some p → lists l p (agent_id a)) ∧
    (∀ x y, lists l x y → y ∈ ids l).
Proof.
  unfold _check_parent_child_consistency. rewrite agents_of_map, dvalues_map by done.
  assert (first_some (check_parent (map (λ a, (agent_id a, a)) l)) l = None ↔
    ∀ a p, a ∈ l → parent_id a = Some p → lists l p (agent_id a)) as Hp.
  { rewrite first_some_None. unfold check_parent. split.
    - intros H a p Ha Hpa. specialize (H a Ha). rewrite Hpa in H.
      destruct (dget p _) as [q|] eqn:Eq; [|done]. apply dget_map_agents in Eq as (b & Hb & <- & <-); [|done].
      destruct (decide _); [|done]. by exists b.
    - intros H a Ha. destruct (parent_id a) as [p|] eqn:Ep; [|done].
      destruct (H a p Ha Ep) as (b & Hb & Hbp & Hc).
      assert (dget p (map (λ a, (agent_id a, a)) l) = Some b) as -> by (apply dget_map_agents; eauto).
      by rewrite decide_True. }
  assert (first_some (check_children (map (λ a, (agent_id a, a)) l)) l = None ↔
    ∀ x y, lists l x y → y ∈ ids l) as Hc.
  { rewrite first_some_None. unfold check_children. split.
    - intros H x y (a & Ha & _ & Hy). specialize (H a Ha). rewrite first_some_None in H.
      specialize (H y Hy). simpl in H. destruct (dmem y _) eqn:E; [|done].
      by apply dmem_map_agents in E.
    - intros H a Ha. apply first_some_None. intros c Hc.
      assert (dmem c (map (λ a, (agent_id a, a)) l) = true) as ->; [|done].
      apply dmem_map_agents. apply (H (agent_id a)). by exists a. }
  destruct (first_some (check_parent _) l); naive_solver.
Qed.

Definition built : AgentTree → Prop := λ t,
  _agents t = agents_of l ∧ _parent_map t = parents_of l ∧ _children_map t = _build_children_map (agents_of l).

Lemma up_edge x y :
  (∀ a p, a ∈ l → parent_id a = Some p → lists l p (agent_id a)) →
  y ∈ up (agents_of l) (parents_of l) x ↔ ∃ a, a ∈ l ∧ agent_id a = x ∧ parent_id a = Some y.
Proof.
  intros Hp. unfold up. rewrite parents_of_map, agents_of_map by done.
  destruct (dget x _) as [[p|]|] eqn:E.
  - apply dget_map_agents in E as (a & Ha & <- & Hpa); [|done].
    assert (dmem p (map (λ a, (agent_id a, a)) l) = true) as ->.
    { apply dmem_map_agents. destruct (Hp a p Ha Hpa) as (b & Hb & <- & _).
      apply list_elem_of_fmap. by exists b. }
    rewrite list_elem_of_singleton. split; [intros ->; eauto|].
    intros (b & Hb & Hab & Hpb). assert (b = a) as -> by by apply same_agent. congruence.
  - apply dget_map_agents in E as (a & Ha & <- & Hpa); [|done]. split; [by intros ?%elem_of_nil|].
    intros (b & Hb & Hab & Hpb). assert (b = a) as -> by by apply same_agent. congruence.
  - split; [by intros ?%elem_of_nil|]. intros (b & Hb & <- & Hpb).
    assert (dget (agent_id b) (map (λ a, (agent_id a, parent_id a)) l) = Some (parent_id b)); [|congruence].
    apply dget_map_agents; eauto.
Qed.
Lemma down_edge x y :
  (∀ x y, lists l x y → y ∈ ids l) →
  y ∈ down (agents_of l) (_build_children_map (agents_of l)) x ↔ lists l x y.
Proof.
  intros Hc. unfold down. rewrite kids_of_map, agents_of_map, elem_of_bfilter, dmem_map_agents by done.
  split.
  - intros [Hy _]. destruct (dget x _) as [ks|] eqn:E; [|by apply elem_of_nil in Hy].
    apply dget_map_agents in E as (a & Ha & <- & <-); [|done]. by exists a.
  - intros Hl. split; [|by eapply Hc]. destruct Hl as (a & Ha & <- & Hy).
    assert (dget (agent_id a) (map (λ a, (agent_id a, children a)) l) = Some (children a)) as ->; [|done].
    apply dget_map_agents; eauto.
Qed.
Lemma lists_ids x y : lists l x y → x ∈ ids l.
Proof. intros (a & Ha & <- & _). apply list_elem_of_fmap. by exists a. Qed.

Lemma no_cycles_ok :
  (∀ a p, a ∈ l → parent_id a = Some p → lists l p (agent_id a)) →
  (∀ x y, lists l x y → y ∈ ids l) →
  _check_no_cycles (agents_of l) (parents_of l) (_build_children_map (agents_of l)) = None ↔
    ∀ x, ¬ tc (lists l) x x.
Proof.
  intros Hp Hc. unfold _check_no_cycles.
  assert (dkeys (agents_of l) = ids l) as Hk by (rewrite agents_of_map by done; apply dkeys_map).
  assert (length (agents_of l) = length (ids l)) as Hlen by (rewrite <-Hk; unfold dkeys; by rewrite length_map).
  rewrite Hk, Hlen.
  assert (∀ x y, tc (edge (down (agents_of l) (_build_children_map (agents_of l)))) x y ↔ tc (lists l) x y) as Hd.
  { intros x y. pose proof (λ x y, down_edge x y Hc) as He.
    split; induction 1 as [? ? H|? ? ? H _ IH];
      first [apply He in H; by apply tc_once|apply He in H; by eapply tc_l]. }
  assert (∀ x y, tc (edge (up (agents_of l) (parents_of l))) x y → tc (lists l) y x) as Hu.
  { induction 1 as [? ? H|? ? ? H _ IH]; [apply tc_once|eapply tc_r; [exact IH|]];
      apply up_edge in H as (a & Ha & <- & Hpa); eauto. }
  pose proof (search_exact (up (agents_of l) (parents_of l)) (ids l) (length (ids l))) as Hsu.
  pose proof (search_exact (down (agents_of l) (_build_children_map (agents_of l))) (ids l)
                (length (ids l))) as Hsd.
  destruct (search (up _ _) _ _ _) as [c|b|]; simpl.
  - split; [done|]. intros Ha. destruct Hsu as [Hc' _]; [|done|].
    + intros x y Hy. apply up_edge in Hy as (a & Hin & <- & Hpa); [|done].
      split; [apply list_elem_of_fmap; by exists a|]. by eapply lists_ids, Hp.
    + apply closed_walk_tc in Hc' as [x Hx]. destruct (Ha x). by apply Hu.
  - destruct (search (down _ _) _ _ _) as [c|b'|]; simpl.
    + split; [done|]. intros Ha. destruct Hsd as [Hc' _]; [|done|].
      * intros x y Hy. apply down_edge in Hy; [|done]. split; [by eapply lists_ids|by eapply Hc].
      * apply closed_walk_tc in Hc' as [x Hx]. destruct (Ha x). by apply Hd.
    + split; [|done]. intros _ x Hx. destruct Hsd as [Hac _]; [|done|].
      * intros y z Hy. apply down_edge in Hy; [|done]. split; [by eapply lists_ids|by eapply Hc].
      * apply (Hac x). by apply Hd.
    + split; [done|]. intros _. destruct Hsd; [|done].
      intros y z Hy. apply down_edge in Hy; [|done]. split; [by eapply lists_ids|by eapply Hc].
  - split; [done|]. intros _. destruct Hsu; [|done].
    intros x y Hy. apply up_edge in Hy as (a & Hin & <- & Hpa); [|done].
    split; [apply list_elem_of_fmap; by exists a|]. by eapply lists_ids, Hp.
Qed.
End Accepted.

Lemma init_inr l t :
  AgentTree_init l = inr t → well_formed l ∧ built l t ∧
    ∃ a, a ∈ l ∧ agent_id a = _root_id t ∧ parent_id a = None.
Proof.
  unfold AgentTree_init. destruct (find_duplicate [] l) eqn:Ed; [done|].
  apply find_duplicate_None in Ed as [Hids _].
  destruct (_check_root_count _) as [|r] eqn:Er; [done|].
  destruct (_check_parent_child_consistency _) eqn:Ec; [done|].
  destruct (_check_no_cycles _ _ _) eqn:En; [done|]. intros [= <-].
  apply root_ok in Er as (a & Ha & <- & Hr); [|done]. apply consistent_ok in Ec as [Hp Hc]; [|done].
  split_and!; [|done|].
  - constructor; try done; [eauto|]. by apply no_cycles_ok.
  - exists a. split_and!; try done. by apply Hr.
Qed.

(** C23: A configuration is accepted exactly when identifiers are unique, one agent has no parent,
    every parent exists and lists its child, every listed child exists, and no chain of listed
    children comes back to its start. *)
Theorem tree_accepted_iff l : (∃ t, AgentTree_init l = inr t) ↔ well_formed l.
Proof.
  split.
  - intros [t Ht]. by apply init_inr in Ht as [? _].
  - intros [Hids (r & Hr & Hroot) Hp Hc Ha]. unfold AgentTree_init.
    assert (find_duplicate [] l = None) as ->.
    { apply find_duplicate_None. split; [done|]. intros x _. apply not_elem_of_nil. }
    assert (_check_root_count (agents_of l) = inr (agent_id r)) as -> by (apply root_ok; eauto).
    assert (_check_parent_child_consistency (agents_of l) = None) as -> by by apply consistent_ok.
    assert (_check_no_cycles (agents_of l) (parents_of l) (_build_children_map (agents_of l)) = None)
      as -> by by apply no_cycles_ok.
    eauto.
Qed.

(** ** What the queries return *)

Definition reports (l : list AgentConfig) : relation string :=
  λ x p, ∃ a, a ∈ l ∧ agent_id a = x ∧ parent_id a = Some p.
(** The agents from a start upwards, up to one without a parent. *)
Inductive chain (t : AgentTree) : option string → list string → Prop :=
| chain_end : chain t None []
| chain_step x l : chain t (parent_of x t) l → chain t (Some x) (x :: l).

Lemma ancestors_chain fuel cur t l :
  ancestors_loop fuel cur t = Some l → chain t cur l ∧ length l ≤ fuel.
Proof.
  revert cur l. induction fuel as [|f IH]; intros [x|] l; simpl; try done.
  - intros [= <-]. split; [constructor|done].
  - intros (l' & Hl & ->)%fmap_Some. apply IH in Hl as [Hc Hlen]. split; [by constructor|simpl; lia].
  - intros [= <-]. split; [constructor|simpl; lia].
Qed.
Lemma is_ancestor_chain a cur t l fuel :
  chain t cur l → length l ≤ fuel → is_ancestor_loop fuel a cur t = Some (bool_decide (a ∈ l)).
Proof.
  intros H. revert fuel. induction H as [|x l _ IH]; intros fuel Hf.
  - rewrite bool_decide_eq_false_2 by apply not_elem_of_nil. by destruct fuel.
  - simpl in Hf. destruct fuel as [|f]; [lia|]. cbn [is_ancestor_loop].
    destruct (decide (x = a)) as [->|Hn]; [by rewrite bool_decide_eq_true_2 by left|].
    rewrite IH by lia. f_equal. apply bool_decide_ext. rewrite elem_of_cons. naive_solver.
Qed.
Lemma depth_chain x t l fuel :
  chain t (parent_of x t) l → length l ≤ fuel → depth_loop fuel x t = Some (length l).
Proof.
  revert x l. induction fuel as [|f IH]; intros x l H Hf; inversion H as [E1 E2|y l' Hc E1 E2]; subst;
    simpl in *; rewrite <-E1 by done; try done; try lia.
  rewrite (IH y l') by (done || lia). done.
Qed.
Lemma chain_tc t cur l a :
  chain t cur l → a ∈ l ↔ ∃ x, cur = Some x ∧ rtc (λ x p, parent_of x t = Some p) x a.
Proof.
  induction 1 as [|x l _ IH].
  - split; [by intros ?%elem_of_nil|]. by intros (? & ? & _).
  - rewrite elem_of_cons, IH. split.
    + intros [->|(y & Hy & Hr)]; [by exists x|]. exists x. split; [done|]. by eapply rtc_l.
    + intros (y & [= <-] & Hr). inversion Hr as [|? z ? Hz Hr']; subst; [by left|right; eauto].
Qed.

Lemma sum_app (l l' : list nat) : sum_list (l ++ l') = sum_list l + sum_list l'.
Proof. induction l as [|x l IH]; simpl; [done|]. rewrite IH. lia. Qed.
Lemma sum_rev {A} (f : A → nat) l : sum_list (map f (rev l)) = sum_list (map f l).
Proof.
  induction l as [|x l IH]; [done|]. simpl. rewrite map_app, sum_app, IH. simpl. lia.
Qed.

Section Queries.
Variables (l : list AgentConfig) (t : AgentTree).
Hypothesis Hwf : well_formed l.
Hypothesis Ht : built l t.

Let Hids : NoDup (ids l) := wf_ids l Hwf.

Lemma parent_of_reports x p : parent_of x t = Some p ↔ reports l x p.
Proof.
  unfold parent_of, reports. destruct Ht as (_ & -> & _). rewrite parents_of_map by done. split.
  - destruct (dget x _) as [[q|]|] eqn:E; try done. intros [= <-]. by apply dget_map_agents in E.
  - intros (a & Ha & <- & Hp).
    assert (dget (agent_id a) (map (λ a, (agent_id a, parent_id a)) l) = Some (Some p)) as ->; [|done].
    apply dget_map_agents; eauto.
Qed.
Lemma kids_of_lists x y : y ∈ kids_of x t ↔ lists l x y.
Proof.
  unfold kids_of. destruct Ht as (_ & _ & ->). rewrite kids_of_map by done. split.
  - destruct (dget x _) as [ks|] eqn:E; simpl; [|by intros ?%elem_of_nil].
    apply dget_map_agents in E as (a & Ha & <- & <-); [|done]. intros Hy. by exists a.
  - intros (a & Ha & <- & Hy).
    assert (dget (agent_id a) (map (λ a, (agent_id a, children a)) l) = Some (children a)) as ->; [|done].
    apply dget_map_agents; eauto.
Qed.
Lemma agents_length : length (_agents t) = length (ids l).
Proof.
  destruct Ht as (-> & _ & _). rewrite agents_of_map by done. unfold ids. by rewrite !length_map.
Qed.
Lemma get_member x : x ∈ ids l → ∃ a, get x t = inr a ∧ a ∈ l ∧ agent_id a = x.
Proof.
  intros (a & -> & Ha)%list_elem_of_fmap. exists a. unfold get.
  destruct Ht as (-> & _ & _). rewrite agents_of_map by done.
  assert (dget (agent_id a) (map (λ a, (agent_id a, a)) l) = Some a) as -> by (apply dget_map_agents; eauto).
  done.
Qed.

Lemma down_order : ∃ o, ordering (λ x, kids_of x t) (ids l) o.
Proof.
  apply acyclic_ordering.
  - intros x y Hy%kids_of_lists. split; [by eapply lists_ids|by eapply (wf_children l Hwf)].
  - intros x Hx. apply (wf_acyclic l Hwf x). revert Hx. generalize x at 2 4. intros y.
    induction 1 as [? ? H|? ? ? H _ IH]; apply kids_of_lists in H; [by apply tc_once|by eapply tc_l].
Qed.
Lemma up_order : ∃ o, ordering (λ x, option_list (parent_of x t)) (ids l) o.
Proof.
  assert (∀ x y, y ∈ option_list (parent_of x t) → reports l x y) as Hup.
  { intros x y. destruct (parent_of x t) as [p|] eqn:E; simpl; [|by intros ?%elem_of_nil].
    intros ->%list_elem_of_singleton. by apply parent_of_reports. }
  assert (∀ x y, reports l x y → lists l y x) as Hrl.
  { intros x y (a & Ha & <- & Hp). by apply (wf_parent l Hwf). }
  apply acyclic_ordering.
  - intros x y Hy%Hup. split.
    + destruct Hy as (a & Ha & <- & _). apply list_elem_of_fmap. by exists a.
    + by eapply lists_ids, Hrl.
  - intros x Hx. apply (wf_acyclic l Hwf x). revert Hx. generalize x at 2 3. intros y.
    induction 1 as [? ? H|? ? ? H _ IH]; apply Hup, Hrl in H; [by apply tc_once|by eapply tc_r].
Qed.

Lemma chain_ends b x fuel :
  settled (λ x, option_list (parent_of x t)) b → x ∈ b → length b ≤ fuel →
  ∃ as_, ancestors_loop fuel (Some x) t = Some as_.
Proof.
  intros Hs. revert x fuel. induction Hs as [|z b Hz He _ IH]; intros x fuel Hx Hf.
  - by apply elem_of_nil in Hx.
  - simpl in Hf. destruct fuel as [|f]; [lia|].
    apply elem_of_cons in Hx as [->|Hx]; [|apply IH; [done|lia]]. simpl.
    destruct (parent_of z t) as [p|] eqn:Ep; [|by destruct f; eexists].
    destruct (IH p f) as [as_ ->]; [|lia|by eexists].
    apply He. unfold edge. rewrite Ep. left.
Qed.
Lemma member_chain x :
  x ∈ ids l → ∃ as_, chain t (Some x) as_ ∧ length as_ ≤ length (_agents t).
Proof.
  intros Hx. destruct up_order as (o & Hs & Hel & Hlen). rewrite agents_length.
  destruct (chain_ends o x (length (ids l)) Hs) as [as_ Ha]; [by apply Hel|done|].
  exists as_. by apply (ancestors_chain _ (Some x)).
Qed.

Lemma paths_stable b x f :
  settled (λ x, kids_of x t) b → x ∈ b → length b ≤ f → paths f x t = paths (length b) x t.
Proof.
  intros Hs. revert x f. induction Hs as [|z b Hz He _ IH]; intros x f Hx Hf.
  - by apply elem_of_nil in Hx.
  - simpl in Hf. destruct f as [|f]; [lia|].
    apply elem_of_cons in Hx as [->|Hx].
    + simpl. f_equal. f_equal. apply map_ext_in. intros c Hc%list_elem_of_In.
      apply IH; [|lia]. by apply He.
    + rewrite (IH x (S f)), (IH x (length (z :: b))) by (done || simpl; lia). done.
Qed.
Definition weight (x : string) : nat := paths (length (_agents t)) x t.
Lemma weight_step x : x ∈ ids l → weight x = S (sum_list (map weight (kids_of x t))).
Proof.
  intros Hx. destruct down_order as (o & Hs & Hel & Hlen). unfold weight at 1.
  rewrite <-agents_length in Hlen.
  rewrite (paths_stable o) by (done || by apply Hel).
  rewrite <-(paths_stable o x (S (length (_agents t)))) by (done || (by apply Hel) || lia).
  done.
Qed.

Lemma subtree_spec fuel stack acc :
  (∀ x, x ∈ stack → x ∈ ids l) → sum_list (map weight stack) ≤ fuel →
  ∃ r, subtree_loop fuel stack acc t = Some r ∧
    ∀ x, x ∈ r ↔ x ∈ acc ∨ ∃ y, y ∈ stack ∧ rtc (lists l) y x.
Proof.
  revert stack acc. induction fuel as [|f IH]; intros [|x st] acc Hst Hf.
  - exists acc. split; [done|]. set_solver.
  - simpl in Hf. rewrite weight_step in Hf by (apply Hst; left). lia.
  - exists acc. split; [done|]. set_solver.
  - simpl in Hf. rewrite weight_step in Hf by (apply Hst; left). simpl.
    destruct (IH (rev (kids_of x t) ++ st)%list (acc ++ [x])%list) as (r & Hr & Hel).
    + intros y [Hy|Hy]%elem_of_app; [|apply Hst; by right].
      apply elem_of_rev, kids_of_lists in Hy. by eapply (wf_children l Hwf).
    + rewrite map_app, sum_app, sum_rev. lia.
    + exists r. split; [done|]. intros y. rewrite Hel, elem_of_app, list_elem_of_singleton. split.
      * intros [[?| ->]|(z & Hz & Hzy)]; [by left| |].
        -- right. exists x. split; [left|done].
        -- apply elem_of_app in Hz as [Hz|Hz]; right.
           ++ apply elem_of_rev, kids_of_lists in Hz. exists x. split; [left|by eapply rtc_l].
           ++ exists z. split; [by right|done].
      * intros [?|(z & [->|Hz]%elem_of_cons & Hzy)]; [tauto| |].
        -- inversion Hzy as [|? u ? Hu Hr']; subst; [tauto|]. right. exists u. split; [|done].
           apply elem_of_app. left. by apply elem_of_rev, kids_of_lists.
        -- right. exists z. split; [apply elem_of_app; by right|done].
Qed.
End Queries.

Lemma chain_last t x l : chain t (Some x) l → ∃ y, last l = Some y ∧ parent_of y t = None ∧ y ∈ l.
Proof.
  remember (Some x) as cur eqn:E. intros H. revert x E.
  induction H as [|z l Hc IH]; intros x E; [done|]. simplify_eq.
  inversion Hc as [E1 E2|u l' Hc' E1 E2]; subst.
  - exists x. split_and!; [done|done|left].
  - destruct (IH u (eq_sym E1)) as (y & Hy & Hp & Hin). exists y.
    split_and!; [by rewrite last_cons, Hy|done|by right].
Qed.

Lemma reports_ids l x y : well_formed l → rtc (reports l) x y → x ∈ ids l → y ∈ ids l.
Proof.
  intros Hwf. induction 1 as [|? ? ? (a & Ha & _ & Hp) _ IH]; [done|]. intros _. apply IH.
  by eapply lists_ids, (wf_parent l Hwf).
Qed.

(** In an accepted tree every query on a configured agent answers within its bound: the
    ancestors are the chain of parents, which ends at the root; ancestry and depth agree with it;
    the subtree is what listed children reach, and holds every agent that reports, through
    parents, to its root. *)
Theorem tree_queries l t x :
  AgentTree_init l = inr t → x ∈ ids l →
  ∃ as_ sub,
    ancestors x t = inr (Some as_) ∧ chain t (parent_of x t) as_ ∧
    last (x :: as_) = Some (_root_id t) ∧
    depth x t = inr (Some (length as_)) ∧
    (∀ a, a ∈ ids l → ∃ b, is_ancestor a x t = inr (Some b) ∧ (b = true ↔ rtc (reports l) x a)) ∧
    subtree_ids x t = inr (Some sub) ∧ (∀ y, y ∈ sub ↔ rtc (lists l) x y) ∧
    (∀ y, rtc (reports l) y x → y ∈ sub).
Proof.
  intros Hi Hx. destruct (init_inr _ _ Hi) as (Hwf & Ht & r & Hr & Hrid & Hrp).
  assert (∀ a b, rtc (λ x p, parent_of x t = Some p) a b ↔ rtc (reports l) a b) as Hpr.
  { intros a b. split; induction 1 as [|? ? ? H _ IH]; [done| |done|]; eapply rtc_l; try exact IH;
      by apply (parent_of_reports l t Hwf Ht). }
  destruct (get_member l t Hwf Ht x Hx) as (ax & Hget & _ & _).
  destruct (member_chain l t Hwf Ht x Hx) as (full & Hc & Hlen).
  pose proof Hc as Hfull. inversion Hc as [|? as_ Hc']; subst. simpl in Hlen.
  destruct (subtree_spec l t Hwf Ht (weight t x) [x] []) as (sub & Hsub & Hel).
  { intros y ->%list_elem_of_singleton. done. }
  { simpl. lia. }
  assert (∀ y, y ∈ sub ↔ rtc (lists l) x y) as Hel'.
  { intros y. rewrite Hel. split; [|set_solver].
    intros [?%elem_of_nil|(z & ->%list_elem_of_singleton & ?)]; done. }
  exists as_, sub. split_and!; try done.
  - unfold ancestors. rewrite Hget.
    assert (∀ cur l' fuel, chain t cur l' → length l' ≤ fuel → ancestors_loop fuel cur t = Some l') as Hanc.
    { clear. intros cur l' fuel H. revert fuel. induction H as [|y l' _ IH]; intros fuel Hf; [by destruct fuel|].
      simpl in Hf. destruct fuel as [|f]; [lia|]. simpl. by rewrite IH by lia. }
    rewrite (Hanc _ as_); [done|done|lia].
  - destruct (chain_last _ _ _ Hfull) as (y & Hy & Hp & Hin). rewrite Hy. f_equal.
    assert (y ∈ ids l) as Hyi.
    { apply (chain_tc _ _ _ _ Hfull) in Hin as (z & [= <-] & Hz). apply Hpr in Hz.
      by eapply reports_ids. }
    destruct Hwf as [Hids (r' & Hr' & Hroot) _ _ _]. apply list_elem_of_fmap in Hyi as (b & -> & Hb).
    assert (parent_id b = None) as Hpb.
    { destruct (parent_id b) as [q|] eqn:Eq; [|done].
      assert (parent_of (agent_id b) t = Some q); [|congruence].
      apply (parent_of_reports l); [|done|by exists b]. by apply init_inr in Hi as [? _]. }
    rewrite <-Hrid. f_equal. transitivity r'; [by apply Hroot|symmetry; by apply Hroot].
  - unfold depth. rewrite Hget. f_equal. apply depth_chain; [done|lia].
  - intros a Ha. unfold is_ancestor.
    destruct (get_member l t Hwf Ht a Ha) as (aa & -> & _ & _). rewrite Hget.
    rewrite (is_ancestor_chain a (Some x) t (x :: as_)) by done. eexists. split; [reflexivity|].
    rewrite bool_decide_eq_true, (chain_tc _ _ _ _ Hfull), <-Hpr. naive_solver.
  - unfold subtree_ids. rewrite Hget. by rewrite <-Hsub.
  - intros y Hy. apply Hel'. clear -Hy Hwf. induction Hy as [|? ? ? H _ IH]; [done|].
    eapply rtc_r; [exact IH|]. destruct H as (a & Ha & <- & Hp). by apply (wf_parent l Hwf).
Qed.

(** ** A concrete organisation *)

Definition boss : AgentConfig := mkAgent "boss" None ["ann"; "bob"] VNone.
Definition ann : AgentConfig := mkAgent "ann" (Some "boss") ["eve"] VNone.
Definition bob : AgentConfig := mkAgent "bob" (Some "boss") [] VNone.
Definition eve : AgentConfig := mkAgent "eve" (Some "ann") [] VNone.
Definition firm : list AgentConfig := [boss; ann; bob; eve].

Lemma tree_queries_witness :
  ∃ t, AgentTree_init firm = inr t ∧ subtree_ids "ann" t = inr (Some ["ann"; "eve"]) ∧
    ∃ as_, ancestors "eve" t = inr (Some as_) ∧ last ("eve" :: as_) = Some "boss".
Proof.
  destruct (AgentTree_init firm) as [e|t] eqn:E; [vm_compute in E; discriminate E|].
  exists t. split; [done|]. split; [vm_compute in E; simplify_eq; by vm_compute|].
  destruct (tree_queries firm t "eve" E) as (as_ & sub & Ha & _ & Hl & _).
  - vm_compute. do 3 right. left.
  - exists as_. split; [done|]. rewrite Hl. vm_compute in E. by simplify_eq.
Defined.

(** An agent can list the child of another one: it is accepted, the stranger may delegate to the
    child, and the child is in both subtrees. *)
Lemma stranger_child :
  let firm' := [boss; ann; mkAgent "bob" (Some "boss") ["eve"] VNone; eve] in
  match AgentTree_init firm' with
  | inr t => can_delegate_to "bob" "eve" t = true ∧ parent_of "eve" t = Some "ann" ∧
             subtree_ids "boss" t = inr (Some ["boss"; "bob"; "eve"; "ann"; "eve"])
  | inl _ => False
  end.
Proof. by vm_compute. Qed.
