(* ===== verification/LegacyResolve.v ===== *)
(** * Decision authority of the previous architecture (legacy/authority.py)

    Grants give subjects a say in eight domains; [resolve] decides whether a claim is allowed,
    blocked, unresolved or waits for consent, and [check_delegation_monotonic] compares the
    grants of a delegate with those of its delegator.

    Condition values are Python values; sets and tuples are lists. *)

From stdpp Require Import base gmap strings list pretty sorting.
From Stdlib Require Import ZArith QArith Lia.
From S2P Require Import Prelude PyValue LlmRuntime.

Open Scope string_scope.
Open Scope nat_scope.

Inductive Domain := SCOPE | CONTENT | METHOD | SCHEDULE | COST | ACCEPTANCE | RELEASE | OWNERSHIP.
#[global] Instance Domain_eq_dec : EqDecision Domain.
Proof. solve_decision. Defined.
Definition domain_value (d : Domain) : string :=
  match d with
  | SCOPE => "scope" | CONTENT => "content" | METHOD => "method" | SCHEDULE => "schedule"
  | COST => "cost" | ACCEPTANCE => "acceptance" | RELEASE => "release" | OWNERSHIP => "ownership"
  end.
Inductive Strength := FINAL | VETO | CONSULT | NONE.
#[global] Instance Strength_eq_dec : EqDecision Strength.
Proof. solve_decision. Defined.
Inductive Composition := PRIORITY | JOINT | THRESHOLD.
#[global] Instance Composition_eq_dec : EqDecision Composition.
Proof. solve_decision. Defined.
Inductive EscalationMode := ARBITRATE | TRANSFER | ADVISE.
Inductive EscalationTrigger := ON_UNRESOLVED | CONDITION_BREACHED | EXCEPTION.
#[global] Instance EscalationTrigger_eq_dec : EqDecision EscalationTrigger.
Proof. solve_decision. Defined.
Inductive DecisionState := ALLOWED | BLOCKED | UNRESOLVED | WAITING.
#[global] Instance DecisionState_eq_dec : EqDecision DecisionState.
Proof. solve_decision. Defined.

(** ** Conditions *)

Inductive ConditionOp := EQ | NE | IN | NOT_IN | GT | GTE | LT | LTE | EXISTS.
Inductive CondTruth := TRUE | FALSE | UNKNOWN.
#[global] Instance CondTruth_eq_dec : EqDecision CondTruth.
Proof. solve_decision. Defined.

(** [v > w], [v >= w], [v < w], [v <= w]: numbers by value, strings and lists by the first
    difference; other pairs are a [TypeError]. *)
Definition holds (op : ConditionOp) (c : comparison) : bool :=
  match op, c with
  | GT, Gt | GTE, Gt | GTE, Eq | LT, Lt | LTE, Lt | LTE, Eq => true
  | _, _ => false
  end.
Fixpoint py_compare (op : ConditionOp) (v w : value) : option bool :=
  match v, w with
  | VStr s, VStr t => Some (holds op (String.compare s t))
  | VList l, VList l' =>
      (fix go l l' := match l, l' with
                      | [], [] => Some (holds op Eq)
                      | [], _ :: _ => Some (holds op Lt)
                      | _ :: _, [] => Some (holds op Gt)
                      | x :: l, y :: l' => if py_eq x y then go l l' else py_compare op x y
                      end) l l'
  | _, _ => match as_number v, as_number w with
            | Some p, Some q => Some (holds op (Qcompare p q))
            | _, _ => None
            end
  end.

Record Condition := Cond { field : string; cop : ConditionOp; cvalue : value }.
Definition truth (b : bool) : CondTruth := if b then TRUE else FALSE.
Definition evaluate (c : Condition) (ctx : dict value) : CondTruth :=
  match cop c with
  | EXISTS =>
      let want := if is_none (cvalue c) then true else truthy (cvalue c) in
      truth (Bool.eqb (dmem (field c) ctx) want)
  | o =>
      match dget (field c) ctx with
      | None => UNKNOWN
      | Some v =>
          match o with
          | EQ => truth (py_eq v (cvalue c))
          | NE => truth (negb (py_eq v (cvalue c)))
          | IN | NOT_IN =>
              match cvalue c with
              | VList l =>
                  let inside := existsb (py_eq v) l in
                  truth (match o with IN => inside | _ => negb inside end)
              | _ => UNKNOWN
              end
          | _ => match py_compare o v (cvalue c) with Some b => truth b | None => UNKNOWN end
          end
      end
  end.

(** ** Grants, requests and results *)

Record Escalation := Escalate { on : EscalationTrigger; mode : EscalationMode; target : string }.
Record AuthorityGrant := Grant {
  subject : string; domain : Domain; context : option string; strength : Strength;
  composition : option Composition; conditions : list Condition; escalation : option Escalation;
  priority : Z; threshold_n : Z }.
Record DecisionRequest := Request {
  r_subject : string; r_domain : Domain; r_context : option string;
  condition_context : dict value; consenting : list string; exception : bool }.
Record DecisionResult := Result {
  state : DecisionState; d_domain : Domain; winner : option string; reason : string;
  matched : list string; effective_finals : list string; effective_vetoes : list string;
  consults : list string; d_escalation : option Escalation }.

Definition _desc (g : AuthorityGrant) : string :=
  subject g +:+ "@" +:+ domain_value (domain g) +:+ ":"
  +:+ match context g with Some c => if nonempty c then c else "*" | None => "*" end.

(** [s[:-1]] *)
Definition drop_last (s : string) : string := String.substring 0 (String.length s - 1) s.
Definition wildcard_of (pattern s : string) : bool := endswith "*" pattern && startswith (drop_last pattern) s.

Definition _context_specificity (grant_ctx request_ctx : option string) : nat :=
  match grant_ctx, request_ctx with
  | None, _ => 1
  | Some _, None => 0
  | Some g, Some r => if decide (g = r) then 3 else if wildcard_of g r then 2 else 0
  end.
Definition _grant_effective (g : AuthorityGrant) (ctx : dict value) : bool :=
  forallb (λ c, bool_decide (evaluate c ctx = TRUE)) (conditions g).

Fixpoint _escalation_for (grants : list AuthorityGrant) (trigger : EscalationTrigger)
    (request : DecisionRequest) : option Escalation :=
  match grants with
  | [] => None
  | g :: l =>
      match escalation g with
      | Some e => if decide (on e = if exception request then EXCEPTION else trigger) then Some e
                  else _escalation_for l trigger request
      | None => _escalation_for l trigger request
      end
  end.

(** ** Resolution *)

Definition has_strength (s : Strength) (g : AuthorityGrant) : bool := bool_decide (strength g = s).
(** The one composition of several finals, [None] when there is none or more than one. *)
Definition one_composition (finals : list AuthorityGrant) : option Composition :=
  match finals with
  | f :: _ =>
      match composition f with
      | Some c => if forallb (λ g, bool_decide (composition g = Some c)) finals then Some c else None
      | None => None
      end
  | [] => None
  end.
Definition best_priority (finals : list AuthorityGrant) : Z :=
  match finals with
  | f :: l => foldl (λ m g, Z.max m (priority g)) (priority f) l
  | [] => 0%Z
  end.
Definition py_set (l : list string) : list string := remove_dups l.
Definition sorted (l : list string) : list string := py_sorted String.leb l.
Definition show_list (l : list string) : string := repr (VList (map VStr l)).

Section Resolve.
Variables (request : DecisionRequest) (domain_grants : list AuthorityGrant).
Definition consent : list string := r_subject request :: consenting request.
Definition result (s : DecisionState) (w : option string) (why : string) (finals : list AuthorityGrant)
    (seen : list string) (e : option Escalation) : DecisionResult :=
  Result s (r_domain request) w why (map _desc domain_grants) (map _desc finals) [] seen e.
Definition unresolved (why : string) (finals : list AuthorityGrant) (seen : list string) : DecisionResult :=
  result UNRESOLVED None why finals seen (_escalation_for domain_grants ON_UNRESOLVED request).

Definition by_holder (finals : list AuthorityGrant) (seen : list string) (holder : AuthorityGrant) :
    DecisionResult :=
  if decide (r_subject request = subject holder)
  then result ALLOWED (Some (subject holder)) (subject holder +:+ " decides") finals seen None
  else result WAITING None ("decision belongs to " +:+ subject holder +:+ " (consent required)")
         finals seen None.
Definition by_priority (finals : list AuthorityGrant) (seen : list string) : DecisionResult :=
  match List.filter (λ f, bool_decide (priority f = best_priority finals)) finals with
  | [holder] => by_holder finals seen holder
  | _ => unresolved "priority composition: tie — no implicit winner" finals seen
  end.
Definition by_joint (finals : list AuthorityGrant) (seen : list string) : DecisionResult :=
  let needed := py_set (map subject finals) in
  match sorted (List.filter (λ s, negb (bool_decide (s ∈ consent))) needed) with
  | [] => result ALLOWED (Some ("joint:" +:+ str_join "," (sorted needed))) "joint consent complete"
            finals seen None
  | missing => result WAITING None ("joint consent missing: " +:+ show_list missing) finals seen None
  end.
Definition by_threshold (finals : list AuthorityGrant) (seen : list string) : DecisionResult :=
  let n := Z.max 1 (match finals with f :: _ => threshold_n f | [] => 1 end)%Z in
  let consented := sorted (List.filter (λ s, bool_decide (s ∈ consent)) (py_set (map subject finals))) in
  let ratio := pretty (Z.of_nat (length consented)) +:+ "/" +:+ pretty n in
  if (Z.of_nat (length consented) <? n)%Z
  then result WAITING None ("threshold " +:+ ratio +:+ " not met") finals seen None
  else result ALLOWED (Some ("threshold:" +:+ str_join "," consented)) ("threshold " +:+ ratio +:+ " met")
         finals seen None.
Definition by_finals (finals : list AuthorityGrant) (seen : list string) : DecisionResult :=
  match finals with
  | [holder] => by_holder finals seen holder
  | _ =>
      match one_composition finals with
      | None => unresolved "multiple finals without a single composition" finals seen
      | Some PRIORITY => by_priority finals seen
      | Some JOINT => by_joint finals seen
      | Some THRESHOLD => by_threshold finals seen
      end
  end.

Definition tier (spec : nat) : list AuthorityGrant :=
  List.filter (λ g, bool_decide (_context_specificity (context g) (r_context request) = spec)) domain_grants.
Definition effective (spec : nat) : list AuthorityGrant :=
  List.filter (λ g, _grant_effective g (condition_context request)) (tier spec).

(** The loop over the tiers; a tier without grants decides nothing. *)
Fixpoint resolve_tiers (specs : list nat) (seen : list string) : DecisionResult :=
  match specs with
  | [] => unresolved "no final authority for domain/context" [] seen
  | spec :: specs' =>
      match List.filter (has_strength VETO) (effective spec) with
      | v :: vs =>
          Result BLOCKED (r_domain request) None ("effective veto by " +:+ subject v)
            (map _desc domain_grants) [] (map _desc (v :: vs)) seen
            (_escalation_for (v :: vs) CONDITION_BREACHED request)
      | [] =>
          let seen := (seen ++ map _desc (List.filter (has_strength CONSULT) (effective spec)))%list in
          match List.filter (has_strength FINAL) (effective spec) with
          | [] => resolve_tiers specs' seen
          | finals => by_finals finals seen
          end
      end
  end.
End Resolve.

Definition in_domain (d : Domain) (grants : list AuthorityGrant) : list AuthorityGrant :=
  List.filter (λ g, bool_decide (domain g = d)) grants.
Definition resolve (request : DecisionRequest) (grants : list AuthorityGrant) : DecisionResult :=
  match in_domain (r_domain request) grants with
  | [] => Result UNRESOLVED (r_domain request) None "no authority grant for domain" [] [] [] []
            (_escalation_for [] ON_UNRESOLVED request)
  | gs => resolve_tiers request gs [3; 2; 1] []
  end.

(** ** Claims over several domains *)

Record DecisionClaim := Claim {
  claim_id : string; c_subject : string; effect_ref : string; domains : list Domain;
  c_context : option string; c_conditions : dict value; c_consenting : list string }.
(** A domain that is named twice keeps its place. *)
Fixpoint set_domain (d : Domain) (r : DecisionResult) (l : list (Domain * DecisionResult)) :
    list (Domain * DecisionResult) :=
  match l with
  | [] => [(d, r)]
  | (d', r') :: l' => if decide (d = d') then (d, r) :: l' else (d', r') :: set_domain d r l'
  end.
Definition resolve_claim (c : DecisionClaim) (grants : list AuthorityGrant) :
    list (Domain * DecisionResult) :=
  foldl (λ out d, set_domain d (resolve (Request (c_subject c) d (c_context c) (c_conditions c)
                                           (c_consenting c) false) grants) out) [] (domains c).
Definition claim_overall (results : list (Domain * DecisionResult)) : DecisionState :=
  let any s := existsb (λ dr, bool_decide (state dr.2 = s)) results in
  if any BLOCKED then BLOCKED else if any UNRESOLVED then UNRESOLVED
  else if any WAITING then WAITING else ALLOWED.

(** ** Delegation *)

Definition _context_covers (delegator_ctx child_ctx : option string) : bool :=
  match delegator_ctx, child_ctx with
  | None, _ => true
  | Some _, None => false
  | Some d, Some c =>
      if decide (d = c) then true
      else if wildcard_of d c then true
      else if wildcard_of c d then true
      else false
  end.
Definition deciding (g : AuthorityGrant) : bool := has_strength FINAL g || has_strength VETO g.
Definition covered (delegator : list AuthorityGrant) (cg : AuthorityGrant) : bool :=
  existsb (λ dg, bool_decide (domain dg = domain cg) && deciding dg
                 && _context_covers (context dg) (context cg)) delegator.
Definition check_delegation_monotonic (delegator child : list AuthorityGrant) : list string :=
  map (λ cg, "child grant " +:+ _desc cg +:+ " not covered by delegator authority")
    (List.filter (λ cg, deciding cg && negb (covered delegator cg)) child).

(** ** The state of a decision

    The state depends on the finals of the most specific tier that decides. *)

Definition finals_state (r : DecisionRequest) (finals : list AuthorityGrant) : DecisionState :=
  state (by_finals r [] finals []).
Fixpoint tiers_state (r : DecisionRequest) (gs : list AuthorityGrant) (specs : list nat) : DecisionState :=
  match specs with
  | [] => UNRESOLVED
  | spec :: specs' =>
      match List.filter (has_strength VETO) (effective r gs spec) with
      | _ :: _ => BLOCKED
      | [] => match List.filter (has_strength FINAL) (effective r gs spec) with
              | [] => tiers_state r gs specs'
              | finals => finals_state r finals
              end
      end
  end.

Lemma by_finals_state r gs finals seen : state (by_finals r gs finals seen) = finals_state r finals.
Proof.
  unfold finals_state, by_finals, by_priority, by_holder, by_joint, by_threshold.
  repeat match goal with
  | |- context [match ?x with _ => _ end] =>
      lazymatch x with
      | context [match _ with _ => _ end] => fail
      | _ => destruct x
      end
  | |- context [if ?x then _ else _] => destruct x
  end; done.
Qed.
Lemma resolve_tiers_state r gs specs seen :
  state (resolve_tiers r gs specs seen) = tiers_state r gs specs.
Proof.
  revert seen. induction specs as [|spec specs IH]; intros seen; [done|]. cbn [resolve_tiers tiers_state].
  destruct (List.filter (has_strength VETO) _); [|done].
  destruct (List.filter (has_strength FINAL) _); [apply IH|apply by_finals_state].
Qed.
Lemma resolve_state r grants :
  state (resolve r grants) = tiers_state r (in_domain (r_domain r) grants) [3; 2; 1].
Proof.
  unfold resolve. destruct (in_domain _ _) as [|g gs]; [done|]. apply resolve_tiers_state.
Qed.

(** ** Permuted grants *)

Lemma filter_permutation {A} (f : A → bool) l l' : l ≡ₚ l' → List.filter f l ≡ₚ List.filter f l'.
Proof.
  induction 1 as [|x l l' _ IH|x y l|? ? ? _ IH1 _ IH2]; simpl.
  - done.
  - destruct (f x); [by constructor|done].
  - destruct (f x), (f y); try done. apply perm_swap.
  - by etrans.
Qed.
Lemma one_composition_Some fs c :
  one_composition fs = Some c ↔ fs ≠ [] ∧ ∀ f, f ∈ fs → composition f = Some c.
Proof.
  destruct fs as [|f fs]; [by split; [|intros [[] _]]|]. unfold one_composition. split.
  - destruct (composition f) as [c'|] eqn:E; [|done].
    destruct (forallb _ _) eqn:Ef; [|done]. intros [= ->]. split; [done|].
    rewrite forallb_forall in Ef. intros g Hg%list_elem_of_In. apply Ef in Hg.
    by apply bool_decide_eq_true in Hg.
  - intros [_ H]. rewrite (H f) by left.
    assert (forallb (λ g, bool_decide (composition g = Some c)) (f :: fs) = true) as ->; [|done].
    apply forallb_forall. intros g Hg%list_elem_of_In. apply bool_decide_eq_true. by apply H.
Qed.
Lemma one_composition_perm fs fs' : fs ≡ₚ fs' → one_composition fs = one_composition fs'.
Proof.
  intros Hp. assert (∀ c, one_composition fs = Some c ↔ one_composition fs' = Some c) as H.
  { assert (∀ f, f ∈ fs ↔ f ∈ fs') as Hel by (intros f; by rewrite Hp).
    intros c. rewrite !one_composition_Some. setoid_rewrite Hel. split; intros [Hn ?]; (split; [|done]);
      intros ->; apply Hn; [by apply Permutation_nil_r|by apply Permutation_nil]. }
  destruct (one_composition fs) as [c|]; [by symmetry; apply H|].
  destruct (one_composition fs') as [c|]; [by apply H|done].
Qed.
Lemma foldl_max_spec (l : list AuthorityGrant) m :
  let b := foldl (λ m g, Z.max m (priority g)) m l in
  (m ≤ b)%Z ∧ (∀ f, f ∈ l → (priority f ≤ b)%Z) ∧ (b = m ∨ ∃ f, f ∈ l ∧ priority f = b).
Proof.
  revert m. induction l as [|g l IH]; intros m; simpl.
  - split_and!; [lia|by intros f ?%elem_of_nil|by left].
  - destruct (IH (Z.max m (priority g))) as (H1 & H2 & H3). split_and!; [lia| |].
    + intros f [->|Hf]%elem_of_cons; [lia|by apply H2].
    + destruct H3 as [H3|(f & Hf & H3)]; [|right; exists f; split; [by right|done]].
      destruct (Z.max_spec m (priority g)) as [[_ E]|[_ E]]; rewrite E in *; [|by left].
      right. exists g. split; [left|done].
Qed.
Lemma best_priority_spec fs :
  fs ≠ [] → (∃ f, f ∈ fs ∧ priority f = best_priority fs) ∧ ∀ f, f ∈ fs → (priority f ≤ best_priority fs)%Z.
Proof.
  destruct fs as [|g l]; [done|]. intros _. unfold best_priority.
  destruct (foldl_max_spec l (priority g)) as (H1 & H2 & H3). split.
  - destruct H3 as [H3|(f & Hf & H3)]; [exists g; split; [left|done]|exists f; split; [by right|done]].
  - intros f [->|Hf]%elem_of_cons; auto.
Qed.
Lemma best_priority_perm fs fs' : fs ≡ₚ fs' → best_priority fs = best_priority fs'.
Proof.
  intros Hp. destruct (decide (fs = [])) as [->|Hn].
  { apply Permutation_nil in Hp. by subst. }
  assert (fs' ≠ []) as Hn' by (intros ->; by apply Permutation_nil_r in Hp).
  destruct (best_priority_spec fs Hn) as [(f & Hf & Ef) Hb].
  destruct (best_priority_spec fs' Hn') as [(f' & Hf' & Ef') Hb'].
  rewrite Hp in Hf. rewrite <-Hp in Hf'. apply Hb' in Hf. apply Hb in Hf'. lia.
Qed.
Lemma sorted_nil l : sorted l = [] ↔ l = [].
Proof.
  unfold sorted. pose proof (py_sorted_perm String.leb l) as Hp. split; [|by intros ->].
  intros H. rewrite H in Hp. by apply Permutation_nil in Hp.
Qed.
Lemma sorted_length l : length (sorted l) = length l.
Proof. unfold sorted. by rewrite py_sorted_perm. Qed.
Lemma py_set_perm l l' : l ≡ₚ l' → py_set l ≡ₚ py_set l'.
Proof.
  intros H. apply NoDup_Permutation; [apply NoDup_remove_dups..|]. intros x.
  unfold py_set. by rewrite !elem_of_remove_dups, H.
Qed.

(** The consents counted among the finals. *)
Definition consented (r : DecisionRequest) (fs : list AuthorityGrant) : nat :=
  length (List.filter (λ s, bool_decide (s ∈ consent r)) (py_set (map subject fs))).
Definition holder_state (r : DecisionRequest) (holder : AuthorityGrant) : DecisionState :=
  if decide (r_subject r = subject holder) then ALLOWED else WAITING.

Lemma one_final_state r f : finals_state r [f] = holder_state r f.
Proof. unfold finals_state, by_finals, by_holder, holder_state. by destruct (decide _). Qed.
Lemma joint_state r gs fs seen :
  state (by_joint r gs fs seen) =
    if forallb (λ f, bool_decide (subject f ∈ consent r)) fs then ALLOWED else WAITING.
Proof.
  unfold by_joint.
  destruct (sorted (List.filter _ _)) as [|m ms] eqn:E; simpl.
  - apply (proj1 (sorted_nil _)) in E.
    assert (forallb (λ f, bool_decide (subject f ∈ consent r)) fs = true) as ->; [|done].
    apply forallb_forall. intros f Hf%list_elem_of_In. apply bool_decide_eq_true.
    destruct (decide (subject f ∈ consent r)) as [|Hn]; [done|].
    destruct (not_elem_of_nil (subject f)). rewrite <-E. apply elem_of_bfilter.
    rewrite negb_true_iff, bool_decide_eq_false. split; [|done].
    unfold py_set. apply elem_of_remove_dups, list_elem_of_fmap. by exists f.
  - destruct (forallb _ fs) eqn:Ef; [|done]. rewrite forallb_forall in Ef.
    assert (m ∈ sorted (List.filter (λ s, negb (bool_decide (s ∈ consent r))) (py_set (map subject fs)))) as Hm
      by (rewrite E; left).
    unfold sorted in Hm. apply py_sorted_elem, elem_of_bfilter in Hm as [Hm Hn].
    unfold py_set in Hm. apply elem_of_remove_dups, list_elem_of_fmap in Hm as (f & -> & Hf%list_elem_of_In).
    apply Ef in Hf. by rewrite Hf in Hn.
Qed.
Lemma threshold_state r gs fs seen :
  state (by_threshold r gs fs seen) =
    if (Z.of_nat (consented r fs) <? Z.max 1 (match fs with f :: _ => threshold_n f | [] => 1 end))%Z
    then WAITING else ALLOWED.
Proof. unfold by_threshold, consented. rewrite sorted_length. by destruct (_ <? _)%Z. Qed.
Lemma priority_state r gs fs seen :
  state (by_priority r gs fs seen) =
    match List.filter (λ f, bool_decide (priority f = best_priority fs)) fs with
    | [h] => holder_state r h
    | _ => UNRESOLVED
    end.
Proof.
  unfold by_priority, by_holder, holder_state.
  destruct (List.filter _ _) as [|h [|]]; try done. by destruct (decide _).
Qed.
(** Several finals. *)
Lemma many_finals_state r f g fs :
  finals_state r (f :: g :: fs) =
    match one_composition (f :: g :: fs) with
    | None => UNRESOLVED
    | Some PRIORITY => state (by_priority r [] (f :: g :: fs) [])
    | Some JOINT => state (by_joint r [] (f :: g :: fs) [])
    | Some THRESHOLD => state (by_threshold r [] (f :: g :: fs) [])
    end.
Proof. unfold finals_state, by_finals. by destruct (one_composition _) as [[]|]. Qed.

Lemma finals_state_perm r fs fs' :
  fs ≡ₚ fs' → (∀ f g, f ∈ fs → g ∈ fs → threshold_n f = threshold_n g) →
  finals_state r fs = finals_state r fs'.
Proof.
  intros Hp Hn. pose proof (Permutation_length Hp) as Hlen.
  destruct fs as [|f [|g fs]], fs' as [|f' [|g' fs']]; try done.
  - apply Permutation_singleton_inj in Hp. by rewrite Hp.
  - rewrite !many_finals_state, (one_composition_perm _ _ Hp).
    destruct (one_composition _) as [[]|]; [..|done].
    + rewrite !priority_state, (best_priority_perm _ _ Hp).
      pose proof (filter_permutation (λ h, bool_decide (priority h = best_priority (f' :: g' :: fs'))) _ _ Hp) as Hf.
      pose proof (Permutation_length Hf) as Hfl.
      destruct (List.filter _ (f :: g :: fs)) as [|h [|]], (List.filter _ (f' :: g' :: fs')) as [|h' [|]]; try done.
      apply Permutation_singleton_inj in Hf. by rewrite Hf.
    + rewrite !joint_state.
      assert (∀ b, forallb (λ h, bool_decide (subject h ∈ consent r)) (f :: g :: fs) = b ↔
                   forallb (λ h, bool_decide (subject h ∈ consent r)) (f' :: g' :: fs') = b) as Hb.
      { assert (forallb (λ h, bool_decide (subject h ∈ consent r)) (f :: g :: fs) = true ↔
                forallb (λ h, bool_decide (subject h ∈ consent r)) (f' :: g' :: fs') = true) as Ht.
        { assert (∀ h, h ∈ f :: g :: fs ↔ h ∈ f' :: g' :: fs') as Hel by (intros h; by rewrite Hp).
        rewrite !forallb_forall. setoid_rewrite <-list_elem_of_In. by setoid_rewrite Hel. }
        intros []; [done|]. rewrite <-!not_true_iff_false. by rewrite Ht. }
      by rewrite (proj2 (Hb _) eq_refl).
    + rewrite !threshold_state. unfold consented.
      rewrite (Hn f f') by (first [left|rewrite Hp; left]).
      pose proof (filter_permutation (λ s, bool_decide (s ∈ consent r)) _ _
                    (py_set_perm _ _ (Permutation_map subject Hp))) as Hf.
      by rewrite (Permutation_length Hf).
Qed.

Lemma effective_perm r gs gs' spec : gs ≡ₚ gs' → effective r gs spec ≡ₚ effective r gs' spec.
Proof. intros H. unfold effective, tier. by do 2 apply filter_permutation. Qed.
Lemma tiers_state_perm r gs gs' specs :
  gs ≡ₚ gs' → (∀ f g, f ∈ gs → g ∈ gs → threshold_n f = threshold_n g) →
  tiers_state r gs specs = tiers_state r gs' specs.
Proof.
  intros Hp Hn. induction specs as [|spec specs IH]; [done|]. cbn [tiers_state].
  pose proof (effective_perm r _ _ spec Hp) as He.
  pose proof (filter_permutation (has_strength VETO) _ _ He) as Hv.
  pose proof (filter_permutation (has_strength FINAL) _ _ He) as Hf.
  pose proof (Permutation_length Hv) as Hvl. pose proof (Permutation_length Hf) as Hfl.
  destruct (List.filter (has_strength VETO) (effective r gs spec)),
    (List.filter (has_strength VETO) (effective r gs' spec)); try done.
  destruct (List.filter (has_strength FINAL) (effective r gs spec)) as [|f fs] eqn:Ef,
    (List.filter (has_strength FINAL) (effective r gs' spec)); try done.
  apply finals_state_perm; [done|].
  assert (∀ x, x ∈ f :: fs → x ∈ gs) as Hin.
  { intros x Hx. rewrite <-Ef in Hx. unfold effective, tier in Hx. rewrite !elem_of_bfilter in Hx. tauto. }
  intros x y Hx Hy. apply Hn; by apply Hin.
Qed.

(** C29: The order in which grants are declared does not matter to a decision, unless they disagree on
    the number of consents. *)
Theorem resolve_order r grants grants' :
  grants ≡ₚ grants' → (∀ f g, f ∈ grants → g ∈ grants → threshold_n f = threshold_n g) →
  state (resolve r grants) = state (resolve r grants').
Proof.
  intros Hp Hn. rewrite !resolve_state. apply tiers_state_perm.
  - by apply filter_permutation.
  - intros f g Hf Hg. unfold in_domain in *. apply elem_of_bfilter in Hf, Hg. naive_solver.
Qed.

(** ** Consent and exclusive decisions *)

(** The finals that decide a request, whoever asks. *)
Fixpoint deciders (r : DecisionRequest) (gs : list AuthorityGrant) (specs : list nat) :
    option (list AuthorityGrant) :=
  match specs with
  | [] => None
  | spec :: specs' =>
      match List.filter (has_strength VETO) (effective r gs spec) with
      | _ :: _ => None
      | [] => match List.filter (has_strength FINAL) (effective r gs spec) with
              | [] => deciders r gs specs'
              | finals => Some finals
              end
      end
  end.
Definition with_asker (who : string) (agreed : list string) (r : DecisionRequest) : DecisionRequest :=
  Request who (r_domain r) (r_context r) (condition_context r) agreed (exception r).

Lemma deciders_asker who agreed r gs specs :
  deciders (with_asker who agreed r) gs specs = deciders r gs specs.
Proof. by induction specs as [|spec specs IH]; simpl; [|rewrite IH]. Qed.
Lemma tiers_allowed r gs specs :
  tiers_state r gs specs = ALLOWED →
  ∃ finals, deciders r gs specs = Some finals ∧ finals_state r finals = ALLOWED.
Proof.
  induction specs as [|spec specs IH]; [done|]. cbn [tiers_state deciders].
  destruct (List.filter (has_strength VETO) _); [|done].
  destruct (List.filter (has_strength FINAL) _); [done|eauto].
Qed.
Lemma deciders_allowed r gs specs finals :
  deciders r gs specs = Some finals → tiers_state r gs specs = finals_state r finals.
Proof.
  induction specs as [|spec specs IH]; [done|]. cbn [tiers_state deciders].
  destruct (List.filter (has_strength VETO) _); [|done].
  destruct (List.filter (has_strength FINAL) _); [done|by intros [= <-]].
Qed.
Lemma deciders_in r gs specs finals f :
  deciders r gs specs = Some finals → f ∈ finals → f ∈ gs ∧ strength f = FINAL.
Proof.
  induction specs as [|spec specs IH]; [done|]. cbn [deciders].
  destruct (List.filter (has_strength VETO) _); [|done].
  destruct (List.filter (has_strength FINAL) _) as [|x xs] eqn:E; [done|]. intros [= <-] Hf.
  rewrite <-E in Hf. unfold effective, tier, has_strength in Hf. rewrite !elem_of_bfilter in Hf.
  destruct Hf as (((? & _) & _) & ?%bool_decide_eq_true). done.
Qed.

(** A request is allowed for its own asker, or by the consents it counts. *)
Lemma finals_allowed r finals :
  finals_state r finals = ALLOWED →
  (∃ f, f ∈ finals ∧ subject f = r_subject r ∧
     (finals = [f] ∨ one_composition finals = Some PRIORITY ∧
        ∀ g, g ∈ finals → g = f ∨ (priority g < priority f)%Z)) ∨
  (one_composition finals = Some JOINT ∧ ∀ f, f ∈ finals → subject f ∈ consent r) ∨
  (one_composition finals = Some THRESHOLD ∧ 1 ≤ consented r finals).
Proof.
  destruct finals as [|f [|g fs]]; [done| |].
  - rewrite one_final_state. unfold holder_state. destruct (decide _) as [E|]; [|done].
    intros _. left. exists f. split_and!; [left|done|by left].
  - rewrite many_finals_state. destruct (one_composition _) as [[]|] eqn:Ec; [..|done].
    + rewrite priority_state. destruct (List.filter _ _) as [|h [|]] eqn:Eh; try done.
      unfold holder_state. destruct (decide _) as [E|]; [|done]. intros _. left.
      assert (∀ x, x ∈ f :: g :: fs ∧ priority x = best_priority (f :: g :: fs) ↔ x = h) as Hh.
      { intros x. rewrite <-(list_elem_of_singleton x h), <-Eh, elem_of_bfilter, bool_decide_eq_true. done. }
      destruct (proj2 (Hh h) eq_refl) as [Hin Hp]. exists h.
      split_and!; [done|done|]. right. split; [done|]. intros x Hx.
      destruct (best_priority_spec (f :: g :: fs)) as [_ Hle]; [done|]. specialize (Hle x Hx).
      destruct (decide (priority x = best_priority (f :: g :: fs))) as [Ex|Ex]; [left; by apply Hh|right; lia].
    + rewrite joint_state. destruct (forallb _ _) eqn:Ef; [|done]. intros _. right. left.
      split; [done|]. rewrite forallb_forall in Ef. intros x Hx%list_elem_of_In.
      apply Ef in Hx. by apply bool_decide_eq_true in Hx.
    + rewrite threshold_state. destruct (_ <? _)%Z eqn:El; [done|]. intros _. right. right.
      split; [done|]. lia.
Qed.

(** Without consents of others a matter has at most one decider: two subjects are never both
    allowed, unless a threshold lets each of several decide. *)
Theorem one_decider r grants a b :
  (∀ g, g ∈ grants → composition g ≠ Some THRESHOLD) →
  state (resolve (with_asker a [] r) grants) = ALLOWED →
  state (resolve (with_asker b [] r) grants) = ALLOWED → a = b.
Proof.
  intros Hg Ha Hb. rewrite !resolve_state in Ha, Hb. cbn [r_domain with_asker] in Ha, Hb.
  apply tiers_allowed in Ha as (fa & Hda & Ha). apply tiers_allowed in Hb as (fb & Hdb & Hb).
  rewrite deciders_asker in Hda, Hdb. rewrite Hda in Hdb. simplify_eq.
  assert (one_composition fb ≠ Some THRESHOLD) as Ht.
  { intros [Hn Hc]%one_composition_Some. destruct fb as [|f fb]; [done|].
    destruct (deciders_in _ _ _ _ f Hda) as [Hin _]; [left|]. unfold in_domain in Hin.
    apply elem_of_bfilter in Hin as [Hin _]. apply (Hg f Hin), Hc. left. }
  apply finals_allowed in Ha, Hb. cbn [r_subject with_asker consent consenting] in Ha, Hb.
  assert (∀ f c, f ∈ fb → subject f ∈ [c] → subject f = c) as H1
    by (intros f c _ ?%list_elem_of_singleton; done).
  destruct Ha as [(f & Hf & Hfa & Hfu)|[[Hj Ha]|[Ht' _]]]; [..|done];
  destruct Hb as [(g & Hg' & Hgb & Hgu)|[[Hj' Hb]|[Ht' _]]]; try done.
  - rewrite <-Hfa, <-Hgb. f_equal.
    destruct Hfu as [->|[_ Hfu]]; [by apply list_elem_of_singleton in Hg'|].
    destruct Hgu as [->|[_ Hgu]]; [by apply list_elem_of_singleton in Hf|].
    destruct (Hfu g Hg') as [|Hlt]; [done|]. destruct (Hgu f Hf) as [|Hlt']; [done|]. lia.
  - rewrite <-Hfa. by apply (H1 f b Hf), Hb.
  - rewrite <-Hgb. symmetry. by apply (H1 g a Hg'), Ha.
  - destruct fb as [|f fb]; [by apply one_composition_Some in Hj as [[] _]|].
    transitivity (subject f); [symmetry; apply H1; [left|apply Ha; left]|apply H1; [left|apply Hb; left]].
Qed.

(** More consent never takes a decision back. *)
Lemma allowed_monotone r grants agreed :
  consenting r ⊆ agreed → state (resolve r grants) = ALLOWED →
  state (resolve (with_asker (r_subject r) agreed r) grants) = ALLOWED.
Proof.
  intros Hag. rewrite !resolve_state. cbn [r_domain with_asker]. intros H.
  apply tiers_allowed in H as (fs & Hd & Hf).
  rewrite (deciders_allowed _ _ _ fs) by by rewrite deciders_asker.
  revert Hf. destruct fs as [|f [|g fs]]; [done|by rewrite !one_final_state|].
  rewrite !many_finals_state. destruct (one_composition _) as [[]|]; [..|done].
  - by rewrite !priority_state.
  - rewrite !joint_state. destruct (forallb _ (f :: g :: fs)) eqn:E; [|done]. intros _.
    rewrite forallb_forall in E.
    assert (forallb (λ h, bool_decide (subject h ∈ consent (with_asker (r_subject r) agreed r)))
              (f :: g :: fs) = true) as ->; [|done].
    apply forallb_forall. intros x Hx. apply E in Hx. rewrite bool_decide_eq_true in Hx |- *.
    unfold consent in *. cbn [r_subject consenting with_asker]. set_solver.
  - rewrite !threshold_state.
    assert (consented r (f :: g :: fs) ≤ consented (with_asker (r_subject r) agreed r) (f :: g :: fs)) as Hle.
    { unfold consented. generalize (py_set (map subject (f :: g :: fs))). intros l.
      induction l as [|x l IH]; [done|]. cbn [List.filter].
      destruct (decide (x ∈ consent r)) as [Hx|Hx].
      - rewrite (bool_decide_eq_true_2 _ Hx).
        assert (x ∈ consent (with_asker (r_subject r) agreed r)) as Hx'
          by (unfold consent in *; cbn [r_subject consenting with_asker]; set_solver).
        rewrite (bool_decide_eq_true_2 _ Hx'). simpl. lia.
      - rewrite (bool_decide_eq_false_2 _ Hx). destruct (bool_decide _); simpl; lia. }
    revert Hle. generalize (consented r (f :: g :: fs)), (Z.max 1 (threshold_n f)).
    generalize (consented (with_asker (r_subject r) agreed r) (f :: g :: fs)). intros n' n k Hle.
    destruct (Z.ltb_spec (Z.of_nat n) k); [done|]. intros _.
    destruct (Z.ltb_spec (Z.of_nat n') k); [lia|done].
Qed.

(** A veto that is effective in the most specific tier blocks, whoever asks and consents. *)
Lemma veto_blocks r grants g who agreed :
  g ∈ grants → domain g = r_domain r → strength g = VETO → context g = r_context r →
  context g ≠ None → _grant_effective g (condition_context r) = true →
  state (resolve (with_asker who agreed r) grants) = BLOCKED.
Proof.
  intros Hg Hd Hs Hc Hn He. rewrite resolve_state. cbn [r_domain with_asker tiers_state].
  assert (g ∈ List.filter (has_strength VETO)
                (effective (with_asker who agreed r) (in_domain (r_domain r) grants) 3)) as Hin.
  { unfold effective, tier, in_domain, has_strength. rewrite !elem_of_bfilter, !bool_decide_eq_true.
    split_and!; try done. cbn [r_context with_asker]. rewrite <-Hc.
    destruct (context g) as [c|]; [|done]. simpl. by rewrite decide_True. }
  destruct (List.filter (has_strength VETO) _); [by apply elem_of_nil in Hin|done].
Qed.

(** A grant with a condition that is not known to hold plays no part in the decision. *)
Lemma unknown_never_counts r grants :
  state (resolve r (List.filter (λ g, _grant_effective g (condition_context r)) grants))
  = state (resolve r grants).
Proof.
  rewrite !resolve_state.
  assert (∀ spec, effective r (in_domain (r_domain r)
                    (List.filter (λ g, _grant_effective g (condition_context r)) grants)) spec
                  = effective r (in_domain (r_domain r) grants) spec) as He.
  { intros spec. unfold effective, tier, in_domain. induction grants as [|g l IH]; [done|]. cbn [List.filter].
    destruct (_grant_effective g (condition_context r)) eqn:E; cbn [List.filter].
    - destruct (bool_decide (domain g = r_domain r)); cbn [List.filter]; [|done].
      destruct (bool_decide (_ = spec)); cbn [List.filter]; [|done]. rewrite E. by f_equal.
    - destruct (bool_decide (domain g = r_domain r)); cbn [List.filter]; [|done].
      destruct (bool_decide (_ = spec)); cbn [List.filter]; [|done]. by rewrite E. }
  generalize [3; 2; 1]. intros specs. induction specs as [|spec specs IH]; [done|].
  cbn [tiers_state]. by rewrite He, IH.
Qed.

(** ** Concrete decisions *)

Definition simple (who : string) (s : Strength) (c : option string) : AuthorityGrant :=
  Grant who RELEASE c s None [] None 0 1.
Definition prioritised (who : string) (p : Z) : AuthorityGrant :=
  Grant who RELEASE None FINAL (Some PRIORITY) [] None p 1.
Definition counted (who : string) (n : Z) : AuthorityGrant :=
  Grant who RELEASE None FINAL (Some THRESHOLD) [] None 0 n.
Definition ask (who : string) (agreed : list string) : DecisionRequest :=
  Request who RELEASE (Some "p:a") [] agreed false.

Lemma resolve_order_witness :
  let grants := [prioritised "ann" 1; prioritised "bob" 2; simple "eve" CONSULT (Some "p:*")] in
  state (resolve (ask "bob" []) grants) = state (resolve (ask "bob" []) (rev grants)) ∧
  state (resolve (ask "bob" []) grants) = ALLOWED.
Proof.
  split; [|by vm_compute]. apply resolve_order.
  - apply Permutation_rev.
  - intros f g Hf Hg. repeat (apply elem_of_cons in Hf as [->|Hf]; [|]); [..|by apply elem_of_nil in Hf];
      repeat (apply elem_of_cons in Hg as [->|Hg]; [done|]); by apply elem_of_nil in Hg.
Defined.
Lemma one_decider_witness :
  let grants := [prioritised "ann" 1; prioritised "bob" 2] in
  state (resolve (ask "bob" []) grants) = ALLOWED ∧ state (resolve (ask "ann" []) grants) ≠ ALLOWED.
Proof.
  split; [by vm_compute|]. intros H.
  assert ("ann" = "bob") as E; [|discriminate E].
  apply (one_decider (ask "ann" []) [prioritised "ann" 1; prioritised "bob" 2] "ann" "bob").
  - intros g Hg. repeat (apply elem_of_cons in Hg as [->|Hg]; [done|]). by apply elem_of_nil in Hg.
  - exact H.
  - by vm_compute.
Defined.

(** Finals that disagree on the number of consents: the one declared first decides. *)
Lemma threshold_order_matters :
  state (resolve (ask "ann" []) [counted "ann" 1; counted "bob" 2]) = ALLOWED ∧
  state (resolve (ask "ann" []) [counted "bob" 2; counted "ann" 1]) = WAITING.
Proof. by vm_compute. Qed.

(** A delegate with a wildcard passes the check against a delegator with one context, and decides
    where the delegator does not. *)
Lemma delegation_broadens :
  let delegator := [simple "ann" FINAL (Some "p:b")] in
  let child := [simple "bob" FINAL (Some "p:*")] in
  check_delegation_monotonic delegator child = [] ∧
  state (resolve (ask "bob" []) child) = ALLOWED ∧ state (resolve (ask "ann" []) delegator) = UNRESOLVED.
Proof. by vm_compute. Qed.
