(* ===== verification/LegacyOrg.v ===== *)
(** * Organisation and authorisation of the previous architecture

    legacy/devices/base.py, devices/authority.py, models/position.py and devices/org.py: devices
    declare entities; an Authority registers them and holds two layers of grants, agent to
    position and position to entity; an organisation is an Authority with positions, whose edges
    obey governance rules and whose occupants inherit the job description as memory.

    Identifiers are strings; the n-th one a device draws is [uuid4 device n].  A Python set is a
    finite set, which code that iterates over it sees in the order of [iter].  An error is its
    class, its text is left out.  Positions a caller keeps a reference to are copied here. *)

From stdpp Require Import base gmap strings list pretty relations.
From Stdlib Require Import ZArith Lia.
From S2P Require Import Prelude PyValue LegacyGraph.

Open Scope string_scope.
Open Scope nat_scope.

(** ** Devices (devices/base.py) *)

Inductive EntityKind := DATA | TOOL | TOOLPACK.
Record InjectionDecl := Injection { content : string; source_tag : string }.
Record RegisteredEntity := Entity {
  entity_id : string; device_id : string; kind : EntityKind; label : string;
  injection : option InjectionDecl }.
Record Device := mkDevice { dev_id : string; _entities : dict RegisteredEntity; drawn : nat }.

(** ** Authority (devices/authority.py) *)

Inductive GrantEffect := ALLOWED | DENIED | REQUIRES_APPROVAL.
#[global] Instance GrantEffect_eq_dec : EqDecision GrantEffect.
Proof. solve_decision. Defined.
Definition effect_value (e : GrantEffect) : string :=
  match e with
  | ALLOWED => "allowed" | DENIED => "denied" | REQUIRES_APPROVAL => "requires_approval"
  end.
Record CapabilityGrant := Grant {
  g_position : string; g_entity : string; g_effect : GrantEffect; g_priority : Z }.
Record Decision := Decide { effect : GrantEffect; d_entity : string; d_position : option string }.
Definition allowed (d : Decision) : bool := negb (bool_decide (effect d = DENIED)).
Record MemoryInjection := Memory {
  m_entity : string; m_device : string; m_content : string; m_tag : string; m_position : string;
  m_priority : Z }.

Record Authority := mkAuthority {
  team_id : string; owner_agent_id : string; dev : Device;
  _registry : dict RegisteredEntity;
  _memberships : dict (gset string);
  _capabilities : dict (list CapabilityGrant) }.

Inductive org_error :=
| AuthorityError | DuplicateAuthorityError | UnknownEntityError | NotOwnerError
| OrgError | OrgPermissionDenied | OrgPositionNotFound | OrgDuplicatePosition
| GovernanceInvariantError | ValueError_ | KeyError_.

Definition set_dev (f : Device → Device) (a : Authority) : Authority :=
  mkAuthority (team_id a) (owner_agent_id a) (f (dev a)) (_registry a) (_memberships a) (_capabilities a).
Definition set_registry (f : dict RegisteredEntity → dict RegisteredEntity) (a : Authority) : Authority :=
  mkAuthority (team_id a) (owner_agent_id a) (dev a) (f (_registry a)) (_memberships a) (_capabilities a).
Definition set_memberships (f : dict (gset string) → dict (gset string)) (a : Authority) : Authority :=
  mkAuthority (team_id a) (owner_agent_id a) (dev a) (_registry a) (f (_memberships a)) (_capabilities a).
Definition set_capabilities (f : dict (list CapabilityGrant) → dict (list CapabilityGrant))
    (a : Authority) : Authority :=
  mkAuthority (team_id a) (owner_agent_id a) (dev a) (_registry a) (_memberships a) (f (_capabilities a)).

(** ** Positions (models/position.py) *)

Record Position := mkPosition {
  position_id : string; name : string; jd : string; superior_id : option string;
  subordinate_ids : list string; collaborator_ids : list string }.
(** The validator of a position: no edge to itself. *)
Definition position_new (p : Position) : org_error + Position :=
  if bool_decide (superior_id p = Some (position_id p)) || bool_decide (position_id p ∈ subordinate_ids p)
     || bool_decide (position_id p ∈ collaborator_ids p)
  then inl ValueError_ else inr p.

Definition positions := dict Position.
Definition graph_superior (id : string) (g : positions) : option Position :=
  match dget id g with
  | Some p => match superior_id p with Some s => dget s g | None => None end
  | None => None
  end.
Definition graph_subordinates (id : string) (g : positions) : list Position :=
  match dget id g with Some p => omap (λ s, dget s g) (subordinate_ids p) | None => [] end.
Definition graph_collaborators (id : string) (g : positions) : list Position :=
  match dget id g with Some p => omap (λ s, dget s g) (collaborator_ids p) | None => [] end.
(** [PositionGraph(positions)]: a later position with the same identifier replaces an earlier one. *)
Definition PositionGraph (ps : list Position) : positions :=
  foldl (λ d p, dset (position_id p) p d) [] ps.

Inductive EdgeKind := SUPERIOR | SUBORDINATE | COLLABORATOR.
#[global] Instance EdgeKind_eq_dec : EqDecision EdgeKind.
Proof. solve_decision. Defined.
Definition edge_value (k : EdgeKind) : string :=
  match k with SUPERIOR => "superior" | SUBORDINATE => "subordinate" | COLLABORATOR => "collaborator" end.
Inductive EdgeDirection := In_ | Out_ | Bidirectional.
Inductive DelegationMode := NoDelegation | Command | Request.
#[global] Instance DelegationMode_eq_dec : EqDecision DelegationMode.
Proof. solve_decision. Defined.
Record EdgeSemanticsDeclaration := EdgeDecl {
  e_kind : EdgeKind; direction : EdgeDirection; delegation_mode : DelegationMode;
  refusal_allowed : bool; escalation_target : bool; transfers_accountability : bool;
  veto_transferable : bool; transfers_ownership : bool; description : string }.
Definition edge_decl_new (d : EdgeSemanticsDeclaration) : org_error + EdgeSemanticsDeclaration :=
  if refusal_allowed d && negb (bool_decide (delegation_mode d = Request)) then inl ValueError_ else inr d.

Definition semantics := list (EdgeKind * EdgeSemanticsDeclaration).
Definition DEFAULT_EDGE_SEMANTICS : semantics :=
  [(SUPERIOR, EdgeDecl SUPERIOR In_ NoDelegation false true false false false
      "唯一入边：上报/escalation 对象；不可向它委派任务（§5.8）");
   (SUBORDINATE, EdgeDecl SUBORDINATE Out_ Command false false false false false
      "出边集合：可命令委派；下属不可拒绝，只能 fail（§5.8）");
   (COLLABORATOR, EdgeDecl COLLABORATOR Bidirectional Request true false false false false
      "双向集合：可请求委派（请求帮忙），可拒绝（declined + 回执）；通信与共享上下文（§5.8）")].
Fixpoint edge_get (k : EdgeKind) (s : semantics) : option EdgeSemanticsDeclaration :=
  match s with
  | [] => None
  | (k', d) :: s' => if decide (k = k') then Some d else edge_get k s'
  end.
(** The field rules: accountability, veto and ownership are not handed on. *)
Definition validate_edge_semantics (l : list EdgeSemanticsDeclaration) : bool :=
  forallb (λ d, negb (transfers_accountability d || veto_transferable d || transfers_ownership d)) l.

Definition _dangling_edge (known : list string) (p : Position) : bool :=
  negb (match superior_id p with Some s => bool_decide (s ∈ known) | None => true end
        && forallb (λ s, bool_decide (s ∈ known)) (subordinate_ids p)
        && forallb (λ s, bool_decide (s ∈ known)) (collaborator_ids p)).

(** The targets an edge kind delegates to. *)
Definition delegates (sem : semantics) (k : EdgeKind) (ids : list string) : list string :=
  match edge_get k sem with
  | Some d => if decide (delegation_mode d = NoDelegation) then [] else ids
  | None => []
  end.
Definition _delegation_graph (ps : list Position) (sem : semantics) : dict (gset string) :=
  foldl (λ g p,
    dset (position_id p)
      (default ∅ (dget (position_id p) g)
       ∪ list_to_set (delegates sem SUBORDINATE (subordinate_ids p))
       ∪ list_to_set (delegates sem COLLABORATOR (collaborator_ids p))) g) [] ps.

(** ** Ownership of artefacts (models/position.py) *)

Inductive ArtifactKind := TASK | REPORT | MAIL.
#[global] Instance ArtifactKind_eq_dec : EqDecision ArtifactKind.
Proof. solve_decision. Defined.
Record ArtifactOwnership := Ownership { a_kind : ArtifactKind; account : string; a_position : string }.
Definition same_artifact (k : ArtifactKind) (a : string) (o : ArtifactOwnership) : bool :=
  bool_decide (a_kind o = k) && bool_decide (account o = a).
Definition owner (k : ArtifactKind) (a : string) (r : list ArtifactOwnership) : option string :=
  a_position <$> List.find (same_artifact k a) r.
(** [add]: an equal entry is stored again in its place. *)
Definition add_ownership (o : ArtifactOwnership) (r : list ArtifactOwnership) :
    org_error + list ArtifactOwnership :=
  match owner (a_kind o) (account o) r with
  | Some p => if decide (p = a_position o)
              then inr (map (λ x, if same_artifact (a_kind o) (account o) x then o else x) r)
              else inl ValueError_
  | None => inr (r ++ [o])%list
  end.
Definition for_position (p : string) (r : list ArtifactOwnership) : list ArtifactOwnership :=
  List.filter (λ o, bool_decide (a_position o = p)) r.

Definition PRIORITY_THRESHOLD : Z := 10.
Inductive PriorityClass := FIXED_WORKING_MEMORY | TRIGGERED_RECALL.
Definition priority_class (p : Z) : PriorityClass :=
  if (p <? PRIORITY_THRESHOLD)%Z then FIXED_WORKING_MEMORY else TRIGGERED_RECALL.

(** ** The organisation (devices/org.py) *)

Record OrgChange := Change {
  c_op : string; actor_agent_id : string; c_position : string; c_entity : string; detail : string }.
Record OrgStructure := mkOrg {
  auth : Authority;
  edge_semantics : semantics;
  journal_sink : option (list OrgChange);
  _positions : positions;
  _position_memory : dict (string * string);
  org_manage_id : string;
  _semantics_entities : list (EdgeKind * string) }.

Definition set_auth (f : Authority → Authority) (s : OrgStructure) : OrgStructure :=
  mkOrg (f (auth s)) (edge_semantics s) (journal_sink s) (_positions s) (_position_memory s)
    (org_manage_id s) (_semantics_entities s).
Definition set_positions (ps : positions) (s : OrgStructure) : OrgStructure :=
  mkOrg (auth s) (edge_semantics s) (journal_sink s) ps (_position_memory s)
    (org_manage_id s) (_semantics_entities s).
Definition set_memory (f : dict (string * string) → dict (string * string)) (s : OrgStructure) : OrgStructure :=
  mkOrg (auth s) (edge_semantics s) (journal_sink s) (_positions s) (f (_position_memory s))
    (org_manage_id s) (_semantics_entities s).

Definition _record (c : OrgChange) (s : OrgStructure) : OrgStructure :=
  mkOrg (auth s) (edge_semantics s) ((λ l, l ++ [c])%list <$> journal_sink s) (_positions s)
    (_position_memory s) (org_manage_id s) (_semantics_entities s).

(** An operation of the organisation: it returns or raises, and leaves a state. *)
Definition O (A : Type) : Type := OrgStructure → (org_error + A) * OrgStructure.
#[global] Instance O_ret : MRet O := λ A a s, (inr a, s).
#[global] Instance O_bind : MBind O := λ A B f m s,
  match m s with (inr a, s') => f a s' | (inl e, s') => (inl e, s') end.
Definition fail_with {A} (e : org_error) : O A := λ s, (inl e, s).
Definition reading {A} (f : OrgStructure → A) : O A := λ s, (inr (f s), s).
Definition changing (f : OrgStructure → OrgStructure) : O () := λ s, (inr (), f s).
Definition ofor {A} (f : A → O ()) : list A → O () :=
  fix go l := match l with [] => mret () | x :: l' => f x ;; go l' end.

Section Organisation.
Variable uuid4 : string → nat → string.
Variable iter : gset string → list string.

Definition new_id (d : Device) : string := uuid4 (dev_id d) (drawn d).
Definition register_entity (k : EntityKind) (l : string) (i : option InjectionDecl) (eid : option string)
    (d : Device) : string * Device :=
  match eid with
  | Some e => (e, mkDevice (dev_id d) (dset e (Entity e (dev_id d) k l i) (_entities d)) (drawn d))
  | None =>
      let e := new_id d in
      (e, mkDevice (dev_id d) (dset e (Entity e (dev_id d) k l i) (_entities d)) (S (drawn d)))
  end.
Definition injected_content_for (eid : string) (d : Device) : option InjectionDecl :=
  match dget eid (_entities d) with Some e => injection e | None => None end.

(** *** The Authority *)

(** The constructor, on the registry of teams: each team has one Authority. *)
Definition Authority_init (team own did : string) (register : bool) (teams : dict string) :
    (org_error + Authority) * dict string :=
  let a := mkAuthority team own (mkDevice did [] 0) [] [] [] in
  if register then
    if dmem team teams then (inl DuplicateAuthorityError, teams)
    else (inr a, dset team did teams)
  else (inr a, teams).

(** [accept_device]: the entities before one that is registered already stay registered. *)
Fixpoint accept_entities (l : list RegisteredEntity) (r : dict RegisteredEntity) :
    option org_error * dict RegisteredEntity :=
  match l with
  | [] => (None, r)
  | e :: l' => if dmem (entity_id e) r then (Some AuthorityError, r)
               else accept_entities l' (dset (entity_id e) e r)
  end.
Definition accept_device (d : Device) (a : Authority) : option org_error * Authority :=
  let '(e, r) := accept_entities (dvalues (_entities d)) (_registry a) in (e, set_registry (λ _, r) a).
Definition register_self (l : string) (a : Authority) : (org_error + string) * Authority :=
  let '(eid, d) := register_entity DATA l None None (dev a) in
  let a := set_dev (λ _, d) a in
  match accept_device (dev a) a with
  | (Some e, a) => (inl e, a)
  | (None, a) => (inr eid, a)
  end.
Definition is_registered (eid : string) (a : Authority) : bool := dmem eid (_registry a).

Definition positions_of (agent : string) (a : Authority) : gset string :=
  default ∅ (dget agent (_memberships a)).
Definition grant_membership (agent pos : string) : Authority → Authority :=
  set_memberships (λ m, dset agent ({[pos]} ∪ default ∅ (dget agent m)) m).
Definition revoke_membership (agent pos : string) (a : Authority) : Authority :=
  match dget agent (_memberships a) with
  | Some ps => set_memberships (dset agent (ps ∖ {[pos]})) a
  | None => a
  end.
Definition grants_at (pos : string) (a : Authority) : list CapabilityGrant :=
  default [] (dget pos (_capabilities a)).
Definition base_grant_capability (pos eid : string) (eff : GrantEffect) (prio : Z) (a : Authority) :
    option org_error * Authority :=
  if is_registered eid a
  then (None, set_capabilities (dset pos (grants_at pos a ++ [Grant pos eid eff prio])%list) a)
  else (Some UnknownEntityError, a).
Definition revoke_capability (pos eid : string) (a : Authority) : Authority :=
  set_capabilities (dset pos (List.filter (λ g, negb (bool_decide (g_entity g = eid))) (grants_at pos a))) a.

Definition _grants_for (agent eid : string) (a : Authority) : list CapabilityGrant :=
  flat_map (λ p, List.filter (λ g, bool_decide (g_entity g = eid)) (grants_at p a))
    (iter (positions_of agent a)).
Definition with_effect (e : GrantEffect) (l : list CapabilityGrant) : option CapabilityGrant :=
  List.find (λ g, bool_decide (g_effect g = e)) l.
Definition authorize (agent eid : string) (a : Authority) : Decision :=
  if negb (is_registered eid a) then Decide DENIED eid None else
  match _grants_for agent eid a with
  | [] => Decide DENIED eid None
  | g0 :: gs =>
      match with_effect DENIED (g0 :: gs) with
      | Some g => Decide DENIED eid (Some (g_position g))
      | None =>
          match with_effect ALLOWED (g0 :: gs) with
          | Some g => Decide ALLOWED eid (Some (g_position g))
          | None => Decide REQUIRES_APPROVAL eid (Some (g_position g0))
          end
      end
  end.
Definition injection_for (agent : string) (a : Authority) : list MemoryInjection :=
  flat_map (λ p,
    omap (λ g,
      match dget (g_entity g) (_registry a) with
      | Some e => match injection e with
                  | Some i => Some (Memory (entity_id e) (device_id e) (content i) (source_tag i) p
                                      (g_priority g))
                  | None => None
                  end
      | None => None
      end) (grants_at p a))
    (iter (positions_of agent a)).
Definition effective_capabilities (agent : string) (a : Authority) : list CapabilityGrant :=
  flat_map (λ eid, _grants_for agent eid a) (dkeys (_registry a)).

(** [Authority.replace]: the new instance takes over registry and wiring. *)
Definition base_replace (old new : Authority) (by_agent : string) (teams : dict string) :
    org_error + Authority * dict string :=
  if negb (bool_decide (by_agent = owner_agent_id old)) then inl NotOwnerError
  else if negb (bool_decide (team_id new = team_id old)) then inl AuthorityError
  else inr (mkAuthority (team_id new) (owner_agent_id new) (dev new) (_registry old) (_memberships old)
              (_capabilities old), dset (team_id old) (dev_id (dev new)) teams).

(** *** Governance *)

Definition successors (g : dict (gset string)) (x : string) : list string :=
  iter (default ∅ (dget x g)).
Definition _find_cycle (g : dict (gset string)) : dfs_result :=
  search (successors g) (length g) (dkeys g) [].
(** [semantics or DEFAULT_EDGE_SEMANTICS] *)
Definition semantics_or_default (sem : semantics) : semantics :=
  match sem with [] => DEFAULT_EDGE_SEMANTICS | _ => sem end.
Definition validate_governance_invariants (ps : list Position) (sem : semantics) : bool :=
  let sem := semantics_or_default sem in
  validate_edge_semantics (map snd sem)
  && forallb (λ p, negb (_dangling_edge (map position_id ps) p)) ps
  && match _find_cycle (_delegation_graph ps sem) with Finished _ => true | _ => false end.

(** *** Operations *)

Definition ORG_MEMORY_PRIORITY : Z := 1.

Definition _check_org_permission (by_agent : string) : O () := λ s,
  if allowed (authorize by_agent (org_manage_id s) (auth s)) then (inr (), s)
  else (inl OrgPermissionDenied, s).
Definition _require_position (pid : string) : O Position := λ s,
  match dget pid (_positions s) with Some p => (inr p, s) | None => (inl OrgPositionNotFound, s) end.
Definition require_governed (ps : list Position) : O () := λ s,
  if validate_governance_invariants ps (edge_semantics s) then (inr (), s)
  else (inl GovernanceInvariantError, s).

Definition register_missing (l : list RegisteredEntity) (r : dict RegisteredEntity) : dict RegisteredEntity :=
  foldl (λ r e, if dmem (entity_id e) r then r else dset (entity_id e) e r) r l.
Definition _ensure_own_entities_registered : OrgStructure → OrgStructure :=
  set_auth (λ a, set_registry (register_missing (dvalues (_entities (dev a)))) a).
Definition grant_capability (pos eid : string) (eff : GrantEffect) (prio : Z) : O () := λ s,
  let s := _ensure_own_entities_registered s in
  match base_grant_capability pos eid eff prio (auth s) with
  | (Some e, a) => (inl e, set_auth (λ _, a) s)
  | (None, a) => (inr (), set_auth (λ _, a) s)
  end.

Definition _relations_content (p : Position) (ps : positions) : string :=
  let names ids := map name (omap (λ i, dget i ps) ids) in
  let sup := match superior_id p with
             | Some i => match dget i ps with Some q => ["上级岗位：" +:+ name q] | None => [] end
             | None => []
             end in
  let part title l := match l with [] => [] | _ => [title +:+ str_join "、" l] end in
  str_join "；" (sup ++ part "下属岗位：" (names (subordinate_ids p))
                 ++ part "协作岗位：" (names (collaborator_ids p)))%list.
Definition _register_memory_entity (l text tag : string) : O string := λ s,
  let '(eid, d) := register_entity DATA l (Some (Injection text tag)) None (dev (auth s)) in
  let a := set_dev (λ _, d) (auth s) in
  let a := match dget eid (_entities d) with
           | Some e => set_registry (dset eid e) a | None => a end in
  (inr eid, set_auth (λ _, a) s).
Definition _sync_position_memory (p : Position) : O () :=
  jd_eid ← _register_memory_entity ("jd:" +:+ name p) (jd p) "[POSITION_JD]";
  rel ← reading (λ s, _relations_content p (_positions s));
  edge_eid ← _register_memory_entity ("edges:" +:+ name p) rel "[ORG_EDGE]";
  grant_capability (position_id p) jd_eid ALLOWED ORG_MEMORY_PRIORITY ;;
  grant_capability (position_id p) edge_eid ALLOWED ORG_MEMORY_PRIORITY ;;
  changing (set_memory (dset (position_id p) (jd_eid, edge_eid))).
Definition _update_memory_content (eid text : string) : O () := λ s,
  match dget eid (_entities (dev (auth s))) with
  | None => (inl KeyError_, s)
  | Some e =>
      let u := Entity (entity_id e) (device_id e) (kind e) (label e)
                 (Some (Injection text (match injection e with Some i => source_tag i | None => "" end))) in
      (inr (), set_auth (λ a, set_registry (dset eid u)
                 (set_dev (λ d, mkDevice (dev_id d) (dset eid u (_entities d)) (drawn d)) a)) s)
  end.
Definition _refresh_relations (p : Position) : O () := λ s,
  match dget (position_id p) (_position_memory s) with
  | None => (inr (), s)
  | Some (_, edge_eid) => _update_memory_content edge_eid (_relations_content p (_positions s)) s
  end.

Definition install (p : Position) : O () :=
  changing (λ s, set_positions (dset (position_id p) p (_positions s)) s) ;;
  _sync_position_memory p.
Definition bootstrap (new : list Position) (root_agent root_position : option string) : O () :=
  old ← reading _positions;
  (if existsb (λ p, dmem (position_id p) old) new then fail_with OrgDuplicatePosition else mret ()) ;;
  require_governed (dvalues old ++ new) ;;
  ofor install new ;;
  let n := pretty (Z.of_nat (length new)) in
  match root_agent with
  | Some agent =>
      match root_position with
      | None => fail_with OrgError
      | Some rp =>
          _require_position rp ;;
          manage ← reading org_manage_id;
          grant_capability rp manage ALLOWED ORG_MEMORY_PRIORITY ;;
          changing (set_auth (grant_membership agent rp)) ;;
          changing (_record (Change "bootstrap" agent rp "" ("安装 " +:+ n +:+ " 个岗位并建立 root 授予")))
      end
  | None =>
      match new with
      | [] => mret ()
      | _ => own ← reading (λ s, owner_agent_id (auth s));
             changing (_record (Change "bootstrap" own "" "" ("安装 " +:+ n +:+ " 个岗位")))
      end
  end.

Definition add_position (p : Position) (by_agent : string) : O () :=
  _check_org_permission by_agent ;;
  old ← reading _positions;
  (if dmem (position_id p) old then fail_with OrgDuplicatePosition else mret ()) ;;
  require_governed (dvalues old ++ [p]) ;;
  install p ;;
  changing (_record (Change "add_position" by_agent (position_id p) "" (name p))).

Definition drop_edges (pid : string) (p : Position) : Position :=
  mkPosition (position_id p) (name p) (jd p)
    (if decide (superior_id p = Some pid) then None else superior_id p)
    (List.filter (λ x, negb (bool_decide (x = pid))) (subordinate_ids p))
    (List.filter (λ x, negb (bool_decide (x = pid))) (collaborator_ids p)).
Definition drop_entity (eid : string) (a : Authority) : Authority :=
  set_registry (dpop eid) (set_dev (λ d, mkDevice (dev_id d) (dpop eid (_entities d)) (drawn d)) a).
Definition remove_position (pid by_agent : string) : O () :=
  _check_org_permission by_agent ;;
  _require_position pid ;;
  old ← reading _positions;
  let prospective := map (λ kv, (kv.1, drop_edges pid kv.2)) (dpop pid old) in
  require_governed (dvalues prospective) ;;
  changing (set_positions prospective) ;;
  memory ← reading (λ s, default ("", "") (dget pid (_position_memory s)));
  changing (set_memory (dpop pid)) ;;
  ofor (λ eid, if nonempty eid
               then changing (set_auth (λ a, drop_entity eid (revoke_capability pid eid a)))
               else mret ()) [memory.1; memory.2] ;;
  changing (set_auth (λ a, set_memberships (map (λ kv, (kv.1, kv.2 ∖ {[pid]})))
                             (set_capabilities (dpop pid) a))) ;;
  ofor _refresh_relations (dvalues prospective) ;;
  changing (_record (Change "remove_position" by_agent pid "" "")).

Definition with_jd (text : string) (p : Position) : Position :=
  mkPosition (position_id p) (name p) text (superior_id p) (subordinate_ids p) (collaborator_ids p).
Definition set_jd (pid text by_agent : string) : O () :=
  _check_org_permission by_agent ;;
  p ← _require_position pid;
  changing (λ s, set_positions (dset pid (with_jd text p) (_positions s)) s) ;;
  memory ← reading (λ s, dget pid (_position_memory s));
  match memory with
  | None => fail_with KeyError_
  | Some (jd_eid, _) => _update_memory_content jd_eid text
  end ;;
  changing (_record (Change "set_jd" by_agent pid "" "")).

Definition set_superior_id (x : option string) (p : Position) : Position :=
  mkPosition (position_id p) (name p) (jd p) x (subordinate_ids p) (collaborator_ids p).
Definition set_subordinates (f : list string → list string) (p : Position) : Position :=
  mkPosition (position_id p) (name p) (jd p) (superior_id p) (f (subordinate_ids p)) (collaborator_ids p).
Definition set_collaborators (f : list string → list string) (p : Position) : Position :=
  mkPosition (position_id p) (name p) (jd p) (superior_id p) (subordinate_ids p) (f (collaborator_ids p)).
Definition change (k : string) (f : Position → Position) (ps : positions) : positions :=
  match dget k ps with Some p => dset k (f p) ps | None => ps end.
Definition without (x : string) : list string → list string :=
  List.filter (λ y, negb (bool_decide (y = x))).

Definition _link_superior (sub : string) (sup : option string) (ps : positions) : org_error + positions :=
  if bool_decide (sup = Some sub) then inl OrgError
  else if match sup with Some x => negb (dmem x ps) | None => false end then inl OrgPositionNotFound
  else match dget sub ps with
  | None => inl OrgPositionNotFound
  | Some pos =>
      let ps := match superior_id pos with
                | Some old => if bool_decide (sup = Some old) then ps
                              else change old (set_subordinates (without sub)) ps
                | None => ps
                end in
      let ps := change sub (set_superior_id sup) ps in
      inr (match sup with
           | Some x => change x (set_subordinates (λ l, if decide (sub ∈ l) then l else l ++ [sub])%list) ps
           | None => ps
           end)
  end.
Definition _mutate_positions (by_agent op pid : string) (mutate : positions → org_error + positions) : O () :=
  _check_org_permission by_agent ;;
  _require_position pid ;;
  old ← reading _positions;
  match mutate old with
  | inl e => fail_with e
  | inr prospective =>
      require_governed (dvalues prospective) ;;
      changing (set_positions prospective) ;;
      ofor _refresh_relations (dvalues prospective) ;;
      changing (_record (Change op by_agent pid "" ""))
  end.
Definition set_superior (pid : string) (sup : option string) (by_agent : string) : O () :=
  _mutate_positions by_agent "set_superior" pid (_link_superior pid sup).
Definition add_subordinate (manager sub by_agent : string) : O () :=
  _mutate_positions by_agent "add_subordinate" manager (_link_superior sub (Some manager)).
Definition remove_subordinate (manager sub by_agent : string) : O () :=
  _mutate_positions by_agent "remove_subordinate" manager (λ ps,
    if negb (dmem manager ps && dmem sub ps) then inl OrgPositionNotFound
    else inr (change sub (λ p, if decide (superior_id p = Some manager) then set_superior_id None p else p)
                (change manager (set_subordinates (without sub)) ps))).
Definition add_collaborator (pid other by_agent : string) : O () :=
  _mutate_positions by_agent "add_collaborator" pid (λ ps,
    if negb (dmem pid ps && dmem other ps) then inl OrgPositionNotFound
    else inr (change pid (set_collaborators (λ l, if decide (other ∈ l) then l else l ++ [other])%list) ps)).
Definition remove_collaborator (pid other by_agent : string) : O () :=
  _mutate_positions by_agent "remove_collaborator" pid (λ ps,
    if negb (dmem pid ps) then inl OrgPositionNotFound
    else inr (change pid (set_collaborators (without other)) ps)).

Definition show_Z (z : Z) : string := pretty z.
Definition grant_org_capability (pid eid by_agent : string) (eff : GrantEffect) (prio : Z) : O () :=
  _check_org_permission by_agent ;;
  _require_position pid ;;
  grant_capability pid eid eff prio ;;
  changing (_record (Change "grant_capability" by_agent pid eid
                       ("effect=" +:+ effect_value eff +:+ ", priority=" +:+ show_Z prio))).
Definition revoke_org_capability (pid eid by_agent : string) : O () :=
  _check_org_permission by_agent ;;
  _require_position pid ;;
  changing (set_auth (revoke_capability pid eid)) ;;
  changing (_record (Change "revoke_capability" by_agent pid eid "")).
Definition grant_org_membership (agent pid by_agent : string) : O () :=
  _check_org_permission by_agent ;;
  _require_position pid ;;
  changing (set_auth (grant_membership agent pid)) ;;
  changing (_record (Change "grant_membership" by_agent pid agent "")).
Definition revoke_org_membership (agent pid by_agent : string) : O () :=
  _check_org_permission by_agent ;;
  _require_position pid ;;
  changing (set_auth (revoke_membership agent pid)) ;;
  changing (_record (Change "revoke_membership" by_agent pid agent "")).
(** The agent's own [position_ref] is the result of [mount]. *)
Definition mount (agent pid by_agent note : string) : O string :=
  _check_org_permission by_agent ;;
  _require_position pid ;;
  changing (set_auth (grant_membership agent pid)) ;;
  changing (_record (Change "mount" by_agent pid agent ("note=" +:+ note))) ;;
  mret pid.
Definition unmount (agent pid by_agent : string) : O () :=
  _check_org_permission by_agent ;;
  _require_position pid ;;
  changing (set_auth (revoke_membership agent pid)) ;;
  changing (_record (Change "unmount" by_agent pid agent "")).
Definition project_mount (pid by_agent : string) : O (list CapabilityGrant) :=
  _check_org_permission by_agent ;;
  _require_position pid ;;
  reading (λ s, grants_at pid (auth s)).
Definition list_positions (by_agent : string) : O positions :=
  _check_org_permission by_agent ;; reading _positions.
Definition get_position (pid by_agent : string) : O (option Position) :=
  _check_org_permission by_agent ;; reading (λ s, dget pid (_positions s)).

(** *** Construction and replacement *)

Definition register_semantics (d : Device) (sem : semantics) : list (EdgeKind * string) * Device :=
  foldl (λ '(l, d) kd,
    let '(eid, d) := register_entity TOOL ("edge:" +:+ edge_value kd.1)
                       (Some (Injection (description kd.2 +:+ "（" +:+ edge_value kd.1 +:+ " 边语义，N8 求值）")
                                "[EDGE_SEMANTICS]")) None d in
    ((l ++ [(kd.1, eid)])%list, d)) ([], d) sem.
Definition OrgStructure_init (team own did : string) (register : bool) (sem : semantics)
    (sink : option (list OrgChange)) (teams : dict string) : (org_error + OrgStructure) * dict string :=
  match Authority_init team own did register teams with
  | (inl e, teams) => (inl e, teams)
  | (inr a, teams) =>
      let sem := semantics_or_default sem in
      if negb (validate_edge_semantics (map snd sem)) then (inl GovernanceInvariantError, teams) else
      let '(manage, d) := register_entity TOOLPACK "org-manage"
        (Some (Injection "组织架构管理：读改写岗位/边/授权、mount（岗人分离）。root 级 agent 持本权限即可做组织调整（§5.8）。"
                 "[ORG_GUIDE]")) None (dev a) in
      let '(ents, d) := register_semantics d sem in
      match accept_device d (set_dev (λ _, d) a) with
      | (Some e, _) => (inl e, teams)
      | (None, a) => (inr (mkOrg a sem sink [] [] manage ents), teams)
      end
  end.

(** The grants of the manage entity of [old] now name that of the new organisation. *)
Definition repoint (old_id new_id : string) (l : list CapabilityGrant) : list CapabilityGrant :=
  map (λ g, if decide (g_entity g = old_id) then Grant (g_position g) new_id (g_effect g) (g_priority g)
            else g) l.
Definition _adopt_from (old : OrgStructure) : O () :=
  ofor (λ m, changing (set_auth (λ a, revoke_capability m.1 m.2.2 (revoke_capability m.1 m.2.1 a))))
    (_position_memory old) ;;
  changing (λ s, mkOrg (auth s) (edge_semantics old) (journal_sink old) (_positions old) []
                   (org_manage_id s) (_semantics_entities s)) ;;
  ofor _sync_position_memory (dvalues (_positions old)) ;;
  changing (λ s, set_auth (set_capabilities
              (map (λ kv, (kv.1, repoint (org_manage_id old) (org_manage_id s) kv.2)))) s).
(** [replace] between organisations, on the state of the new one. *)
Definition replace (old : OrgStructure) (by_agent : string) (teams : dict string) (new : OrgStructure) :
    (org_error + dict string) * OrgStructure :=
  match base_replace (auth old) (auth new) by_agent teams with
  | inl e => (inl e, new)
  | inr (a, teams) =>
      match _adopt_from old (_ensure_own_entities_registered (set_auth (λ _, a) new)) with
      | (inl e, s) => (inl e, s)
      | (inr _, s) => (inr teams, s)
      end
  end.

(** *** Panels *)

Definition opt_str (o : option string) : value := match o with Some s => VStr s | None => VNone end.
Definition _render_positions_panel (s : OrgStructure) : value :=
  VDict [("positions", VList (map (λ p,
            VDict [("position_id", VStr (position_id p)); ("name", VStr (name p)); ("jd", VStr (jd p));
                   ("superior_id", opt_str (superior_id p));
                   ("subordinate_ids", VList (map VStr (subordinate_ids p)));
                   ("collaborator_ids", VList (map VStr (collaborator_ids p)))])
            (dvalues (_positions s))));
         ("edge_semantics", VDict (map (λ kd, (edge_value kd.1, VStr (description kd.2))) (edge_semantics s)))].
Definition _render_mount_panel (s : OrgStructure) : value :=
  VDict [("mounted", VList (map (λ kv,
            VDict [("agent_id", VStr kv.1);
                   ("positions", VList (map VStr (py_sorted String.leb (iter kv.2))))])
            (_memberships (auth s))))].
End Organisation.

(** ** Governance *)

(** A position delegates to the targets of its delegating edges. *)
Definition delegates_to (ps : list Position) (sem : semantics) : relation string := λ x y,
  ∃ p, p ∈ ps ∧ position_id p = x ∧
    (y ∈ delegates sem SUBORDINATE (subordinate_ids p) ∨ y ∈ delegates sem COLLABORATOR (collaborator_ids p)).
(** The positions an edge of [p] names. *)
Definition named (p : Position) (x : string) : Prop :=
  superior_id p = Some x ∨ x ∈ subordinate_ids p ∨ x ∈ collaborator_ids p.
Record governed (ps : list Position) (sem : semantics) : Prop := {
  gov_rules : validate_edge_semantics (map snd sem) = true;
  gov_known : ∀ p x, p ∈ ps → named p x → x ∈ map position_id ps;
  gov_acyclic : ∀ x, ¬ tc (delegates_to ps sem) x x }.

Lemma delegates_sub sem k ids x : x ∈ delegates sem k ids → x ∈ ids.
Proof.
  unfold delegates. destruct (edge_get k sem); [|by intros ?%elem_of_nil].
  destruct (decide _); [by intros ?%elem_of_nil|done].
Qed.
Definition graph_step (sem : semantics) (g : dict (gset string)) (p : Position) : dict (gset string) :=
  dset (position_id p)
    (default ∅ (dget (position_id p) g)
     ∪ list_to_set (delegates sem SUBORDINATE (subordinate_ids p))
     ∪ list_to_set (delegates sem COLLABORATOR (collaborator_ids p))) g.
Lemma delegation_graph_spec ps sem (g : dict (gset string)) :
  (∀ x y : string, y ∈ default ∅ (dget x (foldl (graph_step sem) g ps))
     ↔ y ∈ default ∅ (dget x g) ∨ delegates_to ps sem x y) ∧
  (∀ x : string, x ∈ dkeys (foldl (graph_step sem) g ps) ↔ x ∈ dkeys g ∨ x ∈ map position_id ps).
Proof.
  revert g. induction ps as [|p ps IH]; intros g; simpl.
  - split; [|set_solver]. intros x y. split; [by left|]. intros [?|(p & ?%elem_of_nil & _)]; done.
  - destruct (IH (graph_step sem g p)) as [H1 H2]. split.
    + intros x y. rewrite H1. unfold graph_step. rewrite dget_dset. unfold delegates_to. destruct (decide (x = position_id p)) as [->|Hn].
      * simpl. rewrite !elem_of_union, !elem_of_list_to_set. split.
        -- intros [[[?|?]|?]|(q & ? & ? & ?)]; [by left|right..]; [| |exists q; set_solver];
             exists p; set_solver.
        -- intros [?|(q & [->|Hq]%elem_of_cons & Hqx & Hd)]; [tauto|tauto|]. right. by exists q.
      * split.
        -- intros [?|(q & ? & ? & ?)]; [by left|right; exists q; set_solver].
        -- intros [?|(q & [->|Hq]%elem_of_cons & Hqx & Hd)]; [by left|done|]. right. by exists q.
    + intros x. rewrite H2. unfold graph_step. rewrite dkeys_dset. destruct (decide _); set_solver.
Qed.
Lemma delegation_edge ps sem x y :
  y ∈ default (∅ : gset string) (dget x (_delegation_graph ps sem)) ↔ delegates_to ps sem x y.
Proof.
  unfold _delegation_graph. destruct (delegation_graph_spec ps sem []) as [H _].
  unfold graph_step in H. rewrite H. set_solver.
Qed.
Lemma delegation_nodes ps sem x : x ∈ dkeys (_delegation_graph ps sem) ↔ x ∈ map position_id ps.
Proof.
  unfold _delegation_graph. destruct (delegation_graph_spec ps sem []) as [_ H].
  unfold graph_step in H. rewrite H. set_solver.
Qed.

Lemma tc_mono {A} (R S : relation A) x y : (∀ a b, R a b → S a b) → tc R x y → tc S x y.
Proof. intros H. induction 1 as [? ? Hr|? ? ? Hr _ IH]; [apply tc_once; auto|eapply tc_l; eauto]. Qed.

Lemma forallb_bool_decide {A} (P : A → Prop) `{∀ x, base.Decision (P x)} l :
  forallb (λ x, bool_decide (P x)) l = true ↔ ∀ x, x ∈ l → P x.
Proof.
  rewrite forallb_forall. setoid_rewrite <-list_elem_of_In. by setoid_rewrite bool_decide_eq_true.
Qed.
Lemma not_dangling known p : _dangling_edge known p = false ↔ ∀ x, named p x → x ∈ known.
Proof.
  unfold _dangling_edge, named. rewrite negb_false_iff, !andb_true_iff, !forallb_bool_decide.
  destruct (superior_id p); rewrite ?bool_decide_eq_true; naive_solver.
Qed.

Section Governance.
Variable iter : gset string → list string.
Hypothesis iter_spec : ∀ s x, x ∈ iter s ↔ x ∈ s.

(** The search for a cycle decides whether somebody can delegate around to themselves. *)
Lemma search_delegation ps sem :
  (∀ p x, p ∈ ps → named p x → x ∈ map position_id ps) →
  match _find_cycle iter (_delegation_graph ps sem) with
  | Finished _ => ∀ x, ¬ tc (delegates_to ps sem) x x
  | Cycle _ => ∃ x, tc (delegates_to ps sem) x x
  | OutOfFuel => False
  end.
Proof.
  intros Hk. set (succs := successors iter (_delegation_graph ps sem)).
  assert (∀ x y, y ∈ succs x ↔ delegates_to ps sem x y) as He.
  { intros x y. unfold succs, successors. by rewrite iter_spec, delegation_edge. }
  assert (∀ x y, tc (edge succs) x y ↔ tc (delegates_to ps sem) x y) as Ht.
  { intros x y. split; apply tc_mono; intros a b; unfold edge; apply He. }
  assert (∀ x y, y ∈ succs x → x ∈ dkeys (_delegation_graph ps sem) ∧ y ∈ dkeys (_delegation_graph ps sem))
    as Hcl.
  { intros x y (p & Hp & <- & Hy)%He. rewrite !delegation_nodes. split; [apply list_elem_of_fmap; by exists p|].
    apply (Hk p); [done|]. unfold named. destruct Hy as [?%delegates_sub|?%delegates_sub]; tauto. }
  pose proof (search_exact succs _ (length (_delegation_graph ps sem)) Hcl) as Hs.
  unfold dkeys in Hs at 1. rewrite length_map in Hs. specialize (Hs (le_n _)).
  unfold _find_cycle. fold succs. destruct (search succs _ _ _); [|..|done].
  - destruct Hs as [[x Hx]%closed_walk_tc _]. exists x. by apply Ht.
  - intros x Hx. destruct Hs as [Ha _]. apply (Ha x), Ht, Hx.
Qed.

(** The static check accepts exactly the sets of positions that obey the rules: no edge leads out
    of the set, and nobody can delegate a task around to itself, in whatever order Python
    iterates over its sets. *)
Lemma governance_exact ps sem :
  validate_governance_invariants iter ps sem = true ↔ governed ps (semantics_or_default sem).
Proof.
  unfold validate_governance_invariants. set (S := semantics_or_default sem).
  assert (forallb (λ p, negb (_dangling_edge (map position_id ps) p)) ps = true
          ↔ ∀ p x, p ∈ ps → named p x → x ∈ map position_id ps) as Hd.
  { rewrite forallb_forall. split; intros H.
    - intros p x Hp. apply list_elem_of_In, H, negb_true_iff in Hp. by apply not_dangling.
    - intros p Hp%list_elem_of_In. apply negb_true_iff, not_dangling. eauto. }
  rewrite !andb_true_iff, Hd. split.
  - intros [[Hr Hk] Hc]. constructor; [done|done|]. pose proof (search_delegation ps S Hk) as H.
    by destruct (_find_cycle _ _).
  - intros [Hr Hk Ha]. split_and!; [done|done|]. pose proof (search_delegation ps S Hk) as H.
    destruct (_find_cycle _ _); [|done..]. destruct H as [x Hx]. by destruct (Ha x).
Qed.
End Governance.
