(* ===== verification/LegacyOrgInv.v ===== *)
(** * What an organisation keeps

    Over every sequence of operations of LegacyOrg, failing ones included: the positions obey the
    governance rules, nobody without a grant of the manage entity changes anything, and what a
    position injects into its occupants is its current job description. *)

From stdpp Require Import base gmap strings list pretty relations.
From Stdlib Require Import ZArith Lia.
From S2P Require Import Prelude PyValue LegacyGraph LegacyOrg.

Open Scope string_scope.
Open Scope nat_scope.
Open Scope list_scope.

(** ** Operations *)

Inductive Op :=
| AcceptDevice (d : Device) | Bootstrap (new : list Position) (root_agent root_position : option string)
| AddPosition (p : Position) | RemovePosition (pid : string) | SetJd (pid text : string)
| SetSuperior (pid : string) (sup : option string)
| AddSubordinate (manager sub : string) | RemoveSubordinate (manager sub : string)
| AddCollaborator (pid other : string) | RemoveCollaborator (pid other : string)
| GrantCapability (pid eid : string) (eff : GrantEffect) (prio : Z) | RevokeCapability (pid eid : string)
| GrantMembership (agent pid : string) | RevokeMembership (agent pid : string)
| Mount (agent pid note : string) | Unmount (agent pid : string).

(** The operations an agent asks for; the team's owner installs positions and devices. *)
Definition asked (o : Op) : bool :=
  match o with AcceptDevice _ | Bootstrap _ _ _ => false | _ => true end.

Section Run.
Variable uuid4 : string → nat → string.
Variable iter : gset string → list string.

(** The operation asked for by the agent [who]. *)
Definition exec (who : string) (o : Op) : O () :=
  match o with
  | AcceptDevice d => λ s,
      let '(e, a) := accept_device d (auth s) in
      (match e with Some e => inl e | None => inr () end, set_auth (λ _, a) s)
  | Bootstrap new a p => bootstrap uuid4 iter new a p
  | AddPosition p => add_position uuid4 iter p who
  | RemovePosition pid => remove_position iter pid who
  | SetJd pid t => set_jd iter pid t who
  | SetSuperior pid sup => set_superior iter pid sup who
  | AddSubordinate m s => add_subordinate iter m s who
  | RemoveSubordinate m s => remove_subordinate iter m s who
  | AddCollaborator p q => add_collaborator iter p q who
  | RemoveCollaborator p q => remove_collaborator iter p q who
  | GrantCapability p e eff prio => grant_org_capability iter p e who eff prio
  | RevokeCapability p e => revoke_org_capability iter p e who
  | GrantMembership a p => grant_org_membership iter a p who
  | RevokeMembership a p => revoke_org_membership iter a p who
  | Mount a p note => mount iter a p who note ;; mret ()
  | Unmount a p => unmount iter a p who
  end.
(** The states operations lead to, whether they return or raise. *)
Definition run (ops : list (string * Op)) (s : OrgStructure) : OrgStructure :=
  foldl (λ s wo, (exec wo.1 wo.2 s).2) s ops.
End Run.

(** ** Reasoning about operations *)

(** [ensures Q m s]: run in [s], [m] leaves a state of [Q], whether it returns or raises. *)
Definition ensures (Q : OrgStructure → Prop) {A} (m : O A) (s : OrgStructure) : Prop := Q (m s).2.
Lemma ensures_bind Q {A B} (m : O A) (f : A → O B) s :
  ensures Q m s → (∀ a s', m s = (inr a, s') → Q s' → ensures Q (f a) s') → ensures Q (m ≫= f) s.
Proof.
  unfold ensures, mbind, O_bind. intros Hm Hf. destruct (m s) as [[e|a] s']; [done|]. by apply Hf.
Qed.
Lemma ensures_ofor Q {A} (f : A → O ()) l s :
  Q s → (∀ a s, a ∈ l → Q s → ensures Q (f a) s) → ensures Q (ofor f l) s.
Proof.
  revert s. induction l as [|a l IH]; intros s Hs Hf; [done|]. cbn [ofor]. apply ensures_bind.
  - apply Hf; [left|done].
  - intros [] s' _ Hs'. apply IH; [done|]. intros b t Hb. apply Hf. by right.
Qed.
Lemma ensures_check_org_permission Q iter who s : Q s → ensures Q (_check_org_permission iter who) s.
Proof. unfold ensures, _check_org_permission. by destruct (allowed _). Qed.
Lemma ensures_require_position Q pid s : Q s → ensures Q (_require_position pid) s.
Proof. unfold ensures, _require_position. by destruct (dget _ _). Qed.
Lemma ensures_require_governed Q iter ps s : Q s → ensures Q (require_governed iter ps) s.
Proof. unfold ensures, require_governed. by destruct (validate_governance_invariants _ _ _). Qed.
#[export] Hint Resolve ensures_check_org_permission ensures_require_position ensures_require_governed : org.

Lemma require_governed_inr iter ps s u s' :
  require_governed iter ps s = (inr u, s') →
  s' = s ∧ validate_governance_invariants iter ps (edge_semantics s) = true.
Proof. unfold require_governed. destruct (validate_governance_invariants _ _ _); naive_solver. Qed.

(** The part of the state the rules speak of. *)
Definition core (s : OrgStructure) : positions * semantics := (_positions s, edge_semantics s).
(** [silent m]: whatever happens, [m] leaves positions and edge semantics alone. *)
Definition silent {A} (m : O A) : Prop := ∀ s, core (m s).2 = core s.
Lemma silent_bind {A B} (m : O A) (f : A → O B) : silent m → (∀ a, silent (f a)) → silent (m ≫= f).
Proof.
  intros Hm Hf s. unfold mbind, O_bind. specialize (Hm s). destruct (m s) as [[e|a] s']; [done|].
  simpl in Hm. by rewrite <-Hm, <-(Hf a s').
Qed.
Lemma silent_ret {A} (a : A) : silent (mret a).
Proof. by intros s. Qed.
Lemma silent_fail {A} e : silent (@fail_with A e).
Proof. by intros s. Qed.
Lemma silent_reading {A} (f : OrgStructure → A) : silent (reading f).
Proof. by intros s. Qed.
Lemma silent_auth f : silent (changing (set_auth f)).
Proof. by intros s. Qed.
Lemma silent_memory f : silent (changing (set_memory f)).
Proof. by intros s. Qed.
Lemma silent_record c : silent (changing (_record c)).
Proof. by intros s. Qed.
Lemma silent_ofor {A} (f : A → O ()) l : (∀ a, silent (f a)) → silent (ofor f l).
Proof. intros Hf. induction l; simpl; [apply silent_ret|]. by apply silent_bind. Qed.
Lemma silent_check_org_permission iter who : silent (_check_org_permission iter who).
Proof. intros s. unfold _check_org_permission. by destruct (allowed _). Qed.
Lemma silent_require_position pid : silent (_require_position pid).
Proof. intros s. unfold _require_position. by destruct (dget _ _). Qed.
Lemma silent_grant_capability pid eid eff prio : silent (grant_capability pid eid eff prio).
Proof.
  intros s. unfold grant_capability. by destruct (base_grant_capability _ _ _ _ _) as [[?|] ?].
Qed.
Lemma silent_register_memory_entity u l t g : silent (_register_memory_entity u l t g).
Proof. intros s. unfold _register_memory_entity. by destruct (register_entity _ _ _ _ _). Qed.
Lemma silent_update_memory_content eid t : silent (_update_memory_content eid t).
Proof. intros s. unfold _update_memory_content. by destruct (dget _ _). Qed.
Lemma silent_refresh_relations p : silent (_refresh_relations p).
Proof.
  intros s. unfold _refresh_relations. destruct (dget _ _) as [[? ?]|]; [|done].
  apply silent_update_memory_content.
Qed.
#[export] Hint Resolve silent_ret silent_fail silent_reading silent_auth silent_memory silent_record
  silent_check_org_permission silent_require_position silent_grant_capability
  silent_register_memory_entity silent_update_memory_content silent_refresh_relations : org.
(** Prove that a composed operation is silent. *)
Ltac silence := repeat first [apply silent_bind; [|intros ?] | apply silent_ofor; intros ?]; auto with org.
Lemma silent_sync_position_memory u p : silent (_sync_position_memory u p).
Proof. unfold _sync_position_memory. silence. Qed.
#[export] Hint Resolve silent_sync_position_memory : org.

(** ** The entities of a position's memory *)

Lemma register_missing_keeps l r k e : dget k r = Some e → dget k (register_missing l r) = Some e.
Proof.
  unfold register_missing. revert r. induction l as [|x l IH]; intros r Hk; [done|]. simpl. apply IH.
  destruct (dmem (entity_id x) r) eqn:E; [done|]. rewrite dget_dset_ne; [done|].
  intros ->. unfold dmem in E. by rewrite Hk in E.
Qed.
Lemma register_missing_adds l r k e :
  dget k (register_missing l r) = Some e → dget k r = Some e ∨ (e ∈ l ∧ entity_id e = k).
Proof.
  unfold register_missing. revert r. induction l as [|x l IH]; intros r Hk; [by left|]. simpl in Hk.
  apply IH in Hk as [Hk|[? ?]]; [|right; set_solver].
  destruct (dmem (entity_id x) r) eqn:E; [by left|]. rewrite dget_dset in Hk.
  destruct (decide (k = entity_id x)) as [->|]; [|by left]. injection Hk as ->. right. set_solver.
Qed.

Section Memory.
Variable uuid4 : string → nat → string.

(** The state after an entity of a position's memory is registered. *)
Definition memory_entity (l text tag : string) (d : Device) : RegisteredEntity :=
  Entity (new_id uuid4 d) (dev_id d) DATA l (Some (Injection text tag)).
Definition with_entity (e : RegisteredEntity) (s : OrgStructure) : OrgStructure :=
  set_auth (λ a, set_registry (dset (entity_id e) e)
              (set_dev (λ d, mkDevice (dev_id d) (dset (entity_id e) e (_entities d)) (S (drawn d))) a)) s.
Lemma register_memory_entity_eq l text tag s :
  _register_memory_entity uuid4 l text tag s =
    (inr (new_id uuid4 (dev (auth s))), with_entity (memory_entity l text tag (dev (auth s))) s).
Proof.
  unfold _register_memory_entity. simpl. by rewrite dget_dset_eq.
Qed.
Definition with_grant (pos eid : string) (eff : GrantEffect) (prio : Z) (s : OrgStructure) : OrgStructure :=
  set_auth (λ a, set_capabilities (dset pos (grants_at pos a ++ [Grant pos eid eff prio])%list) a)
    (_ensure_own_entities_registered s).
Lemma grant_capability_eq pos eid eff prio s :
  dmem eid (_registry (auth s)) = true →
  grant_capability pos eid eff prio s = (inr (), with_grant pos eid eff prio s).
Proof.
  intros Hm. unfold grant_capability, base_grant_capability, is_registered.
  rewrite (proj2 (dmem_keys _ _)); [done|].
  apply dmem_keys in Hm. apply keys_dget in Hm as [e He].
  eapply dget_keys, register_missing_keeps, He.
Qed.
(** Giving a position its memory cannot fail: both entities are new and registered. *)
Definition synced (p : Position) (s : OrgStructure) : OrgStructure :=
  let s1 := with_entity (memory_entity ("jd:" +:+ name p) (jd p) "[POSITION_JD]" (dev (auth s))) s in
  let s2 := with_entity (memory_entity ("edges:" +:+ name p) (_relations_content p (_positions s))
                           "[ORG_EDGE]" (dev (auth s1))) s1 in
  let je := new_id uuid4 (dev (auth s)) in
  let ee := new_id uuid4 (dev (auth s1)) in
  set_memory (dset (position_id p) (je, ee))
    (with_grant (position_id p) ee ALLOWED ORG_MEMORY_PRIORITY
       (with_grant (position_id p) je ALLOWED ORG_MEMORY_PRIORITY s2)).
Lemma sync_position_memory_eq p s : _sync_position_memory uuid4 p s = (inr (), synced p s).
Proof.
  unfold _sync_position_memory, mbind, O_bind. rewrite register_memory_entity_eq. cbn [reading].
  rewrite register_memory_entity_eq. rewrite grant_capability_eq.
  2:{ apply dmem_keys. simpl. rewrite dkeys_dset. destruct (decide _) as [Hd|Hd].
      - rewrite dkeys_dset in *. destruct (decide _); set_solver.
      - rewrite dkeys_dset. destruct (decide _); set_solver. }
  rewrite grant_capability_eq; [done|].
  apply dmem_keys. simpl. eapply dget_keys, register_missing_keeps. apply dget_dset_eq.
Qed.
End Memory.

(** ** Authorisation *)

(** The grants an agent holds on an entity, through the positions it occupies. *)
Definition held (agent eid : string) (a : Authority) (g : CapabilityGrant) : Prop :=
  ∃ p, p ∈ positions_of agent a ∧ g ∈ grants_at p a ∧ g_entity g = eid.
(** May the agent have the entity: it is registered, some grant is held on it and none denies. *)
Definition may (agent eid : string) (a : Authority) : Prop :=
  is_registered eid a = true ∧ (∃ g, held agent eid a g) ∧ ∀ g, held agent eid a g → g_effect g ≠ DENIED.

Section Authorisation.
Variable iter : gset string → list string.
Hypothesis iter_spec : ∀ s x, x ∈ iter s ↔ x ∈ s.

Lemma grants_for_spec agent eid a g : g ∈ _grants_for iter agent eid a ↔ held agent eid a g.
Proof.
  unfold _grants_for, held. rewrite list_elem_of_In, in_flat_map. setoid_rewrite filter_In.
  setoid_rewrite <-list_elem_of_In. setoid_rewrite iter_spec. setoid_rewrite bool_decide_eq_true. naive_solver.
Qed.
Lemma with_effect_Some e l g : with_effect e l = Some g → g ∈ l ∧ g_effect g = e.
Proof.
  unfold with_effect. intros [? ?%bool_decide_eq_true]%find_some. by rewrite list_elem_of_In.
Qed.
Lemma with_effect_None e l : with_effect e l = None ↔ ∀ g, g ∈ l → g_effect g ≠ e.
Proof.
  unfold with_effect. split.
  - intros H g Hg%list_elem_of_In Hge. eapply find_none in H; [|done]. by apply bool_decide_eq_false in H.
  - intros H. destruct (List.find _ l) as [g|] eqn:E; [|done]. apply with_effect_Some in E as [Hg He].
    by apply H in Hg.
Qed.

Lemma authorize_cases agent eid a :
  match authorize iter agent eid a with
  | Decide DENIED _ None => ¬ may agent eid a
  | Decide DENIED _ (Some p) => ¬ may agent eid a ∧ ∃ g, held agent eid a g ∧ g_position g = p ∧ g_effect g = DENIED
  | Decide ALLOWED _ p => may agent eid a ∧ ∃ g, held agent eid a g ∧ p = Some (g_position g) ∧ g_effect g = ALLOWED
  | Decide REQUIRES_APPROVAL _ p =>
      may agent eid a ∧ (∀ g, held agent eid a g → g_effect g = REQUIRES_APPROVAL) ∧
      ∃ g, held agent eid a g ∧ p = Some (g_position g)
  end.
Proof.
  unfold authorize, may. destruct (is_registered eid a) eqn:Hr; [|naive_solver]. cbn [negb].
  pose proof (grants_for_spec agent eid a) as Hg. destruct (_grants_for _ _ _ _) as [|g0 gs].
  { intros (_ & (g & ?%Hg%elem_of_nil) & _). done. }
  destruct (with_effect DENIED _) as [g|] eqn:Ed.
  { apply with_effect_Some in Ed as [Hin%Hg Hd]. split; [|by exists g].
    intros (_ & _ & Hn). by apply (Hn g). }
  assert (∀ g, held agent eid a g → g_effect g ≠ DENIED) as Hn.
  { intros g Hin%Hg. by eapply with_effect_None. }
  assert (held agent eid a g0) as H0 by (apply Hg; left).
  destruct (with_effect ALLOWED _) as [g|] eqn:Ea.
  { apply with_effect_Some in Ea as [Hin%Hg Hal]. split; [by eauto|]. by exists g. }
  split; [by eauto|]. split; [|by exists g0]. intros g Hh. pose proof (Hn g Hh) as Hnd. apply Hg in Hh.
  pose proof (proj1 (with_effect_None _ _) Ea g Hh). by destruct (g_effect g).
Qed.

(** The decision does not depend on the order Python visits the positions in: without a grant,
    or on an unregistered entity, the agent is denied; one denying grant outweighs every other;
    otherwise one allowing grant allows, and only grants that ask for approval leave the approval
    to be asked for. *)
Theorem authorize_decides agent eid a :
  match effect (authorize iter agent eid a) with
  | DENIED => ¬ may agent eid a
  | ALLOWED => may agent eid a ∧ ∃ g, held agent eid a g ∧ g_effect g = ALLOWED
  | REQUIRES_APPROVAL => may agent eid a ∧ ∀ g, held agent eid a g → g_effect g = REQUIRES_APPROVAL
  end ∧
  match d_position (authorize iter agent eid a) with
  | Some p => ∃ g, held agent eid a g ∧ g_position g = p ∧ g_effect g = effect (authorize iter agent eid a)
  | None => effect (authorize iter agent eid a) = DENIED
  end.
Proof.
  pose proof (authorize_cases agent eid a) as H. destruct (authorize iter agent eid a) as [[] e [p|]]; simpl in *;
    naive_solver.
Qed.
Lemma authorize_allowed agent eid a : allowed (authorize iter agent eid a) = true ↔ may agent eid a.
Proof.
  pose proof (authorize_cases agent eid a) as H. unfold allowed.
  destruct (authorize iter agent eid a) as [[] e p]; destruct p; simpl in *; naive_solver.
Qed.

(** Only a holder of the manage entity reorganises: an agent that may not have it is refused
    whatever it asks for, and the organisation is left as it was, its journal included. *)
Theorem org_change_needs_grant uuid4 who o s :
  asked o = true → ¬ may who (org_manage_id s) (auth s) →
  exec uuid4 iter who o s = (inl OrgPermissionDenied, s).
Proof.
  intros Hb Hm. assert (_check_org_permission iter who s = (inl OrgPermissionDenied, s)) as Hc.
  { unfold _check_org_permission. destruct (allowed _) eqn:E; [|done].
    by destruct Hm; apply authorize_allowed. }
  assert (∀ A (k : () → O A), (_check_org_permission iter who ≫= k) s = (inl OrgPermissionDenied, s)) as Hk.
  { intros A k. unfold mbind, O_bind. by rewrite Hc. }
  destruct o; try apply Hk; [done..|].
  simpl. unfold mbind, O_bind. unfold mount. by rewrite Hk.
Qed.
End Authorisation.

(** ** Governance *)

(** Positions are stored under their identifiers. *)
Definition keyed (ps : positions) : Prop :=
  NoDup (dkeys ps) ∧ ∀ k p, (k, p) ∈ ps → position_id p = k.

Lemma keyed_nil : keyed [].
Proof. split; [constructor|set_solver]. Qed.
Lemma elem_of_dset {V} k (v : V) k' v' (d : dict V) :
  NoDup (dkeys d) → (k', v') ∈ dset k v d ↔ (k' = k ∧ v' = v) ∨ (k' ≠ k ∧ (k', v') ∈ d).
Proof.
  intros Hn. split.
  - intros H. apply elem_dget in H; [|by apply dkeys_dset_NoDup]. rewrite dget_dset in H.
    destruct (decide (k' = k)); [left; naive_solver|right]. split; [done|]. by apply dget_Some_elem.
  - intros [[-> ->]|[Hk H]]; apply dget_Some_elem; [apply dget_dset_eq|].
    rewrite dget_dset_ne by done. by apply elem_dget.
Qed.
Lemma keyed_dset p ps : keyed ps → keyed (dset (position_id p) p ps).
Proof.
  intros [Hn Hk]. split; [by apply dkeys_dset_NoDup|]. intros k q.
  rewrite elem_of_dset by done. naive_solver.
Qed.
Lemma keyed_change k f ps : (∀ p, position_id (f p) = position_id p) → keyed ps → keyed (change k f ps).
Proof.
  intros Hf Hk. unfold change. destruct (dget k ps) as [p|] eqn:E; [|done].
  apply dget_Some_elem, Hk in E as Hp. rewrite <-Hp, <-Hf. by apply keyed_dset.
Qed.
Lemma keyed_map f ps : (∀ p, position_id (f p) = position_id p) → keyed ps →
  keyed (map (λ kv, (kv.1, f kv.2)) ps).
Proof.
  intros Hf [Hn Hk]. split.
  - replace (dkeys (map _ ps)) with (dkeys ps); [done|]. unfold dkeys. by rewrite map_map.
  - intros k p ([k' q] & [= -> ->] & Hq)%list_elem_of_fmap. simpl. rewrite Hf. by apply Hk.
Qed.
Lemma elem_of_dpop {V} k (kv : string * V) d : kv ∈ dpop k d → kv ∈ d.
Proof.
  induction d as [|[k' v'] d IH]; simpl; [done|]. destruct (decide _); set_solver.
Qed.
Lemma keyed_dpop k ps : keyed ps → keyed (dpop k ps).
Proof. intros [Hn Hk]. split; [by apply dkeys_dpop_NoDup|]. intros k' p ?%elem_of_dpop. by apply Hk. Qed.
Lemma keyed_install new ps : keyed ps → keyed (foldl (λ d p, dset (position_id p) p d) ps new).
Proof. revert ps. induction new; intros ps Hk; [done|]. simpl. by apply IHnew, keyed_dset. Qed.
Lemma ids_keyed ps : keyed ps → map position_id (dvalues ps) = dkeys ps.
Proof.
  intros [_ Hk]. unfold dvalues, dkeys. rewrite map_map. apply map_ext_in. intros [k p] Hp.
  apply Hk. by apply list_elem_of_In.
Qed.

Definition edges (p : Position) : string * option string * list string * list string :=
  (position_id p, superior_id p, subordinate_ids p, collaborator_ids p).
(** Positions with fewer edges, under the same identifiers, obey the rules too. *)
Lemma governed_sub ps ps' sem :
  (∀ p, p ∈ ps' → ∃ q, q ∈ ps ∧ edges q = edges p) →
  (∀ x, x ∈ map position_id ps → x ∈ map position_id ps') →
  governed ps sem → governed ps' sem.
Proof.
  intros Hs Hi [Hr Hk Ha]. constructor; [done|..].
  - intros p x (q & Hq & [= E1 E2 E3 E4])%Hs Hx. apply Hi, (Hk q); [done|].
    unfold named. by rewrite E2, E3, E4.
  - intros x Hx. apply (Ha x). revert Hx.
    apply tc_mono. intros a b (p & (q & Hq & [= E1 E2 E3 E4])%Hs & Hp). exists q.
    by rewrite E1, E3, E4.
Qed.
Lemma installed_values new ps p :
  keyed ps → p ∈ dvalues (foldl (λ d p, dset (position_id p) p d) ps new) → p ∈ dvalues ps ++ new.
Proof.
  revert ps. induction new as [|q new IH]; intros ps Hk Hp; simpl in *; [by rewrite app_nil_r|].
  apply IH in Hp; [|by apply keyed_dset]. apply elem_of_app in Hp as [Hp|Hp]; [|set_solver].
  apply list_elem_of_fmap in Hp as ([k r] & -> & Hr). apply elem_of_dset in Hr; [|apply Hk].
  destruct Hr as [[-> ->]|[_ Hr]]; [set_solver|]. apply elem_of_app. left.
  apply list_elem_of_fmap. by exists (k, r).
Qed.
Lemma installed_keys new ps x :
  x ∈ dkeys (foldl (λ d p, dset (position_id p) p d) ps new) ↔ x ∈ dkeys ps ∨ x ∈ map position_id new.
Proof.
  revert ps. induction new as [|q new IH]; intros ps; simpl; [set_solver|]. rewrite IH, dkeys_dset.
  destruct (decide _); set_solver.
Qed.

Section Governed.
Variable uuid4 : string → nat → string.
Variable iter : gset string → list string.
Hypothesis iter_spec : ∀ s x, x ∈ iter s ↔ x ∈ s.

Definition rules (ps : positions) (sem : semantics) : Prop :=
  keyed ps ∧ sem ≠ [] ∧ validate_governance_invariants iter (dvalues ps) sem = true.
Definition org_rules (s : OrgStructure) : Prop := rules (_positions s) (edge_semantics s).

Lemma rules_silent {A} (m : O A) s : silent m → org_rules s → ensures org_rules m s.
Proof. intros Hm Hs. unfold ensures, org_rules. by injection (Hm s) as -> ->. Qed.
Lemma rules_install new ps sem :
  keyed ps → sem ≠ [] → validate_governance_invariants iter (dvalues ps ++ new) sem = true →
  rules (foldl (λ d p, dset (position_id p) p d) ps new) sem.
Proof.
  intros Hk Hne Hv. split_and!; [by apply keyed_install|done|]. rewrite governance_exact in * by done.
  revert Hv. apply governed_sub.
  - intros p Hp. exists p. by apply installed_values in Hp.
  - intros x. rewrite map_app, elem_of_app, !ids_keyed, installed_keys; auto using keyed_install.
Qed.
Lemma install_core p s : (install uuid4 p s).1 = inr () ∧
  core (install uuid4 p s).2 = (dset (position_id p) p (_positions s), edge_semantics s).
Proof.
  unfold install, mbind, O_bind. cbn [changing]. split; [by rewrite sync_position_memory_eq|].
  by rewrite silent_sync_position_memory.
Qed.
Lemma ofor_install_core new s : (ofor (install uuid4) new s).1 = inr () ∧
  core (ofor (install uuid4) new s).2
    = (foldl (λ d p, dset (position_id p) p d) (_positions s) new, edge_semantics s).
Proof.
  revert s. induction new as [|p new IH]; intros s; [done|]. cbn [ofor]. unfold mbind, O_bind.
  destruct (install_core p s) as [H1 H2]. destruct (install uuid4 p s) as [r s']. simpl in *. subst r.
  injection H2 as H3 H4. destruct (IH s') as [-> ->]. by rewrite H3, H4.
Qed.
Lemma install_rules new s (k : () → O ()) :
  org_rules s →
  validate_governance_invariants iter (dvalues (_positions s) ++ new) (edge_semantics s) = true →
  silent (k ()) → ensures org_rules (ofor (install uuid4) new ≫= k) s.
Proof.
  intros (Hk & Hne & _) Hv Hs. destruct (ofor_install_core new s) as [H1 H2]. unfold ensures, mbind, O_bind.
  destruct (ofor (install uuid4) new s) as [r s']. simpl in *. subst r. injection H2 as H3 H4.
  apply rules_silent; [done|]. unfold org_rules. rewrite H3, H4. by apply rules_install.
Qed.

(** The mutations of the edges keep identifiers. *)
Lemma keyed_link_superior sub sup ps ps' :
  keyed ps → _link_superior sub sup ps = inr ps' → keyed ps'.
Proof.
  intros Hk. unfold _link_superior. destruct (bool_decide _); [done|]. destruct (match sup with Some x => negb (dmem x ps) | None => false end); [done|].
  destruct (dget sub ps) as [pos|]; [|done]. intros [= <-].
  assert (keyed (match superior_id pos with
                 | Some old => if bool_decide (sup = Some old) then ps
                               else change old (set_subordinates (without sub)) ps
                 | None => ps end)) as Hk'.
  { destruct (superior_id pos); [|done]. destruct (bool_decide _); [done|]. by apply keyed_change. }
  destruct sup; repeat (apply keyed_change; [done|]); done.
Qed.
Lemma mutate_rules who op pid mutate s :
  (∀ ps ps', keyed ps → mutate ps = inr ps' → keyed ps') → org_rules s →
  ensures org_rules (_mutate_positions iter who op pid mutate) s.
Proof.
  intros Hm Hs. unfold _mutate_positions.
  apply ensures_bind; [auto with org|]. intros _ s1 _ Hs1. apply ensures_bind; [auto with org|].
  intros _ s2 _ Hs2. apply ensures_bind; [done|]. intros old s3 [= <- <-] _.
  destruct (mutate (_positions s2)) as [e|ps] eqn:E; [done|].
  apply ensures_bind; [auto with org|]. intros _ s4 [-> Hg]%require_governed_inr _.
  unfold ensures, mbind at 1, O_bind at 1. cbn [changing]. apply rules_silent; [silence|].
  split_and!; [|apply Hs2|done]. eapply Hm; [|done]. apply Hs2.
Qed.

Lemma rules_with_jd pid p text s :
  org_rules s → dget pid (_positions s) = Some p →
  rules (dset pid (with_jd text p) (_positions s)) (edge_semantics s).
Proof.
  intros (Hk & Hne & Hv) Hp. apply dget_Some_elem in Hp as Hq. assert (position_id p = pid) as Hi by by apply Hk.
  split_and!; [rewrite <-Hi; by apply (keyed_dset (with_jd text p))|done|].
  rewrite governance_exact in * by done. revert Hv. apply governed_sub.
  - intros q ([k r] & -> & Hr)%list_elem_of_fmap. apply elem_of_dset in Hr; [|apply Hk].
    destruct Hr as [[-> ->]|[_ Hr]]; [exists p|exists r]; (split; [|done]); apply list_elem_of_fmap.
    + by exists (pid, p).
    + by exists (k, r).
  - intros x. assert (keyed (dset pid (with_jd text p) (_positions s))) as Hk'.
    { rewrite <-Hi. by apply (keyed_dset (with_jd text p)). }
    rewrite !ids_keyed by done. rewrite dkeys_dset. destruct (decide _); set_solver.
Qed.
Lemma exec_rules who o s : org_rules s → org_rules (exec uuid4 iter who o s).2.
Proof.
  intros Hs. change (ensures org_rules (exec uuid4 iter who o) s).
  destruct o as [d|new a rp|p|pid|pid text|pid sup|m sub|m sub|p q|p q|p e eff prio|p e|a p|a p|a p note|a p];
    simpl.
  - apply rules_silent; [|done]. intros t. by destruct (accept_device d (auth t)).
  - unfold bootstrap. apply ensures_bind; [done|]. intros old s1 [= <- <-] _.
    apply ensures_bind; [destruct (existsb _ _); done|]. intros [] s1 Hs1 _.
    assert (s1 = s) as ->. { destruct (existsb _ _) in Hs1; [done|by injection Hs1]. }
    apply ensures_bind; [auto with org|]. intros _ s2 [-> Hg]%require_governed_inr _.
    apply install_rules; [done|done|]. cbn.
    destruct a; [destruct rp|destruct new]; silence.
  - unfold add_position. apply ensures_bind; [auto with org|]. intros _ s0 _ Hs0.
    apply ensures_bind; [done|]. intros old s1 [= <- <-] _.
    apply ensures_bind; [destruct (dmem _ _); done|]. intros [] s1 Hs1 _.
    assert (s1 = s0) as ->. { destruct (dmem _ _) in Hs1; [done|by injection Hs1]. }
    apply ensures_bind; [auto with org|]. intros _ s2 [-> Hg]%require_governed_inr _.
    change (ensures org_rules (install uuid4 p ≫= λ _, changing (_record
      (Change "add_position" who (position_id p) "" (name p)))) s0).
    apply (install_rules [p] s0 (λ _, changing (_record (Change "add_position" who (position_id p) "" (name p)))))
      in Hg; [|done|silence].
    revert Hg. unfold ensures, mbind, O_bind. cbn [ofor]. unfold mbind, O_bind.
    by destruct (install uuid4 p s0) as [[?|[]] ?].
  - unfold remove_position. apply ensures_bind; [auto with org|]. intros _ s1 _ Hs1.
    apply ensures_bind; [auto with org|]. intros _ s2 _ Hs2. apply ensures_bind; [done|].
    intros old s3 [= <- <-] _. apply ensures_bind; [auto with org|].
    intros _ s4 [-> Hg]%require_governed_inr _.
    unfold ensures, mbind at 1, O_bind at 1. cbn [changing]. apply rules_silent.
    + silence; destruct (nonempty _); auto with org.
    + split_and!; [|apply Hs2|done]. simpl. apply keyed_map; [done|]. apply keyed_dpop, Hs2.
  - unfold set_jd. apply ensures_bind; [auto with org|]. intros _ s1 _ Hs1.
    apply ensures_bind; [auto with org|]. intros p s2 Hp Hs2.
    unfold ensures, mbind at 1, O_bind at 1. cbn [changing]. apply rules_silent.
    + silence. destruct (_ : option (string * string)) as [[? ?]|]; auto with org.
    + unfold _require_position in Hp. destruct (dget pid (_positions s1)) as [q|] eqn:E; [|done].
      injection Hp as <- <-. exact (rules_with_jd pid q text s1 Hs1 E).
  - by apply mutate_rules, Hs; eauto using keyed_link_superior.
  - by apply mutate_rules, Hs; eauto using keyed_link_superior.
  - apply mutate_rules, Hs. intros ps ps' Hk. destruct (negb _); [done|]. intros [= <-].
    apply keyed_change; [intros q; by destruct (decide _)|]. by apply keyed_change.
  - apply mutate_rules, Hs. intros ps ps' Hk. destruct (negb _); [done|]. intros [= <-]. by apply keyed_change.
  - apply mutate_rules, Hs. intros ps ps' Hk. destruct (negb _); [done|]. intros [= <-]. by apply keyed_change.
  - unfold grant_org_capability. apply rules_silent; [silence|done].
  - unfold revoke_org_capability. apply rules_silent; [silence|done].
  - unfold grant_org_membership. apply rules_silent; [silence|done].
  - unfold revoke_org_membership. apply rules_silent; [silence|done].
  - unfold mount. apply rules_silent; [silence|done].
  - unfold unmount. apply rules_silent; [silence|done].
Qed.

Lemma run_rules ops s : org_rules s → org_rules (run uuid4 iter ops s).
Proof.
  revert s. induction ops as [|[who o] ops IH]; intros s Hs; [done|]. simpl. by apply IH, exec_rules.
Qed.

Lemma governed_nil sem : validate_edge_semantics (map snd sem) = true → governed [] sem.
Proof.
  intros Hr. constructor; [done|by intros p x ?%elem_of_nil|]. intros x Hx.
  assert (∃ y, delegates_to [] sem x y) as (y & p & ?%elem_of_nil & _); [|done]. inversion Hx; eauto.
Qed.
Lemma init_rules team own did register sem sink teams teams' s :
  OrgStructure_init uuid4 team own did register sem sink teams = (inr s, teams') → org_rules s.
Proof.
  unfold OrgStructure_init. destruct (Authority_init _ _ _ _ _) as [[e|a] t]; [done|].
  destruct (validate_edge_semantics _) eqn:Hv; [|done]. simpl.
  destruct (register_semantics _ _ _) as [ents d]. destruct (accept_device _ _) as [[e|] a']; [done|].
  intros [= <- _]. split_and!; [apply keyed_nil|by destruct sem|].
  apply governance_exact; [done|]. apply governed_nil. by destruct sem.
Qed.

(** C21: Whatever operations are asked for, by whom and in whatever order, the positions of an
    organisation obey the governance rules: every edge leads to a position of the organisation,
    nobody can delegate a task around to themselves over the edges that delegate, and the edges
    hand on neither accountability, veto nor ownership. *)
Theorem org_stays_governed team own did register sem sink teams teams' s ops :
  OrgStructure_init uuid4 team own did register sem sink teams = (inr s, teams') →
  governed (dvalues (_positions (run uuid4 iter ops s))) (edge_semantics (run uuid4 iter ops s)).
Proof.
  intros Hi. assert (org_rules (run uuid4 iter ops s)) as (_ & Hne & Hv).
  { apply run_rules. eauto using init_rules. }
  apply governance_exact in Hv; [|done]. revert Hv. by destruct (edge_semantics _).
Qed.
End Governed.

(** ** The memory of positions *)

(** As [ensures], and the code does not fall over a missing key. *)
Definition safely (Q : OrgStructure → Prop) {A} (m : O A) (s : OrgStructure) : Prop :=
  Q (m s).2 ∧ (m s).1 ≠ inl KeyError_.
Lemma safely_bind Q {A B} (m : O A) (f : A → O B) s :
  safely Q m s → (∀ a s', m s = (inr a, s') → Q s' → safely Q (f a) s') → safely Q (m ≫= f) s.
Proof.
  unfold safely, mbind, O_bind. intros [Hm Hk] Hf. destruct (m s) as [[e|a] s']; [|by apply Hf].
  split; [done|]. simpl in *. congruence.
Qed.
Lemma safely_ofor Q {A} (f : A → O ()) l s :
  Q s → (∀ a s, a ∈ l → Q s → safely Q (f a) s) → safely Q (ofor f l) s.
Proof.
  revert s. induction l as [|a l IH]; intros s Hs Hf; [done|]. cbn [ofor]. apply safely_bind.
  - apply Hf; [left|done].
  - intros [] s' _ Hs'. apply IH; [done|]. intros b t Hb. apply Hf. by right.
Qed.
Lemma safely_check_org_permission Q iter who s : Q s → safely Q (_check_org_permission iter who) s.
Proof. unfold safely, _check_org_permission. by destruct (allowed _). Qed.
Lemma safely_require_position Q pid s : Q s → safely Q (_require_position pid) s.
Proof. unfold safely, _require_position. by destruct (dget _ _). Qed.
Lemma safely_require_governed Q iter ps s : Q s → safely Q (require_governed iter ps) s.
Proof. unfold safely, require_governed. by destruct (validate_governance_invariants _ _ _). Qed.
#[export] Hint Resolve safely_check_org_permission safely_require_position safely_require_governed : org.

Section Sync.
Variable uuid4 : string → nat → string.
Hypothesis uuid4_inj : ∀ d, Inj (=) (=) (uuid4 d).

(** The entity [je] injects the job description of [p]. *)
Definition injects_jd (s : OrgStructure) (je : string) (p : Position) : Prop :=
  ∃ e, dget je (_entities (dev (auth s))) = Some e ∧ dget je (_registry (auth s)) = Some e ∧
    entity_id e = je ∧ injection e = Some (Injection (jd p) "[POSITION_JD]").
(** Memory entities are the organisation's own, each of one position; those of the positions
    outside [X] are in step with them. *)
Record mem_ok (X : string → Prop) (s : OrgStructure) : Prop := {
  mem_drawn : ∀ k e, dget k (_entities (dev (auth s))) = Some e →
    entity_id e = k ∧ ∃ n, n < drawn (dev (auth s)) ∧ k = uuid4 (dev_id (dev (auth s))) n;
  mem_own : ∀ pid je ee, dget pid (_position_memory s) = Some (je, ee) →
    je ≠ ee ∧ is_Some (dget je (_entities (dev (auth s)))) ∧ is_Some (dget ee (_entities (dev (auth s))));
  mem_disjoint : ∀ pid pid' je ee je' ee', pid ≠ pid' →
    dget pid (_position_memory s) = Some (je, ee) → dget pid' (_position_memory s) = Some (je', ee') →
    je ≠ je' ∧ je ≠ ee' ∧ ee ≠ ee';
  mem_sync : ∀ pid p, dget pid (_positions s) = Some p → ¬ X pid →
    ∃ je ee, dget pid (_position_memory s) = Some (je, ee) ∧ injects_jd s je p }.

Lemma mem_ok_weaken (X Y : string → Prop) s : (∀ x, X x → Y x) → mem_ok X s → mem_ok Y s.
Proof. intros H [H1 H2 H3 H4]. constructor; [done..|]. intros pid p Hp Hn. apply H4; [done|]. auto. Qed.
Lemma mem_ok_positions X f s :
  (∀ pid p', dget pid (f (_positions s)) = Some p' → ¬ X pid →
     ∃ p, dget pid (_positions s) = Some p ∧ jd p = jd p') →
  mem_ok X s → mem_ok X (set_positions (f (_positions s)) s).
Proof.
  intros H [H1 H2 H3 H4]. constructor; [done..|]. simpl. intros pid p' Hp Hn.
  destruct (H _ _ Hp Hn) as (p & Hp' & E). destruct (H4 _ _ Hp' Hn) as (je & ee & Hm & e & ? & ? & ? & He).
  exists je, ee. split; [done|]. exists e. by rewrite <-E.
Qed.
(** Changes of grants, and of registry entries other than the position's own. *)
Lemma mem_ok_auth X f s :
  dev (f (auth s)) = dev (auth s) →
  (∀ k e, dget k (_registry (auth s)) = Some e → dget k (_registry (f (auth s))) = Some e) →
  mem_ok X s → mem_ok X (set_auth f s).
Proof.
  intros Hd Hr [H1 H2 H3 H4]. constructor; simpl; rewrite ?Hd; [done..|].
  intros pid p Hp Hn. destruct (H4 _ _ Hp Hn) as (je & ee & Hm & e & ? & ? & ? & He).
  exists je, ee. split; [done|]. exists e. simpl. rewrite Hd. auto.
Qed.
Lemma mem_ok_record X c s : mem_ok X s → mem_ok X (_record c s).
Proof. by intros [H1 H2 H3 H4]; constructor. Qed.
Lemma mem_ok_with_grant X pos eid eff prio s : mem_ok X s → mem_ok X (with_grant pos eid eff prio s).
Proof.
  intros H. unfold with_grant, _ensure_own_entities_registered. apply mem_ok_auth; [done|done|].
  apply mem_ok_auth; [done| |done]. intros k e Hk. simpl. by apply register_missing_keeps.
Qed.
Lemma fresh_id X s : mem_ok X s → dget (new_id uuid4 (dev (auth s))) (_entities (dev (auth s))) = None.
Proof.
  intros H. destruct (dget _ _) as [e|] eqn:E; [|done]. apply (mem_drawn _ _ H) in E as (_ & n & Hn & En).
  apply uuid4_inj in En. lia.
Qed.
Lemma mem_ok_with_entity X l t g s :
  mem_ok X s → mem_ok X (with_entity (memory_entity uuid4 l t g (dev (auth s))) s).
Proof.
  intros H. pose proof (fresh_id _ _ H) as Hf. destruct H as [H1 H2 H3 H4].
  assert (∀ k, is_Some (dget k (_entities (dev (auth s)))) → k ≠ new_id uuid4 (dev (auth s))) as Hne.
  { intros k [e He] ->. by rewrite Hf in He. }
  constructor; simpl.
  - intros k e. rewrite dget_dset. destruct (decide _) as [->|_].
    + intros [= <-]. split; [done|]. exists (drawn (dev (auth s))). split; [lia|done].
    + intros (-> & n & ? & ->)%H1. split; [done|]. exists n. split; [lia|done].
  - intros pid je ee (? & Hj & He)%H2. split; [done|]. rewrite !dget_dset_ne; auto.
  - done.
  - intros pid p Hp Hn. destruct (H4 _ _ Hp Hn) as (je & ee & Hm & e & ? & ? & ? & He).
    exists je, ee. split; [done|]. exists e. simpl. rewrite !dget_dset_ne by eauto. auto.
Qed.
Lemma mem_ok_set_memory X pid je ee p s :
  mem_ok X s → dget pid (_positions s) = Some p → injects_jd s je p → je ≠ ee →
  is_Some (dget ee (_entities (dev (auth s)))) →
  (∀ pid' je' ee', dget pid' (_position_memory s) = Some (je', ee') →
     je ≠ je' ∧ je ≠ ee' ∧ ee ≠ je' ∧ ee ≠ ee') →
  mem_ok (λ x, X x ∧ x ≠ pid) (set_memory (dset pid (je, ee)) s).
Proof.
  intros [H1 H2 H3 H4] Hp Hj Hne He Hd. constructor; simpl.
  - done.
  - intros pid' je' ee'. rewrite dget_dset. destruct (decide _); [|apply H2].
    intros [= <- <-]. destruct Hj as (e0 & Hj & _). eauto.
  - intros q q' je1 ee1 je2 ee2 Hq. rewrite !dget_dset.
    destruct (decide (q = pid)) as [->|], (decide (q' = pid)) as [->|]; try done; [..|by apply H3].
    + intros [= <- <-] Hq'. apply Hd in Hq'. naive_solver.
    + intros Hq' [= <- <-]. apply Hd in Hq'. naive_solver.
  - intros q p' Hq Hn. rewrite dget_dset. destruct (decide (q = pid)) as [->|Hqp].
    + assert (p' = p) as -> by congruence. by exists je, ee.
    + apply H4; tauto.
Qed.
Lemma synced_ok X p s :
  mem_ok X s → dget (position_id p) (_positions s) = Some p →
  mem_ok (λ x, X x ∧ x ≠ position_id p) (synced uuid4 p s).
Proof.
  intros H Hp. unfold synced. set (E1 := memory_entity _ _ _ _ _). set (s1 := with_entity E1 s).
  set (E2 := memory_entity _ _ _ _ _). set (s2 := with_entity E2 s1).
  assert (mem_ok X s1) as H1 by by apply mem_ok_with_entity.
  assert (mem_ok X s2) as H2 by by apply mem_ok_with_entity.
  pose proof (fresh_id _ _ H) as F1. pose proof (fresh_id _ _ H1) as F2.
  assert (new_id uuid4 (dev (auth s)) ≠ new_id uuid4 (dev (auth s1))) as Hne.
  { intros E. rewrite <-E in F2. simpl in F2. by rewrite dget_dset_eq in F2. }
  apply mem_ok_set_memory with p; simpl.
  - by apply mem_ok_with_grant, mem_ok_with_grant.
  - done.
  - exists E1. simpl. rewrite !dget_dset_ne by done. rewrite dget_dset_eq. split_and!; [done| |done|done].
    apply register_missing_keeps, register_missing_keeps. simpl. rewrite dget_dset_ne by done. apply dget_dset_eq.
  - done.
  - rewrite dget_dset_eq. eauto.
  - intros pid' je' ee' Hm. destruct (mem_own _ _ H _ _ _ Hm) as (_ & [? ?] & [? ?]).
    destruct (mem_own _ _ H1 _ _ _ Hm) as (_ & [? ?] & [? ?]).
    split_and!; intros E; simpl in *; congruence.
Qed.

(** The content of one entity is replaced. *)
Definition with_content (eid text : string) (e : RegisteredEntity) (s : OrgStructure) : OrgStructure :=
  let u := Entity (entity_id e) (device_id e) (kind e) (label e)
             (Some (Injection text (match injection e with Some i => source_tag i | None => "" end))) in
  set_auth (λ a, set_registry (dset eid u)
              (set_dev (λ d, mkDevice (dev_id d) (dset eid u (_entities d)) (drawn d)) a)) s.
Lemma update_memory_content_eq eid text s e :
  dget eid (_entities (dev (auth s))) = Some e →
  _update_memory_content eid text s = (inr (), with_content eid text e s).
Proof. intros He. unfold _update_memory_content. by rewrite He. Qed.
Lemma mem_ok_with_content X eid text e s :
  dget eid (_entities (dev (auth s))) = Some e →
  (∀ pid ee, ¬ X pid → dget pid (_position_memory s) ≠ Some (eid, ee)) →
  mem_ok X s → mem_ok X (with_content eid text e s).
Proof.
  intros He Hx [H1 H2 H3 H4].
  assert (∀ k u, is_Some (dget k (_entities (dev (auth s)))) →
            is_Some (dget k (dset eid u (_entities (dev (auth s)))))) as Hk.
  { intros k u ?. rewrite dget_dset. destruct (decide _); eauto. }
  constructor; simpl.
  - intros k f. rewrite dget_dset. destruct (decide _) as [->|_]; [|apply H1].
    intros [= <-]. by apply H1 in He.
  - intros pid je ee (? & ? & ?)%H2. auto.
  - done.
  - intros pid p Hp Hn. destruct (H4 _ _ Hp Hn) as (je & ee & Hm & f & ? & ? & ? & Hf).
    exists je, ee. split; [done|]. exists f. simpl.
    assert (je ≠ eid) by (intros ->; by apply (Hx pid ee)). rewrite !dget_dset_ne by done. auto.
Qed.
Lemma refresh_ok X p s : mem_ok X s → safely (mem_ok X) (_refresh_relations p) s.
Proof.
  intros H. unfold _refresh_relations. unfold safely at 1.
  destruct (dget (position_id p) (_position_memory s)) as [[je ee]|] eqn:E; [|done].
  destruct (mem_own _ _ H _ _ _ E) as (Hne & _ & [e He]). rewrite (update_memory_content_eq _ _ _ e) by done.
  split; [|done]. apply mem_ok_with_content; [done| |done]. intros pid ee' _ Hm.
  destruct (decide (pid = position_id p)) as [->|Hp]; [congruence|].
  destruct (mem_disjoint _ _ H _ _ _ _ _ _ Hp Hm E) as (_ & ? & _). done.
Qed.
Lemma mem_ok_drop_entity X pid eid s :
  (∀ pid je ee, dget pid (_position_memory s) = Some (je, ee) → eid ≠ je ∧ eid ≠ ee) →
  mem_ok X s → mem_ok X (set_auth (λ a, drop_entity eid (revoke_capability pid eid a)) s).
Proof.
  intros Hd [H1 H2 H3 H4]. constructor; simpl.
  - intros k e Hk. apply H1. rewrite dget_dpop in Hk. by destruct (decide _).
  - intros q je ee Hq. destruct (H2 _ _ _ Hq) as (? & ? & ?), (Hd _ _ _ Hq). rewrite !dget_dpop_ne by done. auto.
  - done.
  - intros q p Hp Hn. destruct (H4 _ _ Hp Hn) as (je & ee & Hm & e & ? & ? & ? & He).
    exists je, ee. split; [done|]. destruct (Hd _ _ _ Hm). exists e. simpl. rewrite !dget_dpop_ne by done. auto.
Qed.
(** The positions of [f] have the job descriptions of the positions of the same name before. *)
Definition same_jds (ps ps' : positions) : Prop :=
  ∀ pid p', dget pid ps' = Some p' → ∃ p, dget pid ps = Some p ∧ jd p = jd p'.
Lemma same_jds_refl ps : same_jds ps ps.
Proof. intros pid p ?. by exists p. Qed.
Lemma same_jds_change ps ps' k f :
  (∀ p, jd (f p) = jd p) → same_jds ps ps' → same_jds ps (change k f ps').
Proof.
  intros Hf H pid p'. unfold change. destruct (dget k ps') as [p|] eqn:E; [|apply H].
  rewrite dget_dset. destruct (decide (pid = k)) as [->|]; [|apply H]. intros [= <-].
  rewrite Hf. by apply H.
Qed.
Lemma dget_map_pairs {V W} (f : V → W) k d : dget k (map (λ kv, (kv.1, f kv.2)) d) = f <$> dget k d.
Proof. induction d as [|[k' v] d IH]; simpl; [done|]. by destruct (decide _). Qed.
Lemma same_jds_link sub sup ps ps' : _link_superior sub sup ps = inr ps' → same_jds ps ps'.
Proof.
  unfold _link_superior. destruct (bool_decide _); [done|].
  destruct (match sup with Some x => negb (dmem x ps) | None => false end); [done|].
  destruct (dget sub ps) as [pos|]; [|done]. intros [= <-].
  destruct sup; repeat (apply same_jds_change; [done|]);
    (destruct (superior_id pos); [destruct (bool_decide _)|]);
    try (apply same_jds_change; [done|]); apply same_jds_refl.
Qed.

Definition memory_ok : OrgStructure → Prop := mem_ok (λ _, False).
Lemma safely_record X c s : mem_ok X s → safely (mem_ok X) (changing (_record c)) s.
Proof. intros H. split; [by apply mem_ok_record|done]. Qed.
Lemma safely_ret X {A} (a : A) s : mem_ok X s → safely (mem_ok X) (mret a) s.
Proof. by intros H. Qed.
Lemma safely_reading X {A} (f : OrgStructure → A) s : mem_ok X s → safely (mem_ok X) (reading f) s.
Proof. by intros H. Qed.
Lemma safely_wiring X f s :
  (∀ a, dev (f a) = dev a ∧ _registry (f a) = _registry a) →
  mem_ok X s → safely (mem_ok X) (changing (set_auth f)) s.
Proof.
  intros Hf H. split; [|done]. destruct (Hf (auth s)) as [Hd Hr]. apply mem_ok_auth; [done| |done].
  by rewrite Hr.
Qed.
Lemma wiring_revoke_membership agent pid a :
  dev (revoke_membership agent pid a) = dev a ∧ _registry (revoke_membership agent pid a) = _registry a.
Proof. unfold revoke_membership. by destruct (dget _ _). Qed.
Lemma safely_grant_capability X pos eid eff prio s :
  mem_ok X s → safely (mem_ok X) (grant_capability pos eid eff prio) s.
Proof.
  intros H. destruct (dmem eid (_registry (auth (_ensure_own_entities_registered s)))) eqn:E.
  - assert (grant_capability pos eid eff prio s = (inr (), with_grant pos eid eff prio s)) as Hg.
    { unfold grant_capability, base_grant_capability, is_registered. by rewrite E. }
    unfold safely. rewrite Hg. split; [by apply mem_ok_with_grant|done].
  - assert (grant_capability pos eid eff prio s = (inl UnknownEntityError, _ensure_own_entities_registered s)) as Hg.
    { unfold grant_capability, base_grant_capability, is_registered. by rewrite E. }
    unfold safely. rewrite Hg. split; [|done]. apply mem_ok_auth; [done| |done].
    intros k e Hk. simpl. by apply register_missing_keeps.
Qed.
Lemma safely_install X p s : mem_ok X s → safely (mem_ok X) (install uuid4 p) s.
Proof.
  intros H. unfold safely, install, mbind, O_bind. cbn [changing]. rewrite sync_position_memory_eq.
  split; [|done]. simpl.
  assert (mem_ok (λ x, X x ∨ x = position_id p) (set_positions (dset (position_id p) p (_positions s)) s)) as Hs.
  { apply (mem_ok_positions _ (dset (position_id p) p)).
    - intros q p' Hq Hn. rewrite dget_dset in Hq. destruct (decide _) as [->|]; [tauto|by exists p'].
    - revert H. apply mem_ok_weaken. tauto. }
  apply (synced_ok _ p) in Hs; [|apply dget_dset_eq]. revert Hs. apply mem_ok_weaken. tauto.
Qed.
#[local] Hint Resolve safely_record safely_ret safely_reading safely_grant_capability safely_install
  refresh_ok wiring_revoke_membership : org.
#[local] Hint Extern 1 (safely _ (changing (set_auth _)) _) =>
  (apply safely_wiring; [by auto with org|]) : org.
(** Prove a composed operation safe, statement by statement. *)
Ltac keep_safe :=
  repeat first [solve [auto with org] | apply safely_bind; [|intros ? ? _ ?]
               | apply safely_ofor; [|intros ? ? _ ?]]; auto with org.

Lemma safely_mutate iter who op pid mutate s :
  (∀ ps ps', mutate ps = inr ps' → same_jds ps ps') → (∀ ps, mutate ps ≠ inl KeyError_) →
  memory_ok s → safely memory_ok (_mutate_positions iter who op pid mutate) s.
Proof.
  intros Hm He Hs. unfold _mutate_positions.
  apply safely_bind; [auto with org|]. intros [] s1 _ Hs1. apply safely_bind; [auto with org|].
  intros _ s2 _ Hs2. apply safely_bind; [done|]. intros old s3 [= <- <-] _.
  destruct (mutate (_positions s2)) as [e|ps] eqn:E.
  { split; [done|]. intros [= ->]. by apply (He (_positions s2)). }
  apply safely_bind; [auto with org|]. intros [] s4 [-> _]%require_governed_inr _.
  apply safely_bind; [split; [|done]|intros [] s5 _ H5; unfold memory_ok in *; keep_safe].
  apply (mem_ok_positions _ (λ _, ps)); [|done]. intros q p' Hq _. by apply (Hm _ _ E).
Qed.
Lemma safely_set_jd iter pid text who s : memory_ok s → safely memory_ok (set_jd iter pid text who) s.
Proof.
  intros Hs. unfold set_jd. apply safely_bind; [auto with org|]. intros [] s1 _ Hs1.
  apply safely_bind; [auto with org|]. intros p s2 Hp Hs2. unfold _require_position in Hp.
  destruct (dget pid (_positions s1)) as [q|] eqn:Eq; [|done]. injection Hp as -> <-.
  destruct (mem_sync _ _ Hs1 _ _ Eq) as (je & ee & Hm & e & He & Hr & Hid & Hi); [tauto|].
  set (s' := set_positions (dset pid (with_jd text p) (_positions s1)) s1).
  assert (mem_ok (λ x, x = pid) s') as H'.
  { apply (mem_ok_positions _ (dset pid (with_jd text p))).
    - intros x p' Hx Hn. rewrite dget_dset_ne in Hx by done. by exists p'.
    - revert Hs1. by apply mem_ok_weaken. }
  assert (memory_ok (with_content je text e s')) as Ho.
  { assert (mem_ok (λ x, x = pid) (with_content je text e s')) as [H1 H2 H3 H4].
    { apply mem_ok_with_content; [done| |done]. intros x ee' Hx Hm'.
      destruct (mem_disjoint _ _ Hs1 _ _ _ _ _ _ Hx Hm' Hm) as [? _]. done. }
    constructor; [done..|]. intros x p' Hx _. destruct (decide (x = pid)) as [->|]; [|by apply H4].
    simpl in Hx. rewrite dget_dset_eq in Hx. injection Hx as <-. exists je, ee. split; [done|].
    eexists. simpl. rewrite !dget_dset_eq. split_and!; [done..|]. simpl. by rewrite Hi. }
  match goal with |- safely _ ?m _ =>
    assert (m s1 = changing (_record (Change "set_jd" who pid "" "")) (with_content je text e s')) as Hrun end.
  { unfold mbind, O_bind. cbn [changing reading]. fold s'.
    change (_position_memory s') with (_position_memory s1). rewrite Hm.
    by rewrite (update_memory_content_eq _ _ _ e). }
  unfold safely. rewrite Hrun. by apply safely_record.
Qed.
Lemma safely_weaken (Q R : OrgStructure → Prop) {A} (m : O A) s :
  (∀ t, Q t → R t) → safely Q m s → safely R m s.
Proof. intros H []. split; auto. Qed.
Lemma mem_ok_pop X pid s :
  dget pid (_positions s) = None → mem_ok X s → mem_ok X (set_memory (dpop pid) s).
Proof.
  intros Hp [H1 H2 H3 H4]. constructor; simpl; [done|..].
  - intros q je ee. rewrite dget_dpop. destruct (decide _); [done|]. apply H2.
  - intros q q' je ee je' ee' Hq. rewrite !dget_dpop. do 2 (destruct (decide _); [done|]). by apply H3.
  - intros q p Hq Hn. assert (q ≠ pid) by congruence. rewrite dget_dpop_ne by done. by apply H4.
Qed.
Lemma safely_remove_position iter pid who s :
  memory_ok s → safely memory_ok (remove_position iter pid who) s.
Proof.
  intros Hs. unfold remove_position. apply safely_bind; [auto with org|]. intros [] s1 _ Hs1.
  apply safely_bind; [auto with org|]. intros _ s2 _ Hs2. apply safely_bind; [done|].
  intros old s3 [= <- <-] _. apply safely_bind; [auto with org|].
  intros [] s4 [-> _]%require_governed_inr _. clear s s1 Hs Hs1.
  set (prospective := map _ _). set (s' := set_positions prospective s2).
  assert (memory_ok s') as H'.
  { apply (mem_ok_positions _ (λ _, prospective)); [|done]. intros q p' Hq _. unfold prospective in Hq.
    rewrite dget_map_pairs, dget_dpop in Hq. destruct (decide _); [done|].
    destruct (dget q (_positions s2)) as [p|]; [|done]. injection Hq as <-. by exists p. }
  apply safely_bind; [done|]. intros [] t [= <-] _. apply safely_bind; [done|].
  intros m t [= <- Em] _. subst t. apply safely_bind.
  { split; [|done]. apply (mem_ok_pop _ pid s'); [|done]. simpl. unfold prospective. by rewrite dget_map_pairs, dget_dpop_eq. }
  intros [] t [= <-] H''. apply safely_bind.
  { apply (safely_weaken (λ t, memory_ok t ∧ _position_memory t = dpop pid (_position_memory s2))); [by intros ? []|].
    apply safely_ofor; [done|]. intros eid t Heid [Ht Hpm]. destruct (nonempty eid) eqn:En; [|done].
    split; [|done]. split; [|done]. apply mem_ok_drop_entity; [|done]. intros q je ee Hq.
    rewrite Hpm, dget_dpop in Hq. destruct (decide (q = pid)); [done|].
    change (_position_memory s') with (_position_memory s2) in Heid.
    destruct (dget pid (_position_memory s2)) as [[je' ee']|] eqn:Ep; simpl in Heid.
    - destruct (mem_disjoint _ _ Hs2 _ _ _ _ _ _ n Hq Ep) as (? & ? & ?).
      destruct (mem_disjoint _ _ Hs2 _ _ _ _ _ _ (not_eq_sym n) Ep Hq) as (? & ? & ?). set_solver.
    - exfalso. assert (eid = "") as -> by set_solver. done. }
  intros [] t' _ Ht'. unfold memory_ok in *. keep_safe.
Qed.
Lemma link_no_key_error sub sup ps : _link_superior sub sup ps ≠ inl KeyError_.
Proof.
  unfold _link_superior. destruct (bool_decide _); [done|].
  destruct (match sup with Some x => negb (dmem x ps) | None => false end); [done|]. by destruct (dget _ _).
Qed.
Lemma exec_memory_ok iter who o s :
  memory_ok s → safely memory_ok (exec uuid4 iter who o) s.
Proof.
  intros Hs.
  destruct o as [d|new a rp|p|pid|pid text|pid sup|m sub|m sub|p q|p q|p e eff prio|p e|a p|a p|a p note|a p];
    cbn [exec].
  - unfold safely, accept_device. destruct (accept_entities _ _) as [e r] eqn:E. simpl.
    assert (∀ k x, dget k (_registry (auth s)) = Some x → dget k r = Some x) as Hr.
    { revert E. generalize (_registry (auth s)) as r0. induction (dvalues (_entities d)) as [|x l IH]; simpl.
      - by intros r0 [= _ <-].
      - intros r0. destruct (dmem (entity_id x) r0) eqn:Em; [by intros [= _ <-]|]. intros E k y Hk.
        apply (IH _ E). rewrite dget_dset_ne; [done|]. intros ->. unfold dmem in Em. by rewrite Hk in Em. }
    split; [by apply mem_ok_auth|]. destruct e as [e|]; [|done].
    assert (e = AuthorityError) as ->; [|done]. clear Hr. revert E. generalize (_registry (auth s)).
    induction (dvalues (_entities d)); intros r0; simpl; [done|]. destruct (dmem _ _); naive_solver.
  - unfold bootstrap, memory_ok in *. keep_safe; [by destruct (existsb _ _)|].
    destruct a as [agent|]; [destruct rp|destruct new]; keep_safe; done.
  - unfold add_position, memory_ok in *. keep_safe. by destruct (dmem _ _).
  - by apply safely_remove_position.
  - by apply safely_set_jd.
  - apply safely_mutate; [eauto using same_jds_link|apply link_no_key_error|done].
  - apply safely_mutate; [eauto using same_jds_link|apply link_no_key_error|done].
  - apply safely_mutate; [|by intros ps; destruct (negb _)|done]. intros ps ps'. destruct (negb _); [done|].
    intros [= <-]. apply same_jds_change; [intros ?; by destruct (decide _)|].
    apply same_jds_change; [done|]. apply same_jds_refl.
  - apply safely_mutate; [|by intros ps; destruct (negb _)|done]. intros ps ps'. destruct (negb _); [done|].
    intros [= <-]. apply same_jds_change; [done|]. apply same_jds_refl.
  - apply safely_mutate; [|by intros ps; destruct (negb _)|done]. intros ps ps'. destruct (negb _); [done|].
    intros [= <-]. apply same_jds_change; [done|]. apply same_jds_refl.
  - unfold grant_org_capability, memory_ok in *. keep_safe.
  - unfold revoke_org_capability, memory_ok in *. keep_safe.
  - unfold grant_org_membership, memory_ok in *. keep_safe.
  - unfold revoke_org_membership, memory_ok in *. keep_safe.
  - unfold mount, memory_ok in *. keep_safe.
  - unfold unmount, memory_ok in *. keep_safe.
Qed.
Lemma run_memory_ok iter ops s : memory_ok s → memory_ok (run uuid4 iter ops s).
Proof.
  revert s. induction ops as [|[who o] ops IH]; intros s Hs; [done|]. simpl. apply IH.
  by apply exec_memory_ok.
Qed.
(** Every entity of a device is drawn by it. *)
Definition drawn_ok (d : Device) : Prop := ∀ k e, dget k (_entities d) = Some e →
  entity_id e = k ∧ ∃ n, n < drawn d ∧ k = uuid4 (dev_id d) n.
Lemma register_drawn k l i d : drawn_ok d → drawn_ok (register_entity uuid4 k l i None d).2.
Proof.
  intros Hd x e. simpl. rewrite dget_dset. destruct (decide _) as [->|].
  - intros [= <-]. split; [done|]. exists (drawn d). split; [lia|done].
  - intros (? & m & ? & ?)%Hd. split; [done|]. exists m. split; [lia|done].
Qed.
Lemma register_semantics_drawn sem d : drawn_ok d → drawn_ok (register_semantics uuid4 d sem).2.
Proof.
  unfold register_semantics. generalize (@nil (EdgeKind * string)) at 2 as l. revert d.
  induction sem as [|kd sem IH]; intros d l Hd; [done|]. cbn [foldl].
  destruct (register_entity _ _ _ _ _ _) as [eid d'] eqn:E. apply IH.
  change d' with (eid, d').2. rewrite <-E. by apply register_drawn.
Qed.
Lemma init_memory_ok team own did register sem sink teams teams' s :
  OrgStructure_init uuid4 team own did register sem sink teams = (inr s, teams') → memory_ok s.
Proof.
  unfold OrgStructure_init. destruct (Authority_init _ _ _ _ _) as [[e|a] t] eqn:Ea; [done|].
  destruct (validate_edge_semantics _); [|done]. cbn [negb].
  destruct (register_entity _ _ _ _ _ _) as [manage d] eqn:Em.
  destruct (register_semantics _ _ _) as [ents d'] eqn:Er. unfold accept_device.
  destruct (accept_entities _ _) as [[e|] r]; [done|]. intros [= <- _].
  assert (drawn_ok d') as Hd.
  { change d' with (ents, d').2. rewrite <-Er. apply register_semantics_drawn.
    change d with (manage, d).2. rewrite <-Em. apply register_drawn.
    assert (_entities (dev a) = []) as He; [|by intros k e; rewrite He].
    revert Ea. unfold Authority_init. destruct register; [destruct (dmem _ _); [done|]|]; by intros [= <- _]. }
  by constructor.
Qed.

(** What an agent remembers of its position is the position's job description of now: in every
    state the operations lead to, whatever [set_jd], removals and replaced positions came before,
    each position has a memory entity, and an agent that occupies the position is injected, for
    each grant of that entity, the current text with the grant's priority.  Nor does any operation
    fail for want of that entity. *)
Theorem memory_follows_jd iter (iter_spec : ∀ s x, x ∈ iter s ↔ x ∈ s)
    team own did register sem sink teams teams' s0 ops :
  OrgStructure_init uuid4 team own did register sem sink teams = (inr s0, teams') →
  let s := run uuid4 iter ops s0 in
  (∀ who o, (exec uuid4 iter who o s).1 ≠ inl KeyError_) ∧
  ∀ pid p, dget pid (_positions s) = Some p →
    ∃ je ee d, dget pid (_position_memory s) = Some (je, ee) ∧
      ∀ agent g, pid ∈ positions_of agent (auth s) → g ∈ grants_at pid (auth s) → g_entity g = je →
        Memory je d (jd p) "[POSITION_JD]" pid (g_priority g) ∈ injection_for iter agent (auth s).
Proof.
  intros Hi s. assert (memory_ok s) as Hs by eauto using run_memory_ok, init_memory_ok.
  split; [intros who o; by apply exec_memory_ok|]. intros pid p Hp.
  destruct (mem_sync _ _ Hs _ _ Hp) as (je & ee & Hm & e & He & Hr & Hid & Hinj); [tauto|].
  exists je, ee, (device_id e). split; [done|]. intros agent g Ha Hg Heq.
  unfold injection_for. apply list_elem_of_In, in_flat_map. exists pid.
  rewrite <-!list_elem_of_In, iter_spec. split; [done|]. apply list_elem_of_omap.
  exists g. split; [done|]. rewrite Heq, Hr, Hinj. simpl. by rewrite Hid.
Qed.
End Sync.

(** ** A small organisation *)

Definition uuid0 (d : string) (n : nat) : string := d +:+ pretty (N.of_nat n).
#[global] Instance uuid0_inj d : Inj (=) (=) (uuid0 d).
Proof. intros m n H. unfold uuid0 in H. apply (inj _), (inj _) in H. by apply Nat2N.inj. Qed.
Lemma elements_spec (s : gset string) (x : string) : x ∈ elements s ↔ x ∈ s.
Proof. apply elem_of_elements. Qed.

Definition lead : Position := mkPosition "lead" "Lead" "lead the team" None ["dev"] [].
Definition coder : Position := mkPosition "dev" "Developer" "write code" (Some "lead") [] [].
Definition tester : Position := mkPosition "qa" "Tester" "test code" None [] [].
Definition org0 : (org_error + OrgStructure) * dict string :=
  OrgStructure_init uuid0 "team" "owner" "org" true [] (Some []) [].
(** The owner installs two positions and the root grant; its agent adds a third position, links
    it, mounts an occupant and rewrites its job description. *)
Definition founding : list (string * Op) :=
  [("owner", Bootstrap [lead; coder] (Some "root") (Some "lead"));
   ("root", AddPosition tester); ("root", SetSuperior "qa" (Some "dev"));
   ("root", Mount "bob" "qa" ""); ("root", SetJd "qa" "test twice");
   ("bob", SetJd "lead" "pay bob"); ("root", AddSubordinate "qa" "lead")].
Definition after (ops : list (string * Op)) : option OrgStructure :=
  match org0 with (inr s, _) => Some (run uuid0 elements ops s) | _ => None end.

(** Bob is not entitled and the cycle [lead → dev → qa → lead] is refused; Bob works by the new
    job description. *)
Example founding_positions :
  (λ s, (dvalues (_positions s), map m_content (injection_for elements "bob" (auth s)))) <$> after founding
  = Some ([lead; mkPosition "dev" "Developer" "write code" (Some "lead") ["qa"] [];
           mkPosition "qa" "Tester" "test twice" (Some "dev") [] []], ["test twice"; "上级岗位：Developer"]).
Proof. vm_compute. reflexivity. Qed.

Lemma org_stays_governed_witness : ∃ s teams, org0 = (inr s, teams) ∧
  length (_positions (run uuid0 elements founding s)) = 3 ∧
  governed (dvalues (_positions (run uuid0 elements founding s))) (edge_semantics (run uuid0 elements founding s)).
Proof.
  eexists _, _. split; [vm_compute; reflexivity|]. split; [vm_compute; reflexivity|].
  eapply (org_stays_governed uuid0 elements elements_spec "team" "owner" "org" true [] (Some []) []).
  vm_compute. reflexivity.
Defined.
Lemma memory_follows_jd_witness : ∃ s0 teams s, org0 = (inr s0, teams) ∧ s = run uuid0 elements founding s0 ∧
  dget "qa" (_positions s) = Some (mkPosition "qa" "Tester" "test twice" (Some "dev") [] []) ∧
  ∀ pid p, dget pid (_positions s) = Some p →
    ∃ je ee d, dget pid (_position_memory s) = Some (je, ee) ∧
      ∀ agent g, pid ∈ positions_of agent (auth s) → g ∈ grants_at pid (auth s) → g_entity g = je →
        Memory je d (jd p) "[POSITION_JD]" pid (g_priority g) ∈ injection_for elements agent (auth s).
Proof.
  eexists _, _, _. split; [vm_compute; reflexivity|]. split; [reflexivity|]. split; [vm_compute; reflexivity|].
  eapply (memory_follows_jd uuid0 uuid0_inj elements elements_spec "team" "owner" "org" true [] (Some []) []).
  vm_compute. reflexivity.
Defined.
Lemma authorize_decides_witness : ∃ s, after founding = Some s ∧
  effect (authorize elements "root" (org_manage_id s) (auth s)) = ALLOWED ∧
  may "root" (org_manage_id s) (auth s).
Proof.
  eexists. split; [vm_compute; reflexivity|]. split; [vm_compute; reflexivity|].
  match goal with |- may ?a ?e ?u => pose proof (authorize_decides elements elements_spec a e u) as [H _] end.
  vm_compute effect in H. exact (proj1 H).
Defined.
Lemma org_change_needs_grant_witness : ∃ s, after founding = Some s ∧
  ¬ may "bob" (org_manage_id s) (auth s) ∧
  exec uuid0 elements "bob" (RemovePosition "lead") s = (inl OrgPermissionDenied, s).
Proof.
  eexists. split; [vm_compute; reflexivity|].
  match goal with |- ¬ ?m ∧ _ => assert (¬ m) as H end.
  { rewrite <-(authorize_allowed elements elements_spec). vm_compute. discriminate. }
  split; [exact H|]. apply (org_change_needs_grant elements elements_spec uuid0); [reflexivity|exact H].
Defined.

(** ** Where the code and its documentation differ *)

(** [bootstrap] writes the relations of a position before the positions after it are installed:
    the lead's memory does not mention its subordinate, the subordinate's mentions the lead. *)
Lemma bootstrap_relations_stale :
  (λ s, (dvalues (_positions s), take 2 (map m_content (injection_for elements "root" (auth s)))))
    <$> after (take 1 founding)
  = Some ([lead; coder], ["lead the team"; ""]).
Proof. vm_compute. reflexivity. Qed.
(** Collaboration is declared bidirectional, yet the second of two mutual edges is a delegation
    cycle: it is refused, and the position of its source stays as it was. *)
Lemma mutual_collaboration_refused : ∃ s, after (take 2 founding ++ [("root", AddCollaborator "qa" "dev")]) = Some s ∧
  (exec uuid0 elements "root" (AddCollaborator "dev" "qa") s).1 = inl GovernanceInvariantError.
Proof. eexists. split; [vm_compute; reflexivity|]. vm_compute. reflexivity. Qed.
(** Superiors may form a circle as long as no subordinate edge mirrors it. *)
Lemma superiors_in_a_circle :
  (λ s, map (λ p, (position_id p, superior_id p)) (dvalues (_positions s)))
    <$> after [("owner", Bootstrap [mkPosition "a" "A" "" (Some "b") [] []; mkPosition "b" "B" "" (Some "a") [] []]
                           None None)]
  = Some [("a", Some "b"); ("b", Some "a")].
Proof. vm_compute. reflexivity. Qed.
(** A grant that denies an entity to a position still injects the entity's content into the
    occupants, who are denied the entity. *)
Definition secret : Device :=
  mkDevice "vault" [("vault-key", Entity "vault-key" "vault" DATA "key" (Some (Injection "the key is 42" "[KEY]")))] 1.
Lemma denied_grant_injects :
  (λ s, (effect (authorize elements "bob" "vault-key" (auth s)),
         List.filter (λ m, bool_decide (m_entity m = "vault-key")) (injection_for elements "bob" (auth s))))
    <$> after (take 4 founding ++ [("owner", AcceptDevice secret); ("root", GrantCapability "qa" "vault-key" DENIED 1)])
  = Some (DENIED, [Memory "vault-key" "vault" "the key is 42" "[KEY]" "qa" 1]).
Proof. vm_compute. reflexivity. Qed.
