(* ===== verification/LegacyMail.v ===== *)
(** * Mail of the previous architecture

    legacy/models/email.py and legacy/mailbox.py: mailboxes hold the mails sent and received by
    one agent, the mail system holds the mailboxes, the mails that wait and a registry of all.
    One mail object is shared by its sender, its recipients and the registry: here it is a place
    in a heap, and what they hold is the place.

    Instants are microseconds since year 1, attachments and metadata are values.  A mail object a
    caller builds without the mail system has no place and is not modelled. *)

From stdpp Require Import base gmap strings list pretty sorting.
From Stdlib Require Import ZArith Lia.
From S2P Require Import Prelude PyValue LegacyTransaction LegacyScheduler.

Open Scope string_scope.
Open Scope nat_scope.
Open Scope list_scope.

(** ** Mails (models/email.py) *)

Inductive EmailType :=
| DELEGATION | ACCEPTANCE | PROGRESS | QUESTION | ANSWER | RESULT | REVIEW_REQUEST | REVIEW_RESULT
| FAILURE | BLOCKED_ | CANCELLATION | HUMAN_MESSAGE_ | SYSTEM_NOTICE.
#[global] Instance EmailType_eq_dec : EqDecision EmailType.
Proof. solve_decision. Defined.
Inductive EmailStatus := M_QUEUED | M_DELIVERED | M_READ.
#[global] Instance EmailStatus_eq_dec : EqDecision EmailStatus.
Proof. solve_decision. Defined.
Inductive EmailPriority := LOW | NORMAL | HIGH | URGENT.
Record Email := mkEmail {
  email_id : string; m_thread : string; from_agent : string; to : list string; cc : list string;
  subject : string; body : string; attachments : list value; email_type : EmailType;
  m_task : string; created_at_tick : Z; deliver_at_tick : Z; m_status : EmailStatus;
  m_priority : EmailPriority; requires_reply : bool; reply_to : option string;
  m_deadline : option Z; metadata : dict value }.
Definition set_status (st : EmailStatus) (e : Email) : Email :=
  mkEmail (email_id e) (m_thread e) (from_agent e) (to e) (cc e) (subject e) (body e) (attachments e)
    (email_type e) (m_task e) (created_at_tick e) (deliver_at_tick e) st (m_priority e)
    (requires_reply e) (reply_to e) (m_deadline e) (metadata e).
Definition set_deliver_at (t : Z) (e : Email) : Email :=
  mkEmail (email_id e) (m_thread e) (from_agent e) (to e) (cc e) (subject e) (body e) (attachments e)
    (email_type e) (m_task e) (created_at_tick e) t (m_status e) (m_priority e)
    (requires_reply e) (reply_to e) (m_deadline e) (metadata e).

(** ** The order of an inbox *)

Definition priority_rank (p : EmailPriority) : Z :=
  match p with URGENT => 0 | HIGH => 1 | NORMAL => 2 | LOW => 3 end.
Definition _NO_DEADLINE : Z := 315537897599999999.
Definition type_rank (t : EmailType) : Z :=
  match t with SYSTEM_NOTICE => 0 | HUMAN_MESSAGE_ => 1 | _ => 2 end.
Definition sort_key (e : Email) : list Z * string :=
  ([type_rank (email_type e); priority_rank (m_priority e); default _NO_DEADLINE (m_deadline e);
    created_at_tick e], email_id e).
(** The order of tuples: the first difference decides. *)
Fixpoint key_leb (a b : list Z) (tie : bool) : bool :=
  match a, b with
  | x :: a, y :: b => (x <? y)%Z || ((x =? y)%Z && key_leb a b tie)
  | _, _ => tie
  end.
Definition email_leb (e f : Email) : bool :=
  key_leb (sort_key e).1 (sort_key f).1 (String.leb (sort_key e).2 (sort_key f).2).

(** ** Mailboxes and the mail system *)

Record Mailbox := mkMailbox { mb_agent : string; _inbox : dict nat; m_outbox : dict nat }.
Record MailSystem := mkMail {
  heap : list Email; _mailboxes : dict Mailbox; _pending : list nat; _all_emails : dict nat }.

Definition set_heap (f : list Email → list Email) (s : MailSystem) : MailSystem :=
  mkMail (f (heap s)) (_mailboxes s) (_pending s) (_all_emails s).
Definition set_mailboxes (f : dict Mailbox → dict Mailbox) (s : MailSystem) : MailSystem :=
  mkMail (heap s) (f (_mailboxes s)) (_pending s) (_all_emails s).
Definition set_inbox (f : dict nat → dict nat) (m : Mailbox) : Mailbox :=
  mkMailbox (mb_agent m) (f (_inbox m)) (m_outbox m).
Definition set_outbox (f : dict nat → dict nat) (m : Mailbox) : Mailbox :=
  mkMailbox (mb_agent m) (_inbox m) (f (m_outbox m)).

Definition MailSystem_init : MailSystem := mkMail [] [] [] [].
(** The objects a dictionary refers to. *)
Definition objects (d : dict nat) (s : MailSystem) : list Email := omap (λ p, heap s !! p) (dvalues d).

Section OneMailbox.
Variables (m : Mailbox) (s : MailSystem).
Definition inbox : list Email := py_sorted email_leb (objects (_inbox m) s).
Definition outbox : list Email := py_sorted email_leb (objects (m_outbox m) s).
Definition is_delivered (e : Email) : bool := bool_decide (m_status e = M_DELIVERED).
Definition unread_count : nat := length (List.filter is_delivered (objects (_inbox m) s)).
Definition get_unread : list Email := List.filter is_delivered inbox.
Definition get_by_type (t : EmailType) : list Email := List.filter (λ e, bool_decide (email_type e = t)) inbox.
Definition get_by_task (t : string) : list Email := List.filter (λ e, bool_decide (m_task e = t)) inbox.
Definition get_thread (t : string) : list Email :=
  py_sorted (λ e f, created_at_tick e <=? created_at_tick f)%Z
    (List.filter (λ e, bool_decide (m_thread e = t)) (objects (_inbox m) s)).
Definition get_email (id : string) : option Email :=
  match dget id (_inbox m) with Some p => heap s !! p | None => None end.
End OneMailbox.

(** The operations that change a mailbox act on the mailbox of an agent. *)
Definition receive (agent : string) (p : nat) (s : MailSystem) : MailSystem :=
  match dget agent (_mailboxes s), heap s !! p with
  | Some m, Some e =>
      set_mailboxes (dset agent (set_inbox (dset (email_id e) p) m))
        (set_heap (alter (set_status M_DELIVERED) p) s)
  | _, _ => s
  end.
Definition send (agent : string) (p : nat) (s : MailSystem) : MailSystem :=
  match dget agent (_mailboxes s), heap s !! p with
  | Some m, Some e =>
      set_mailboxes (dset agent (set_outbox (dset (email_id e) p) m))
        (set_heap (alter (set_status M_QUEUED) p) s)
  | _, _ => s
  end.
Definition mark_read (agent id : string) (s : MailSystem) : bool * MailSystem :=
  match dget agent (_mailboxes s) with
  | Some m => match dget id (_inbox m) with
              | Some p => (true, set_heap (alter (set_status M_READ) p) s)
              | None => (false, s)
              end
  | None => (false, s)
  end.
Definition mark_all_read (agent : string) (s : MailSystem) : nat * MailSystem :=
  match dget agent (_mailboxes s) with
  | Some m =>
      foldl (λ '(n, s) p,
        match heap s !! p with
        | Some e => if is_delivered e then (S n, set_heap (alter (set_status M_READ) p) s) else (n, s)
        | None => (n, s)
        end) (0, s) (dvalues (_inbox m))
  | None => (0, s)
  end.
Definition remove_from_inbox (agent id : string) (s : MailSystem) : bool * MailSystem :=
  match dget agent (_mailboxes s) with
  | Some m => (dmem id (_inbox m), set_mailboxes (dset agent (set_inbox (dpop id) m)) s)
  | None => (false, s)
  end.
Definition clear_outbox (agent : string) (s : MailSystem) : list Email * MailSystem :=
  match dget agent (_mailboxes s) with
  | Some m => (objects (m_outbox m) s, set_mailboxes (dset agent (set_outbox (λ _, []) m)) s)
  | None => ([], s)
  end.

Definition register_mailbox (agent : string) : MailSystem → MailSystem :=
  set_mailboxes (dset agent (mkMailbox agent [] [])).
Definition queue_email (p : nat) (s : MailSystem) : MailSystem :=
  match heap s !! p with
  | Some e => mkMail (heap s) (_mailboxes s) (_pending s ++ [p]) (dset (email_id e) p (_all_emails s))
  | None => s
  end.
Definition get_any_email (id : string) (s : MailSystem) : option Email :=
  match dget id (_all_emails s) with Some p => heap s !! p | None => None end.

(** A mail is due at its tick, or the tick after its creation when that is later. *)
Definition correct_tick (e : Email) : Email :=
  if (deliver_at_tick e <? created_at_tick e + 1)%Z then set_deliver_at (created_at_tick e + 1) e else e.
(** One turn of the loop of [deliver]: the mails delivered and those that remain, so far. *)
Definition deliver_one (tick : Z) (st : MailSystem * list nat * list nat) (p : nat) :
    MailSystem * list nat * list nat :=
  let '(s, delivered, remaining) := st in
  match heap s !! p with
  | None => st
  | Some e =>
      let s := set_heap (alter correct_tick p) s in
      if (deliver_at_tick (correct_tick e) <=? tick)%Z
      then (foldl (λ s r, receive r p s) s (to e), delivered ++ [p], remaining)
      else (s, delivered, remaining ++ [p])
  end.
Definition deliver (tick : Z) (s : MailSystem) : list nat * MailSystem :=
  let '(s', delivered, remaining) := foldl (deliver_one tick) (s, [], []) (_pending s) in
  (delivered, mkMail (heap s') (_mailboxes s') remaining (_all_emails s')).

(** What [create_email] is called with; [None] stands for a missing delivery tick. *)
Record Draft := mkDraft {
  d_from : string; d_to : list string; d_subject : string; d_body : string; d_type : EmailType;
  d_task : string; d_tick : Z; d_deliver_at : option Z; d_priority : EmailPriority;
  d_requires_reply : bool; d_reply_to : option string; d_thread : string; d_attachments : list value;
  d_cc : list string; d_deadline : option Z; d_metadata : dict value }.
Definition new_email (n : N) (d : Draft) : Email :=
  mkEmail ("mail." +:+ pad6 n)
    (if nonempty (d_task d) then (if nonempty (d_thread d) then d_thread d else "thread." +:+ d_task d) else "")
    (d_from d) (d_to d) (d_cc d) (d_subject d) (d_body d) (d_attachments d) (d_type d) (d_task d) (d_tick d)
    (default (d_tick d + 1)%Z (d_deliver_at d)) M_QUEUED (d_priority d) (d_requires_reply d)
    (d_reply_to d) (d_deadline d) (d_metadata d).
Definition create_email (d : Draft) (s : MailSystem) : nat * MailSystem :=
  let p := length (heap s) in
  let e := new_email (N.of_nat (S (length (_all_emails s)))) d in
  let s := set_heap (λ h, h ++ [e]) s in
  (p, queue_email p (send (d_from d) p s)).

(** [send_email] stages the mail; it is created when the tick commits. *)
Section Tools.
Variable AttachmentRef_validate : value → res value.
Definition handle_send_email (agent : string) (to : list string) (subject body : string)
    (attachments : list value) (b : option TransactionBuffer) : res (option TransactionBuffer) :=
  match b with
  | None => Ok None
  | Some b =>
      refs ← res_mapM AttachmentRef_validate attachments;
      Ok (Some (LegacyTransaction.stage EMAIL_SEND agent ("email:" +:+ agent)
        [("from_agent", VStr agent); ("to", VList (map VStr to)); ("subject", VStr subject);
         ("body", VStr body); ("attachments", VList refs)] None None "" "per_effect" b).2)
  end.
End Tools.

(** The delivery phase of a tick (simulation.py): each recipient of a delivered mail is woken;
    the identifiers of the events are drawn by [fresh]. *)
Definition wake_for (fresh : nat → string) (tick : Z) (e : Email) (n : nat) (r : string) : WakeupEvent :=
  mkEvent (fresh n) NEW_EMAIL r tick tick (from_agent e) (m_task e) "" (m_thread e)
    [("email_id", VStr (email_id e))].
Definition _phase_deliver (fresh : nat → string) (tick : Z) (s : MailSystem) (sch : AgentScheduler) (n : nat) :
    list nat * MailSystem * AgentScheduler * nat :=
  let '(delivered, s) := deliver tick s in
  let '(sch, n) :=
    foldl (λ st p, match heap s !! p with
                   | Some e => foldl (λ '(sch, n) r, (enqueue_event (wake_for fresh tick e n r) sch, S n)) st (to e)
                   | None => st
                   end) (sch, n) delivered in
  (delivered, s, sch, n).

(** ** What becomes of a mail *)

(** The tick from which a mail may be delivered. *)
Definition due (e : Email) : Z := Z.max (deliver_at_tick e) (created_at_tick e + 1).
(** A mail apart from its status and the correction of its tick; no operation changes it. *)
Definition content (e : Email) : Email := set_status M_QUEUED (set_deliver_at (due e) e).
Definition contents (s : MailSystem) : list Email := map content (heap s).

Lemma content_status st e : content (set_status st e) = content e.
Proof. done. Qed.
Lemma due_correct e : due (correct_tick e) = due e ∧ deliver_at_tick (correct_tick e) = due e.
Proof.
  unfold correct_tick, due. destruct (Z.ltb_spec (deliver_at_tick e) (created_at_tick e + 1)); simpl; lia.
Qed.
Lemma content_correct e : content (correct_tick e) = content e.
Proof.
  unfold content. destruct (due_correct e) as [-> _]. unfold correct_tick. by destruct (_ <? _)%Z.
Qed.
Lemma due_content e : due (content e) = due e.
Proof. unfold due. simpl. unfold due. lia. Qed.
Lemma same_id e e' : content e' = content e → email_id e = email_id e'.
Proof. intros H. symmetry. exact (f_equal email_id H). Qed.
Lemma same_due e e' : content e' = content e → due e = due e'.
Proof. intros H. rewrite <-(due_content e), <-H. apply due_content. Qed.
Lemma alter_contents f p h : (∀ e, content (f e) = content e) → map content (alter f p h) = map content h.
Proof.
  intros Hf. revert p. induction h as [|e h IH]; intros [|p]; simpl; [done..| |].
  - by rewrite Hf.
  - change (content e :: map content (alter f p h) = content e :: map content h). by rewrite IH.
Qed.
Lemma contents_lookup s p : contents s !! p = content <$> heap s !! p.
Proof. unfold contents. by rewrite list_lookup_fmap. Qed.
Lemma contents_eq s s' p e :
  contents s' = contents s → heap s !! p = Some e → ∃ e', heap s' !! p = Some e' ∧ content e' = content e.
Proof.
  intros H He. assert (contents s' !! p = contents s !! p) as Hp by by rewrite H.
  rewrite !contents_lookup, He in Hp. destruct (heap s' !! p) as [e'|]; [|done].
  apply (inj Some) in Hp. by exists e'.
Qed.

(** Operations that neither create a mail nor touch the queue. *)
Definition keeps_mail (s s' : MailSystem) : Prop :=
  contents s' = contents s ∧ _pending s' = _pending s ∧ _all_emails s' = _all_emails s.
#[global] Instance keeps_mail_refl : Reflexive keeps_mail.
Proof. by intros s. Qed.
#[global] Instance keeps_mail_trans : Transitive keeps_mail.
Proof. intros a b c (?&?&?) (?&?&?). unfold keeps_mail. split_and!; congruence. Qed.
Lemma keeps_alter f p s : (∀ e, content (f e) = content e) → keeps_mail s (set_heap (alter f p) s).
Proof. intros Hf. split_and!; [|done..]. by apply alter_contents. Qed.
Lemma keeps_mailboxes f s : keeps_mail s (set_mailboxes f s).
Proof. done. Qed.
Lemma keeps_receive r p s : keeps_mail s (receive r p s).
Proof.
  unfold receive. destruct (dget _ _); [|done]. destruct (heap s !! p); [|done].
  etrans; [by apply (keeps_alter (set_status M_DELIVERED) p)|done].
Qed.
Lemma keeps_receives p rs s : keeps_mail s (foldl (λ s r, receive r p s) s rs).
Proof.
  revert s. induction rs as [|r rs IH]; intros s; simpl; [done|]. etrans; [apply keeps_receive|apply IH].
Qed.
Lemma keeps_mark_read a id s : keeps_mail s (mark_read a id s).2.
Proof.
  unfold mark_read. destruct (dget a _); [|done]. destruct (dget id _); [|done]. by apply keeps_alter.
Qed.
Lemma keeps_mark_all_read a s : keeps_mail s (mark_all_read a s).2.
Proof.
  unfold mark_all_read. destruct (dget a _) as [m|]; [|done]. generalize 0 as n.
  generalize (dvalues (_inbox m)) as ps. intros ps. revert s.
  induction ps as [|p ps IH]; intros s n; [done|]. cbn [foldl].
  destruct (heap s !! p) as [e|]; [|apply IH]. destruct (is_delivered e); [|apply IH].
  etrans; [|apply IH]. by apply keeps_alter.
Qed.
Lemma keeps_remove a id s : keeps_mail s (remove_from_inbox a id s).2.
Proof. unfold remove_from_inbox. by destruct (dget a _). Qed.
Lemma keeps_clear a s : keeps_mail s (clear_outbox a s).2.
Proof. unfold clear_outbox. by destruct (dget a _). Qed.
Lemma keeps_send a p s : keeps_mail s (send a p s).
Proof.
  unfold send. destruct (dget _ _); [|done]. destruct (heap s !! p); [|done].
  etrans; [by apply (keeps_alter (set_status M_QUEUED) p)|done].
Qed.

(** *** Delivery *)

(** Is the mail at [p] due at [tick]? *)
Definition is_due (tick : Z) (h : list Email) (p : nat) : bool :=
  match h !! p with Some e => (due e <=? tick)%Z | None => false end.
Definition in_heap (s : MailSystem) (p : nat) : Prop := p < length (heap s).
Lemma contents_length s s' : contents s' = contents s → length (heap s') = length (heap s).
Proof. intros H. apply (f_equal length) in H. unfold contents in H. by rewrite !length_map in H. Qed.
Lemma is_due_contents tick s s' p :
  contents s' = contents s → is_due tick (heap s') p = is_due tick (heap s) p.
Proof.
  intros H. unfold is_due. destruct (heap s !! p) as [e|] eqn:E.
  - destruct (contents_eq _ _ _ _ H E) as (e' & -> & Hc). by rewrite <-due_content, Hc, due_content.
  - apply lookup_ge_None in E. rewrite <-(contents_length _ _ H) in E. apply lookup_ge_None in E. by rewrite E.
Qed.
Definition handed (tick : Z) (p : nat) (e : Email) (s : MailSystem) : MailSystem :=
  let s' := set_heap (alter correct_tick p) s in
  if is_due tick (heap s) p then foldl (λ s r, receive r p s) s' (to e) else s'.
Lemma deliver_one_spec tick s d r p e :
  heap s !! p = Some e →
  deliver_one tick (s, d, r) p =
    (handed tick p e s, if is_due tick (heap s) p then d ++ [p] else d,
     if is_due tick (heap s) p then r else r ++ [p]).
Proof.
  intros He. unfold deliver_one, handed, is_due. rewrite He. destruct (due_correct e) as [_ ->].
  by destruct (due e <=? tick)%Z.
Qed.
Lemma keeps_handed tick p e s : keeps_mail s (handed tick p e s).
Proof.
  unfold handed. pose proof (keeps_alter _ p s content_correct). destruct (is_due _ _ _); [|done].
  etrans; [done|apply keeps_receives].
Qed.
Lemma deliver_fold tick l s d r :
  (∀ p, p ∈ l → in_heap s p) →
  let '(s', d', r') := foldl (deliver_one tick) (s, d, r) l in
  keeps_mail s s' ∧ d' = d ++ List.filter (is_due tick (heap s)) l ∧
  r' = r ++ List.filter (λ p, negb (is_due tick (heap s) p)) l.
Proof.
  revert s d r. induction l as [|p l IH]; intros s d r Hl; [by simpl; rewrite !app_nil_r|]. cbn [foldl List.filter].
  destruct (lookup_lt_is_Some_2 (heap s) p) as [e He]; [apply Hl; left|].
  rewrite (deliver_one_spec _ _ _ _ _ _ He).
  pose proof (keeps_handed tick p e s) as Hk. set (s1 := handed tick p e s) in *. clearbody s1.
  assert (∀ q, is_due tick (heap s1) q = is_due tick (heap s) q) as Hd by (intros; apply is_due_contents, Hk).
  assert (∀ d0 r0, let '(s', d', r') := foldl (deliver_one tick) (s1, d0, r0) l in
    keeps_mail s s' ∧ d' = d0 ++ List.filter (is_due tick (heap s)) l ∧
    r' = r0 ++ List.filter (λ p, negb (is_due tick (heap s) p)) l) as H.
  { intros d0 r0. assert (∀ q, q ∈ l → in_heap s1 q) as Hl1.
    { intros q Hq. unfold in_heap. rewrite (contents_length s); [apply Hl; by right|apply Hk]. }
    specialize (IH s1 d0 r0 Hl1). destruct (foldl (deliver_one tick) _ _) as [[s' d'] r'].
    destruct IH as (H1 & -> & ->).
    split; [by etrans|]. split; f_equal; apply filter_ext; intros; by rewrite Hd. }
  destruct (is_due tick (heap s) p) eqn:E; cbn [negb].
  - specialize (H (d ++ [p]) r). destruct (foldl (deliver_one tick) _ _) as [[s' d'] r'].
    destruct H as (? & -> & ->). split; [done|]. by rewrite <-app_assoc.
  - specialize (H d (r ++ [p])). destruct (foldl (deliver_one tick) _ _) as [[s' d'] r'].
    destruct H as (? & -> & ->). split; [done|]. by rewrite <-app_assoc.
Qed.
Lemma deliver_spec tick s :
  (∀ p, p ∈ _pending s → in_heap s p) →
  (deliver tick s).1 = List.filter (is_due tick (heap s)) (_pending s) ∧
  _pending (deliver tick s).2 = List.filter (λ p, negb (is_due tick (heap s) p)) (_pending s) ∧
  contents (deliver tick s).2 = contents s ∧ _all_emails (deliver tick s).2 = _all_emails s.
Proof.
  intros H. unfold deliver. pose proof (deliver_fold tick (_pending s) s [] [] H) as Hf.
  destruct (foldl _ _ _) as [[s' d] r]. destruct Hf as ((? & ? & ?) & -> & ->). done.
Qed.

(** ** Runs *)

Inductive MailOp :=
| Create (d : Draft) | Deliver (tick : Z) | Register (agent : string) | MarkRead (agent id : string)
| MarkAllRead (agent : string) | Remove (agent id : string) | ClearOutbox (agent : string).
(** A state with the log of deliveries, as tick and mail. *)
Definition mail_step (st : MailSystem * list (Z * nat)) (o : MailOp) : MailSystem * list (Z * nat) :=
  let '(s, log) := st in
  match o with
  | Create d => ((create_email d s).2, log)
  | Deliver tick => ((deliver tick s).2, log ++ map (pair tick) (deliver tick s).1)
  | Register a => (register_mailbox a s, log)
  | MarkRead a id => ((mark_read a id s).2, log)
  | MarkAllRead a => ((mark_all_read a s).2, log)
  | Remove a id => ((remove_from_inbox a id s).2, log)
  | ClearOutbox a => ((clear_outbox a s).2, log)
  end.
Definition mail_run (ops : list MailOp) : MailSystem * list (Z * nat) :=
  foldl mail_step (MailSystem_init, []) ops.

Definition mail_id (p : nat) : string := "mail." +:+ pad6 (N.of_nat (S p)).
Record mail_ok (s : MailSystem) (log : list (Z * nat)) : Prop := {
  mail_ids : ∀ p e, heap s !! p = Some e → email_id e = mail_id p;
  mail_all : _all_emails s = map (λ p, (mail_id p, p)) (seq 0 (length (heap s)));
  mail_once : map snd log ++ _pending s ≡ₚ seq 0 (length (heap s));
  mail_due : ∀ t p e, (t, p) ∈ log → heap s !! p = Some e → (due e ≤ t)%Z }.

Lemma mail_id_inj p q : mail_id p = mail_id q → p = q.
Proof.
  unfold mail_id. intros [= H].
  assert (pad6 (N.of_nat (S p)) = pad6 (N.of_nat (S q))) as H' by exact H.
  assert (eff_id (N.of_nat (S p)) = eff_id (N.of_nat (S q))) as He by (unfold eff_id; by rewrite H').
  apply eff_id_inj, Nat2N.inj in He. lia.
Qed.
Lemma mail_ok_keeps s s' log : keeps_mail s s' → mail_ok s log → mail_ok s' log.
Proof.
  intros (Hc & Hp & Ha) [H1 H2 H3 H4]. pose proof (contents_length _ _ Hc) as Hl. constructor.
  - intros p e He. destruct (contents_eq _ _ _ _ (eq_sym Hc) He) as (e' & He' & E).
    rewrite (same_id _ _ E). by apply H1.
  - by rewrite Ha, Hl.
  - by rewrite Hp, Hl.
  - intros t p e Ht He. destruct (contents_eq _ _ _ _ (eq_sym Hc) He) as (e' & He' & E).
    rewrite (same_due _ _ E). eauto.
Qed.
Lemma mail_ok_create d s log : mail_ok s log → mail_ok (create_email d s).2 log.
Proof.
  intros [H1 H2 H3 H4]. set (e := new_email (N.of_nat (S (length (_all_emails s)))) d).
  assert (length (_all_emails s) = length (heap s)) as Hn by (rewrite H2, length_map; apply length_seq).
  assert (email_id e = mail_id (length (heap s))) as Hid by (simpl; by rewrite Hn).
  set (s1 := set_heap (λ h, h ++ [e]) s).
  pose proof (keeps_send (d_from d) (length (heap s)) s1) as (Hc & Hp & Ha).
  assert (heap s1 !! length (heap s) = Some e) as He1.
  { simpl. rewrite lookup_app_r by lia. by rewrite Nat.sub_diag. }
  destruct (contents_eq _ _ _ _ Hc He1) as (e' & He' & Ec).
  assert (email_id e' = email_id e) as Hie by (symmetry; by apply same_id).
  unfold create_email. cbn [snd]. fold e s1. unfold queue_email. rewrite He'.
  assert (contents (mkMail (heap (send (d_from d) (length (heap s)) s1))
     (_mailboxes (send (d_from d) (length (heap s)) s1))
     (_pending (send (d_from d) (length (heap s)) s1) ++ [length (heap s)])
     (dset (email_id e') (length (heap s)) (_all_emails (send (d_from d) (length (heap s)) s1))))
     = contents s1) as Hc' by exact Hc.
  pose proof (contents_length _ _ Hc) as Hl.
  assert (length (heap s1) = S (length (heap s))) as Hl1 by (simpl; rewrite length_app; simpl; lia).
  assert (∀ p x, heap s1 !! p = Some x → p = length (heap s) ∧ x = e ∨ heap s !! p = Some x) as Hlk.
  { intros p x. simpl. intros [?|[? Hx]]%lookup_app_Some; [by right|].
    apply list_lookup_singleton_Some in Hx as [? <-]. left. split; [lia|done]. }
  constructor; cbn [heap _pending _all_emails _mailboxes].
  - intros p x Hx. destruct (contents_eq _ _ _ _ (eq_sym Hc) Hx) as (x' & Hx' & E).
    rewrite (same_id _ _ E).
    apply Hlk in Hx' as [[-> ->]|?]; [done|by apply H1].
  - rewrite Ha, Hl, Hl1, Hie, Hid. cbn [_all_emails s1 set_heap]. rewrite H2.
    rewrite dset_new.
    + by rewrite seq_S, map_app.
    + unfold dkeys. rewrite map_map. intros (q & Hq & Hin)%list_elem_of_fmap. simpl in Hq.
      apply mail_id_inj in Hq as <-. apply elem_of_seq in Hin. lia.
  - rewrite Hp, Hl, Hl1. cbn [_pending s1 set_heap]. rewrite app_assoc, H3, seq_S. done.
  - intros t p x Ht Hx. destruct (contents_eq _ _ _ _ (eq_sym Hc) Hx) as (x' & Hx' & E).
    rewrite (same_due _ _ E).
    apply Hlk in Hx' as [[-> ->]|?]; [|by eauto]. exfalso.
    assert (length (heap s) ∈ map snd log ++ _pending s) as Hin.
    { apply elem_of_app. left. apply list_elem_of_fmap. by exists (t, length (heap s)). }
    rewrite H3 in Hin. apply elem_of_seq in Hin. lia.
Qed.
Lemma filter_negb_perm {A} (f : A → bool) l : List.filter f l ++ List.filter (λ x, negb (f x)) l ≡ₚ l.
Proof.
  induction l as [|x l IH]; simpl; [done|]. destruct (f x); simpl.
  - by constructor.
  - by rewrite <-Permutation_middle, IH.
Qed.
Lemma mail_pending_in_heap s log p : mail_ok s log → p ∈ _pending s → in_heap s p.
Proof.
  intros H Hp. unfold in_heap. assert (p ∈ map snd log ++ _pending s) as Hin by (apply elem_of_app; by right).
  rewrite (mail_once _ _ H) in Hin. apply elem_of_seq in Hin. lia.
Qed.
Lemma mail_ok_deliver tick s log :
  mail_ok s log → mail_ok (deliver tick s).2 (log ++ map (pair tick) (deliver tick s).1).
Proof.
  intros H. destruct (deliver_spec tick s) as (Hd & Hp & Hc & Ha); [eauto using mail_pending_in_heap|].
  pose proof (contents_length _ _ Hc) as Hl. destruct H as [H1 H2 H3 H4]. constructor.
  - intros p e He. destruct (contents_eq _ _ _ _ (eq_sym Hc) He) as (e' & He' & E).
    rewrite (same_id _ _ E). by apply H1.
  - by rewrite Ha, Hl.
  - rewrite Hl, map_app, map_map, map_id, Hd, Hp, <-app_assoc, filter_negb_perm. done.
  - intros t p e Ht He. destruct (contents_eq _ _ _ _ (eq_sym Hc) He) as (e' & He' & E).
    rewrite (same_due _ _ E). apply elem_of_app in Ht as [Ht|Ht]; [eauto|].
    apply list_elem_of_fmap in Ht as (q & [= -> ->] & Hq). rewrite Hd in Hq.
    apply elem_of_bfilter in Hq as [_ Hq]. unfold is_due in Hq. rewrite He' in Hq. lia.
Qed.
Lemma mail_step_ok st o : mail_ok st.1 st.2 → mail_ok (mail_step st o).1 (mail_step st o).2.
Proof.
  destruct st as [s log]. intros H. destruct o; simpl in *.
  - by apply mail_ok_create.
  - by apply mail_ok_deliver.
  - eapply mail_ok_keeps, H. apply keeps_mailboxes.
  - eapply mail_ok_keeps, H. apply keeps_mark_read.
  - eapply mail_ok_keeps, H. apply keeps_mark_all_read.
  - eapply mail_ok_keeps, H. apply keeps_remove.
  - eapply mail_ok_keeps, H. apply keeps_clear.
Qed.
Lemma mail_run_ok ops : mail_ok (mail_run ops).1 (mail_run ops).2.
Proof.
  unfold mail_run. assert (mail_ok MailSystem_init []) as H by (by constructor).
  change MailSystem_init with (MailSystem_init, @nil (Z * nat)).1 in H at 1.
  change (@nil (Z * nat)) with (MailSystem_init, @nil (Z * nat)).2 in H at 2.
  revert H. generalize (MailSystem_init, @nil (Z * nat)) as st.
  induction ops as [|o ops IH]; intros st H; [done|]. simpl. by apply IH, mail_step_ok.
Qed.

(** C25: No mail is lost, delivered twice, or delivered early or late: after any operations every
    mail ever created is either waiting or was delivered exactly once, at a tick not before the
    one asked for and after the tick of its creation; and once a delivery has run, what still
    waits is not due yet. *)
Theorem mail_exactly_once ops :
  let s := (mail_run ops).1 in
  let log := (mail_run ops).2 in
  NoDup (map snd log ++ _pending s) ∧
  (∀ p, p ∈ map snd log ++ _pending s ↔ p < length (heap s)) ∧
  (∀ t p e, (t, p) ∈ log → heap s !! p = Some e → (due e ≤ t)%Z) ∧
  (∀ t p e, p ∈ _pending (mail_step (s, log) (Deliver t)).1 → heap s !! p = Some e → (t < due e)%Z).
Proof.
  intros s log. destruct (mail_run_ok ops) as [H1 H2 H3 H4] eqn:E. pose proof (mail_run_ok ops) as H.
  fold s log in H, H3, H4. split_and!.
  - rewrite H3. apply NoDup_seq.
  - intros p. rewrite H3, elem_of_seq. lia.
  - done.
  - intros t p e Hp He. simpl in Hp. destruct (deliver_spec t s) as (_ & Hd & _); [eauto using mail_pending_in_heap|].
    rewrite Hd in Hp. apply elem_of_bfilter in Hp as [_ Hp]. unfold is_due in Hp. rewrite He in Hp.
    apply negb_true_iff, Z.leb_gt in Hp. lia.
Qed.

(** *** What a recipient sees *)

(** The mailbox of [r] holds the mail [p], delivered. *)
Definition arrived (r : string) (p : nat) (s : MailSystem) : Prop :=
  ∃ m e, dget r (_mailboxes s) = Some m ∧ heap s !! p = Some e ∧
    dget (email_id e) (_inbox m) = Some p ∧ m_status e = M_DELIVERED.
Definition distinct_ids (s : MailSystem) : Prop :=
  ∀ p q e f, heap s !! p = Some e → heap s !! q = Some f → email_id e = email_id f → p = q.
Lemma distinct_keeps s s' : keeps_mail s s' → distinct_ids s → distinct_ids s'.
Proof.
  intros (Hc & _ & _) H p q e f He Hf Hi.
  destruct (contents_eq _ _ _ _ (eq_sym Hc) He) as (e' & He' & Ee).
  destruct (contents_eq _ _ _ _ (eq_sym Hc) Hf) as (f' & Hf' & Ef).
  apply (H p q e' f'); [done..|]. by rewrite <-(same_id _ _ Ee), <-(same_id _ _ Ef).
Qed.
Lemma arrived_correct r p q s : arrived r p s → arrived r p (set_heap (alter correct_tick q) s).
Proof.
  intros (m & e & Hm & He & Hi & Hs). destruct (decide (p = q)) as [->|Hn].
  - exists m, (correct_tick e). simpl. rewrite list_lookup_alter_eq, He. split_and!; [done|done| |].
    + unfold correct_tick. by destruct (_ <? _)%Z.
    + unfold correct_tick. by destruct (_ <? _)%Z.
  - exists m, e. simpl. by rewrite list_lookup_alter_ne.
Qed.
Lemma arrived_receive r p r' q s : distinct_ids s → arrived r p s → arrived r p (receive r' q s).
Proof.
  intros Hd (m & e & Hm & He & Hi & Hs). unfold receive. destruct (dget r' (_mailboxes s)) as [m'|] eqn:Em'; [|by exists m, e].
  destruct (heap s !! q) as [f|] eqn:Ef; [|by exists m, e].
  set (m1 := if decide (r = r') then set_inbox (dset (email_id f) q) m else m).
  set (e1 := if decide (p = q) then set_status M_DELIVERED e else e).
  exists m1, e1. simpl. split_and!.
  - rewrite dget_dset. unfold m1. destruct (decide (r = r')) as [->|]; [|done]. rewrite Em' in Hm. by injection Hm as ->.
  - unfold e1. destruct (decide (p = q)) as [->|]; [by rewrite list_lookup_alter_eq, He|by rewrite list_lookup_alter_ne].
  - assert (email_id e1 = email_id e) as -> by (unfold e1; destruct (decide (p = q)); reflexivity).
    unfold m1. destruct (decide (r = r')); [|done]. simpl. rewrite dget_dset.
    destruct (decide (email_id e = email_id f)) as [Eq|]; [|done]. f_equal. by apply (Hd q p f e).
  - unfold e1. by destruct (decide (p = q)).
Qed.
Lemma receive_arrives r p s :
  is_Some (dget r (_mailboxes s)) → in_heap s p → arrived r p (receive r p s).
Proof.
  intros [m Hm] [e He]%lookup_lt_is_Some_2. unfold receive. rewrite Hm, He.
  exists (set_inbox (dset (email_id e) p) m), (set_status M_DELIVERED e). simpl.
  by rewrite list_lookup_alter_eq, He, !dget_dset_eq.
Qed.
Lemma receive_registered r r' q s :
  is_Some (dget r (_mailboxes s)) → is_Some (dget r (_mailboxes (receive r' q s))).
Proof.
  intros H. unfold receive. destruct (dget r' _) eqn:E; [|done]. destruct (heap s !! q); [|done].
  simpl. rewrite dget_dset. destruct (decide _); eauto.
Qed.
Lemma receives_arrive r p rs s :
  distinct_ids s → in_heap s p → is_Some (dget r (_mailboxes s)) → r ∈ rs ∨ arrived r p s →
  arrived r p (foldl (λ s r, receive r p s) s rs).
Proof.
  revert s. induction rs as [|r' rs IH]; intros s Hd Hp Hr H; simpl.
  - destruct H as [?%elem_of_nil|]; done.
  - apply IH.
    + eapply distinct_keeps, Hd. apply keeps_receive.
    + unfold in_heap. rewrite (contents_length s); [done|apply keeps_receive].
    + by apply receive_registered.
    + destruct H as [[->|H]%elem_of_cons|H]; [right; by apply receive_arrives|by left|right; by apply arrived_receive].
Qed.
Lemma receives_keep r p q rs s :
  distinct_ids s → arrived r p s → arrived r p (foldl (λ s r, receive r q s) s rs).
Proof.
  revert s. induction rs as [|r' rs IH]; intros s Hd H; simpl; [done|].
  apply IH; [eapply distinct_keeps, Hd; apply keeps_receive|by apply arrived_receive].
Qed.
Lemma receives_registered r q rs s :
  is_Some (dget r (_mailboxes s)) → is_Some (dget r (_mailboxes (foldl (λ s r, receive r q s) s rs))).
Proof. revert s. induction rs; intros s H; simpl; [done|]. by apply IHrs, receive_registered. Qed.
Lemma deliver_fold_arrives tick l s d r p agent e :
  distinct_ids s → (∀ q, q ∈ l → in_heap s q) → is_Some (dget agent (_mailboxes s)) →
  heap s !! p = Some e → agent ∈ to e →
  (p ∈ l ∧ is_due tick (heap s) p = true) ∨ arrived agent p s →
  arrived agent p (foldl (deliver_one tick) (s, d, r) l).1.1.
Proof.
  revert s d r e. induction l as [|q l IH]; intros s d r e Hd Hl Ha He Hto H.
  { destruct H as [[?%elem_of_nil _]|H]; done. }
  cbn [foldl]. destruct (lookup_lt_is_Some_2 (heap s) q) as [f Hf]; [apply Hl; left|].
  rewrite (deliver_one_spec _ _ _ _ _ _ Hf). pose proof (keeps_handed tick q f s) as Hk.
  destruct (contents_eq s (handed tick q f s) p e) as (e' & He' & Ec); [apply Hk|done|].
  assert (distinct_ids (set_heap (alter correct_tick q) s)) as Hd1.
  { eapply distinct_keeps, Hd. apply keeps_alter, content_correct. }
  apply IH with e'.
  - by eapply distinct_keeps.
  - intros x Hx. unfold in_heap. rewrite (contents_length s); [apply Hl; by right|apply Hk].
  - unfold handed. cbv zeta. destruct (is_due tick (heap s) q); [by apply receives_registered|exact Ha].
  - done.
  - change (to e') with (to (content e')). by rewrite Ec.
  - rewrite (is_due_contents tick s); [|apply Hk].
    destruct H as [[[->|Hin]%elem_of_cons Hdue]|H].
    + right. unfold handed. rewrite Hdue. simplify_eq. apply receives_arrive; [done| |done|by left].
      unfold in_heap. simpl. rewrite length_alter. by apply lookup_lt_is_Some_1.
    + by left.
    + right. unfold handed. destruct (is_due _ _ _); [apply receives_keep; [done|]|]; by apply arrived_correct.
Qed.

(** A delivery reaches everybody it names: each recipient that has a mailbox finds the mail in
    its inbox, unread and with the content it was created with. *)
Theorem delivery_reaches ops tick p agent m e :
  let s := (mail_run ops).1 in
  p ∈ (deliver tick s).1 → heap s !! p = Some e → agent ∈ to e → dget agent (_mailboxes s) = Some m →
  ∃ m' e', dget agent (_mailboxes (deliver tick s).2) = Some m' ∧
    get_email m' (deliver tick s).2 (email_id e) = Some e' ∧
    e' ∈ get_unread m' (deliver tick s).2 ∧ content e' = content e.
Proof.
  intros s Hp He Hto Hm. pose proof (mail_run_ok ops) as Hok. fold s in Hok.
  destruct (deliver_spec tick s) as (Hd & _ & Hc & _); [eauto using mail_pending_in_heap|].
  rewrite Hd in Hp. apply elem_of_bfilter in Hp as [Hpend Hdue].
  assert (distinct_ids s) as Hids.
  { intros x y f g Hx Hy Hfg. apply mail_id_inj. by rewrite <-(mail_ids _ _ Hok _ _ Hx), <-(mail_ids _ _ Hok _ _ Hy). }
  assert (arrived agent p (foldl (deliver_one tick) (s, [], []) (_pending s)).1.1) as (m' & e' & Hm' & He' & Hi & Hst).
  { apply deliver_fold_arrives with e; eauto using mail_pending_in_heap. }
  assert (heap (deliver tick s).2 = heap (foldl (deliver_one tick) (s, [], []) (_pending s)).1.1 ∧
          _mailboxes (deliver tick s).2 = _mailboxes (foldl (deliver_one tick) (s, [], []) (_pending s)).1.1) as [Hh Hb].
  { unfold deliver. by destruct (foldl _ _ _) as [[? ?] ?]. }
  rewrite <-Hh in He'. rewrite <-Hb in Hm'.
  destruct (contents_eq _ _ _ _ Hc He) as (e'' & He'' & Ec). assert (e'' = e') as -> by congruence.
  exists m', e'. rewrite <-(same_id _ _ Ec) in Hi. unfold get_email. rewrite Hi. split_and!; [done..| |done].
  unfold get_unread, inbox. apply elem_of_bfilter. split; [|unfold is_delivered; by rewrite bool_decide_eq_true].
  apply py_sorted_elem. unfold objects. apply list_elem_of_omap. exists p. split; [|done].
  apply list_elem_of_fmap. eexists (_, p). split; [done|]. by apply dget_Some_elem.
Qed.

(** *** The order of an inbox *)

Lemma sort_key_leb_total a b t t' :
  length a = length b → t = true ∨ t' = true → key_leb a b t = true ∨ key_leb b a t' = true.
Proof.
  revert b. induction a as [|x a IH]; intros [|y b] Hl Ht; try done. injection Hl as Hl. simpl.
  destruct (Z.ltb_spec x y); [by left|]. destruct (Z.ltb_spec y x); [by right|].
  assert (x = y) as -> by lia. rewrite Z.eqb_refl. simpl. by apply IH.
Qed.
Lemma sort_key_leb_trans a b c t t' t'' :
  length a = length b → length b = length c → (t = true → t' = true → t'' = true) →
  key_leb a b t = true → key_leb b c t' = true → key_leb a c t'' = true.
Proof.
  revert b c. induction a as [|x a IH]; intros [|y b] [|z c] Hl Hl' Ht; simpl; try done; auto.
  injection Hl as Hl. injection Hl' as Hl'. rewrite !orb_true_iff, !andb_true_iff, !Z.ltb_lt, !Z.eqb_eq.
  intros [H|[-> H]] [H'|[-> H']]; [left; lia..|]. right. split; [done|]. by apply (IH b c).
Qed.
Lemma sort_key_leb_antisym a b t t' :
  length a = length b → key_leb a b t = true → key_leb b a t' = true → t = true ∧ t' = true.
Proof.
  revert b. induction a as [|x a IH]; intros [|y b] Hl; simpl; try done. injection Hl as Hl.
  rewrite !orb_true_iff, !andb_true_iff, !Z.ltb_lt, !Z.eqb_eq.
  intros [H|[-> H]] [H'|[? H']]; try lia. by apply (IH b).
Qed.
Lemma email_leb_total e f : email_leb e f = true ∨ email_leb f e = true.
Proof. apply sort_key_leb_total; [done|]. apply String.leb_total. Qed.
Lemma email_leb_trans e f g : email_leb e f = true → email_leb f g = true → email_leb e g = true.
Proof. apply sort_key_leb_trans; [done..|]. apply string_leb_trans. Qed.

(** The documented order: system notices, then people, then the rest; then by priority, by
    deadline, by age, by identifier. *)
Definition precedes (e f : Email) : Prop :=
  let rank e := type_rank (email_type e) in
  let urgency e := priority_rank (m_priority e) in
  let deadline e := default _NO_DEADLINE (m_deadline e) in
  (rank e ≤ rank f)%Z ∧ (rank e = rank f → (urgency e ≤ urgency f)%Z ∧ (urgency e = urgency f →
    (deadline e ≤ deadline f)%Z ∧ (deadline e = deadline f → (created_at_tick e ≤ created_at_tick f)%Z ∧
      (created_at_tick e = created_at_tick f → String.leb (email_id e) (email_id f) = true)))).
Lemma email_leb_precedes e f : email_leb e f = true ↔ precedes e f.
Proof.
  unfold email_leb, precedes, sort_key. cbn [fst snd key_leb].
  rewrite !orb_true_iff, !andb_true_iff, !orb_true_iff, !andb_true_iff, !orb_true_iff, !andb_true_iff,
    !orb_true_iff, !andb_true_iff, !Z.ltb_lt, !Z.eqb_eq.
  generalize (String.leb (email_id e) (email_id f)). intros []; intuition lia.
Qed.

Lemma StronglySorted_mono {A} (R S : relation A) l :
  (∀ x y, R x y → S x y) → StronglySorted R l → StronglySorted S l.
Proof. intros H. induction 1 as [|x l _ IH Hx]; constructor; [done|]. eapply Forall_impl; [exact Hx|]. apply H. Qed.

(** The inbox lists exactly the received mails in the documented order, and its order depends
    on the mails alone, not on the order they arrived in. *)
Theorem inbox_order m s :
  inbox m s ≡ₚ objects (_inbox m) s ∧ StronglySorted precedes (inbox m s) ∧
  ∀ l, NoDup (map email_id l) → l ≡ₚ objects (_inbox m) s → py_sorted email_leb l = inbox m s.
Proof.
  assert (∀ l, StronglySorted precedes (py_sorted email_leb l)) as Hs.
  { intros l. eapply StronglySorted_mono; [|apply py_sorted_sorted].
    - intros e f. apply email_leb_precedes.
    - apply email_leb_total.
    - apply email_leb_trans. }
  split_and!; [apply py_sorted_perm|apply Hs|]. intros l Hn Hl. unfold inbox.
  apply (StronglySorted_unique_strong precedes); [|apply Hs..|by rewrite !py_sorted_perm].
  intros e f He Hf Hef Hfe. apply py_sorted_elem in He, Hf. rewrite <-Hl in Hf.
  assert (email_id e = email_id f) as Hi.
  { apply email_leb_precedes in Hef, Hfe. unfold email_leb in Hef, Hfe.
    destruct (sort_key_leb_antisym _ _ _ _ (eq_refl : length (sort_key e).1 = length (sort_key f).1) Hef Hfe) as [H1 H2].
    by apply String.leb_antisym. }
  clear -Hn He Hf Hi. induction l as [|x l IH]; [by apply elem_of_nil in He|]. simpl in Hn.
  apply NoDup_cons in Hn as [Hx Hn]. apply elem_of_cons in He as [->|He], Hf as [->|Hf]; try done.
  - destruct Hx. rewrite Hi. apply list_elem_of_fmap. by exists f.
  - destruct Hx. rewrite <-Hi. apply list_elem_of_fmap. by exists e.
  - by apply IH.
Qed.

(** ** Two agents *)

Definition draft (who : string) (rcpt : list string) (text : string) (at_ : option Z) (thread : string) : Draft :=
  mkDraft who rcpt text "" QUESTION "" 0 at_ NORMAL false None thread [] [] None [].
Definition two_boxes : list MailOp :=
  [Register "ann"; Register "bob"; Create (draft "ann" ["bob"; "ann"] "hi" (Some (-3)%Z) "t1");
   Create (draft "bob" ["ann"] "later" (Some 5%Z) ""); Deliver 0; Deliver 1].

Lemma delivery_reaches_witness :
  ∃ m e m' e', (deliver 1 (mail_run (take 5 two_boxes)).1).1 = [0] ∧
    dget "bob" (_mailboxes (mail_run (take 5 two_boxes)).1) = Some m ∧
    heap (mail_run (take 5 two_boxes)).1 !! 0 = Some e ∧
    dget "bob" (_mailboxes (deliver 1 (mail_run (take 5 two_boxes)).1).2) = Some m' ∧
    get_email m' (deliver 1 (mail_run (take 5 two_boxes)).1).2 (email_id e) = Some e' ∧
    e' ∈ get_unread m' (deliver 1 (mail_run (take 5 two_boxes)).1).2 ∧ content e' = content e.
Proof.
  destruct (delivery_reaches (take 5 two_boxes) 1 0 "bob"
    (mkMailbox "bob" [] [("mail.000002", 1)])
    (correct_tick (new_email 1 (draft "ann" ["bob"; "ann"] "hi" (Some (-3)%Z) "t1"))))
    as (m' & e' & H1 & H2 & H3 & H4).
  - vm_compute. left.
  - vm_compute. reflexivity.
  - vm_compute. left.
  - vm_compute. reflexivity.
  - exists (mkMailbox "bob" [] [("mail.000002", 1)]),
      (correct_tick (new_email 1 (draft "ann" ["bob"; "ann"] "hi" (Some (-3)%Z) "t1"))), m', e'.
    split; [vm_compute; reflexivity|]. split; [vm_compute; reflexivity|].
    split; [vm_compute; reflexivity|]. done.
Defined.

(** One mail object serves all its recipients: once bob has read it, ann has no unread mail. *)
Definition unread (a : string) (s : MailSystem) : option nat :=
  match dget a (_mailboxes s) with Some m => Some (unread_count m s) | None => None end.
Lemma read_by_one_read_by_all :
  let s := (mail_run two_boxes).1 in
  let s' := (mark_read "bob" "mail.000001" s).2 in
  (unread "ann" s, unread "bob" s) = (Some 1, Some 1) ∧ (unread "ann" s', unread "bob" s') = (Some 0, Some 0).
Proof. vm_compute. done. Qed.
(** A mail without a task loses the thread it was given. *)
Lemma thread_dropped :
  d_thread (draft "ann" ["bob"] "hi" None "t1") = "t1" ∧
  m_thread (new_email 1 (draft "ann" ["bob"] "hi" None "t1")) = "".
Proof. done. Qed.
