(* ===== verification/LegacyClock.v ===== *)
(** * Time in the previous architecture

    legacy/tick_engine.py and legacy/calendar.py, with the calendar's part of a tick in
    legacy/simulation.py: a counter of ticks, a business clock computed from it, and schedule
    rules that fire on a cadence of ticks or at times of the week.

    An instant is the number of microseconds since 0001-01-01 00:00 on the clock of its time zone,
    the first instant of a Monday; instants are not bounded as datetime bounds them.  The random
    part of a task identifier is an argument.  Instants in the data of an effect are integers. *)

From stdpp Require Import base gmap strings list pretty.
From Stdlib Require Import ZArith Lia Ascii.
From S2P Require Import Prelude PyValue LlmRuntime LegacyTransaction.

Open Scope string_scope.
Open Scope Z_scope.
Open Scope list_scope.

Definition SECOND : Z := 1000000.
Definition MINUTE : Z := 60 * SECOND.
Definition HOUR : Z := 60 * MINUTE.
Definition DAY : Z := 24 * HOUR.

(** ** The engine (tick_engine.py) *)

Record TickConfig := mkConfig {
  tick_duration_value : Z; tick_duration_unit : string; c_anchor : option Z;
  deadline_approaching_ticks : Z; start_paused : bool }.
Definition DURATION_UNITS : list (string * Z) := [("seconds", SECOND); ("minutes", MINUTE); ("hours", HOUR)].
Definition tick_duration_timedelta (c : TickConfig) : res Z :=
  match dget (tick_duration_unit c) DURATION_UNITS with
  | Some u => Ok (u * tick_duration_value c)
  | None => Raise (Exn ValueError ("Invalid tick_duration_unit '" +:+ tick_duration_unit c
              +:+ "' (expected one of ['hours', 'minutes', 'seconds'])"))
  end.

Inductive SimulationState := S_CREATED | S_RUNNING | S_PAUSED | S_COMPLETED.
#[global] Instance SimulationState_eq_dec : EqDecision SimulationState.
Proof. solve_decision. Defined.
Definition state_value (s : SimulationState) : string :=
  match s with
  | S_CREATED => "created" | S_RUNNING => "running" | S_PAUSED => "paused" | S_COMPLETED => "completed"
  end.
Record TickEngine := mkEngine {
  config : TickConfig; current_tick : Z; anchor : Z; e_state : SimulationState }.
(** [now] is the clock of the operating system, read once. *)
Definition TickEngine_init (c : TickConfig) (now : Z) : TickEngine :=
  mkEngine c 0 (default now (c_anchor c)) (if start_paused c then S_PAUSED else S_CREATED).
Definition set_state (st : SimulationState) (e : TickEngine) : TickEngine :=
  mkEngine (config e) (current_tick e) (anchor e) st.
Definition wall_now (e : TickEngine) : res Z :=
  d ← tick_duration_timedelta (config e); Ok (anchor e + current_tick e * d).
Definition can_advance (e : TickEngine) : bool :=
  bool_decide (e_state e = S_CREATED) || bool_decide (e_state e = S_RUNNING).
Definition pause (e : TickEngine) : TickEngine := if can_advance e then set_state S_PAUSED e else e.
Definition resume (e : TickEngine) : TickEngine :=
  if decide (e_state e = S_PAUSED) then set_state S_RUNNING e else e.
Definition advance (count : Z) (e : TickEngine) : res TickEngine :=
  if can_advance e then Ok (mkEngine (config e) (current_tick e + count) (anchor e) S_RUNNING)
  else Raise (Exn RuntimeError ("Cannot advance: simulation is " +:+ state_value (e_state e))).

(** ** Schedule rules (calendar.py) *)

Inductive Freq := DAILY | WEEKLY.
#[global] Instance Freq_eq_dec : EqDecision Freq.
Proof. solve_decision. Defined.
Record CronSpec := mkCron { freq : Freq; days_of_week : list Z; at_time : string }.

(** [s.split(":")] *)
Fixpoint split_colon (cur : string) (l : list Ascii.ascii) : list string :=
  match l with
  | [] => [cur]
  | c :: l' => if bool_decide (c = ":"%char) then cur :: split_colon "" l'
               else split_colon (cur +:+ String c "") l'
  end.
(** Hour and minute, when the text is two integers around one colon. *)
Definition clock_of (s : string) : option (Z * Z) :=
  match split_colon "" (String.list_ascii_of_string s) with
  | [h; m] => match int_of_str h, int_of_str m with
              | Some h, Some m => Some (h, m)
              | _, _ => None
              end
  | _ => None
  end.
Definition cron_valid (c : CronSpec) : bool :=
  match clock_of (at_time c) with
  | Some (h, m) =>
      (0 <=? h) && (h <=? 23) && (0 <=? m) && (m <=? 59)
      && match freq c with
         | DAILY => true
         | WEEKLY => match days_of_week c with [] => false | l => forallb (λ d, (0 <=? d) && (d <=? 6)) l end
         end
  | None => false
  end.

Definition weekday (t : Z) : Z := (t / DAY) mod 7.
(** [after.replace(hour=h, minute=m, second=0, microsecond=0)] *)
Definition at_clock (h m t : Z) : Z := t / DAY * DAY + h * HOUR + m * MINUTE.
(** The loop over at most [n] days; [None] is the exception after it. *)
Fixpoint next_weekday (n : nat) (wanted : list Z) (candidate : Z) : option Z :=
  match n with
  | O => None
  | S n => if decide (weekday candidate ∈ wanted) then Some candidate
           else next_weekday n wanted (candidate + DAY)
  end.
Definition next_fire_after (c : CronSpec) (after : Z) : option Z :=
  match clock_of (at_time c) with
  | None => None
  | Some (h, m) =>
      let candidate := at_clock h m after in
      let candidate := if candidate <=? after then candidate + DAY else candidate in
      match freq c with
      | DAILY => Some candidate
      | WEEKLY => next_weekday 8 (days_of_week c) candidate
      end
  end.

Inductive ScheduleAction := CREATE_TASK | EMIT_EVENT.
Record TaskTemplate := mkTemplate {
  t_title : string; t_description : string; t_priority : string; deadline_offset_minutes : option Z }.
Record ScheduleRule := mkRule {
  rule_id : string; target_agent_id : string; cron : option CronSpec; interval_ticks : option Z;
  action : ScheduleAction; task_template : option TaskTemplate; enabled : bool;
  next_run_tick : Z; last_fired_at : option Z; registered_at : option Z }.
(** The validation of a rule; [interval_ticks] and [next_run_tick] carry bounds of their own. *)
Definition rule_valid (r : ScheduleRule) : bool :=
  match cron r, interval_ticks r with
  | Some c, None => cron_valid c
  | None, Some n => 1 <=? n
  | _, _ => false
  end
  && match action r, task_template r with CREATE_TASK, None => false | _, _ => true end
  && (0 <=? next_run_tick r).
Definition set_schedule (next : Z) (last : option Z) (r : ScheduleRule) : ScheduleRule :=
  mkRule (rule_id r) (target_agent_id r) (cron r) (interval_ticks r) (action r) (task_template r)
    (enabled r) next last (registered_at r).
Definition set_registered (t : Z) (r : ScheduleRule) : ScheduleRule :=
  mkRule (rule_id r) (target_agent_id r) (cron r) (interval_ticks r) (action r) (task_template r)
    (enabled r) (next_run_tick r) (last_fired_at r) (Some t).

Definition CalendarStore := dict ScheduleRule.
Definition register (r : ScheduleRule) (s : CalendarStore) : res CalendarStore :=
  if dmem (rule_id r) s
  then Raise (Exn ValueError ("Schedule rule '" +:+ rule_id r +:+ "' already exists"))
  else Ok (dset (rule_id r) r s).
Definition get_rule (id : string) (s : CalendarStore) : res ScheduleRule :=
  match dget id s with
  | Some r => Ok r
  | None => Raise (Exn KeyError ("Unknown schedule rule '" +:+ id +:+ "'"))
  end.
Definition enabled_rules (s : CalendarStore) : list ScheduleRule := List.filter enabled (dvalues s).
Definition advance_rule (id : string) (next : option Z) (last : option Z) (s : CalendarStore) :
    res CalendarStore :=
  r ← get_rule id s;
  Ok (dset id (set_schedule (default (next_run_tick r) next)
                 (match last with Some t => Some t | None => last_fired_at r end) r) s).
Definition restore (id : string) (prev_next : Z) (prev_last : option Z) (s : CalendarStore) :
    res CalendarStore :=
  r ← get_rule id s; Ok (dset id (set_schedule prev_next prev_last r) s).

(** ** The calendar in a tick (simulation.py) *)

Definition register_schedule_rule (agents : list string) (now : Z) (r : ScheduleRule) (s : CalendarStore) :
    res CalendarStore :=
  if decide (target_agent_id r ∈ agents) then register (set_registered now r) s
  else Raise (Exn ValueError ("Schedule rule '" +:+ rule_id r +:+ "' targets unknown agent '"
                +:+ target_agent_id r +:+ "'")).

(** What a rule that is due becomes: its next tick, or the occurrence that fires. *)
Record Fire := mkFire { f_rule : string; f_next : option Z; f_last : option Z }.
(** An instant that is unset falls through to the next one. *)
Definition base_of (now : Z) (r : ScheduleRule) : Z :=
  match last_fired_at r with
  | Some t => t
  | None => match registered_at r with Some t => t | None => now end
  end.
Definition due_fire (now tick : Z) (r : ScheduleRule) : option Fire :=
  match interval_ticks r with
  | Some n => if tick <? next_run_tick r then None else Some (mkFire (rule_id r) (Some (tick + n)) None)
  | None =>
      match cron r with
      | Some c => match next_fire_after c (base_of now r) with
                  | Some next => if now <? next then None else Some (mkFire (rule_id r) None (Some next))
                  | None => None
                  end
      | None => None
      end
  end.
Definition opt_int (o : option Z) : value := match o with Some z => VInt z | None => VNone end.
Definition show_int (z : Z) : string := pretty z.
Definition stage_fire (now tick : Z) (hex : string) (r : ScheduleRule) (f : Fire) (b : TransactionBuffer) :
    TransactionBuffer :=
  let group := "cal." +:+ rule_id r +:+ "." +:+ show_int tick in
  let b := (stage RULE_ADVANCE (target_agent_id r) (rule_id r)
              [("rule_id", VStr (rule_id r)); ("next_run_tick", opt_int (f_next f));
               ("last_fired_at", opt_int (f_last f))] None None group "group" b).2 in
  match action r, task_template r with
  | CREATE_TASK, Some t =>
      let id := "task." +:+ show_int tick +:+ "." +:+ hex in
      (stage TASK_CREATE (target_agent_id r) id
         [("task_id", VStr id); ("title", VStr (t_title t)); ("description", VStr (t_description t));
          ("assigner_agent_id", VStr "system:calendar"); ("assignee_agent_id", VStr (target_agent_id r));
          ("priority", VStr (t_priority t));
          ("deadline", opt_int ((λ m, now + m * MINUTE) <$> deadline_offset_minutes t))]
         None None group "group" b).2
  | _, _ => b
  end.
Definition _check_calendar (hex : string → string) (now tick : Z) (s : CalendarStore) (b : TransactionBuffer) :
    list Fire * TransactionBuffer :=
  foldl (λ '(fires, b) r,
    match due_fire now tick r with
    | Some f => (fires ++ [f], stage_fire now tick (hex (rule_id r)) r f b)
    | None => (fires, b)
    end) ([], b) (enabled_rules s).
(** Commit of a [RULE_ADVANCE]: the store, and what the rollback restores. *)
Definition apply_rule_advance (f : Fire) (s : CalendarStore) : res (CalendarStore * (Z * option Z)) :=
  r ← get_rule (f_rule f) s;
  s' ← advance_rule (f_rule f) (f_next f) (f_last f) s;
  Ok (s', (next_run_tick r, last_fired_at r)).
Definition invert_rule_advance (f : Fire) (prev : Z * option Z) (s : CalendarStore) : res CalendarStore :=
  restore (f_rule f) prev.1 prev.2 s.

(** ** The next occurrence *)

(** The instants a specification names. *)
Definition occurs (c : CronSpec) (t : Z) : Prop :=
  ∃ h m, clock_of (at_time c) = Some (h, m) ∧ t mod DAY = h * HOUR + m * MINUTE ∧
    (freq c = WEEKLY → weekday t ∈ days_of_week c).

Lemma day_split t : t = t / DAY * DAY + t mod DAY ∧ 0 ≤ t mod DAY < DAY.
Proof. pose proof (Z.div_mod t DAY ltac:(done)). pose proof (Z.mod_pos_bound t DAY ltac:(done)). lia. Qed.
Lemma day_of k r : 0 ≤ r < DAY → (k * DAY + r) / DAY = k ∧ (k * DAY + r) mod DAY = r.
Proof.
  intros Hr. rewrite Z.add_comm. split.
  - rewrite Z.div_add, Z.div_small; [lia|done|done].
  - rewrite Z.mod_add, Z.mod_small; done.
Qed.
Lemma clock_bounds c h m : cron_valid c = true → clock_of (at_time c) = Some (h, m) →
  0 ≤ h * HOUR + m * MINUTE < DAY.
Proof.
  unfold cron_valid. intros Hv E. rewrite E in Hv. rewrite !andb_true_iff, !Z.leb_le in Hv.
  unfold DAY, HOUR, MINUTE, SECOND. lia.
Qed.
Lemma next_weekday_spec n wanted t r :
  next_weekday n wanted t = Some r →
  ∃ k, (k < n)%nat ∧ r = t + Z.of_nat k * DAY ∧ weekday r ∈ wanted ∧
    ∀ j, (j < k)%nat → weekday (t + Z.of_nat j * DAY) ∉ wanted.
Proof.
  revert t. induction n as [|n IH]; intros t; simpl; [done|]. destruct (decide (weekday t ∈ wanted)) as [Hw|Hw].
  - intros [= <-]. exists 0%nat. split_and!; [lia|lia|done|lia].
  - intros (k & Hk & -> & Hin & Hj)%IH. exists (S k). split_and!; [lia|lia| |].
    + by replace (t + Z.of_nat (S k) * DAY) with (t + DAY + Z.of_nat k * DAY) by lia.
    + intros [|j] Hlt; [by rewrite Z.mul_0_l, Z.add_0_r|].
      replace (t + Z.of_nat (S j) * DAY) with (t + DAY + Z.of_nat j * DAY) by lia. apply Hj. lia.
Qed.
Lemma weekday_add t k : weekday (t + k * DAY) = (weekday t + k) mod 7.
Proof. unfold weekday. rewrite Z.div_add by done. by rewrite Zplus_mod_idemp_l. Qed.
Lemma next_weekday_total wanted t d :
  d ∈ wanted → 0 ≤ d ≤ 6 → ∃ r, next_weekday 8 wanted t = Some r.
Proof.
  intros Hd Hb. destruct (next_weekday 8 wanted t) as [r|] eqn:E; [eauto|exfalso].
  assert (∀ n u, next_weekday n wanted u = None → ∀ k, (k < n)%nat → weekday (u + Z.of_nat k * DAY) ∉ wanted) as H.
  { induction n as [|n IH]; intros u Hu k Hk; [lia|]. simpl in Hu.
    destruct (decide (weekday u ∈ wanted)) as [|Hw]; [done|].
    destruct k as [|k]; [by rewrite Z.mul_0_l, Z.add_0_r|].
    replace (u + Z.of_nat (S k) * DAY) with (u + DAY + Z.of_nat k * DAY) by lia. apply IH; [done|lia]. }
  set (k := (d - weekday t) mod 7).
  assert (0 ≤ k < 7) as Hk by (apply Z.mod_pos_bound; lia).
  apply (H _ _ E (Z.to_nat k)); [lia|]. rewrite Z2Nat.id, weekday_add by lia.
  assert ((weekday t + k) mod 7 = d) as ->; [|done].
  unfold k. rewrite Zplus_mod_idemp_r. replace (weekday t + (d - weekday t)) with d by lia.
  apply Z.mod_small. lia.
Qed.

(** The next fire of a valid specification always exists, lies strictly after the given
    instant, is an instant the specification names, and none in between is; the search over the
    days of the week never runs out. *)
Theorem next_fire_exact c t :
  cron_valid c = true →
  ∃ r, next_fire_after c t = Some r ∧ t < r ∧ occurs c r ∧ ∀ u, t < u < r → ¬ occurs c u.
Proof.
  intros Hv. destruct (clock_of (at_time c)) as [[h m]|] eqn:Ec; [|by unfold cron_valid in Hv; rewrite Ec in Hv].
  pose proof (clock_bounds c h m Hv Ec) as Hb. set (s := h * HOUR + m * MINUTE) in *.
  destruct (day_split t) as [Ht Hw]. set (K := if at_clock h m t <=? t then t / DAY + 1 else t / DAY).
  assert ((if at_clock h m t <=? t then at_clock h m t + DAY else at_clock h m t) = K * DAY + s) as HK.
  { unfold K, at_clock, s. destruct (_ <=? _); lia. }
  assert (t < K * DAY + s ≤ t + DAY) as Hlt.
  { rewrite <-HK. unfold at_clock. fold s. destruct (Z.leb_spec (t / DAY * DAY + h * HOUR + m * MINUTE) t); lia. }
  assert (∀ u, t < u → occurs c u → ∃ i, 0 ≤ i ∧ u = K * DAY + s + i * DAY) as Hocc.
  { intros u Hu (h' & m' & E & Hmod & _). rewrite Ec in E. injection E as <- <-. fold s in Hmod.
    destruct (day_split u) as [Hd _]. rewrite Hmod in Hd. exists (u / DAY - K). split; [|lia].
    unfold DAY, HOUR, MINUTE, SECOND in *. lia. }
  unfold next_fire_after. rewrite Ec. cbv zeta. rewrite HK. destruct (freq c) eqn:Ef.
  - exists (K * DAY + s). split_and!; [done|lia| |].
    + exists h, m. split; [done|]. split; [by apply day_of|congruence].
    + intros u [Hu Hur] (i & Hi & ->)%Hocc; [|done]. unfold DAY, HOUR, MINUTE, SECOND in *. lia.
  - assert (∃ d, d ∈ days_of_week c ∧ 0 ≤ d ≤ 6) as (d & Hd & Hdb).
    { unfold cron_valid in Hv. rewrite Ec, Ef in Hv. apply andb_true_iff in Hv as [_ Hv].
      destruct (days_of_week c) as [|d l]; [done|]. exists d. split; [left|].
      simpl in Hv. rewrite !andb_true_iff, !Z.leb_le in Hv. lia. }
    destruct (next_weekday_total (days_of_week c) (K * DAY + s) d Hd Hdb) as [r Hr].
    destruct (next_weekday_spec _ _ _ _ Hr) as (k & Hk & Er & Hin & Hj).
    exists r. split_and!; [done|unfold DAY, HOUR, MINUTE, SECOND in *; lia| |].
    + exists h, m. split; [done|]. split; [|done]. rewrite Er.
      replace (K * DAY + s + Z.of_nat k * DAY) with ((K + Z.of_nat k) * DAY + s) by lia. by apply day_of.
    + intros u [Hu Hur] Ho. destruct (Hocc u Hu Ho) as (i & Hi & Eu).
      destruct Ho as (_ & _ & _ & _ & Hwd). apply (Hj (Z.to_nat i)).
      * unfold DAY, HOUR, MINUTE, SECOND in *. lia.
      * rewrite Z2Nat.id, <-Eu by done. by apply Hwd.
Qed.

(** ** Fires over a run *)

Lemma check_calendar_fires hex now tick s b :
  (_check_calendar hex now tick s b).1 = omap (due_fire now tick) (enabled_rules s).
Proof.
  assert (∀ l acc b, (foldl (λ '(fires, b) r,
    match due_fire now tick r with
    | Some f => (fires ++ [f], stage_fire now tick (hex (rule_id r)) r f b)
    | None => (fires, b)
    end) (acc, b) l).1 = acc ++ omap (due_fire now tick) l) as H.
  { clear. intros l. induction l as [|r l IH]; intros acc b; [by simpl; rewrite app_nil_r|]. cbn [foldl].
    cbn. destruct (due_fire now tick r) as [f|]; rewrite IH; [by rewrite <-app_assoc|done]. }
  apply H.
Qed.

(** The rollback of an advancement gives back the store it was applied to. *)
Theorem rule_advance_inverts f s s' prev :
  apply_rule_advance f s = Ok (s', prev) → invert_rule_advance f prev s' = Ok s.
Proof.
  unfold apply_rule_advance, invert_rule_advance, restore, advance_rule, get_rule.
  destruct (dget (f_rule f) s) as [r|] eqn:E; [|done]. simpl. intros [= <- <-].
  rewrite dget_dset_eq. simpl. f_equal. clear -E. induction s as [|[k v] s IH]; [done|]. simpl in *.
  destruct (decide (f_rule f = k)) as [->|]; simpl.
  - rewrite decide_True by done. injection E as ->. by destruct r.
  - rewrite decide_False by done. by rewrite IH.
Qed.

(** A tick at the instant [now]: what is due fires, and the store advances when the tick commits. *)
Definition commit_fire (s : CalendarStore) (f : Fire) : CalendarStore :=
  match apply_rule_advance f s with Ok (s', _) => s' | Raise _ => s end.
Definition cal_tick (st : CalendarStore * list Fire) (t : Z * Z * bool) : CalendarStore * list Fire :=
  let '(now, tick, committed) := t in
  let fires := omap (due_fire now tick) (enabled_rules st.1) in
  if committed then (foldl commit_fire st.1 fires, st.2 ++ fires) else st.
Definition cal_run (s : CalendarStore) (ts : list (Z * Z * bool)) : CalendarStore * list Fire :=
  foldl cal_tick (s, []) ts.
(** The occurrences of one rule that fired. *)
Definition fired (id : string) (l : list Fire) : list Z :=
  omap f_last (List.filter (λ f, bool_decide (f_rule f = id)) l).
(** The list is the first occurrences of [c] after [t], none left out. *)
Fixpoint consecutive (c : CronSpec) (t : Z) (l : list Z) : Prop :=
  match l with [] => True | x :: l' => next_fire_after c t = Some x ∧ consecutive c x l' end.
Lemma consecutive_snoc c t l x :
  consecutive c t (l ++ [x]) ↔ consecutive c t l ∧ next_fire_after c (default t (last l)) = Some x.
Proof.
  revert t. induction l as [|y l IH]; intros t; [simpl; tauto|].
  change ((next_fire_after c t = Some y ∧ consecutive c y (l ++ [x])) ↔
          (next_fire_after c t = Some y ∧ consecutive c y l) ∧ next_fire_after c (default t (last (y :: l))) = Some x).
  rewrite IH, last_cons. destruct (last l); simpl; tauto.
Qed.

Definition keyed_rules (s : CalendarStore) : Prop :=
  NoDup (dkeys s) ∧ ∀ k r, (k, r) ∈ s → rule_id r = k.
Lemma commit_fire_get s f id :
  dget id (commit_fire s f) =
    if decide (id = f_rule f)
    then (λ r, set_schedule (default (next_run_tick r) (f_next f))
                 (match f_last f with Some t => Some t | None => last_fired_at r end) r) <$> dget id s
    else dget id s.
Proof.
  unfold commit_fire, apply_rule_advance, advance_rule, get_rule.
  destruct (dget (f_rule f) s) as [r|] eqn:E; simpl; destruct (decide (id = f_rule f)) as [->|].
  - by rewrite dget_dset_eq, E.
  - by rewrite dget_dset_ne.
  - by rewrite E.
  - done.
Qed.
Lemma commit_fire_keyed s f : keyed_rules s → keyed_rules (commit_fire s f).
Proof.
  intros [Hn Hk]. unfold commit_fire, apply_rule_advance, advance_rule, get_rule.
  destruct (dget (f_rule f) s) as [r|] eqn:E; simpl; [|done]. split; [by apply dkeys_dset_NoDup|].
  intros k x Hx. apply elem_dget in Hx; [|by apply dkeys_dset_NoDup]. rewrite dget_dset in Hx.
  destruct (decide (k = f_rule f)) as [->|].
  - injection Hx as <-. simpl. by apply Hk, dget_Some_elem.
  - by apply Hk, dget_Some_elem.
Qed.
Lemma due_fire_rule now tick r f : due_fire now tick r = Some f → f_rule f = rule_id r.
Proof.
  unfold due_fire. destruct (interval_ticks r); [destruct (_ <? _); naive_solver|].
  destruct (cron r) as [c|]; [|done]. destruct (next_fire_after _ _); [|done]. destruct (_ <? _); naive_solver.
Qed.
(** Among the fires of a tick, those of one rule are what that rule alone says. *)
Lemma fires_of now tick s id r :
  keyed_rules s → dget id s = Some r → enabled r = true →
  List.filter (λ f, bool_decide (f_rule f = id)) (omap (due_fire now tick) (enabled_rules s))
    = match due_fire now tick r with Some f => [f] | None => [] end.
Proof.
  intros [Hn Hk] Hr He. unfold enabled_rules. induction s as [|[k x] s IH]; [done|].
  assert (rule_id x = k) as Hx by (apply Hk; left). simpl in Hr. unfold dkeys in Hn. simpl in Hn.
  apply NoDup_cons in Hn as [Hnk Hn].
  assert (∀ l, (∀ k r, (k, r) ∈ l → rule_id r = k) → id ∉ map fst l →
    List.filter (λ f, bool_decide (f_rule f = id)) (omap (due_fire now tick) (List.filter enabled (dvalues l))) = []) as Hnone.
  { clear -He. intros l. induction l as [|[k y] l IHl]; intros Hk Hid; [done|]. simpl in *.
    assert (rule_id y = k) as Hy by (apply Hk; left).
    assert (List.filter (λ f, bool_decide (f_rule f = id)) (omap (due_fire now tick) (List.filter enabled (dvalues l))) = []) as IH.
    { apply IHl; [intros; apply Hk; by right|set_solver]. }
    destruct (enabled y); [|done]. cbn. destruct (due_fire now tick y) as [f|] eqn:E; [|done].
    cbn. rewrite bool_decide_false; [done|]. rewrite (due_fire_rule _ _ _ _ E), Hy. set_solver. }
  destruct (decide (id = k)) as [->|Hne].
  - injection Hr as ->. simpl. rewrite He. cbn.
    assert (∀ k' r', (k', r') ∈ s → rule_id r' = k') as Hk' by (intros; apply Hk; by right).
    destruct (due_fire now tick r) as [f|] eqn:E; cbn.
    + rewrite bool_decide_true by (by rewrite (due_fire_rule _ _ _ _ E)). f_equal. by apply Hnone.
    + by apply Hnone.
  - simpl. assert (List.filter (λ f, bool_decide (f_rule f = id)) (omap (due_fire now tick) (List.filter enabled (dvalues s)))
        = match due_fire now tick r with Some f => [f] | None => [] end) as IH'.
    { apply IH; [done|intros; apply Hk; by right|done]. }
    destruct (enabled x); [|done]. cbn. destruct (due_fire now tick x) as [f|] eqn:E; [|done].
    cbn. rewrite bool_decide_false; [done|]. rewrite (due_fire_rule _ _ _ _ E), Hx. congruence.
Qed.

Lemma commit_fires_get l s id r next :
  dget id s = Some r →
  List.filter (λ f, bool_decide (f_rule f = id)) l = match next with Some f => [f] | None => [] end →
  dget id (foldl commit_fire s l) =
    Some (match next with
          | Some f => set_schedule (default (next_run_tick r) (f_next f))
                        (match f_last f with Some t => Some t | None => last_fired_at r end) r
          | None => r end).
Proof.
  revert s r next. induction l as [|f l IH]; intros s r next Hr Hl; simpl in *; [by destruct next|].
  destruct (decide (f_rule f = id)) as [Hf|Hf].
  - rewrite bool_decide_true in Hl by done. destruct next as [f'|]; [|done]. injection Hl as -> Hl.
    rewrite (IH _ (set_schedule (default (next_run_tick r) (f_next f'))
                     (match f_last f' with Some t => Some t | None => last_fired_at r end) r) None); [done| |done].
    by rewrite commit_fire_get, decide_True, Hr by done.
  - rewrite bool_decide_false in Hl by done. apply IH; [|done].
    by rewrite commit_fire_get, decide_False by done.
Qed.
Lemma commit_fires_keyed l s : keyed_rules s → keyed_rules (foldl commit_fire s l).
Proof. revert s. induction l; intros s H; simpl; [done|]. by apply IHl, commit_fire_keyed. Qed.

Section OneRule.
Variables (id : string) (c : CronSpec) (t0 : Z).
(** The rule in the store, when the occurrences [l] have fired. *)
Definition cron_state (l : list Z) (s : CalendarStore) : Prop :=
  keyed_rules s ∧ ∃ r, dget id s = Some r ∧ enabled r = true ∧ cron r = Some c ∧ interval_ticks r = None ∧
    registered_at r = Some t0 ∧ last_fired_at r = last l.
Lemma cron_due l s r now tick :
  cron_state l s → dget id s = Some r →
  due_fire now tick r = match next_fire_after c (default t0 (last l)) with
                        | Some next => if now <? next then None else Some (mkFire id None (Some next))
                        | None => None end.
Proof.
  intros ([_ Hk] & r' & Hr' & _ & Hc & Hi & Ht & Hl) Hr. rewrite Hr in Hr'. injection Hr' as <-.
  unfold due_fire. rewrite Hi, Hc. assert (rule_id r = id) as -> by by apply Hk, dget_Some_elem.
  assert (base_of now r = default t0 (last l)) as ->; [|done].
  unfold base_of. rewrite Hl, Ht. by destruct (last l).
Qed.
Lemma cal_tick_cron st now tick ok :
  cron_state (fired id st.2) st.1 → consecutive c t0 (fired id st.2) →
  let st' := cal_tick st (now, tick, ok) in
  cron_state (fired id st'.2) st'.1 ∧ consecutive c t0 (fired id st'.2) ∧
  fired id st'.2 = fired id st.2 ++
    match next_fire_after c (default t0 (last (fired id st.2))) with
    | Some next => if ok && (next <=? now) then [next] else []
    | None => []
    end.
Proof.
  intros Hs Hc. destruct ok; simpl.
  2:{ split_and!; [done..|]. by destruct (next_fire_after _ _); rewrite app_nil_r. }
  pose proof Hs as (Hk & r & Hr & He & Hcr & Hi & Ht & Hl).
  pose proof (fires_of now tick _ id r Hk Hr He) as Hf. rewrite (cron_due _ _ r now tick Hs Hr) in Hf.
  pose proof (commit_fires_keyed (omap (due_fire now tick) (enabled_rules st.1)) _ Hk) as Hk'.
  assert (fired id (st.2 ++ omap (due_fire now tick) (enabled_rules st.1)) = fired id st.2 ++
    match next_fire_after c (default t0 (last (fired id st.2))) with
    | Some next => if next <=? now then [next] else [] | None => [] end) as Hfd.
  { unfold fired at 1 2. rewrite List.filter_app, omap_app. fold (fired id st.2). f_equal. rewrite Hf.
    destruct (next_fire_after _ _) as [next|]; [|done].
    destruct (Z.ltb_spec now next), (Z.leb_spec next now); try lia; done. }
  split_and!; [|rewrite Hfd..|done].
  - split; [done|]. eexists. split; [by eapply commit_fires_get; [exact Hr|rewrite Hf; reflexivity]|].
    rewrite Hfd. destruct (next_fire_after _ _) as [next|] eqn:En.
    + destruct (Z.ltb_spec now next), (Z.leb_spec next now); try lia; simpl.
      * rewrite app_nil_r. done.
      * rewrite last_snoc. done.
    + rewrite app_nil_r. done.
  - destruct (next_fire_after _ _) as [next|] eqn:En; [|by rewrite app_nil_r].
    destruct (next <=? now); [|by rewrite app_nil_r]. by apply consecutive_snoc.
Qed.
End OneRule.

Lemma cal_run_snoc s ts t : cal_run s (ts ++ [t]) = cal_tick (cal_run s ts) t.
Proof. unfold cal_run. by rewrite foldl_app. Qed.

(** C24: A registered weekly or daily rule fires every one of its occurrences exactly once, in
    order and never early, however ticks commit or roll back: what has fired after any ticks is
    the first occurrences after the registration with none left out, and the next tick fires the
    next occurrence exactly when it commits and the occurrence has come. *)
Theorem cron_fires_once s id r c t0 ts now tick ok :
  keyed_rules s → dget id s = Some r → rule_valid r = true → enabled r = true → cron r = Some c →
  registered_at r = Some t0 → last_fired_at r = None →
  let l := fired id (cal_run s ts).2 in
  consecutive c t0 l ∧
  ∃ next, next_fire_after c (default t0 (last l)) = Some next ∧
    fired id (cal_run s (ts ++ [(now, tick, ok)])).2 = l ++ (if ok && (next <=? now) then [next] else []).
Proof.
  intros Hk Hr Hv He Hc Ht Hl l.
  assert (interval_ticks r = None ∧ cron_valid c = true) as [Hi Hcv].
  { unfold rule_valid in Hv. rewrite Hc in Hv. destruct (interval_ticks r); [done|]. split; [done|].
    rewrite !andb_true_iff in Hv. tauto. }
  assert (cron_state id c t0 (fired id (cal_run s ts).2) (cal_run s ts).1 ∧
          consecutive c t0 (fired id (cal_run s ts).2)) as [Hs Hcons].
  { induction ts as [|[[now' tick'] ok'] ts IH] using rev_ind.
    - split; [|done]. split; [done|]. exists r. done.
    - rewrite cal_run_snoc. destruct IH as [Hs Hcs].
      destruct (cal_tick_cron id c t0 (cal_run s ts) now' tick' ok' Hs Hcs) as (? & ? & _). done. }
  split; [done|]. destruct (next_fire_exact c (default t0 (last l)) Hcv) as (next & Hn & _).
  exists next. split; [done|]. rewrite cal_run_snoc.
  destruct (cal_tick_cron id c t0 (cal_run s ts) now tick ok Hs Hcons) as (_ & _ & ->).
  fold l. by rewrite Hn.
Qed.

(** The business clock only moves with the ticks, by the duration of a tick. *)
Lemma wall_now_advance e e' n t :
  wall_now e = Ok t → advance n e = Ok e' →
  ∃ d, tick_duration_timedelta (config e) = Ok d ∧ wall_now e' = Ok (t + n * d).
Proof.
  unfold wall_now, advance. destruct (tick_duration_timedelta (config e)) as [d|] eqn:E; [|done].
  simpl. intros [= <-]. destruct (can_advance e); [|done]. intros [= <-]. exists d. split; [done|].
  simpl. rewrite E. simpl. f_equal. lia.
Qed.
Lemma paused_clock_frozen e n :
  e_state e = S_PAUSED → ∃ x, advance n e = Raise x ∧ wall_now (resume e) = wall_now e.
Proof.
  intros Hp. unfold advance, can_advance. rewrite Hp. simpl. eexists. split; [done|].
  unfold resume. by rewrite decide_True.
Qed.

(** Mondays and Fridays at 09:30, from the first instant of a Wednesday. *)
Definition standup : CronSpec := mkCron WEEKLY [0; 4] "09:30".
Definition standup_rule : ScheduleRule :=
  mkRule "standup" "ann" (Some standup) None EMIT_EVENT None true 0 None (Some (2 * DAY)).
Definition standup_ticks : list (Z * Z * bool) :=
  [(3 * DAY, 1, true); (5 * DAY, 2, false); (8 * DAY, 3, true); (8 * DAY, 4, true); (9 * DAY, 5, true)].
Example standup_fires :
  fired "standup" (cal_run [("standup", standup_rule)] standup_ticks).2
  = [4 * DAY + 9 * HOUR + 30 * MINUTE; 7 * DAY + 9 * HOUR + 30 * MINUTE].
Proof. vm_compute. reflexivity. Qed.
Lemma standup_keyed : keyed_rules [("standup", standup_rule)].
Proof.
  split; [apply (bool_decide_unpack (NoDup _)); by vm_compute|].
  intros k r [= -> ->]%list_elem_of_singleton. done.
Qed.
Lemma next_fire_exact_witness :
  cron_valid standup = true ∧ ∃ r, next_fire_after standup (2 * DAY) = Some r ∧ 2 * DAY < r ∧ occurs standup r.
Proof.
  split; [vm_compute; reflexivity|]. destruct (next_fire_exact standup (2 * DAY)) as (r & H1 & H2 & H3 & _).
  - vm_compute. reflexivity.
  - exists r. done.
Defined.
Lemma cron_fires_once_witness :
  let l := fired "standup" (cal_run [("standup", standup_rule)] standup_ticks).2 in
  length l = 2%nat ∧ consecutive standup (2 * DAY) l ∧
  ∃ next, next_fire_after standup (default (2 * DAY) (last l)) = Some next ∧
    fired "standup" (cal_run [("standup", standup_rule)] (standup_ticks ++ [(20 * DAY, 6, true)])).2
    = l ++ (if true && (next <=? 20 * DAY) then [next] else []).
Proof.
  split; [vm_compute; reflexivity|].
  apply (cron_fires_once _ "standup" standup_rule); [apply standup_keyed|vm_compute; reflexivity..].
Defined.
Lemma rule_advance_inverts_witness :
  ∃ s' prev, apply_rule_advance (mkFire "standup" None (Some (4 * DAY))) [("standup", standup_rule)] = Ok (s', prev) ∧
    s' ≠ [("standup", standup_rule)] ∧
    invert_rule_advance (mkFire "standup" None (Some (4 * DAY))) prev s' = Ok [("standup", standup_rule)].
Proof.
  eexists _, _. split; [vm_compute; reflexivity|]. split; [discriminate|].
  apply (rule_advance_inverts (mkFire "standup" None (Some (4 * DAY)))). vm_compute. reflexivity.
Defined.

(** The deadline of a task a rule creates counts from the clock of the tick, not from the
    occurrence, as its template documents. *)
Definition report_rule : ScheduleRule :=
  mkRule "report" "ann" (Some (mkCron DAILY [] "00:00")) None CREATE_TASK
    (Some (mkTemplate "report" "" "normal" (Some 60))) true 0 None (Some 0).
Lemma deadline_from_tick :
  let '(fires, b) := _check_calendar (λ _, "x") (DAY + 5 * HOUR) 7 [("report", report_rule)]
                       (mkBuffer [] 0 [] [] []) in
  map f_last fires = [Some DAY] ∧
  map (λ e, dget "deadline" (data e)) (dvalues (_effects b)) = [None; Some (VInt (DAY + 6 * HOUR))].
Proof. by vm_compute. Qed.
(** A rule put into the store without the stamp of its registration never fires. *)
Lemma unstamped_rule_never_fires c now tick r :
  cron_valid c = true → cron r = Some c → interval_ticks r = None →
  registered_at r = None → last_fired_at r = None → due_fire now tick r = None.
Proof.
  intros Hv Hc Hi Hg Hl. unfold due_fire, base_of. rewrite Hi, Hc, Hl, Hg.
  destruct (next_fire_exact c now Hv) as (n & -> & Hn & _). by rewrite (proj2 (Z.ltb_lt _ _) Hn).
Qed.
