(* ===== verification/LegacyReliability.v ===== *)
(** * Reliability in the previous architecture (legacy/reliability.py, legacy/audit.py)

    Retries with backoff, timeouts of tasks and locks, and the guard that pauses a system which
    keeps crashing; each records what it does in the audit log, whose queries are here too.

    The multiplier of a backoff is an exact rational; the text of an instant is a parameter.
    Callbacks and the pause of the guard are recorded as what the guard does, in order: whether
    they raise makes no difference to it. *)

From stdpp Require Import base gmap strings list pretty sorting.
From Stdlib Require Import ZArith QArith Qpower Qround Lia.
From S2P Require Import Prelude PyValue LegacyTask LegacyKb.

Open Scope string_scope.
Open Scope Z_scope.
Open Scope list_scope.

(** ** The audit log (audit.py) *)

Definition AuditLog : Type := list AuditEntry.
Definition audit_for_agent (a : string) : AuditLog → AuditLog :=
  List.filter (λ e, bool_decide (ae_agent e = a)).
Definition audit_for_event_type (t : string) : AuditLog → AuditLog :=
  List.filter (λ e, bool_decide (event_type e = t)).
Definition audit_for_tick (t : Z) : AuditLog → AuditLog := List.filter (λ e, ae_tick e =? t).
Definition audit_failures : AuditLog → AuditLog := List.filter (λ e, negb (ae_success e)).
Definition audit_since (id : Z) : AuditLog → AuditLog := List.filter (λ e, id <? Z.of_nat (event_id e)).
(** [entries[-n:]]: all of them for [n = 0], all but the first [-n] for a negative [n]. *)
Definition audit_last (n : Z) (l : AuditLog) : AuditLog :=
  if 0 <? n then drop (length l - Z.to_nat n) l else drop (Z.to_nat (- n)) l.

(** ** Retries *)

Record RetryPolicy := mkPolicy {
  max_retries : Z; base_delay_ticks : Z; max_delay_ticks : Z; backoff_multiplier : Q }.
Definition default_policy : RetryPolicy := mkPolicy 3 1 10 2.
Inductive FailureType := TOOL_ERROR | PERMISSION_DENIED | TIMEOUT_ | RESOURCE_EXHAUSTED | UNKNOWN_.
Definition failure_value (f : FailureType) : string :=
  match f with
  | TOOL_ERROR => "tool_error" | PERMISSION_DENIED => "permission_denied" | TIMEOUT_ => "timeout"
  | RESOURCE_EXHAUSTED => "resource_exhausted" | UNKNOWN_ => "unknown"
  end.
Record FailureRecord := mkFailure {
  f_agent : string; f_task : string; failure_type : FailureType; f_tick : Z; f_error : string;
  retry_count : Z; retryable : bool; resolved : bool }.
Record RetryManager := mkRetry {
  policy : RetryPolicy; r_audit : AuditLog; _failures : dict FailureRecord; _retry_counts : dict Z }.

Definition _key (agent task : string) : string := agent +:+ ":" +:+ task.
Definition count_of (k : string) (m : RetryManager) : Z := default 0 (dget k (_retry_counts m)).
Definition record_failure (agent task : string) (ty : FailureType) (error : string) (tick : Z)
    (retry : bool) (m : RetryManager) : FailureRecord * RetryManager :=
  let k := _key agent task in
  let count := count_of k m in
  let r := mkFailure agent task ty tick error count (retry && (count <? max_retries (policy m))) false in
  (r, mkRetry (policy m)
        (record "agent.failed" agent tick
           [("task_id", VStr task); ("failure_type", VStr (failure_value ty)); ("error", VStr error);
            ("retry_count", VInt count); ("retryable", VBool (retryable r))] false (Some error) (r_audit m))
        (dset k r (_failures m)) (_retry_counts m)).
Definition can_retry (agent task : string) (m : RetryManager) : bool :=
  let k := _key agent task in
  match dget k (_failures m) with
  | None => false
  | Some r => retryable r && (count_of k m <? max_retries (policy m))
  end.
(** [int(q)] *)
Definition truncate (q : Q) : Z := Z.quot (Qnum q) (Zpos (Qden q)).
Definition delay_after (p : RetryPolicy) (count : Z) : Z :=
  Z.min (truncate (inject_Z (base_delay_ticks p) * Qpower (backoff_multiplier p) count)) (max_delay_ticks p).
Definition calculate_delay (agent task : string) (m : RetryManager) : Z :=
  delay_after (policy m) (count_of (_key agent task) m).
Definition execute_retry (agent task : string) (tick : Z) (m : RetryManager) : Z * RetryManager :=
  if negb (can_retry agent task m) then (-1, m) else
  let k := _key agent task in
  let count := count_of k m in
  let delay := calculate_delay agent task m in
  (delay, mkRetry (policy m)
            (record "agent.retry" agent tick
               [("task_id", VStr task); ("retry_number", VInt (count + 1)); ("delay_ticks", VInt delay)]
               true None (r_audit m))
            (_failures m) (dset k (count + 1) (_retry_counts m))).
Definition resolve_failure (r : FailureRecord) : FailureRecord :=
  mkFailure (f_agent r) (f_task r) (failure_type r) (f_tick r) (f_error r) (retry_count r) (retryable r) true.
Definition mark_resolved (agent task : string) (m : RetryManager) : RetryManager :=
  let k := _key agent task in
  match dget k (_failures m) with
  | Some r => mkRetry (policy m) (r_audit m) (dset k (resolve_failure r) (_failures m)) (_retry_counts m)
  | None => m
  end.
Definition get_failure (agent task : string) (m : RetryManager) : option FailureRecord :=
  dget (_key agent task) (_failures m).
Definition active_failures (m : RetryManager) : list FailureRecord :=
  List.filter (λ r, negb (resolved r)) (dvalues (_failures m)).

(** ** Timeouts *)

Section Timeouts.
Variable isoformat : Z → string.
Definition iso_or_none (o : option Z) : value := match o with Some d => VStr (isoformat d) | None => VNone end.
Definition iso_text (o : option Z) : string := match o with Some d => isoformat d | None => "None" end.

(** The loop over the overdue tasks stops at the first that cannot expire. *)
Fixpoint expire_all (now tick : Z) (l : list Task) (ids : list string) (tree : TaskTree) (log : AuditLog) :
    (LegacyTask.tree_error + list string) * TaskTree * AuditLog :=
  match l with
  | [] => (inr ids, tree, log)
  | t :: l' =>
      match expire_task (task_id t) tick tree with
      | (inl e, tree) => (inl e, tree, log)
      | (inr _, tree) =>
          expire_all now tick l' (ids ++ [task_id t]) tree
            (record "agent.failed" (assignee_agent_id t) tick
               [("task_id", VStr (task_id t)); ("failure_type", VStr "timeout");
                ("deadline", iso_or_none (deadline t)); ("owner", VStr (assignee_agent_id t))]
               false (Some ("Task expired at " +:+ isoformat now +:+ " (deadline: " +:+ iso_text (deadline t) +:+ ")"))
               log)
      end
  end.
Definition check_task_timeouts (now tick : Z) (tree : TaskTree) (log : AuditLog) :
    (LegacyTask.tree_error + list string) * TaskTree * AuditLog :=
  expire_all now tick (get_expired_tasks now tree) [] tree log.
Definition released_lock (l : LockInfo) : value :=
  VDict [("lock_id", VStr (lock_id l)); ("resource", VStr (lock_resource l)); ("owner", VStr (owner_agent_id l))].
Definition check_lock_timeouts (tick : Z) (locks : LockManager) (log : AuditLog) :
    list value * LockManager * AuditLog :=
  let '(expired, locks) := check_expired tick locks in
  (map released_lock expired, locks,
   foldl (λ log l, record "lock.expired" (owner_agent_id l) tick
            [("lock_id", VStr (lock_id l)); ("resource", VStr (lock_resource l));
             ("lease_until_tick", VInt (lease_until_tick l))] true None log) log expired).
Definition check_all (now tick : Z) (tree : TaskTree) (locks : LockManager) (log : AuditLog) :
    (LegacyTask.tree_error + value) * TaskTree * LockManager * AuditLog :=
  match check_task_timeouts now tick tree log with
  | (inl e, tree, log) => (inl e, tree, locks, log)
  | (inr ids, tree, log) =>
      let '(released, locks, log) := check_lock_timeouts tick locks log in
      (inr (VDict [("tick", VInt tick); ("now", VStr (isoformat now));
                   ("expired_tasks", VList (map VStr ids)); ("expired_locks", VList released)]),
       tree, locks, log)
  end.
End Timeouts.

(** ** The crash guard *)

Record CrashReport := mkReport {
  cr_tick : Z; cr_window : Z; cr_threshold : Z; crash_count : Z; cr_ticks : list Z; last_error : string;
  state_epoch : Z }.
(** What the guard does to the outside: the handlers of a recipient are numbered. *)
Inductive act := Notify (recipient : string) (handler : nat) (r : CrashReport) | Pause (r : CrashReport).
Record CrashGuard := mkGuard {
  window_ticks : Z; threshold : Z; g_audit : AuditLog; has_pause : bool; _crashes : list (Z * string);
  providers : nat; owners : nat; triggered : bool; last_report : option CrashReport; acts : list act }.
Definition CrashGuard_init (window thr : Z) (pause : bool) : CrashGuard :=
  mkGuard (Z.max 1 window) (Z.max 1 thr) [] pause [] 0 0 false None [].
Definition register_emergency_callback (recipient : string) (g : CrashGuard) : option CrashGuard :=
  let with_ p o := mkGuard (window_ticks g) (threshold g) (g_audit g) (has_pause g) (_crashes g) p o
                     (triggered g) (last_report g) (acts g) in
  if decide (recipient = "provider") then Some (with_ (S (providers g)) (owners g))
  else if decide (recipient = "owner") then Some (with_ (providers g) (S (owners g)))
  else None.
Fixpoint evict (tick window : Z) (l : list (Z * string)) : list (Z * string) :=
  match l with
  | (t, e) :: l' => if window <=? tick - t then evict tick window l' else l
  | [] => []
  end.
Definition report_dump (r : CrashReport) : dict value :=
  [("tick", VInt (cr_tick r)); ("window_ticks", VInt (cr_window r)); ("threshold", VInt (cr_threshold r));
   ("crash_count", VInt (crash_count r)); ("crash_ticks", VList (map VInt (cr_ticks r)));
   ("last_error", VStr (last_error r)); ("state_epoch", VInt (state_epoch r))].
Definition notices (recipient : string) (n : nat) (r : CrashReport) : list act :=
  map (λ i, Notify recipient i r) (seq 0 n).
Definition record_crash (tick : Z) (error : string) (epoch : Z) (g : CrashGuard) :
    option CrashReport * CrashGuard :=
  let crashes := evict tick (window_ticks g) (_crashes g ++ [(tick, error)]) in
  let log := record "system.crash" "" tick
               [("window_ticks", VInt (window_ticks g)); ("crash_ticks", VList (map (λ c, VInt c.1) crashes));
                ("state_epoch", VInt epoch)] false (Some error) (g_audit g) in
  if triggered g || (Z.of_nat (length crashes) <? threshold g)
  then (None, mkGuard (window_ticks g) (threshold g) log (has_pause g) crashes (providers g) (owners g)
                (triggered g) (last_report g) (acts g))
  else
    let r := mkReport tick (window_ticks g) (threshold g) (Z.of_nat (length crashes)) (map fst crashes) error epoch in
    let n : string := pretty (Z.of_nat (length crashes)) in
    let w : string := pretty (window_ticks g) in
    let t : string := pretty (threshold g) in
    (Some r,
     mkGuard (window_ticks g) (threshold g)
       (record "crash_guard.triggered" "" tick (report_dump r) false
          (Some ("crash guard triggered: " +:+ n +:+ " kernel crashes within window of " +:+ w
                 +:+ " ticks (threshold " +:+ t +:+ ")")) log)
       (has_pause g) crashes (providers g) (owners g) true (Some r)
       (acts g ++ notices "provider" (providers g) r ++ notices "owner" (owners g) r
        ++ (if has_pause g then [Pause r] else []))).
Definition rearm (g : CrashGuard) : CrashGuard :=
  mkGuard (window_ticks g) (threshold g) (g_audit g) (has_pause g) (_crashes g) (providers g) (owners g)
    false (last_report g) (acts g).

(** ** The retry policy *)

Inductive retry_op :=
| RecordFailure (agent task : string) (ty : FailureType) (error : string) (tick : Z) (retry : bool)
| ExecuteRetry (agent task : string) (tick : Z)
| MarkResolved (agent task : string).
(** A manager with the retries it granted, as key and delay. *)
Definition retry_step (st : RetryManager * list (string * Z)) (o : retry_op) : RetryManager * list (string * Z) :=
  let '(m, log) := st in
  match o with
  | RecordFailure a t ty e k r => ((record_failure a t ty e k r m).2, log)
  | ExecuteRetry a t k =>
      ((execute_retry a t k m).2,
       if can_retry a t m then log ++ [(_key a t, (execute_retry a t k m).1)] else log)
  | MarkResolved a t => (mark_resolved a t m, log)
  end.
Definition retry_run (p : RetryPolicy) (ops : list retry_op) : RetryManager * list (string * Z) :=
  foldl retry_step (mkRetry p [] [] [], []) ops.
(** The delays granted under one key. *)
Definition delays (k : string) (log : list (string * Z)) : list Z :=
  map snd (List.filter (λ kd, bool_decide (kd.1 = k)) log).

Lemma delays_snoc k log kd :
  delays k (log ++ [kd]) = delays k log ++ (if decide (kd.1 = k) then [kd.2] else []).
Proof.
  unfold delays. rewrite List.filter_app, map_app. f_equal. simpl.
  destruct (decide (kd.1 = k)); [by rewrite bool_decide_true|by rewrite bool_decide_false].
Qed.
Lemma truncate_floor q : (0 <= q)%Q → truncate q = Qfloor q.
Proof.
  intros H. destruct q as [n d]. unfold truncate, Qfloor. simpl. apply Z.quot_div_nonneg; [|done].
  unfold Qle in H. simpl in H. lia.
Qed.

(** The retries granted for an operation number at most the policy's maximum, over any
    failures, resolutions and attempts, and the delay of each is the one the policy computes for
    its number, never above the maximal delay. *)
Theorem retries_follow_policy p ops k :
  let '(m, log) := retry_run p ops in
  (length (delays k log) ≤ Z.to_nat (max_retries p))%nat ∧
  delays k log = map (λ n, delay_after p (Z.of_nat n)) (seq 0 (length (delays k log))) ∧
  (∀ d, d ∈ delays k log → d ≤ max_delay_ticks p).
Proof.
  assert (let '(m, log) := retry_run p ops in policy m = p ∧
    ∀ k, count_of k m = Z.of_nat (length (delays k log)) ∧
         (length (delays k log) ≤ Z.to_nat (max_retries p))%nat ∧
         delays k log = map (λ n, delay_after p (Z.of_nat n)) (seq 0 (length (delays k log)))) as H.
  { unfold retry_run. induction ops as [|o ops IH] using rev_ind.
    { split; [done|]. intros k'. split_and!; [done|simpl; lia|done]. }
    rewrite foldl_app. simpl. destruct (foldl _ _ ops) as [m log]. destruct IH as [Hp IH].
    destruct o as [a t ty e n r|a t n|a t]; simpl.
    - done.
    - unfold execute_retry. destruct (can_retry a t m) eqn:Ec; [|done]. cbn [negb fst snd].
      split; [done|]. intros k'. destruct (IH k') as (H1 & H2 & H3).
      rewrite delays_snoc. cbn [fst snd]. unfold count_of. cbn [_retry_counts]. rewrite dget_dset.
      destruct (decide (_key a t = k')) as [<-|Hn].
      + rewrite decide_True by done. destruct (IH (_key a t)) as (H1' & _).
        assert (count_of (_key a t) m < max_retries p) as Hlt.
        { unfold can_retry in Ec. destruct (dget _ _); [|done]. apply andb_true_iff in Ec as [_ Ec].
          rewrite Hp in Ec. by apply Z.ltb_lt. }
        rewrite length_app. cbn [length]. split_and!; [|lia|].
        { change (count_of (_key a t) m + 1 = Z.of_nat (length (delays (_key a t) log) + 1)). lia. }
        rewrite Nat.add_1_r, seq_S, map_app, <-H3. cbn [map]. do 2 f_equal.
        unfold calculate_delay. rewrite Hp, H1. done.
      + rewrite decide_False by done. rewrite app_nil_r. done.
    - unfold mark_resolved. by destruct (dget _ _). }
  destruct (retry_run p ops) as [m log]. destruct H as [_ H]. destruct (H k) as (_ & H2 & H3).
  split_and!; [done|done|]. intros d Hd. rewrite H3 in Hd. apply list_elem_of_fmap in Hd as (n & -> & _).
  unfold delay_after. lia.
Qed.

(** With a multiplier of at least one, later retries wait at least as long. *)
Lemma delay_monotone p n :
  (1 <= backoff_multiplier p)%Q → 0 ≤ base_delay_ticks p → 0 ≤ n → delay_after p n ≤ delay_after p (n + 1).
Proof.
  intros Hm Hb Hn. unfold delay_after. apply Z.min_le_compat_r.
  assert (0 <= inject_Z (base_delay_ticks p))%Q as Hb'.
  { change 0%Q with (inject_Z 0). by rewrite <-Zle_Qle. }
  assert (0 <= backoff_multiplier p ^ n)%Q as Hpow.
  { apply Qpower_pos. eapply Qle_trans; [|done]. done. }
  assert (inject_Z (base_delay_ticks p) * backoff_multiplier p ^ n
          <= inject_Z (base_delay_ticks p) * backoff_multiplier p ^ (n + 1))%Q as Hle.
  { pose proof (Qmult_le_compat_r 1 (backoff_multiplier p)
      (inject_Z (base_delay_ticks p) * backoff_multiplier p ^ n) Hm (Qmult_le_0_compat _ _ Hb' Hpow)) as H.
    rewrite Qmult_1_l in H. eapply Qle_trans; [exact H|]. apply Qle_lteq. right.
    rewrite Qpower_plus' by lia. simpl. ring. }
  rewrite !truncate_floor; [by apply Qfloor_resp_le| |by apply Qmult_le_0_compat].
  eapply Qle_trans; [|done]. by apply Qmult_le_0_compat.
Qed.

(** ** Timeouts of tasks *)

Definition expirable (t : Task) : bool := can_transition_to t LegacyTask.EXPIRED.
Definition expired_at (tick : Z) (t : Task) : Task := with_status LegacyTask.EXPIRED tick (completed_at_tick t) t.
Definition keyed_tasks (tree : TaskTree) : Prop :=
  NoDup (dkeys (_tasks tree)) ∧ ∀ k x, (k, x) ∈ _tasks tree → task_id x = k.
(** A tree in which the tasks [l] expired at [tick]. *)
Definition expired_in (tick : Z) (l : list Task) (tree tree' : TaskTree) : Prop :=
  dkeys (_tasks tree') = dkeys (_tasks tree) ∧
  ∀ k, dget k (_tasks tree') =
    match dget k (_tasks tree) with
    | Some x => Some (if decide (k ∈ map task_id l) then expired_at tick x else x)
    | None => None
    end.

Lemma expire_task_cases id tick tree x :
  dget id (_tasks tree) = Some x → is_terminal x = false →
  expire_task id tick tree =
    if expirable x then (inr (expired_at tick x), set_tasks (dset id (expired_at tick x)) tree)
    else (inl (Invalid (status x) LegacyTask.EXPIRED), tree).
Proof.
  intros Hx Ht. unfold expire_task, LegacyTask.get, transition_to, expirable. rewrite Hx, Ht.
  by destruct (can_transition_to x LegacyTask.EXPIRED).
Qed.

Section TaskTimeouts.
Variables (isoformat : Z → string) (now tick : Z).
Lemma expire_all_spec l ids tree log :
  NoDup (map task_id l) → NoDup (dkeys (_tasks tree)) →
  (∀ x, x ∈ l → dget (task_id x) (_tasks tree) = Some x ∧ is_terminal x = false) →
  let '(r, tree', log') := expire_all isoformat now tick l ids tree log in
  (forallb expirable l = true → r = inr (ids ++ map task_id l) ∧ expired_in tick l tree tree' ∧
     length log' = (length log + length l)%nat) ∧
  (forallb expirable l = false → ∃ pre x post, l = pre ++ x :: post ∧ forallb expirable pre = true ∧
     expirable x = false ∧ r = inl (Invalid (status x) LegacyTask.EXPIRED) ∧ expired_in tick pre tree tree').
Proof.
  revert ids tree log. induction l as [|t l IH]; intros ids tree log Hn Hk Hl.
  { simpl. split; [|done]. intros _. rewrite app_nil_r. split_and!; [done| |lia]. split; [done|].
    intros k. simpl. by destruct (dget k _). }
  destruct (Hl t) as [Ht Hnt]; [left|]. cbn [expire_all]. rewrite (expire_task_cases _ _ _ _ Ht Hnt).
  cbn [forallb]. destruct (expirable t) eqn:Et; cbn [andb].
  2:{ split; [done|]. intros _. exists [], t, l. split_and!; [done|done|done|done|]. split; [done|].
      intros k. simpl. by destruct (dget k _). }
  simpl in Hn. apply NoDup_cons in Hn as [Hnt' Hn].
  set (tree1 := set_tasks (dset (task_id t) (expired_at tick t)) tree).
  set (log1 := record _ _ _ _ _ _ log).
  assert (length log1 = S (length log)) as Hlog by (unfold log1, record; rewrite length_app; simpl; lia).
  assert (dkeys (_tasks tree1) = dkeys (_tasks tree)) as Hkeys.
  { simpl. rewrite dkeys_dset. by rewrite decide_True by by eapply dget_keys. }
  assert (∀ x, x ∈ l → dget (task_id x) (_tasks tree1) = Some x ∧ is_terminal x = false) as Hl1.
  { intros x Hx. destruct (Hl x) as [Hx1 Hx2]; [by right|]. split; [|done]. simpl.
    rewrite dget_dset_ne; [done|]. intros E. apply Hnt'. rewrite <-E. apply list_elem_of_fmap. by exists x. }
  assert (∀ l' tree', (∀ x, x ∈ l' → x ∈ l) → expired_in tick l' tree1 tree' → expired_in tick (t :: l') tree tree') as Hex.
  { intros l' tree' Hsub [H1 H2]. split; [congruence|]. intros k. rewrite H2. simpl. rewrite dget_dset.
    destruct (decide (k = task_id t)) as [->|Hne].
    - rewrite Ht. f_equal. rewrite decide_False, decide_True; [done|by left|].
      intros (x & Ex & Hx)%list_elem_of_fmap. apply Hnt'. rewrite Ex. apply list_elem_of_fmap. exists x. auto.
    - destruct (dget k (_tasks tree)); [|done]. f_equal.
      destruct (decide (k ∈ map task_id l')) as [Hin|Hin].
      + by rewrite decide_True by by right.
      + rewrite decide_False; [done|]. intros [?|?]%elem_of_cons; done. }
  specialize (IH (ids ++ [task_id t]) tree1 log1 Hn). rewrite Hkeys in IH. specialize (IH Hk Hl1).
  destruct (expire_all isoformat now tick l (ids ++ [task_id t]) tree1 log1) as [[r tree'] log'].
  destruct IH as [IH1 IH2]. split.
  - intros E. destruct (IH1 E) as (-> & H1 & H2). split_and!; [by rewrite <-app_assoc|by apply Hex|].
    rewrite H2, Hlog. simpl. lia.
  - intros E. destruct (IH2 E) as (pre & x & post & -> & H1 & H2 & H3 & H4).
    exists (t :: pre), x, post. split_and!; [done|simpl; by rewrite Et, H1|done|done|].
    apply Hex; [|done]. intros y Hy. apply elem_of_app. by left.
Qed.

(** A check of the deadlines expires exactly the overdue tasks: when every one of them may
    expire it returns their identifiers, each is expired, nothing else changed and none is left
    overdue; otherwise it fails at the first that may not expire (a draft, a submitted or a
    reviewed task), with those before it expired. *)
Theorem task_timeouts_exact tree log :
  keyed_tasks tree →
  let overdue := get_expired_tasks now tree in
  let '(r, tree', log') := check_task_timeouts isoformat now tick tree log in
  (forallb expirable overdue = true →
     r = inr (map task_id overdue) ∧ expired_in tick overdue tree tree' ∧ get_expired_tasks now tree' = [] ∧
     length log' = (length log + length overdue)%nat) ∧
  (forallb expirable overdue = false →
     ∃ pre x post, overdue = pre ++ x :: post ∧ expirable x = false ∧
       r = inl (Invalid (status x) LegacyTask.EXPIRED) ∧ expired_in tick pre tree tree').
Proof.
  intros [Hn Hk] overdue.
  assert (∀ x, x ∈ overdue ↔ (∃ k, (k, x) ∈ _tasks tree) ∧
            (match deadline x with Some d => d <? now | None => false end && negb (is_terminal x)) = true) as Hov.
  { intros x. unfold overdue, get_expired_tasks. rewrite elem_of_bfilter. unfold dvalues.
    rewrite list_elem_of_fmap. split.
    - intros [([k y] & -> & Hy) ?]. eauto.
    - intros [[k Hx] ?]. split; [|done]. by exists (k, x). }
  assert (∀ x, x ∈ overdue → dget (task_id x) (_tasks tree) = Some x ∧ is_terminal x = false) as Hl.
  { intros x [[k Hx] Hd]%Hov. rewrite (Hk _ _ Hx). split; [by apply elem_dget|].
    apply andb_true_iff in Hd as [_ Hd]. by apply negb_true_iff. }
  assert (NoDup (map task_id overdue)) as Hids.
  { unfold overdue, get_expired_tasks. clear -Hn Hk. unfold dvalues, dkeys in *.
    induction (_tasks tree) as [|[k x] d IH]; simpl in *; [constructor|].
    apply NoDup_cons in Hn as [Hk0 Hn]. assert (NoDup (map task_id (List.filter
      (λ x, match deadline x with Some d => d <? now | None => false end && negb (is_terminal x)) (map snd d)))) as H.
    { apply IH; [done|]. intros; apply Hk; by right. }
    destruct (_ && _); [|done]. simpl. apply NoDup_cons. split; [|done].
    intros (y & Ey & [Hy _]%elem_of_bfilter)%list_elem_of_fmap.
    apply list_elem_of_fmap in Hy as ([k' y'] & -> & Hy). apply Hk0.
    rewrite <-(Hk k x) by left. rewrite Ey. simpl. rewrite (Hk k' y') by by right.
    apply list_elem_of_fmap. by exists (k', y'). }
  pose proof (expire_all_spec overdue [] tree log Hids Hn Hl) as H. unfold check_task_timeouts. fold overdue.
  destruct (expire_all _ _ _ _ _ _ _) as [[r tree'] log']. destruct H as [H1 H2]. split.
  - intros E. destruct (H1 E) as (-> & Hex & Hlen). split_and!; [done|done| |done].
    destruct (get_expired_tasks now tree') as [|y l] eqn:Ey; [done|exfalso].
    assert (y ∈ get_expired_tasks now tree') as Hy by (rewrite Ey; left).
    unfold get_expired_tasks in Hy. apply elem_of_bfilter in Hy as [Hy Hd].
    apply list_elem_of_fmap in Hy as ([k y'] & -> & Hy). simpl in Hd. destruct Hex as [Hkeys Hex].
    apply elem_dget in Hy; [|by rewrite Hkeys]. rewrite Hex in Hy.
    destruct (dget k (_tasks tree)) as [x|] eqn:Ex; [|done]. apply dget_Some_elem in Ex as Hx.
    destruct (decide (k ∈ map task_id overdue)) as [Hin|Hin]; injection Hy as <-.
    + apply andb_true_iff in Hd as [_ Hd]. done.
    + apply Hin. rewrite <-(Hk _ _ Hx). apply list_elem_of_fmap. exists x. split; [done|]. apply Hov. eauto.
  - intros E. destruct (H2 E) as (pre & x & post & ? & _ & ? & ? & ?). by exists pre, x, post.
Qed.
End TaskTimeouts.

(** ** Locks whose lease ran out *)

(** A check of the leases releases every lock whose lease ended, keeps every other, and leaves
    one entry of the audit log for each lock released. *)
Lemma lock_timeouts_exact tick locks log :
  let '(released, locks', log') := check_lock_timeouts tick locks log in
  let '(expired, kept) := check_expired tick locks in
  locks' = kept ∧ released = map released_lock expired ∧ length log' = (length log + length expired)%nat ∧
  (∀ e, e ∈ drop (length log) log' → event_type e = "lock.expired").
Proof.
  unfold check_lock_timeouts. destruct (check_expired tick locks) as [expired kept].
  split_and!; [done|done| |].
  - revert log. induction expired as [|l ls IH]; intros log; simpl; [lia|]. rewrite IH. unfold record.
    rewrite length_app. simpl. lia.
  - assert (∀ log, ∃ more, foldl (λ log l, record "lock.expired" (owner_agent_id l) tick
        [("lock_id", VStr (lock_id l)); ("resource", VStr (lock_resource l));
         ("lease_until_tick", VInt (lease_until_tick l))] true None log) log expired = log ++ more ∧
        ∀ e, e ∈ more → event_type e = "lock.expired") as H.
    { clear. induction expired as [|l ls IH]; intros log; simpl.
      { exists []. rewrite app_nil_r. split; [done|]. intros e He. by apply elem_of_nil in He. }
      destruct (IH (record "lock.expired" (owner_agent_id l) tick
        [("lock_id", VStr (lock_id l)); ("resource", VStr (lock_resource l));
         ("lease_until_tick", VInt (lease_until_tick l))] true None log)) as (more & -> & Hm).
      unfold record. rewrite <-app_assoc. eexists. split; [done|]. intros e [->|He]%elem_of_cons; [done|].
      by apply Hm. }
    destruct (H log) as (more & -> & Hm). rewrite drop_app_length. done.
Qed.

(** ** The crash guard *)

Inductive guard_op := Crash (tick : Z) (error : string) (epoch : Z) | Resume | OnEmergency (recipient : string).
Definition guard_step (g : CrashGuard) (o : guard_op) : CrashGuard :=
  match o with
  | Crash t e s => (record_crash t e s g).2
  | Resume => rearm g
  | OnEmergency r => default g (register_emergency_callback r g)
  end.
Definition guard_run (window thr : Z) (pause : bool) (ops : list guard_op) : CrashGuard :=
  foldl guard_step (CrashGuard_init window thr pause) ops.
Definition crash_of (o : guard_op) : list (Z * string) := match o with Crash t e _ => [(t, e)] | _ => [] end.
Definition crashes_of (ops : list guard_op) : list (Z * string) := concat (map crash_of ops).
Definition recent (tick window : Z) : list (Z * string) → list (Z * string) :=
  List.filter (λ c, tick - c.1 <? window).
Definition in_order (l : list (Z * string)) : Prop := StronglySorted (λ a b : Z * string, a.1 ≤ b.1) l.

Lemma in_order_snoc l c : in_order (l ++ [c]) ↔ in_order l ∧ ∀ x, x ∈ l → x.1 ≤ c.1.
Proof.
  unfold in_order. induction l as [|a l IH]; simpl.
  { split; [intros _; split; [constructor|intros x Hx; by apply elem_of_nil in Hx]|repeat constructor]. }
  split.
  - intros [Hs Ha]%StronglySorted_inv. apply IH in Hs as [Hs Hc]. rewrite Forall_app in Ha.
    destruct Ha as [Ha Hac]. inversion Hac; subst. split; [by constructor|].
    intros x [->|Hx]%elem_of_cons; auto.
  - intros [[Hs Ha]%StronglySorted_inv Hc]. constructor.
    + apply IH. split; [done|]. intros x Hx. apply Hc. by right.
    + apply Forall_app. split; [done|]. constructor; [apply Hc; left|constructor].
Qed.
Lemma evict_recent tick window l : in_order l → evict tick window l = recent tick window l.
Proof.
  induction l as [|[t e] l IH]; intros Hs; simpl; [done|]. apply StronglySorted_inv in Hs as [Hs Ha].
  destruct (Z.leb_spec window (tick - t)) as [Hw|Hw].
  - rewrite (proj2 (Z.ltb_ge _ _)) by lia. by apply IH.
  - rewrite (proj2 (Z.ltb_lt _ _)) by lia. f_equal. symmetry.
    rewrite Forall_forall in Ha. clear IH Hs. unfold recent.
    induction l as [|c l IH]; simpl; [done|]. rewrite (proj2 (Z.ltb_lt _ _)).
    + f_equal. apply IH. intros x Hx. apply Ha. by right.
    + assert (t ≤ c.1) by (apply (Ha c); left). lia.
Qed.
Lemma recent_later t t' window l : t ≤ t' → recent t' window (recent t window l) = recent t' window l.
Proof.
  intros Ht. unfold recent. induction l as [|c l IH]; simpl; [done|].
  destruct (Z.ltb_spec (t - c.1) window); simpl; rewrite IH; [done|].
  rewrite (proj2 (Z.ltb_ge _ _)) by lia. done.
Qed.
Lemma recent_order t window l : in_order l → in_order (recent t window l).
Proof.
  unfold in_order, recent. induction 1 as [|a l Hs IH Ha]; simpl; [constructor|].
  destruct (_ <? _); [|done]. constructor; [done|]. rewrite Forall_forall in *.
  intros x [Hx _]%elem_of_bfilter. by apply Ha.
Qed.
Lemma evict_snoc t' t window l e :
  in_order (l ++ [(t', e)]) → t ≤ t' → evict t' window (recent t window l ++ [(t', e)]) = recent t' window (l ++ [(t', e)]).
Proof.
  intros [Hl Hle]%in_order_snoc Ht. rewrite evict_recent.
  - unfold recent at 1 3. rewrite !List.filter_app. f_equal. by apply (recent_later t t').
  - apply in_order_snoc. split; [by apply recent_order|]. intros x [Hx _]%elem_of_bfilter. by apply Hle.
Qed.

Definition within (window : Z) (hist : list (Z * string)) : list (Z * string) :=
  match last hist with Some c => recent c.1 window hist | None => [] end.
Definition fired (r : option CrashReport) : nat := if r then 1 else 0.
(** How often the guard fired, and how often it was armed again. *)
Fixpoint firings (g : CrashGuard) (ops : list guard_op) : nat :=
  match ops with
  | [] => 0
  | o :: ops =>
      (match o with Crash t e s => fired (record_crash t e s g).1 | _ => 0 end + firings (guard_step g o) ops)%nat
  end.
Definition resumes (ops : list guard_op) : nat :=
  length (List.filter (λ o, match o with Resume => true | _ => false end) ops).

Lemma record_crash_settings t e s g :
  let g' := (record_crash t e s g).2 in
  window_ticks g' = window_ticks g ∧ threshold g' = threshold g ∧
  _crashes g' = evict t (window_ticks g) (_crashes g ++ [(t, e)]).
Proof. unfold record_crash. by destruct (_ || _). Qed.
Lemma guard_window window thr pause ops :
  in_order (crashes_of ops) →
  let g := guard_run window thr pause ops in
  window_ticks g = Z.max 1 window ∧ threshold g = Z.max 1 thr ∧
  _crashes g = within (Z.max 1 window) (crashes_of ops).
Proof.
  unfold guard_run. induction ops as [|o ops IH] using rev_ind; [done|].
  unfold crashes_of. rewrite map_app, concat_app, foldl_app. cbn [map concat foldl]. rewrite app_nil_r.
  fold (crashes_of ops). set (g := foldl guard_step _ ops) in *.
  destruct o as [t e s| |r]; cbn [crash_of guard_step].
  - intros Hs. pose proof Hs as Hs'. apply in_order_snoc in Hs' as [Hs' Hle]. destruct (IH Hs') as (Hw & Ht & Hc).
    destruct (record_crash_settings t e s g) as (-> & -> & ->). split_and!; [done|done|]. rewrite Hw, Hc.
    unfold within. rewrite last_snoc. destruct (last (crashes_of ops)) as [c|] eqn:El.
    + apply evict_snoc; [done|]. apply Hle. by apply last_Some_elem_of.
    + apply last_None in El. rewrite El. rewrite evict_recent; [done|]. repeat constructor.
  - rewrite app_nil_r. exact IH.
  - rewrite app_nil_r. intros Hs. destruct (IH Hs) as (? & ? & ?). unfold register_emergency_callback.
    by destruct (decide _); [|destruct (decide _)].
Qed.
Lemma firings_bounded g ops : (firings g ops ≤ (if triggered g then 0 else 1) + resumes ops)%nat.
Proof.
  revert g. induction ops as [|o ops IH]; intros g; simpl; [lia|]. specialize (IH (guard_step g o)).
  destruct o as [t e s| |r]; cbn [guard_step] in *; unfold resumes in *; simpl.
  - revert IH. unfold record_crash. destruct (triggered g) eqn:Et; simpl; [rewrite ?Et; lia|].
    destruct (_ <? _); simpl; rewrite ?Et; lia.
  - simpl in IH. destruct (triggered g); lia.
  - revert IH. unfold register_emergency_callback.
    destruct (decide _); [|destruct (decide _)]; simpl; destruct (triggered g); simpl; lia.
Qed.

(** Over crashes in the order of their ticks, resumes and registrations, the guard holds the
    crashes of its window and no others; the next crash fires it exactly when it is armed and
    the crashes of the window reach the threshold, and then it notifies the providers, then the
    owners, then pauses, and stays triggered. It fires at most once more than it was resumed. *)
Theorem crash_guard_fires window thr pause ops t e s :
  in_order (crashes_of ops ++ [(t, e)]) →
  let g := guard_run window thr pause ops in
  let l := recent t (Z.max 1 window) (crashes_of ops ++ [(t, e)]) in
  let '(r, g') := record_crash t e s g in
  _crashes g' = l ∧
  (triggered g = true ∨ Z.of_nat (length l) < Z.max 1 thr →
     r = None ∧ acts g' = acts g ∧ triggered g' = triggered g) ∧
  (triggered g = false ∧ Z.max 1 thr ≤ Z.of_nat (length l) →
     ∃ rep, r = Some rep ∧ crash_count rep = Z.of_nat (length l) ∧ cr_ticks rep = map fst l ∧
       acts g' = acts g ++ notices "provider" (providers g) rep ++ notices "owner" (owners g) rep
                        ++ (if has_pause g then [Pause rep] else []) ∧
       triggered g' = true) ∧
  (firings (CrashGuard_init window thr pause) (ops ++ [Crash t e s]) ≤ 1 + resumes ops)%nat.
Proof.
  intros Hs g l.
  assert (crashes_of (ops ++ [Crash t e s]) = crashes_of ops ++ [(t, e)]) as Hc.
  { unfold crashes_of. rewrite map_app, concat_app. done. }
  pose proof (guard_window window thr pause (ops ++ [Crash t e s])) as H. rewrite Hc in H.
  destruct (H Hs) as (_ & _ & Hl). clear H.
  destruct (guard_window window thr pause ops) as (Hw & Ht & _); [by apply in_order_snoc in Hs as []|].
  fold g in Hw, Ht. unfold within in Hl. rewrite last_snoc in Hl. cbn [fst] in Hl. fold l in Hl.
  unfold guard_run in Hl. rewrite foldl_app in Hl. cbn [foldl guard_step] in Hl.
  change (foldl guard_step (CrashGuard_init window thr pause) ops) with g in Hl.
  pose proof (firings_bounded (CrashGuard_init window thr pause) (ops ++ [Crash t e s])) as Hf.
  assert (resumes (ops ++ [Crash t e s]) = resumes ops) as Hr.
  { unfold resumes. rewrite List.filter_app, length_app. simpl. lia. }
  rewrite Hr in Hf. cbn [CrashGuard_init triggered] in Hf.
  destruct (record_crash_settings t e s g) as (_ & _ & Hev). rewrite Hl in Hev.
  unfold record_crash in *. rewrite <-Hev, Ht in *.
  destruct (triggered g) eqn:Etr; simpl in *.
  { split_and!; [done|done|by intros []|done]. }
  destruct (Z.ltb_spec (Z.of_nat (length l)) (Z.max 1 thr)) as [Hlt|Hge]; simpl.
  - split_and!; [done|done|intros []; lia|done].
  - split_and!; [done|intros []; [done|lia]|intros _; by eexists|done].
Qed.

(** ** Witnesses and counterexamples *)

Definition due_task (id : string) (s : TaskStatus) : Task :=
  mkTask id "t" "" "boss" "dev" None [] s NORMAL (Some 5) [] [] 0 0 None [].
Definition due_tree (s : TaskStatus) : TaskTree :=
  mkTree [("a", due_task "a" ASSIGNED); ("b", due_task "b" s)] [] [] [].
Lemma due_tree_keyed s : keyed_tasks (due_tree s).
Proof.
  split; [apply (bool_decide_unpack _); by vm_compute|].
  intros k x. simpl. intros [E|[E|[]%elem_of_nil]%elem_of_cons]%elem_of_cons; by injection E as -> ->.
Qed.

Lemma task_timeouts_exact_witness :
  (∃ tree' log', check_task_timeouts (λ _, "") 9 3 (due_tree IN_PROGRESS) [] = (inr ["a"; "b"], tree', log') ∧
     get_expired_tasks 9 tree' = []) ∧
  (∃ tree' log', check_task_timeouts (λ _, "") 9 3 (due_tree SUBMITTED) [] =
     (inl (Invalid SUBMITTED LegacyTask.EXPIRED), tree', log')).
Proof.
  split.
  - pose proof (task_timeouts_exact (λ _, "") 9 3 (due_tree IN_PROGRESS) [] (due_tree_keyed _)) as H.
    cbv zeta in H. destruct (check_task_timeouts _ _ _ _ _) as [[r tree'] log'].
    destruct H as [H _]. destruct H as (-> & _ & Hg & _); [by vm_compute|]. exists tree', log'. split; [|done].
    by vm_compute.
  - pose proof (task_timeouts_exact (λ _, "") 9 3 (due_tree SUBMITTED) [] (due_tree_keyed _)) as H.
    cbv zeta in H. destruct (check_task_timeouts _ _ _ _ _) as [[r tree'] log'].
    destruct H as [_ H]. destruct H as (pre & x & post & Ho & Hx & -> & _); [by vm_compute|].
    exists tree', log'. do 4 f_equal.
    assert (x ∈ get_expired_tasks 9 (due_tree SUBMITTED)) as Hin.
    { rewrite Ho. apply elem_of_app. right. by left. }
    vm_compute in Hin. apply elem_of_cons in Hin as [->|[->|[]%elem_of_nil]%elem_of_cons]; done.
Defined.

Lemma crash_guard_fires_witness :
  ∃ rep, (record_crash 4 "e" 0 (guard_run 10 3 true
            [OnEmergency "owner"; OnEmergency "provider"; Crash 1 "e" 0; Crash 3 "e" 0])).1 = Some rep ∧
    acts (record_crash 4 "e" 0 (guard_run 10 3 true
            [OnEmergency "owner"; OnEmergency "provider"; Crash 1 "e" 0; Crash 3 "e" 0])).2
    = [Notify "provider" 0 rep; Notify "owner" 0 rep; Pause rep].
Proof.
  pose proof (crash_guard_fires 10 3 true
    [OnEmergency "owner"; OnEmergency "provider"; Crash 1 "e" 0; Crash 3 "e" 0] 4 "e" 0) as H.
  cbv zeta in H. destruct (record_crash _ _ _ _) as [r g'].
  destruct H as (_ & _ & H & _); [by repeat constructor|].
  destruct H as (rep & -> & _ & _ & Ha & _); [by vm_compute|]. exists rep. split; [done|].
  cbn [snd]. rewrite Ha. by vm_compute.
Defined.

(** A task that was handed in before its deadline passed makes every later check of the
    deadlines fail, and an overdue task listed after it is never expired. *)
Lemma overdue_submission_blocks isoformat now tick log :
  5 < now →
  let tree := mkTree [("b", due_task "b" SUBMITTED); ("a", due_task "a" ASSIGNED)] [] [] [] in
  check_task_timeouts isoformat now tick tree log = (inl (Invalid SUBMITTED LegacyTask.EXPIRED), tree, log).
Proof.
  intros Hn tree. unfold check_task_timeouts, get_expired_tasks, tree.
  cbn [_tasks dvalues map List.filter snd deadline due_task]. rewrite (proj2 (Z.ltb_lt _ _) Hn). done.
Qed.
(** Asking for the last zero entries of the log returns all of them. *)
Lemma last_zero_is_everything l : audit_last 0 l = l.
Proof. done. Qed.
(** A failure that was resolved keeps its count: when the operation fails again much later it is
    no longer retried. *)
Lemma resolved_failure_keeps_count :
  let '(m, log) := retry_run default_policy
    [RecordFailure "a" "t" TIMEOUT_ "e" 1 true; ExecuteRetry "a" "t" 1; ExecuteRetry "a" "t" 2;
     ExecuteRetry "a" "t" 3; MarkResolved "a" "t"; RecordFailure "a" "t" TIMEOUT_ "e" 900 true] in
  can_retry "a" "t" m = false ∧ log = [("a:t", 1); ("a:t", 2); ("a:t", 4)].
Proof. by vm_compute. Qed.
