(* ===== verification/LegacyContinuation.v ===== *)
(** * The runtime state of an agent in the previous architecture

    models/continuation.py: where an agent stands between two activations; class AgentRuntimeState
    of legacy/simulation.py: the continuation with the agent's lifecycle machine.

    The machine of an agent keeps its own log of transitions; the time of an entry is [now]. *)

From stdpp Require Import base gmap strings list.
From Stdlib Require Import ZArith Lia.
From S2P Require Import Prelude PyValue.
From S2P Require LegacyAgentState.

Open Scope string_scope.
Open Scope Z_scope.
Open Scope list_scope.

(** ** The continuation (models/continuation.py) *)

Inductive ContinuationPhase :=
| FRESH | WAITING_FOR_LLM | WAITING_FOR_TOOL | WAITING_FOR_CHILD | WAITING_FOR_MAIL | WAITING_FOR_HUMAN
| WAITING_FOR_EXTERNAL | PROCESSING_RESULT | READY_TO_DECIDE | CONSOLIDATING | PH_COMPLETED | PH_FAILED.
#[global] Instance ContinuationPhase_eq_dec : EqDecision ContinuationPhase.
Proof. solve_decision. Defined.
Definition phase_value (p : ContinuationPhase) : string :=
  match p with
  | FRESH => "fresh" | WAITING_FOR_LLM => "waiting_for_llm" | WAITING_FOR_TOOL => "waiting_for_tool"
  | WAITING_FOR_CHILD => "waiting_for_child" | WAITING_FOR_MAIL => "waiting_for_mail"
  | WAITING_FOR_HUMAN => "waiting_for_human" | WAITING_FOR_EXTERNAL => "waiting_for_external"
  | PROCESSING_RESULT => "processing_result" | READY_TO_DECIDE => "ready_to_decide"
  | CONSOLIDATING => "consolidating" | PH_COMPLETED => "completed" | PH_FAILED => "failed"
  end.

Record AgentContinuation := mkCont {
  k_agent : string; k_task : string; k_activation : string; phase : ContinuationPhase;
  context_version : Z; resume_phase : option ContinuationPhase;
  pending_request_id : string; pending_request_type : string;
  react_turn : Z; total_llm_calls : Z; total_tool_calls : Z;
  last_llm_result : dict value; last_tool_result : dict value; last_email : dict value;
  event_log : list (dict value) }.
Definition AgentContinuation_init (agent : string) : AgentContinuation :=
  mkCont agent "" "" FRESH 0 None "" "" 0 0 0 [] [] [] [].

Definition _log (ev : string) (kw : dict value) (c : AgentContinuation) : AgentContinuation :=
  mkCont (k_agent c) (k_task c) (k_activation c) (phase c) (context_version c) (resume_phase c)
    (pending_request_id c) (pending_request_type c) (react_turn c) (total_llm_calls c) (total_tool_calls c)
    (last_llm_result c) (last_tool_result c) (last_email c)
    (event_log c ++ [("event", VStr ev) :: kw]).
Definition set_phase (p : ContinuationPhase) (r : option ContinuationPhase) (c : AgentContinuation) : AgentContinuation :=
  mkCont (k_agent c) (k_task c) (k_activation c) p (context_version c) r
    (pending_request_id c) (pending_request_type c) (react_turn c) (total_llm_calls c) (total_tool_calls c)
    (last_llm_result c) (last_tool_result c) (last_email c) (event_log c).
(** The agent waits for a request; [llm] and [tool] are added to the counts of calls. *)
Definition await (p : ContinuationPhase) (ty req : string) (llm tool : Z) (c : AgentContinuation) : AgentContinuation :=
  mkCont (k_agent c) (k_task c) (k_activation c) p (context_version c) (resume_phase c)
    req ty (react_turn c) (total_llm_calls c + llm) (total_tool_calls c + tool)
    (last_llm_result c) (last_tool_result c) (last_email c) (event_log c).
(** The agent has results to process and waits for none. *)
Definition arrive (p : ContinuationPhase) (llm tool : dict value) (turns : Z) (req ty : string)
    (c : AgentContinuation) : AgentContinuation :=
  mkCont (k_agent c) (k_task c) (k_activation c) p (context_version c) (resume_phase c)
    req ty (react_turn c + turns) (total_llm_calls c) (total_tool_calls c) llm tool (last_email c) (event_log c).

Definition requested (req : string) (tick : Z) : dict value := [("request_id", VStr req); ("tick", VInt tick)].
Definition advance_to_waiting_llm (req : string) (tick : Z) (c : AgentContinuation) : AgentContinuation :=
  _log "waiting_for_llm" (requested req tick) (await WAITING_FOR_LLM "llm" req 1 0 c).
Definition advance_to_waiting_tool (req : string) (tick : Z) (c : AgentContinuation) : AgentContinuation :=
  _log "waiting_for_tool" (requested req tick) (await WAITING_FOR_TOOL "tool" req 0 1 c).
Definition advance_to_waiting_external (req : string) (tick : Z) (c : AgentContinuation) : AgentContinuation :=
  _log "waiting_for_external" (requested req tick) (await WAITING_FOR_EXTERNAL "external" req 0 1 c).
Definition receive_llm_result (r : dict value) (tick : Z) (c : AgentContinuation) : AgentContinuation :=
  _log "llm_result_received" [("tick", VInt tick)] (arrive PROCESSING_RESULT r (last_tool_result c) 1 "" "" c).
Definition finalize_result_processing (tick : Z) (c : AgentContinuation) : AgentContinuation :=
  if decide (phase c = PROCESSING_RESULT)
  then _log "result_processed" [("tick", VInt tick)]
         (arrive READY_TO_DECIDE [] [] 0 (pending_request_id c) (pending_request_type c) c)
  else c.
Definition receive_tool_result (r : dict value) (tick : Z) (c : AgentContinuation) : AgentContinuation :=
  _log "tool_result_received" [("tick", VInt tick)] (arrive PROCESSING_RESULT (last_llm_result c) r 1 "" "" c).
Definition receive_external_result (r : dict value) (tick : Z) (c : AgentContinuation) : AgentContinuation :=
  _log "external_result_received" [("tick", VInt tick)] (arrive PROCESSING_RESULT (last_llm_result c) r 1 "" "" c).
Definition mark_completed (tick : Z) (c : AgentContinuation) : AgentContinuation :=
  _log "completed" [("tick", VInt tick)] (set_phase PH_COMPLETED (resume_phase c) c).
Definition mark_failed (reason : string) (tick : Z) (c : AgentContinuation) : AgentContinuation :=
  _log "failed" [("reason", VStr reason); ("tick", VInt tick)] (set_phase PH_FAILED (resume_phase c) c).

Definition enter_consolidating (tick : Z) (c : AgentContinuation) : AgentContinuation :=
  if bool_decide (phase c = CONSOLIDATING) || bool_decide (resume_phase c ≠ None) then c
  else _log "enter_consolidating" [("resume_phase", VStr (phase_value (phase c))); ("tick", VInt tick)]
         (set_phase CONSOLIDATING (Some (phase c)) c).
Definition exit_consolidating (tick : Z) (c : AgentContinuation) : AgentContinuation :=
  match resume_phase c with
  | None => c
  | Some p => _log "exit_consolidating" [("resumed_phase", VStr (phase_value p)); ("tick", VInt tick)]
                (set_phase p None c)
  end.

Definition is_waiting (c : AgentContinuation) : bool :=
  bool_decide (phase c ∈ [WAITING_FOR_LLM; WAITING_FOR_TOOL; WAITING_FOR_CHILD; WAITING_FOR_MAIL;
                          WAITING_FOR_HUMAN; WAITING_FOR_EXTERNAL]).
Definition is_terminal (c : AgentContinuation) : bool := bool_decide (phase c ∈ [PH_COMPLETED; PH_FAILED]).
Definition has_pending_request (c : AgentContinuation) : bool := nonempty (pending_request_id c).

(** ** The runtime state (simulation.py) *)

Record AgentRuntimeState := mkRuntime {
  r_agent : string; state_machine : LegacyAgentState.AgentStateMachine; r_log : LegacyAgentState.AuditLog;
  continuation : AgentContinuation; active_activation_id : option string; last_activation_tick : option Z }.
Definition AgentRuntimeState_init (agent now : string) : AgentRuntimeState :=
  let '(m, l) := LegacyAgentState.AgentStateMachine_init agent LegacyAgentState.CREATED now [] in
  mkRuntime agent m l (AgentContinuation_init agent) None None.
Definition state (r : AgentRuntimeState) : LegacyAgentState.AgentState :=
  LegacyAgentState._state (state_machine r).
Definition set_continuation (f : AgentContinuation → AgentContinuation) (r : AgentRuntimeState) : AgentRuntimeState :=
  mkRuntime (r_agent r) (state_machine r) (r_log r) (f (continuation r)) (active_activation_id r)
    (last_activation_tick r).

Section Lifecycle.
Variable now : string.

(** A transition of the machine, which may be refused. *)
Definition to_state (target : LegacyAgentState.AgentState) (tick : Z) (reason : string) (r : AgentRuntimeState) :
    option LegacyAgentState.InvalidTransitionError * AgentRuntimeState :=
  let '(x, m, l) := LegacyAgentState.transition target
                      (LegacyAgentState.Remark now (Some tick) reason []) (state_machine r) (r_log r) in
  (match x with inl e => Some e | inr _ => None end,
   mkRuntime (r_agent r) m l (continuation r) (active_activation_id r) (last_activation_tick r)).

Fixpoint to_states (l : list LegacyAgentState.AgentState) (tick : Z) (reason : string) (r : AgentRuntimeState) :
    option LegacyAgentState.InvalidTransitionError * AgentRuntimeState :=
  match l with
  | [] => (None, r)
  | s :: l' => match to_state s tick reason r with
               | (None, r) => to_states l' tick reason r
               | (Some e, r) => (Some e, r)
               end
  end.
Definition initialize (tick : Z) : AgentRuntimeState → option LegacyAgentState.InvalidTransitionError * AgentRuntimeState :=
  to_states [LegacyAgentState.INITIALIZED; LegacyAgentState.READY; LegacyAgentState.IDLE] tick "system init".

(** The states from which an activation resumes: waiting for an external result is not among them. *)
Definition RESUMED : list LegacyAgentState.AgentState :=
  [LegacyAgentState.WAITING_FOR_LLM; LegacyAgentState.WAITING_FOR_TOOL; LegacyAgentState.WAITING_FOR_CHILD;
   LegacyAgentState.WAITING_FOR_MAIL; LegacyAgentState.WAITING_FOR_LOCK; LegacyAgentState.WAITING_FOR_HUMAN].
Definition begin_activation (tick : Z) (r : AgentRuntimeState) :
    option LegacyAgentState.InvalidTransitionError * AgentRuntimeState :=
  let '(e, r) := if decide (state r = LegacyAgentState.IDLE)
                 then to_state LegacyAgentState.READY tick "scheduler activation" r else (None, r) in
  match e with
  | Some e => (Some e, r)
  | None =>
      if decide (state r = LegacyAgentState.READY)
      then to_state LegacyAgentState.PROCESSING tick "activation start" r
      else if decide (state r ∈ RESUMED)
      then to_state LegacyAgentState.PROCESSING tick "result received, resuming activation" r
      else (None, r)
  end.
Definition complete_activation (tick : Z) (r : AgentRuntimeState) :
    option LegacyAgentState.InvalidTransitionError * AgentRuntimeState :=
  if decide (state r = LegacyAgentState.PROCESSING)
  then to_state LegacyAgentState.IDLE tick "activation complete" r else (None, r).
Definition transition_to_waiting (s : LegacyAgentState.AgentState) (tick : Z) (r : AgentRuntimeState) :
    option LegacyAgentState.InvalidTransitionError * AgentRuntimeState :=
  if decide (state r = LegacyAgentState.PROCESSING)
  then to_state s tick "awaiting event" r else (None, r).
End Lifecycle.

(** ** Sessions of consolidation *)

Inductive cont_op :=
| OLlm (req : string) (tick : Z) | OTool (req : string) (tick : Z) | OExternal (req : string) (tick : Z)
| OLlmResult (r : dict value) (tick : Z) | OToolResult (r : dict value) (tick : Z)
| OExternalResult (r : dict value) (tick : Z) | OFinalize (tick : Z) | OCompleted (tick : Z)
| OFailed (reason : string) (tick : Z) | OEnter (tick : Z) | OExit (tick : Z).
Definition cont_step (o : cont_op) : AgentContinuation → AgentContinuation :=
  match o with
  | OLlm q t => advance_to_waiting_llm q t | OTool q t => advance_to_waiting_tool q t
  | OExternal q t => advance_to_waiting_external q t
  | OLlmResult r t => receive_llm_result r t | OToolResult r t => receive_tool_result r t
  | OExternalResult r t => receive_external_result r t
  | OFinalize t => finalize_result_processing t | OCompleted t => mark_completed t
  | OFailed w t => mark_failed w t | OEnter t => enter_consolidating t | OExit t => exit_consolidating t
  end.
Definition cont_run (l : list cont_op) (c : AgentContinuation) : AgentContinuation :=
  foldl (λ c o, cont_step o c) c l.
Definition is_exit (o : cont_op) : bool := match o with OExit _ => true | _ => false end.

Lemma session_kept p o c : resume_phase c = Some p → is_exit o = false → resume_phase (cont_step o c) = Some p.
Proof.
  intros H. destruct o; cbn; try done.
  - intros _. unfold finalize_result_processing. by case_decide.
  - intros _. unfold enter_consolidating. rewrite (bool_decide_eq_true_2 (resume_phase c ≠ None)); [|by rewrite H].
    by rewrite orb_true_r.
Qed.
Lemma session_run p l c : resume_phase c = Some p → existsb is_exit l = false → resume_phase (cont_run l c) = Some p.
Proof.
  revert c. induction l as [|o l IH]; intros c H; cbn; [done|].
  intros [Ho Hl]%orb_false_iff. apply IH; [|done]. by apply session_kept.
Qed.

Definition counts_le (c d : AgentContinuation) : Prop :=
  total_llm_calls c ≤ total_llm_calls d ∧ total_tool_calls c ≤ total_tool_calls d ∧ react_turn c ≤ react_turn d.
Lemma step_counts o c : counts_le c (cont_step o c).
Proof.
  unfold counts_le. destruct o; unfold cont_step; cbn; try lia.
  - unfold finalize_result_processing. case_decide; cbn; lia.
  - unfold enter_consolidating. destruct (bool_decide (phase c = CONSOLIDATING) || _); cbn; lia.
  - unfold exit_consolidating. destruct (resume_phase c); cbn; lia.
Qed.
Lemma run_counts l c : counts_le c (cont_run l c).
Proof.
  revert c. induction l as [|o l IH]; intros c; [unfold counts_le; cbn; lia|].
  specialize (IH (cont_step o c)). pose proof (step_counts o c). unfold counts_le in *. cbn [cont_run foldl] in *.
  unfold cont_run in IH. lia.
Qed.

(** A session of consolidation gives back the phase it interrupted, whatever happened during
    it: requests, results, a further entry; outside of a session an exit changes nothing. *)
Theorem consolidation_resumes t t' l c :
  phase c ≠ CONSOLIDATING → resume_phase c = None → existsb is_exit l = false →
  let c' := exit_consolidating t' (cont_run l (enter_consolidating t c)) in
  phase c' = phase c ∧ resume_phase c' = None ∧
  exit_consolidating t' c = c ∧
  counts_le c c'.
Proof.
  intros Hp Hr Hl c'.
  assert (enter_consolidating t c = _log "enter_consolidating"
            [("resume_phase", VStr (phase_value (phase c))); ("tick", VInt t)]
            (set_phase CONSOLIDATING (Some (phase c)) c)) as He.
  { unfold enter_consolidating. rewrite (bool_decide_eq_false_2 (phase c = _)) by done.
    rewrite Hr, bool_decide_eq_false_2 by by intros []. done. }
  subst c'. pose proof (run_counts l (enter_consolidating t c)) as Hm. rewrite He in *.
  set (s := _log _ _ _) in *. unfold counts_le in *.
  assert (resume_phase (cont_run l s) = Some (phase c)) as Hs by by apply session_run.
  unfold exit_consolidating. rewrite Hs, Hr. cbn in *. repeat split; lia.
Qed.

Lemma consolidation_resumes_witness :
  phase (exit_consolidating 5 (cont_run [OLlm "q" 2; OLlmResult [] 3; OFinalize 4; OEnter 4]
           (enter_consolidating 1 (AgentContinuation_init "a")))) = FRESH.
Proof.
  exact (proj1 (consolidation_resumes 1 5 [OLlm "q" 2; OLlmResult [] 3; OFinalize 4; OEnter 4]
                  (AgentContinuation_init "a") ltac:(discriminate) eq_refl eq_refl)).
Defined.

(** ** Activations *)

Lemma to_state_ok now target tick reason r :
  target ∈ LegacyAgentState.TRANSITION_TABLE (state r) →
  ∃ r', to_state now target tick reason r = (None, r') ∧ state r' = target ∧ continuation r' = continuation r.
Proof.
  intros H. unfold to_state, LegacyAgentState.transition, LegacyAgentState.can_transition_to.
  rewrite bool_decide_eq_true_2 by done. by eexists.
Qed.

(** An activation begins in the processing state and never raises; an agent that waits for an
    external result is left as it is, by the beginning and by the end. *)
Theorem activation_begins now tick r :
  (begin_activation now tick r).1 = None ∧
  state (begin_activation now tick r).2 =
    (if decide (state r ∈ LegacyAgentState.IDLE :: LegacyAgentState.READY :: RESUMED)
     then LegacyAgentState.PROCESSING else state r) ∧
  continuation (begin_activation now tick r).2 = continuation r.
Proof.
  unfold begin_activation. case_decide as Hi.
  - destruct (to_state_ok now LegacyAgentState.READY tick "scheduler activation" r) as (r1 & -> & H1 & K1).
    { rewrite Hi. set_solver. }
    rewrite decide_True by done.
    destruct (to_state_ok now LegacyAgentState.PROCESSING tick "activation start" r1) as (r2 & -> & H2 & K2).
    { rewrite H1. set_solver. }
    cbn [fst snd]. rewrite decide_True by (rewrite Hi; set_solver). by rewrite K2.
  - case_decide as Hr.
    + destruct (to_state_ok now LegacyAgentState.PROCESSING tick "activation start" r) as (r2 & -> & H2 & K2).
      { rewrite Hr. set_solver. }
      cbn [fst snd]. rewrite decide_True by (rewrite Hr; set_solver). done.
    + case_decide as Hw.
      * destruct (to_state_ok now LegacyAgentState.PROCESSING tick "result received, resuming activation" r)
          as (r2 & -> & H2 & K2).
        { unfold RESUMED in Hw. destruct (state r); set_solver. }
        cbn [fst snd]. rewrite decide_True by set_solver. done.
      * cbn [fst snd]. rewrite decide_False by set_solver. done.
Qed.

Lemma external_wait_stuck now tick r :
  state r = LegacyAgentState.WAITING_FOR_EXTERNAL →
  begin_activation now tick r = (None, r) ∧ complete_activation now tick r = (None, r) ∧
  ∀ s, transition_to_waiting now s tick r = (None, r).
Proof.
  intros H. unfold begin_activation, complete_activation, transition_to_waiting.
  assert (LegacyAgentState.WAITING_FOR_EXTERNAL ∉ RESUMED) by (unfold RESUMED; set_solver).
  repeat (rewrite H, decide_False by done; cbn iota beta). done.
Qed.
Definition parked : AgentRuntimeState :=
  mkRuntime "a" (LegacyAgentState.mkMachine "a" LegacyAgentState.WAITING_FOR_EXTERNAL 0) []
    (AgentContinuation_init "a") None None.
Lemma external_wait_stuck_witness : begin_activation "t" 1 parked = (None, parked).
Proof. exact (proj1 (external_wait_stuck "t" 1 parked eq_refl)). Defined.
