(* ===== verification/LegacyIngress.v ===== *)
(** * Ingress of platform events in the previous architecture

    legacy/ingress.py: events of external platforms wait in a buffer between ticks.  An event is
    known by its source and its identifier there; the keys that were ever seen survive a restart.

    The validation library reads an event back from what it dumped ([validate], [dump]).  A durable
    store behind the buffer is a function on a state of its own that may raise.  An entry of a
    snapshot's [seen] is a list of two strings, as the code writes it, or no list. *)

From stdpp Require Import base gmap strings list sorting.
From Stdlib Require Import ZArith Lia.
From S2P Require Import Prelude PyValue.

Open Scope string_scope.
Open Scope list_scope.

(** ** Data *)

Inductive IngressPriority := LOW | NORMAL | HIGH | URGENT.
Definition priority_value (p : IngressPriority) : string :=
  match p with LOW => "low" | NORMAL => "normal" | HIGH => "high" | URGENT => "urgent" end.
Record IngressEvent := mkIngress {
  source : string; external_id : string; event_type : string; occurred_at : string;
  payload : dict value; idempotency_key : string; priority : IngressPriority }.
Definition key : Type := string * string.
Definition dedup_key (e : IngressEvent) : key := (source e, external_id e).

(** ** The buffer *)

(** [d[k] = v]: a key keeps its place. *)
Fixpoint pset {A} (k : key) (v : A) (d : list (key * A)) : list (key * A) :=
  match d with
  | [] => [(k, v)]
  | (k', w) :: d' => if decide (k' = k) then (k, v) :: d' else (k', w) :: pset k v d'
  end.

Record IngressBuffer := mkBuffer {
  _events : list (key * IngressEvent); _acked : gset key; _seen : gset key }.
Definition IngressBuffer_init : IngressBuffer := mkBuffer [] ∅ ∅.
Definition restore_seen (ks : list key) (b : IngressBuffer) : IngressBuffer :=
  mkBuffer (_events b) (_acked b) (list_to_set ks).
Definition seen_snapshot (b : IngressBuffer) : list key := py_sorted pair_leb (elements (_seen b)).

Definition receive (e : IngressEvent) (b : IngressBuffer) : bool * IngressBuffer :=
  let k := dedup_key e in
  if decide (k ∈ _seen b) then (false, b)
  else (true, mkBuffer (pset k e (_events b)) (_acked b) ({[k]} ∪ _seen b)).

Section Persist.
Context {D : Type} (persist_cb : option (IngressEvent → M D ())).

Definition ack (k : key) (b : IngressBuffer) : IngressBuffer :=
  mkBuffer (_events b) ({[k]} ∪ _acked b) (_seen b).
Fixpoint persist_loop (cb : IngressEvent → M D ()) (l : list (key * IngressEvent)) : M (D * IngressBuffer) () :=
  match l with
  | [] => mret ()
  | (k, e) :: l' => λ '(d, b),
      if decide (k ∈ _acked b) then persist_loop cb l' (d, b)
      else match cb e d with
           | (Ok _, d') => persist_loop cb l' (d', ack k b)
           | (Raise x, d') => (Raise x, (d', b))
           end
  end.
Definition persist : M (D * IngressBuffer) () := λ '(d, b),
  match persist_cb with
  | None => (Ok (), (d, foldl (λ b kv, ack kv.1 b) b (_events b)))
  | Some cb => persist_loop cb (_events b) (d, b)
  end.
End Persist.

Definition drain (b : IngressBuffer) : list IngressEvent * IngressBuffer :=
  (map snd (_events b), mkBuffer [] (_acked b) (_seen b)).
Definition is_acked (k : key) (b : IngressBuffer) : bool := bool_decide (k ∈ _acked b).
Definition ingress_pending_count (b : IngressBuffer) : nat := length (_events b).

(** ** Snapshots *)

Section Snapshot.
Context (dump : IngressEvent → value) (validate : value → option IngressEvent).

Definition unacked (b : IngressBuffer) : list (key * IngressEvent) :=
  List.filter (λ kv, bool_decide (kv.1 ∉ _acked b)) (_events b).
Definition snapshot_ingress_buffer (b : IngressBuffer) : dict value :=
  [("seen", VList (map (λ k, VList [VStr k.1; VStr k.2]) (seen_snapshot b)));
   ("pending", VList (map (λ kv, dump kv.2) (unacked b)))].

Definition seen_key (v : value) : option key :=
  match v with VList [VStr s; VStr i] => Some (s, i) | _ => None end.
Definition entries (k : string) (d : dict value) : list value :=
  match dget k d with Some (VList l) => l | _ => [] end.
Definition restore_ingress_buffer (data : option (dict value)) : IngressBuffer :=
  let d := default [] data in
  let b := restore_seen (omap seen_key (entries "seen" d)) IngressBuffer_init in
  let evs := foldl (λ es e, pset (dedup_key e) e es) (_events b) (omap validate (entries "pending" d)) in
  mkBuffer evs (_acked b) (list_to_set (map fst evs) ∪ _seen b).
End Snapshot.

(** ** Histories *)

(** What happens to a buffer, with a store that keeps the events it is given. *)
Inductive action := Receive (e : IngressEvent) | Persist | Drain | Restart.

(** The buffer, with the events accepted, those handed over, and those a restart dropped. *)
Record trace := mkTrace {
  buf : IngressBuffer; accepted : list IngressEvent; delivered : list IngressEvent;
  dropped : list IngressEvent }.

Section History.
Context (dump : IngressEvent → value) (validate : value → option IngressEvent).
Context (cb : option (IngressEvent → M (list IngressEvent) ())).

Definition restart (b : IngressBuffer) : IngressBuffer :=
  restore_ingress_buffer validate (Some (snapshot_ingress_buffer dump b)).
Definition history_step (a : action) (t : trace) : trace :=
  let b := buf t in
  match a with
  | Receive e => let '(ok, b') := receive e b in
                 mkTrace b' (accepted t ++ if ok then [e] else []) (delivered t) (dropped t)
  | Persist => mkTrace (persist cb ([], b)).2.2 (accepted t) (delivered t) (dropped t)
  | Drain => let '(l, b') := drain b in mkTrace b' (accepted t) (delivered t ++ l) (dropped t)
  | Restart => mkTrace (restart b) (accepted t) (delivered t)
                 (dropped t ++ map snd (List.filter (λ kv, bool_decide (kv.1 ∈ _acked b)) (_events b)))
  end.
Definition history (l : list action) : trace :=
  foldl (λ t a, history_step a t) (mkTrace IngressBuffer_init [] [] []) l.
End History.

(** ** Lemmas on the buffer *)

Lemma pset_new {A} k (v : A) d : k ∉ map fst d → pset k v d = d ++ [(k, v)].
Proof.
  induction d as [|[k' w] d IH]; cbn [pset map fst app]; [done|].
  rewrite not_elem_of_cons. intros [H1 H2]. by rewrite decide_False, IH.
Qed.

(** The invariant of a buffer: events under their own keys, once each, and seen. *)
Record wf (b : IngressBuffer) : Prop := {
  wf_keys : Forall (λ kv, kv.1 = dedup_key kv.2) (_events b);
  wf_nodup : NoDup (map fst (_events b));
  wf_seen : ∀ k, k ∈ map fst (_events b) → k ∈ _seen b }.

Lemma buffer_init_wf : wf IngressBuffer_init.
Proof. split; cbn; [constructor|constructor|]. intros k H. by apply elem_of_nil in H. Qed.

Lemma receive_new e b : wf b → dedup_key e ∉ _seen b →
  receive e b = (true, mkBuffer (_events b ++ [(dedup_key e, e)]) (_acked b) ({[dedup_key e]} ∪ _seen b)).
Proof.
  intros W H. unfold receive. rewrite decide_False by done. rewrite pset_new; [done|].
  intros Hk. by apply H, W.
Qed.

Lemma persist_ack {D} cb (l : list (key * IngressEvent)) (d : D) b :
  ∃ a, (persist_loop cb l (d, b)).2.2 = mkBuffer (_events b) a (_seen b).
Proof.
  revert d b. induction l as [|[k e] l IH]; intros d b; cbn.
  { exists (_acked b). by destruct b. }
  case_decide; [apply IH|]. destruct (cb e d) as [[x|x] d']; cbn.
  - destruct (IH d' (ack k b)) as [a ->]. by exists a.
  - exists (_acked b). by destruct b.
Qed.
Lemma ack_all (l : list (key * IngressEvent)) b :
  foldl (λ b kv, ack kv.1 b) b l = mkBuffer (_events b) (list_to_set (map fst l) ∪ _acked b) (_seen b).
Proof.
  revert b. induction l as [|[k e] l IH]; intros b; cbn.
  - destruct b; cbn. f_equal. set_solver.
  - rewrite IH. cbn. f_equal. set_solver.
Qed.
Lemma persist_frame {D} cb (d : D) b : ∃ a, (persist cb (d, b)).2.2 = mkBuffer (_events b) a (_seen b).
Proof.
  unfold persist. destruct cb as [cb|]; [apply persist_ack|]. cbn. rewrite ack_all. by eexists.
Qed.

Lemma seen_omap (ks : list key) :
  omap seen_key (map (λ k, VList [VStr k.1; VStr k.2]) ks) = ks.
Proof. induction ks as [|[s i] ks IH]; cbn; [done|]. f_equal. apply IH. Qed.

Lemma pset_all (l acc : list (key * IngressEvent)) :
  Forall (λ kv, kv.1 = dedup_key kv.2) l → NoDup (map fst (acc ++ l)) →
  foldl (λ es e, pset (dedup_key e) e es) acc (map snd l) = acc ++ l.
Proof.
  revert acc. induction l as [|[k e] l IH]; intros acc Hk Hn; cbn; [by rewrite app_nil_r|].
  inversion Hk as [|? ? Hke Hl]; subst. cbn in Hke. subst k.
  assert (dedup_key e ∉ map fst acc) as Hnew.
  { rewrite map_app in Hn. apply NoDup_app in Hn as (_ & Hd & _). intros Hin. by eapply Hd; [|left]. }
  rewrite pset_new by done. rewrite (IH (acc ++ [(dedup_key e, e)])); [by rewrite <-app_assoc|done|].
  by rewrite <-app_assoc.
Qed.

Lemma entries_seen l m : entries "seen" [("seen", VList l); ("pending", VList m)] = l.
Proof. done. Qed.
Lemma entries_pending l m : entries "pending" [("seen", VList l); ("pending", VList m)] = m.
Proof. done. Qed.

Section Restore.
Context (dump : IngressEvent → value) (validate : value → option IngressEvent).
Context (reads : ∀ e, validate (dump e) = Some e).

Lemma validate_dumps (l : list (key * IngressEvent)) :
  omap validate (map (λ kv, dump kv.2) l) = map snd l.
Proof using reads. induction l as [|kv l IH]; cbn; [done|]. rewrite reads. f_equal. apply IH. Qed.

Lemma unacked_keys b k : k ∈ map fst (unacked b) → k ∈ map fst (_events b).
Proof.
  unfold unacked. rewrite !list_elem_of_fmap. intros (kv & -> & H). exists kv. split; [done|].
  by apply elem_of_bfilter in H as [? _].
Qed.
Lemma unacked_wf b : wf b →
  Forall (λ kv, kv.1 = dedup_key kv.2) (unacked b) ∧ NoDup (map fst (unacked b)).
Proof.
  intros [Hk Hn _]. unfold unacked. split.
  - apply Forall_forall. intros kv H. apply elem_of_bfilter in H as [H _].
    rewrite Forall_forall in Hk. by apply Hk.
  - clear Hk. induction (_events b) as [|kv l IH]; cbn in *; [constructor|].
    apply NoDup_cons in Hn as [Hx Hn]. destruct (bool_decide _); cbn; [|by apply IH].
    constructor; [|by apply IH]. intros Hin. apply Hx.
    apply list_elem_of_fmap in Hin as (kw & E & Hw). apply elem_of_bfilter in Hw as [Hw _].
    rewrite E. by apply (list_elem_of_fmap_2 fst).
Qed.

Lemma restore_snapshot b : wf b →
  restart dump validate b = mkBuffer (unacked b) ∅ (_seen b).
Proof using reads.
  intros W. unfold restart, restore_ingress_buffer, snapshot_ingress_buffer.
  cbn [default from_option id]. rewrite entries_seen, entries_pending, seen_omap, validate_dumps.
  destruct (unacked_wf b W) as [Hk Hn].
  unfold restore_seen. cbn [_events _acked _seen IngressBuffer_init].
  rewrite (pset_all (unacked b) []) by done. cbn [app].
  f_equal. apply set_eq. intros k. rewrite elem_of_union, !elem_of_list_to_set.
  unfold seen_snapshot. rewrite py_sorted_elem, elem_of_elements.
  split; [|tauto]. intros [H|H]; [|done]. apply W. by apply unacked_keys.
Qed.
End Restore.

(** ** The account of a history *)

(** Every accepted event was handed over, waits, or was dropped; keys are accepted once. *)
Record balanced (t : trace) : Prop := {
  bal_wf : wf (buf t);
  bal_perm : accepted t ≡ₚ delivered t ++ map snd (_events (buf t)) ++ dropped t;
  bal_keys : NoDup (map dedup_key (accepted t));
  bal_seen : ∀ k, k ∈ _seen (buf t) ↔ k ∈ map dedup_key (accepted t);
  bal_order : (delivered t ++ map snd (_events (buf t))) `sublist_of` accepted t }.

Lemma filter_split {A} (f g : A → bool) (l : list A) : (∀ x, g x = negb (f x)) →
  l ≡ₚ List.filter f l ++ List.filter g l.
Proof.
  intros H. induction l as [|x l IH]; cbn; [done|]. rewrite H. destruct (f x); cbn.
  - by constructor.
  - rewrite <-Permutation_middle. by constructor.
Qed.
Lemma filter_sublist {A} (f : A → bool) (l : list A) : List.filter f l `sublist_of` l.
Proof. induction l as [|x l IH]; cbn; [done|]. destruct (f x); by constructor. Qed.
Lemma map_sublist {A B} (f : A → B) (l k : list A) : l `sublist_of` k → map f l `sublist_of` map f k.
Proof. induction 1; cbn; by constructor. Qed.

Lemma sublist_full {A} (l k : list A) : l `sublist_of` k → (length k ≤ length l)%nat → l = k.
Proof.
  induction 1 as [|x l k H IH|x l k H IH]; cbn; intros Hl; [done|f_equal; apply IH; lia|].
  apply sublist_length in H. lia.
Qed.

Section Account.
Context (dump : IngressEvent → value) (validate : value → option IngressEvent).
Context (cb : option (IngressEvent → M (list IngressEvent) ())).
Context (reads : ∀ e, validate (dump e) = Some e).
Notation step := (history_step dump validate cb).

Lemma balanced_receive e t : balanced t → balanced (step (Receive e) t).
Proof using reads.
  intros [W P K S O]. cbn. destruct (decide (dedup_key e ∈ _seen (buf t))) as [H|H].
  - unfold receive. rewrite decide_True by done. rewrite app_nil_r. by split.
  - rewrite (receive_new e _ W H). destruct W as [Wk Wn Ws].
    assert (dedup_key e ∉ map fst (_events (buf t))) as Hk by (intros ?; by apply H, Ws).
    split; cbn.
    + split; cbn.
      * apply Forall_app. by repeat constructor.
      * rewrite map_app. apply NoDup_app. split; [done|]. split; [|apply NoDup_singleton].
        intros k Hin ->%list_elem_of_singleton. by apply Hk.
      * intros k. rewrite map_app, elem_of_app. cbn. rewrite list_elem_of_singleton.
        intros [?%Ws| ->]; set_solver.
    + rewrite P, map_app. cbn. by rewrite <-!app_assoc, (Permutation_app_comm (dropped t)).
    + rewrite map_app. apply NoDup_app. split; [done|]. split; [|apply NoDup_singleton].
      intros k Hin ->%list_elem_of_singleton. by apply H, S.
    + intros k. rewrite map_app, elem_of_app, elem_of_union, S. cbn.
      rewrite list_elem_of_singleton, elem_of_singleton. tauto.
    + rewrite map_app, app_assoc. cbn. by apply sublist_app.
Qed.
Lemma balanced_restart t : balanced t → balanced (step Restart t).
Proof using reads.
  intros [W P K S O]. cbn. rewrite (restore_snapshot dump validate reads _ W).
  destruct (unacked_wf (buf t) W) as [Hk Hn]. split; cbn.
  - split; cbn; [done|done|]. intros k Hin. by apply W, unacked_keys.
  - rewrite P. apply Permutation_app_head.
    rewrite (Permutation_app_comm (dropped t)), app_assoc. apply Permutation_app_tail.
    rewrite <-map_app. apply Permutation_map. apply filter_split.
    intros kv. by case_bool_decide; case_bool_decide.
  - done.
  - done.
  - etrans; [|exact O]. apply sublist_app; [done|]. apply map_sublist, filter_sublist.
Qed.
Lemma balanced_step a t : balanced t → balanced (step a t).
Proof using reads.
  intros B. destruct a as [e| | |]; [by apply balanced_receive| | |by apply balanced_restart].
  - destruct B as [[Wk Wn Ws] P K S O]. destruct (persist_frame cb [] (buf t)) as [a Ha].
    unfold history_step. rewrite Ha. split; cbn; [by split|done..].
  - destruct B as [[Wk Wn Ws] P K S O]. cbn. split; cbn; [|by rewrite <-app_assoc|done|done|by rewrite app_nil_r].
    split; cbn; [constructor|constructor|]. intros k H. by apply elem_of_nil in H.
Qed.
Lemma history_balanced l : balanced (history dump validate cb l).
Proof using reads.
  unfold history. assert (balanced (mkTrace IngressBuffer_init [] [] [])) as B.
  { split; cbn; [apply buffer_init_wf|done|constructor|set_solver|done]. }
  revert B. generalize (mkTrace IngressBuffer_init [] [] []).
  induction l as [|a l IH]; intros t B; cbn; [done|]. apply IH. by apply balanced_step.
Qed.
End Account.

Definition is_persist (a : action) : bool := match a with Persist => true | _ => false end.

Lemma nothing_acked dump validate cb l (reads : ∀ e, validate (dump e) = Some e) :
  existsb is_persist l = false →
  _acked (buf (history dump validate cb l)) = ∅ ∧ dropped (history dump validate cb l) = [].
Proof.
  unfold history. assert (balanced (mkTrace IngressBuffer_init [] [] [])) as B.
  { split; cbn; [apply buffer_init_wf|done|constructor|set_solver|done]. }
  set (t := mkTrace _ _ _ _) in *.
  assert (_acked (buf t) = ∅ ∧ dropped t = []) as H by done. clearbody t. revert t B H.
  induction l as [|a l IH]; intros t B H Hl; cbn in *; [done|].
  apply orb_false_iff in Hl as [Ha Hl]. apply IH; [by apply balanced_step| |done].
  destruct H as [H1 H2]. destruct a as [e| | |]; [|done| |].
  - cbn. unfold receive. by case_decide.
  - done.
  - cbn [history_step buf dropped]. rewrite (restore_snapshot dump validate reads _ (bal_wf _ B)). split; [done|].
    rewrite H2, H1. by induction (_events (buf t)).
Qed.

(** ** Theorems *)

(** C35: After any history of arrivals, persists, drains and restarts, the events handed over are in
    order of arrival, each of them accepted and none twice; every accepted event was handed over,
    still waits, or was acknowledged and then dropped by a restart, which never happens to a
    history that does not persist; and a later copy of an accepted event is refused. *)
Theorem ingress_exactly_once dump validate cb l (reads : ∀ e, validate (dump e) = Some e) :
  let t := history dump validate cb l in
  delivered t `sublist_of` accepted t ∧
  NoDup (map dedup_key (delivered t)) ∧
  accepted t ≡ₚ delivered t ++ map snd (_events (buf t)) ++ dropped t ∧
  (existsb is_persist l = false → accepted t = delivered t ++ map snd (_events (buf t))) ∧
  ∀ e, dedup_key e ∈ map dedup_key (accepted t) → receive e (buf t) = (false, buf t).
Proof.
  intros t. pose proof (history_balanced dump validate cb reads l) as B. fold t in B.
  destruct B as [W P K S O]. repeat apply conj.
  - etrans; [|exact O]. apply sublist_inserts_r. done.
  - assert (NoDup (map dedup_key (delivered t ++ map snd (_events (buf t)) ++ dropped t))) as H by by rewrite <-P.
    rewrite map_app in H. by apply NoDup_app in H as (? & _ & _).
  - done.
  - intros Hl. destruct (nothing_acked dump validate cb l reads Hl) as [_ Hd]. fold t in Hd.
    symmetry. apply sublist_full; [done|]. by rewrite P, Hd, app_nil_r.
  - intros e H. unfold receive. by rewrite decide_True by by apply S.
Qed.

(** A dump of the kind the validation library writes, and its reading. *)
Definition priority_of (s : string) : option IngressPriority :=
  List.find (λ p, bool_decide (priority_value p = s)) [LOW; NORMAL; HIGH; URGENT].
Definition sample_dump (e : IngressEvent) : value :=
  VDict [("source", VStr (source e)); ("external_id", VStr (external_id e));
         ("event_type", VStr (event_type e)); ("occurred_at", VStr (occurred_at e));
         ("payload", VDict (payload e)); ("idempotency_key", VStr (idempotency_key e));
         ("priority", VStr (priority_value (priority e)))].
Definition sample_validate (v : value) : option IngressEvent :=
  match v with
  | VDict [(_, VStr s); (_, VStr i); (_, VStr t); (_, VStr o); (_, VDict p); (_, VStr k); (_, VStr r)] =>
      mkIngress s i t o p k <$> priority_of r
  | _ => None
  end.
Lemma sample_reads e : sample_validate (sample_dump e) = Some e.
Proof. by destruct e as [????? ? []]. Qed.
Definition order_paid (i : string) : IngressEvent := mkIngress "taobao" i "order_paid" "t" [] "" NORMAL.

Definition sample_history : list action :=
  [Receive (order_paid "1"); Receive (order_paid "1"); Receive (order_paid "2"); Drain;
   Receive (order_paid "3"); Restart; Receive (order_paid "3"); Drain].
Lemma ingress_exactly_once_witness :
  let t := history sample_dump sample_validate None sample_history in
  delivered t = [order_paid "1"; order_paid "2"; order_paid "3"] ∧ delivered t `sublist_of` accepted t.
Proof.
  split; [vm_compute; reflexivity|].
  exact (proj1 (ingress_exactly_once sample_dump sample_validate None sample_history sample_reads)).
Defined.

(** An event that was acknowledged before a tick took it is dropped by a restart and refused when
    the platform sends it again. *)
Example acked_event_lost :
  let t := history sample_dump sample_validate None
             [Receive (order_paid "1"); Persist; Restart; Receive (order_paid "1"); Drain] in
  accepted t = [order_paid "1"] ∧ delivered t = [] ∧ dropped t = [order_paid "1"].
Proof. vm_compute. done. Qed.
