(* ===== verification/LegacyManifest.v ===== *)
(** * Tool manifests of the previous architecture

    legacy/tool_manifest.py with the isolation constraints of legacy/sandbox_spec.py: the contract
    of a tool with its validation and its derived capability, the policy of a deployment, the
    built-in contracts, and the environment of a sandboxed run.

    Fields have the types their annotations declare.  Letters are lowered and digits read in ASCII. *)

From stdpp Require Import base gmap strings list pretty.
From Stdlib Require Import ZArith Ascii Lia.
From S2P Require Import Prelude PyValue Json Sha256 LlmRuntime LegacyTransaction.

Open Scope string_scope.
Open Scope Z_scope.
Open Scope list_scope.

(** ** Isolation constraints (sandbox_spec.py) *)

Definition STRIP_ENV_PREFIXES : list string := ["PYTHON"].
Definition DEFAULT_SECRET_KEYWORDS : list string :=
  ["token"; "secret"; "password"; "passwd"; "credential"; "apikey"; "auth"].
Definition MINIMAL_PATH : string := "/usr/bin:/bin".
Definition _GIT_UNSET : list string :=
  ["GIT_DIR"; "GIT_WORK_TREE"; "GIT_INDEX_FILE"; "GIT_OBJECT_DIRECTORY"; "GIT_ALTERNATE_OBJECT_DIRECTORIES";
   "GIT_COMMON_DIR"].

Record SandboxConstraints := mkConstraints {
  cpu_seconds : option Z; memory_bytes : option Z; max_processes : option Z; max_file_bytes : option Z;
  strip_env : list string; strip_env_keywords : list string; minimal_path : bool; pin_git_env : bool;
  deny_network : bool; isolated_mount : bool; readonly_binds : list (string * string) }.

Definition negative (o : option Z) : bool := match o with Some z => z <? 0 | None => false end.
Definition constraints_check (c : SandboxConstraints) : res unit :=
  let limits := [("cpu_seconds", cpu_seconds c); ("memory_bytes", memory_bytes c);
                 ("max_processes", max_processes c); ("max_file_bytes", max_file_bytes c)] in
  match List.find (λ nv, negative nv.2) limits with
  | Some (n, _) => Raise (Exn ValueError ("sandbox constraint " +:+ n +:+ " must be >= 0"))
  | None =>
      match List.find (λ p, negb (nonempty p.1) || negb (nonempty p.2)) (readonly_binds c) with
      | Some p => Raise (Exn ValueError ("readonly_binds entries must be (host_src, sandbox_dst) string pairs, got ("
                    +:+ repr_str p.1 +:+ ", " +:+ repr_str p.2 +:+ ")"))
      | None => Ok ()
      end
  end.
Definition describe (c : SandboxConstraints) : value :=
  let opt o := match o with Some z => VInt z | None => VNone end in
  VDict [("cpu_seconds", opt (cpu_seconds c)); ("memory_bytes", opt (memory_bytes c));
         ("max_processes", opt (max_processes c)); ("max_file_bytes", opt (max_file_bytes c));
         ("strip_env", VList (map VStr (strip_env c)));
         ("strip_env_keywords", VList (map VStr (strip_env_keywords c)));
         ("minimal_path", VBool (minimal_path c)); ("pin_git_env", VBool (pin_git_env c));
         ("deny_network", VBool (deny_network c)); ("isolated_mount", VBool (isolated_mount c));
         ("readonly_binds", VList (map (λ p, VList [VStr p.1; VStr p.2]) (readonly_binds c)))].

(** [key.lower().replace("_", "")] *)
Definition normalized (s : string) : string :=
  String.string_of_list_ascii (List.filter (λ c, negb (bool_decide (c = "_"%char)))
    (String.list_ascii_of_string (lower s))).
Definition drop_keys (p : string → bool) (env : dict string) : dict string :=
  List.filter (λ kv, negb (p kv.1)) env.
Definition unset_git (env : dict string) : dict string :=
  foldl (λ e k, dpop k e) (dset "GIT_TERMINAL_PROMPT" "0" (dset "GIT_CONFIG_NOSYSTEM" "1" env)) _GIT_UNSET.
(** The three steps that remove variables. *)
Definition stripped_env (c : SandboxConstraints) (base : dict string) : dict string :=
  let env := drop_keys (λ k, existsb (λ p, startswith p k) STRIP_ENV_PREFIXES) base in
  let env := foldl (λ e k, dpop k e) env (strip_env c) in
  let keywords := map normalized (strip_env_keywords c) in
  match keywords with
  | [] => env
  | _ => drop_keys (λ k, existsb (λ kw, str_contains kw (normalized k)) keywords) env
  end.
Definition sanitized_env (c : SandboxConstraints) (base : dict string) (home : option string) : dict string :=
  let env := stripped_env c base in
  let env := if minimal_path c then dset "PATH" MINIMAL_PATH env else env in
  if pin_git_env c
  then let env := unset_git env in
       match home with Some h => dset "HOME" h env | None => env end
  else env.
Definition pinned_git_env : dict string → dict string := unset_git.

(** ** Manifests *)

Inductive ExecutionClass :=
| PURE | READ_ONLY | LOCAL_DETERMINISTIC | STAGED_MUTATION | LOCAL_PROCESS | SANDBOXED_PROCESS
| EXTERNAL_IRREVERSIBLE.
#[global] Instance ExecutionClass_eq_dec : EqDecision ExecutionClass.
Proof. solve_decision. Defined.
Definition class_value (c : ExecutionClass) : string :=
  match c with
  | PURE => "pure" | READ_ONLY => "read_only" | LOCAL_DETERMINISTIC => "local_deterministic"
  | STAGED_MUTATION => "staged_mutation" | LOCAL_PROCESS => "local_process"
  | SANDBOXED_PROCESS => "sandboxed_process" | EXTERNAL_IRREVERSIBLE => "external_irreversible"
  end.
Inductive RetryPolicy := R_NONE | R_FIXED | R_EXPONENTIAL.
Definition retry_value (r : RetryPolicy) : string :=
  match r with R_NONE => "none" | R_FIXED => "fixed" | R_EXPONENTIAL => "exponential" end.
Definition FILESYSTEM_SCOPES : list string := ["none"; "private"; "shared-kb"; "workspace"; "system"].

Record ToolManifest := mkManifest {
  m_name : string; m_version : string; execution_class : ExecutionClass;
  input_schema : dict value; output_schema : dict value; m_description : string;
  required_inputs : list string; capabilities : list string; effect_types : list EffectType;
  possible_side_effects : list string; deterministic : bool; idempotent : bool; reversible : bool;
  requires_network : bool; filesystem_scopes : list string; max_runtime_ms : option Z;
  max_output_bytes : option Z; supports_cancel : bool; m_requires_approval : bool;
  m_retry : RetryPolicy; sandbox_constraints : option SandboxConstraints; m_device : string;
  capability : string; approval_policy : string; ingress_event_types : list string; egress : string;
  compensation_tool : string }.
Definition set_capability (u : string) (m : ToolManifest) : ToolManifest :=
  mkManifest (m_name m) (m_version m) (execution_class m) (input_schema m) (output_schema m)
    (m_description m) (required_inputs m) (capabilities m) (effect_types m) (possible_side_effects m)
    (deterministic m) (idempotent m) (reversible m) (requires_network m) (filesystem_scopes m)
    (max_runtime_ms m) (max_output_bytes m) (supports_cancel m) (m_requires_approval m) (m_retry m)
    (sandbox_constraints m) (m_device m) u (approval_policy m) (ingress_event_types m) (egress m)
    (compensation_tool m).

(** The text of a tuple of strings, and of the constraints. *)
Definition tuple_repr (l : list string) : string :=
  match l with
  | [x] => "(" +:+ x +:+ ",)"
  | _ => "(" +:+ str_join ", " l +:+ ")"
  end.
Definition opt_repr (o : option Z) : string := match o with Some z => pretty z | None => "None" end.
Definition bool_repr (b : bool) : string := if b then "True" else "False".
Definition constraints_repr (c : SandboxConstraints) : string :=
  "SandboxConstraints(cpu_seconds=" +:+ opt_repr (cpu_seconds c)
  +:+ ", memory_bytes=" +:+ opt_repr (memory_bytes c) +:+ ", max_processes=" +:+ opt_repr (max_processes c)
  +:+ ", max_file_bytes=" +:+ opt_repr (max_file_bytes c)
  +:+ ", strip_env=" +:+ tuple_repr (map repr_str (strip_env c))
  +:+ ", strip_env_keywords=" +:+ tuple_repr (map repr_str (strip_env_keywords c))
  +:+ ", minimal_path=" +:+ bool_repr (minimal_path c) +:+ ", pin_git_env=" +:+ bool_repr (pin_git_env c)
  +:+ ", deny_network=" +:+ bool_repr (deny_network c) +:+ ", isolated_mount=" +:+ bool_repr (isolated_mount c)
  +:+ ", readonly_binds="
  +:+ tuple_repr (map (λ p, tuple_repr [repr_str p.1; repr_str p.2]) (readonly_binds c)) +:+ ")".

(** [json.dumps(v, sort_keys=True, ensure_ascii=False, separators=(",", ":"))] *)
Definition raw_char (c : ascii) : string :=
  let n := ord c in
  if n =? 34 then char_str 92 +:+ char_str 34
  else if n =? 92 then char_str 92 +:+ char_str 92
  else if n =? 10 then "\n" else if n =? 13 then "\r" else if n =? 9 then "\t"
  else if n =? 12 then "\f" else if n =? 8 then "\b"
  else if n <? 32 then "\u" +:+ hex4 n else String c "".
Definition raw_str (s : string) : string :=
  char_str 34 +:+ fold_right String.append "" (map raw_char (String.list_ascii_of_string s)) +:+ char_str 34.
Fixpoint canonical_json (v : value) : string :=
  match v with
  | VStr s => raw_str s
  | VList l => "[" +:+ str_join "," (map canonical_json l) +:+ "]"
  | VDict d =>
      let ds := map (λ kv, (kv.1, canonical_json kv.2)) d in
      "{" +:+ str_join "," (map (λ kv, raw_str kv.1 +:+ ":" +:+ kv.2)
                              (py_sorted (λ a b, String.leb a.1 b.1) ds)) +:+ "}"
  | _ => dumps v
  end.
Definition hash_payload (v : value) : string := hexdigest (canonical_json v).

Definition vstrs (l : list string) : value := VList (map VStr l).
Definition vopt (o : option Z) : value := match o with Some z => VInt z | None => VNone end.
(** The fields of a contract apart from its capability. *)
Definition contract_fields (m : ToolManifest) : dict value :=
  [("name", VStr (m_name m)); ("version", VStr (m_version m));
   ("execution_class", VStr (class_value (execution_class m)));
   ("input_schema", VDict (input_schema m)); ("output_schema", VDict (output_schema m));
   ("description", VStr (m_description m)); ("required_inputs", vstrs (required_inputs m));
   ("capabilities", vstrs (capabilities m));
   ("effect_types", vstrs (map effect_value (effect_types m)));
   ("possible_side_effects", vstrs (possible_side_effects m));
   ("deterministic", VBool (deterministic m)); ("idempotent", VBool (idempotent m));
   ("reversible", VBool (reversible m)); ("requires_network", VBool (requires_network m));
   ("filesystem_scopes", vstrs (filesystem_scopes m)); ("max_runtime_ms", vopt (max_runtime_ms m));
   ("max_output_bytes", vopt (max_output_bytes m)); ("supports_cancel", VBool (supports_cancel m));
   ("requires_approval", VBool (m_requires_approval m)); ("retry_policy", VStr (retry_value (m_retry m)));
   ("sandbox_constraints", match sandbox_constraints m with
                           | Some c => VStr (constraints_repr c) | None => VNone end);
   ("device_id", VStr (m_device m)); ("approval_policy", VStr (approval_policy m));
   ("ingress_event_types", vstrs (ingress_event_types m)); ("egress", VStr (egress m));
   ("compensation_tool", VStr (compensation_tool m))].
Definition manifest_hash (m : ToolManifest) : string :=
  hash_payload (VDict (("capability", VStr (capability m)) :: contract_fields m)).

(** [str(uuid.UUID(bytes=digest[:16], version=5))] of a digest in hexadecimal digits. *)
Definition variant_digit (c : ascii) : list ascii :=
  String.list_ascii_of_string (hex1 (8 + match hex_val c with Some n => n mod 4 | None => 0 end)).
Definition uuid5_chars (l : list ascii) : list ascii :=
  take 8 l ++ ["-"%char] ++ take 4 (drop 8 l) ++ ["-"; "5"]%char ++ take 3 (drop 13 l) ++ ["-"%char]
  ++ match l !! 16%nat with Some c => variant_digit c | None => [] end ++ take 3 (drop 17 l)
  ++ ["-"%char] ++ take 12 (drop 20 l).
Definition uuid5 (digest : string) : string :=
  String.string_of_list_ascii (uuid5_chars (String.list_ascii_of_string digest)).
Definition _derive_capability (m : ToolManifest) : string := uuid5 (hash_payload (VDict (contract_fields m))).

(** Does [uuid.UUID(s)] accept the text?  It removes prefixes, braces and hyphens and reads the
    32 characters left as [int(hex, 16)] does. *)
Fixpoint remove_all (fuel : nat) (sub l : list ascii) : list ascii :=
  match fuel, l with
  | S f, c :: l' => if bool_decide (sub = take (length sub) l) then remove_all f sub (drop (length sub) l)
                    else c :: remove_all f sub l'
  | _, _ => []
  end.
Definition is_brace (c : ascii) : bool := bool_decide (c = "{"%char) || bool_decide (c = "}"%char).
Fixpoint lstrip_brace (l : list ascii) : list ascii :=
  match l with c :: l' => if is_brace c then lstrip_brace l' else l | [] => [] end.
Definition uuid_hex (l : list ascii) : list ascii :=
  let l := remove_all (S (length l)) (String.list_ascii_of_string "urn:") l in
  let l := remove_all (S (length l)) (String.list_ascii_of_string "uuid:") l in
  List.filter (λ c, negb (bool_decide (c = "-"%char))) (rev (lstrip_brace (rev (lstrip_brace l)))).
Fixpoint hex_digits (acc : Z) (last_digit : bool) (l : list ascii) : option Z :=
  match l with
  | [] => if last_digit then Some acc else None
  | c :: l' => match hex_val c with
               | Some d => hex_digits (acc * 16 + d) true l'
               | None => if last_digit && (ord c =? 95) then hex_digits acc false l' else None
               end
  end.
Definition hex_body (l : list ascii) : option Z :=
  match l with
  | "0"%char :: c :: l' =>
      if bool_decide (c = "x"%char) || bool_decide (c = "X"%char)
      then hex_digits 0 false (match l' with "_"%char :: l'' => l'' | _ => l' end)
      else hex_digits 0 false l
  | _ => hex_digits 0 false l
  end.
Definition int16 (l : list ascii) : option Z :=
  match String.list_ascii_of_string (strip (String.string_of_list_ascii l)) with
  | "-"%char :: l' => Z.opp <$> hex_body l'
  | "+"%char :: l' => hex_body l'
  | l' => hex_body l'
  end.
Definition uuid_ok (s : string) : bool :=
  let h := uuid_hex (String.list_ascii_of_string s) in
  (length h =? 32)%nat && match int16 h with Some n => (0 <=? n) && (n <? 2 ^ 128) | None => false end.

(** *** Validation *)

Definition when_ (b : bool) (e : string) : list string := if b then [e] else [].
Definition blank (s : string) : bool := negb (nonempty s) || negb (nonempty (strip s)).
Definition manifest_errors (m : ToolManifest) : list string :=
  let cls := execution_class m in
  let pure := bool_decide (cls = PURE) in
  let has_effects := bool_decide (effect_types m ≠ []) in
  when_ (blank (m_name m)) "name must be a non-empty string"
  ++ when_ (blank (m_version m)) "version must be a non-empty string"
  ++ flat_map (λ ri, when_ (negb (dmem ri (input_schema m)))
                       ("required_input '" +:+ ri +:+ "' is not a key of input_schema")) (required_inputs m)
  ++ flat_map (λ s, when_ (negb (bool_decide (s ∈ FILESYSTEM_SCOPES)))
                       ("invalid filesystem_scope: " +:+ repr_str s)) (filesystem_scopes m)
  ++ when_ (negative (max_runtime_ms m)) "max_runtime_ms must be >= 0"
  ++ when_ (negative (max_output_bytes m)) "max_output_bytes must be >= 0"
  ++ when_ (nonempty (capability m) && negb (uuid_ok (capability m)))
       ("capability must be a uuid, got " +:+ repr_str (capability m))
  ++ when_ ((pure || bool_decide (cls = READ_ONLY)) && has_effects)
       (class_value cls +:+ " tools cannot declare effect_types")
  ++ when_ (bool_decide (cls = STAGED_MUTATION) && negb has_effects)
       "STAGED_MUTATION tools must declare at least one effect_type"
  ++ when_ (pure && negb (deterministic m)) "PURE tools must be deterministic"
  ++ when_ (bool_decide (cls = EXTERNAL_IRREVERSIBLE) && reversible m)
       "EXTERNAL_IRREVERSIBLE tools must declare reversible=False"
  ++ (if decide (cls = SANDBOXED_PROCESS)
      then when_ (match sandbox_constraints m with None => true | _ => false end)
             "SANDBOXED_PROCESS tools must declare sandbox_constraints"
           ++ when_ (requires_network m)
                "SANDBOXED_PROCESS tools deny network by default (requires_network must be False)"
      else when_ (match sandbox_constraints m with Some _ => true | None => false end)
             "sandbox_constraints is only valid for SANDBOXED_PROCESS tools").
(** [ToolManifest(...)]: the checks, and the capability when none is given. *)
Definition new_manifest (m : ToolManifest) : string + ToolManifest :=
  match manifest_errors m with
  | [] => inr (if nonempty (capability m) then m else set_capability (_derive_capability m) m)
  | es => inl ("Invalid manifest '" +:+ m_name m +:+ "': " +:+ str_join "; " es)
  end.
Definition declares_effect (t : EffectType) (m : ToolManifest) : bool := bool_decide (t ∈ effect_types m).

(** ** The policy of a deployment *)

Record PolicyDecision := mkDecision { p_allowed : bool; p_approval : bool; p_reason : string }.
Record OperationPolicy := mkOpPolicy {
  allowed : gset string; requires_approval : gset string; max_wall_time_ms : option Z;
  p_max_output_bytes : option Z; network_access : bool; filesystem_scope : option string;
  p_retry : option RetryPolicy; p_reversible : bool }.
Definition policy_check (p : OperationPolicy) : res unit :=
  let bad e := Raise (Exn ValueError e) in
  if match filesystem_scope p with Some s => negb (bool_decide (s ∈ FILESYSTEM_SCOPES)) | None => false end
  then bad ("invalid policy filesystem_scope: " +:+ repr_str (default "" (filesystem_scope p)))
  else if negative (max_wall_time_ms p) then bad "max_wall_time_ms must be >= 0"
  else if negative (p_max_output_bytes p) then bad "max_output_bytes must be >= 0"
  else if decide (requires_approval p ⊆ allowed p) then Ok ()
  else bad "requires_approval must be a subset of allowed".

(** [a is not None and b is not None and b > a] *)
Definition exceeds (cap v : option Z) : bool :=
  match cap, v with Some c, Some n => c <? n | _, _ => false end.
Definition scope_denial (scope : string) (m : ToolManifest) : option string :=
  let scopes := py_sorted String.leb (remove_dups (filesystem_scopes m)) in
  if decide ("system" ∈ scopes)
  then Some ("Tool '" +:+ m_name m +:+ "' touches host filesystem (scope 'system'); policy allows '"
             +:+ scope +:+ "'")
  else if negb (bool_decide (scopes = ["none"])) && negb (bool_decide (scope ∈ scopes))
  then Some ("Tool '" +:+ m_name m +:+ "' scopes " +:+ repr (vstrs scopes)
             +:+ " outside policy filesystem_scope '" +:+ scope +:+ "'")
  else None.
Definition policy_decide (p : OperationPolicy) (m : ToolManifest) : PolicyDecision :=
  let deny r := mkDecision false false r in
  let name := m_name m in
  if negb (bool_decide (name ∈ allowed p)) then deny ("Tool '" +:+ name +:+ "' not in policy allowlist")
  else if decide (name ∈ requires_approval p)
  then mkDecision true true "Requires human approval per policy"
  else if negb (network_access p) && requires_network m
  then deny ("Tool '" +:+ name +:+ "' requires network; policy denies network")
  else
    match match filesystem_scope p, filesystem_scopes m with
          | Some s, _ :: _ => if nonempty s then scope_denial s m else None
          | _, _ => None
          end with
    | Some r => deny r
    | None =>
        if exceeds (max_wall_time_ms p) (max_runtime_ms m)
        then deny ("Tool '" +:+ name +:+ "' max_runtime_ms " +:+ opt_repr (max_runtime_ms m)
                   +:+ " exceeds policy cap " +:+ opt_repr (max_wall_time_ms p))
        else if exceeds (p_max_output_bytes p) (max_output_bytes m)
        then deny ("Tool '" +:+ name +:+ "' max_output_bytes " +:+ opt_repr (max_output_bytes m)
                   +:+ " exceeds policy cap " +:+ opt_repr (p_max_output_bytes p))
        else if negb (p_reversible p) && negb (reversible m)
        then deny ("Tool '" +:+ name +:+ "' is irreversible; policy denies irreversible tools")
        else mkDecision true false ""
    end.

(** The function-calling definition of a tool: name, description, parameters. *)
Definition manifest_to_tool_definition (m : ToolManifest) : string * string * value :=
  (m_name m, m_description m,
   VDict ([("type", VStr "object"); ("properties", VDict (input_schema m))]
          ++ match required_inputs m with
             | [] => []
             | l => [("required", vstrs (List.filter (λ k, dmem k (input_schema m)) l))]
             end)).

(** ** The built-in tools *)

Definition builtin_read : ToolManifest :=
  mkManifest "read" "1.0.0" READ_ONLY [("path", VDict [("type", VStr "string"); ("description", VStr
    "Path relative to your private workspace")])] [("content", VDict [("type", VStr "string")])]
    "Read a file from your private workspace" ["path"] ["filesystem:read"] [] [] true true true false
    ["private"] None (Some 1000000) false false R_NONE None "" "" "" [] "" "".
Definition builtin_ls : ToolManifest :=
  mkManifest "ls" "1.0.0" READ_ONLY [("path", VDict [("type", VStr "string"); ("description", VStr
    "Directory path relative to workspace")])] [("entries", VDict [("type", VStr "array")])]
    "List files in your private workspace" [] ["filesystem:list"] [] [] true true true false ["private"]
    None (Some 1000000) false false R_NONE None "" "" "" [] "" "".
Definition builtin_write : ToolManifest :=
  mkManifest "write" "1.0.0" STAGED_MUTATION [("path", VDict [("type", VStr "string"); ("description", VStr
    "Path relative to workspace")]); ("content", VDict [("type", VStr "string"); ("description", VStr
    "File content")])] [("staged", VDict [("type", VStr "boolean")])]
    "Write a file to your private workspace" ["path"; "content"] ["filesystem:write"]
    [LegacyTransaction.FILE_WRITE] [] true true true false ["private"] None None false false R_NONE None ""
    "" "" [] "" "".
Definition builtin_kb_write : ToolManifest :=
  mkManifest "kb_write" "1.0.0" STAGED_MUTATION [("path", VDict [("type", VStr "string"); ("description",
    VStr "KB entry path")]); ("content", VDict [("type", VStr "string"); ("description", VStr
    "Entry content")]); ("expected_version", VDict [("type", VStr "integer"); ("description", VStr
    "Expected entry version for optimistic locking")])] [("staged", VDict [("type", VStr "boolean")])]
    "Write an entry to the shared knowledge base" ["path"; "content"] ["kb:write"]
    [LegacyTransaction.KB_WRITE] [] true false true false ["shared-kb"] None None false false R_NONE None
    "" "" "" [] "" "".
Definition builtin_send_email : ToolManifest :=
  mkManifest "send_email" "1.0.0" STAGED_MUTATION [("to", VDict [("type", VStr "array"); ("items", VDict
    [("type", VStr "string")]); ("description", VStr "Recipient agent ids")]); ("subject", VDict [("type",
    VStr "string"); ("description", VStr "Email subject")]); ("body", VDict [("type", VStr "string");
    ("description", VStr "Email body")]); ("attachments", VDict [("type", VStr "array"); ("items", VDict
    [("type", VStr "object")]); ("description", VStr
    "Attachment refs: {ref_type, path, version, hash, size, mime} (e.g. ref_type=shared_kb with a KB path@version)")])]
    [("staged", VDict [("type", VStr "boolean")])]
    "Send an email to another agent (attachments are structured refs — carried on the email, never copied)"
    ["to"; "subject"; "body"] ["email:send"] [LegacyTransaction.EMAIL_SEND] [] true true true false
    ["none"] None (Some 100000) false false R_NONE None "" "" "" [] "" "".
Definition builtin_delegate : ToolManifest :=
  mkManifest "delegate" "1.0.0" STAGED_MUTATION [("recipient_agent_id", VDict [("type", VStr "string");
    ("description", VStr "Direct child agent to delegate to")]); ("task_title", VDict [("type", VStr
    "string"); ("description", VStr "Task title")]); ("task_description", VDict [("type", VStr "string");
    ("description", VStr "Task description")])] [("task_id", VDict [("type", VStr "string")]); ("staged",
    VDict [("type", VStr "boolean")])] "Delegate a task to a direct child agent" ["recipient_agent_id";
    "task_title"] ["task:delegate"] [LegacyTransaction.TASK_CREATE; LegacyTransaction.EMAIL_SEND] [] true
    false true false ["none"] None None false false R_NONE None "" "" "" [] "" "".
Definition builtin_apply_patch : ToolManifest :=
  mkManifest "apply_patch" "1.0.0" STAGED_MUTATION [("path", VDict [("type", VStr "string");
    ("description", VStr "Path relative to workspace")]); ("patch", VDict [("type", VStr "string");
    ("description", VStr "Unified diff patch to apply")])] [("staged", VDict [("type", VStr "boolean")])]
    "Apply a patch to a file in your private workspace" ["path"; "patch"] ["filesystem:patch"]
    [LegacyTransaction.FILE_PATCH] [] true false true false ["private"] None (Some 1000000) false false
    R_NONE None "" "" "" [] "" "".
Definition builtin_run_tests : ToolManifest :=
  mkManifest "run_tests" "2.0.0" SANDBOXED_PROCESS [("test_path", VDict [("type", VStr "string");
    ("description", VStr "Path to test file or directory")])] [("success", VDict [("type", VStr
    "boolean")]); ("stdout", VDict [("type", VStr "string")]); ("stderr", VDict [("type", VStr "string")]);
    ("exit_code", VDict [("type", VStr "integer")])] "Run tests in the workspace and report results"
    ["test_path"] ["test:run"] [] [] false true true false ["workspace"] (Some 60000) (Some 200000) true
    false R_NONE (Some (mkConstraints (Some 60) (Some 536870912) (Some 64) (Some 16777216) ["PYTHONPATH";
    "PYTHONHOME"; "PYTHONSTARTUP"; "PYTHONUSERBASE"] DEFAULT_SECRET_KEYWORDS true true true true [])) "" ""
    "" [] "" "".
Definition builtin_git_diff : ToolManifest :=
  mkManifest "git_diff" "1.0.0" READ_ONLY [("path", VDict [("type", VStr "string"); ("description", VStr
    "Path to show diff for")])] [("stdout", VDict [("type", VStr "string")])]
    "Show the diff of the workspace git repository" ["path"] ["git:diff"] [] [] false true true false
    ["workspace"] (Some 10000) (Some 200000) false false R_NONE None "" "" "" [] "" "".
Definition builtin_git_status : ToolManifest :=
  mkManifest "git_status" "1.0.0" READ_ONLY [] [("stdout", VDict [("type", VStr "string")])]
    "Show the status of the workspace git repository" [] ["git:status"] [] [] false true true false
    ["workspace"] (Some 10000) (Some 200000) false false R_NONE None "" "" "" [] "" "".
Definition builtin_python_compute : ToolManifest :=
  mkManifest "python_compute" "1.0.0" LOCAL_PROCESS [("code", VDict [("type", VStr "string");
    ("description", VStr "Python code to execute")]); ("inputs", VDict [("type", VStr "object");
    ("description", VStr "Input values")]); ("allowed_modules", VDict [("type", VStr "array");
    ("description", VStr "Modules allowed to import")])] [("result", VDict [("type", VStr "object")])]
    "Run a pure Python computation (no filesystem side effects)" ["code"] ["python:compute"] []
    ["possible_fs_access"; "possible_process_spawn"] false true true false ["none"] (Some 10000) (Some
    200000) true false R_NONE None "" "" "" [] "" "".
Definition builtin_python_transform : ToolManifest :=
  mkManifest "python_transform" "1.0.0" LOCAL_PROCESS [("code", VDict [("type", VStr "string");
    ("description", VStr "Python code to execute")]); ("inputs", VDict [("type", VStr "object");
    ("description", VStr "Input values")]); ("input_files", VDict [("type", VStr "object"); ("description",
    VStr "File inputs (path → content)")]); ("allowed_modules", VDict [("type", VStr "array");
    ("description", VStr "Modules allowed to import")])] [("result", VDict [("type", VStr "object")]);
    ("artifacts", VDict [("type", VStr "array")])] "Run a Python transformation over workspace files"
    ["code"] ["python:transform"] [] ["file_write_local"; "possible_fs_access"] false false true false
    ["workspace"] (Some 30000) (Some 200000) true false R_NONE None "" "" "" [] "" "".
Definition builtin_kb_read : ToolManifest :=
  mkManifest "kb_read" "1.0.0" READ_ONLY [("path", VDict [("type", VStr "string"); ("description", VStr
    "KB entry path")])] [("content", VDict [("type", VStr "string")]); ("version", VDict [("type", VStr
    "integer")]); ("last_modified_by", VDict [("type", VStr "string")]); ("last_modified_at_tick", VDict
    [("type", VStr "integer")])] "Read an entry from the shared knowledge base" ["path"] ["kb:read"] [] []
    true true true false ["shared-kb"] None (Some 1000000) false false R_NONE None "" "" "" [] "" "".
Definition builtin_kb_list : ToolManifest :=
  mkManifest "kb_list" "1.0.0" READ_ONLY [("base_path", VDict [("type", VStr "string"); ("description",
    VStr "KB prefix to list under ('' = all readable)")])] [("paths", VDict [("type", VStr "array");
    ("items", VDict [("type", VStr "string")])])] "List shared knowledge base paths under a prefix" []
    ["kb:list"] [] [] true true true false ["shared-kb"] None (Some 200000) false false R_NONE None "" ""
    "" [] "" "".
Definition builtin_kb_search : ToolManifest :=
  mkManifest "kb_search" "1.0.0" READ_ONLY [("query", VDict [("type", VStr "string"); ("description", VStr
    "Search keywords")]); ("base_path", VDict [("type", VStr "string"); ("description", VStr
    "Scope the search to a KB prefix")]); ("limit", VDict [("type", VStr "integer"); ("description", VStr
    "Max hits (default 20)")])] [("results", VDict [("type", VStr "array"); ("items", VDict [("type", VStr
    "object")])])]
    "Keyword search readable shared knowledge base entries (case-insensitive substring on path or content)"
    ["query"] ["kb:search"] [] [] true true true false ["shared-kb"] None (Some 200000) false false R_NONE
    None "" "" "" [] "" "".
Definition builtin_record_upsert : ToolManifest :=
  mkManifest "record_upsert" "1.0.0" STAGED_MUTATION [("record_type", VDict [("type", VStr "string");
    ("description", VStr "Registered record type (e.g. sku)")]); ("key", VDict [("type", VStr "string");
    ("description", VStr "Record key")]); ("record", VDict [("type", VStr "object"); ("description", VStr
    "Record fields")])] [("staged", VDict [("type", VStr "boolean")])]
    "Upsert a typed record (invariant-checked at commit)" ["record_type"; "key"; "record"]
    ["record:upsert"] [LegacyTransaction.RECORD_UPSERT] [] true false true false ["none"] None (Some
    100000) false false R_NONE None "" "" "" [] "" "".
Definition builtin_record_delta : ToolManifest :=
  mkManifest "record_delta" "1.0.0" STAGED_MUTATION [("record_type", VDict [("type", VStr "string");
    ("description", VStr "Registered record type")]); ("key", VDict [("type", VStr "string");
    ("description", VStr "Record key")]); ("field", VDict [("type", VStr "string"); ("description", VStr
    "Numeric field to adjust")]); ("delta", VDict [("type", VStr "number"); ("description", VStr
    "Delta (signed)")])] [("staged", VDict [("type", VStr "boolean")])]
    "Apply a numeric delta to a record field (e.g. stock movement; invariants checked on the result)"
    ["record_type"; "key"; "field"; "delta"] ["record:delta"] [LegacyTransaction.RECORD_DELTA] [] true
    false true false ["none"] None (Some 100000) false false R_NONE None "" "" "" [] "" "".
Definition builtin_memory_fold : ToolManifest :=
  mkManifest "memory_fold" "1.0.0" STAGED_MUTATION [("entry_id", VDict [("type", VStr "string");
    ("description", VStr "Entry to fold")]); ("content_text", VDict [("type", VStr "string");
    ("description", VStr "Condensed content text")]); ("title", VDict [("type", VStr "string");
    ("description", VStr "New title (optional)")]); ("memory_points", VDict [("type", VStr "array");
    ("items", VDict [("type", VStr "string")]); ("description", VStr "New trigger words (optional)")])]
    [("entry_id", VDict [("type", VStr "string")]); ("version", VDict [("type", VStr "integer")])]
    "Fold a memory entry's version chain into one condensed entry (consolidation)" ["entry_id";
    "content_text"] ["memory:fold"] [LegacyTransaction.MEMORY_ENTRY_FOLD] [] true false true false ["none"]
    None None false false R_NONE None "" "" "" [] "" "".
Definition builtin_memory_promote : ToolManifest :=
  mkManifest "memory_promote" "1.0.0" STAGED_MUTATION [("entry_id", VDict [("type", VStr "string");
    ("description", VStr "Source entry to promote (optional)")]); ("title", VDict [("type", VStr "string");
    ("description", VStr "Skill title (optional)")]); ("sop_text", VDict [("type", VStr "string");
    ("description", VStr "SOP text (optional)")]); ("applies_to", VDict [("type", VStr "array"); ("items",
    VDict [("type", VStr "string")]); ("description", VStr "Applicable scenarios")]); ("memory_points",
    VDict [("type", VStr "array"); ("items", VDict [("type", VStr "string")]); ("description", VStr
    "Trigger words")]); ("task_id", VDict [("type", VStr "string"); ("description", VStr
    "Task id for result provenance")]); ("outcome", VDict [("type", VStr "string"); ("description", VStr
    "Outcome label (completed/failed/...)")]); ("note", VDict [("type", VStr "string"); ("description",
    VStr "Provenance note")])] [("entry_id", VDict [("type", VStr "string")]); ("version", VDict [("type",
    VStr "integer")])]
    "Promote an entry/note into a long-term skill entry (optionally linked to a task result as provenance)"
    [] ["memory:promote"] [LegacyTransaction.MEMORY_ENTRY_WRITE] [] true false true false ["none"] None
    None false false R_NONE None "" "" "" [] "" "".
Definition builtin_memory_edit : ToolManifest :=
  mkManifest "memory_edit" "1.0.0" STAGED_MUTATION [("entry_id", VDict [("type", VStr "string");
    ("description", VStr "Entry to edit")]); ("content_text", VDict [("type", VStr "string");
    ("description", VStr "New content text (optional)")]); ("title", VDict [("type", VStr "string");
    ("description", VStr "New title (optional)")]); ("memory_points", VDict [("type", VStr "array");
    ("items", VDict [("type", VStr "string")]); ("description", VStr "New trigger words (optional)")])]
    [("entry_id", VDict [("type", VStr "string")]); ("version", VDict [("type", VStr "integer")])]
    "Edit a memory entry (appends a new immutable version)" ["entry_id"] ["memory:edit"]
    [LegacyTransaction.MEMORY_ENTRY_WRITE] [] true false true false ["none"] None None false false R_NONE
    None "" "" "" [] "" "".
Definition builtin_memory_retag : ToolManifest :=
  mkManifest "memory_retag" "1.0.0" STAGED_MUTATION [("entry_id", VDict [("type", VStr "string");
    ("description", VStr "Entry to retag")]); ("memory_points", VDict [("type", VStr "array"); ("items",
    VDict [("type", VStr "string")]); ("description", VStr "New trigger words (full replace)")])]
    [("entry_id", VDict [("type", VStr "string")]); ("version", VDict [("type", VStr "integer")])]
    "Retag a memory entry (maintain its trigger words, appends a new version)" ["entry_id";
    "memory_points"] ["memory:retag"] [LegacyTransaction.MEMORY_ENTRY_WRITE] [] true false true false
    ["none"] None None false false R_NONE None "" "" "" [] "" "".
Definition builtin_memory_evict : ToolManifest :=
  mkManifest "memory_evict" "1.0.0" STAGED_MUTATION [("entry_id", VDict [("type", VStr "string");
    ("description", VStr "Entry to evict")])] [("entry_id", VDict [("type", VStr "string")])]
    "Evict a memory entry from the working set (removes from store; journal effect is reversible)"
    ["entry_id"] ["memory:evict"] [LegacyTransaction.MEMORY_ENTRY_EVICT] [] true false true false ["none"]
    None None false false R_NONE None "" "" "" [] "" "".
Definition builtin_memory_pin : ToolManifest :=
  mkManifest "memory_pin" "1.0.0" STAGED_MUTATION [("entry_id", VDict [("type", VStr "string");
    ("description", VStr "Entry to pin")])] [("entry_id", VDict [("type", VStr "string")]); ("added_terms",
    VDict [("type", VStr "array")])]
    "Pin a memory entry: merge its title and trigger words into the controlled query terms (protect from recall degradation)"
    ["entry_id"] ["memory:pin"] [LegacyTransaction.MEMORY_PIN] [] true false true false ["none"] None None
    false false R_NONE None "" "" "" [] "" "".
(** The dict of the tools, or the first error. *)
Fixpoint collect (l : list (string + ToolManifest)) (d : dict ToolManifest) : string + dict ToolManifest :=
  match l with
  | [] => inr d
  | inl e :: _ => inl e
  | inr m :: l' => collect l' (dset (m_name m) m d)
  end.
Definition builtins : list ToolManifest :=
    [builtin_read; builtin_ls; builtin_write; builtin_kb_write; builtin_send_email; builtin_delegate;
     builtin_apply_patch; builtin_run_tests; builtin_git_diff; builtin_git_status; builtin_python_compute;
     builtin_python_transform; builtin_kb_read; builtin_kb_list; builtin_kb_search; builtin_record_upsert;
     builtin_record_delta; builtin_memory_fold; builtin_memory_promote; builtin_memory_edit; builtin_memory_retag;
     builtin_memory_evict; builtin_memory_pin].
Definition builtin_manifests : string + dict ToolManifest := collect (map new_manifest builtins) [].

(** ** The environment of a sandboxed run *)

Lemma dget_drop_keys p k d : dget k (drop_keys p d) = if p k then None else dget k d.
Proof.
  unfold drop_keys. induction d as [|[k' v] d IH]; simpl; [by destruct (p k)|].
  destruct (p k') eqn:Ep; simpl; rewrite IH; destruct (decide (k = k')) as [->|Hn]; rewrite ?Ep; done.
Qed.
Lemma dget_dpops k (ks : list string) (d : dict string) :
  dget k (foldl (λ e k, dpop k e) d ks) = if decide (k ∈ ks) then None else dget k d.
Proof.
  revert d. induction ks as [|k' ks IH]; intros d; simpl; [done|]. rewrite IH, dget_dpop.
  destruct (decide (k ∈ ks)) as [Hin|Hin].
  - by rewrite decide_True by by right.
  - destruct (decide (k = k')) as [->|Hn]; destruct (decide _) as [Hd|Hd]; set_solver.
Qed.
Lemma dget_unset_git k env :
  dget k (unset_git env) =
    if decide (k ∈ _GIT_UNSET) then None
    else if decide (k = "GIT_TERMINAL_PROMPT") then Some "0"
    else if decide (k = "GIT_CONFIG_NOSYSTEM") then Some "1" else dget k env.
Proof. unfold unset_git. rewrite dget_dpops. destruct (decide _); [done|]. by rewrite !dget_dset. Qed.

(** The variables a sandbox sets itself. *)
Definition pinned (c : SandboxConstraints) (home : option string) (k v : string) : Prop :=
  (minimal_path c = true ∧ k = "PATH" ∧ v = MINIMAL_PATH) ∨
  (pin_git_env c = true ∧
     (k = "GIT_TERMINAL_PROMPT" ∧ v = "0" ∨ k = "GIT_CONFIG_NOSYSTEM" ∧ v = "1" ∨ k = "HOME" ∧ home = Some v)).
Definition stripped (c : SandboxConstraints) (k : string) : bool :=
  existsb (λ p, startswith p k) STRIP_ENV_PREFIXES || bool_decide (k ∈ strip_env c)
  || existsb (λ kw, str_contains kw (normalized k)) (map normalized (strip_env_keywords c)).

Lemma dget_stripped c base k :
  dget k (stripped_env c base) = if stripped c k then None else dget k base.
Proof.
  assert (dget k (foldl (λ e k, dpop k e) (drop_keys (λ k, existsb (λ p, startswith p k) STRIP_ENV_PREFIXES) base)
                    (strip_env c))
          = if existsb (λ p, startswith p k) STRIP_ENV_PREFIXES || bool_decide (k ∈ strip_env c)
            then None else dget k base) as H.
  { rewrite dget_dpops, dget_drop_keys.
    destruct (decide (k ∈ strip_env c)); [rewrite bool_decide_true, orb_true_r by done; done|].
    rewrite bool_decide_false, orb_false_r by done. by destruct (existsb _ _). }
  unfold stripped, stripped_env. cbv zeta.
  destruct (map normalized (strip_env_keywords c)) as [|kw kws] eqn:E.
  - rewrite H. cbn [existsb]. by rewrite orb_false_r.
  - rewrite dget_drop_keys, H.
    set (b := existsb (λ kw0, str_contains kw0 (normalized k)) (kw :: kws)).
    destruct b; [by rewrite orb_true_r|by rewrite orb_false_r].
Qed.

(** Every variable of a sandboxed run is one the sandbox sets itself, or an inherited one that
    is neither an interpreter variable, nor named for removal, nor named like a secret, nor, when
    git is pinned, one that redirects git; and every such inherited variable that the sandbox does
    not set is passed on unchanged. *)
Theorem sanitized_env_clean c base home k :
  (∀ v, dget k (sanitized_env c base home) = Some v →
     pinned c home k v ∨
     (dget k base = Some v ∧ stripped c k = false ∧ (pin_git_env c = true → k ∉ _GIT_UNSET))) ∧
  (∀ v, dget k base = Some v → stripped c k = false → (pin_git_env c = true → k ∉ _GIT_UNSET) →
     (∀ w, ¬ pinned c home k w) → dget k (sanitized_env c base home) = Some v).
Proof.
  unfold sanitized_env. cbv zeta. pose proof (dget_stripped c base k) as H.
  generalize dependent (stripped_env c base). intros env H. unfold pinned.
  destruct (pin_git_env c) eqn:Ep.
  - assert (dget k (if minimal_path c then dset "PATH" MINIMAL_PATH env else env)
      = if decide (minimal_path c = true ∧ k = "PATH") then Some MINIMAL_PATH
        else if stripped c k then None else dget k base) as H'.
    { destruct (minimal_path c); rewrite ?dget_dset, H; repeat case_decide; naive_solver. }
    assert (dget k (match home with
                    | Some h => dset "HOME" h (unset_git (if minimal_path c then dset "PATH" MINIMAL_PATH env else env))
                    | None => unset_git (if minimal_path c then dset "PATH" MINIMAL_PATH env else env) end)
      = match home with
        | Some h => if decide (k = "HOME") then Some h else
            dget k (unset_git (if minimal_path c then dset "PATH" MINIMAL_PATH env else env))
        | None => dget k (unset_git (if minimal_path c then dset "PATH" MINIMAL_PATH env else env)) end) as ->.
    { destruct home; [by rewrite dget_dset|done]. }
    rewrite dget_unset_git, H'.
    destruct home as [h|]; repeat case_decide; destruct (stripped c k); naive_solver.
  - destruct (minimal_path c); rewrite ?dget_dset, H; destruct (stripped c k); repeat case_decide; naive_solver.
Qed.

(** ** A stricter policy allows less *)

(** No cap at all is the loosest cap. *)
Definition cap_le (a b : option Z) : Prop :=
  match a, b with _, None => True | Some x, Some y => x ≤ y | None, Some _ => False end.
Record stricter (p q : OperationPolicy) : Prop := mkStricter {
  st_allowed : allowed p ⊆ allowed q;
  st_approval : requires_approval p = requires_approval q;
  st_wall : cap_le (max_wall_time_ms p) (max_wall_time_ms q);
  st_output : cap_le (p_max_output_bytes p) (p_max_output_bytes q);
  st_network : network_access p = true → network_access q = true;
  st_scope : filesystem_scope q = None ∨ filesystem_scope p = filesystem_scope q;
  st_reversible : p_reversible p = true → p_reversible q = true }.

Lemma exceeds_mono a b v : cap_le a b → exceeds a v = false → exceeds b v = false.
Proof. destruct a, b, v; simpl; rewrite ?Z.ltb_ge; naive_solver lia. Qed.

(** Tightening a policy, with the same tools under approval, never allows a tool that the
    looser one denies, and never turns a decision that needs approval into one that does not. *)
Theorem stricter_policy_allows_less p q m :
  stricter p q → p_allowed (policy_decide p m) = true →
  p_allowed (policy_decide q m) = true ∧
  p_approval (policy_decide q m) = p_approval (policy_decide p m).
Proof.
  intros [Ha Hap Hw Ho Hn Hs Hr]. unfold policy_decide. rewrite Hap.
  case_bool_decide as Hin; [|done]. cbn [negb]. rewrite bool_decide_true by set_solver. cbn [negb].
  destruct (decide (m_name m ∈ requires_approval q)); [done|].
  destruct (negb (network_access p) && requires_network m) eqn:En; [done|].
  assert (negb (network_access q) && requires_network m = false) as ->.
  { destruct (network_access q), (requires_network m), (network_access p); naive_solver. }
  destruct (match filesystem_scope p, filesystem_scopes m with
            | Some s, _ :: _ => if nonempty s then scope_denial s m else None
            | _, _ => None end) eqn:Ef; [done|].
  assert (match filesystem_scope q, filesystem_scopes m with
          | Some s, _ :: _ => if nonempty s then scope_denial s m else None
          | _, _ => None end = None) as ->.
  { destruct Hs as [->| <-]; done. }
  destruct (exceeds (max_wall_time_ms p) _) eqn:E1; [done|]. rewrite (exceeds_mono _ _ _ Hw E1).
  destruct (exceeds (p_max_output_bytes p) _) eqn:E2; [done|]. rewrite (exceeds_mono _ _ _ Ho E2).
  destruct (negb (p_reversible p) && negb (reversible m)) eqn:E3; [done|].
  assert (negb (p_reversible q) && negb (reversible m) = false) as ->; [|done].
  destruct (p_reversible q), (reversible m), (p_reversible p); naive_solver.
Qed.

(** An allowed tool that needs no approval respects every limit. *)
Lemma allowed_within_limits p m :
  p_allowed (policy_decide p m) = true → p_approval (policy_decide p m) = false →
  m_name m ∈ allowed p ∧ (requires_network m = true → network_access p = true) ∧
  exceeds (max_wall_time_ms p) (max_runtime_ms m) = false ∧
  exceeds (p_max_output_bytes p) (max_output_bytes m) = false ∧
  (reversible m = false → p_reversible p = true).
Proof.
  unfold policy_decide. case_bool_decide as Hin; [|done]. cbn [negb].
  destruct (decide (m_name m ∈ requires_approval p)); [done|].
  destruct (negb (network_access p) && requires_network m) eqn:En; [done|].
  destruct (match filesystem_scope p, filesystem_scopes m with
            | Some s, _ :: _ => if nonempty s then scope_denial s m else None
            | _, _ => None end); [done|].
  destruct (exceeds (max_wall_time_ms p) _); [done|]. destruct (exceeds (p_max_output_bytes p) _); [done|].
  destruct (negb (p_reversible p) && negb (reversible m)) eqn:E3; [done|]. intros _ _.
  split_and!; [done| |done|done|].
  - intros E. rewrite E in En. by destruct (network_access p).
  - intros E. rewrite E in E3. by destruct (p_reversible p).
Qed.

(** ** Derived capabilities are uuids *)

Definition is_hex (c : ascii) : bool := match hex_val c with Some _ => true | None => false end.
(** A character of the text of a uuid. *)
Definition uuid_char (c : ascii) : bool := is_hex c || bool_decide (c = "-"%char).

Lemma hex_char_is_hex c : hex_char c → is_hex c = true.
Proof.
  intros (n & Hn & E). unfold hex1, char_str in E. injection E as <-.
  assert (n ∈ map Z.of_nat (seq 0 16)) as Hin.
  { apply list_elem_of_fmap. exists (Z.to_nat n). split; [lia|]. apply elem_of_seq. lia. }
  repeat (apply elem_of_cons in Hin as [->|Hin]; [done|]). by apply elem_of_nil in Hin.
Qed.
(** All characters, for facts that are checked on each. *)
Definition all_ascii : list ascii := map (λ n, ascii_of_nat n) (seq 0 256).
Lemma all_ascii_elem c : c ∈ all_ascii.
Proof.
  apply list_elem_of_fmap. exists (nat_of_ascii c). split; [by rewrite ascii_nat_embedding|].
  apply elem_of_seq. pose proof (nat_ascii_bounded c). lia.
Qed.
Lemma check_chars (p q : ascii → bool) :
  forallb (λ c, negb (p c) || q c) all_ascii = true → ∀ c, p c = true → q c = true.
Proof.
  intros H c Hc. rewrite forallb_forall in H.
  assert (negb (p c) || q c = true) as E by (apply H, list_elem_of_In, all_ascii_elem). by rewrite Hc in E.
Qed.
Lemma remove_all_clean u sub l fuel :
  (length l < fuel)%nat → u ∉ l → remove_all fuel (u :: sub) l = l.
Proof.
  revert l. induction fuel as [|fuel IH]; intros l Hf Hu; [lia|]. destruct l as [|c l]; [done|].
  cbn [remove_all]. rewrite bool_decide_false.
  - f_equal. apply IH; [simpl in Hf; lia|]. intros ?. apply Hu. by right.
  - cbn [length take]. intros E. injection E as -> _. apply Hu. left.
Qed.
Lemma lstrip_brace_clean l : (∀ c, c ∈ l → is_brace c = false) → lstrip_brace l = l.
Proof. destruct l as [|c l]; [done|]. intros H. simpl. by rewrite (H c) by left. Qed.
Lemma uuid_hex_clean l :
  Forall (λ c, uuid_char c = true) l →
  uuid_hex l = List.filter (λ c, negb (bool_decide (c = "-"%char))) l.
Proof.
  intros H. rewrite Forall_forall in H. unfold uuid_hex.
  assert (∀ u, uuid_char u = false → u ∉ l) as Hu.
  { intros u Hu Hin. apply H in Hin. congruence. }
  cbn [String.list_ascii_of_string].
  do 2 rewrite (remove_all_clean "u"%char _ l) by (lia || by apply Hu).
  assert (∀ c, c ∈ l → is_brace c = false) as Hb.
  { intros c Hc. apply H in Hc. apply negb_true_iff.
    revert c Hc. apply (check_chars uuid_char (λ c, negb (is_brace c))). by vm_compute. }
  rewrite (lstrip_brace_clean l) by done. rewrite lstrip_brace_clean, rev_involutive; [done|].
  intros c Hc. apply Hb. by rewrite <-(rev_involutive l), elem_of_rev.
Qed.

(** Digits read one by one. *)
Fixpoint hex_value (acc : Z) (l : list ascii) : Z :=
  match l with [] => acc | c :: l' => hex_value (acc * 16 + default 0 (hex_val c)) l' end.
Lemma hex_digits_all l acc b :
  Forall (λ c, is_hex c = true) l → l ≠ [] ∨ b = true → hex_digits acc b l = Some (hex_value acc l).
Proof.
  revert acc b. induction l as [|c l IH]; intros acc b Hl Hb; simpl.
  - by destruct Hb as [| ->].
  - apply Forall_cons in Hl as [Hc Hl]. unfold is_hex in Hc. destruct (hex_val c) as [n|]; [|done].
    simpl. apply IH; auto.
Qed.
Lemma hex_val_bound c n : hex_val c = Some n → 0 ≤ n < 16.
Proof.
  intros E. pose proof (check_chars is_hex
    (λ c, match hex_val c with Some n => (0 <=? n) && (n <? 16) | None => false end)
    ltac:(by vm_compute) c) as H. unfold is_hex in H.
  rewrite E in H. specialize (H eq_refl). apply andb_true_iff in H as [?%Z.leb_le ?%Z.ltb_lt]. lia.
Qed.
Lemma hex_value_bound l acc :
  Forall (λ c, is_hex c = true) l → 0 ≤ acc →
  0 ≤ hex_value acc l < (acc + 1) * 16 ^ Z.of_nat (length l).
Proof.
  revert acc. induction l as [|c l IH]; intros acc Hl Ha; simpl; [lia|].
  apply Forall_cons in Hl as [Hc Hl]. unfold is_hex in Hc. destruct (hex_val c) as [n|] eqn:E; [|done].
  apply hex_val_bound in E. simpl. destruct (IH (acc * 16 + n) Hl) as [H1 H2]; [lia|]. split; [done|].
  eapply Z.lt_le_trans; [exact H2|]. change (length (c :: l)) with (S (length l)).
  rewrite Nat2Z.inj_succ, Z.pow_succ_r by lia. nia.
Qed.
Lemma utf8_chars_single l :
  Forall (λ c, utf8_cont c = false) l →
  utf8_chars (String.string_of_list_ascii l) = map (λ c, String c "") l.
Proof.
  induction 1 as [|c l Hc Hl IH]; [done|]. cbn [String.string_of_list_ascii utf8_chars map]. rewrite IH.
  destruct Hl as [|c' l Hc' Hl]; [done|]. simpl. by rewrite Hc'.
Qed.
Lemma lstrip_clean l : (∀ c, c ∈ l → c ∉ WHITESPACE) → lstrip l = l.
Proof. destruct l as [|c l]; [done|]. intros H. simpl. rewrite bool_decide_false; [done|]. apply H. left. Qed.
Lemma strip_hex l :
  Forall (λ c, is_hex c = true) l → strip (String.string_of_list_ascii l) = String.string_of_list_ascii l.
Proof.
  intros Hl. rewrite Forall_forall in Hl. unfold strip. rewrite utf8_chars_single.
  2:{ apply Forall_forall. intros c Hc%Hl. apply negb_true_iff. revert c Hc.
      apply (check_chars is_hex (λ c, negb (utf8_cont c))). by vm_compute. }
  assert (∀ s, s ∈ map (λ c, String c "") l → s ∉ WHITESPACE) as Hw.
  { intros s (c & -> & Hc%Hl)%list_elem_of_fmap Hin. revert Hin. apply (bool_decide_eq_true _).
    revert c Hc. apply (check_chars is_hex (λ c, bool_decide (String c "" ∉ WHITESPACE))). by vm_compute. }
  rewrite (lstrip_clean (map _ l)) by done. rewrite lstrip_clean, rev_involutive.
  - clear. induction l as [|c l IH]; [done|]. cbn [map fold_right String.string_of_list_ascii].
    rewrite IH. done.
  - intros s Hs. apply Hw. by rewrite <-(rev_involutive (map _ l)), elem_of_rev.
Qed.
Lemma int16_hex l :
  Forall (λ c, is_hex c = true) l → l ≠ [] → int16 l = Some (hex_value 0 l).
Proof.
  intros Hl Hn. unfold int16. rewrite strip_hex, String.list_ascii_of_string_of_list_ascii by done.
  assert (∀ c, c ∈ l → is_hex c = true) as Hc by (by apply Forall_forall).
  assert (hex_body l = Some (hex_value 0 l)) as Hb.
  { unfold hex_body. rewrite <-(hex_digits_all l 0 false) by auto.
    destruct l as [|c [|c' l]]; [done|by repeat case_match|].
    assert (is_hex c' = true) as H' by (apply Hc; right; left).
    assert (bool_decide (c' = "x"%char) || bool_decide (c' = "X"%char) = false) as Hx.
    { apply orb_false_iff. split; apply bool_decide_false; intros ->; done. }
    destruct c as [[] [] [] [] [] [] [] []]; try done; by rewrite Hx. }
  destruct l as [|c l]; [done|]. assert (is_hex c = true) as H by (apply Hc; left).
  destruct c as [[] [] [] [] [] [] [] []]; done.
Qed.

Lemma filter_hex l :
  Forall (λ c, is_hex c = true) l → List.filter (λ c, negb (bool_decide (c = "-"%char))) l = l.
Proof.
  induction 1 as [|c l Hc _ IH]; [done|]. cbn [List.filter]. rewrite IH, bool_decide_false; [done|].
  by intros ->.
Qed.
Lemma hex_uuid_chars l : Forall (λ c, is_hex c = true) l → Forall (λ c, uuid_char c = true) l.
Proof. intros H. eapply Forall_impl; [exact H|]. intros c Hc. unfold uuid_char. by rewrite Hc. Qed.
Lemma variant_digit_hex c : is_hex c = true → ∃ d, variant_digit c = [d] ∧ is_hex d = true.
Proof.
  intros Hc. eexists. split; [unfold variant_digit, hex1, char_str; reflexivity|]. revert c Hc.
  apply (check_chars is_hex (λ c, is_hex (chr (if 8 + match hex_val c with Some n => n mod 4 | None => 0 end <? 10
    then 48 + (8 + match hex_val c with Some n => n mod 4 | None => 0 end)
    else 87 + (8 + match hex_val c with Some n => n mod 4 | None => 0 end))))). by vm_compute.
Qed.

(** The capability derived for any contract is accepted as a uuid, so a manifest that leaves its
    capability out is never refused for it. *)
Theorem derived_capability_is_uuid m : uuid_ok (_derive_capability m) = true.
Proof.
  unfold _derive_capability, uuid5, uuid_ok. rewrite String.list_ascii_of_string_of_list_ascii.
  destruct (hexdigest_chars (canonical_json (VDict (contract_fields m)))) as [Hd Hlen].
  unfold hash_payload. rewrite str_length_list in Hlen. unfold chars_ok in Hd.
  generalize dependent (String.list_ascii_of_string (hexdigest (canonical_json (VDict (contract_fields m))))).
  intros l Hd Hlen.
  assert (Forall (λ c, is_hex c = true) l) as Hh by (eapply Forall_impl; [exact Hd|apply hex_char_is_hex]).
  destruct (lookup_lt_is_Some_2 l 16) as [c Hc]; [lia|].
  destruct (variant_digit_hex c) as (d & Hv & Hdh).
  { rewrite Forall_forall in Hh. apply Hh. by eapply list_elem_of_lookup_2. }
  unfold uuid5_chars. rewrite Hc, Hv.
  assert (∀ n k, Forall (λ c, is_hex c = true) (take n (drop k l))) as Hp by (intros; by apply Forall_take, Forall_drop).
  assert (Forall (λ c, is_hex c = true) (take 8 l)) as Hp0 by (by apply Forall_take).
  rewrite uuid_hex_clean by (rewrite !Forall_app; split_and!; try (by apply hex_uuid_chars); repeat constructor;
                             unfold uuid_char; by rewrite ?Hdh).
  assert (Forall (λ c, is_hex c = true) [d]) as Hpd by (by repeat constructor).
  rewrite !List.filter_app, (filter_hex (take 8 l)), (filter_hex (take 4 (drop 8 l))),
    (filter_hex (take 3 (drop 13 l))), (filter_hex [d]), (filter_hex (take 3 (drop 17 l))),
    (filter_hex (take 12 (drop 20 l))) by done.
  cbn [List.filter]. rewrite !bool_decide_true by done. cbn [negb]. rewrite bool_decide_false by done.
  cbn [negb app].
  match goal with |- context [int16 ?h] => set (hs := h) end.
  assert (length hs = 32%nat) as Hl.
  { unfold hs. repeat (rewrite ?length_app, ?length_take, ?length_drop; cbn [length]). lia. }
  assert (Forall (λ c, is_hex c = true) hs) as Hhs.
  { unfold hs. repeat (rewrite ?Forall_app, ?Forall_cons; split_and!); done. }
  rewrite Hl, int16_hex; [|done|by destruct hs].
  pose proof (hex_value_bound hs 0 Hhs) as [H1 H2]; [lia|]. rewrite Hl in H2.
  rewrite (proj2 (Z.leb_le _ _) H1), (proj2 (Z.ltb_lt _ _)); [done|]. exact H2.
Qed.

(** ** The built-in tools are well formed *)

(** A contract as it is constructed. *)
Definition completed (m : ToolManifest) : ToolManifest :=
  if nonempty (capability m) then m else set_capability (_derive_capability m) m.
Lemma collect_all l d :
  (∀ m, m ∈ l → manifest_errors m = []) → NoDup (dkeys d ++ map m_name l) →
  collect (map new_manifest l) d = inr (d ++ map (λ m, (m_name m, completed m)) l).
Proof.
  revert d. induction l as [|m l IH]; intros d He Hn; simpl; [by rewrite app_nil_r|].
  unfold new_manifest at 1. rewrite He by left. fold (completed m).
  assert (m_name (completed m) = m_name m) as -> by (unfold completed; by destruct (nonempty _)).
  rewrite dset_new.
  - rewrite IH, <-app_assoc; [done|intros; apply He; by right|].
    unfold dkeys. rewrite map_app, <-app_assoc. exact Hn.
  - intros Hin. apply NoDup_app in Hn as (_ & Hn & _). apply (Hn _ Hin). left.
Qed.

Definition builtin_ok (m : ToolManifest) : bool :=
  Bool.eqb (bool_decide (execution_class m = STAGED_MUTATION)) (bool_decide (effect_types m ≠ []))
  && Bool.eqb (bool_decide (execution_class m = SANDBOXED_PROCESS))
       (match sandbox_constraints m with Some _ => true | None => false end)
  && forallb (λ k, dmem k (input_schema m)) (required_inputs m)
  && negb (requires_network m) && negb (bool_decide ("system" ∈ filesystem_scopes m)).
Lemma builtins_checked :
  forallb (λ m, bool_decide (manifest_errors m = []) && builtin_ok m && bool_decide (capability m = ""))
    builtins = true ∧
  bool_decide (NoDup (map m_name builtins)) = true.
Proof. split; vm_compute; reflexivity. Qed.

(** The built-in contracts are accepted, under 23 different names, each with a capability that
    is a uuid; exactly the staged mutations declare effects, exactly the sandboxed tool declares its
    isolation, and none needs the network or the host's file system. *)
Theorem builtins_well_formed :
  ∃ d, builtin_manifests = inr d ∧ dkeys d = map m_name builtins ∧ length d = 23%nat ∧ NoDup (dkeys d) ∧
    Forall (λ m, builtin_ok m = true ∧ uuid_ok (capability m) = true) (dvalues d).
Proof.
  destruct builtins_checked as [Hc Hn%bool_decide_eq_true]. rewrite forallb_forall in Hc.
  assert (∀ m, m ∈ builtins → manifest_errors m = [] ∧ builtin_ok m = true ∧ capability m = "") as H.
  { intros m Hm%list_elem_of_In%Hc. rewrite !andb_true_iff, !bool_decide_eq_true in Hm. tauto. }
  exists (map (λ m, (m_name m, completed m)) builtins). split_and!.
  - unfold builtin_manifests. rewrite collect_all; [done|by intros m [? _]%H|exact Hn].
  - unfold dkeys. by rewrite map_map.
  - by rewrite length_map.
  - unfold dkeys. by rewrite map_map.
  - unfold dvalues. rewrite map_map. apply Forall_map, Forall_forall. intros m (_ & Hok & Hcap)%H.
    unfold completed. simpl. rewrite Hcap. split; [exact Hok|]. apply derived_capability_is_uuid.
Qed.

(** ** Witnesses and counterexamples *)

Definition open_policy (approval : gset string) (network : bool) : OperationPolicy :=
  mkOpPolicy {["fetch"; "read"]} approval None None network None None true.
Definition fetch : ToolManifest :=
  mkManifest "fetch" "1" LOCAL_PROCESS [] [] "" [] [] [] [] true false true true ["system"] None None false
    false R_NONE None "" "" "" [] "" "".

Lemma stricter_policy_allows_less_witness :
  p_allowed (policy_decide (open_policy ∅ true) builtin_read) = true ∧
  p_approval (policy_decide (open_policy ∅ true) builtin_read)
  = p_approval (policy_decide (open_policy ∅ false) builtin_read).
Proof.
  apply (stricter_policy_allows_less (open_policy ∅ false) (open_policy ∅ true)).
  - split; simpl; try done. by right.
  - reflexivity.
Defined.

(** Putting a tool under approval lifts the limits on it: a policy without network, restricted to
    private files, denies the tool, and allows it once it also requires approval. *)
Lemma approval_lifts_limits :
  let p a := mkOpPolicy {["fetch"]} a None None false (Some "private") None true in
  p_allowed (policy_decide (p ∅) fetch) = false ∧
  policy_decide (p {["fetch"]}) fetch = mkDecision true true "Requires human approval per policy".
Proof. by vm_compute. Qed.
(** A tool that touches a scope beyond the policy's is allowed when it also touches the policy's. *)
Lemma extra_scope_allowed :
  let m := mkManifest "read" "1" READ_ONLY [] [] "" [] [] [] [] true false true false ["private"; "shared-kb"]
             None None false false R_NONE None "" "" "" [] "" "" in
  p_allowed (policy_decide (mkOpPolicy {["read"]} ∅ None None false (Some "private") None true) m) = true.
Proof. by vm_compute. Qed.
