(* ===== verification/LegacyTools.v ===== *)
(** * The tool registry of the previous architecture

    class ToolRegistry of legacy/agent_runtime.py: the manifests and handlers of tools, the
    entities under which an Authority knows them, the initial grants of agents, the policy of the
    deployment, and the execution of a call.

    A handler is a function of the call; it returns a result, other data, or raises.  Error texts
    of the Authority are left out as in LegacyOrg. *)

From stdpp Require Import base gmap strings list.
From Stdlib Require Import ZArith.
From S2P Require Import Prelude PyValue.
From S2P Require LegacyOrg LegacyOrgInv LegacyContinuation.
From S2P Require Import LegacyManifest.

Open Scope string_scope.
Open Scope list_scope.

(** The memory tools (consolidation.py). *)
Definition MEMORY_TOOL_NAMES : gset string :=
  {["memory_fold"; "memory_promote"; "memory_edit"; "memory_retag"; "memory_evict"; "memory_pin"]}.

Record ToolContext := mkContext {
  c_agent : string; c_simulation : string; c_tick : Z; c_allowed_tools : gset string; c_request : string }.
Record ToolResult := mkResult {
  tr_success : bool; tr_data : value; tr_error : option string; tr_code : option string;
  tr_retryable : bool; tr_agent : string; tr_tool : string; tr_tick : Z }.
Inductive outcome := HResult (r : ToolResult) | HData (v : value) | HRaise (e : string).
Definition Handler : Type := ToolContext → dict value → outcome.

Record ToolRegistry := mkTools {
  t_authority : option LegacyOrg.Authority;
  _agent_tools : dict (gset string);
  _tool_handlers : dict Handler;
  _manifests : dict ToolManifest;
  _policy : option OperationPolicy;
  _tool_entities : dict string;
  _declared_tools : dict (gset string) }.
Definition ToolRegistry_init (a : option LegacyOrg.Authority) : ToolRegistry := mkTools a [] [] [] None [] [].

Definition set_authority (a : LegacyOrg.Authority) (r : ToolRegistry) : ToolRegistry :=
  mkTools (Some a) (_agent_tools r) (_tool_handlers r) (_manifests r) (_policy r) (_tool_entities r) (_declared_tools r).
Definition set_agent_tools (f : dict (gset string) → dict (gset string)) (r : ToolRegistry) : ToolRegistry :=
  mkTools (t_authority r) (f (_agent_tools r)) (_tool_handlers r) (_manifests r) (_policy r) (_tool_entities r)
    (_declared_tools r).
Definition set_handler (n : string) (h : Handler) (r : ToolRegistry) : ToolRegistry :=
  mkTools (t_authority r) (_agent_tools r) (dset n h (_tool_handlers r)) (_manifests r) (_policy r)
    (_tool_entities r) (_declared_tools r).
Definition set_manifest (m : ToolManifest) (r : ToolRegistry) : ToolRegistry :=
  mkTools (t_authority r) (_agent_tools r) (_tool_handlers r) (dset (m_name m) m (_manifests r)) (_policy r)
    (_tool_entities r) (_declared_tools r).
Definition set_policy (p : OperationPolicy) (r : ToolRegistry) : ToolRegistry :=
  mkTools (t_authority r) (_agent_tools r) (_tool_handlers r) (_manifests r) (Some p) (_tool_entities r)
    (_declared_tools r).
Definition set_entity (n e : string) (r : ToolRegistry) : ToolRegistry :=
  mkTools (t_authority r) (_agent_tools r) (_tool_handlers r) (_manifests r) (_policy r)
    (dset n e (_tool_entities r)) (_declared_tools r).
Definition set_declared (agent : string) (tools : gset string) (r : ToolRegistry) : ToolRegistry :=
  mkTools (t_authority r) (_agent_tools r) (_tool_handlers r) (_manifests r) (_policy r) (_tool_entities r)
    (dset agent tools (_declared_tools r)).

Section Registry.
Variable iter : gset string → list string.
(** The phase of an agent, where a provider of phases is attached. *)
Variable phase_provider : option (string → option LegacyContinuation.ContinuationPhase).

(** ** Initial grants *)

Inductive tool_error := ToolManifestError | AuthError (e : LegacyOrg.org_error) | NameMismatch.

(** An agent is its own position for the grants of its tools. *)
Definition grant_tool (agent entity : string) (a : LegacyOrg.Authority) :
    option LegacyOrg.org_error * LegacyOrg.Authority :=
  LegacyOrg.base_grant_capability agent entity LegacyOrg.ALLOWED 5 (LegacyOrg.grant_membership agent agent a).
(** Grants until the first that is refused. *)
Fixpoint grant_all (l : list (string * string)) (a : LegacyOrg.Authority) :
    option LegacyOrg.org_error * LegacyOrg.Authority :=
  match l with
  | [] => (None, a)
  | (agent, entity) :: l' =>
      match grant_tool agent entity a with
      | (Some e, a) => (Some e, a)
      | (None, a) => grant_all l' a
      end
  end.
Definition grant_pairs (l : list (string * string)) (r : ToolRegistry) : option tool_error * ToolRegistry :=
  match t_authority r with
  | None => (None, r)
  | Some a => let '(e, a) := grant_all l a in (AuthError <$> e, set_authority a r)
  end.

Definition declared (agent : string) (r : ToolRegistry) : gset string :=
  default ∅ (dget agent (_declared_tools r)).
Definition declare_tools (agent : string) (tools : gset string) (r : ToolRegistry) :
    option tool_error * ToolRegistry :=
  let r := set_declared agent (declared agent r ∪ tools) r in
  match t_authority r with
  | None => (None, set_agent_tools (dset agent tools) r)
  | Some _ =>
      grant_pairs (omap (λ t, (λ e, (agent, e)) <$> dget t (_tool_entities r)) (iter tools)) r
  end.
Definition register_agent := declare_tools.

(** ** What an agent may use *)

Definition _consolidation_restricts (agent : string) : bool :=
  match phase_provider with
  | None => false
  | Some f => bool_decide (f agent = Some LegacyContinuation.CONSOLIDATING)
  end.
Definition may_use (a : LegacyOrg.Authority) (agent entity : string) : bool :=
  LegacyOrg.allowed (LegacyOrg.authorize iter agent entity a).
Definition authorized_tools (agent : string) (r : ToolRegistry) : gset string :=
  let granted :=
    match t_authority r with
    | Some a => list_to_set (map fst (List.filter (λ ne, may_use a agent ne.2) (_tool_entities r)))
    | None => default ∅ (dget agent (_agent_tools r))
    end in
  if _consolidation_restricts agent then granted ∩ MEMORY_TOOL_NAMES else granted.
Definition get_allowed_tools := authorized_tools.
Definition capability_for (tool : string) (r : ToolRegistry) : option string := dget tool (_tool_entities r).

(** ** Registration *)

Definition _grant_deferred (tool : string) (r : ToolRegistry) : option tool_error * ToolRegistry :=
  match t_authority r, dget tool (_tool_entities r) with
  | Some _, Some e =>
      grant_pairs (omap (λ at_, if decide (tool ∈ at_.2) then Some (at_.1, e) else None) (_declared_tools r)) r
  | _, _ => (None, r)
  end.
Definition tool_entity (m : ToolManifest) : LegacyOrg.Device :=
  let dev := if nonempty (m_device m) then m_device m else "tool:" +:+ m_name m in
  LegacyOrg.mkDevice dev [(capability m, LegacyOrg.Entity (capability m) dev LegacyOrg.TOOL (m_name m) None)] 0.
Definition _register_entity (m : ToolManifest) (r : ToolRegistry) : option tool_error * ToolRegistry :=
  if dmem (m_name m) (_tool_entities r) then (None, r) else
  let r := set_entity (m_name m) (capability m) r in
  match t_authority r with
  | None => _grant_deferred (m_name m) r
  | Some a =>
      match LegacyOrg.accept_device (tool_entity m) a with
      | (Some e, a) => (Some (AuthError e), set_authority a r)
      | (None, a) => _grant_deferred (m_name m) (set_authority a r)
      end
  end.
Definition register_manifest (m : ToolManifest) (r : ToolRegistry) : option tool_error * ToolRegistry :=
  _register_entity m (set_manifest m r).
Definition register_handler (tool : string) (h : Handler) (m : option ToolManifest) (r : ToolRegistry) :
    option tool_error * ToolRegistry :=
  match m with
  | None => (None, set_handler tool h r)
  | Some m =>
      if negb (bool_decide (m_name m = tool)) then (Some NameMismatch, r) else
      match register_manifest m r with
      | (Some e, r) => (Some e, r)
      | (None, r) => (None, set_handler tool h r)
      end
  end.
Definition register_tool (m : ToolManifest) (h : Handler) (r : ToolRegistry) : option tool_error * ToolRegistry :=
  if dmem (m_name m) (_tool_handlers r) || dmem (m_name m) (_manifests r)
  then (Some ToolManifestError, r)
  else register_handler (m_name m) h (Some m) r.
Definition get_manifest (tool : string) (r : ToolRegistry) : option ToolManifest := dget tool (_manifests r).
Definition manifests (r : ToolRegistry) : list ToolManifest :=
  omap (λ n, dget n (_manifests r)) (py_sorted String.leb (dkeys (_manifests r))).

(** ** A call *)

Definition policy_decision (tool : string) (r : ToolRegistry) : PolicyDecision :=
  match _policy r with
  | None => mkDecision true false ""
  | Some p =>
      match get_manifest tool r with
      | None => mkDecision false false ("Tool '" +:+ tool +:+ "' has no manifest; cannot policy-check")
      | Some m => policy_decide p m
      end
  end.
Definition _authorized (c : ToolContext) (tool : string) (r : ToolRegistry) : bool :=
  if _consolidation_restricts (c_agent c) && negb (bool_decide (tool ∈ MEMORY_TOOL_NAMES)) then false else
  match t_authority r with
  | Some a =>
      match dget tool (_tool_entities r) with
      | Some e => may_use a (c_agent c) e
      | None => bool_decide (tool ∈ c_allowed_tools c)
      end
  | None => bool_decide (tool ∈ default ∅ (dget (c_agent c) (_agent_tools r)))
  end.
Definition can_use (agent tool : string) (r : ToolRegistry) : bool :=
  match t_authority r with
  | Some a => match dget tool (_tool_entities r) with Some e => may_use a agent e | None => false end
  | None => bool_decide (tool ∈ default ∅ (dget agent (_agent_tools r)))
  end.
Definition permission_text (agent tool : string) : string :=
  "Agent '" +:+ agent +:+ "' does not have permission to use tool '" +:+ tool +:+ "'".
(** The result, and the handler's call when there was one.  A keyword that is a parameter of the
    handler already makes the call of the handler raise. *)
Definition execute (c : ToolContext) (tool : string) (kwargs : dict value) (r : ToolRegistry) :
    ToolResult * option (ToolContext * dict value) :=
  let refuse err code retry := mkResult false VNone (Some err) (Some code) retry (c_agent c) tool (c_tick c) in
  if negb (_authorized c tool r)
  then (refuse (permission_text (c_agent c) tool) "permission_denied" false, None)
  else
    let d := policy_decision tool r in
    if negb (p_allowed d) then (refuse (p_reason d) "policy_denied" false, None)
    else if p_approval d then (refuse (p_reason d) "requires_approval" false, None)
    else
      match dget tool (_tool_handlers r) with
      | None => (refuse ("No handler registered for tool '" +:+ tool +:+ "'") "not_found" false, None)
      | Some h =>
          (match h c kwargs with
           | HResult res => res
           | HData v => mkResult true v None None true (c_agent c) tool (c_tick c)
           | HRaise e => refuse e "tool_error" true
           end, Some (c, kwargs))
      end.
(** [registry.execute(context=c, tool_name=tool, **arguments)] as the simulation calls it: an
    argument named like a parameter makes the call itself raise. *)
Definition PARAMETERS : list string := ["self"; "context"; "tool_name"].
Definition call_execute (c : ToolContext) (tool : string) (arguments : value) (r : ToolRegistry) :
    res (ToolResult * option (ToolContext * dict value)) :=
  match arguments with
  | VDict d =>
      match List.find (λ k, bool_decide (k ∈ PARAMETERS)) (dkeys d) with
      | Some k => Raise (Exn TypeError ("execute() got multiple values for keyword argument '" +:+ k +:+ "'"))
      | None => Ok (execute c tool d r)
      end
  | _ => Raise (Exn TypeError "argument after ** must be a mapping")
  end.
End Registry.

(** ** Grants follow declarations *)

Definition registered_all (l : list (string * string)) (a : LegacyOrg.Authority) : Prop :=
  ∀ p, p ∈ l → LegacyOrg.is_registered p.2 a = true.

Lemma grant_all_spec l a :
  registered_all l a →
  let '(e, a') := grant_all l a in
  e = None ∧ LegacyOrg._registry a' = LegacyOrg._registry a ∧
  (∀ pos g, g ∈ LegacyOrg.grants_at pos a' ↔
     g ∈ LegacyOrg.grants_at pos a ∨ ∃ en, (pos, en) ∈ l ∧ g = LegacyOrg.Grant pos en LegacyOrg.ALLOWED 5) ∧
  (∀ p ag, p ∈ LegacyOrg.positions_of ag a' ↔
     p ∈ LegacyOrg.positions_of ag a ∨ p = ag ∧ ag ∈ map fst l).
Proof.
  revert a. induction l as [|[ag en] l IH]; intros a Hr; cbn [grant_all].
  { split_and!; [done|done| |].
    - intros pos g. split; [by left|]. intros [?|(en & []%elem_of_nil & _)]; done.
    - intros p ag. split; [by left|]. intros [?|[_ []%elem_of_nil]]; done. }
  assert (LegacyOrg.is_registered en a = true) as Hen by (apply (Hr (ag, en)); left).
  unfold grant_tool, LegacyOrg.base_grant_capability.
  replace (LegacyOrg.is_registered en (LegacyOrg.grant_membership ag ag a)) with true by done. cbv iota.
  set (a1 := LegacyOrg.set_capabilities _ _).
  assert (registered_all l a1) as Hr1 by (intros p Hp; apply Hr; by right).
  specialize (IH a1 Hr1). destruct (grant_all l a1) as [e a'].
  destruct IH as (-> & Hreg & Hg & Hp). split_and!; [done|done| |].
  - intros pos g. rewrite Hg.
    assert (g ∈ LegacyOrg.grants_at pos a1 ↔ g ∈ LegacyOrg.grants_at pos a ∨
              pos = ag ∧ g = LegacyOrg.Grant pos en LegacyOrg.ALLOWED 5) as ->.
    { unfold a1, LegacyOrg.grants_at. cbn [LegacyOrg._capabilities LegacyOrg.set_capabilities].
      rewrite dget_dset. destruct (decide (pos = ag)) as [->|Hn].
      - unfold LegacyOrg.grants_at. cbn. rewrite elem_of_app, list_elem_of_singleton. naive_solver.
      - cbn. naive_solver. }
    split.
    + intros [[?|[-> ->]]|(en' & Hin & ->)]; [by left|right; exists en|right; exists en'];
        (split; [|done]); [left|by right].
    + intros [?|(en' & [E|Hin]%elem_of_cons & ->)]; [by left; left| |right; by exists en'].
      injection E as -> ->. left. by right.
  - intros p ag'. rewrite Hp. cbn [map fst].
    assert (p ∈ LegacyOrg.positions_of ag' a1 ↔ p ∈ LegacyOrg.positions_of ag' a ∨ p = ag' ∧ ag' = ag) as ->.
    { unfold a1, LegacyOrg.positions_of. cbn. rewrite dget_dset. destruct (decide (ag' = ag)) as [->|Hn].
      - cbn. set_solver.
      - naive_solver. }
    rewrite elem_of_cons. naive_solver.
Qed.

(** What the registry keeps in step with its Authority. *)
Record wired (r : ToolRegistry) (a : LegacyOrg.Authority) : Prop := mkWired {
  w_auth : t_authority r = Some a;
  w_keys : NoDup (dkeys (_declared_tools r));
  w_reg : ∀ t e, dget t (_tool_entities r) = Some e → LegacyOrg.is_registered e a = true;
  w_inj : ∀ t t' e, dget t (_tool_entities r) = Some e → dget t' (_tool_entities r) = Some e → t = t';
  w_pos : ∀ ag p, p ∈ LegacyOrg.positions_of ag a → p = ag;
  w_sound : ∀ ag g, g ∈ LegacyOrg.grants_at ag a → LegacyOrg.g_effect g = LegacyOrg.ALLOWED ∧
      ∃ t, dget t (_tool_entities r) = Some (LegacyOrg.g_entity g) ∧ t ∈ declared ag r;
  w_complete : ∀ ag t e, dget t (_tool_entities r) = Some e → t ∈ declared ag r →
      LegacyOrg.Grant ag e LegacyOrg.ALLOWED 5 ∈ LegacyOrg.grants_at ag a ∧ ag ∈ LegacyOrg.positions_of ag a }.

Section Wiring.
Variable iter : gset string → list string.
Hypothesis iter_spec : ∀ s x, x ∈ iter s ↔ x ∈ s.
Variable phase_provider : option (string → option LegacyContinuation.ContinuationPhase).

(** A registry wired to its Authority authorises exactly the declared tools it knows. *)
Lemma wired_can_use r a ag t :
  wired r a → (can_use iter ag t r = true ↔ is_Some (dget t (_tool_entities r)) ∧ t ∈ declared ag r).
Proof.
  intros [Ha _ Hreg Hinj Hpos Hs Hc]. unfold can_use, may_use. rewrite Ha.
  destruct (dget t (_tool_entities r)) as [e|] eqn:Et; [|by split; [|intros [[? ?] _]]].
  rewrite (LegacyOrgInv.authorize_allowed iter iter_spec). unfold LegacyOrgInv.may. split.
  - intros (_ & (g & Hg) & _). split; [by eexists|]. unfold LegacyOrgInv.held in Hg.
    destruct Hg as (p & Hp%Hpos & Hg & <-). subst p. destruct (Hs _ _ Hg) as (_ & t' & Ht' & Hd).
    by rewrite (Hinj t t' _ Et Ht').
  - intros [_ Hd]. destruct (Hc ag t e Et Hd) as [Hg Hp]. split_and!; [by eapply Hreg| |].
    + eexists. exists ag. by split_and!.
    + intros g (p & Hp'%Hpos & Hg' & _). subst p. destruct (Hs _ _ Hg') as [-> _]. done.
Qed.
End Wiring.

Section Preservation.
Variable iter : gset string → list string.
Hypothesis iter_spec : ∀ s x, x ∈ iter s ↔ x ∈ s.

Lemma declared_set ag tools ag' r :
  declared ag' (set_declared ag tools r) = if decide (ag' = ag) then tools else declared ag' r.
Proof. unfold declared. cbn. rewrite dget_dset. by destruct (decide _). Qed.

Lemma wired_declare r a ag tools :
  wired r a →
  let '(e, r') := declare_tools iter ag tools r in
  e = None ∧ (∃ a', wired r' a') ∧ _tool_entities r' = _tool_entities r ∧
  ∀ ag', declared ag' r' = if decide (ag' = ag) then declared ag r ∪ tools else declared ag' r.
Proof.
  intros [Ha Hk Hreg Hinj Hpos Hs Hc]. unfold declare_tools, grant_pairs. cbn [t_authority set_declared]. rewrite Ha.
  set (l := omap _ (iter tools)).
  assert (∀ ag' e, (ag', e) ∈ l ↔ ag' = ag ∧ ∃ t, t ∈ tools ∧ dget t (_tool_entities r) = Some e) as Hl.
  { intros ag' e. unfold l. rewrite list_elem_of_omap. cbn [_tool_entities set_declared]. setoid_rewrite iter_spec.
    split.
    - intros (t & Ht & E). destruct (dget t _) as [e'|] eqn:Et; [|done]. injection E as <- <-. eauto.
    - intros (-> & t & Ht & Et). exists t. by rewrite Et. }
  pose proof (grant_all_spec l a) as H. destruct (grant_all l a) as [er a'].
  destruct H as (-> & Hr & Hg & Hp).
  { intros [ag' e] (-> & t & _ & Et)%Hl. by eapply Hreg. }
  split; [done|]. split; [|split; [done|]].
  2:{ intros ag'. rewrite <-declared_set. done. }
  exists a'.
  assert (∀ ag', declared ag' (set_authority a' (set_declared ag (declared ag r ∪ tools) r))
                 = if decide (ag' = ag) then declared ag r ∪ tools else declared ag' r) as Hd.
  { intros ag'. by rewrite <-declared_set. }
  split; cbn [t_authority set_authority _declared_tools set_declared _tool_entities]; try done.
  - by apply dkeys_dset_NoDup.
  - intros t e Et. unfold LegacyOrg.is_registered. rewrite Hr. by eapply Hreg.
  - intros ag' p [?%Hpos|[-> _]]%Hp; done.
  - intros ag' g [Hin|(e & (-> & t & Ht & Et)%Hl & ->)]%Hg.
    + destruct (Hs _ _ Hin) as (? & t & Et & Htd). split; [done|]. exists t. split; [done|]. rewrite Hd.
      destruct (decide _) as [->|]; set_solver.
    + split; [done|]. exists t. split; [done|]. rewrite Hd, decide_True by done. set_solver.
  - intros ag' t e Et Ht. rewrite Hd in Ht. rewrite Hg, Hp. destruct (decide (ag' = ag)) as [->|Hn].
    + apply elem_of_union in Ht as [Ht|Ht]; [destruct (Hc _ _ _ Et Ht); by split; left|].
      split; right; [exists e; split; [|done]; apply Hl; eauto|].
      split; [done|]. apply list_elem_of_fmap. exists (ag, e). split; [done|]. apply Hl. eauto.
    + destruct (Hc _ _ _ Et Ht). by split; left.
Qed.

Lemma declared_elem ag t r :
  NoDup (dkeys (_declared_tools r)) →
  t ∈ declared ag r ↔ ∃ ts, (ag, ts) ∈ _declared_tools r ∧ t ∈ ts.
Proof.
  intros Hk. unfold declared. split.
  - destruct (dget ag _) as [ts|] eqn:E; [|set_solver]. apply dget_Some_elem in E. cbn. eauto.
  - intros (ts & Hin & Ht). apply elem_dget in Hin; [|done]. by rewrite Hin.
Qed.

Lemma wired_register r a m :
  wired r a →
  let '(e, r') := register_manifest m r in
  e = None → (∃ a', wired r' a') ∧ (∀ ag, declared ag r' = declared ag r) ∧
    (∀ t, is_Some (dget t (_tool_entities r')) ↔ t = m_name m ∨ is_Some (dget t (_tool_entities r))).
Proof.
  intros Hw. pose proof Hw as [Ha Hk Hreg Hinj Hpos Hs Hc].
  unfold register_manifest, _register_entity. cbn [_tool_entities set_manifest].
  destruct (dmem (m_name m) (_tool_entities r)) eqn:Em.
  { intros _. split; [|split; [done|]].
    - exists a. by split.
    - intros t. split; [by right|]. intros [->|?]; [|done]. unfold dmem in Em.
      by destruct (dget _ _). }
  apply dmem_false in Em. cbn [t_authority set_entity set_manifest]. rewrite Ha.
  unfold LegacyOrg.accept_device, tool_entity. cbn [LegacyOrg._entities dvalues map snd LegacyOrg.accept_entities LegacyOrg.entity_id].
  destruct (dmem (capability m) (LegacyOrg._registry a)) eqn:Er; [done|].
  set (ent := LegacyOrg.Entity _ _ _ _ _). set (a1 := LegacyOrg.set_registry _ a).
  unfold _grant_deferred, grant_pairs. cbn [t_authority set_authority _tool_entities set_entity set_manifest].
  rewrite dget_dset_eq. cbn [_declared_tools set_authority set_entity set_manifest].
  set (l := omap _ (_declared_tools r)).
  assert (∀ ag e, (ag, e) ∈ l ↔ m_name m ∈ declared ag r ∧ e = capability m) as Hl.
  { intros ag e. unfold l. rewrite list_elem_of_omap, declared_elem by done. split.
    - intros ([ag' ts] & Hin & E). cbn in E. destruct (decide _) as [Ht|]; [|done]. injection E as <- <-. eauto.
    - intros [(ts & Hin & Ht) ->]. exists (ag, ts). split; [done|]. cbn. by rewrite decide_True. }
  assert (∀ e, LegacyOrg.is_registered e a1 = true ↔ e = capability m ∨ LegacyOrg.is_registered e a = true) as Hr1.
  { intros e. unfold LegacyOrg.is_registered, a1. cbn. unfold dmem. rewrite dget_dset.
    destruct (decide (e = capability m)); [naive_solver|]. split; [by right|]. by intros [?|?]. }
  pose proof (grant_all_spec l a1) as H. destruct (grant_all l a1) as [er a'].
  destruct H as (-> & Hr & Hg & Hp).
  { intros [ag e] [_ ->]%Hl. apply Hr1. by left. }
  intros _. split; [|split; [done|]].
  2:{ intros t. cbn. rewrite dget_dset. destruct (decide (t = m_name m)); naive_solver. }
  exists a'. split; cbn [t_authority set_authority _declared_tools set_manifest set_entity _tool_entities]; try done.
  - intros t e. rewrite dget_dset. unfold LegacyOrg.is_registered. rewrite Hr.
    change (dmem e (LegacyOrg._registry a1)) with (LegacyOrg.is_registered e a1). rewrite Hr1.
    destruct (decide (t = m_name m)); [intros [= <-]; by left|]. intros ?%Hreg. by right.
  - intros t t' e. rewrite !dget_dset.
    assert (∀ x, dget x (_tool_entities r) ≠ Some (capability m)) as Hnew.
    { intros x Hx%Hreg. unfold LegacyOrg.is_registered in Hx. congruence. }
    destruct (decide (t = m_name m)) as [->|]; destruct (decide (t' = m_name m)) as [->|]; try done.
    + intros [= <-] Hx. by apply Hnew in Hx.
    + intros Hx [= <-]. by apply Hnew in Hx.
    + apply Hinj.
  - intros ag p [Hx|[-> _]]%Hp; [|done]. by apply Hpos.
  - intros ag g [Hin|(e & [Ht ->]%Hl & ->)]%Hg.
    + destruct (Hs ag g Hin) as (? & t & Et & Htd). split; [done|]. exists t. split; [|done].
      rewrite dget_dset_ne; [done|]. intros ->. congruence.
    + split; [done|]. exists (m_name m). split; [by rewrite dget_dset_eq|done].
  - intros ag t e. rewrite dget_dset. rewrite Hg, Hp. destruct (decide (t = m_name m)) as [->|].
    + intros [= <-] Ht. split; right; [exists (capability m); split; [|done]; by apply Hl|].
      split; [done|]. apply list_elem_of_fmap. exists (ag, capability m). split; [done|]. by apply Hl.
    + intros Et Ht. destruct (Hc ag t e Et Ht). by split; left.
Qed.
End Preservation.

Inductive tool_op :=
| ODeclare (agent : string) (tools : gset string)
| ORegister (m : ToolManifest) (h : Handler)
| OHandler (tool : string) (h : Handler) (m : option ToolManifest)
| OPolicy (p : OperationPolicy).
Definition tool_step (iter : gset string → list string) (o : tool_op) (r : ToolRegistry) :
    option tool_error * ToolRegistry :=
  match o with
  | ODeclare ag ts => declare_tools iter ag ts r
  | ORegister m h => register_tool m h r
  | OHandler t h m => register_handler t h m r
  | OPolicy p => (None, set_policy p r)
  end.
(** The registry after operations none of which raises. *)
Fixpoint tools_run (iter : gset string → list string) (ops : list tool_op) (r : ToolRegistry) :
    option ToolRegistry :=
  match ops with
  | [] => Some r
  | o :: ops => match tool_step iter o r with (None, r) => tools_run iter ops r | (Some _, _) => None end
  end.
Definition declares (ag t : string) (o : tool_op) : Prop :=
  match o with ODeclare ag' ts => ag' = ag ∧ t ∈ ts | _ => False end.
Definition registers (t : string) (o : tool_op) : Prop :=
  match o with
  | ORegister m _ => m_name m = t
  | OHandler _ _ (Some m) => m_name m = t
  | _ => False
  end.

Section Runs.
Variable iter : gset string → list string.
Hypothesis iter_spec : ∀ s x, x ∈ iter s ↔ x ∈ s.

Lemma wired_handler t h r a : wired r a → wired (set_handler t h r) a.
Proof. by intros []. Qed.
Lemma tool_step_wired o r a r' :
  wired r a → tool_step iter o r = (None, r') →
  (∃ a', wired r' a') ∧
  (∀ ag t, t ∈ declared ag r' ↔ t ∈ declared ag r ∨ declares ag t o) ∧
  (∀ t, is_Some (dget t (_tool_entities r')) ↔ is_Some (dget t (_tool_entities r)) ∨ registers t o).
Proof.
  intros Hw. assert (∀ m h, m_name m = m_name m → register_handler (m_name m) h (Some m) r = (None, r') →
    (∃ a', wired r' a') ∧ (∀ ag t, t ∈ declared ag r' ↔ t ∈ declared ag r ∨ False) ∧
    (∀ t, is_Some (dget t (_tool_entities r')) ↔ is_Some (dget t (_tool_entities r)) ∨ m_name m = t)) as Hreg.
  { intros m h _. unfold register_handler. rewrite bool_decide_true by done. cbn [negb].
    pose proof (wired_register iter iter_spec r a m Hw) as H. destruct (register_manifest m r) as [[e|] r1]; [done|].
    intros [= <-]. destruct (H eq_refl) as ((a' & Hw') & Hd & He). split; [|split].
    - exists a'. by apply wired_handler.
    - intros ag t. unfold declared in *. cbn. rewrite Hd. naive_solver.
    - intros t. cbn. rewrite He. naive_solver. }
  destruct o as [ag ts|m h|t h [m|]|p]; cbn [tool_step declares registers].
  - intros E. pose proof (wired_declare iter iter_spec r a ag ts Hw) as H. rewrite E in H.
    destruct H as (_ & Hw' & He & Hd). split; [done|]. split.
    + intros ag' t. rewrite Hd. destruct (decide (ag' = ag)) as [->|]; set_solver.
    + intros t. rewrite He. naive_solver.
  - unfold register_tool. destruct (_ || _); [done|]. by apply Hreg.
  - destruct (decide (m_name m = t)) as [<-|Hn]; [by apply Hreg|].
    unfold register_handler. by rewrite bool_decide_false.
  - intros [= <-]. split; [exists a; by apply wired_handler|]. split; intros; [naive_solver|cbn; naive_solver].
  - intros [= <-]. split; [exists a; by destruct Hw|]. split; intros; [naive_solver|cbn; naive_solver].
Qed.
Lemma tools_run_wired ops r a r' :
  wired r a → tools_run iter ops r = Some r' →
  (∃ a', wired r' a') ∧
  (∀ ag t, t ∈ declared ag r' ↔ t ∈ declared ag r ∨ ∃ o, o ∈ ops ∧ declares ag t o) ∧
  (∀ t, is_Some (dget t (_tool_entities r')) ↔
     is_Some (dget t (_tool_entities r)) ∨ ∃ o, o ∈ ops ∧ registers t o).
Proof.
  revert r a. induction ops as [|o ops IH]; intros r a Hw; cbn [tools_run].
  { intros [= <-]. split; [by exists a|]. setoid_rewrite elem_of_nil. split; naive_solver. }
  destruct (tool_step iter o r) as [[e|] r1] eqn:E; [done|]. intros Hr.
  destruct (tool_step_wired o r a r1 Hw E) as ((a1 & Hw1) & Hd1 & He1).
  destruct (IH r1 a1 Hw1 Hr) as (Hw' & Hd & He). setoid_rewrite elem_of_cons.
  split; [done|]. split; intros.
  - rewrite Hd, Hd1. naive_solver.
  - rewrite He, He1. naive_solver.
Qed.

(** However declarations and registrations are ordered, an agent may use exactly the registered
    tools that were declared for it: a tool registered later is granted to those who declared it,
    and nothing else is ever granted. *)
Theorem grants_follow_declarations a0 ops r ag t :
  LegacyOrg._memberships a0 = [] → LegacyOrg._capabilities a0 = [] →
  tools_run iter ops (ToolRegistry_init (Some a0)) = Some r →
  can_use iter ag t r = true ↔
    (∃ o, o ∈ ops ∧ registers t o) ∧ (∃ o, o ∈ ops ∧ declares ag t o).
Proof.
  intros Hm Hc Hr.
  assert (wired (ToolRegistry_init (Some a0)) a0) as Hw.
  { split; cbn [ToolRegistry_init t_authority _declared_tools _tool_entities]; try done.
    - constructor.
    - intros ag' p. unfold LegacyOrg.positions_of. rewrite Hm. cbn. set_solver.
    - intros ag' g. unfold LegacyOrg.grants_at. rewrite Hc. cbn. by intros ?%elem_of_nil. }
  destruct (tools_run_wired ops _ a0 r Hw Hr) as ((a' & Hw') & Hd & He).
  rewrite (wired_can_use iter iter_spec r a') by done. rewrite Hd, He. cbn. unfold declared. cbn.
  split; [|naive_solver]. intros [[H1|H1] [H2|H2]]; try (by destruct H1); try set_solver.
Qed.

(** ** A call reaches its handler only when every gate lets it *)

Variable phase_provider : option (string → option LegacyContinuation.ContinuationPhase).

Definition gates (c : ToolContext) (tool : string) (r : ToolRegistry) : Prop :=
  (_consolidation_restricts phase_provider (c_agent c) = true → tool ∈ MEMORY_TOOL_NAMES) ∧
  (∀ a, t_authority r = Some a → ∃ e, dget tool (_tool_entities r) = Some e ∧ LegacyOrgInv.may (c_agent c) e a) ∧
  (t_authority r = None → tool ∈ default ∅ (dget (c_agent c) (_agent_tools r))) ∧
  (∀ p, _policy r = Some p → ∃ m, get_manifest tool r = Some m ∧ p_allowed (policy_decide p m) = true ∧
                                   p_approval (policy_decide p m) = false).

Lemma authorized_gates c tool r :
  c_allowed_tools c = ∅ →
  _authorized iter phase_provider c tool r = true ↔
    (_consolidation_restricts phase_provider (c_agent c) = true → tool ∈ MEMORY_TOOL_NAMES) ∧
    (∀ a, t_authority r = Some a → ∃ e, dget tool (_tool_entities r) = Some e ∧ LegacyOrgInv.may (c_agent c) e a) ∧
    (t_authority r = None → tool ∈ default ∅ (dget (c_agent c) (_agent_tools r))).
Proof.
  intros Hc. unfold _authorized. rewrite Hc.
  destruct (_consolidation_restricts _ _) eqn:Ec; cbn [andb].
  - case_bool_decide as Hm; cbn [negb]; [|naive_solver].
    destruct (t_authority r) as [a|]; [|rewrite bool_decide_eq_true; naive_solver].
    destruct (dget tool (_tool_entities r)) as [e|]; [|rewrite bool_decide_eq_true; set_solver].
    unfold may_use. rewrite (LegacyOrgInv.authorize_allowed iter iter_spec). naive_solver.
  - destruct (t_authority r) as [a|]; [|rewrite bool_decide_eq_true; naive_solver].
    destruct (dget tool (_tool_entities r)) as [e|]; [|rewrite bool_decide_eq_true; set_solver].
    unfold may_use. rewrite (LegacyOrgInv.authorize_allowed iter iter_spec). naive_solver.
Qed.
Lemma policy_gates tool r :
  p_allowed (policy_decision tool r) = true ∧ p_approval (policy_decision tool r) = false ↔
    ∀ p, _policy r = Some p → ∃ m, get_manifest tool r = Some m ∧ p_allowed (policy_decide p m) = true ∧
                                   p_approval (policy_decide p m) = false.
Proof.
  unfold policy_decision. destruct (_policy r) as [p|]; [|naive_solver].
  destruct (get_manifest tool r); naive_solver.
Qed.

(** C30: In a context as the simulation builds it, a tool's handler is called exactly when the tool
    is a memory tool if the agent consolidates, the Authority lets the agent have the tool, the
    policy allows it without approval, and a handler is registered; it is called once, with the
    given arguments.  A call that is stopped fails with a code and is not to be retried. *)
Theorem tool_call_guarded c tool kwargs r :
  c_allowed_tools c = ∅ →
  let '(res, called) := execute iter phase_provider c tool kwargs r in
  (called = Some (c, kwargs) ↔ gates c tool r ∧ is_Some (dget tool (_tool_handlers r))) ∧
  (called = None → tr_success res = false ∧ tr_retryable res = false ∧
     ∃ code, tr_code res = Some code ∧
       code ∈ ["permission_denied"; "policy_denied"; "requires_approval"; "not_found"]).
Proof.
  intros Hc. unfold execute, gates.
  pose proof (authorized_gates c tool r Hc) as Ha. pose proof (policy_gates tool r) as Hp.
  destruct (_authorized iter phase_provider c tool r); cbn [negb].
  2:{ split; [split; [done|]|intros _; do 2 (split; [done|]); eexists; split; [done|set_solver]].
      intros [(H1 & H2 & H3 & _) _]. assert (false = true) by (apply Ha; auto). done. }
  destruct (p_allowed (policy_decision tool r)) eqn:E1; cbn [negb].
  2:{ split; [split; [done|]|intros _; do 2 (split; [done|]); eexists; split; [done|set_solver]].
      intros [(_ & _ & _ & H) _]. by apply Hp in H as [? _]. }
  destruct (p_approval (policy_decision tool r)) eqn:E2.
  { split; [split; [done|]|intros _; do 2 (split; [done|]); eexists; split; [done|set_solver]].
    intros [(_ & _ & _ & H) _]. by apply Hp in H as [_ ?]. }
  destruct (dget tool (_tool_handlers r)) as [h|] eqn:Eh.
  - split; [|done]. split; [|done]. intros _. split; [|by eexists].
    assert (true = true) as Ht by done. apply Ha in Ht as (? & ? & ?). split_and!; try done. by apply Hp.
  - split; [split; [done|by intros [_ [? ?]]]|intros _; do 2 (split; [done|]); eexists; split; [done|set_solver]].
Qed.
End Runs.

(** ** Witnesses and counterexamples *)

Definition authority0 : LegacyOrg.Authority :=
  LegacyOrg.mkAuthority "team" "owner" (LegacyOrg.mkDevice "auth" [] 0) [] [] [].
Definition echo : Handler := λ c d, HData (VDict d).
Definition tool_named (n u : string) : ToolManifest :=
  mkManifest n "1" READ_ONLY [] [] "" [] [] [] [] true true true false ["none"] None None false false R_NONE
    None "" u "" [] "" "".
Definition late_ops : list tool_op :=
  [ODeclare "ann" {["read"; "ls"]}; ORegister (tool_named "read" "u1") echo; ODeclare "bob" {["read"]};
   ORegister (tool_named "ls" "u2") echo].

Lemma grants_follow_declarations_witness :
  ∃ r, tools_run elements late_ops (ToolRegistry_init (Some authority0)) = Some r ∧
    can_use elements "ann" "ls" r = true ∧ can_use elements "bob" "ls" r ≠ true.
Proof.
  destruct (tools_run elements late_ops (ToolRegistry_init (Some authority0))) as [r|] eqn:E;
    [|vm_compute in E; discriminate].
  exists r. split; [done|].
  pose proof (λ ag t, grants_follow_declarations elements LegacyOrgInv.elements_spec authority0 late_ops r ag t
                eq_refl eq_refl E) as H.
  split.
  - apply H. split; [exists (ORegister (tool_named "ls" "u2") echo); split; [|done]|].
    + right. right. right. left.
    + exists (ODeclare "ann" {["read"; "ls"]}). split; [left|]. split; [done|].
      apply (bool_decide_unpack _). by vm_compute.
  - rewrite (H "bob" "ls"). intros [_ (o & Ho & Hd)].
    assert (Forall (λ o, ¬ declares "bob" "ls" o) late_ops) as F.
    { repeat constructor; [by intros [? _]|by intros []| |by intros []].
      by intros [_ ?%elem_of_singleton]. }
    rewrite Forall_forall in F. exact (F o Ho Hd).
Defined.

Definition asker : ToolContext := mkContext "ann" "" 1 ∅ "".
Definition bare_tools : ToolRegistry :=
  mkTools None [("ann", {["read"]})] [("read", echo)] [] None [] [].
Lemma tool_call_guarded_witness :
  (execute elements None asker "read" [("path", VStr "x")] bare_tools).2 = Some (asker, [("path", VStr "x")]) ∧
  (execute elements None asker "write" [] bare_tools).2 = None.
Proof.
  pose proof (tool_call_guarded elements LegacyOrgInv.elements_spec None asker "read" [("path", VStr "x")]
    bare_tools eq_refl) as H.
  pose proof (tool_call_guarded elements LegacyOrgInv.elements_spec None asker "write" [] bare_tools eq_refl) as H'.
  destruct (execute elements None asker "read" _ _) as [res called]. cbn [snd].
  split; [|by vm_compute]. apply H. split; [|by eexists]. unfold gates. split_and!.
  - done.
  - done.
  - intros _. apply (bool_decide_unpack _). by vm_compute.
  - done.
Defined.

(** A grant whose effect is that the call requires approval lets the call through unapproved. *)
Lemma approval_grant_executes :
  let a := LegacyOrg.mkAuthority "team" "owner" (LegacyOrg.mkDevice "auth" [] 0)
             [("u1", LegacyOrg.Entity "u1" "d" LegacyOrg.TOOL "read" None)] [("ann", {["ann"]})]
             [("ann", [LegacyOrg.Grant "ann" "u1" LegacyOrg.REQUIRES_APPROVAL 5])] in
  let r := mkTools (Some a) [] [("read", echo)] [("read", tool_named "read" "u1")] None [("read", "u1")] [] in
  LegacyOrg.effect (LegacyOrg.authorize elements "ann" "u1" a) = LegacyOrg.REQUIRES_APPROVAL ∧
  (execute elements None asker "read" [] r).2 = Some (asker, []).
Proof. by vm_compute. Qed.
(** An argument named like a parameter of [execute] makes the call raise in the tick. *)
Lemma argument_named_context iter pp c tool v r :
  ∃ e, call_execute iter pp c tool (VDict [("context", v)]) r = Raise e.
Proof. eexists. reflexivity. Qed.
(** Registering a changed contract under a known name leaves the old capability in force: the
    manifest and the registry then name different entities for one tool. *)
Lemma reregistration_keeps_capability a h h' :
  a = authority0 →
  match tools_run elements [ORegister (tool_named "read" "u1") h; OHandler "read" h' (Some (tool_named "read" "u2"))]
          (ToolRegistry_init (Some a)) with
  | Some r => capability_for "read" r = Some "u1" ∧ capability <$> get_manifest "read" r = Some "u2"
  | None => False
  end.
Proof. intros ->. by vm_compute. Qed.
(** Without an Authority a second declaration replaces the first, though declarations are
    documented as never taking a tool away. *)
Lemma bare_declaration_replaces iter :
  let r := (declare_tools iter "ann" {["ls"]} (declare_tools iter "ann" {["read"]} (ToolRegistry_init None)).2).2 in
  can_use iter "ann" "read" r = false ∧ can_use iter "ann" "ls" r = true.
Proof. split; vm_compute; reflexivity. Qed.
