(* ===== verification/LegacyDispatch.v ===== *)
(** * Dispatch of tool operations in the previous architecture

    legacy/executor_registry.py and legacy/integration.py, and the dispatch phase of a tick in
    legacy/simulation.py: an operation waits in the registry of pending operations until an
    executor admits it and, for a tool of an external platform, until the platform's quota does.

    Times are rationals read from [clock]; a reading is numbered.  The name of a tool is a string.
    The plugins behind an integration and the callables behind a tool are functions; what a handler
    does to the operations is [handler_ops].  An operation that a handler removed is skipped: it
    was cancelled before.  [dict(x)] of data that is neither empty nor a dict raises; lists of
    pairs are left out. *)

From stdpp Require Import base gmap strings list pretty sorting.
From Stdlib Require Import ZArith QArith Qround Lqa Lia.
From S2P Require Import Prelude PyValue LegacyOps.
From S2P Require LegacyOrg LegacyContinuation LegacyTools LegacyKb.
From S2P Require Import LegacyManifest.

Open Scope string_scope.
Open Scope Z_scope.
Open Scope list_scope.

(** ** Executors (executor_registry.py) *)

Inductive ExecutorTier := TRUSTED_IN_PROCESS | UNTRUSTED_OUT_OF_PROCESS | SANDBOXED_OUT_OF_PROCESS.
#[global] Instance ExecutorTier_eq_dec : EqDecision ExecutorTier.
Proof. solve_decision. Defined.
Definition tier_value (t : ExecutorTier) : string :=
  match t with
  | TRUSTED_IN_PROCESS => "trusted_in_process" | UNTRUSTED_OUT_OF_PROCESS => "untrusted_out_of_process"
  | SANDBOXED_OUT_OF_PROCESS => "sandboxed_out_of_process"
  end.
Definition KERNEL_EXECUTED_CLASSES : list ExecutionClass := [PURE; READ_ONLY; LOCAL_DETERMINISTIC; STAGED_MUTATION].
Definition _EXECUTOR_TIERS_BY_CLASS (c : ExecutionClass) : option (list ExecutorTier) :=
  match c with
  | LOCAL_PROCESS => Some [TRUSTED_IN_PROCESS; UNTRUSTED_OUT_OF_PROCESS]
  | SANDBOXED_PROCESS => Some [SANDBOXED_OUT_OF_PROCESS]
  | EXTERNAL_IRREVERSIBLE => Some [UNTRUSTED_OUT_OF_PROCESS]
  | _ => None
  end.
Definition requires_executor (c : option ExecutionClass) : bool :=
  match c with None => true | Some c => negb (bool_decide (c ∈ KERNEL_EXECUTED_CLASSES)) end.
Definition required_tiers (c : option ExecutionClass) : option (list ExecutorTier) :=
  match c with
  | None => Some [UNTRUSTED_OUT_OF_PROCESS]
  | Some c => if decide (c ∈ KERNEL_EXECUTED_CLASSES) then None else _EXECUTOR_TIERS_BY_CLASS c
  end.

Record ExecutorRecord := mkExecutor {
  executor_id : string; x_tool : string; x_tier : ExecutorTier; max_concurrent : Z }.
Definition ExecutorRegistry := dict ExecutorRecord.
Definition register_executor (tool : string) (t : ExecutorTier) (id : string) (n : Z) (r : ExecutorRegistry) :
    ExecutorRecord * ExecutorRegistry :=
  let x := mkExecutor (if nonempty id then id else "exe." +:+ tool +:+ "." +:+ tier_value t) tool t n in
  (x, dset tool x r).
Definition unregister_executor (tool : string) (r : ExecutorRegistry) : ExecutorRegistry := dpop tool r.

(** Admitted, why not, and whether to try again. *)
Record Admission := mkAdmission { admitted : bool; reason : string; retry : bool }.
Definition capacity (x : ExecutorRecord) (in_flight : Z) : Admission :=
  if max_concurrent x <=? in_flight
  then mkAdmission false ("Executor '" +:+ executor_id x +:+ "' at capacity (" +:+ pretty in_flight
         +:+ "/" +:+ pretty (max_concurrent x) +:+ ")") true
  else mkAdmission true "" false.
Definition admit_op (tool : string) (m : option ToolManifest) (in_flight : Z) (r : ExecutorRegistry) : Admission :=
  match dget tool r with
  | None => mkAdmission false ("No executor registered for tool '" +:+ tool +:+ "' — admission denied") false
  | Some x =>
      match required_tiers (execution_class <$> m) with
      | Some ts =>
          if decide (x_tier x ∈ ts) then capacity x in_flight
          else mkAdmission false ("Executor tier '" +:+ tier_value (x_tier x) +:+ "' cannot execute '" +:+ tool
                 +:+ "' (requires " +:+ str_join "/" (map tier_value ts) +:+ ")") false
      | None => capacity x in_flight
      end
  end.
Definition tier (tool : string) (r : ExecutorRegistry) : option ExecutorTier := x_tier <$> dget tool r.
Definition executors_summary (r : ExecutorRegistry) : dict value :=
  omap (λ t, (λ x, (t, VDict [("executor_id", VStr (executor_id x)); ("tier", VStr (tier_value (x_tier x)));
                              ("max_concurrent", VInt (max_concurrent x))])) <$> dget t r)
    (py_sorted String.leb (dkeys r)).

(** ** Integrations (integration.py) *)

Record ReceiptAssertion := mkReceipt {
  external_id_field : string; op_id_resolver : string → dict value → option string }.
Record RateLimit := mkLimit { max_calls : Z; window_seconds : Q }.
Definition limit_ok (l : RateLimit) : bool := (0 <=? max_calls l) && negb (Qle_bool (window_seconds l) 0).
Record Integration := mkIntegration {
  i_name : string; credential_ref : string; rate_limits : RateLimit; i_manifests : list ToolManifest;
  i_event_types : list string; health_check : string; receipt : option ReceiptAssertion }.
Record _WindowState := mkWindow { window_started_at : Q; calls_in_window : Z }.
Record IntegrationRegistry := mkIntegrations {
  _integrations : dict Integration; _providers_by_tool : dict string; _windows : dict _WindowState }.
Definition IntegrationRegistry_init : IntegrationRegistry := mkIntegrations [] [] [].
Definition set_windows (f : dict _WindowState → dict _WindowState) (r : IntegrationRegistry) : IntegrationRegistry :=
  mkIntegrations (_integrations r) (_providers_by_tool r) (f (_windows r)).

(** The tools of an integration are indexed until one belongs to another integration. *)
Fixpoint index_tools (name : string) (l : list ToolManifest) (d : dict string) : option string * dict string :=
  match l with
  | [] => (None, d)
  | m :: l' =>
      match dget (m_name m) d with
      | Some owner =>
          if decide (owner = name) then index_tools name l' (dset (m_name m) name d)
          else (Some ("Outbound tool '" +:+ m_name m +:+ "' is claimed by both '" +:+ owner +:+ "' and '"
                      +:+ name +:+ "'"), d)
      | None => index_tools name l' (dset (m_name m) name d)
      end
  end.
Definition register_integration (i : Integration) (r : IntegrationRegistry) : option string * IntegrationRegistry :=
  let '(e, d) := index_tools (i_name i) (i_manifests i) (_providers_by_tool r) in
  (e, mkIntegrations (dset (i_name i) i (_integrations r)) d (_windows r)).
Definition unregister_integration (name : string) (r : IntegrationRegistry) : IntegrationRegistry :=
  mkIntegrations (dpop name (_integrations r))
    (match dget name (_integrations r) with
     | Some i => foldl (λ d m, if decide (dget (m_name m) d = Some name) then dpop (m_name m) d else d)
                   (_providers_by_tool r) (i_manifests i)
     | None => _providers_by_tool r
     end)
    (dpop name (_windows r)).
Definition get_integration (name : string) (r : IntegrationRegistry) : option Integration :=
  dget name (_integrations r).
Definition provider_for_tool (tool : string) (r : IntegrationRegistry) : option string :=
  dget tool (_providers_by_tool r).
Definition get_by_tool (tool : string) (r : IntegrationRegistry) : option Integration :=
  p ← provider_for_tool tool r; get_integration p r.
Definition resolve_op_id (provider ext : string) (payload : dict value) (r : IntegrationRegistry) : option string :=
  i ← get_integration provider r; a ← receipt i; op_id_resolver a ext payload.

(** [f"{q:.0f}"]: to the nearest integer, halves to the even one. *)
Definition round_half_even (q : Q) : Z :=
  let f := Qfloor q in
  match Qcompare (q - inject_Z f) (1 # 2) with
  | Lt => f | Gt => f + 1 | Eq => if Z.even f then f else f + 1
  end.
(** The window of a provider at [now]; one that is missing starts at [fresh]. *)
Definition window_at (fresh now : Q) (i : Integration) (r : IntegrationRegistry) : _WindowState :=
  let w := default (mkWindow fresh 0) (dget (i_name i) (_windows r)) in
  if Qle_bool (window_seconds (rate_limits i)) (now - window_started_at w) then mkWindow now 0 else w.
Definition provider_admit (fresh now : Q) (tool : string) (r : IntegrationRegistry) :
    Admission * IntegrationRegistry :=
  match get_by_tool tool r with
  | None => (mkAdmission false ("No integration owns outbound tool '" +:+ tool +:+ "'") false, r)
  | Some i =>
      let w := window_at fresh now i r in
      let r := set_windows (dset (i_name i) w) r in
      (if max_calls (rate_limits i) <=? calls_in_window w
       then mkAdmission false ("Integration '" +:+ i_name i +:+ "' rate limit reached ("
              +:+ pretty (max_calls (rate_limits i)) +:+ "/"
              +:+ pretty (round_half_even (window_seconds (rate_limits i))) +:+ "s)") true
       else mkAdmission true "" false, r)
  end.
Definition record_dispatched (fresh now : Q) (tool : string) (r : IntegrationRegistry) : IntegrationRegistry :=
  match get_by_tool tool r with
  | None => r
  | Some i =>
      let w := window_at fresh now i r in
      set_windows (dset (i_name i) (mkWindow (window_started_at w) (calls_in_window w + 1))) r
  end.

(** ** The dispatch phase (simulation.py) *)

Record dispatch_state := mkDispatch {
  d_ops : Registry; d_int : IntegrationRegistry; d_log : list LegacyKb.AuditEntry; d_reads : nat }.
Definition set_dops (f : Registry → Registry) (s : dispatch_state) : dispatch_state :=
  mkDispatch (f (d_ops s)) (d_int s) (d_log s) (d_reads s).

Definition meta_tool (m : dict value) : string :=
  match dget "tool_name" m with Some (VStr s) => s | _ => "" end.
(** The tool and arguments of an operation. *)
Definition op_tool (o : PendingOperation) : string :=
  match tool_request o with Some q => q_tool_name q | None => meta_tool (metadata o) end.
Definition op_arguments (o : PendingOperation) : value :=
  match tool_request o with
  | Some q => VDict (q_arguments q)
  | None => default (VDict []) (dget "arguments" (metadata o))
  end.
(** The tool an operation counts for. *)
Definition counted_tool (o : PendingOperation) : string :=
  let n := match tool_request o with Some q => q_tool_name q | None => "" end in
  if nonempty n then n else meta_tool (metadata o).
Definition claims (tool : string) (o : PendingOperation) : bool :=
  bool_decide (op_type o = TOOL_REQUEST) && bool_decide (status o = PENDING)
  && bool_decide (counted_tool o = tool).
Definition in_flight_of (tool : string) (r : Registry) : Z :=
  Z.of_nat (length (List.filter (claims tool) (dvalues (_operations r)))).
Definition is_external (o : PendingOperation) : bool :=
  match dget "external_tool" (metadata o) with Some v => truthy v | None => false end.
Definition is_charged (o : PendingOperation) : bool :=
  match dget "provider_charged" (metadata o) with Some v => truthy v | None => false end.
Definition claim (charged : bool) (o : PendingOperation) : PendingOperation :=
  conclude PENDING (result o) (error o)
    (if charged then dset "provider_charged" (VBool true) (metadata o) else metadata o) o.
Definition tool_failure (e code : string) : dict value :=
  [("success", VBool false); ("error", VStr e); ("error_code", VStr code)].
(** [d.setdefault(k, v)] *)
Definition dset_default (k : string) (v : value) (d : dict value) : dict value :=
  if dmem k d then d else dset k v d.
(** The data of the contract result of a call. *)
Definition contract_data (tr : LegacyTools.ToolResult) : res (dict value) :=
  d ← match LegacyTools.tr_data tr with
      | VDict d => Ok d
      | v => if truthy v then Raise (Exn TypeError "cannot convert dictionary update sequence") else Ok []
      end;
  Ok (if LegacyTools.tr_success tr then d else
      let text o := VStr (default "" o) in
      dset_default "error_code" (text (LegacyTools.tr_code tr))
        (dset_default "error" (text (LegacyTools.tr_error tr)) (dset_default "success" (VBool false) d))).
Definition contract (o : PendingOperation) (ok : bool) (d : dict value) : ToolResultContract :=
  Contract (request_id o) d
    (VDict [("request_id", VStr (request_id o)); ("status", VStr (if ok then "completed" else "failed"));
            ("exit_code", VNone); ("stdout", VStr ""); ("stderr", VStr ""); ("data", VDict d);
            ("output_hash", VStr (hash_payload (VDict d))); ("effects", VDict []);
            ("executor_cancel_confirmed", VBool false); ("state_epoch", VInt (state_epoch o))]).

Section Dispatch.
Variable executors : ExecutorRegistry.
Variable tools : LegacyTools.ToolRegistry.
Variable iter : gset string → list string.
Variable phase_provider : option (string → option LegacyContinuation.ContinuationPhase).
Variable has_credential : string → bool.
Variable clock : nat → Q.
Variable handler_ops : LegacyTools.ToolContext → string → dict value → Registry → Registry.

Definition log_dispatch (o : PendingOperation) (tick : Z) (more : dict value) (err : option string)
    (s : dispatch_state) : dispatch_state :=
  mkDispatch (d_ops s) (d_int s)
    (LegacyKb.record "tool.dispatched" (agent_id o) tick
       ([("request_id", VStr (request_id o)); ("tool_name", VStr (op_tool o))] ++ more)
       (match err with None => true | _ => false end) err (d_log s)) (d_reads s).
(** A refusal for good: logged, and the operation completes with the error. *)
Definition deny (o : PendingOperation) (tick : Z) (code why : string) (s : dispatch_state) : dispatch_state :=
  set_dops (λ r, (complete (request_id o) (tool_failure why code) r).2)
    (log_dispatch o tick [("status", VStr code); ("reason", VStr why)] (Some why) s).

(** The gate of the platform, for external tools: [inl] ends the turn of the operation. *)
Definition provider_gate (o : PendingOperation) (tick : Z) (s : dispatch_state) : dispatch_state + dispatch_state :=
  if negb (is_external o) then inr s else
  let bad_ref :=
    match get_by_tool (op_tool o) (d_int s) with
    | Some i => if nonempty (credential_ref i) && negb (has_credential (credential_ref i))
                then Some (credential_ref i) else None
    | None => None
    end in
  match bad_ref with
  | Some c => inl (deny o tick "credential_unresolvable" ("credential_ref '" +:+ c +:+ "' is not resolvable") s)
  | None =>
      let '(a, int) := provider_admit (clock (d_reads s)) (clock (S (d_reads s))) (op_tool o) (d_int s) in
      let s := mkDispatch (d_ops s) int (d_log s) (S (S (d_reads s))) in
      if admitted a then inr s
      else if retry a then inl s
      else inl (deny o tick "provider_denied" (reason a) s)
  end.
(** The executor runs the tool now. *)
Definition run_now (o : PendingOperation) (t : ExecutorTier) (tick : Z) (s : dispatch_state) : res dispatch_state :=
  let c := LegacyTools.mkContext (agent_id o) "" tick ∅ (request_id o) in
  call ← LegacyTools.call_execute iter phase_provider c (op_tool o) (op_arguments o) tools;
  let '(tr, called) := call in
  let s := match called with
           | Some (c, kw) => set_dops (handler_ops c (op_tool o) kw) s
           | None => s
           end in
  d ← contract_data tr;
  let s := set_dops (λ r, (complete_tool (request_id o) (contract o (LegacyTools.tr_success tr) d) r).2) s in
  Ok (match get_by_id (request_id o) (d_ops s) with
      | None => s
      | Some _ => log_dispatch o tick
                    [("status", VStr "executed"); ("executor_tier", VStr (tier_value t));
                     ("success", VBool (LegacyTools.tr_success tr))] None s
      end).
(** The executor claims the operation; a platform is charged once for it. *)
Definition claim_op (o : PendingOperation) (t : option ExecutorTier) (tick : Z) (s : dispatch_state) : dispatch_state :=
  let charge := is_external o && negb (is_charged o) in
  let s := set_dops (set_ops (dset (request_id o) (claim charge o))) s in
  let s := if charge
           then mkDispatch (d_ops s)
                  (record_dispatched (clock (d_reads s)) (clock (S (d_reads s))) (op_tool o) (d_int s))
                  (d_log s) (S (S (d_reads s)))
           else s in
  log_dispatch o tick
    [("status", VStr "dispatched");
     ("executor_tier", VStr (match t with Some t => tier_value t | None => "" end))] None s.

Definition dispatch_op (o : PendingOperation) (tick : Z) (s : dispatch_state) : res dispatch_state :=
  let in_flight := in_flight_of (op_tool o) (d_ops s) in
  let m := LegacyTools.get_manifest (op_tool o) tools in
  match provider_gate o tick s with
  | inl s => Ok s
  | inr s =>
      let a := admit_op (op_tool o) m in_flight executors in
      if negb (admitted a)
      then Ok (if retry a then s else deny o tick "admission_denied" (reason a) s)
      else
        match tier (op_tool o) executors with
        | Some TRUSTED_IN_PROCESS => run_now o TRUSTED_IN_PROCESS tick s
        | Some SANDBOXED_OUT_OF_PROCESS => run_now o SANDBOXED_OUT_OF_PROCESS tick s
        | t => Ok (claim_op o t tick s)
        end
  end.
Definition waiting (o : PendingOperation) : bool :=
  bool_decide (op_type o = TOOL_REQUEST) && bool_decide (status o = SUBMITTED).
Definition dispatch_id (tick : Z) (id : string) (s : dispatch_state) : res dispatch_state :=
  match get_by_id id (d_ops s) with
  | Some o => if waiting o then dispatch_op o tick s else Ok s
  | None => Ok s
  end.
Fixpoint dispatch_ids (tick : Z) (ids : list string) (s : dispatch_state) : res dispatch_state :=
  match ids with
  | [] => Ok s
  | id :: ids => s ← dispatch_id tick id s; dispatch_ids tick ids s
  end.
Definition _phase_dispatch (tick : Z) (s : dispatch_state) : res dispatch_state :=
  dispatch_ids tick (dkeys (_operations (d_ops s))) s.
End Dispatch.

(** ** Capacity *)

Lemma count_dset tool id o (d : dict PendingOperation) :
  (length (List.filter (claims tool) (dvalues (dset id o d)))
   ≤ length (List.filter (claims tool) (dvalues d)) + (if claims tool o then 1 else 0))%nat.
Proof.
  induction d as [|[k x] d IH]; simpl; [by destruct (claims tool o)|].
  destruct (decide (id = k)); simpl; destruct (claims tool x), (claims tool o); simpl in *; lia.
Qed.
Lemma in_flight_dset tool id o r :
  in_flight_of tool (set_ops (dset id o) r) ≤ in_flight_of tool r + (if claims tool o then 1 else 0).
Proof.
  unfold in_flight_of. cbn [_operations set_ops]. pose proof (count_dset tool id o (_operations r)).
  destruct (claims tool o); lia.
Qed.
Lemma claims_completed tool res e m o : claims tool (conclude COMPLETED res e m o) = false.
Proof. unfold claims. cbn. by rewrite andb_false_r. Qed.
Lemma in_flight_complete tool id res r : in_flight_of tool (complete id res r).2 ≤ in_flight_of tool r.
Proof.
  unfold complete. destruct (dget id _) as [o|]; [|done]. destruct (dead o); [done|]. cbn [snd].
  pose proof (in_flight_dset tool id (conclude COMPLETED res (error o) (metadata o) o) r) as H.
  rewrite claims_completed in H. lia.
Qed.
Lemma in_flight_complete_tool tool id c r : in_flight_of tool (complete_tool id c r).2 ≤ in_flight_of tool r.
Proof.
  unfold complete_tool. destruct (dget id _) as [o|]; [|done]. destruct (dead o); [done|].
  destruct (decide _); [done|]. cbn [snd].
  pose proof (in_flight_dset tool id
    (conclude COMPLETED (c_data c) (error o) (dset "tool_result" (c_dump c) (metadata o)) o) r) as H.
  rewrite claims_completed in H. lia.
Qed.
Lemma claims_claim tool b o : claims tool (claim b o) = true → op_type o = TOOL_REQUEST → nonempty (op_tool o) = true →
  tool = op_tool o.
Proof.
  unfold claims. rewrite !andb_true_iff, !bool_decide_eq_true. intros [_ <-] _. unfold counted_tool, op_tool, claim, conclude.
  cbn. destruct (tool_request o) as [q|].
  - by intros ->.
  - intros _. cbn. destruct b; [|done]. unfold meta_tool. by rewrite dget_dset_ne.
Qed.

Section Bounds.
Variable executors : ExecutorRegistry.
Variable tools : LegacyTools.ToolRegistry.
Variable iter : gset string → list string.
Variable phase_provider : option (string → option LegacyContinuation.ContinuationPhase).
Variable has_credential : string → bool.
Variable clock : nat → Q.
Variable handler_ops : LegacyTools.ToolContext → string → dict value → Registry → Registry.
(** Handlers may cancel and remove operations; they claim none. *)
Hypothesis handlers_claim_none : ∀ c t kw r tool, in_flight_of tool (handler_ops c t kw r) ≤ in_flight_of tool r.
Hypothesis executors_named : dget "" executors = None.

Definition limit_of (tool : string) : Z := match dget tool executors with Some x => max_concurrent x | None => 0 end.

Lemma provider_gate_ops o tick s s' : provider_gate has_credential clock o tick s = inr s' → d_ops s' = d_ops s.
Proof.
  unfold provider_gate. destruct (is_external o); cbn [negb]; [|by intros [= <-]].
  destruct (match get_by_tool _ _ with Some _ => _ | None => _ end); [done|].
  destruct (provider_admit _ _ _ _) as [a int]. destruct (admitted a); [by intros [= <-]|]. by destruct (retry a).
Qed.
Lemma deny_flight tool o tick code why s : in_flight_of tool (d_ops (deny o tick code why s)) ≤ in_flight_of tool (d_ops s).
Proof. apply in_flight_complete. Qed.
Lemma provider_gate_flight tool o tick s s' :
  provider_gate has_credential clock o tick s = inl s' → in_flight_of tool (d_ops s') ≤ in_flight_of tool (d_ops s).
Proof.
  unfold provider_gate. destruct (is_external o); cbn [negb]; [|done].
  destruct (match get_by_tool _ _ with Some _ => _ | None => _ end).
  { intros [= <-]. apply deny_flight. }
  destruct (provider_admit _ _ _ _) as [a int]. destruct (admitted a); [done|].
  destruct (retry a); intros [= <-]; [done|]. etrans; [apply deny_flight|done].
Qed.
Lemma run_now_flight tool o t tick s s' :
  run_now tools iter phase_provider handler_ops o t tick s = Ok s' →
  in_flight_of tool (d_ops s') ≤ in_flight_of tool (d_ops s).
Proof.
  unfold run_now. destruct (LegacyTools.call_execute _ _ _ _ _ _) as [[tr called]|e]; [|done]. cbn.
  set (s1 := match called with Some (c, kw) => _ | None => _ end).
  assert (in_flight_of tool (d_ops s1) ≤ in_flight_of tool (d_ops s)) as H1.
  { unfold s1. destruct called as [[c kw]|]; [apply handlers_claim_none|done]. }
  destruct (contract_data tr) as [d|e]; [|done]. cbn.
  pose proof (in_flight_complete_tool tool (request_id o) (contract o (LegacyTools.tr_success tr) d) (d_ops s1)).
  destruct (get_by_id _ _); intros [= <-]; cbn; lia.
Qed.
Lemma admit_capacity tool m n : admitted (admit_op tool m n executors) = true → n < limit_of tool.
Proof.
  unfold admit_op, limit_of, capacity. destruct (dget tool executors) as [x|]; [|done].
  destruct (required_tiers _); [destruct (decide _); [|done]|];
    destruct (Z.leb_spec (max_concurrent x) n); done.
Qed.

Lemma dispatch_op_flight tool o tick s s' :
  op_type o = TOOL_REQUEST →
  dispatch_op executors tools iter phase_provider has_credential clock handler_ops o tick s = Ok s' →
  in_flight_of tool (d_ops s') ≤ Z.max (in_flight_of tool (d_ops s)) (limit_of tool).
Proof.
  intros Hty. unfold dispatch_op. destruct (provider_gate _ _ o tick s) as [s1|s1] eqn:Eg.
  { intros [= <-]. apply (provider_gate_flight tool) in Eg. lia. }
  apply provider_gate_ops in Eg. rewrite <-Eg.
  set (a := admit_op _ _ _ _). destruct (admitted a) eqn:Ea; cbn [negb].
  2:{ destruct (retry a); intros [= <-]; [lia|]. pose proof (deny_flight tool o tick "admission_denied" (reason a) s1). lia. }
  apply admit_capacity in Ea.
  assert (nonempty (op_tool o) = true) as Hne.
  { destruct (op_tool o) eqn:E; [|done]. exfalso. unfold a, admit_op in *. unfold limit_of in Ea.
    rewrite executors_named in Ea. unfold in_flight_of in Ea. lia. }
  assert (∀ t, in_flight_of tool (d_ops (claim_op clock o t tick s1)) ≤ Z.max (in_flight_of tool (d_ops s1)) (limit_of tool)) as Hc.
  { intros t. unfold claim_op. set (b := is_external o && negb (is_charged o)).
    assert (d_ops (claim_op clock o t tick s1) = set_ops (dset (request_id o) (claim b o)) (d_ops s1)) as E.
    { unfold claim_op. fold b. by destruct b. }
    unfold claim_op in E. fold b in E. rewrite E.
    pose proof (in_flight_dset tool (request_id o) (claim b o) (d_ops s1)) as H.
    destruct (claims tool (claim b o)) eqn:Ecl; [|lia].
    apply claims_claim in Ecl; [|done|done]. subst tool. lia. }
  destruct (tier _ executors) as [[]|]; try (intros [= <-]; apply Hc);
    intros H%(run_now_flight tool); lia.
Qed.

(** In a dispatch phase no executor is given more than it can take: whatever waits, the claimed
    operations of a tool number at most its executor's capacity, or what they numbered before. *)
Theorem capacity_respected tool tick s s' :
  _phase_dispatch executors tools iter phase_provider has_credential clock handler_ops tick s = Ok s' →
  in_flight_of tool (d_ops s') ≤ Z.max (in_flight_of tool (d_ops s)) (limit_of tool).
Proof.
  unfold _phase_dispatch. generalize (dkeys (_operations (d_ops s))) as ids. intros ids. revert s.
  induction ids as [|id ids IH]; intros s; cbn [dispatch_ids]; [intros [= <-]; lia|].
  destruct (dispatch_id _ _ _ _ _ _ _ _ _ _) as [s1|e] eqn:E; [|done]. cbn. intros H%IH.
  assert (in_flight_of tool (d_ops s1) ≤ Z.max (in_flight_of tool (d_ops s)) (limit_of tool)); [|lia].
  unfold dispatch_id in E. destruct (get_by_id id (d_ops s)) as [o|]; [|injection E as <-; lia].
  destruct (waiting o) eqn:Ew; [|injection E as <-; lia].
  apply andb_true_iff in Ew as [Ew _]. apply bool_decide_eq_true in Ew. by eapply dispatch_op_flight.
Qed.
End Bounds.

(** ** The quota of a platform *)

(** Attempts to dispatch tools at times, as the dispatch phase makes them: the quota is asked, and
    charged when it admits.  The calls made, with their provider. *)
Definition attempt (st : IntegrationRegistry * list (string * Q)) (a : string * Q) :
    IntegrationRegistry * list (string * Q) :=
  let '(r, log) := st in
  let '(tool, t) := a in
  let '(ad, r) := provider_admit t t tool r in
  if admitted ad
  then (record_dispatched t t tool r, log ++ [(default "" (provider_for_tool tool r), t)])
  else (r, log).
Definition attempts (r : IntegrationRegistry) (l : list (string * Q)) : IntegrationRegistry * list (string * Q) :=
  foldl attempt (r, []) l.
Definition times (p : string) (log : list (string * Q)) : list Q :=
  map snd (List.filter (λ x, bool_decide (x.1 = p)) log).
(** How many of the times lie in [a, b), and how many at or after [a]. *)
Definition count_in (a b : Q) (l : list Q) : nat :=
  length (List.filter (λ t, Qle_bool a t && negb (Qle_bool b t)) l).
Definition count_from (a : Q) (l : list Q) : nat := length (List.filter (λ t, Qle_bool a t) l).
Definition keyed (r : IntegrationRegistry) : Prop := ∀ p i, dget p (_integrations r) = Some i → i_name i = p.

Lemma times_snoc p log q t : times p (log ++ [(q, t)]) = times p log ++ (if decide (q = p) then [t] else []).
Proof.
  unfold times. rewrite List.filter_app, map_app. f_equal. simpl.
  destruct (decide (q = p)); [by rewrite bool_decide_true|by rewrite bool_decide_false].
Qed.
Lemma count_in_snoc a b l t :
  count_in a b (l ++ [t]) = (count_in a b l + (if Qle_bool a t && negb (Qle_bool b t) then 1 else 0))%nat.
Proof. unfold count_in. rewrite List.filter_app, length_app. simpl. by destruct (_ && _). Qed.
Lemma count_from_snoc a l t : count_from a (l ++ [t]) = (count_from a l + (if Qle_bool a t then 1 else 0))%nat.
Proof. unfold count_from. rewrite List.filter_app, length_app. simpl. by destruct (Qle_bool a t). Qed.
Lemma qle a b : Qle_bool a b = true ↔ (a <= b)%Q.
Proof. apply Qle_bool_iff. Qed.
Lemma qlt a b : Qle_bool a b = false ↔ (b < a)%Q.
Proof.
  rewrite <-not_true_iff_false, qle. split; [apply Qnot_le_lt|apply Qlt_not_le].
Qed.
Lemma count_in_from a b l : (count_in a b l ≤ count_from a l)%nat.
Proof.
  unfold count_in, count_from. induction l as [|t l IH]; simpl; [lia|].
  destruct (Qle_bool a t); simpl; [destruct (negb _); simpl|]; lia.
Qed.
Lemma count_from_mono a b l : (a <= b)%Q → (count_from b l ≤ count_from a l)%nat.
Proof.
  intros Hab. unfold count_from. induction l as [|t l IH]; simpl; [lia|].
  destruct (Qle_bool b t) eqn:E; simpl.
  - apply qle in E. assert (Qle_bool a t = true) as -> by (apply qle; lra). simpl. lia.
  - destruct (Qle_bool a t); simpl; lia.
Qed.
(** An interval splits at any point. *)
Lemma count_in_split a b s l : (count_in a b l ≤ count_in a s l + count_from s l)%nat.
Proof.
  unfold count_in, count_from. induction l as [|t l IH]; simpl; [lia|].
  destruct (Qle_bool a t), (Qle_bool b t), (Qle_bool s t); simpl in *; lia.
Qed.
Lemma count_from_none a l : (∀ t, t ∈ l → (t < a)%Q) → count_from a l = 0%nat.
Proof.
  unfold count_from. induction l as [|t l IH]; intros H; simpl; [done|].
  rewrite (proj2 (qlt _ _) (H t ltac:(left))). apply IH. intros x Hx. apply H. by right.
Qed.

Section Quota.
Variables (max : nat) (W : Q).
Hypothesis W_pos : (0 < W)%Q.

(** What a window knows of the calls of its provider. *)
Record tallied (w : _WindowState) (l : list Q) : Prop := mkTallied {
  ty_count : calls_in_window w = Z.of_nat (count_from (window_started_at w) l);
  ty_max : (count_from (window_started_at w) l ≤ max)%nat;
  ty_before : ∀ a, (window_started_at w - W <= a)%Q → (count_in a (window_started_at w) l ≤ max)%nat;
  ty_span : ∀ x, x ∈ l → (x < window_started_at w + W)%Q;
  ty_all : ∀ a, (count_in a (a + W) l ≤ 2 * max)%nat }.

(** The window that starts when the old one is over. *)
Lemma tallied_fresh w l t :
  tallied w l → (W <= t - window_started_at w)%Q → tallied (mkWindow t 0) l.
Proof.
  intros [H1 H2 H3 H5 H4] Hw.
  assert (∀ x, x ∈ l → (x < t)%Q) as Ht by (intros x Hx%H5; lra).
  pose proof (count_from_none t l Ht) as Hz.
  split; cbn [window_started_at calls_in_window]; [by rewrite Hz|rewrite Hz; lia| | |done].
  - intros a Ha. pose proof (count_in_from a t l).
    pose proof (count_from_mono (window_started_at w) a l ltac:(lra)). lia.
  - intros x Hx%Ht. lra.
Qed.
(** One more call in the window. *)
Lemma tallied_call w l t :
  tallied w l → (window_started_at w <= t)%Q → (t < window_started_at w + W)%Q →
  (calls_in_window w < Z.of_nat max) →
  tallied (mkWindow (window_started_at w) (calls_in_window w + 1)) (l ++ [t]).
Proof.
  intros [H1 H2 H3 H5 H4] Hs Ht Hc. rewrite H1 in Hc.
  assert (Qle_bool (window_started_at w) t = true) as Hst by by apply qle.
  split; cbn [window_started_at calls_in_window]; rewrite ?count_from_snoc, ?Hst.
  - lia.
  - lia.
  - intros a Ha. rewrite count_in_snoc, Hst, andb_false_r. specialize (H3 a Ha). lia.
  - intros x [Hx|Hx]%elem_of_app; [by apply H5|]. by apply list_elem_of_singleton in Hx as ->.
  - intros a. rewrite count_in_snoc. specialize (H4 a).
    destruct (Qle_bool a t && negb (Qle_bool (a + W) t)) eqn:E; [|lia].
    apply andb_true_iff in E as [_ E]. apply negb_true_iff, qlt in E.
    pose proof (count_in_split a (a + W) (window_started_at w) l).
    specialize (H3 a ltac:(lra)). lia.
Qed.
Lemma tallied_empty t : tallied (mkWindow t 0) [].
Proof.
  split; cbn; [done|lia|intros; cbn; lia|intros x Hx; by apply elem_of_nil in Hx|intros; cbn; lia].
Qed.
End Quota.

Section Rate.
Variables (p : string) (i : Integration).
Hypothesis limited : limit_ok (rate_limits i) = true.
Notation maxc := (Z.to_nat (max_calls (rate_limits i))).
Notation W := (window_seconds (rate_limits i)).

(** The window of the provider agrees with the calls made, at any time from [now] on. *)
Definition in_step (now : Q) (st : IntegrationRegistry * list (string * Q)) : Prop :=
  keyed st.1 ∧ dget p (_integrations st.1) = Some i ∧
  match dget p (_windows st.1) with
  | None => times p st.2 = []
  | Some w => tallied maxc W w (times p st.2) ∧ (window_started_at w <= now)%Q
  end.

Lemma limits : (0 < W)%Q ∧ 0 ≤ max_calls (rate_limits i).
Proof.
  unfold limit_ok in limited. apply andb_true_iff in limited as [H1%Z.leb_le H2%negb_true_iff%qlt]. done.
Qed.
Lemma window_in_step now st t :
  in_step now st → (now <= t)%Q →
  let w := window_at t t i st.1 in
  tallied maxc W w (times p st.2) ∧ (window_started_at w <= t)%Q ∧ (t < window_started_at w + W)%Q.
Proof.
  intros (Hk & Hi & Hw) Hn. destruct limits as [HW Hm]. unfold window_at. rewrite (Hk p i Hi).
  destruct (dget p (_windows st.1)) as [w|]; cbn [from_option id].
  - destruct Hw as [Hw Hs]. destruct (Qle_bool W (t - window_started_at w)) eqn:E.
    + apply qle in E. split; [by eapply tallied_fresh|]. cbn. split; lra.
    + apply qlt in E. split; [done|]. split; lra.
  - rewrite Hw. destruct (Qle_bool _ _); (split; [by apply tallied_empty|]); cbn; split; lra.
Qed.
Lemma attempt_in_step now st tool t :
  in_step now st → (now <= t)%Q → in_step t (attempt st (tool, t)).
Proof.
  intros Hst Hn. pose proof (window_in_step now st t Hst Hn) as (Hw & Hs & Hb).
  destruct st as [r log]. cbn [fst snd] in *. destruct Hst as (Hk & Hi & Hp). cbn [fst snd] in *.
  unfold attempt, provider_admit. destruct (get_by_tool tool r) as [j|] eqn:Et; cbn [admitted].
  2:{ split; [done|]. split; [done|]. cbn. destruct (dget p (_windows r)); [|done]. destruct Hp. split; [done|lra]. }
  assert (∃ q, provider_for_tool tool r = Some q ∧ dget q (_integrations r) = Some j) as (q & Hq & Hj).
  { unfold get_by_tool in Et. destruct (provider_for_tool tool r) as [q|]; [|done]. by exists q. }
  set (w := window_at t t j r). set (r1 := set_windows (dset (i_name j) w) r).
  assert (in_step t (r1, log)) as H1.
  { split; [done|]. split; [done|]. cbn. rewrite (Hk q j Hj), dget_dset.
    destruct (decide (p = q)) as [->|Hne].
    - assert (j = i) as -> by congruence. done.
    - destruct (dget p (_windows r)); [|done]. destruct Hp. split; [done|lra]. }
  destruct (max_calls (rate_limits j) <=? calls_in_window w) eqn:Em; cbn [admitted]; [done|].
  apply Z.leb_gt in Em.
  assert (get_by_tool tool r1 = Some j) as Et1 by exact Et.
  assert (provider_for_tool tool r1 = Some q) as Hq1 by exact Hq.
  unfold record_dispatched. rewrite Et1, Hq1. cbn [from_option id].
  pose proof (window_in_step t (r1, log) t H1 ltac:(lra)) as (Hw' & Hs' & Hb'). cbn [fst snd] in *.
  split; [done|]. split; [done|]. cbn [fst snd _windows set_windows]. rewrite dget_dset, times_snoc.
  rewrite (Hk q j Hj). destruct (decide (p = q)) as [->|Hne].
  - assert (j = i) as -> by congruence. rewrite decide_True by done.
    assert (window_at t t i r1 = w) as E.
    { assert (dget (i_name i) (_windows r1) = Some w) as Hwin by apply dget_dset_eq.
      unfold window_at at 1. rewrite Hwin. cbv zeta. cbn [from_option id].
      destruct (Qle_bool W (t - window_started_at w)) eqn:Eb; [|reflexivity].
      apply qle in Eb. unfold w in Eb. lra. }
    rewrite E in *. split; [|cbn; lra]. apply tallied_call; try done. destruct limits. lia.
  - rewrite decide_False by done. rewrite app_nil_r. destruct H1 as (_ & _ & H1). cbn [fst snd] in H1.
    unfold r1 in H1 |- *. cbn [_windows set_windows] in H1 |- *. rewrite (Hk q j Hj) in *.
    rewrite dget_dset_ne by done. rewrite dget_dset_ne in H1 by done. exact H1.
Qed.
Lemma attempts_in_step l now st :
  in_step now st → StronglySorted (λ x y : string * Q, (x.2 <= y.2)%Q) l → Forall (λ x, (now <= x.2)%Q) l →
  ∃ now', in_step now' (foldl attempt st l).
Proof.
  revert now st. induction l as [|[tool t] l IH]; intros now st Hst Hs Hn; [by exists now|].
  apply StronglySorted_inv in Hs as [Hs Ha]. apply Forall_cons in Hn as [Hn _].
  apply (IH t); [by apply (attempt_in_step now)|done|done].
Qed.
End Rate.

(** In any stretch of time as long as its window, a platform is called at most twice as often
    as its quota says, whatever tools are tried and whenever. *)
Theorem provider_rate_bounded r l p i a :
  keyed r → _windows r = [] → dget p (_integrations r) = Some i → limit_ok (rate_limits i) = true →
  StronglySorted (λ x y : string * Q, (x.2 <= y.2)%Q) l →
  (count_in a (a + window_seconds (rate_limits i)) (times p (attempts r l).2)
   ≤ 2 * Z.to_nat (max_calls (rate_limits i)))%nat.
Proof.
  intros Hk Hw Hi Hl Hs. destruct l as [|[tool t] l]; [cbn; lia|].
  destruct (attempts_in_step p i Hl ((tool, t) :: l) t (r, [])) as (now & _ & _ & H).
  - split; [done|]. split; [done|]. cbn. by rewrite Hw.
  - done.
  - apply StronglySorted_inv in Hs as [_ Ha]. constructor; [cbn; lra|done].
  - unfold attempts. destruct (dget p (_windows _)); [|rewrite H; cbn; lia]. destruct H as [[_ _ _ _ H] _]. apply H.
Qed.

(** ** Witnesses and counterexamples *)

Definition slow : ToolManifest :=
  mkManifest "slow" "1" LOCAL_PROCESS [] [] "" [] [] [] [] true false true false ["none"] None None false
    false R_NONE None "" "" "" [] "" "".
Definition tool_op_ (id : string) (meta : dict value) : PendingOperation :=
  mkOp id TOOL_REQUEST "ann" "" "" 1 2 None SUBMITTED [] "" 0 3 0 None
    ([("tool_name", VStr "slow"); ("arguments", VDict [])] ++ meta).
Definition two_ops (meta : dict value) : Registry :=
  mkRegistry [("o1", tool_op_ "o1" meta); ("o2", tool_op_ "o2" meta)] [].
Definition shop : Integration := mkIntegration "shop" "" (mkLimit 1 60) [slow] [] "" None.
Definition shops : IntegrationRegistry := (register_integration shop IntegrationRegistry_init).2.
Definition slow_tools (h : LegacyTools.Handler) : LegacyTools.ToolRegistry :=
  LegacyTools.mkTools None [("ann", {["slow"]})] [("slow", h)] [("slow", slow)] None [] [].
Definition one_executor (t : ExecutorTier) : ExecutorRegistry := (register_executor "slow" t "" 1 []).2.
Definition phase (t : ExecutorTier) (h : LegacyTools.Handler) (meta : dict value) : res dispatch_state :=
  _phase_dispatch (one_executor t) (slow_tools h) elements None (λ _, true) (λ n, inject_Z (Z.of_nat n))
    (λ _ _ _ r, r) 1 (mkDispatch (two_ops meta) shops [] 0).

Lemma capacity_respected_witness :
  ∃ s, phase UNTRUSTED_OUT_OF_PROCESS (λ _ d, LegacyTools.HData (VDict d)) [] = Ok s ∧
    in_flight_of "slow" (d_ops s) ≤ 1 ∧ map status (dvalues (_operations (d_ops s))) = [PENDING; SUBMITTED].
Proof.
  destruct (phase UNTRUSTED_OUT_OF_PROCESS (λ _ d, LegacyTools.HData (VDict d)) []) as [s|e] eqn:E;
    [|vm_compute in E; discriminate].
  exists s. split; [done|].
  pose proof (capacity_respected (one_executor UNTRUSTED_OUT_OF_PROCESS)
    (slow_tools (λ _ d, LegacyTools.HData (VDict d))) elements None (λ _, true) (λ n, inject_Z (Z.of_nat n))
    (λ _ _ _ r, r) (λ _ _ _ _ _, Z.le_refl _) eq_refl "slow" 1 _ s E) as H.
  split; [exact H|]. vm_compute in E. injection E as <-. reflexivity.
Defined.

Lemma provider_rate_bounded_witness :
  (count_in 0 60 (times "shop" (attempts shops [("slow", 0); ("slow", 30); ("slow", 61)]%Q).2) ≤ 2)%nat.
Proof.
  assert (keyed shops) as Hk.
  { intros p i H. cbn in H. destruct (decide (p = "shop")) as [->|]; [|done]. by injection H as <-. }
  pose proof (provider_rate_bounded shops [("slow", 0); ("slow", 30); ("slow", 61)]%Q "shop" shop 0
    Hk eq_refl eq_refl eq_refl ltac:(repeat constructor; cbn; lra)) as H.
  exact H.
Defined.

(** The quota is kept per window that starts afresh, not over a sliding one: two calls follow each
    other within two seconds although one is allowed in sixty. *)
Lemma quota_doubles :
  let r := set_windows (dset "shop" (mkWindow 0 0)) shops in
  times "shop" (attempts r [("slow", 59); ("slow", 60)]%Q).2 = [59; 60]%Q.
Proof. by vm_compute. Qed.
(** An external tool with an executor in the process runs without being charged to its platform. *)
Lemma in_process_uncharged :
  match phase TRUSTED_IN_PROCESS (λ _ d, LegacyTools.HData (VDict d)) [("external_tool", VBool true)] with
  | Ok s => map status (dvalues (_operations (d_ops s))) = [COMPLETED; COMPLETED] ∧
            map calls_in_window (dvalues (_windows (d_int s))) = [0]
  | Raise _ => False
  end.
Proof. by vm_compute. Qed.
(** A handler that returns a list makes the dispatch phase raise. *)
Lemma list_result_raises :
  ∃ e, phase TRUSTED_IN_PROCESS (λ _ _, LegacyTools.HData (VList [VInt 1])) [] = Raise e.
Proof. eexists. vm_compute. reflexivity. Qed.
(** An integration whose registration is refused stays registered, with the tools before the
    disputed one. *)
Lemma refused_integration_stays :
  let other := mkIntegration "other" "" (mkLimit 1 60) [builtin_read; slow] [] "" None in
  let '(e, r) := register_integration other shops in
  is_Some e ∧ get_integration "other" r = Some other ∧ provider_for_tool "read" r = Some "other".
Proof. vm_compute. split; [by eexists|done]. Qed.
(** An integration registered anew with fewer tools still owns those it gave up. *)
Lemma replaced_integration_keeps_tools :
  let i := mkIntegration "shop" "" (mkLimit 1 60) [] [] "" None in
  let r := (register_integration i shops).2 in
  provider_for_tool "slow" r = Some "shop" ∧ get_by_tool "slow" (unregister_integration "shop" r) = None ∧
  provider_for_tool "slow" (unregister_integration "shop" r) = Some "shop".
Proof. by vm_compute. Qed.
