(* ===== verification/LegacyIngest.v ===== *)
(** * The Ingest phase of a tick in the previous architecture

    [_phase_ingest] and [_consume_ingress] of legacy/simulation.py: operations that timed out,
    failed or completed are delivered to the agents that wait for them, results of another epoch
    or of a superseded request are refused, and the events of the platforms are routed: receipts
    complete operations, the actions of human workers are parked for their assignee, the others
    wake the agents that subscribed.

    A completed language-model call is charged to the budget (LegacyBudget), which raises when its
    usage report holds what [int] refuses.  The identifiers of wake events are drawn by [fresh].
    The resolver of a receipt does not raise. *)

From stdpp Require Import base gmap strings list pretty.
From Stdlib Require Import ZArith QArith Lia.
From S2P Require Import Prelude PyValue.
From S2P Require LegacyKb LegacyScheduler LegacyTask LegacyAgentTree LegacyAgentState LegacyDispatch.
From S2P Require LegacyBudget LegacyIngress LegacyClock LlmRuntime.
From S2P Require Import LegacyContinuation LegacyOps.

Open Scope string_scope.
Open Scope Z_scope.
Open Scope list_scope.

(** What the phase works on. *)
Record ingest := mkIngest {
  n_ops : Registry; n_agents : dict AgentRuntimeState; n_sched : LegacyScheduler.AgentScheduler;
  n_wakes : nat; n_log : list LegacyKb.AuditEntry; n_budget : LegacyBudget.BudgetTracker;
  n_buffer : LegacyIngress.IngressBuffer; n_human : dict (list (dict value)) }.

Definition set_nops (f : Registry → Registry) (s : ingest) : ingest :=
  mkIngest (f (n_ops s)) (n_agents s) (n_sched s) (n_wakes s) (n_log s) (n_budget s) (n_buffer s) (n_human s).
Definition set_agents (f : dict AgentRuntimeState → dict AgentRuntimeState) (s : ingest) : ingest :=
  mkIngest (n_ops s) (f (n_agents s)) (n_sched s) (n_wakes s) (n_log s) (n_budget s) (n_buffer s) (n_human s).
Definition set_human (f : dict (list (dict value)) → dict (list (dict value))) (s : ingest) : ingest :=
  mkIngest (n_ops s) (n_agents s) (n_sched s) (n_wakes s) (n_log s) (n_budget s) (n_buffer s) (f (n_human s)).
(** An entry of the audit log. *)
Definition note (ty agent : string) (tick : Z) (d : dict value) (ok : bool) (err : option string) : M ingest () :=
  modify (λ s, mkIngest (n_ops s) (n_agents s) (n_sched s) (n_wakes s)
                 (LegacyKb.record ty agent tick d ok err (n_log s)) (n_budget s) (n_buffer s) (n_human s)).

(** ** The charge of a completed language-model call *)

Section Usage.
Variable clock : LegacyClock.TickConfig.                      (** [_tick_engine.config] *)
Variable pricing : option (dict LegacyBudget.price).          (** [_config.budget.pricing] *)
Variable tick : Z.

(** [d.get(k, dflt) or dflt] *)
Definition get_or (dflt : value) (o : option value) : value :=
  match o with Some v => if truthy v then v else dflt | None => dflt end.
Definition token_count (k : string) (u : dict value) : res Z := LlmRuntime.py_int (get_or (VInt 0) (dget k u)).

(** [for m in messages or ()]: an entry that is no dict has no content. *)
Definition message_of (v : value) : LegacyBudget.message :=
  match v with VDict d => LegacyBudget.MDict d | _ => LegacyBudget.MObject None end.
Definition messages_of (v : value) : res (list LegacyBudget.message) :=
  if truthy v then
    match v with
    | VList l => Ok (map message_of l)
    | VDict d => Ok (map (λ kv, message_of (VStr kv.1)) d)
    | VStr s => Ok (map (λ c, message_of (VStr c)) (utf8_chars s))
    | _ => Raise (Exn TypeError ("'" +:+ type_name v +:+ "' object is not iterable"))
    end
  else Ok [].

(** The input and output tokens: those of the usage report, or an estimate of the request. *)
Definition used_tokens (tick_duration : Q) (o : PendingOperation) : res (Z * Z) :=
  match dget "usage" (result o) with
  | Some (VDict u) =>
      i ← token_count "prompt_tokens" u; n ← token_count "completion_tokens" u; Ok (i, n)
  | _ =>
      let deadline := default (created_tick o + 1) (deadline_tick o) in
      let timeout_ticks := Z.max 1 (deadline - created_tick o) in
      ms ← messages_of (default (VList []) (dget "messages" (metadata o)));
      m ← LlmRuntime.py_int (default (VInt 4096) (dget "max_tokens" (metadata o)));
      let est := LegacyBudget.estimate_llm_usage "" ms m timeout_ticks tick_duration pricing in
      Ok (LegacyBudget.input_tokens est, LegacyBudget.output_tokens est)
  end.

(** What is charged.  The price of a model name that is no text is the default one, unless it
    cannot be looked up. *)
Definition llm_invocation (o : PendingOperation) : res LegacyBudget.invocation :=
  d ← LegacyClock.tick_duration_timedelta clock;
  let tick_duration := (inject_Z d / inject_Z LegacyClock.SECOND)%Q in
  let wall := (inject_Z (Z.max 0 (tick - created_tick o)) * tick_duration)%Q in
  t ← used_tokens tick_duration o;
  let invocation model cost := LegacyBudget.Invocation model t.1 t.2 cost wall pricing in
  match get_or (VStr "") (dget "model" (metadata o)) with
  | VStr model => Ok (invocation model None)
  | v => if hashable v
         then let p := LegacyBudget.DEFAULT_PRICE_PER_1M in
              Ok (invocation "" (Some ((inject_Z (Z.max 0 t.1) * p.1 + inject_Z (Z.max 0 t.2) * p.2) / 1000000)%Q))
         else Raise (Exn TypeError ("unhashable type: '" +:+ type_name v +:+ "'"))
  end.
Definition _record_llm_usage (o : PendingOperation) : M ingest () :=
  i ← lift (llm_invocation o);
  modify (λ s, mkIngest (n_ops s) (n_agents s) (n_sched s) (n_wakes s) (n_log s)
                 (LegacyBudget.record_llm (agent_id o) (task_id o) i (n_budget s)).2 (n_buffer s) (n_human s)).

Lemma py_int_number v q : as_number v = Some q → ∃ z, LlmRuntime.py_int v = Ok z.
Proof using. destruct v as [|[]| | | | |]; simpl; try done; by eexists. Qed.
Lemma count_number k u : (∀ v, dget k u = Some v → v = VNone ∨ ∃ q, as_number v = Some q) →
  ∃ z, token_count k u = Ok z.
Proof using.
  intros H. unfold token_count, get_or. destruct (dget k u) as [v|]; [|by eexists].
  destruct (H v eq_refl) as [->|[q Hq]]; [by eexists|]. destruct (truthy v); [by eapply py_int_number|by eexists].
Qed.
(** A report whose counts are numbers or missing, of a call to a model with a name, is charged. *)
Lemma numeric_usage_charged o u m d :
  LegacyClock.tick_duration_timedelta clock = Ok d →
  dget "usage" (result o) = Some (VDict u) → dget "model" (metadata o) = Some (VStr m) →
  (∀ k v, k ∈ ["prompt_tokens"; "completion_tokens"] → dget k u = Some v →
     v = VNone ∨ ∃ q, as_number v = Some q) →
  ∃ i, llm_invocation o = Ok i.
Proof using.
  intros Hd Hu Hm Hn. unfold llm_invocation. rewrite Hd. cbn [mbind res_bind]. unfold used_tokens. rewrite Hu.
  destruct (count_number "prompt_tokens" u) as [i ->]; [intros v; apply Hn; left|].
  destruct (count_number "completion_tokens" u) as [n ->]; [intros v; apply Hn; right; left|].
  cbn [mbind res_bind]. unfold get_or. rewrite Hm. destruct (truthy (VStr m)); by eexists.
Qed.
End Usage.

Section Ingest.
Variable fresh : nat → string.
Variable clock : LegacyClock.TickConfig.
Variable pricing : option (dict LegacyBudget.price).
Variable epoch : Z.                     (** [_state_epoch] *)
Variable tick : Z.

(** An event that wakes an agent in this tick. *)
Definition wake (ty : LegacyScheduler.WakeEventType) (agent src task : string) (d : dict value) : M ingest () :=
  modify (λ s, mkIngest (n_ops s) (n_agents s)
    (LegacyScheduler.enqueue_event
       (LegacyScheduler.mkEvent (fresh (n_wakes s)) ty agent tick tick src task "" "" d) (n_sched s))
    (S (n_wakes s)) (n_log s) (n_budget s) (n_buffer s) (n_human s)).
Definition drop_op (o : PendingOperation) : M ingest () := modify (set_nops (λ r, (remove (request_id o) r).2)).

Definition waits_for (o : PendingOperation) (s : ingest) : bool :=
  match dget (agent_id o) (n_agents s) with
  | Some r => bool_decide (pending_request_id (continuation r) = request_id o)
  | None => false
  end.

(** Wakes the agent of an operation whose result was delivered. *)
Definition result_details (o : PendingOperation) (kind : string) (r : dict value) : dict value :=
  [("request_id", VStr (request_id o)); ("result_type", VStr kind); ("result", VDict r)].
Definition _enqueue_result_wake (o : PendingOperation) (r : dict value) : M ingest () :=
  match op_type o with
  | LLM_REQUEST => wake LegacyScheduler.TOOL_RESULT (agent_id o) "llm_gateway" (task_id o)
                     (result_details o "llm_result" r)
  | TOOL_REQUEST =>
      if LegacyDispatch.is_external o
      then match default (VStr "external") (dget "provider" (metadata o)) with
           | VStr p => wake LegacyScheduler.EXTERNAL_RESULT (agent_id o) p (task_id o)
                         (result_details o "external_result" r)
           | _ => raise ValidationError "source_agent_id"
           end
      else wake LegacyScheduler.TOOL_RESULT (agent_id o) "tool_executor" (task_id o)
             (result_details o "tool_result" r)
  | _ => mret ()
  end.
Definition receive_result (o : PendingOperation) (r : dict value) : AgentContinuation → AgentContinuation :=
  match op_type o with
  | LLM_REQUEST => receive_llm_result r tick
  | TOOL_REQUEST => if LegacyDispatch.is_external o then receive_external_result r tick
                    else receive_tool_result r tick
  | _ => id
  end.
Definition receive_ (o : PendingOperation) (r : dict value) : M ingest () :=
  modify (set_agents (λ d, match dget (agent_id o) d with
                           | Some rs => dset (agent_id o) (set_continuation (receive_result o r) rs) d
                           | None => d
                           end)).

(** ** Operations that ended *)

Definition timed_out_result (o : PendingOperation) : dict value :=
  [("error", VStr ("Operation timed out at tick " +:+ pretty tick)); ("timed_out", VBool true);
   ("request_id", VStr (request_id o))].
Definition failed_result (o : PendingOperation) : dict value :=
  [("error", VStr (if nonempty (error o) then error o else "Operation failed (" +:+ request_id o +:+ ")"));
   ("failed", VBool true); ("request_id", VStr (request_id o))].

Definition deliver_if_waiting (o : PendingOperation) (r : dict value) : M ingest () :=
  w ← gets (waits_for o);
  if (w : bool) then receive_ o r;; _enqueue_result_wake o r else mret ().
Definition ingest_expired (o : PendingOperation) : M ingest () :=
  note "tool.result" (agent_id o) tick
    [("request_id", VStr (request_id o)); ("status", VStr "timed_out");
     ("op_type", VStr (type_value (op_type o))); ("state_epoch", VInt (state_epoch o))]
    false (Some ("Operation timed out at tick " +:+ pretty tick));;
  deliver_if_waiting o (timed_out_result o);;
  drop_op o.
Definition ingest_failed (o : PendingOperation) : M ingest () :=
  note "tool.result" (agent_id o) tick
    [("request_id", VStr (request_id o)); ("op_type", VStr (type_value (op_type o))); ("status", VStr "failed");
     ("error", VStr (error o)); ("state_epoch", VInt (state_epoch o))]
    false (Some (if nonempty (error o) then error o else "operation failed"));;
  deliver_if_waiting o (failed_result o);;
  drop_op o.

(** The details of the audit entry of a tool result, with the fields of its contract. *)
Definition contract_field (k : string) (dflt : value) (d : dict value) : value := default dflt (dget k d).
Definition tool_result_details (o : PendingOperation) : dict value :=
  let d := [("request_id", VStr (request_id o));
            ("tool_name", match tool_request o with
                          | Some q => VStr (q_tool_name q)
                          | None => default (VStr "") (dget "tool_name" (metadata o))
                          end);
            ("state_epoch", VInt (state_epoch o))] in
  let d := match tool_request o with
           | Some q => d ++ [("tool_version", VStr (tool_version q)); ("manifest_hash", VStr (manifest_hash q));
                             ("input_hash", VStr (input_hash q))]
           | None => d
           end in
  match dget "tool_result" (metadata o) with
  | Some (VDict c) => d ++ [("output_hash", contract_field "output_hash" (VStr "") c);
                            ("result_status", contract_field "status" (VStr "") c);
                            ("executor_cancel_confirmed",
                             contract_field "executor_cancel_confirmed" (VBool false) c)]
  | _ => d
  end.
Definition stale (o : PendingOperation) (reason : string) (more : dict value) (err : string) : M ingest () :=
  note "result.stale" (agent_id o) tick
    ([("request_id", VStr (request_id o)); ("op_type", VStr (type_value (op_type o))); ("reason", VStr reason)]
       ++ more) false (Some err);;
  drop_op o.
Definition pending_of (o : PendingOperation) (s : ingest) : string :=
  match dget (agent_id o) (n_agents s) with Some r => pending_request_id (continuation r) | None => "" end.
Definition ingest_completed (o : PendingOperation) : M ingest () :=
  if decide (state_epoch o ≠ epoch)
  then stale o "epoch_mismatch" [("op_epoch", VInt (state_epoch o)); ("current_epoch", VInt epoch)]
         "Result belongs to a superseded state epoch"
  else
    w ← gets (waits_for o); p ← gets (pending_of o);
    if negb (w : bool)
    then stale o "superseded" [("pending_request_id", VStr p)] "Result for superseded operation discarded"
    else
      (match op_type o with
       | LLM_REQUEST => receive_ o (result o);; _record_llm_usage clock pricing tick o
       | TOOL_REQUEST => receive_ o (result o)
       | _ => mret ()
       end);;
      _enqueue_result_wake o (result o);;
      (match op_type o with
       | TOOL_REQUEST => note "tool.result" (agent_id o) tick (tool_result_details o) true None
       | _ => mret ()
       end);;
      drop_op o.

(** The three loops at the start of the phase. *)
Definition ingest_ops : M ingest () :=
  (λ s, let '(l, r) := timeout_expired tick (n_ops s) in mfor l ingest_expired (set_nops (λ _, r) s));;
  failed ← gets (λ s, List.filter (is_status [FAILED]) (dvalues (_operations (n_ops s))));
  mfor failed ingest_failed;;
  completed ← gets (λ s, collect_completed tick (n_ops s));
  mfor completed ingest_completed.
End Ingest.

(** ** Removal of operations *)

(** An operation that ended, with its result unless it is refused. *)
Definition ended : Type := PendingOperation * option (dict value).
Definition ids_of (l : list ended) : list string := map (λ e, request_id e.1) l.
Definition popped (l : list ended) (d : dict PendingOperation) : dict PendingOperation :=
  foldl (λ d e, dpop (request_id e.1) d) d l.

Lemma dset_same {V} k (v : V) (d : dict V) : dget k d = Some v → dset k v d = d.
Proof.
  induction d as [|[k1 w] d IH]; cbn; [done|]. case_decide as Hk; intros E; [by inversion E; subst|by rewrite IH].
Qed.
Lemma dpop_filter {V} k (d : dict V) : NoDup (dkeys d) →
  dpop k d = List.filter (λ kv, bool_decide (kv.1 ≠ k)) d.
Proof.
  induction d as [|[k1 v] d IH]; cbn; [done|]. intros [Hx Hn]%NoDup_cons. case_decide as Hk.
  - subst. rewrite bool_decide_eq_false_2 by by intros []. rewrite <-IH by done. by rewrite dpop_id.
  - rewrite bool_decide_eq_true_2 by done. by rewrite IH.
Qed.
Lemma filter_twice {A} (f g : A → bool) l : List.filter f (List.filter g l) = List.filter (λ x, g x && f x) l.
Proof. induction l as [|x l IH]; cbn; [done|]. destruct (g x); cbn; by rewrite IH. Qed.
Lemma filter_keys_NoDup {V} (f : string * V → bool) (d : dict V) : NoDup (dkeys d) → NoDup (dkeys (List.filter f d)).
Proof.
  unfold dkeys. induction d as [|kv d IH]; cbn; [done|]. intros [Hx Hn]%NoDup_cons.
  destruct (f kv); cbn; [|by apply IH]. constructor; [|by apply IH].
  rewrite list_elem_of_fmap. intros (kw & E & [Hw _]%elem_of_bfilter). apply Hx. rewrite E.
  by apply (list_elem_of_fmap_2 fst).
Qed.
Lemma popped_filter l d : NoDup (dkeys d) →
  popped l d = List.filter (λ kv, bool_decide (kv.1 ∉ ids_of l)) d.
Proof.
  revert d. induction l as [|[o r] l IH]; intros d Hn.
  - cbn. symmetry. apply List.forallb_filter_id, List.forallb_forall. intros kv _. apply bool_decide_eq_true. set_solver.
  - change (popped l (dpop (request_id o) d) = List.filter (λ kv, bool_decide (kv.1 ∉ ids_of ((o, r) :: l))) d).
    rewrite dpop_filter, IH, filter_twice by (try apply filter_keys_NoDup; done).
    apply List.filter_ext. intros kv. rewrite <-bool_decide_and. apply bool_decide_ext.
    unfold ids_of at 2. cbn [map fst]. rewrite not_elem_of_cons. tauto.
Qed.

(** The removal of the operations of a class, whose other operations [g] leaves alone. *)
Lemma popped_class (p : PendingOperation → bool) (g : PendingOperation → PendingOperation) l (d : dict PendingOperation) :
  NoDup (dkeys d) → (∀ k o, (k, o) ∈ d → request_id o = k) →
  (∀ o, p o = false → g o = o) → ids_of l = map request_id (List.filter p (dvalues d)) →
  popped l (map (λ kv, (kv.1, g kv.2)) d) = List.filter (λ kv, negb (p kv.2)) d.
Proof.
  intros Hn Hk Hg Hl. rewrite popped_filter.
  2: { unfold dkeys. rewrite map_map. exact Hn. }
  assert (∀ k o, (k, o) ∈ d → k ∈ ids_of l ↔ p o = true) as Hin.
  { intros k o Hd. rewrite Hl, list_elem_of_fmap. split.
    - intros (o' & -> & [Hv Hp]%elem_of_bfilter). apply list_elem_of_fmap in Hv as ([k' o''] & -> & Hd').
      cbn in *. rewrite <-Hp. f_equal. rewrite (Hk _ _ Hd') in Hd.
      pose proof (elem_dget _ _ _ Hn Hd). pose proof (elem_dget _ _ _ Hn Hd'). congruence.
    - intros Hp. exists o. split; [by rewrite (Hk _ _ Hd)|]. apply elem_of_bfilter. split; [|done].
      by apply (list_elem_of_fmap_2 snd _ _ Hd). }
  clear Hn Hk Hl. induction d as [|[k o] d IH]; cbn; [done|].
  rewrite IH by (intros k' o' H; apply Hin; by right).
  pose proof (Hin k o ltac:(left)) as H. destruct (p o) eqn:E.
  - rewrite bool_decide_eq_false_2; [done|]. intros Hf. by apply Hf, H.
  - rewrite bool_decide_eq_true_2; [by rewrite Hg|]. intros Hf. apply H in Hf. done.
Qed.

(** ** Delivery *)

Section Delivery.
Variable fresh : nat → string.
Variable clock : LegacyClock.TickConfig.
Variable pricing : option (dict LegacyBudget.price).
Variable epoch tick : Z.

(** The provider of an external operation is a text, as the Act phase writes it. *)
Definition provider_ok (o : PendingOperation) : bool :=
  negb (LegacyDispatch.is_external o) || is_str (default (VStr "external") (dget "provider" (metadata o))).

(** The charge for a call of this epoch does not raise. *)
Definition usage_ok (o : PendingOperation) : bool :=
  negb (bool_decide (op_type o = LLM_REQUEST)) || negb (bool_decide (state_epoch o = epoch)) ||
  match llm_invocation clock pricing tick o with Ok _ => true | Raise _ => false end.
Definition op_ok (o : PendingOperation) : bool := provider_ok o && usage_ok o.

(** The agents and the kind of the wake event a delivered operation causes. *)
Definition wakes_of (o : PendingOperation) : list (LegacyScheduler.WakeEventType * string * Z) :=
  match op_type o with
  | LLM_REQUEST => [(LegacyScheduler.TOOL_RESULT, agent_id o, tick)]
  | TOOL_REQUEST => [((if LegacyDispatch.is_external o then LegacyScheduler.EXTERNAL_RESULT
                       else LegacyScheduler.TOOL_RESULT), agent_id o, tick)]
  | _ => []
  end.
Definition wake_key (q : LegacyScheduler.QueuedEvent) : LegacyScheduler.WakeEventType * string * Z :=
  let e := LegacyScheduler.event q in
  (LegacyScheduler.event_type e, LegacyScheduler.target_agent_id e, LegacyScheduler.visible_at_tick e).
Definition event_keys (s : ingest) : list (LegacyScheduler.WakeEventType * string * Z) :=
  map wake_key (LegacyScheduler._events (n_sched s)).

Definition hand (o : PendingOperation) (r : dict value) (d : dict AgentRuntimeState) : dict AgentRuntimeState :=
  match dget (agent_id o) d with
  | Some rs => dset (agent_id o) (set_continuation (receive_result tick o r) rs) d
  | None => d
  end.

(** What one operation that ended does: [r] is its result, unless it is refused. *)
Record settled (r : option (dict value)) (o : PendingOperation) (s s' : ingest) : Prop := {
  st_ops : n_ops s' = (remove (request_id o) (n_ops s)).2;
  st_agents : n_agents s' = match r with
                            | Some r => if waits_for o s then hand o r (n_agents s) else n_agents s
                            | None => n_agents s
                            end;
  st_events : event_keys s' = event_keys s ++ match r with
                            | Some _ => if waits_for o s then wakes_of o else []
                            | None => []
                            end;
  st_log : n_log s `prefix_of` n_log s' }.

Lemma wake_events ty agent src task d s : 0 ≤ tick →
  event_keys (wake fresh tick ty agent src task d s).2 = event_keys s ++ [(ty, agent, tick)].
Proof using.
  intros H. unfold event_keys, wake. cbn. rewrite map_app. cbn. unfold LegacyScheduler.visible_from. cbn.
  by rewrite (proj2 (Z.leb_le 0 tick) H).
Qed.

Lemma enqueue_result_ok o r s : 0 ≤ tick → provider_ok o = true →
  ∃ s', _enqueue_result_wake fresh tick o r s = (Ok (), s') ∧
        n_ops s' = n_ops s ∧ n_agents s' = n_agents s ∧ n_log s' = n_log s ∧
        event_keys s' = event_keys s ++ wakes_of o.
Proof using.
  intros Ht H. unfold _enqueue_result_wake, wakes_of, provider_ok in *.
  destruct (op_type o); try (exists s; by rewrite app_nil_r).
  - eexists. split; [done|]. repeat split. by apply (wake_events _ _ "llm_gateway" (task_id o) (result_details o "llm_result" r)).
  - destruct (LegacyDispatch.is_external o); cbn [negb orb] in H.
    + destruct (default _ _) as [| | | |p| |]; try done. eexists. split; [done|]. repeat split.
      by apply (wake_events _ _ p (task_id o) (result_details o "external_result" r)).
    + eexists. split; [done|]. repeat split.
      by apply (wake_events _ _ "tool_executor" (task_id o) (result_details o "tool_result" r)).
Qed.

Lemma deliver_ok o r s : 0 ≤ tick → provider_ok o = true →
  ∃ s', deliver_if_waiting fresh tick o r s = (Ok (), s') ∧
        n_ops s' = n_ops s ∧ n_log s' = n_log s ∧
        n_agents s' = (if waits_for o s then hand o r (n_agents s) else n_agents s) ∧
        event_keys s' = event_keys s ++ (if waits_for o s then wakes_of o else []).
Proof using.
  intros Ht H. unfold deliver_if_waiting. rewrite run_bind. cbn.
  destruct (waits_for o s).
  - destruct (enqueue_result_ok o r (set_agents (hand o r) s) Ht H) as (s' & E & H1 & H2 & H3 & H4).
    exists s'. split; [exact E|]. rewrite H1, H2, H3, H4. done.
  - exists s. by rewrite app_nil_r.
Qed.

Definition settles (q : PendingOperation → bool) (r : PendingOperation → option (dict value))
    (h : PendingOperation → M ingest ()) : Prop :=
  ∀ o s, q o = true → ∃ s', h o s = (Ok (), s') ∧ settled (r o) o s s'.

Context (tick_pos : 0 ≤ tick).

Lemma expired_settles : settles provider_ok (λ o, Some (timed_out_result tick o)) (ingest_expired fresh tick).
Proof using tick_pos.
  intros o s H. unfold ingest_expired. rewrite run_bind. cbn [note modify]. set (s1 := mkIngest _ _ _ _ _ _ _ _).
  destruct (deliver_ok o (timed_out_result tick o) s1 tick_pos H) as (s' & E & H1 & H2 & H3 & H4).
  rewrite run_bind, E. eexists. split; [reflexivity|].
  split; cbn; [by rewrite H1|exact H3|exact H4|]. rewrite H2. cbn. by eexists.
Qed.
Lemma failed_settles : settles provider_ok (λ o, Some (failed_result o)) (ingest_failed fresh tick).
Proof using tick_pos.
  intros o s H. unfold ingest_failed. rewrite run_bind. cbn [note modify]. set (s1 := mkIngest _ _ _ _ _ _ _ _).
  destruct (deliver_ok o (failed_result o) s1 tick_pos H) as (s' & E & H1 & H2 & H3 & H4).
  rewrite run_bind, E. eexists. split; [reflexivity|].
  split; cbn; [by rewrite H1|exact H3|exact H4|]. rewrite H2. cbn. by eexists.
Qed.

Definition current (o : PendingOperation) : option (dict value) :=
  if decide (state_epoch o ≠ epoch) then None else Some (result o).

Lemma stale_settled o why more err s : (current o = None ∨ waits_for o s = false) →
  ∃ s', stale tick o why more err s = (Ok (), s') ∧ settled (current o) o s s'.
Proof using.
  intros H. eexists. split; [reflexivity|]. split; cbn; [done| | |by eexists].
  - destruct H as [-> | ->]; [done|by destruct (current o)].
  - change (event_keys s = event_keys s ++ match current o with
                                           | Some _ => if waits_for o s then wakes_of o else []
                                           | None => []
                                           end).
    destruct H as [-> | ->]; [|destruct (current o)]; by rewrite app_nil_r.
Qed.

(** Handing over the result of a completed operation that its agent waits for. *)
Lemma receive_usage_ok o s : usage_ok o = true → state_epoch o = epoch →
  ∃ s1, (match op_type o with
         | LLM_REQUEST => receive_ tick o (result o);; _record_llm_usage clock pricing tick o
         | TOOL_REQUEST => receive_ tick o (result o)
         | _ => mret ()
         end) s = (Ok (), s1) ∧
        n_ops s1 = n_ops s ∧ n_log s1 = n_log s ∧ event_keys s1 = event_keys s ∧
        n_agents s1 = match op_type o with
                      | LLM_REQUEST | TOOL_REQUEST => hand o (result o) (n_agents s)
                      | _ => n_agents s
                      end.
Proof using.
  unfold usage_ok. intros Hu He. destruct (op_type o); try (by eexists). rewrite (bool_decide_eq_true_2 _ He) in Hu.
  rewrite run_bind. cbn. unfold _record_llm_usage. rewrite run_bind. unfold lift.
  destruct (llm_invocation clock pricing tick o); [by eexists|done].
Qed.

Lemma hand_other o r d : op_type o ≠ LLM_REQUEST → op_type o ≠ TOOL_REQUEST → hand o r d = d.
Proof using.
  intros H1 H2. unfold hand. destruct (dget _ d) as [rs|] eqn:E; [|done]. apply dset_same. rewrite E. f_equal.
  unfold receive_result. destruct rs, (op_type o); done.
Qed.

Lemma completed_settles : settles op_ok current (ingest_completed fresh clock pricing epoch tick).
Proof using tick_pos.
  intros o s [H Hu]%andb_true_iff. unfold ingest_completed. case_decide as He.
  - apply stale_settled. left. unfold current. by rewrite decide_True.
  - rewrite run_bind. cbn [gets]. rewrite run_bind. cbn [gets].
    destruct (waits_for o s) eqn:Hw; cbn [negb]; [|apply stale_settled; by right].
    rewrite run_bind. destruct (receive_usage_ok o s Hu ltac:(by destruct (decide (state_epoch o = epoch)))) as (s1 & -> & O1 & L1 & E1 & A1).
    rewrite run_bind. destruct (enqueue_result_ok o (result o) s1 tick_pos H) as (s2 & -> & O2 & A2 & L2 & E2).
    rewrite run_bind.
    assert (∃ s3, (match op_type o with
                   | TOOL_REQUEST => note "tool.result" (agent_id o) tick (tool_result_details o) true None
                   | _ => mret ()
                   end) s2 = (Ok (), s3) ∧ n_ops s3 = n_ops s2 ∧ n_agents s3 = n_agents s2 ∧
                  event_keys s3 = event_keys s2 ∧ n_log s2 `prefix_of` n_log s3) as (s3 & -> & O3 & A3 & E3 & L3).
    { destruct (op_type o); try (exists s2; by repeat split).
      eexists. split; [reflexivity|]. repeat split. cbn. by eexists. }
    eexists. split; [reflexivity|]. 
    assert (current o = Some (result o)) as -> by (unfold current; case_decide; [contradiction|done]). split; cbn.
    + by rewrite O3, O2, O1.
    + rewrite Hw, A3, A2, A1. destruct (op_type o) eqn:Ho; try done; by rewrite hand_other by (rewrite Ho; done).
    + change (event_keys s3 = event_keys s ++ if waits_for o s then wakes_of o else []). by rewrite E3, E2, E1, Hw.
    + by rewrite <-L1, <-L2.
Qed.

(** ** Runs of the loops *)

Fixpoint settled_run (l : list ended) (s s' : ingest) : Prop :=
  match l with
  | [] => s' = s
  | (o, r) :: l' => ∃ s1, settled r o s s1 ∧ settled_run l' s1 s'
  end.
Definition with_result (f : PendingOperation → option (dict value)) (l : list PendingOperation) : list ended :=
  map (λ o, (o, f o)) l.

Lemma loop_settles q f h l s : settles q f h → Forall (λ o, q o = true) l →
  ∃ s', mfor l h s = (Ok (), s') ∧ settled_run (with_result f l) s s'.
Proof using.
  intros Hh. revert s. induction l as [|o l IH]; intros s Hl; cbn; [by exists s|].
  inversion Hl as [|? ? Ho Hl']; subst. destruct (Hh o s Ho) as (s1 & E & H1).
  rewrite run_bind, E. destruct (IH s1 Hl') as (s' & E' & H'). exists s'. eauto.
Qed.
Lemma settled_run_app l k s s1 s' : settled_run l s s1 → settled_run k s1 s' → settled_run (l ++ k) s s'.
Proof using.
  revert s. induction l as [|[o r] l IH]; intros s; cbn; [by intros ->|].
  intros (s2 & H & Hr) Hk. exists s2. auto.
Qed.


Lemma settled_run_ops l s s' : settled_run l s s' →
  _operations (n_ops s') = popped l (_operations (n_ops s)) ∧
  _seen_requests (n_ops s') = _seen_requests (n_ops s) ∧ n_log s `prefix_of` n_log s'.
Proof using.
  revert s. induction l as [|[o r] l IH]; intros s; cbn; [by intros ->|].
  intros (s1 & [H1 _ _ H4] & H). destruct (IH s1 H) as (E1 & E2 & E3).
  rewrite E1, E2, H1. cbn. repeat split. by etrans.
Qed.

(** The agent of an operation that a step settled waits for no later operation. *)
Lemma settled_waits r o s s' o' : settled r o s s' →
  request_id o' ≠ request_id o → request_id o' ≠ "" → waits_for o' s' = waits_for o' s.
Proof using.
  intros [_ HA _ _] Hne Hn. unfold waits_for at 1. rewrite HA. destruct r as [r|]; [|done].
  destruct (waits_for o s) eqn:Hw; [|done]. unfold hand, waits_for in *.
  destruct (dget (agent_id o) (n_agents s)) as [rs|] eqn:E; [|done].
  destruct (decide (agent_id o' = agent_id o)) as [Ha|Ha]; [|by rewrite dget_dset_ne].
  rewrite Ha, dget_dset_eq, E. cbn. apply bool_decide_eq_true in Hw.
  rewrite (bool_decide_eq_false_2 (pending_request_id (continuation rs) = _)) by congruence.
  apply bool_decide_eq_false. intros Hp. unfold receive_result in Hp. destruct (op_type o);
    try destruct (LegacyDispatch.is_external o); cbn in Hp; congruence.
Qed.

Lemma settled_other r o s s' a : settled r o s s' →
  (is_Some r → agent_id o = a → waits_for o s = false) → dget a (n_agents s') = dget a (n_agents s).
Proof using.
  intros [_ HA _ _] Hq. rewrite HA. destruct r as [r|]; [|done].
  destruct (decide (agent_id o = a)) as [Ha|Ha]; [by rewrite (Hq ltac:(by eexists) Ha)|].
  destruct (waits_for o s); [|done]. unfold hand. destruct (dget (agent_id o) (n_agents s)); [by rewrite dget_dset_ne by done|done].
Qed.

Lemma quiet_agent l s s' a : settled_run l s s' → NoDup (ids_of l) → "" ∉ ids_of l →
  (∀ o r, (o, Some r) ∈ l → agent_id o = a → waits_for o s = false) →
  dget a (n_agents s') = dget a (n_agents s).
Proof using.
  revert s. induction l as [|[o r] l IH]; intros s; cbn; [by intros ->|].
  intros (s1 & H1 & H) [Hx Hn]%NoDup_cons [He Hl]%not_elem_of_cons Hq.
  rewrite (IH s1 H Hn Hl); [apply (settled_other _ _ _ _ _ H1)|].
  - intros [v ->]. apply (Hq o v). left.
  - intros o' r' Hin Ha. rewrite (settled_waits _ _ _ _ o' H1); [apply (Hq o' r'); [by right|done]| |];
      intros E; [apply Hx; rewrite <-E|apply Hl; rewrite <-E];
      exact (list_elem_of_fmap_2 (λ e : ended, request_id e.1) _ _ Hin).
Qed.

Lemma delivered_agent l s s' o r rs : settled_run l s s' → NoDup (ids_of l) → "" ∉ ids_of l →
  (o, Some r) ∈ l → dget (agent_id o) (n_agents s) = Some rs →
  pending_request_id (continuation rs) = request_id o →
  dget (agent_id o) (n_agents s') = Some (set_continuation (receive_result tick o r) rs).
Proof using.
  revert s. induction l as [|[o1 r1] l IH]; intros s; cbn; [intros _ _ _ H; by apply elem_of_nil in H|].
  intros (s1 & H1 & H) [Hx Hn]%NoDup_cons [He Hl]%not_elem_of_cons Hin E Hp.
  assert (waits_for o s = true) as Hw by (unfold waits_for; rewrite E; by apply bool_decide_eq_true).
  assert (∀ o' r', (o', r') ∈ l → request_id o' ≠ request_id o1 ∧ request_id o' ≠ "") as Hids.
  { intros o' r' Hi. apply (list_elem_of_fmap_2 (λ e : ended, request_id e.1)) in Hi. cbn in Hi.
    split; intros Eq; [apply Hx|apply Hl]; by rewrite <-Eq. }
  apply elem_of_cons in Hin as [[= <- <-]|Hin].
  - rewrite (quiet_agent l s1 s' (agent_id o) H Hn Hl).
    + rewrite (st_agents _ _ _ _ H1), Hw. unfold hand. rewrite E. by rewrite dget_dset_eq.
    + intros o' r' Hi Ha. destruct (Hids o' _ Hi) as [Hne Hnn].
      rewrite (settled_waits _ _ _ _ o' H1 Hne Hnn). unfold waits_for. rewrite Ha, E.
      apply bool_decide_eq_false. congruence.
  - destruct (Hids o _ Hin) as [Hne Hnn]. apply (IH s1 H Hn Hl Hin); [|done].
    rewrite (settled_other _ _ _ _ (agent_id o) H1); [done|].
    intros _ Ha. unfold waits_for. rewrite Ha, E. apply bool_decide_eq_false. congruence.
Qed.

(** The operations of a run whose result reaches an agent. *)
Definition reaches (s : ingest) (e : ended) : bool :=
  match e.2 with Some _ => waits_for e.1 s | None => false end.
Lemma run_events l s s' : settled_run l s s' → NoDup (ids_of l) → "" ∉ ids_of l →
  event_keys s' = event_keys s ++ concat (map (λ e, wakes_of e.1) (List.filter (reaches s) l)).
Proof using.
  revert s. induction l as [|[o r] l IH]; intros s; cbn; [intros ->; by rewrite app_nil_r|].
  intros (s1 & H1 & H) [Hx Hn]%NoDup_cons [He Hl]%not_elem_of_cons.
  rewrite (IH s1 H Hn Hl), (st_events _ _ _ _ H1).
  assert (List.filter (reaches s1) l = List.filter (reaches s) l) as ->.
  { apply List.filter_ext_in. intros [o' r'] Hi%list_elem_of_In. unfold reaches. cbn.
    destruct r'; [|done]. apply (list_elem_of_fmap_2 (λ e : ended, request_id e.1)) in Hi. cbn in Hi.
    apply (settled_waits _ _ _ _ o' H1); intros E; [apply Hx|apply Hl]; by rewrite <-E. }
  unfold reaches at 2. cbn [fst snd]. destruct r as [r|]; [destruct (waits_for o s)|]; cbn;
    by rewrite <-?app_assoc, ?app_nil_r.
Qed.

(** ** The whole of the loops *)

Definition failed_op : PendingOperation → bool := is_status [FAILED].
Definition due (o : PendingOperation) : bool := overdue tick o || failed_op o || collectable tick o.
(** What the agent of an operation is told in this tick. *)
Definition outcome (o : PendingOperation) : option (dict value) :=
  if overdue tick o then Some (timed_out_result tick o)
  else if failed_op o then Some (failed_result o)
  else if collectable tick o then current o else None.
Definition tag (o : PendingOperation) : ended :=
  ((if overdue tick o then set_status TIMED_OUT o else o), outcome o).
Definition due_ops (v : list PendingOperation) : list PendingOperation :=
  List.filter (overdue tick) v ++ List.filter failed_op v ++ List.filter (collectable tick) v.

Lemma overdue_status o : overdue tick o = true → failed_op o = false ∧ collectable tick o = false.
Proof using. unfold overdue, in_flight, failed_op, collectable, is_status. by destruct (status o). Qed.
Lemma failed_status o : failed_op o = true → overdue tick o = false ∧ collectable tick o = false.
Proof using. unfold overdue, in_flight, failed_op, collectable, is_status. by destruct (status o). Qed.
Lemma collectable_status o : collectable tick o = true → overdue tick o = false ∧ failed_op o = false.
Proof using. unfold overdue, in_flight, failed_op, collectable, is_status. by destruct (status o). Qed.
Lemma due_ops_perm v : due_ops v ≡ₚ List.filter due v.
Proof using.
  unfold due_ops, due. induction v as [|o v IH]; cbn; [done|].
  destruct (overdue tick o) eqn:E; cbn.
  - destruct (overdue_status o E) as [-> ->]. by constructor.
  - destruct (failed_op o) eqn:F; cbn.
    + destruct (failed_status o F) as [_ ->]. rewrite <-Permutation_middle. cbn. by constructor.
    + destruct (collectable tick o); cbn; [|done].
      rewrite app_assoc, <-Permutation_middle, <-app_assoc. by constructor.
Qed.


(** The registries of a running simulation. *)
Record ops_ok (r : Registry) : Prop := {
  ok_keys : NoDup (dkeys (_operations r));
  ok_own : ∀ k o, (k, o) ∈ _operations r → request_id o = k;
  ok_named : "" ∉ dkeys (_operations r);
  ok_provider : ∀ k o, (k, o) ∈ _operations r → provider_ok o = true }.

Lemma ids_keys r : ops_ok r → map request_id (dvalues (_operations r)) = dkeys (_operations r).
Proof using.
  intros [_ Ho _ _]. unfold dvalues, dkeys. rewrite map_map. apply map_ext_in.
  intros [k o] H%list_elem_of_In. by apply (Ho k).
Qed.
Lemma filter_map_snd (p : PendingOperation → bool) (d : dict PendingOperation) :
  List.filter p (dvalues d) = dvalues (List.filter (λ kv, p kv.2) d).
Proof using. induction d as [|[k o] d IH]; cbn; [done|]. destruct (p o); cbn; [by f_equal|done]. Qed.
Lemma filter_imp {A} (f g : A → bool) l : (∀ x, f x = true → g x = true) →
  List.filter f (List.filter g l) = List.filter f l.
Proof using.
  intros H. rewrite filter_twice. apply List.filter_ext. intros x.
  destruct (f x) eqn:E; [by rewrite (H x E)|by rewrite andb_false_r].
Qed.
Lemma map_same {V} (d : dict V) : map (λ kv, (kv.1, kv.2)) d = d.
Proof using. induction d as [|[k v] d IH]; cbn; [done|by f_equal]. Qed.
Lemma provider_marked o : provider_ok (set_status TIMED_OUT o) = provider_ok o.
Proof using. done. Qed.

(** The registry without the operations of a class keeps its form. *)
Lemma ops_ok_filter (p : PendingOperation → bool) r d : ops_ok r →
  d = List.filter (λ kv, p kv.2) (_operations r) → ∀ seen, ops_ok (mkRegistry d seen).
Proof using.
  intros [H1 H2 H3 H4] -> seen. split; cbn.
  - by apply filter_keys_NoDup.
  - intros k o [H _]%elem_of_bfilter. eauto.
  - intros H. apply H3. unfold dkeys in *. apply list_elem_of_fmap in H as (kv & -> & [H _]%elem_of_bfilter).
    by apply (list_elem_of_fmap_2 fst).
  - intros k o [H _]%elem_of_bfilter. eauto.
Qed.

Lemma class_ids (f : PendingOperation → option (dict value)) l :
  ids_of (with_result f l) = map request_id l.
Proof using. unfold ids_of, with_result. by rewrite map_map. Qed.

Lemma class_providers (p : PendingOperation → bool) r : ops_ok r →
  Forall (λ o, provider_ok o = true) (List.filter p (dvalues (_operations r))).
Proof using.
  intros [_ _ _ H]. apply Forall_forall. intros o [Ho _]%elem_of_bfilter.
  apply list_elem_of_fmap in Ho as ([k o'] & -> & Hd). by apply (H k).
Qed.

(** One loop over a class of operations that stay as they are. *)
Lemma loop_class q f h (p : PendingOperation → bool) s : settles q f h → ops_ok (n_ops s) →
  Forall (λ o, q o = true) (List.filter p (dvalues (_operations (n_ops s)))) →
  ∃ s', mfor (List.filter p (dvalues (_operations (n_ops s)))) h s = (Ok (), s') ∧
        settled_run (with_result f (List.filter p (dvalues (_operations (n_ops s))))) s s' ∧
        n_ops s' = mkRegistry (List.filter (λ kv, negb (p kv.2)) (_operations (n_ops s))) (_seen_requests (n_ops s)).
Proof using.
  intros Hh Hok Hq. destruct (loop_settles q f h _ s Hh Hq) as (s' & E & H).
  exists s'. split; [done|]. split; [done|].
  destruct (settled_run_ops _ _ _ H) as (H1 & H2 & _). destruct (n_ops s') as [d seen]. cbn in *. subst. f_equal.
  rewrite <-(map_same (_operations (n_ops s))) at 2. destruct Hok as [K1 K2 K3 K4].
  apply (popped_class p id); [done|done|done|]. by rewrite class_ids.
Qed.

Lemma loop_expired s : ops_ok (n_ops s) →
  let d := _operations (n_ops s) in
  let l := map (set_status TIMED_OUT) (List.filter (overdue tick) (dvalues d)) in
  ∃ s', (let '(l, r) := timeout_expired tick (n_ops s) in
         mfor l (ingest_expired fresh tick) (set_nops (λ _, r) s)) = (Ok (), s') ∧
        settled_run (with_result (λ o, Some (timed_out_result tick o)) l)
          (set_nops (λ _, (timeout_expired tick (n_ops s)).2) s) s' ∧
        n_ops s' = mkRegistry (List.filter (λ kv, negb (overdue tick kv.2)) d) (_seen_requests (n_ops s)).
Proof using tick_pos.
  intros Hok d l. cbn [timeout_expired]. set (s0 := set_nops _ s).
  destruct (loop_settles _ _ _ l s0 expired_settles) as (s' & E & H).
  { unfold l. apply Forall_map. refine (Forall_impl _ _ _ (class_providers (overdue tick) _ Hok) _).
    intros o Ho. by rewrite provider_marked. }
  exists s'. split; [exact E|]. split; [exact H|].
  destruct (settled_run_ops _ _ _ H) as (H1 & H2 & _). destruct (n_ops s') as [d' q]. cbn in *. subst. f_equal.
  destruct Hok as [K1 K2 K3 K4].
  apply (popped_class (overdue tick) (mark_expired tick)); [done|done| |].
  - intros o Ho. unfold mark_expired. by rewrite Ho.
  - rewrite class_ids. unfold l. by rewrite map_map.
Qed.

(** The three loops settle the operations that are due, in the order of [due_ops]. *)
Lemma ingest_ops_run s : ops_ok (n_ops s) →
  (∀ k o, (k, o) ∈ _operations (n_ops s) → collectable tick o = true → usage_ok o = true) →
  ∃ s', ingest_ops fresh clock pricing epoch tick s = (Ok (), s') ∧
        settled_run (map tag (due_ops (dvalues (_operations (n_ops s)))))
          (set_nops (λ _, (timeout_expired tick (n_ops s)).2) s) s' ∧
        n_ops s' = mkRegistry (List.filter (λ kv, negb (due kv.2)) (_operations (n_ops s))) (_seen_requests (n_ops s)).
Proof using tick_pos.
  intros Hok Hus. unfold ingest_ops. set (v := dvalues (_operations (n_ops s))).
  destruct (loop_expired s Hok) as (s1 & E1 & R1 & O1). rewrite run_bind, E1. cbn [gets].
  rewrite run_bind. cbn [gets].
  assert (ops_ok (n_ops s1)) as Hok1.
  { rewrite O1. by apply (ops_ok_filter (λ o, negb (overdue tick o)) (n_ops s)). }
  destruct (loop_class provider_ok (λ o, Some (failed_result o)) (ingest_failed fresh tick) failed_op s1
              failed_settles Hok1 (class_providers _ _ Hok1))
    as (s2 & E2 & R2 & O2).
  fold failed_op. rewrite run_bind, E2. rewrite run_bind. cbn [gets].
  assert (ops_ok (n_ops s2)) as Hok2.
  { rewrite O2. by apply (ops_ok_filter (λ o, negb (failed_op o)) (n_ops s1)). }
  destruct (loop_class op_ok current (ingest_completed fresh clock pricing epoch tick) (collectable tick) s2
              completed_settles Hok2) as (s3 & E3 & R3 & O3).
  { apply Forall_forall. intros o [Ho Hc]%elem_of_bfilter. apply andb_true_iff. split.
    - pose proof (class_providers (collectable tick) _ Hok2) as Hp. rewrite Forall_forall in Hp.
      apply Hp, elem_of_bfilter. by split.
    - apply list_elem_of_fmap in Ho as ([k o'] & -> & Ho). rewrite O2, O1 in Ho. cbn [_operations] in Ho.
      apply elem_of_bfilter in Ho as [[Ho _]%elem_of_bfilter _]. by apply (Hus k). }
  exists s3. split; [exact E3|].
  rewrite O1 in R2, O2. rewrite O2 in R3, O3. cbn [_operations _seen_requests] in *.
  rewrite <-(filter_map_snd (λ o, negb (overdue tick o))), filter_twice in R2.
  rewrite filter_twice in R3, O3.
  rewrite <-(filter_map_snd (λ o, negb (overdue tick o) && negb (failed_op o))), filter_twice in R3. split.
  - unfold due_ops. rewrite !map_app. eapply settled_run_app; [|eapply settled_run_app].
    + replace (map tag _) with (with_result (λ o, Some (timed_out_result tick o))
        (map (set_status TIMED_OUT) (List.filter (overdue tick) v))); [exact R1|].
      unfold with_result. rewrite map_map. apply map_ext_in. intros o Ho%list_elem_of_In%elem_of_bfilter.
      unfold tag, outcome. by rewrite (proj2 Ho).
    + replace (map tag _) with (with_result (λ o, Some (failed_result o))
        (List.filter (λ o, negb (overdue tick o) && failed_op o) v)); [exact R2|].
      replace (List.filter (λ o, _) v) with (List.filter failed_op v).
      * unfold with_result. apply map_ext_in. intros o [_ Ho]%list_elem_of_In%elem_of_bfilter.
        unfold tag, outcome. destruct (failed_status o Ho) as [-> _]. by rewrite Ho.
      * apply List.filter_ext. intros o. destruct (failed_op o) eqn:F; [|by rewrite andb_false_r].
        by destruct (failed_status o F) as [-> _].
    + replace (map tag _) with (with_result current
        (List.filter (λ o, negb (overdue tick o) && negb (failed_op o) && collectable tick o) v)); [exact R3|].
      replace (List.filter (λ o, _) v) with (List.filter (collectable tick) v).
      * unfold with_result. apply map_ext_in. intros o [_ Ho]%list_elem_of_In%elem_of_bfilter.
        unfold tag, outcome. destruct (collectable_status o Ho) as [-> ->]. by rewrite Ho.
      * apply List.filter_ext. intros o. destruct (collectable tick o) eqn:F; [|by rewrite andb_false_r].
        by destruct (collectable_status o F) as [-> ->].
  - rewrite O3, filter_twice. f_equal. apply List.filter_ext. intros [k o]. unfold due. cbn.
    by rewrite !negb_orb, andb_assoc.
Qed.

(** The operations whose result reaches its agent. *)
Definition delivers (s : ingest) (o : PendingOperation) : bool :=
  waits_for o s && match outcome o with Some _ => true | None => false end.

Lemma tagged_ids v : ids_of (map tag v) = map request_id v.
Proof using.
  unfold ids_of. rewrite map_map. apply map_ext. intros o. unfold tag. by destruct (overdue tick o).
Qed.
Lemma tagged_agent o : agent_id (tag o).1 = agent_id o ∧ request_id (tag o).1 = request_id o ∧
  wakes_of (tag o).1 = wakes_of o ∧ ∀ r, receive_result tick (tag o).1 r = receive_result tick o r.
Proof using. unfold tag. by destruct (overdue tick o). Qed.
Lemma tagged_waits o s : waits_for (tag o).1 s = waits_for o s.
Proof using. unfold tag. by destruct (overdue tick o). Qed.

Lemma due_ids r : ops_ok r → NoDup (map request_id (due_ops (dvalues (_operations r)))) ∧
  "" ∉ map request_id (due_ops (dvalues (_operations r))).
Proof using.
  intros Hok. rewrite (Permutation_map request_id (due_ops_perm (dvalues (_operations r)))).
  pose proof (ids_keys r Hok) as E. destruct Hok as [H1 _ H3 _]. rewrite <-E in H1, H3. split.
  - clear -H1. induction (dvalues _) as [|o v IH]; cbn in *; [constructor|].
    apply NoDup_cons in H1 as [Hx Hn]. destruct (due o); cbn; [|by apply IH].
    constructor; [|by apply IH]. intros (o' & E & [Hv _]%elem_of_bfilter)%list_elem_of_fmap.
    apply Hx. rewrite E. by apply list_elem_of_fmap_2.
  - intros (o' & E' & [Hv _]%elem_of_bfilter)%list_elem_of_fmap. apply H3. rewrite E'.
    by apply list_elem_of_fmap_2.
Qed.
Lemma outcome_due o : is_Some (outcome o) → due o = true.
Proof using.
  unfold outcome, due. destruct (overdue tick o), (failed_op o), (collectable tick o); try done; by intros [? ?].
Qed.

(** C39: Of the operations of a registry, the loops of the Ingest phase settle those that are overdue,
    failed, or completed and eligible, and return, provided that the usage of every
    language-model call to be delivered can be charged (its token counts are numbers or missing,
    see [numeric_usage_charged]; [usage_text_loses_wake] shows what happens otherwise): the
    settled operations leave the registry and
    the others stay; an agent whose pending request is settled receives the outcome of that
    operation and waits no more, every other agent is unchanged; an operation of another epoch
    reaches nobody; and each delivered operation wakes its agent with one event of this tick. *)
Theorem ingest_settles s : ops_ok (n_ops s) →
  let d := _operations (n_ops s) in
  (∀ k o, (k, o) ∈ d → collectable tick o = true → usage_ok o = true) →
  ∃ s', ingest_ops fresh clock pricing epoch tick s = (Ok (), s') ∧
    _operations (n_ops s') = List.filter (λ kv, negb (due kv.2)) d ∧
    (∀ a rs, dget a (n_agents s) = Some rs →
       dget a (n_agents s') = Some
         match dget (pending_request_id (continuation rs)) d with
         | Some o => match outcome o with
                     | Some r => if decide (agent_id o = a) then set_continuation (receive_result tick o r) rs else rs
                     | None => rs
                     end
         | None => rs
         end) ∧
    event_keys s' = event_keys s ++ concat (map wakes_of (List.filter (delivers s) (due_ops (dvalues d)))).
Proof using tick_pos.
  intros Hok d Hus. destruct (ingest_ops_run s Hok Hus) as (s' & E & R & O).
  exists s'. split; [done|]. split; [by rewrite O|].
  destruct (due_ids _ Hok) as [Hn He]. rewrite <-tagged_ids in Hn, He.
  pose proof (λ o k, ok_own _ Hok k o) as Hown. pose proof (ok_keys _ Hok) as Hk. split.
  - intros a rs Ha. set (p := pending_request_id (continuation rs)).
    assert (∀ o r, dget p d = Some o → outcome o = Some r → agent_id o = a →
              dget a (n_agents s') = Some (set_continuation (receive_result tick o r) rs)) as Hyes.
    { intros o r Hd Ho <-. destruct (tagged_agent o) as (<- & T2 & _ & <-).
      apply dget_Some_elem in Hd.
      eapply (delivered_agent _ _ _ _ r rs R Hn He); [|destruct (tagged_agent o) as (-> & _); exact Ha|].
      - replace ((tag o).1, Some r) with (tag o) by (rewrite <-Ho; by destruct (tag o) eqn:?; unfold tag in *; simplify_eq).
        apply list_elem_of_fmap_2. rewrite due_ops_perm. apply elem_of_bfilter.
        split; [|apply outcome_due; by eexists]. by apply (list_elem_of_fmap_2 snd _ _ Hd).
      - rewrite T2. by rewrite (Hown o p). }
    assert ((∀ o r, dget p d = Some o → outcome o = Some r → agent_id o ≠ a) →
              dget a (n_agents s') = Some rs) as Hno.
    { intros Hq. rewrite (quiet_agent _ _ _ a R Hn He); [done|].
      intros o0 r (o & Eo & Hv)%list_elem_of_fmap Hag.
      rewrite due_ops_perm in Hv. apply elem_of_bfilter in Hv as [Hv _].
      apply list_elem_of_fmap in Hv as ([k o'] & -> & Hd). cbn in Eo.
      assert (o0 = (tag o').1 ∧ outcome o' = Some r) as [-> Hr] by (unfold tag in *; by simplify_eq).
      destruct (tagged_agent o') as (T1 & T2 & _). rewrite T1 in Hag.
      unfold waits_for. rewrite T1, T2, Hag. cbn. rewrite Ha. apply bool_decide_eq_false. intros Hp.
      apply (Hq o' r); [|done|done]. unfold p. rewrite Hp, (Hown _ _ Hd). by apply elem_dget. }
    destruct (dget p d) as [o|] eqn:Hd; [|by apply Hno].
    destruct (outcome o) as [r|] eqn:Ho; [|apply Hno; intros ? ? [= <-]; congruence].
    case_decide; [by apply Hyes|]. apply Hno. by intros ? ? [= <-] _.
  - rewrite (run_events _ _ _ R Hn He). f_equal. clear. set (s0 := set_nops _ s).
    induction (due_ops _) as [|o v IH]; cbn; [done|].
    assert (reaches s0 (tag o) = delivers s o) as ->.
    { unfold reaches, delivers. rewrite tagged_waits. unfold tag. cbn. destruct (outcome o); [|by rewrite andb_false_r].
      by rewrite andb_true_r. }
    destruct (delivers s o); cbn; [|done]. f_equal; [by destruct (overdue tick o)|exact IH].
Qed.
End Delivery.

(** ** A concrete registry *)

Definition sample_op (id agent : string) (ep : Z) : PendingOperation :=
  mkOp id TOOL_REQUEST agent "t1" "act.1" 1 2 (Some 9) COMPLETED [("data", VInt 7)] "" 0 3 ep None
    [("external_tool", VBool true); ("provider", VStr "taobao")].
Definition sample_runtime (agent req : string) : AgentRuntimeState :=
  mkRuntime agent (LegacyAgentState.mkMachine agent LegacyAgentState.WAITING_FOR_TOOL 4) []
    (advance_to_waiting_tool req 1 (AgentContinuation_init agent)) None None.
(** A completed language-model call and its usage report. *)
Definition sample_llm (id agent : string) (tokens : value) : PendingOperation :=
  mkOp id LLM_REQUEST agent "t1" "act.1" 1 2 (Some 9) COMPLETED
    [("content", VStr "hi"); ("usage", VDict [("prompt_tokens", tokens); ("completion_tokens", VInt 7)])]
    "" 0 3 0 None [("model", VStr "gpt-4o")].
Definition sample_clock : LegacyClock.TickConfig := LegacyClock.mkConfig 10 "seconds" None 2 false.
Definition sample_state (tokens : value) : ingest :=
  mkIngest (mkRegistry [("op1", sample_op "op1" "a" 0); ("op2", sample_op "op2" "b" 1);
                        ("op3", sample_llm "op3" "c" tokens)] [])
    [("a", sample_runtime "a" "op1"); ("b", sample_runtime "b" "op2"); ("c", sample_runtime "c" "op3")]
    (LegacyScheduler.AgentScheduler_init 4) 0 [] (LegacyBudget.BudgetTracker_init LegacyBudget.BudgetConfig_init)
    LegacyIngress.IngressBuffer_init [].
Definition sample_ingest : ingest := sample_state (VInt 100).

(** The results of two operations are delivered, one of them charged, that of another epoch is
    refused. *)
Lemma ingest_settles_witness :
  ops_ok (n_ops sample_ingest) ∧
  ∃ s', ingest_ops pretty sample_clock None 0 3 sample_ingest = (Ok (), s') ∧
        pending_request_id ∘ continuation <$> dget "a" (n_agents s') = Some "" ∧
        pending_request_id ∘ continuation <$> dget "b" (n_agents s') = Some "op2" ∧
        LegacyBudget.input_tokens (LegacyBudget.agent_usage "c" (n_budget s')) = 100.
Proof.
  assert (ops_ok (n_ops sample_ingest)) as Hok.
  { split; [vm_compute; repeat constructor; set_solver|..].
    - intros k o H. repeat (apply elem_of_cons in H as [[= -> ->]|H]; [done|]). by apply elem_of_nil in H.
    - vm_compute. set_solver.
    - intros k o H. repeat (apply elem_of_cons in H as [[= -> ->]|H]; [done|]). by apply elem_of_nil in H. }
  split; [exact Hok|].
  destruct (ingest_settles pretty sample_clock None 0 3 ltac:(lia) sample_ingest Hok) as (s' & E & _ & H & _).
  { intros k o Ho _. repeat (apply elem_of_cons in Ho as [[= -> ->]|Ho]; [vm_compute; reflexivity|]).
    by apply elem_of_nil in Ho. }
  exists s'. split; [exact E|]. split; [by rewrite (H "a" _ eq_refl)|]. split; [by rewrite (H "b" _ eq_refl)|].
  replace s' with (ingest_ops pretty sample_clock None 0 3 sample_ingest).2 by (by rewrite E).
  vm_compute. reflexivity.
Defined.

(** A usage report with a text that is no number stops the tick after the agent was handed its
    result and before it is woken; in the next tick the operation counts as superseded, and no
    event ever wakes the agent. *)
Example usage_text_loses_wake :
  let '(r, s1) := ingest_ops pretty sample_clock None 0 3 (sample_state (VStr "many")) in
  let '(r', s2) := ingest_ops pretty sample_clock None 0 4 s1 in
  r = Raise (Exn ValueError "invalid literal for int() with base 10: 'many'") ∧
  pending_request_id ∘ continuation <$> dget "c" (n_agents s1) = Some "" ∧
  r' = Ok () ∧ dkeys (_operations (n_ops s2)) = [] ∧
  List.filter (λ k, bool_decide (k.1.2 = "c")) (event_keys s2) = [].
Proof. vm_compute. done. Qed.
