(* ===== verification/LegacyRouting.v ===== *)
(** * Routing of platform events in the previous architecture

    [_consume_ingress] of legacy/simulation.py: the events a tick takes from the buffer are
    receipts of operations on a platform, actions of human workers, or news for the agents that
    subscribed.  The state is that of the Ingest phase (LegacyIngest), which this completes up to
    the deadlines and the calendar. *)

From stdpp Require Import base gmap strings list pretty.
From Stdlib Require Import ZArith Lia.
From S2P Require Import Prelude PyValue.
From S2P Require LegacyKb LegacyScheduler LegacyTask LegacyAgentTree LegacyAgentState LegacyDispatch.
From S2P Require LegacyBudget LegacyIngress.
From S2P Require Import LegacyContinuation LegacyOps LegacyIngest.

Open Scope string_scope.
Open Scope Z_scope.
Open Scope list_scope.

Definition kind_of (c : LegacyAgentTree.AgentConfig) : value :=
  match LegacyAgentTree.settings c with
  | VDict d => default (VStr "llm") (dget "kind" d)
  | _ => VStr "llm"
  end.
(** The worker a task is assigned to, when it is a human one. *)
Definition human_assignee (tasks : LegacyTask.TaskTree) (tree : LegacyAgentTree.AgentTree) (task : string) :
    option string :=
  match LegacyTask.get task tasks with
  | inl _ => None
  | inr t =>
      let a := LegacyTask.assignee_agent_id t in
      match LegacyAgentTree.get a tree with
      | inr c => if veq_str (kind_of c) "human" then Some a else None
      | inl _ => None
      end
  end.

(** [{**d, **e}] *)
Definition merge (d e : dict value) : dict value := foldl (λ d kv, dset kv.1 kv.2 d) d e.

Section Routing.
Variable fresh : nat → string.
Variable clock : LegacyClock.TickConfig.
Variable pricing : option (dict LegacyBudget.price).
Variable epoch tick : Z.
Variable integrations : LegacyDispatch.IntegrationRegistry.
Variable tree : LegacyAgentTree.AgentTree.
Variable tasks : LegacyTask.TaskTree.

(** *** Receipts *)

(** The operation an event is a receipt of, with its identifier on the platform. *)
Definition receipt_of (e : LegacyIngress.IngressEvent) : option (string * string) :=
  i ← LegacyDispatch.get_integration (LegacyIngress.source e) integrations;
  a ← LegacyDispatch.receipt i;
  match default (VStr "") (dget (LegacyDispatch.external_id_field a) (LegacyIngress.payload e)) with
  | VStr ext =>
      if nonempty ext
      then pair ext <$> LegacyDispatch.resolve_op_id (LegacyDispatch.i_name i) ext (LegacyIngress.payload e) integrations
      else None
  | _ => None
  end.
(** [payload.get("result") or payload] *)
Definition receipt_value (payload : dict value) : value :=
  match dget "result" payload with
  | Some v => if truthy v then v else VDict payload
  | None => VDict payload
  end.
Definition receipt_result (ext : string) (payload : dict value) : res (dict value) :=
  match receipt_value payload with
  | VDict d => Ok (merge [("external_id", VStr ext)] d)
  | v => Raise (Exn TypeError ("'" +:+ type_name v +:+ "' object is not a mapping"))
  end.
Definition consume_receipt (e : LegacyIngress.IngressEvent) (ext op_id : string) : M ingest () :=
  o ← gets (λ s, get_by_id op_id (n_ops s));
  match o with
  | Some o =>
      if in_flight o then
        r ← lift (receipt_result ext (LegacyIngress.payload e));
        modify (set_nops (λ x, (complete op_id r x).2));;
        note "tool.result" (agent_id o) tick
          [("request_id", VStr (request_id o)); ("tool_name", VStr (LegacyIngress.source e));
           ("status", VStr "external_completed"); ("external_id", VStr ext)] true None
      else mret ()
  | None => mret ()
  end.

(** *** Human workers *)

(** The task and the action of an event of a human worker, when it can be routed. *)
Definition human_action (payload : dict value) : res (option (string * string * string)) :=
  let action := default (VStr "") (dget "action" payload) in
  let task := default (VStr "") (dget "task_id" payload) in
  known ← py_in action ["accept"; "complete"; "fail"];
  if negb (known && truthy task) then Ok None else
  exists_ ← py_in task (LegacyTask.all_ids tasks);
  match action, task with
  | VStr a, VStr t =>
      if (exists_ : bool) then Ok ((λ who, (who, a, t)) <$> human_assignee tasks tree t) else Ok None
  | _, _ => Ok None
  end.
Definition parked_action (a t : string) (payload : dict value) : dict value :=
  merge [("action", VStr a); ("task_id", VStr t)]
    (List.filter (λ kv, bool_decide (kv.1 ∉ ["action"; "task_id"])) payload).
Definition append_to (who : string) (x : dict value) (d : dict (list (dict value))) : dict (list (dict value)) :=
  dset who (default [] (dget who d) ++ [x]) d.
Definition consume_human (e : LegacyIngress.IngressEvent) : M ingest () :=
  let p := LegacyIngress.payload e in
  target ← lift (human_action p);
  match target with
  | Some (who, a, t) =>
      modify (set_human (append_to who (parked_action a t p)));;
      wake fresh tick LegacyScheduler.HUMAN_ACTION who "human" t
        [("action", VStr a); ("external_id", VStr (LegacyIngress.external_id e))];;
      note "human.action" who tick
        [("action", VStr a); ("task_id", VStr t); ("external_id", VStr (LegacyIngress.external_id e))] true None
  | None =>
      note "human.action" "" tick
        [("source", VStr (LegacyIngress.source e)); ("event_type", VStr (LegacyIngress.event_type e));
         ("external_id", VStr (LegacyIngress.external_id e)); ("status", VStr "dropped_unroutable");
         ("payload", VDict p)] false (Some "Unroutable human action")
  end.

(** *** Other events *)

Definition subscribed (agent : string) (s : LegacyScheduler.AgentScheduler) : bool :=
  match LegacyScheduler.get_wake_condition agent s with
  | Some c => bool_decide (LegacyScheduler.EXTERNAL_RESULT ∈ LegacyScheduler.event_types c)
  | None => false
  end.
Definition advise (e : LegacyIngress.IngressEvent) (agent : string) : M ingest () :=
  sub ← gets (λ s, subscribed agent (n_sched s));
  if (sub : bool)
  then wake fresh tick LegacyScheduler.EXTERNAL_RESULT agent (LegacyIngress.source e) ""
         [("external_id", VStr (LegacyIngress.external_id e)); ("event_type", VStr (LegacyIngress.event_type e));
          ("source", VStr (LegacyIngress.source e)); ("result", VDict (LegacyIngress.payload e))]
  else mret ().
Definition consume_news (e : LegacyIngress.IngressEvent) : M ingest () :=
  note "tool.result" "" tick
    [("source", VStr (LegacyIngress.source e)); ("event_type", VStr (LegacyIngress.event_type e));
     ("external_id", VStr (LegacyIngress.external_id e)); ("status", VStr "ingressed")] true None;;
  agents ← gets (λ s, dkeys (n_agents s));
  mfor agents (advise e).

Definition consume_event (e : LegacyIngress.IngressEvent) : M ingest () :=
  match receipt_of e with
  | Some (ext, op_id) => consume_receipt e ext op_id
  | None => if decide (LegacyIngress.source e = "human") then consume_human e else consume_news e
  end.

(** The operations that receipts completed go to their agents at once. *)
Definition deliver_receipt (o : PendingOperation) : M ingest () :=
  w ← gets (waits_for o);
  if (w : bool) then
    (match op_type o with
     | TOOL_REQUEST | LLM_REQUEST => receive_ tick o (result o);; _enqueue_result_wake fresh tick o (result o)
     | _ => mret ()
     end);;
    drop_op o
  else mret ().
Definition take_events : M ingest (list LegacyIngress.IngressEvent) := λ s,
  let '(l, b) := LegacyIngress.drain (n_buffer s) in
  (Ok l, mkIngest (n_ops s) (n_agents s) (n_sched s) (n_wakes s) (n_log s) (n_budget s) b (n_human s)).
Definition deliver_receipts : M ingest () :=
  l ← gets (λ s, collect_completed tick (n_ops s)); mfor l deliver_receipt.
Definition _consume_ingress : M ingest () :=
  l ← take_events; mfor l consume_event;; deliver_receipts.
(** The phase, before deadlines, calendar and pools. *)
Definition _phase_ingest : M ingest () :=
  ingest_ops fresh clock pricing epoch tick;; _consume_ingress.
End Routing.

(** ** What events can change *)

Section Confined.
Variable fresh : nat → string.
Variable tick : Z.
Variable integrations : LegacyDispatch.IntegrationRegistry.
Variable tree : LegacyAgentTree.AgentTree.
Variable tasks : LegacyTask.TaskTree.

Definition human_agent (a : string) : Prop :=
  ∃ c, LegacyAgentTree.get a tree = inr c ∧ veq_str (kind_of c) "human" = true.
(** Some integration's receipts resolve to an operation. *)
Definition resolvable (id : string) : Prop :=
  ∃ e ext, receipt_of integrations e = Some (ext, id).
Definition completed_by_receipt (id : string) (s s' : ingest) : Prop :=
  ∃ o r, get_by_id id (n_ops s) = Some o ∧ in_flight o = true ∧ resolvable id ∧
         get_by_id id (n_ops s') = Some (conclude COMPLETED r (error o) (LegacyOps.metadata o) o).

Record confined (s s' : ingest) : Prop := {
  cf_agents : n_agents s' = n_agents s;
  cf_budget : n_budget s' = n_budget s;
  cf_log : n_log s `prefix_of` n_log s';
  cf_ops : ∀ id, get_by_id id (n_ops s') = get_by_id id (n_ops s) ∨ completed_by_receipt id s s';
  cf_human : ∀ a, dget a (n_human s') = dget a (n_human s) ∨
                  human_agent a ∧ default [] (dget a (n_human s)) `prefix_of` default [] (dget a (n_human s')) }.

#[local] Instance confined_preorder : PreOrder confined.
Proof.
  split.
  - intros s. split; auto.
  - intros s t u [A1 B1 L1 O1 H1] [A2 B2 L2 O2 H2]. split; [congruence|congruence|by etrans| |].
    + intros id. specialize (O1 id). specialize (O2 id).
      destruct O2 as [E2|(o & r & G & F & R & E2)].
      * rewrite E2. destruct O1 as [E1|(o & r & G & F & R & E1)]; [by left|].
        right. exists o, r. repeat split; [done..|by rewrite E2].
      * destruct O1 as [E1|(o1 & r1 & G1 & F1 & R1 & E1)].
        -- right. exists o, r. rewrite <-E1. done.
        -- rewrite G in E1. injection E1 as ->. done.
    + intros a. specialize (H1 a). specialize (H2 a).
      destruct H1 as [E1|[K1 P1]], H2 as [E2|[K2 P2]].
      * left. congruence.
      * right. by rewrite <-E1.
      * right. by rewrite E2.
      * right. split; [done|]. by etrans.
Qed.

Lemma confined_note ty agent t d ok err : stable confined (note ty agent t d ok err).
Proof. intros s. split; cbn; auto. by eexists. Qed.
Lemma confined_wake ty agent src task d : stable confined (wake fresh tick ty agent src task d).
Proof. intros s. split; cbn; auto. Qed.
Hint Resolve confined_note confined_wake : stable.

Lemma confined_receipt e ext id : receipt_of integrations e = Some (ext, id) →
  stable confined (consume_receipt tick e ext id).
Proof.
  intros He s. unfold consume_receipt. rewrite run_bind. cbn [gets].
  destruct (get_by_id id (n_ops s)) as [o|] eqn:Ho; [|reflexivity].
  destruct (in_flight o) eqn:Hf; [|reflexivity]. rewrite run_bind.
  destruct (receipt_result ext (LegacyIngress.payload e)) as [r|x]; [|reflexivity]. cbn [lift].
  rewrite run_bind. cbn [modify].
  assert ((complete id r (n_ops s)).2
          = set_ops (dset id (conclude COMPLETED r (error o) (LegacyOps.metadata o) o)) (n_ops s)) as Hc.
  { unfold complete. unfold get_by_id in Ho. rewrite Ho.
    assert (dead o = false) as ->; [|done].
    unfold dead, in_flight, is_status in *. by destruct (LegacyOps.status o). }
  etrans; [|apply confined_note]. split; cbn; auto. intros id'.
  unfold completed_by_receipt, get_by_id. cbn. rewrite Hc. cbn. destruct (decide (id' = id)) as [->|Hne].
  - right. exists o, r. rewrite dget_dset_eq. repeat split; [done..|by exists e, ext].
  - left. by rewrite dget_dset_ne.
Qed.

Lemma human_assignee_human t a : human_assignee tasks tree t = Some a → human_agent a.
Proof.
  unfold human_assignee, human_agent. destruct (LegacyTask.get t tasks) as [|x]; [done|].
  destruct (LegacyAgentTree.get _ tree) as [|c] eqn:E; [done|]. destruct (veq_str _ _) eqn:K; [|done].
  intros [= <-]. eauto.
Qed.
Lemma human_action_human p who a t : human_action tree tasks p = Ok (Some (who, a, t)) → human_agent who.
Proof.
  unfold human_action. intros H.
  destruct (py_in (default _ (dget "action" p)) _) as [known|]; [|done]. cbn in H.
  destruct (negb _); [done|].
  destruct (py_in (default _ (dget "task_id" p)) _) as [ex|]; [|done]. cbn in H.
  destruct (default _ (dget "action" p)); try done.
  destruct (default _ (dget "task_id" p)) as [| | | |t'| |]; try done.
  destruct ex; [|done]. destruct (human_assignee tasks tree t') eqn:E; [|done]. injection H as <- <- <-.
  by eapply human_assignee_human.
Qed.

Lemma confined_human e : stable confined (consume_human fresh tick tree tasks e).
Proof.
  intros s. unfold consume_human. rewrite run_bind.
  destruct (human_action tree tasks (LegacyIngress.payload e)) as [[[[who a] t]|]|x] eqn:E; cbn [lift];
    [|apply confined_note|reflexivity].
  rewrite run_bind. cbn [modify]. set (s1 := set_human _ s). transitivity s1.
  - subst s1. split; cbn; auto. intros b. unfold append_to. destruct (decide (b = who)) as [->|Hb].
    + right. split; [by eapply human_action_human|]. rewrite dget_dset_eq. cbn. by eexists.
    + left. by rewrite dget_dset_ne.
  - assert (stable confined (wake fresh tick LegacyScheduler.HUMAN_ACTION who "human" t
      [("action", VStr a); ("external_id", VStr (LegacyIngress.external_id e))];;
      note "human.action" who tick
        [("action", VStr a); ("task_id", VStr t); ("external_id", VStr (LegacyIngress.external_id e))] true None))
      as Hs by stable_tac.
    apply Hs.
Qed.

Lemma confined_news e : stable confined (consume_news fresh tick e).
Proof. unfold consume_news, advise. stable_tac. Qed.

Lemma confined_event e : stable confined (consume_event fresh tick integrations tree tasks e).
Proof.
  unfold consume_event. destruct (receipt_of integrations e) as [[ext id]|] eqn:E.
  - by apply confined_receipt.
  - case_decide; [apply confined_human|apply confined_news].
Qed.

(** Whatever events a tick routes, and however routing ends: the agents' runtime states and the
    budgets stay, the audit log grows; an operation changes only if it was in flight and an
    integration's receipt resolves to it, and then it is completed and keeps everything but its
    result; and actions are appended only for human workers. *)
Theorem ingress_confined l s :
  confined s (mfor l (consume_event fresh tick integrations tree tasks) s).2.
Proof. apply (stable_mfor confined). intros e. apply confined_event. Qed.
End Confined.

(** The relation is not vacuous: a receipt completes its operation, and only it. *)
Definition taobao : LegacyDispatch.Integration :=
  LegacyDispatch.mkIntegration "taobao" "" (LegacyDispatch.mkLimit 3 (QArith_base.inject_Z 60)) [] [] ""
    (Some (LegacyDispatch.mkReceipt "order_id" (λ ext _, Some ext))).
Definition sample_integrations : LegacyDispatch.IntegrationRegistry :=
  LegacyDispatch.mkIntegrations [("taobao", taobao)] [] [].

(** ** A receipt, end to end *)

Lemma filter_dset (p : PendingOperation → bool) k v (d : dict PendingOperation) :
  NoDup (dkeys d) → p v = true → (∀ o, o ∈ dvalues d → p o = false) → List.filter p (dvalues (dset k v d)) = [v].
Proof.
  unfold dvalues. intros Hn Hv. induction d as [|[k' w] d IH]; cbn; intros H; [by rewrite Hv|].
  assert (List.filter p (map snd d) = []) as Hd.
  { clear -H. induction d as [|[k1 u] d IH]; cbn in *; [done|]. rewrite (H u) by set_solver.
    apply IH. intros o Ho. apply H. set_solver. }
  case_decide; cbn.
  - by rewrite Hv, Hd.
  - rewrite (H w) by left. apply NoDup_cons in Hn as [_ Hn]. apply IH; [done|]. intros o Ho. apply H. by right.
Qed.

Lemma enqueue_buffer fresh tick o r s : n_buffer (_enqueue_result_wake fresh tick o r s).2 = n_buffer s.
Proof.
  unfold _enqueue_result_wake. destruct (op_type o); try done.
  destruct (LegacyDispatch.is_external o); [|done]. by destruct (default _ _).
Qed.

(** A receipt that a tick finds in the buffer, for an operation in flight and due, whose agent
    waits for it, is delivered in the same tick: the routing returns, the operation has left the
    registry, the agent has the receipt's result and waits no more, one event of this tick wakes
    it, and the buffer is empty.  The loops before leave no operation to collect
    (LegacyIngest.ingest_settles). *)
Theorem receipt_delivers fresh tick ints tree tasks s k e ext id r o rs :
  0 ≤ tick → ops_ok (n_ops s) → collect_completed tick (n_ops s) = [] →
  LegacyIngress._events (n_buffer s) = [(k, e)] → receipt_of ints e = Some (ext, id) →
  receipt_result ext (LegacyIngress.payload e) = Ok r →
  get_by_id id (n_ops s) = Some o → in_flight o = true → eligible_tick o ≤ tick →
  op_type o = TOOL_REQUEST ∨ op_type o = LLM_REQUEST →
  dget (agent_id o) (n_agents s) = Some rs → pending_request_id (continuation rs) = id →
  ∃ s', _consume_ingress fresh tick ints tree tasks s = (Ok (), s') ∧
    get_by_id id (n_ops s') = None ∧
    dget (agent_id o) (n_agents s') = Some (set_continuation (receive_result tick o r) rs) ∧
    event_keys s' = event_keys s ++ wakes_of tick o ∧
    LegacyIngress._events (n_buffer s') = [].
Proof.
  intros Ht Hok Hc Hb He Hr Ho Hf Hel Hty Hrs Hp. pose proof Hok as [K1 K2 K3 K4].
  unfold _consume_ingress. rewrite run_bind. unfold take_events, LegacyIngress.drain. rewrite Hb. cbn [map snd].
  set (s1 := mkIngest _ _ _ _ _ _ _ _). rewrite run_bind. cbn [mfor]. rewrite run_bind.
  unfold consume_event. rewrite He. unfold consume_receipt. rewrite run_bind. cbn [gets].
  change (n_ops s1) with (n_ops s). rewrite Ho, Hf, run_bind, Hr. cbn [lift]. rewrite run_bind. cbn [modify].
  set (o' := conclude COMPLETED r (error o) (LegacyOps.metadata o) o).
  assert ((complete id r (n_ops s)).2 = set_ops (dset id o') (n_ops s)) as Hcomp.
  { unfold complete. unfold get_by_id in Ho. rewrite Ho.
    assert (dead o = false) as ->; [|done].
    unfold dead, in_flight, is_status in *. by destruct (LegacyOps.status o). }
  set (s2 := set_nops _ s1). assert (n_ops s2 = set_ops (dset id o') (n_ops s)) as Ho2 by exact Hcomp.
  cbn [note modify]. unfold mret at 1, M_ret. set (s3 := mkIngest _ _ _ _ _ _ _ _).
  assert (n_ops s3 = n_ops s2 ∧ n_agents s3 = n_agents s ∧ event_keys s3 = event_keys s ∧
          LegacyIngress._events (n_buffer s3) = []) as (O3 & A3 & E3 & B3) by done.
  clearbody s3. unfold deliver_receipts. rewrite run_bind. cbn [gets].
  assert (collect_completed tick (n_ops s3) = [o']) as ->.
  { rewrite O3, Ho2. unfold collect_completed in *. cbn [set_ops _operations].
    apply filter_dset; [done| |].
    - unfold o', collectable, is_status. cbn. by apply Z.leb_le.
    - intros x Hx. destruct (collectable tick x) eqn:E; [|done]. exfalso.
      assert (x ∈ List.filter (collectable tick) (dvalues (_operations (n_ops s)))) as Hin
        by by apply elem_of_bfilter.
      rewrite Hc in Hin. by apply elem_of_nil in Hin. }
  cbn [mfor]. rewrite run_bind. unfold deliver_receipt. rewrite run_bind. cbn [gets].
  assert (request_id o = id) as Hid by by apply (K2 id), dget_Some_elem.
  assert (waits_for o' s3 = true) as ->.
  { unfold waits_for. change (agent_id o') with (agent_id o). rewrite A3, Hrs. apply bool_decide_eq_true.
    by rewrite Hp. }
  rewrite run_bind.
  assert (provider_ok o' = true) as Hpr.
  { change (provider_ok o' = true) with (provider_ok o = true). by apply (K4 id), dget_Some_elem. }
  destruct (enqueue_result_ok fresh tick o' r (set_agents (hand tick o' r) s3) Ht Hpr) as (s4 & E4 & O4 & A4 & _ & V4).
  assert ((match op_type o' with
           | TOOL_REQUEST | LLM_REQUEST =>
               receive_ tick o' (result o');; _enqueue_result_wake fresh tick o' (result o')
           | _ => mret ()
           end) s3 = (Ok (), s4)) as ->.
  { change (op_type o') with (op_type o). destruct Hty as [-> | ->]; exact E4. }
  cbn [drop_op modify]. eexists. split; [reflexivity|]. unfold get_by_id. cbn. repeat split.
  - rewrite O4. cbn. rewrite O3, Ho2. cbn. rewrite Hid. apply dget_dpop_eq.
  - rewrite A4. cbn. unfold hand. change (agent_id o') with (agent_id o). rewrite A3, Hrs. apply dget_dset_eq.
  - change (event_keys s4 = event_keys s ++ wakes_of tick o). by rewrite V4, <-E3.
  - pose proof (enqueue_buffer fresh tick o' r (set_agents (hand tick o' r) s3)) as Hbuf.
    rewrite E4 in Hbuf. cbn in Hbuf. by rewrite Hbuf.
Qed.

Definition paid (id : string) (result : value) : LegacyIngress.IngressEvent :=
  LegacyIngress.mkIngress "taobao" id "paid" "t" [("order_id", VStr id); ("result", result)] "" LegacyIngress.NORMAL.
Definition sent_op (id agent : string) : PendingOperation :=
  mkOp id TOOL_REQUEST agent "t1" "act.1" 1 2 (Some 9) PENDING [] "" 0 3 0 None
    [("external_tool", VBool true); ("provider", VStr "taobao")].
Definition no_tree : LegacyAgentTree.AgentTree := LegacyAgentTree.mkTree [] [] [] "".
(** A state with operations in flight and buffered events. *)
Definition awaiting (evs : list LegacyIngress.IngressEvent) : ingest :=
  mkIngest (mkRegistry [("op1", sent_op "op1" "a"); ("op2", sent_op "op2" "b")] [])
    [("a", sample_runtime "a" "op1"); ("b", sample_runtime "b" "op2")]
    (LegacyScheduler.AgentScheduler_init 4) 0 [] (LegacyBudget.BudgetTracker_init LegacyBudget.BudgetConfig_init)
    (LegacyIngress.mkBuffer (map (λ e, (LegacyIngress.dedup_key e, e)) evs) ∅ ∅) [].
Lemma awaiting_ok evs : ops_ok (n_ops (awaiting evs)).
Proof.
  split; [vm_compute; repeat constructor; set_solver|..].
  - intros k o H. repeat (apply elem_of_cons in H as [[= -> ->]|H]; [done|]). by apply elem_of_nil in H.
  - vm_compute. set_solver.
  - intros k o H. repeat (apply elem_of_cons in H as [[= -> ->]|H]; [done|]). by apply elem_of_nil in H.
Qed.

Lemma receipt_delivers_witness :
  ∃ s', _consume_ingress pretty 3 sample_integrations no_tree LegacyTask.TaskTree_init
          (awaiting [paid "op1" (VDict [("ok", VBool true)])]) = (Ok (), s') ∧
        get_by_id "op1" (n_ops s') = None.
Proof.
  destruct (receipt_delivers pretty 3 sample_integrations no_tree LegacyTask.TaskTree_init
              (awaiting [paid "op1" (VDict [("ok", VBool true)])]) ("taobao", "op1")
              (paid "op1" (VDict [("ok", VBool true)])) "op1" "op1"
              [("external_id", VStr "op1"); ("ok", VBool true)] (sent_op "op1" "a") (sample_runtime "a" "op1")
              ltac:(lia) (awaiting_ok _) eq_refl eq_refl eq_refl eq_refl eq_refl eq_refl ltac:(cbn; lia)
              (or_introl eq_refl) eq_refl eq_refl) as (s' & E & H & _).
  exists s'. split; [exact E|exact H].
Defined.

(** A receipt whose result is a text stops the phase, and the events behind it are gone. *)
Example receipt_poison :
  let '(r, s') := _consume_ingress pretty 3 sample_integrations no_tree LegacyTask.TaskTree_init
                    (awaiting [paid "op1" (VStr "done"); paid "op2" (VDict [("ok", VBool true)])]) in
  r = Raise (Exn TypeError "'str' object is not a mapping") ∧
  LegacyIngress._events (n_buffer s') = [] ∧
  in_flight <$> get_by_id "op2" (n_ops s') = Some true.
Proof. vm_compute. done. Qed.
