(* ===== verification/LegacyHuman.v ===== *)
(** * The human control plane of the previous architecture

    legacy/human_control.py: a person pauses and resumes the simulation, writes to agents, changes
    the duration of ticks, looks at the state, and acts on the tasks of human workers through the
    ingress buffer.

    The control plane holds a reference to a buffer, which a restart of the simulation replaces
    under it ([holder]).  The ISO text of an instant is a parameter.  The text of a view of the
    task tree and the router of untyped commands are left out; further keywords of an action are
    a dict. *)

From stdpp Require Import base gmap strings list pretty.
From Stdlib Require Import ZArith Lia.
From S2P Require Import Prelude PyValue.
From S2P Require LegacyKb LegacyScheduler LegacyTask LegacyAgentTree LegacyMail LegacyIngress LegacyOps.
From S2P Require Import LegacyClock.
From S2P Require LegacyContinuation LegacyIngest LegacyRouting.

Open Scope string_scope.
Open Scope Z_scope.
Open Scope list_scope.

Record CommandResult := mkCommand {
  r_success : bool; r_command : string; r_message : string; r_data : dict value }.
Record duration_change := mkChange { dc_value : Z; dc_unit : string; dc_tick : Z }.

(** The buffer of the control plane: none, that of the kernel, or one that only it holds. *)
Inductive holder := NoBuffer | Shared | Own (b : LegacyIngress.IngressBuffer).
Record control := mkControl {
  h_engine : TickEngine; h_mail : LegacyMail.MailSystem; h_log : list LegacyKb.AuditEntry;
  h_kernel : LegacyIngress.IngressBuffer; h_holder : holder;
  _pending_duration_changes : list duration_change }.
Definition set_engine (f : TickEngine → TickEngine) (c : control) : control :=
  mkControl (f (h_engine c)) (h_mail c) (h_log c) (h_kernel c) (h_holder c) (_pending_duration_changes c).
Definition h_audit (ty : string) (d : dict value) (c : control) : control :=
  mkControl (h_engine c) (h_mail c) (LegacyKb.record ty "" 0 d true None (h_log c)) (h_kernel c) (h_holder c)
    (_pending_duration_changes c).

(** ** Pause and resume *)

Definition human_pause (reason human_id : string) (c : control) : CommandResult * control :=
  if decide (e_state (h_engine c) = S_PAUSED)
  then (mkCommand false "pause" "Simulation is already paused" [], c)
  else
    let c := set_engine (if decide (e_state (h_engine c) = S_CREATED) then set_state S_PAUSED else pause) c in
    (mkCommand true "pause" "Simulation paused" [],
     h_audit "human.pause" [("reason", VStr reason); ("human_id", VStr human_id)] c).
Definition human_resume (human_id : string) (c : control) : CommandResult * control :=
  if decide (e_state (h_engine c) = S_PAUSED)
  then (mkCommand true "resume" "Simulation resumed" [],
        h_audit "human.resume" [("human_id", VStr human_id)] (set_engine resume c))
  else (mkCommand false "resume" ("Cannot resume: state is " +:+ state_value (e_state (h_engine c))) [], c).

(** ** Durations *)

Definition set_tick_duration (v : Z) (unit : string) (effective : option Z) (human_id : string) (c : control) :
    CommandResult * control :=
  if v <=? 0 then (mkCommand false "set_tick_duration" "Duration must be positive" [], c) else
  let now := current_tick (h_engine c) in
  let too_late := match effective with Some t => t <=? now | None => false end in
  if too_late
  then (mkCommand false "set_tick_duration"
          ("effective_tick (" +:+ pretty (default 0 effective) +:+ ") must be in the future") [], c)
  else
    let at_ := default (now + 1) effective in
    let change := "Tick duration will change to " +:+ pretty v +:+ " " +:+ unit in
    let msg := match effective with
               | Some t => change +:+ " at tick " +:+ pretty t
               | None => change +:+ " at next tick"
               end in
    let c := mkControl (h_engine c) (h_mail c) (h_log c) (h_kernel c) (h_holder c)
               (_pending_duration_changes c ++ [mkChange v unit at_]) in
    (mkCommand true "set_tick_duration" msg [],
     h_audit "human.config_change"
       [("human_id", VStr human_id); ("setting", VStr "tick_duration"); ("value", VInt v); ("unit", VStr unit);
        ("effective_tick", match effective with Some t => VInt t | None => VNone end)] c).
Definition set_duration (d : duration_change) (e : TickEngine) : TickEngine :=
  mkEngine (mkConfig (dc_value d) (dc_unit d) (c_anchor (config e)) (deadline_approaching_ticks (config e))
              (start_paused (config e))) (current_tick e) (anchor e) (e_state e).
Definition apply_change (st : list duration_change * TickEngine) (d : duration_change) :
    list duration_change * TickEngine :=
  let '(remaining, e) := st in
  if dc_tick d <=? current_tick e then (remaining, set_duration d e) else (remaining ++ [d], e).
Definition apply_pending_duration_changes (c : control) : control :=
  let '(remaining, e) := foldl apply_change ([], h_engine c) (_pending_duration_changes c) in
  mkControl e (h_mail c) (h_log c) (h_kernel c) (h_holder c) remaining.

Section Control.
Variable isoformat : Z → string.
Variable tree : LegacyAgentTree.AgentTree.
Variable tasks : LegacyTask.TaskTree.

(** ** Mail *)

Definition known_agent (a : string) : bool := dmem a (LegacyAgentTree._agents tree).
Definition human_send_email (to : list string) (subject body human_id : string) (tick deliver_at : option Z)
    (p : LegacyMail.EmailPriority) (c : control) : CommandResult * control :=
  match List.find (λ a, negb (known_agent a)) to with
  | Some a => (mkCommand false "send_email" ("Agent '" +:+ a +:+ "' not found") [], c)
  | None =>
      (* [tick or current_tick] *)
      let now := match tick with Some t => if decide (t = 0) then current_tick (h_engine c) else t
                               | None => current_tick (h_engine c) end in
      let d := LegacyMail.mkDraft human_id to subject body LegacyMail.HUMAN_MESSAGE_ "" now
                 (Some (default (now + 1) deliver_at)) p false None "" [] [] None [] in
      let '(r, m) := LegacyMail.create_email d (h_mail c) in
      let id := match LegacyMail.heap m !! r with Some e => LegacyMail.email_id e | None => "" end in
      let c := mkControl (h_engine c) m (h_log c) (h_kernel c) (h_holder c) (_pending_duration_changes c) in
      (mkCommand true "send_email" ("Email sent to " +:+ str_join ", " to) [("email_id", VStr id)],
       h_audit "human.email" [("human_id", VStr human_id); ("to", VList (map VStr to)); ("subject", VStr subject);
                              ("email_id", VStr id)] c)
  end.

(** ** Views *)

Definition view_agent_tree (dump : LegacyAgentTree.AgentConfig → value) : value := LegacyAgentTree.to_dict dump tree.
Definition lock_dump (l : LegacyKb.LockInfo) : value :=
  VDict [("lock_id", VStr (LegacyKb.lock_id l)); ("resource", VStr (LegacyKb.lock_resource l));
         ("owner_agent_id", VStr (LegacyKb.owner_agent_id l)); ("mode", VStr "exclusive");
         ("acquired_at_tick", VInt (LegacyKb.acquired_at_tick l));
         ("lease_until_tick", VInt (LegacyKb.lease_until_tick l));
         ("status", VStr "active"); ("lock_token", VStr (LegacyKb.token l))].
Definition view_locks (m : LegacyKb.LockManager) : dict value :=
  let active := LegacyKb.active_locks m in
  [("locks", VList (map lock_dump active)); ("count", VInt (Z.of_nat (length active)))].
Definition view_simulation_status (m : LegacyKb.LockManager) (c : control) : dict value :=
  [("tick", VInt (current_tick (h_engine c))); ("state", VStr (state_value (e_state (h_engine c))));
   ("agent_count", VInt (Z.of_nat (length (LegacyAgentTree._agents tree))));
   ("task_count", VInt (Z.of_nat (LegacyTask.count tasks)));
   ("pending_emails", VInt (Z.of_nat (length (LegacyMail._pending (h_mail c)))));
   ("active_locks", VInt (Z.of_nat (length (LegacyKb.active_locks m))));
   ("tick_duration", VDict [("value", VInt (tick_duration_value (config (h_engine c))));
                            ("unit", VStr (tick_duration_unit (config (h_engine c))))])].
Definition view_agent_status (a : string) (c : control) : option (dict value) :=
  match LegacyAgentTree.get a tree with
  | inl _ => None
  | inr x =>
      let box := dget a (LegacyMail._mailboxes (h_mail c)) in
      let own := LegacyTask.get_assignee_tasks a tasks in
      Some [("agent_id", VStr a);
            ("role", match LegacyAgentTree.settings x with VDict d => default VNone (dget "role" d) | _ => VNone end);
            ("parent_id", match LegacyAgentTree.parent_id x with Some p => VStr p | None => VNone end);
            ("children", VList (map VStr (LegacyAgentTree.children x)));
            ("inbox_unread", VInt (match box with
                                   | Some b => Z.of_nat (LegacyMail.unread_count b (h_mail c))
                                   | None => 0
                                   end));
            ("outbox_count", VInt (match box with
                                   | Some b => Z.of_nat (length (LegacyMail.outbox b (h_mail c)))
                                   | None => 0
                                   end));
            ("active_tasks", VInt (Z.of_nat (length (List.filter LegacyTask.is_active own))));
            ("completed_tasks", VInt (Z.of_nat (length (List.filter LegacyTask.is_terminal own))))]
  end.

(** ** Actions of human workers *)

Definition task_status_value (s : LegacyTask.TaskStatus) : string :=
  match s with
  | LegacyTask.DRAFT => "draft" | LegacyTask.ASSIGNED => "assigned" | LegacyTask.ACCEPTED => "accepted"
  | LegacyTask.IN_PROGRESS => "in_progress" | LegacyTask.BLOCKED => "blocked"
  | LegacyTask.WAITING_FOR_CHILDREN => "waiting_for_children" | LegacyTask.SUBMITTED => "submitted"
  | LegacyTask.REVIEWING => "reviewing" | LegacyTask.COMPLETED => "completed" | LegacyTask.FAILED => "failed"
  | LegacyTask.CANCELLED => "cancelled" | LegacyTask.EXPIRED => "expired"
  end.

Definition the_buffer (c : control) : option LegacyIngress.IngressBuffer :=
  match h_holder c with NoBuffer => None | Shared => Some (h_kernel c) | Own b => Some b end.
Definition put_buffer (b : LegacyIngress.IngressBuffer) (c : control) : control :=
  match h_holder c with
  | NoBuffer => c
  | Shared => mkControl (h_engine c) (h_mail c) (h_log c) b Shared (_pending_duration_changes c)
  | Own _ => mkControl (h_engine c) (h_mail c) (h_log c) (h_kernel c) (Own b) (_pending_duration_changes c)
  end.
Definition human_event (task action human_id : string) (extra : dict value) (now : Z) : LegacyIngress.IngressEvent :=
  LegacyIngress.mkIngress "human" (task +:+ ":" +:+ action) "human_action" (isoformat now)
    (LegacyRouting.merge [("action", VStr action); ("task_id", VStr task); ("human_id", VStr human_id)] extra)
    "" LegacyIngress.NORMAL.
(** The exceptions: the assignee is no agent, or the unit of the tick's duration is unknown. *)
Inductive control_error := AgentMissing (e : LegacyAgentTree.tree_error) | ClockError (e : exn).
Definition submit_task_action (task action human_id : string) (extra : dict value) (c : control) :
    (control_error + CommandResult) * control :=
  let no cmd msg := (inr (mkCommand false cmd msg []), c) in
  match the_buffer c with
  | None => no ("task_" +:+ action) "No ingress buffer wired (human actions disabled)"
  | Some b =>
      if negb (bool_decide (action ∈ ["accept"; "complete"; "fail"]))
      then no "task_action" ("Unknown human action: " +:+ repr_str action) else
      match LegacyTask.get task tasks with
      | inl _ => no ("task_" +:+ action) ("Task '" +:+ task +:+ "' not found")
      | inr t =>
          let who := LegacyTask.assignee_agent_id t in
          match LegacyAgentTree.get who tree with
          | inl e => (inl (AgentMissing e), c)
          | inr a =>
              if negb (veq_str (LegacyRouting.kind_of a) "human")
              then no ("task_" +:+ action)
                     ("Task '" +:+ task +:+ "' assignee '" +:+ who +:+ "' is not a kind=human worker")
              else if LegacyTask.is_terminal t
              then no ("task_" +:+ action)
                     ("Task '" +:+ task +:+ "' is already terminal (" +:+ task_status_value (LegacyTask.status t)
                      +:+ ") — cannot act on it")
              else
                match wall_now (h_engine c) with
                | Raise e => (inl (ClockError e), c)
                | Ok now =>
                    let '(_, b) := LegacyIngress.receive (human_event task action human_id extra now) b in
                    (inr (mkCommand true ("task_" +:+ action)
                            ("Human action '" +:+ action +:+ "' accepted for task '" +:+ task +:+ "'") []),
                     h_audit "human.action"
                       [("human_id", VStr human_id); ("action", VStr action); ("task_id", VStr task);
                        ("assignee", VStr who); ("source", VStr "human")] (put_buffer b c))
                end
          end
      end
  end.
Definition accept_task (task human_id : string) := submit_task_action task "accept" human_id [].
Definition complete_task (task summary human_id : string) :=
  submit_task_action task "complete" human_id [("summary", VStr summary)].
Definition fail_task (task reason : string) (retryable : bool) (human_id : string) :=
  submit_task_action task "fail" human_id [("reason", VStr reason); ("retryable", VBool retryable)].
End Control.

(** A new simulation reads a saved state: its kernel gets the restored buffer, the control plane
    keeps the one it was made with (simulation.py). *)
Definition restart (saved : LegacyIngress.IngressBuffer) (c : control) : control :=
  mkControl (h_engine c) (h_mail c) (h_log c) saved (Own LegacyIngress.IngressBuffer_init)
    (_pending_duration_changes c).

(** ** Actions reach their worker *)

Lemma dget_nil_fresh {V} k (d : dict V) : k ∉ dkeys d → dget k d = None.
Proof. by rewrite dget_None_keys. Qed.
Lemma merge_app base d : NoDup (dkeys (base ++ d)) → LegacyRouting.merge base d = base ++ d.
Proof.
  unfold LegacyRouting.merge. revert base. induction d as [|[k v] d IH]; intros base H; cbn; [by rewrite app_nil_r|].
  assert (k ∉ dkeys base) as Hk.
  { unfold dkeys in *. rewrite map_app in H. apply NoDup_app in H as (_ & Hd & _). intros Hin. by eapply Hd; [|left]. }
  rewrite (dset_new k v base Hk), IH, <-app_assoc; [done|]. by rewrite <-app_assoc.
Qed.

(** The keywords of an action that are not named by the method. *)
Definition extra_ok (extra : dict value) : Prop :=
  NoDup (dkeys extra) ∧ ∀ k, k ∈ dkeys extra → k ∉ ["action"; "task_id"; "human_id"].

Lemma extra_nodup action task human extra : extra_ok extra →
  NoDup (dkeys ([("action", VStr action); ("task_id", VStr task); ("human_id", VStr human)] ++ extra)).
Proof.
  intros [Hn Hk]. unfold dkeys in *. rewrite map_app. apply NoDup_app. split; [|split; [|done]].
  - cbn. repeat constructor; set_solver.
  - intros k H1 H2. apply (Hk k H2). cbn in H1. set_solver.
Qed.
Lemma event_payload iso task action human extra now : extra_ok extra →
  LegacyIngress.payload (human_event iso task action human extra now)
  = [("action", VStr action); ("task_id", VStr task); ("human_id", VStr human)] ++ extra.
Proof.
  intros Hx. unfold human_event. cbn [LegacyIngress.payload]. apply merge_app. by apply extra_nodup.
Qed.

Lemma receive_twice e b : (LegacyIngress.receive e (LegacyIngress.receive e b).2).2 = (LegacyIngress.receive e b).2.
Proof.
  destruct (decide (LegacyIngress.dedup_key e ∈ LegacyIngress._seen b)) as [H|H].
  - assert (LegacyIngress.receive e b = (false, b)) as E by (unfold LegacyIngress.receive; by rewrite decide_True).
    rewrite E. cbn [snd]. by rewrite E.
  - unfold LegacyIngress.receive at 2 3. rewrite decide_False by done. cbn.
    unfold LegacyIngress.receive. rewrite decide_True; [done|]. cbn. set_solver.
Qed.
Lemma human_action_ok tree tasks task action human extra t :
  task ≠ "" → bool_decide (action ∈ ["accept"; "complete"; "fail"]) = true → LegacyTask.get task tasks = inr t →
  LegacyRouting.human_action tree tasks
    ([("action", VStr action); ("task_id", VStr task); ("human_id", VStr human)] ++ extra)
  = Ok ((λ who, (who, action, task)) <$> LegacyRouting.human_assignee tasks tree task).
Proof.
  intros Hne Ha Et. unfold LegacyRouting.human_action. set (p := _ ++ extra).
  assert (dget "action" p = Some (VStr action)) as -> by done.
  assert (dget "task_id" p = Some (VStr task)) as -> by done. cbn [default from_option id].
  unfold py_in. cbn [hashable]. rewrite Ha. cbn [mbind res_bind andb].
  assert (truthy (VStr task) = true) as -> by (cbn; unfold nonempty; by rewrite bool_decide_eq_false_2).
  cbn [negb]. rewrite bool_decide_eq_true_2; [done|].
  unfold LegacyTask.get in Et. destruct (dget task (LegacyTask._tasks tasks)) eqn:E; [|done].
  by eapply dget_keys.
Qed.
Lemma parked_exact action task human extra : extra_ok extra →
  LegacyRouting.parked_action action task
    ([("action", VStr action); ("task_id", VStr task); ("human_id", VStr human)] ++ extra)
  = [("action", VStr action); ("task_id", VStr task); ("human_id", VStr human)] ++ extra.
Proof.
  intros [Hn Hk]. unfold LegacyRouting.parked_action.
  assert (List.filter (λ kv, bool_decide (kv.1 ∉ ["action"; "task_id"])) extra = extra) as Hf.
  { apply List.forallb_filter_id, List.forallb_forall. intros kv Hin%list_elem_of_In. apply bool_decide_eq_true.
    apply (list_elem_of_fmap_2 fst) in Hin. specialize (Hk _ Hin). set_solver. }
  cbn [app List.filter fst]. rewrite Hf. apply (merge_app [_; _] (_ :: extra)).
  apply (extra_nodup action task human extra). by split.
Qed.

(** A human worker's action, submitted while the control plane shares the kernel's buffer,
    either is refused and changes nothing, or is buffered; when a tick then routes the event, the
    action with its keywords is parked for the worker the task is assigned to, who is woken in
    that tick; nothing else of the state changes but the audit log.  A second submission of the
    same action reports success and buffers nothing. *)
Theorem human_action_routed iso tree tasks task action human extra c fresh tick ints s :
  h_holder c = Shared → task ≠ "" → extra_ok extra → 0 ≤ tick →
  (∀ e, LegacyIngress.source e = "human" → LegacyRouting.receipt_of ints e = None) →
  match submit_task_action iso tree tasks task action human extra c with
  | (inl _, c') => c' = c
  | (inr r, c') =>
      if r_success r then
        ∃ who e, LegacyRouting.human_assignee tasks tree task = Some who ∧
          LegacyIngress.dedup_key e = ("human", task +:+ ":" +:+ action) ∧
          h_kernel c' = (LegacyIngress.receive e (h_kernel c)).2 ∧
          h_kernel (submit_task_action iso tree tasks task action human extra c').2 = h_kernel c' ∧
          ∃ s', LegacyRouting.consume_event fresh tick ints tree tasks e s = (Ok (), s') ∧
            LegacyIngest.n_human s' = LegacyRouting.append_to who
              ([("action", VStr action); ("task_id", VStr task); ("human_id", VStr human)] ++ extra)
              (LegacyIngest.n_human s) ∧
            LegacyIngest.event_keys s' =
              LegacyIngest.event_keys s ++ [(LegacyScheduler.HUMAN_ACTION, who, tick)] ∧
            LegacyIngest.n_ops s' = LegacyIngest.n_ops s ∧ LegacyIngest.n_agents s' = LegacyIngest.n_agents s
      else c' = c
  end.
Proof.
  intros Hh Hne Hx Ht Hints. unfold submit_task_action, the_buffer at 1. rewrite Hh.
  destruct (bool_decide (action ∈ ["accept"; "complete"; "fail"])) eqn:Ha; cbn [negb]; [|done].
  destruct (LegacyTask.get task tasks) as [|t] eqn:Et; [done|].
  destruct (LegacyAgentTree.get (LegacyTask.assignee_agent_id t) tree) as [|a] eqn:Ea; [done|].
  destruct (veq_str (LegacyRouting.kind_of a) "human") eqn:Ek; cbn [negb]; [|done].
  destruct (LegacyTask.is_terminal t) eqn:El; [done|].
  destruct (wall_now (h_engine c)) as [now|] eqn:Ew; [|done].
  set (e := human_event iso task action human extra now).
  destruct (LegacyIngress.receive e (h_kernel c)) as [ok b] eqn:Er. cbn [r_success].
  assert (LegacyRouting.human_assignee tasks tree task = Some (LegacyTask.assignee_agent_id t)) as Hw.
  { unfold LegacyRouting.human_assignee. by rewrite Et, Ea, Ek. }
  exists (LegacyTask.assignee_agent_id t), e. split; [exact Hw|]. split; [done|].
  unfold put_buffer. rewrite Hh. rewrite Er. split; [done|]. split.
  - cbn [h_audit the_buffer h_holder h_kernel h_engine]. rewrite Ew. fold e.
    pose proof (receive_twice e (h_kernel c)) as Htw. rewrite Er in Htw. cbn [snd] in Htw.
    destruct (LegacyIngress.receive e b) as [ok' b']. cbn in *. done.
  - unfold LegacyRouting.consume_event. rewrite (Hints e eq_refl), decide_True by done.
    unfold LegacyRouting.consume_human. rewrite run_bind. subst e. rewrite event_payload by done.
    rewrite (human_action_ok tree tasks task action human extra _ Hne Ha Et), Hw. cbn [lift fmap option_fmap option_map].
    rewrite run_bind. cbn [modify]. rewrite parked_exact by done. eexists. split; [reflexivity|].
    repeat split. change (LegacyIngest.event_keys (LegacyIngest.wake fresh tick LegacyScheduler.HUMAN_ACTION
      (LegacyTask.assignee_agent_id t) "human" task
      [("action", VStr action); ("external_id", VStr (task +:+ ":" +:+ action))] s).2 =
      LegacyIngest.event_keys s ++ [(LegacyScheduler.HUMAN_ACTION, LegacyTask.assignee_agent_id t, tick)]).
    by apply LegacyIngest.wake_events.
Qed.

Definition worker_tree : LegacyAgentTree.AgentTree :=
  LegacyAgentTree.mkTree
    [("eve", LegacyAgentTree.mkAgent "eve" None [] (VDict [("kind", VStr "human")]))] [] [] "eve".
Definition worker_tasks : LegacyTask.TaskTree :=
  (LegacyTask.create "t1" "Report" "boss" "eve" "" None LegacyTask.NORMAL None [] 0 LegacyTask.TaskTree_init).2.
Definition fresh_control : control :=
  mkControl (TickEngine_init (mkConfig 10 "seconds" None 2 false) 0) LegacyMail.MailSystem_init []
    LegacyIngress.IngressBuffer_init Shared [].
Lemma human_action_routed_witness :
  ∃ s', LegacyRouting.consume_event pretty 1 LegacyDispatch.IntegrationRegistry_init worker_tree worker_tasks
          (human_event pretty "t1" "accept" "human.ann" [] 0) LegacyIngest.sample_ingest = (Ok (), s') ∧
        LegacyIngest.n_human s' =
          [("eve", [[("action", VStr "accept"); ("task_id", VStr "t1"); ("human_id", VStr "human.ann")]])].
Proof.
  destruct (human_action_routed pretty worker_tree worker_tasks "t1" "accept" "human.ann" [] fresh_control
              pretty 1 LegacyDispatch.IntegrationRegistry_init LegacyIngest.sample_ingest eq_refl
              ltac:(discriminate) (conj (NoDup_nil_2) (λ k H, match elem_of_nil k with conj f _ => match f H with end end))
              ltac:(lia) (λ _ _, eq_refl)) as (who & e & Hw & _ & He & _ & s' & E & Hn & _).
  vm_compute in Hw. injection Hw as <-.
  assert (e = human_event pretty "t1" "accept" "human.ann" [] 0) as ->.
  { apply (f_equal LegacyIngress._events) in He. vm_compute in He. vm_compute. by inversion He. }
  exists s'. split; [exact E|exact Hn].
Defined.

(** After a restart the control plane writes to a buffer that no tick reads. *)
Theorem restart_disconnects iso tree tasks saved c task action human extra :
  h_kernel (submit_task_action iso tree tasks task action human extra (restart saved c)).2 = saved.
Proof.
  unfold submit_task_action. cbn [the_buffer restart h_holder].
  destruct (negb (bool_decide _)); [done|]. destruct (LegacyTask.get task tasks); [done|].
  destruct (LegacyAgentTree.get _ tree); [done|]. destruct (negb (veq_str _ _)); [done|].
  destruct (LegacyTask.is_terminal _); [done|]. destruct (wall_now _); [|done].
  by destruct (LegacyIngress.receive _ _).
Qed.
Example lost_action :
  let '(r, c) := submit_task_action pretty worker_tree worker_tasks "t1" "accept" "human.ann" []
                   (restart LegacyIngress.IngressBuffer_init fresh_control) in
  (match r with inr r => r_success r | inl _ => false end) = true ∧
  LegacyIngress._events (h_kernel c) = [].
Proof. vm_compute. done. Qed.

(** ** Pauses and durations *)

Inductive human_op :=
| HPause (reason who : string) | HResume (who : string)
| HMail (to : list string) (subject body who : string) (tick at_ : option Z) (p : LegacyMail.EmailPriority)
| HDuration (v : Z) (unit : string) (effective : option Z) (who : string)
| HAction (task action who : string) (extra : dict value)
| HApply | HAdvance (count : Z).
Definition is_resume (o : human_op) : bool := match o with HResume _ => true | _ => false end.
(** A command, or what a tick does to the engine: a paused one refuses to advance. *)
Definition human_step iso tree tasks (c : control) (o : human_op) : control :=
  match o with
  | HPause r w => (human_pause r w c).2
  | HResume w => (human_resume w c).2
  | HMail to s b w t a p => (human_send_email tree to s b w t a p c).2
  | HDuration v u e w => (set_tick_duration v u e w c).2
  | HAction t a w x => (submit_task_action iso tree tasks t a w x c).2
  | HApply => apply_pending_duration_changes c
  | HAdvance n => set_engine (λ e, match advance n e with Ok e => e | Raise _ => e end) c
  end.

Lemma apply_engine l st e : current_tick (foldl apply_change (st, e) l).2 = current_tick e ∧
  anchor (foldl apply_change (st, e) l).2 = anchor e ∧ e_state (foldl apply_change (st, e) l).2 = e_state e.
Proof.
  revert st e. induction l as [|d l IH]; intros st e; cbn; [done|].
  destruct (dc_tick d <=? current_tick e); [|apply IH]. destruct (IH st (set_duration d e)) as (-> & -> & ->). done.
Qed.
Lemma submit_engine iso tree tasks t a w x c : h_engine (submit_task_action iso tree tasks t a w x c).2 = h_engine c.
Proof.
  unfold submit_task_action. destruct (the_buffer c); [|done].
  destruct (negb (bool_decide _)); [done|]. destruct (LegacyTask.get t tasks); [done|].
  destruct (LegacyAgentTree.get _ tree); [done|]. destruct (negb (veq_str _ _)); [done|].
  destruct (LegacyTask.is_terminal _); [done|]. destruct (wall_now _); [|done].
  destruct (LegacyIngress.receive _ _). cbn. unfold put_buffer. by destruct (h_holder c).
Qed.

(** A pause holds: until somebody resumes, no command and no tick moves the clock's tick or starts
    the engine. *)
Theorem pause_holds iso tree tasks l c :
  e_state (h_engine c) = S_PAUSED → existsb is_resume l = false →
  let c' := foldl (human_step iso tree tasks) c l in
  e_state (h_engine c') = S_PAUSED ∧ current_tick (h_engine c') = current_tick (h_engine c) ∧
  anchor (h_engine c') = anchor (h_engine c).
Proof.
  revert c. induction l as [|o l IH]; intros c Hp; cbn; [done|]. intros [Ho Hl]%orb_false_iff.
  assert (e_state (h_engine (human_step iso tree tasks c o)) = S_PAUSED ∧
          current_tick (h_engine (human_step iso tree tasks c o)) = current_tick (h_engine c) ∧
          anchor (h_engine (human_step iso tree tasks c o)) = anchor (h_engine c)) as (H1 & H2 & H3).
  { destruct o; cbn [human_step]; try done.
    - unfold human_pause. by rewrite decide_True.
    - unfold human_send_email. destruct (List.find _ _); [done|]. by destruct (LegacyMail.create_email _ _).
    - unfold set_tick_duration. destruct (v <=? 0); [done|]. by destruct (match effective with Some t => _ | None => _ end).
    - by rewrite submit_engine.
    - unfold apply_pending_duration_changes.
      pose proof (apply_engine (_pending_duration_changes c) [] (h_engine c)) as (K1 & K2 & K3).
      destruct (foldl _ _ _). cbn in *. by rewrite K1, K2, K3.
    - cbn. unfold advance, can_advance. rewrite Hp. done. }
  destruct (IH _ H1 Hl) as (K1 & K2 & K3). split; [done|]. by rewrite K2, K3.
Qed.
Lemma pause_holds_witness :
  current_tick (h_engine (foldl (human_step pretty worker_tree worker_tasks)
    (human_pause "lunch" "ann" fresh_control).2 [HAdvance 3; HDuration 5 "minutes" None "ann"; HApply])) = 0.
Proof.
  exact (proj1 (proj2 (pause_holds pretty worker_tree worker_tasks
    [HAdvance 3; HDuration 5 "minutes" None "ann"; HApply] (human_pause "lunch" "ann" fresh_control).2 eq_refl eq_refl))).
Defined.

(** Changes that are due are taken off the list in order, and the last of them holds; the others
    wait. *)
Theorem due_changes_applied c :
  let c' := apply_pending_duration_changes c in
  let now := current_tick (h_engine c) in
  let due := List.filter (λ d, dc_tick d <=? now) (_pending_duration_changes c) in
  _pending_duration_changes c' = List.filter (λ d, negb (dc_tick d <=? now)) (_pending_duration_changes c) ∧
  current_tick (h_engine c') = now ∧
  match last due with
  | Some d => tick_duration_value (config (h_engine c')) = dc_value d ∧
              tick_duration_unit (config (h_engine c')) = dc_unit d
  | None => h_engine c' = h_engine c
  end.
Proof.
  unfold apply_pending_duration_changes. generalize (_pending_duration_changes c) as l. intros l.
  assert (∀ st e, let r := foldl apply_change (st, e) l in
    r.1 = st ++ List.filter (λ d, negb (dc_tick d <=? current_tick e)) l ∧
    current_tick r.2 = current_tick e ∧
    match last (List.filter (λ d, dc_tick d <=? current_tick e) l) with
    | Some d => tick_duration_value (config r.2) = dc_value d ∧ tick_duration_unit (config r.2) = dc_unit d
    | None => r.2 = e
    end) as H.
  { induction l as [|d l IH]; intros st e; cbn; [by rewrite app_nil_r|].
    destruct (dc_tick d <=? current_tick e) eqn:E; cbn.
    - destruct (IH st (set_duration d e)) as (H1 & H2 & H3). cbn in *. split; [done|]. split; [done|].
      rewrite last_cons. destruct (last _); [done|]. by rewrite H3.
    - destruct (IH (st ++ [d]) e) as (H1 & H2 & H3). split; [|done]. by rewrite H1, <-app_assoc. }
  specialize (H [] (h_engine c)). destruct (foldl apply_change ([], h_engine c) l) as [rem e] eqn:E. cbn in *. exact H.
Qed.

(** Shorter ticks move the business clock back. *)
Example clock_steps_back :
  let c := set_engine (λ e, match advance 10 e with Ok e => e | Raise _ => e end) fresh_control in
  let c' := apply_pending_duration_changes
              (set_engine (λ e, match advance 1 e with Ok e => e | Raise _ => e end)
                 (set_tick_duration 1 "seconds" None "ann" c).2) in
  wall_now (h_engine c) = Ok 100000000 ∧ wall_now (h_engine c') = Ok 11000000.
Proof. vm_compute. done. Qed.
(** A unit that no engine knows is accepted, and the clock raises from then on. *)
Example unknown_unit :
  let '(r, c) := set_tick_duration 1 "days" (Some 1) "ann" fresh_control in
  let c' := apply_pending_duration_changes (set_engine (λ e, match advance 1 e with Ok e => e | Raise _ => e end) c) in
  r_success r = true ∧ wall_now (h_engine c') = Raise (Exn ValueError
    "Invalid tick_duration_unit 'days' (expected one of ['hours', 'minutes', 'seconds'])").
Proof. vm_compute. done. Qed.
