(* ===== verification/LegacyMemory.v ===== *)
(** * The memory of an agent in the previous architecture

    legacy/models/memory.py and legacy/memory_store.py: typed memory entries, their version chains,
    the store of an agent with its writes, each of which stages an effect in the transaction
    buffer, and the undo of an effect.

    An identifier is the text of a UUID.  The validation library reads an entry back from what it
    dumped ([validate], [dump]); a tuple in an effect is a list.  [word] tells which characters
    beyond ASCII a regular expression takes for letters.  Texts of validation errors are paraphrased. *)

From stdpp Require Import base gmap strings list pretty.
From Stdlib Require Import ZArith Ascii Lia.
From S2P Require Import Prelude PyValue LegacyTransaction.

Open Scope string_scope.
Open Scope list_scope.
Open Scope Z_scope.

(** ** UUIDs in a text *)

Section Uuid.
Variable word : string → bool.

Definition in_codes (lo hi : nat) (c : ascii) : bool :=
  ((lo <=? nat_of_ascii c) && (nat_of_ascii c <=? hi))%nat.
Definition hex_char (c : string) : bool :=
  match c with
  | String a EmptyString => in_codes 48 57 a || in_codes 97 102 a || in_codes 65 70 a
  | _ => false
  end.
(** [\w] *)
Definition word_char (c : string) : bool :=
  match c with
  | String a EmptyString =>
      in_codes 48 57 a || in_codes 97 122 a || in_codes 65 90 a || bool_decide (c = "_")
  | _ => word c
  end.

(** What follows [n] characters that satisfy [p]. *)
Fixpoint skip (p : string → bool) (n : nat) (l : list string) : option (list string) :=
  match n, l with
  | O, _ => Some l
  | S n', c :: l' => if p c then skip p n' l' else None
  | S _, [] => None
  end.
Definition is_char (d c : string) : bool := bool_decide (c = d).
Definition variant_char (c : string) : bool := bool_decide (c ∈ ["8"; "9"; "a"; "b"; "A"; "B"]).
(** What follows a UUID of version 4 at the start of the text. *)
Definition uuid_at (l : list string) : option (list string) :=
  l ← skip hex_char 8 l; l ← skip (is_char "-") 1 l; l ← skip hex_char 4 l; l ← skip (is_char "-") 1 l;
  l ← skip (is_char "4") 1 l; l ← skip hex_char 3 l; l ← skip (is_char "-") 1 l;
  l ← skip variant_char 1 l; l ← skip hex_char 3 l; l ← skip (is_char "-") 1 l; skip hex_char 12 l.
(** [before]: the character before is a letter. *)
Fixpoint uuid_search (before : bool) (l : list string) : bool :=
  (negb before
   && match uuid_at l with
      | Some (c :: _) => negb (word_char c)
      | Some [] => true
      | None => false
      end)
  || match l with [] => false | c :: l' => uuid_search (word_char c) l' end.
Definition _contains_uuid (text : string) : bool := uuid_search false (utf8_chars text).
End Uuid.

(** ** Entries *)

Inductive MemoryEntryType := M_TASK | M_SKILL | M_TOOL | M_PERSON.
#[global] Instance MemoryEntryType_eq_dec : EqDecision MemoryEntryType.
Proof. solve_decision. Defined.
Definition type_value (t : MemoryEntryType) : string :=
  match t with M_TASK => "task" | M_SKILL => "skill" | M_TOOL => "tool" | M_PERSON => "person" end.

Inductive Content :=
| TaskContent (notes progress decision_rationale : string)
| SkillContent (sop_text : string) (applies_to : list string)
| ToolContent (src entry capability_decl : string)
| PersonContent (profile relations preferences : string).
(** The texts that must hold no UUID. *)
Definition texts (c : Content) : list string :=
  match c with
  | TaskContent a b d | ToolContent a b d | PersonContent a b d => [a; b; d]
  | SkillContent a l => a :: l
  end.
Definition type_of (c : Content) : MemoryEntryType :=
  match c with
  | TaskContent _ _ _ => M_TASK | SkillContent _ _ => M_SKILL
  | ToolContent _ _ _ => M_TOOL | PersonContent _ _ _ => M_PERSON
  end.
Definition content_new (word : string → bool) (c : Content) : res Content :=
  if existsb (_contains_uuid word) (texts c)
  then Raise (Exn ValidationError ("content of a " +:+ type_value (type_of c) +:+ " entry holds a UUID"))
  else Ok c.

Inductive EntryOrigin := OWN | INJECTED.
#[global] Instance EntryOrigin_eq_dec : EqDecision EntryOrigin.
Proof. solve_decision. Defined.
Record InjectionRef := mkInjection {
  position_id : option string; entity_id : option string; snapshot_version : option Z;
  snapshot_hash : option string }.
Record TaskResultRef := mkTaskResult { tres_task : string; tres_outcome : string; tres_note : string }.
Record EntryProvenance := mkProvenance {
  origin : EntryOrigin; injection_ref : option InjectionRef; task_results : list TaskResultRef;
  consolidation_origin : string }.
Definition provenance_new (p : EntryProvenance) : res EntryProvenance :=
  match origin p, injection_ref p with
  | INJECTED, None => Raise (Exn ValidationError "origin=injected without injection_ref")
  | _, _ => Ok p
  end.
Definition EntryProvenance_default : EntryProvenance := mkProvenance OWN None [] "".

Record MemoryEntry := mkEntry {
  entry_id : string; e_type : MemoryEntryType; title : string; e_content : Content;
  memory_points : list string; associated : list string; version : Z; provenance : EntryProvenance }.
(** The constructor, on a content and a provenance that were checked when they were made. *)
Definition entry_new (e : MemoryEntry) : res MemoryEntry :=
  if version e <? 1 then Raise (Exn ValidationError "version must be at least 1") else
  if decide (type_of (e_content e) = e_type e) then Ok e
  else Raise (Exn ValidationError
                ("type=" +:+ type_value (e_type e) +:+ " with content of type " +:+ type_value (type_of (e_content e)))).

Definition make_entry (word : string → bool) (id ttl : string) (c : Content) (points assoc : list string)
    (v : Z) (p : option EntryProvenance) : res MemoryEntry :=
  c ← content_new word c;
  entry_new (mkEntry id (type_of c) ttl c points assoc v (default EntryProvenance_default p)).

(** ** Version chains *)

(** [_chain]: the oldest version and those after it. *)
Record VersionChain := mkChain { oldest : MemoryEntry; newer : list MemoryEntry }.
Definition chain_new (e : MemoryEntry) : VersionChain := mkChain e [].
Definition history (c : VersionChain) : list MemoryEntry := oldest c :: newer c.
Definition chain_id (c : VersionChain) : string := entry_id (oldest c).
Definition current (c : VersionChain) : MemoryEntry := List.last (newer c) (oldest c).
Definition version_count (c : VersionChain) : nat := length (history c).

Definition append_version (e : MemoryEntry) (c : VersionChain) : res VersionChain :=
  if decide (entry_id e = chain_id c) then
    if decide (version e = version (current c) + 1) then Ok (mkChain (oldest c) (newer c ++ [e]))
    else Raise (Exn ValueError
                  ("版本号必须严格递增：当前最新 " +:+ pretty (version (current c)) +:+ "，新版本须为 " +:+
                   pretty (version (current c) + 1) +:+ "，实际 " +:+ pretty (version e)))
  else Raise (Exn ValueError ("版本链 entry_id 不匹配：期待 " +:+ chain_id c +:+ "，实际 " +:+ entry_id e)).
Definition pop_latest_version (c : VersionChain) : res MemoryEntry * VersionChain :=
  match newer c with
  | [] => (Raise (Exn ValueError "版本链只剩一个版本，无法 pop（应整体移除条目）"), c)
  | _ :: _ => (Ok (current c), mkChain (oldest c) (removelast (newer c)))
  end.

(** ** The store of an agent *)

Record AgentMemory := mkMemory { m_agent : string; _store : dict VersionChain }.
Definition AgentMemory_init (agent : string) : AgentMemory := mkMemory agent [].
Definition set_store (d : dict VersionChain) (m : AgentMemory) : AgentMemory := mkMemory (m_agent m) d.

Definition get (id : string) (m : AgentMemory) : option MemoryEntry := current <$> dget id (_store m).
Definition get_chain (id : string) (m : AgentMemory) : list MemoryEntry :=
  match dget id (_store m) with Some c => history c | None => [] end.
Definition list_entries (t : option MemoryEntryType) (m : AgentMemory) : list MemoryEntry :=
  let l := map current (dvalues (_store m)) in
  match t with
  | Some t => List.filter (λ e, bool_decide (e_type e = t)) l
  | None => l
  end.
Definition contains (id : string) (m : AgentMemory) : bool := dmem id (_store m).
Definition memory_len (m : AgentMemory) : nat := length (_store m).

Definition _apply_write (e : MemoryEntry) (m : AgentMemory) : res () * AgentMemory :=
  match dget (entry_id e) (_store m) with
  | Some c =>
      match append_version e c with
      | Ok c' => (Ok (), set_store (dset (entry_id e) c' (_store m)) m)
      | Raise x => (Raise x, m)
      end
  | None =>
      if decide (version e = 1) then (Ok (), set_store (dset (entry_id e) (chain_new e) (_store m)) m)
      else (Raise (Exn ValueError ("新条目版本号必须为 1，实际为 " +:+ pretty (version e))), m)
  end.

(** [effect.invert_data[k] = v] on an effect that is in the buffer. *)
Definition with_invert (k : string) (v : value) (e : StagedEffect) : StagedEffect :=
  mkEffect (effect_id e) (effect_type e) (agent_id e) (resource e) (data e) (expected_version e)
    (lock_token e) (status e) (error e) (side_effect e) (group_id e) (atomicity e)
    (dset k v (invert_data e)).
(** [buffer.stage(...)] without the optional arguments, and an entry of [invert_data]. *)
Definition stage_undo (ty : EffectType) (agent res : string) (payload : dict value) (k : string)
    (v : value) (b : TransactionBuffer) : StagedEffect * TransactionBuffer :=
  let '(e, b) := stage ty agent res payload None None "" "per_effect" b in
  let e := with_invert k v e in
  (e, mkBuffer (dset (effect_id e) e (_effects b)) (_counter b) (_committed b)
        (_conflict_resolutions b) (_outbox b)).

(** A list of strings in an effect. *)
Definition strs (l : list string) : value := VList (map VStr l).
Definition unstrs (v : value) : list string := match v with VList l => omap as_str l | _ => [] end.
Lemma unstrs_strs l : unstrs (strs l) = l.
Proof. unfold unstrs, strs. induction l as [|x l IH]; [done|]. simpl. by f_equal. Qed.

Section Store.
Variable dump : MemoryEntry → value.
Variable validate : value → option MemoryEntry.

(** The identifier and the chain before the write. *)
Definition memory_before (id : string) (c : option VersionChain) : value :=
  VList [VStr id; match c with Some c => VList (map dump (history c)) | None => VNone end].
Definition memory_resource (id : string) (m : AgentMemory) : string :=
  "memory:" +:+ m_agent m +:+ ":" +:+ id.
Definition stage_memory (ty : EffectType) (id : string) (payload : dict value) (m : AgentMemory) :
    TransactionBuffer → StagedEffect * TransactionBuffer :=
  stage_undo ty (m_agent m) (memory_resource id m) payload "memory_before"
    (memory_before id (dget id (_store m))).

Abbreviation state := (AgentMemory * TransactionBuffer)%type.

Definition put (e : MemoryEntry) : M state StagedEffect := λ '(m, b),
  if decide (origin (provenance e) = INJECTED)
  then (Raise (Exn ValueError ("外加载条目（injected）不得写入 AgentMemory store：entry_id=" +:+ entry_id e +:+
                                "，来源段不可改写是结构性保证（store 中不存在 = 不可写）")), (m, b))
  else
    let id := entry_id e in
    let '(eff, b) := stage_memory MEMORY_ENTRY_WRITE id [("entry_id", VStr id); ("version", VInt (version e))] m b in
    match _apply_write e m with
    | (Ok _, m) => (Ok eff, (m, b))
    | (Raise x, m) => (Raise x, (m, b))
    end.

Definition evict (id : string) : M state (option StagedEffect) := λ '(m, b),
  match dget id (_store m) with
  | None => (Ok None, (m, b))
  | Some _ =>
      let '(eff, b) := stage_memory MEMORY_ENTRY_EVICT id [("entry_id", VStr id)] m b in
      (Ok (Some eff), (set_store (dpop id (_store m)) m, b))
  end.

Definition fold (id : string) (folded : MemoryEntry) : M state StagedEffect := λ '(m, b),
  if decide (entry_id folded = id) then
    match dget id (_store m) with
    | None => (Raise (Exn KeyError ("entry_id " +:+ id +:+ " 不在 store 中，无法折叠")), (m, b))
    | Some _ =>
        let '(eff, b) := stage_memory MEMORY_ENTRY_FOLD id
                           [("entry_id", VStr id); ("fold_to_version", VInt (version folded))] m b in
        (Ok eff, (set_store (dset id (chain_new folded) (_store m)) m, b))
    end
  else (Raise (Exn ValueError ("fold 目标 entry_id 不匹配：store=" +:+ id +:+ "，folded_entry=" +:+ entry_id folded)), (m, b)).

Definition _snapshot_store (m : AgentMemory) : dict (list value) :=
  map (λ kv, (kv.1, map dump (history kv.2))) (_store m).

(** ** Undo *)

Definition MEMORY_TYPES : list EffectType := [MEMORY_ENTRY_WRITE; MEMORY_ENTRY_EVICT; MEMORY_ENTRY_FOLD].

Definition read_entry (v : value) : res MemoryEntry :=
  match validate v with Some e => Ok e | None => Raise (Exn ValidationError "not a memory entry") end.
Fixpoint append_all (l : list MemoryEntry) (c : VersionChain) : res VersionChain :=
  match l with
  | [] => Ok c
  | e :: l' => c' ← append_version e c; append_all l' c'
  end.
Definition restore_chain (l : list MemoryEntry) : res VersionChain :=
  match l with
  | [] => Raise (Exn IndexError "list index out of range")
  | e :: l' => append_all l' (chain_new e)
  end.

Definition rollback_effect (eff : StagedEffect) : M AgentMemory () := λ m,
  if decide (effect_type eff ∈ MEMORY_TYPES) then
    match dget "memory_before" (invert_data eff) with
    | None | Some VNone => (Ok (), m)
    | Some (VList [VStr id; VNone]) => (Ok (), set_store (dpop id (_store m)) m)
    | Some (VList [VStr id; VList l]) =>
        match entries ← res_mapM read_entry l; restore_chain entries with
        | Ok c => (Ok (), set_store (dset id c (_store m)) m)
        | Raise x => (Raise x, m)
        end
    | Some _ => (Raise (Exn ValueError "memory_before is a pair"), m)
    end
  else (Ok (), m).
End Store.

Definition project_injected (e : MemoryEntry) : res MemoryEntry :=
  if decide (origin (provenance e) = INJECTED) then Ok e
  else Raise (Exn ValueError "project_injected 仅用于 origin=injected 的外加载条目").

(** ** What the store keeps *)

(** Entries of one identifier, with consecutive versions. *)
Definition chain_ok (k : string) (c : VersionChain) : Prop :=
  ∀ i e, history c !! i = Some e → entry_id e = k ∧ version e = version (oldest c) + Z.of_nat i.
Definition memory_ok (m : AgentMemory) : Prop := ∀ k c, dget k (_store m) = Some c → chain_ok k c.
(** Memories that hold the same chains, in whatever order. *)
Definition same_memory (m m' : AgentMemory) : Prop :=
  m_agent m = m_agent m' ∧ ∀ k, dget k (_store m) = dget k (_store m').
#[global] Instance same_memory_equivalence : Equivalence same_memory.
Proof.
  split; [done| |].
  - intros m m' [? H]. split; [done|]. intros k. by rewrite H.
  - intros m1 m2 m3 [? H] [? H']. split; [congruence|]. intros k. by rewrite H, H'.
Qed.

Lemma history_length c : length (history c) = S (length (newer c)).
Proof. done. Qed.
Lemma last_default {A} (l : list A) e x y : List.last (e :: l) x = List.last (e :: l) y.
Proof. revert e. induction l as [|a l IH]; intros e; [done|]. apply (IH a). Qed.
Lemma history_current c : history c !! length (newer c) = Some (current c).
Proof.
  destruct c as [o l]. unfold history, current. simpl. revert o.
  induction l as [|e l IH]; intros o; [done|]. simpl. rewrite IH.
  destruct l as [|a l]; [done|]. f_equal. apply last_default.
Qed.
Lemma current_ok k c : chain_ok k c →
  entry_id (current c) = k ∧ version (current c) = version (oldest c) + Z.of_nat (length (newer c)).
Proof. intros H. apply (H _ _ (history_current c)). Qed.
Lemma chain_id_ok k c : chain_ok k c → chain_id c = k.
Proof. intros H. by destruct (H O (oldest c) eq_refl). Qed.
Lemma chain_new_ok e : chain_ok (entry_id e) (chain_new e).
Proof. intros [|i] x H; [simplify_eq/=; split; [done|lia]|]. by destruct i. Qed.

Lemma append_ok k e c c' : chain_ok k c → append_version e c = Ok c' →
  c' = mkChain (oldest c) (newer c ++ [e]) ∧ entry_id e = k ∧ version e = version (current c) + 1 ∧ chain_ok k c'.
Proof.
  intros H. unfold append_version. rewrite (chain_id_ok k c H).
  destruct (decide _) as [He|]; [|done]. destruct (decide _) as [Hv|]; [|done]. intros [= <-].
  do 3 (split; [done|]).
  intros i x Hx. unfold history in Hx. simpl in Hx.
  change (oldest c :: newer c ++ [e]) with (history c ++ [e]) in Hx.
  apply lookup_app_Some in Hx as [Hx|[Hl Hx]].
  - by destruct (H _ _ Hx).
  - assert (i = length (history c)) as ->.
    { apply lookup_lt_Some in Hx. simpl in *. lia. }
    rewrite Nat.sub_diag in Hx. simplify_eq/=. split; [done|]. rewrite Hv.
    destruct (current_ok _ c H) as [_ ->]. lia.
Qed.

(** A chain is restored from its history. *)
Lemma append_all_ok k l c : chain_ok k (mkChain (oldest c) (newer c ++ l)) →
  append_all l c = Ok (mkChain (oldest c) (newer c ++ l)).
Proof.
  revert c. induction l as [|e l IH]; intros c H; simpl.
  { rewrite app_nil_r. by destruct c. }
  assert (Hc : chain_ok k c).
  { intros i x Hx. apply (H i x). unfold history in *. simpl.
    change (oldest c :: newer c ++ e :: l) with ((oldest c :: newer c) ++ e :: l).
    by apply lookup_app_l_Some. }
  assert (He : entry_id e = k ∧ version e = version (current c) + 1).
  { destruct (H (length (history c)) e) as [Hi Hv].
    { unfold history. simpl. by rewrite list_lookup_middle. }
    split; [done|]. rewrite Hv. destruct (current_ok _ c Hc) as [_ ->]. simpl. lia. }
  unfold append_version. rewrite (chain_id_ok k c Hc). rewrite !decide_True by apply He. simpl.
  rewrite IH; simpl; rewrite <-app_assoc; simpl; [by destruct c|done].
Qed.
Lemma restore_history k c : chain_ok k c → restore_chain (history c) = Ok c.
Proof. intros H. simpl. rewrite (append_all_ok k); by destruct c. Qed.

Lemma memory_ok_set k c m : memory_ok m → chain_ok k c → memory_ok (set_store (dset k c (_store m)) m).
Proof.
  intros Hm Hc j c' Hj. cbn [_store set_store] in Hj. rewrite dget_dset in Hj. case_decide; simplify_eq; auto.
Qed.
Lemma memory_ok_pop k m : memory_ok m → memory_ok (set_store (dpop k (_store m)) m).
Proof.
  intros Hm j c' Hj. cbn [_store set_store] in Hj. rewrite dget_dpop in Hj. case_decide; simplify_eq; auto.
Qed.

(** *** The buffer *)

Definition fresh_buffer (b : TransactionBuffer) : Prop :=
  ∀ k, k ∈ dkeys (_effects b) → ∃ n, k = eff_id n ∧ (n ≤ _counter b)%N.
Lemma dset_dset {V} k (v w : V) d : dset k v (dset k w d) = dset k v d.
Proof.
  induction d as [|[j u] d IH]; simpl; [by rewrite decide_True|].
  case_decide; simpl; [by rewrite decide_True|]. rewrite decide_False by done. by rewrite IH.
Qed.

Lemma stage_undo_spec ty a r p k v b : fresh_buffer b →
  let '(e, b') := stage_undo ty a r p k v b in
  fresh_buffer b' ∧ effects b' = effects b ++ [e] ∧ effect_type e = ty ∧ agent_id e = a ∧
  resource e = r ∧ data e = p ∧ invert_data e = [(k, v)] ∧ status e = STAGED.
Proof.
  intros Hb. unfold stage_undo, stage. cbn [effect_id with_invert _effects]. rewrite dset_dset.
  set (e := with_invert _ _ _).
  assert (Hn : eff_id (N.succ (_counter b)) ∉ dkeys (_effects b)).
  { intros (n & He%eff_id_inj & Hle)%Hb. lia. }
  split; [|split; [|done]].
  - intros j Hj. cbn [_effects _counter] in *. rewrite (dset_new _ _ _ Hn) in Hj. unfold dkeys in Hj.
    rewrite map_app in Hj. apply elem_of_app in Hj as [(n & ? & ?)%Hb|Hj].
    + exists n. split; [done|lia].
    + apply list_elem_of_singleton in Hj. simpl in Hj. subst. eexists. split; [done|]. lia.
  - unfold effects, dvalues. cbn [_effects]. rewrite (dset_new _ _ _ Hn). by rewrite map_app.
Qed.

(** ** Histories of writes *)

Inductive mem_op := MPut (e : MemoryEntry) | MEvict (id : string) | MFold (id : string) (e : MemoryEntry).

Section Run.
Variable dump : MemoryEntry → value.

(** The caller catches what a write raises. *)
Definition mem_step (o : mem_op) (s : AgentMemory * TransactionBuffer) : AgentMemory * TransactionBuffer :=
  match o with
  | MPut e => (put dump e s).2
  | MEvict id => (evict dump id s).2
  | MFold id e => (fold dump id e s).2
  end.
Definition mem_run (ops : list mem_op) (s : AgentMemory * TransactionBuffer) : AgentMemory * TransactionBuffer :=
  foldl (λ s o, mem_step o s) s ops.

(** What one write does: nothing, or one staged effect and at most one chain. *)
Definition undoes (eff : StagedEffect) (k : string) (m : AgentMemory) : Prop :=
  effect_type eff ∈ MEMORY_TYPES ∧
  dget "memory_before" (invert_data eff) = Some (memory_before dump k (dget k (_store m))).
Inductive mem_change (m : AgentMemory) (b : TransactionBuffer) : AgentMemory → TransactionBuffer → Prop :=
| ch_none : mem_change m b m b
| ch_one k eff m' b' :
    effects b' = effects b ++ [eff] → fresh_buffer b' → undoes eff k m → m_agent m' = m_agent m →
    (∀ j, j ≠ k → dget j (_store m') = dget j (_store m)) → memory_ok m' →
    mem_change m b m' b'.

Lemma stage_memory_undoes ty k p m b : ty ∈ MEMORY_TYPES → fresh_buffer b →
  let '(e, b') := stage_memory dump ty k p m b in
  fresh_buffer b' ∧ effects b' = effects b ++ [e] ∧ undoes e k m.
Proof.
  intros Ht Hb. unfold stage_memory.
  pose proof (stage_undo_spec ty (m_agent m) (memory_resource k m) p "memory_before"
                (memory_before dump k (dget k (_store m))) b Hb) as H.
  destruct (stage_undo _ _ _ _ _ _ _) as [e b'].
  destruct H as (? & ? & Hty & _ & _ & _ & Hi & _). unfold undoes. split; [done|]. split; [done|].
  by rewrite Hty, Hi.
Qed.

Lemma apply_write_ok e m m' : memory_ok m → _apply_write e m = (Ok (), m') →
  memory_ok m' ∧ m_agent m' = m_agent m ∧
  (∀ j, j ≠ entry_id e → dget j (_store m') = dget j (_store m)) ∧
  get_chain (entry_id e) m' = get_chain (entry_id e) m ++ [e].
Proof.
  intros Hm. unfold _apply_write, get_chain. destruct (dget (entry_id e) (_store m)) as [c|] eqn:E.
  - destruct (append_version e c) as [c'|] eqn:Ea; [|done]. intros [= <-].
    destruct (append_ok _ _ _ _ (Hm _ _ E) Ea) as (-> & _ & _ & Hc).
    cbn [_store set_store m_agent]. rewrite dget_dset_eq. split_and!; [by apply memory_ok_set|done| |done].
    intros j Hj. by rewrite dget_dset_ne.
  - destruct (decide _); [|done]. intros [= <-]. cbn [_store set_store m_agent]. rewrite dget_dset_eq.
    split_and!; [apply memory_ok_set; [done|apply chain_new_ok]|done| |done].
    intros j Hj. by rewrite dget_dset_ne.
Qed.
Lemma apply_write_raise e m x m' : _apply_write e m = (Raise x, m') → m' = m.
Proof.
  unfold _apply_write. destruct (dget _ _); [destruct (append_version _ _)|destruct (decide _)]; congruence.
Qed.

Lemma mem_step_change o m b : memory_ok m → fresh_buffer b →
  mem_change m b (mem_step o (m, b)).1 (mem_step o (m, b)).2.
Proof.
  intros Hm Hb. destruct o as [e|id|id e]; cbn [mem_step]; unfold put, evict, fold.
  - destruct (decide _); [apply ch_none|]. cbv zeta.
    pose proof (stage_memory_undoes MEMORY_ENTRY_WRITE (entry_id e)
      [("entry_id", VStr (entry_id e)); ("version", VInt (version e))] m b ltac:(unfold MEMORY_TYPES; set_solver) Hb) as H.
    destruct (stage_memory _ _ _ _ _ _) as [eff b']. destruct H as (? & ? & ?).
    destruct (_apply_write e m) as [[[]|x] m'] eqn:E; simpl.
    + destruct (apply_write_ok _ _ _ Hm E) as (? & ? & ? & _). by apply (ch_one m b (entry_id e) eff).
    + apply apply_write_raise in E as ->. by apply (ch_one m b (entry_id e) eff).
  - destruct (dget id (_store m)) as [c|] eqn:E; [|apply ch_none].
    pose proof (stage_memory_undoes MEMORY_ENTRY_EVICT id [("entry_id", VStr id)] m b ltac:(unfold MEMORY_TYPES; set_solver) Hb) as H.
    destruct (stage_memory _ _ _ _ _ _) as [eff b']. destruct H as (? & ? & ?). simpl.
    eapply ch_one; [done|done|done|done| |by apply memory_ok_pop].
    intros j Hj. cbn [_store set_store]. by rewrite dget_dpop_ne.
  - destruct (decide _) as [<-|]; [|apply ch_none].
    destruct (dget (entry_id e) (_store m)) as [c|] eqn:E; [|apply ch_none].
    pose proof (stage_memory_undoes MEMORY_ENTRY_FOLD (entry_id e)
      [("entry_id", VStr (entry_id e)); ("fold_to_version", VInt (version e))] m b ltac:(unfold MEMORY_TYPES; set_solver) Hb) as H.
    destruct (stage_memory _ _ _ _ _ _) as [eff b']. destruct H as (? & ? & ?). simpl.
    eapply ch_one; [done|done|done|done| |apply memory_ok_set; [done|apply chain_new_ok]].
    intros j Hj. cbn [_store set_store]. by rewrite dget_dset_ne.
Qed.
End Run.

(** ** Undo of a history *)

Section Rollback.
Variable dump : MemoryEntry → value.
Variable validate : value → option MemoryEntry.
Hypothesis reads : ∀ e, validate (dump e) = Some e.

Lemma read_dump e : read_entry validate (dump e) = Ok e.
Proof using reads. unfold read_entry. by rewrite reads. Qed.
Lemma read_dumped l : res_mapM (read_entry validate) (map dump l) = Ok l.
Proof using reads. induction l as [|e l IH]; [done|]. simpl. rewrite read_dump. simpl. by rewrite IH. Qed.

(** The undo of one write puts back the chain the write met. *)
Lemma undo_one eff k m m1 : memory_ok m → undoes dump eff k m →
  ∃ m2, rollback_effect validate eff m1 = (Ok (), m2) ∧ m_agent m2 = m_agent m1 ∧
    ∀ j, dget j (_store m2) = if decide (j = k) then dget k (_store m) else dget j (_store m1).
Proof using reads.
  intros Hm [Ht Hb]. unfold rollback_effect. rewrite decide_True, Hb by done. unfold memory_before.
  destruct (dget k (_store m)) as [c|] eqn:E.
  - pose proof (read_dumped (history c)) as Hr. pose proof (restore_history k c (Hm _ _ E)) as Hc.
    revert Hr Hc. generalize (map dump (history c)) (history c). intros l h Hr Hc. cbn.
    rewrite Hr. cbn. rewrite Hc.
    eexists. split; [done|]. split; [done|]. intros j. cbn [_store set_store]. by rewrite dget_dset.
  - eexists. split; [done|]. split; [done|]. intros j. cbn [_store set_store]. by rewrite dget_dpop.
Qed.

(** The effects of a history, the latest first. *)
Definition undo_all (l : list StagedEffect) : M AgentMemory () := mfor (rev l) (rollback_effect validate).

Lemma mfor_app {S A} (l l' : list A) (f : A → M S ()) s :
  mfor (l ++ l') f s = match mfor l f s with (Ok _, s') => mfor l' f s' | (Raise e, s') => (Raise e, s') end.
Proof.
  revert s. induction l as [|x l IH]; intros s; [done|]. cbn [mfor app]. rewrite !run_bind.
  destruct (f x s) as [[[]|] s1]; [apply IH|done].
Qed.

Lemma undo_run ops m b : memory_ok m → fresh_buffer b →
  ∃ l, effects (mem_run dump ops (m, b)).2 = effects b ++ l ∧
    ∃ m', undo_all l (mem_run dump ops (m, b)).1 = (Ok (), m') ∧ same_memory m m'.
Proof using reads.
  revert m b. induction ops as [|o ops IH]; intros m b Hm Hb.
  { exists []. rewrite app_nil_r. split; [done|]. by exists m. }
  unfold mem_run. cbn [foldl]. pose proof (mem_step_change dump o m b Hm Hb) as Hc.
  destruct (mem_step dump o (m, b)) as [m1 b1]. cbn [fst snd] in Hc.
  destruct Hc as [|k eff m1 b1 He Hf Hu Ha Hj Hm1]; [by apply IH|].
  destruct (IH m1 b1 Hm1 Hf) as (l & Hl & m2 & Hr & Hs1 & Hs2).
  exists (eff :: l). split; [unfold mem_run in Hl; rewrite Hl, He; by rewrite <-app_assoc|].
  unfold undo_all in *. cbn [rev]. rewrite mfor_app. unfold mem_run in Hr. rewrite Hr.
  destruct (undo_one eff k m m2 Hm Hu) as (m3 & H3 & Ha3 & Hj3).
  exists m3. split; [cbn [mfor]; by rewrite run_bind, H3|].
  split; [congruence|]. intros j. rewrite Hj3. case_decide; [by subst|].
  rewrite <-Hs2. by rewrite Hj.
Qed.
End Rollback.

(** Whatever an agent wrote to its memory in a tick, writes that raised included, undoing the
    effects it staged, the latest first, raises nothing and leaves every chain as it was. *)
Theorem memory_rolled_back (dump : MemoryEntry → value) (validate : value → option MemoryEntry)
    (reads : ∀ e, validate (dump e) = Some e) ops m b :
  memory_ok m → fresh_buffer b →
  ∃ l, effects (mem_run dump ops (m, b)).2 = effects b ++ l ∧
    ∃ m', undo_all validate l (mem_run dump ops (m, b)).1 = (Ok (), m') ∧ same_memory m m'.
Proof. by apply undo_run. Qed.

(** The histories keep chains with consecutive versions. *)
Lemma memory_run_ok dump ops m b : memory_ok m → fresh_buffer b →
  memory_ok (mem_run dump ops (m, b)).1 ∧ fresh_buffer (mem_run dump ops (m, b)).2 ∧
  m_agent (mem_run dump ops (m, b)).1 = m_agent m.
Proof.
  revert m b. induction ops as [|o ops IH]; intros m b Hm Hb; [done|].
  unfold mem_run. cbn [foldl]. pose proof (mem_step_change dump o m b Hm Hb) as Hc.
  destruct (mem_step dump o (m, b)) as [m1 b1]. cbn [fst snd] in Hc.
  destruct Hc as [|k eff m1 b1 He Hf Hu Ha Hj Hm1]; [by apply IH|].
  destruct (IH m1 b1 Hm1 Hf) as (? & ? & ?). unfold mem_run in *. split_and!; [done|done|congruence].
Qed.

(** The version a write must carry. *)
Definition next_version (id : string) (m : AgentMemory) : Z :=
  match get id m with Some c => version c + 1 | None => 1 end.
Lemma apply_write_accepts e m : memory_ok m →
  (∃ m', _apply_write e m = (Ok (), m')) ↔ version e = next_version (entry_id e) m.
Proof.
  intros Hm. unfold _apply_write, next_version, get.
  destruct (dget (entry_id e) (_store m)) as [c|] eqn:E; cbn [fmap option_fmap option_map].
  - unfold append_version. rewrite (chain_id_ok _ _ (Hm _ _ E)), decide_True by done.
    case_decide; naive_solver.
  - case_decide; naive_solver.
Qed.

(** A write of an entry of the agent's own is accepted exactly when its version follows the
    latest one, and then it extends the chain of its identifier and no other; any other write
    raises and leaves the memory as it was. *)
Theorem put_outcome dump e m b : memory_ok m →
  let '(r, (m', _)) := put dump e (m, b) in
  if decide (origin (provenance e) = OWN ∧ version e = next_version (entry_id e) m)
  then (∃ eff, r = Ok eff) ∧ get_chain (entry_id e) m' = get_chain (entry_id e) m ++ [e] ∧
       (∀ j, j ≠ entry_id e → get_chain j m' = get_chain j m) ∧ memory_ok m'
  else (∃ x, r = Raise (Exn ValueError x)) ∧ m' = m.
Proof.
  intros Hm. pose proof (apply_write_accepts e m Hm) as Ha. unfold put. destruct (decide (origin _ = INJECTED)) as [Ho|Ho].
  { rewrite decide_False by (intros [? _]; congruence). split; [by eexists|done]. }
  cbv zeta. destruct (stage_memory _ _ _ _ _ _) as [eff b']. destruct (_apply_write e m) as [[[]|x] m'] eqn:E.
  - rewrite decide_True.
    2:{ split; [by destruct (origin (provenance e))|]. apply Ha. by exists m'. }
    destruct (apply_write_ok _ _ _ Hm E) as (? & _ & Hj & Hc). split; [by eexists|]. split; [done|].
    split; [|done]. intros j Hne. unfold get_chain. by rewrite Hj.
  - rewrite decide_False by (intros [_ [? ?]%Ha]; congruence).
    split; [|by eapply apply_write_raise].
    unfold _apply_write, append_version in E. destruct (dget _ _); repeat case_decide; simplify_eq; by eexists.
Qed.

(** An entry that was read back from a chain is written again under the next version only. *)
Lemma get_some id m e : memory_ok m → get id m = Some e → entry_id e = id.
Proof.
  unfold get. intros Hm H. destruct (dget id (_store m)) as [c|] eqn:E; [|done]. simplify_eq/=.
  by destruct (current_ok _ _ (Hm _ _ E)).
Qed.

(** *** Sample data *)

Definition no_word (c : string) : bool := false.
Definition sample_id : string := "3f2b8c1e-0a4d-4e6f-9b1c-7d5a2e8f0c34".
Definition note (v : Z) (text : string) : MemoryEntry :=
  mkEntry sample_id M_TASK "refund" (TaskContent text "" "") ["refund"] [] v EntryProvenance_default.
(** A library that knows two entries, in place of one that knows all. *)
Definition injected_note : MemoryEntry :=
  mkEntry sample_id M_TASK "rule" (TaskContent "" "" "") [] [] 1
    (mkProvenance INJECTED (Some (mkInjection None None None None)) [] "").

(** An effect is staged before the write is refused. *)
Example refused_write_stages :
  let r := put (λ _, VNone) (note 7 "") (AgentMemory_init "ann", TransactionBuffer_init) in
  (∃ x, r.1 = Raise x) ∧ length (effects r.2.2) = 1%nat ∧ memory_len r.2.1 = 0%nat.
Proof. split; [by eexists|done]. Qed.

(** A fold stores an entry whose origin a write refuses. *)
Example fold_stores_injected :
  let s := mem_run (λ _, VNone) [MPut (note 1 ""); MFold sample_id injected_note]
             (AgentMemory_init "ann", TransactionBuffer_init) in
  get sample_id s.1 = Some injected_note.
Proof. done. Qed.

(** A library that reads back what it wrote. *)
Definition ostr (o : option string) : value := match o with Some s => VStr s | None => VNone end.
Lemma unostr o : as_str (ostr o) = o.
Proof. by destruct o. Qed.
Definition type_number (t : MemoryEntryType) : Z :=
  match t with M_TASK => 0 | M_SKILL => 1 | M_TOOL => 2 | M_PERSON => 3 end.
Definition number_type (z : Z) : MemoryEntryType :=
  match z with 0 => M_TASK | 1 => M_SKILL | 2 => M_TOOL | _ => M_PERSON end.
Definition write_content (c : Content) : value := VList [VInt (type_number (type_of c)); strs (texts c)].
Definition read_content (v : value) : option Content :=
  match v with
  | VList [VInt t; l] =>
      match number_type t, unstrs l with
      | M_TASK, [a; b; c] => Some (TaskContent a b c)
      | M_TOOL, [a; b; c] => Some (ToolContent a b c)
      | M_PERSON, [a; b; c] => Some (PersonContent a b c)
      | M_SKILL, a :: l => Some (SkillContent a l)
      | _, _ => None
      end
  | _ => None
  end.
Definition write_ref (r : InjectionRef) : value :=
  VList [ostr (position_id r); ostr (entity_id r);
         match snapshot_version r with Some z => VInt z | None => VNone end; ostr (snapshot_hash r)].
Definition read_ref (v : value) : option InjectionRef :=
  match v with
  | VList [p; e; z; h] =>
      Some (mkInjection (as_str p) (as_str e) (match z with VInt z => Some z | _ => None end) (as_str h))
  | _ => None
  end.
Definition write_result (r : TaskResultRef) : value := strs [tres_task r; tres_outcome r; tres_note r].
Definition read_result (v : value) : option TaskResultRef :=
  match v with VList [VStr a; VStr b; VStr c] => Some (mkTaskResult a b c) | _ => None end.
Definition write_provenance (p : EntryProvenance) : value :=
  VList [VBool (bool_decide (origin p = OWN)); match injection_ref p with Some r => write_ref r | None => VNone end;
         VList (map write_result (task_results p)); VStr (consolidation_origin p)].
Definition read_provenance (v : value) : option EntryProvenance :=
  match v with
  | VList [VBool o; r; VList l; VStr c] =>
      Some (mkProvenance (if o then OWN else INJECTED) (read_ref r) (omap read_result l) c)
  | _ => None
  end.
Definition write_entry (e : MemoryEntry) : value :=
  VList [VStr (entry_id e); VInt (type_number (e_type e)); VStr (title e); write_content (e_content e);
         strs (memory_points e); strs (associated e); VInt (version e); write_provenance (provenance e)].
Definition load_entry (v : value) : option MemoryEntry :=
  match v with
  | VList [VStr i; VInt t; VStr ttl; c; p; a; VInt n; pr] =>
      c ← read_content c; pr ← read_provenance pr;
      Some (mkEntry i (number_type t) ttl c (unstrs p) (unstrs a) n pr)
  | _ => None
  end.

Lemma content_read c : read_content (write_content c) = Some c.
Proof. unfold read_content, write_content. rewrite unstrs_strs. by destruct c. Qed.
Lemma provenance_read p : read_provenance (write_provenance p) = Some p.
Proof.
  destruct p as [o r l c]. unfold read_provenance, write_provenance. simpl. f_equal. f_equal.
  - by destruct o.
  - destruct r as [[p e z h]|]; [|done]. simpl. rewrite !unostr. by destruct z.
  - induction l as [|[a b d] l IH]; [done|]. simpl. by f_equal.
Qed.
Lemma entry_read e : load_entry (write_entry e) = Some e.
Proof.
  destruct e as [i t ttl c p a n pr]. unfold load_entry, write_entry. cbn [entry_id e_type title e_content
    memory_points associated version provenance]. rewrite content_read. cbn [mbind option_bind].
  rewrite provenance_read. cbn [mbind option_bind]. rewrite !unstrs_strs. by destruct t.
Qed.

(** The empty memory and the empty buffer. *)
Lemma memory_init_ok agent : memory_ok (AgentMemory_init agent).
Proof. by intros k c. Qed.
Lemma buffer_init_fresh : fresh_buffer TransactionBuffer_init.
Proof. by intros k ?%elem_of_nil. Qed.

Definition sample_ops : list mem_op :=
  [MPut (note 1 "first"); MPut (note 2 "second"); MPut (note 5 "skipped"); MFold sample_id (note 3 "both");
   MEvict sample_id; MPut (note 1 "again")].
Lemma memory_rolled_back_witness :
  length (effects (mem_run write_entry sample_ops (AgentMemory_init "ann", TransactionBuffer_init)).2) = 6%nat ∧
  ∃ l, effects (mem_run write_entry sample_ops (AgentMemory_init "ann", TransactionBuffer_init)).2 =
         effects TransactionBuffer_init ++ l ∧
    ∃ m', undo_all load_entry l (mem_run write_entry sample_ops
             (AgentMemory_init "ann", TransactionBuffer_init)).1 = (Ok (), m') ∧
      same_memory (AgentMemory_init "ann") m'.
Proof.
  split; [by vm_compute|].
  apply (memory_rolled_back write_entry load_entry entry_read); [apply memory_init_ok|apply buffer_init_fresh].
Defined.

(** *** UUIDs in a text *)

Lemma skip_app p n l r l' : skip p n l = Some r → skip p n (l ++ l') = Some (r ++ l').
Proof.
  revert l. induction n as [|n IH]; intros l; [intros [= <-]; by destruct l|].
  destruct l as [|c l]; [done|]. simpl. destruct (p c); [apply IH|done].
Qed.
Lemma uuid_at_app l r l' : uuid_at l = Some r → uuid_at (l ++ l') = Some (r ++ l').
Proof.
  unfold uuid_at. intros H.
  repeat (apply bind_Some in H as (? & H1 & H); rewrite (skip_app _ _ _ _ l' H1); clear H1;
          cbn [mbind option_bind]).
  by apply skip_app.
Qed.

(** A UUID is found wherever no letter touches it. *)
Lemma uuid_found word before pre u post :
  uuid_at u = Some [] → u ≠ [] →
  match List.last (map (word_char word) pre) before with true => False | false => True end →
  match post with c :: _ => word_char word c = false | [] => True end →
  uuid_search word before (pre ++ u ++ post) = true.
Proof.
  intros Hu Hne Hpre Hpost. revert before Hpre. induction pre as [|c pre IH]; intros before Hpre.
  - simpl in Hpre. destruct before; [done|]. cbn [app].
    destruct u as [|a u]; [done|]. pose proof (uuid_at_app _ _ post Hu) as Ha. cbn [app] in *.
    cbn [uuid_search]. rewrite Ha. destruct post as [|d post]; [done|]. simpl. by rewrite Hpost.
  - cbn [app uuid_search]. apply orb_true_iff. right. apply IH.
    simpl in Hpre. destruct (map (word_char word) pre) as [|x l] eqn:E; [done|].
    by rewrite (last_default l x (word_char word c) before).
Qed.

(** No space between Chinese text and a UUID: the boundary the pattern asks for is missing. *)
Example uuid_in_chinese_text :
  _contains_uuid (λ _, true) ("see " +:+ sample_id) = true ∧
  _contains_uuid (λ _, true) ("参见" +:+ sample_id) = false.
Proof. by vm_compute. Qed.
