(* ===== verification/LegacyRecall.v ===== *)
(** * Recall of memories in the previous architecture (legacy/memory_recall.py)

    An inverted index from triggers, the titles and memory points of entries, to the entries; a
    backend that answers queries with it; and the engine that merges the terms of a query, keeps
    the best candidates, and changes the recall state of an agent by effects.

    Letters are lowered in ASCII.  A set is iterated in the order of [iter]. *)

From stdpp Require Import base gmap strings list pretty sorting.
From Stdlib Require Import ZArith Ascii Sorted Lia.
From S2P Require Import Prelude PyValue LegacyTransaction.
From S2P Require Import LlmRuntime LegacyMemory.

Open Scope string_scope.
Open Scope list_scope.
Open Scope nat_scope.

Record RecallConfig := mkConfig { persistent_query_terms : list string; temp_overrides : list string }.
Definition RecallConfig_init : RecallConfig := mkConfig [] [].
Definition set_persistent (l : list string) (c : RecallConfig) : RecallConfig := mkConfig l (temp_overrides c).
Definition set_temp (l : list string) (c : RecallConfig) : RecallConfig := mkConfig (persistent_query_terms c) l.

Record RecallCandidate := mkCandidate {
  c_entry : MemoryEntry; matched_terms : gset string; trigger_score : nat; source_tag : string }.
Definition c_id (c : RecallCandidate) : string := entry_id (c_entry c).
Definition _source_tag_for (e : MemoryEntry) : string :=
  match e_type e with
  | M_SKILL => "[SKILL_INSTRUCTION]" | M_TOOL => "[TOOL_DEFINITION]"
  | M_TASK => "[TASK_CONTEXT]" | M_PERSON => "[PERSON_PROFILE]"
  end.

(** ** The index *)

Record RecallIndex := mkIndex {
  _index : gmap string (gset string); _entry_triggers : gmap string (gset string) }.
Definition RecallIndex_init : RecallIndex := mkIndex ∅ ∅.

Definition _extract_triggers (e : MemoryEntry) : gset string :=
  (if nonempty (title e) then {[lower (title e)]} else ∅)
  ∪ list_to_set (map lower (List.filter nonempty (memory_points e))).

Definition at_token (t : string) (ix : gmap string (gset string)) : gset string := default ∅ (ix !! t).
(** [discard], and the token goes with its last entry. *)
Definition discard (k t : string) (ix : gmap string (gset string)) : gmap string (gset string) :=
  let s := at_token t ix ∖ {[k]} in
  if decide (s = ∅) then delete t ix else <[t := s]> ix.
Definition add_token (k t : string) (ix : gmap string (gset string)) : gmap string (gset string) :=
  <[t := at_token t ix ∪ {[k]}]> ix.
Definition triggers_of (k : string) (i : RecallIndex) : gset string := default ∅ (_entry_triggers i !! k).

Definition on_put (e : MemoryEntry) (i : RecallIndex) : RecallIndex :=
  let k := entry_id e in
  let new := _extract_triggers e in
  let old := triggers_of k i in
  let ix := foldl (λ ix t, discard k t ix) (_index i) (elements (old ∖ new)) in
  let ix := foldl (λ ix t, add_token k t ix) ix (elements (new ∖ old)) in
  mkIndex ix (<[k := new]> (_entry_triggers i)).
Definition on_evict (k : string) (i : RecallIndex) : RecallIndex :=
  mkIndex (foldl (λ ix t, discard k t ix) (_index i) (elements (triggers_of k i)))
    (delete k (_entry_triggers i)).
Definition on_fold (e : MemoryEntry) (i : RecallIndex) : RecallIndex := on_put e i.

Definition lookup_token (t : string) (i : RecallIndex) : gset string := at_token (lower t) (_index i).
Definition substring_search (q : string) (i : RecallIndex) : gset string :=
  map_fold (λ t ks acc, if str_contains (lower q) t then acc ∪ ks else acc) ∅ (_index i).
Definition audit_triggers (i : RecallIndex) : gmap string (list string) :=
  (λ ks : gset string, py_sorted String.leb (elements ks)) <$> _index i.
Definition index_len (i : RecallIndex) : nat := size (_index i).

(** ** Backends *)

(** What a backend promises the engine: candidates for terms, in whatever order. *)
Class RecallBackend := query : list string → AgentMemory → RecallIndex → option (list MemoryEntryType) →
  list RecallCandidate.

Section Keyword.
Variable iter : gset string → list string.

Definition hit (t : string) (d : dict (gset string)) (k : string) : dict (gset string) :=
  dset k (default ∅ (dget k d) ∪ {[t]}) d.
Definition hits_of (i : RecallIndex) (d : dict (gset string)) (t : string) : dict (gset string) :=
  if nonempty t
  then foldl (hit t) (foldl (hit t) d (iter (lookup_token (lower t) i))) (iter (substring_search (lower t) i))
  else d.
Definition wanted (types : option (list MemoryEntryType)) (e : MemoryEntry) : bool :=
  match types with Some (t :: l) => bool_decide (e_type e ∈ t :: l) | _ => true end.
Definition candidate (types : option (list MemoryEntryType)) (m : AgentMemory) (kv : string * gset string) :
    option RecallCandidate :=
  match get kv.1 m with
  | Some e => if wanted types e then Some (mkCandidate e kv.2 (size kv.2) (_source_tag_for e)) else None
  | None => None
  end.
Definition keyword_query (terms : list string) (m : AgentMemory) (i : RecallIndex)
    (types : option (list MemoryEntryType)) : list RecallCandidate :=
  omap (candidate types m) (foldl (hits_of i) [] terms).
End Keyword.
#[local] Instance KeywordRecallBackend (iter : gset string → list string) : RecallBackend := keyword_query iter.

(** ** The engine *)

(** [_add_terms] *)
Definition add_term (st : list string * gset string) (t : string) : list string * gset string :=
  if decide (lower t ∈ st.2) then st else (st.1 ++ [t], {[lower t]} ∪ st.2).
Definition merge_terms (terms : list string) : list string := (foldl add_term ([], ∅) terms).1.

(** [l[:k]] *)
Definition slice_to {A} (k : Z) (l : list A) : list A :=
  if (k <? 0)%Z then take (length l - Z.to_nat (- k)) l else take (Z.to_nat k) l.
Definition by_score (c d : RecallCandidate) : bool := trigger_score d <=? trigger_score c.

Definition recall `{RecallBackend} (m : AgentMemory) (i : RecallIndex) (contextual : list string) (top_k : Z)
    (types : option (list MemoryEntryType)) (consume : bool) (c : RecallConfig) :
    list RecallCandidate * RecallConfig :=
  let merged := merge_terms (contextual ++ persistent_query_terms c ++ temp_overrides c) in
  let c := if consume then set_temp [] c else c in
  match merged with
  | [] => ([], c)
  | _ => (slice_to top_k (py_sorted by_score (query merged m i types)), c)
  end.

(** ** Effects on the recall state *)

Definition apply_recall_config_effect (agent : string) (terms : list string) (c : RecallConfig)
    (b : TransactionBuffer) : StagedEffect * RecallConfig * TransactionBuffer :=
  let '(e, b) := stage_undo MEMORY_RECALL_CONFIG agent ("recall_config:" +:+ agent +:+ ":persistent_query_terms")
                   [("new_terms", strs terms)] "recall_config_before" (strs (persistent_query_terms c)) b in
  (e, set_persistent terms c, b).
Definition apply_memory_recall_effect (agent : string) (terms : list string) (c : RecallConfig)
    (b : TransactionBuffer) : StagedEffect * RecallConfig * TransactionBuffer :=
  let '(e, b) := stage_undo MEMORY_RECALL agent ("recall_config:" +:+ agent +:+ ":temp_overrides")
                   [("temp_terms", strs terms)] "temp_overrides_added" (strs terms) b in
  (e, set_temp (temp_overrides c ++ terms) c, b).

Definition pin_terms (e : MemoryEntry) : list string := List.filter nonempty (title e :: memory_points e).
Definition pin_added (e : MemoryEntry) (c : RecallConfig) : list string :=
  List.filter (λ t, bool_decide (t ∉ persistent_query_terms c)) (pin_terms e).
Definition apply_pin_effect (agent : string) (e : MemoryEntry) (c : RecallConfig) (b : TransactionBuffer) :
    StagedEffect * RecallConfig * TransactionBuffer :=
  let added := pin_added e c in
  let '(eff, b) := stage_undo MEMORY_PIN agent ("recall_config:" +:+ agent +:+ ":pin:" +:+ entry_id e)
                     [("entry_id", VStr (entry_id e)); ("added_terms", strs added)]
                     "recall_config_before" (strs (persistent_query_terms c)) b in
  (eff, set_persistent (persistent_query_terms c ++ added) c, b).

Definition restore_persistent (eff : StagedEffect) (c : RecallConfig) : RecallConfig :=
  match dget "recall_config_before" (invert_data eff) with
  | Some VNone | None => c
  | Some v => set_persistent (unstrs v) c
  end.
Definition rollback_recall_config_effect (eff : StagedEffect) (c : RecallConfig) : RecallConfig :=
  if decide (effect_type eff = MEMORY_RECALL_CONFIG) then restore_persistent eff c else c.
Definition rollback_pin_effect (eff : StagedEffect) (c : RecallConfig) : RecallConfig :=
  if decide (effect_type eff = MEMORY_PIN) then restore_persistent eff c else c.
Definition rollback_memory_recall_effect (eff : StagedEffect) (c : RecallConfig) : RecallConfig :=
  if decide (effect_type eff = MEMORY_RECALL) then
    let added := match dget "temp_overrides_added" (invert_data eff) with Some v => unstrs v | None => [] end in
    set_temp (List.filter (λ t, bool_decide (t ∉ added)) (temp_overrides c)) c
  else c.

(** ** The index follows the store *)

Definition index_ok (i : RecallIndex) : Prop :=
  (∀ t k, k ∈ at_token t (_index i) ↔ t ∈ triggers_of k i) ∧
  (∀ t, _index i !! t ≠ Some ∅).
(** The triggers the index knows are those of the latest versions. *)
Definition in_sync (i : RecallIndex) (m : AgentMemory) : Prop :=
  index_ok i ∧ ∀ k, _entry_triggers i !! k = _extract_triggers <$> get k m.

Lemma at_discard k t t' ix :
  at_token t' (discard k t ix) = if decide (t' = t) then at_token t ix ∖ {[k]} else at_token t' ix.
Proof.
  unfold discard. cbv zeta. destruct (decide (t' = t)) as [->|Hne].
  - case_decide as Hs; unfold at_token at 1.
    + rewrite lookup_delete_eq. by rewrite Hs.
    + by rewrite lookup_insert_eq.
  - case_decide; unfold at_token at 1; [rewrite lookup_delete_ne by done|rewrite lookup_insert_ne by done]; done.
Qed.
Lemma at_add k t t' ix :
  at_token t' (add_token k t ix) = if decide (t' = t) then at_token t ix ∪ {[k]} else at_token t' ix.
Proof.
  unfold add_token, at_token. case_decide; subst; [by rewrite lookup_insert_eq|by rewrite lookup_insert_ne].
Qed.
Definition no_empty (ix : gmap string (gset string)) : Prop := ∀ t, ix !! t ≠ Some ∅.
Lemma discard_no_empty k t ix : no_empty ix → no_empty (discard k t ix).
Proof.
  intros H t'. unfold discard. cbv zeta. case_decide as Hs.
  - destruct (decide (t' = t)) as [->|]; [by rewrite lookup_delete_eq|rewrite lookup_delete_ne by done; apply H].
  - destruct (decide (t' = t)) as [->|]; [rewrite lookup_insert_eq; congruence|rewrite lookup_insert_ne by done; apply H].
Qed.
Lemma add_no_empty k t ix : no_empty ix → no_empty (add_token k t ix).
Proof.
  intros H t'. unfold add_token. destruct (decide (t' = t)) as [->|].
  - rewrite lookup_insert_eq. intros [= He]. set_solver.
  - rewrite lookup_insert_ne by done. apply H.
Qed.

Lemma discards_spec k l ix : no_empty ix →
  let ix' := foldl (λ ix t, discard k t ix) ix l in
  no_empty ix' ∧ ∀ t j, j ∈ at_token t ix' ↔ j ∈ at_token t ix ∧ (t ∈ l → j ≠ k).
Proof.
  revert ix. induction l as [|x l IH]; intros ix H; cbn [foldl]; [set_solver|].
  destruct (IH (discard k x ix) (discard_no_empty k x ix H)) as [Hn Hj]. split; [done|].
  intros t j. rewrite Hj, at_discard, elem_of_cons. case_decide as Ht; [subst|].
  - rewrite elem_of_difference, elem_of_singleton. naive_solver.
  - naive_solver.
Qed.
Lemma adds_spec k l ix : no_empty ix →
  let ix' := foldl (λ ix t, add_token k t ix) ix l in
  no_empty ix' ∧ ∀ t j, j ∈ at_token t ix' ↔ j ∈ at_token t ix ∨ (t ∈ l ∧ j = k).
Proof.
  revert ix. induction l as [|x l IH]; intros ix H; cbn [foldl]; [set_solver|].
  destruct (IH (add_token k x ix) (add_no_empty k x ix H)) as [Hn Hj]. split; [done|].
  intros t j. rewrite Hj, at_add, elem_of_cons. case_decide as Ht; [subst|].
  - rewrite elem_of_union, elem_of_singleton. naive_solver.
  - naive_solver.
Qed.

Lemma on_put_ok e i : index_ok i → index_ok (on_put e i).
Proof.
  intros [Hi Hn]. unfold on_put. cbv zeta. set (k := entry_id e). set (new := _extract_triggers e).
  set (old := triggers_of k i).
  destruct (discards_spec k (elements (old ∖ new)) (_index i) Hn) as [Hn1 H1].
  destruct (adds_spec k (elements (new ∖ old)) _ Hn1) as [Hn2 H2].
  split; [|done]. intros t j. cbn [_index]. rewrite H2, H1, Hi, !elem_of_elements, !elem_of_difference.
  unfold triggers_of. cbn [_entry_triggers]. fold (triggers_of j i).
  destruct (decide (j = k)) as [->|Hne].
  - rewrite lookup_insert_eq. cbn [default]. fold old.
    destruct (decide (t ∈ new)), (decide (t ∈ old)); naive_solver.
  - rewrite lookup_insert_ne by done. fold (triggers_of j i). naive_solver.
Qed.
Lemma on_evict_ok k i : index_ok i → index_ok (on_evict k i).
Proof.
  intros [Hi Hn]. unfold on_evict.
  destruct (discards_spec k (elements (triggers_of k i)) (_index i) Hn) as [Hn1 H1].
  split; [|done]. intros t j. cbn [_index]. rewrite H1, Hi, elem_of_elements.
  unfold triggers_of at 3. cbn [_entry_triggers]. destruct (decide (j = k)) as [->|Hne].
  - rewrite lookup_delete_eq. cbn [default]. rewrite elem_of_empty. naive_solver.
  - rewrite lookup_delete_ne by done. fold (triggers_of j i). naive_solver.
Qed.

Lemma sync_put e i m m' : in_sync i m →
  get (entry_id e) m' = Some e → (∀ j, j ≠ entry_id e → dget j (_store m') = dget j (_store m)) →
  in_sync (on_put e i) m'.
Proof.
  intros [Hi Hs] He Hj. split; [by apply on_put_ok|]. intros k. unfold on_put. cbn [_entry_triggers].
  destruct (decide (k = entry_id e)) as [->|Hne].
  - by rewrite lookup_insert_eq, He.
  - rewrite lookup_insert_ne by done. rewrite Hs. unfold get. by rewrite Hj.
Qed.
Lemma sync_evict k i m m' : in_sync i m →
  dget k (_store m') = None → (∀ j, j ≠ k → dget j (_store m') = dget j (_store m)) →
  in_sync (on_evict k i) m'.
Proof.
  intros [Hi Hs] He Hj. split; [by apply on_evict_ok|]. intros j. unfold on_evict. cbn [_entry_triggers].
  unfold get. destruct (decide (j = k)) as [->|Hne].
  - by rewrite lookup_delete_eq, He.
  - rewrite lookup_delete_ne by done. rewrite Hs. unfold get. by rewrite Hj.
Qed.
Lemma init_in_sync agent : in_sync RecallIndex_init (AgentMemory_init agent).
Proof.
  split; [split|].
  - intros t k. unfold at_token, triggers_of, RecallIndex_init. cbn. rewrite !lookup_empty. set_solver.
  - intros t. unfold RecallIndex_init. cbn. by rewrite lookup_empty.
  - intros k. unfold RecallIndex_init. cbn. by rewrite lookup_empty.
Qed.

(** ** What a query finds *)

(** A term finds an entry when it is part of one of its triggers. *)
Definition term_hits (t : string) (e : MemoryEntry) : bool :=
  nonempty t && existsb (λ tok, str_contains (lower t) tok) (elements (_extract_triggers e)).
Definition matched (terms : list string) (e : MemoryEntry) : gset string :=
  list_to_set (List.filter (λ t, term_hits t e) terms).
Definition candidate_of (terms : list string) (e : MemoryEntry) : RecallCandidate :=
  mkCandidate e (matched terms e) (size (matched terms e)) (_source_tag_for e).
(** What a scan of the whole store would find. *)
Definition relevant (terms : list string) (types : option (list MemoryEntryType)) (m : AgentMemory)
    (c : RecallCandidate) : Prop :=
  ∃ e, get (entry_id e) m = Some e ∧ wanted types e = true ∧ matched terms e ≠ ∅ ∧ c = candidate_of terms e.

Lemma lower_ascii_idem c : lower_ascii (lower_ascii c) = lower_ascii c.
Proof. by destruct c as [[] [] [] [] [] [] [] []]. Qed.
Lemma lower_idem s : lower (lower s) = lower s.
Proof. induction s as [|c s IH]; [done|]. simpl. by rewrite lower_ascii_idem, IH. Qed.
Lemma lower_nonempty s : nonempty (lower s) = nonempty s.
Proof. by destruct s. Qed.
Lemma substring_search_spec q i k :
  k ∈ substring_search q i ↔ ∃ t, k ∈ at_token t (_index i) ∧ str_contains (lower q) t = true.
Proof.
  unfold substring_search, at_token. generalize (_index i). intros ix.
  apply (map_fold_weak_ind (λ (acc : gset string) (ix : gmap string (gset string)),
    k ∈ acc ↔ ∃ t, k ∈ default ∅ (ix !! t) ∧ str_contains (lower q) t = true)).
  - setoid_rewrite lookup_empty. cbn. set_solver.
  - intros t ks ix' acc Hnone IH.
    assert (Hsplit : (∃ t0, k ∈ default ∅ (<[t:=ks]> ix' !! t0) ∧ str_contains (lower q) t0 = true) ↔
                     (k ∈ ks ∧ str_contains (lower q) t = true) ∨ k ∈ acc).
    { rewrite IH. split.
      - intros (t0 & Hk & Hc). destruct (decide (t0 = t)) as [->|].
        + rewrite lookup_insert_eq in Hk. by left.
        + rewrite lookup_insert_ne in Hk by done. right. by exists t0.
      - intros [[Hk Hc]|(t0 & Hk & Hc)].
        + exists t. by rewrite lookup_insert_eq.
        + exists t0. rewrite lookup_insert_ne; [done|]. intros ->. rewrite Hnone in Hk. set_solver. }
    rewrite Hsplit. destruct (str_contains (lower q) t); [rewrite elem_of_union|]; naive_solver.
Qed.

Section Query.
Variable iter : gset string → list string.
Hypothesis iter_spec : ∀ s x, x ∈ iter s ↔ x ∈ s.

Lemma hit_spec t l d k :
  dget k (foldl (hit t) d l) = if decide (k ∈ l) then Some (default ∅ (dget k d) ∪ {[t]}) else dget k d.
Proof.
  revert d. induction l as [|x l IH]; intros d; cbn [foldl]; [done|].
  rewrite IH. unfold hit. rewrite dget_dset.
  destruct (decide (k = x)) as [->|Hne].
  - rewrite (decide_True (P := x ∈ x :: l)) by left. case_decide; [|done]. f_equal. cbn. set_solver.
  - destruct (decide (k ∈ l)).
    + rewrite decide_True by (by right). done.
    + rewrite decide_False by set_solver. done.
Qed.
Lemma hit_NoDup t l d : NoDup (dkeys d) → NoDup (dkeys (foldl (hit t) d l)).
Proof. revert d. induction l as [|x l IH]; intros d H; cbn [foldl]; [done|]. apply IH. by apply dkeys_dset_NoDup. Qed.

(** A term is a hit of the entries of which it is part of a trigger. *)
Definition index_hits (t k : string) (i : RecallIndex) : Prop :=
  nonempty t = true ∧ ∃ tok, tok ∈ triggers_of k i ∧ str_contains (lower t) tok = true.

Lemma hits_of_spec i d t k : index_ok i →
  (index_hits t k i → dget k (hits_of iter i d t) = Some (default ∅ (dget k d) ∪ {[t]})) ∧
  (¬ index_hits t k i → dget k (hits_of iter i d t) = dget k d).
Proof using iter_spec.
  intros [Hi _]. unfold hits_of, index_hits. destruct (nonempty t) eqn:Hn; [|split; [by intros [? _]|done]].
  rewrite !hit_spec.
  assert (Hsub : k ∈ iter (substring_search (lower t) i) ↔
                 ∃ tok, tok ∈ triggers_of k i ∧ str_contains (lower t) tok = true).
  { rewrite iter_spec, substring_search_spec, lower_idem. by setoid_rewrite Hi. }
  assert (Hex : k ∈ iter (lookup_token (lower t) i) → k ∈ iter (substring_search (lower t) i)).
  { rewrite Hsub, iter_spec. unfold lookup_token. rewrite !lower_idem, Hi. intros H.
    exists (lower t). split; [done|apply str_contains_refl]. }
  split; intros H.
  - rewrite decide_True by (apply Hsub, H). f_equal. case_decide; [|done]. cbn. set_solver.
  - rewrite decide_False by (rewrite Hsub; naive_solver). rewrite decide_False; [done|].
    intros ?%Hex%Hsub. naive_solver.
Qed.

Lemma index_hits_entry i m t k e : in_sync i m → get k m = Some e →
  index_hits t k i ↔ term_hits t e = true.
Proof.
  intros [_ Hs] He. unfold index_hits, term_hits, triggers_of. rewrite Hs, He. cbn.
  rewrite andb_true_iff, existsb_exists. setoid_rewrite <-list_elem_of_In. by setoid_rewrite elem_of_elements.
Qed.
Lemma matched_snoc l t e :
  matched (l ++ [t]) e = matched l e ∪ (if term_hits t e then {[t]} else ∅).
Proof.
  unfold matched. rewrite List.filter_app, list_to_set_app_L. f_equal. cbn. destruct (term_hits t e); [|done].
  cbn. set_solver.
Qed.
Lemma hits_spec i m terms k e : in_sync i m → get k m = Some e →
  dget k (foldl (hits_of iter i) [] terms) =
    if decide (matched terms e = ∅) then None else Some (matched terms e).
Proof using iter_spec.
  intros Hs He. induction terms as [|t l IH] using rev_ind.
  { rewrite decide_True; done. }
  rewrite foldl_snoc, matched_snoc.
  destruct (hits_of_spec i (foldl (hits_of iter i) [] l) t k (proj1 Hs)) as [Hy Hn].
  pose proof (index_hits_entry i m t k e Hs He) as Ht. rewrite IH in *. destruct (term_hits t e).
  - rewrite Hy by (by apply Ht).
    rewrite (decide_False (P := matched l e ∪ {[t]} = ∅)).
    2:{ intros Hx. apply (not_elem_of_empty (C := gset string) t). rewrite <-Hx. by apply elem_of_union_r, elem_of_singleton. }
    f_equal. case_decide as Hm; [|done].
    rewrite Hm. done.
  - rewrite Hn by (rewrite Ht; congruence). by rewrite (right_id_L ∅ (∪)).
Qed.
Lemma hits_NoDup i terms : NoDup (dkeys (foldl (hits_of iter i) [] terms)).
Proof using Type.
  assert (∀ d, NoDup (dkeys d) → NoDup (dkeys (foldl (hits_of iter i) d terms))) as H; [|apply H, NoDup_nil_2].
  induction terms as [|t l IH]; intros d Hd; cbn [foldl]; [done|]. apply IH. unfold hits_of.
  destruct (nonempty t); [|done]. by do 2 apply hit_NoDup.
Qed.

Lemma keyword_exact i m types terms : in_sync i m → memory_ok m →
  (∀ c, c ∈ keyword_query iter terms m i types ↔ relevant terms types m c) ∧
  NoDup (map c_id (keyword_query iter terms m i types)).
Proof using iter_spec.
  intros Hs Hm. unfold keyword_query. set (hits := foldl _ _ _).
  assert (Hd : NoDup (dkeys hits)) by apply hits_NoDup. split.
  - intros c. rewrite list_elem_of_omap. split.
    + intros ([k ms] & Hin & Hc). apply (elem_dget k ms) in Hin; [|done]. unfold candidate in Hc. cbn [fst snd] in Hc.
      destruct (get k m) as [e|] eqn:He; [|done]. destruct (wanted types e) eqn:Hw; [|done]. simplify_eq.
      assert (entry_id e = k) as <- by by eapply get_some. exists e. split; [done|]. split; [done|].
      unfold hits in Hin. rewrite (hits_spec i m terms _ e) in Hin by done. case_decide; [done|]. simplify_eq. done.
    + intros (e & He & Hw & Hne & ->). exists (entry_id e, matched terms e). split.
      * apply dget_Some_elem. unfold hits. rewrite (hits_spec i m terms _ e) by done. by rewrite decide_False.
      * unfold candidate. cbn [fst snd]. by rewrite He, Hw.
  - clearbody hits. induction hits as [|[k ms] d IH]; [apply NoDup_nil_2|].
    cbn [dkeys map fst] in Hd. apply NoDup_cons in Hd as [Hk Hd]. cbn [omap list_omap].
    destruct (candidate types m (k, ms)) as [c|] eqn:E; [|by apply IH]. cbn [map]. apply NoDup_cons. split; [|by apply IH].
    assert (Hcid : ∀ k ms c, candidate types m (k, ms) = Some c → c_id c = k).
    { clear -Hm. intros k ms c. unfold candidate. cbn [fst snd]. destruct (get k m) as [e|] eqn:He; [|done].
      destruct (wanted types e); [|done]. intros [= <-]. by eapply get_some. }
    rewrite (Hcid _ _ _ E). intros (c' & Hc' & Hin)%list_elem_of_fmap.
    apply list_elem_of_omap in Hin as ([k' ms'] & Hin & Hc2). apply Hcid in Hc2. subst k. rewrite Hc2 in Hk.
    apply Hk. apply list_elem_of_fmap. by exists (k', ms').
Qed.
End Query.

(** ** What the engine returns *)

(** Merging keeps one spelling of every term, the earliest. *)
Lemma merge_spec l st : (∀ t, lower t ∈ st.2 ↔ ∃ u, u ∈ st.1 ∧ lower u = lower t) →
  let st' := foldl add_term st l in
  (∀ t, lower t ∈ st'.2 ↔ ∃ u, u ∈ st'.1 ∧ lower u = lower t) ∧
  (∀ t, lower t ∈ st'.2 ↔ lower t ∈ st.2 ∨ ∃ u, u ∈ l ∧ lower u = lower t).
Proof.
  revert st. induction l as [|t l IH]; intros st H; cbn [foldl]; [split; [done|set_solver]|].
  destruct (IH (add_term st t)) as [H1 H2].
  - intros u. unfold add_term. case_decide as Ht; [done|]. cbn [fst snd]. rewrite elem_of_union, elem_of_singleton, H.
    setoid_rewrite elem_of_app. setoid_rewrite list_elem_of_singleton. naive_solver.
  - split; [done|]. intros u. rewrite H2. unfold add_term.
    setoid_rewrite elem_of_cons. case_decide as Ht.
    + split; [naive_solver|]. intros [?|(w & [->|?] & Hw)]; [by left| |naive_solver]. left. by rewrite <-Hw.
    + cbn [snd]. rewrite elem_of_union, elem_of_singleton. naive_solver.
Qed.
Lemma merge_covers l t : t ∈ l → ∃ u, u ∈ merge_terms l ∧ lower u = lower t.
Proof.
  intros Ht. unfold merge_terms. destruct (merge_spec l ([], ∅)) as [H1 H2].
  { intros u. cbn. set_solver. }
  apply H1, H2. right. by exists t.
Qed.

Definition higher (c d : RecallCandidate) : Prop := trigger_score d ≤ trigger_score c.
Lemma by_score_sorted l : StronglySorted higher (py_sorted by_score l).
Proof.
  assert (StronglySorted (λ c d, by_score c d = true) (py_sorted by_score l)) as H.
  { apply py_sorted_sorted; unfold by_score; intros *; rewrite ?Nat.leb_le; lia. }
  induction H as [|c l' H IH Hc]; constructor; [done|]. eapply Forall_impl; [done|].
  intros d. by intros ?%Nat.leb_le.
Qed.
Lemma take_sorted {A} (R : relation A) k l x y :
  StronglySorted R l → x ∈ take k l → y ∈ drop k l → R x y.
Proof.
  revert k. induction l as [|a l IH]; intros k Hs Hx Hy; [rewrite take_nil in Hx; by apply elem_of_nil in Hx|].
  apply StronglySorted_inv in Hs as [Hs Ha]. destruct k as [|k]; [by apply elem_of_nil in Hx|].
  cbn in Hx, Hy. apply elem_of_cons in Hx as [->|Hx]; [|by eapply IH].
  rewrite Forall_forall in Ha. apply Ha. rewrite <-(take_drop k l). apply elem_of_app. by right.
Qed.
Lemma take_StronglySorted {A} (R : relation A) k l : StronglySorted R l → StronglySorted R (take k l).
Proof.
  revert k. induction l as [|a l IH]; intros [|k] Hs; cbn; try constructor.
  - apply StronglySorted_inv in Hs as [Hs _]. by apply IH.
  - apply StronglySorted_inv in Hs as [_ Ha]. rewrite Forall_forall in *. intros x Hx. apply Ha.
    rewrite <-(take_drop k l). apply elem_of_app. by left.
Qed.

(** Whatever backend answers, the engine returns the best candidates, in order. *)
Lemma best_of `{RecallBackend} terms m i types k : (0 ≤ k)%Z →
  let all := query terms m i types in
  let best := slice_to k (py_sorted by_score all) in
  (∀ c, c ∈ best → c ∈ all) ∧ (Z.of_nat (length best) ≤ k)%Z ∧ StronglySorted higher best ∧
  (NoDup (map c_id all) → NoDup (map c_id best)) ∧
  (∀ c, c ∈ all → c ∈ best ∨ (Z.of_nat (length best) = k ∧ ∀ d, d ∈ best → higher d c)).
Proof.
  intros Hk all best. unfold best, slice_to. rewrite (proj2 (Z.ltb_ge k 0)) by done.
  set (s := py_sorted by_score all). pose proof (by_score_sorted all) as Hs. fold s in Hs.
  assert (Hp : s ≡ₚ all) by apply py_sorted_perm. split_and!.
  - intros c Hc. rewrite <-Hp. rewrite <-(take_drop (Z.to_nat k) s). apply elem_of_app. by left.
  - rewrite length_take. lia.
  - by apply take_StronglySorted.
  - intros Hn. assert (Hn' : NoDup (map c_id s)).
    { assert (map c_id s ≡ₚ map c_id all) as -> by (change (c_id <$> s ≡ₚ c_id <$> all); by rewrite Hp). done. }
    rewrite <-(take_drop (Z.to_nat k) s), map_app in Hn'. by apply NoDup_app in Hn' as [? _].
  - intros c Hc. rewrite <-Hp, <-(take_drop (Z.to_nat k) s) in Hc. apply elem_of_app in Hc as [Hc|Hc]; [by left|].
    right. split.
    + rewrite length_take. destruct (decide (Z.to_nat k ≤ length s)); [lia|].
      rewrite drop_ge in Hc by lia. by apply elem_of_nil in Hc.
    + intros d Hd. by eapply take_sorted.
Qed.

Definition merged_terms (contextual : list string) (c : RecallConfig) : list string :=
  merge_terms (contextual ++ persistent_query_terms c ++ temp_overrides c).

(** C34: On an index that follows the store, a recall returns each time the best entries a scan of
    the whole store would find for the merged terms, each once with the terms that found it, in
    descending order of their number, at most [top_k]; a candidate is left out only when [top_k]
    others score at least as high.  The terms for one use are gone afterwards, the others stay. *)
Theorem recall_exact (iter : gset string → list string) (iter_spec : ∀ s x, x ∈ iter s ↔ x ∈ s)
    m i contextual top_k types c :
  in_sync i m → memory_ok m → (0 ≤ top_k)%Z →
  let found := relevant (merged_terms contextual c) types m in
  let '(l, c') := recall (H := keyword_query iter) m i contextual top_k types true c in
  (∀ x, x ∈ l → found x) ∧ NoDup (map c_id l) ∧ StronglySorted higher l ∧
  (Z.of_nat (length l) ≤ top_k)%Z ∧
  (∀ x, found x → x ∈ l ∨ (Z.of_nat (length l) = top_k ∧ ∀ y, y ∈ l → higher y x)) ∧
  persistent_query_terms c' = persistent_query_terms c ∧ temp_overrides c' = [].
Proof.
  intros Hs Hm Hk. cbv zeta. unfold recall. fold (merged_terms contextual c).
  destruct (keyword_exact iter iter_spec i m types (merged_terms contextual c) Hs Hm) as [He Hn].
  destruct (best_of (H := keyword_query iter) (merged_terms contextual c) m i types top_k Hk) as (H1 & H2 & H3 & H4 & H5).
  destruct (merged_terms contextual c) as [|t l] eqn:E.
  - split_and!; [by intros ? ?%elem_of_nil|apply NoDup_nil_2|constructor|done| |done|done].
    intros x (e & _ & _ & Hne & _). destruct Hne. done.
  - split_and!; [|auto|done|done| |done|done].
    + intros x Hx. by apply He, H1.
    + intros x Hx. by apply H5, He.
Qed.

(** A pinned entry is found as long as its title and points are those it was pinned with. *)
Lemma term_hits_own e t : t ∈ pin_terms e → ∀ u, lower u = lower t → term_hits u e = true.
Proof.
  intros [Ht Hn]%elem_of_bfilter u Hu. unfold term_hits. rewrite Hu.
  assert (nonempty u = true) as -> by (rewrite <-(lower_nonempty u), Hu, lower_nonempty; done). simpl.
  apply existsb_exists. exists (lower t). split; [|apply str_contains_refl].
  apply list_elem_of_In, elem_of_elements. unfold _extract_triggers.
  apply elem_of_cons in Ht as [->|Ht].
  - apply elem_of_union_l. rewrite Hn. by apply elem_of_singleton.
  - apply elem_of_union_r, elem_of_list_to_set, list_elem_of_fmap. exists t. split; [done|].
    by apply elem_of_bfilter.
Qed.
Lemma pinned_terms agent e c b t : t ∈ pin_terms e →
  t ∈ persistent_query_terms (apply_pin_effect agent e c b).1.2.
Proof.
  intros Ht. unfold apply_pin_effect. destruct (stage_undo _ _ _ _ _ _ _) as [eff b']. cbn.
  apply elem_of_app. destruct (decide (t ∈ persistent_query_terms c)); [by left|right].
  unfold pin_added. apply elem_of_bfilter. split; [done|]. by apply bool_decide_eq_true.
Qed.

(** After an entry with a title or a point was pinned, every recall for its type has it among
    the candidates it chooses from, whatever the context; it is left out only when [top_k] others
    score at least as high. *)
Theorem pinned_is_candidate (iter : gset string → list string) (iter_spec : ∀ s x, x ∈ iter s ↔ x ∈ s)
    agent e m i contextual top_k types c b :
  in_sync i m → memory_ok m → get (entry_id e) m = Some e → pin_terms e ≠ [] → wanted types e = true →
  (0 ≤ top_k)%Z →
  let c := (apply_pin_effect agent e c b).1.2 in
  let l := (recall (H := keyword_query iter) m i contextual top_k types true c).1 in
  (∃ x, x ∈ l ∧ c_entry x = e) ∨
  (Z.of_nat (length l) = top_k ∧ ∀ y, y ∈ l → size (matched (merged_terms contextual c) e) ≤ trigger_score y).
Proof.
  intros Hs Hm He Hp Hw Hk c' l.
  pose proof (recall_exact iter iter_spec m i contextual top_k types c' Hs Hm Hk) as H. cbv zeta in H.
  unfold l. destruct (recall _ _ _ _ _ _ _) as [l' c'']. destruct H as (_ & _ & _ & _ & H & _).
  destruct (H (candidate_of (merged_terms contextual c') e)) as [Hin|[Hl Hy]].
  - exists e. split_and!; [done|done| |done].
    destruct (pin_terms e) as [|t ts] eqn:E; [done|].
    assert (Ht : t ∈ pin_terms e) by (rewrite E; left).
    pose proof (pinned_terms agent e c b t Ht) as Hper. fold c' in Hper.
    destruct (merge_covers (contextual ++ persistent_query_terms c' ++ temp_overrides c') t) as (u & Hu & Hl).
    { apply elem_of_app. right. apply elem_of_app. by left. }
    assert (u ∈ matched (merged_terms contextual c') e) as Hm'.
    { unfold matched. apply elem_of_list_to_set, elem_of_bfilter. split; [done|]. by eapply term_hits_own. }
    intros Hx. rewrite Hx in Hm'. by apply elem_of_empty in Hm'.
  - left. by eexists.
  - right. split; [done|]. apply Hy.
Qed.

(** ** Undo on the recall state *)


Lemma rollback_recall_spec eff terms c :
  effect_type eff = MEMORY_RECALL → dget "temp_overrides_added" (invert_data eff) = Some (strs terms) →
  rollback_memory_recall_effect eff c =
    set_temp (List.filter (λ t, bool_decide (t ∉ terms)) (temp_overrides c)) c.
Proof. intros Ht Hd. unfold rollback_memory_recall_effect. by rewrite decide_True, Hd, unstrs_strs. Qed.

(** Undoing a change of the persistent terms or a pin gives back the recall state; undoing a
    recall gives it back exactly when none of its terms was waiting already. *)
Theorem recall_state_restored agent terms e c b :
  (let '(eff, c', _) := apply_recall_config_effect agent terms c b in
   rollback_recall_config_effect eff c' = c) ∧
  (let '(eff, c', _) := apply_pin_effect agent e c b in rollback_pin_effect eff c' = c) ∧
  (let '(eff, c', _) := apply_memory_recall_effect agent terms c b in
   rollback_memory_recall_effect eff c' = c ↔ ∀ t, t ∈ terms → t ∉ temp_overrides c).
Proof.
  destruct c as [p tmp]. split_and!.
  - cbn. unfold rollback_recall_config_effect, restore_persistent. cbn. unfold set_persistent. cbn.
    f_equal. apply unstrs_strs.
  - cbn. unfold rollback_pin_effect, restore_persistent. cbn. unfold set_persistent. cbn. f_equal. apply unstrs_strs.
  - destruct (apply_memory_recall_effect agent terms (mkConfig p tmp) b) as [[eff c'] b'] eqn:E.
    assert (effect_type eff = MEMORY_RECALL ∧ dget "temp_overrides_added" (invert_data eff) = Some (strs terms) ∧
            c' = mkConfig p (tmp ++ terms)) as (Ht & Hd & ->).
    { unfold apply_memory_recall_effect, stage_undo, stage in E. simplify_eq. done. }
    rewrite (rollback_recall_spec eff terms) by done. unfold set_temp.
    cbn [persistent_query_terms temp_overrides]. rewrite List.filter_app.
    rewrite (filter_none _ terms), app_nil_r.
    2:{ intros x Hx. by apply bool_decide_eq_false; intros ?. }
    split.
    + intros [= Hf] t Hin Htmp. rewrite <-Hf in Htmp. apply elem_of_bfilter in Htmp as [_ Htmp].
      by apply bool_decide_eq_true in Htmp.
    + intros H. f_equal. apply filter_all. intros t Htmp. apply bool_decide_eq_true. intros Hin. by apply (H t).
Qed.

(** *** Examples *)

Definition elems : gset string → list string := elements.
Definition entry_ (id ttl : string) (points : list string) : MemoryEntry :=
  mkEntry id M_SKILL ttl (SkillContent "" []) points [] 1 EntryProvenance_default.
(** The entries of a memory with the index that follows it. *)
Fixpoint filled (l : list MemoryEntry) : AgentMemory * RecallIndex :=
  match l with
  | [] => (AgentMemory_init "ann", RecallIndex_init)
  | e :: l' => let '(m, i) := filled l' in (set_store (dset (entry_id e) (chain_new e) (_store m)) m, on_put e i)
  end.
Lemma filled_ok l : memory_ok (filled l).1 ∧ in_sync (filled l).2 (filled l).1.
Proof.
  induction l as [|e l [Hm Hs]]; [split; [apply memory_init_ok|apply init_in_sync]|].
  cbn [filled]. destruct (filled l) as [m i]. cbn [fst snd] in *. split.
  - apply memory_ok_set; [done|apply chain_new_ok].
  - eapply sync_put; [done| |].
    + unfold get. cbn [_store set_store]. by rewrite dget_dset_eq.
    + intros j Hj. cbn [_store set_store]. by rewrite dget_dset_ne.
Qed.

Definition library : list MemoryEntry :=
  [entry_ "a" "Refund" ["customer"]; entry_ "b" "Complaint" ["customer"; "escalate"]; entry_ "c" "Travel" []].
Definition ask (terms : list string) (k : Z) (c : RecallConfig) : list (string * nat) :=
  map (λ x, (c_id x, trigger_score x))
    (recall (H := keyword_query elems) (filled library).1 (filled library).2 terms k None true c).1.

Example recall_scores : ask ["CUSTOMER"; "escalate"; "plan"] 5 RecallConfig_init = [("b", 2); ("a", 1)].
Proof. by vm_compute. Qed.
(** A trigger that is part of a term does not make a hit, only the reverse. *)
Example longer_term_misses : ask ["refunds"] 5 RecallConfig_init = [] ∧ ask ["fund"] 5 RecallConfig_init = [("a", 1)].
Proof. by vm_compute. Qed.
(** A pinned entry that the context outdoes is not recalled. *)
Example pinned_left_out :
  let c := (apply_pin_effect "ann" (entry_ "c" "Travel" []) RecallConfig_init TransactionBuffer_init).1.2 in
  ask [] 1 c = [("c", 1)] ∧ ask ["customer"; "escalate"] 1 c = [("b", 2)].
Proof. by vm_compute. Qed.
(** The undo of a removal brings the entry back to the store and not to the index. *)
Example undone_evict_not_found :
  let '(m, i) := filled library in
  let '(r, (m1, _)) := evict write_entry "c" (m, TransactionBuffer_init) in
  match r with
  | Ok (Some eff) =>
      let m2 := (rollback_effect load_entry eff m1).2 in
      get "c" m2 = Some (entry_ "c" "Travel" []) ∧
      (recall (H := keyword_query elems) m2 (on_evict "c" i) ["travel"] 5 None true RecallConfig_init).1 = []
  | _ => False
  end.
Proof. by vm_compute. Qed.

Lemma elems_spec s x : x ∈ elems s ↔ x ∈ s.
Proof. apply elem_of_elements. Qed.
Lemma recall_exact_witness :
  let found := relevant (merged_terms ["customer"] RecallConfig_init) None (filled library).1 in
  let '(l, c') := recall (H := keyword_query elems) (filled library).1 (filled library).2 ["customer"] 1 None true
                    RecallConfig_init in
  (∀ x, x ∈ l → found x) ∧ NoDup (map c_id l) ∧ StronglySorted higher l ∧
  (Z.of_nat (length l) ≤ 1)%Z ∧
  (∀ x, found x → x ∈ l ∨ (Z.of_nat (length l) = 1%Z ∧ ∀ y, y ∈ l → higher y x)) ∧
  persistent_query_terms c' = [] ∧ temp_overrides c' = [].
Proof.
  apply (recall_exact elems elems_spec (filled library).1 (filled library).2 ["customer"] 1 None RecallConfig_init);
    [apply filled_ok|apply filled_ok|lia].
Defined.
Lemma pinned_is_candidate_witness :
  let c := (apply_pin_effect "ann" (entry_ "c" "Travel" []) RecallConfig_init TransactionBuffer_init).1.2 in
  let l := (recall (H := keyword_query elems) (filled library).1 (filled library).2 ["customer"; "escalate"] 1 None
              true c).1 in
  (∃ x, x ∈ l ∧ c_entry x = entry_ "c" "Travel" []) ∨
  (Z.of_nat (length l) = 1%Z ∧
   ∀ y, y ∈ l → size (matched (merged_terms ["customer"; "escalate"] c) (entry_ "c" "Travel" [])) ≤ trigger_score y).
Proof.
  apply (pinned_is_candidate elems elems_spec "ann" (entry_ "c" "Travel" []) (filled library).1 (filled library).2);
    [apply filled_ok|apply filled_ok|by vm_compute|done|done|lia].
Defined.
