(* ===== verification/LegacyMemoryTools.v ===== *)
(** * Memory tools and consolidation in the previous architecture

    legacy/memory_tools.py: the handlers by which an agent works on its memory; legacy/consolidation.py
    with the code of legacy/simulation.py that uses it: sessions in which an agent consolidates its
    memory, and the summary it leaves.

    The handlers share the memories, the indices of the recall engines and the recall states of all
    agents with the simulation.  Arguments have the types the handlers declare.  A new identifier
    is an argument; ratios are exact rationals. *)

From stdpp Require Import base gmap strings list pretty.
From Stdlib Require Import ZArith QArith Ascii Lia Lqa.
From S2P Require Import Prelude PyValue Json LegacyTransaction.
From S2P Require LegacyKb LegacyContinuation.
From S2P Require Import LlmRuntime LegacyMemory LegacyRecall.

Open Scope string_scope.
Open Scope list_scope.
Open Scope Z_scope.

Record subsystem := mkSub {
  agent_memories : dict AgentMemory; recall_engines : dict RecallIndex; recall_configs : dict RecallConfig;
  transaction_buffer : TransactionBuffer }.

Definition set_memory (agent : string) (m : AgentMemory) (b : TransactionBuffer) (s : subsystem) : subsystem :=
  mkSub (dset agent m (agent_memories s)) (recall_engines s) (recall_configs s) b.
Definition set_engine (agent : string) (i : RecallIndex) (s : subsystem) : subsystem :=
  mkSub (agent_memories s) (dset agent i (recall_engines s)) (recall_configs s) (transaction_buffer s).
Definition set_config (agent : string) (c : RecallConfig) (b : TransactionBuffer) (s : subsystem) : subsystem :=
  mkSub (agent_memories s) (recall_engines s) (dset agent c (recall_configs s)) b.

(** A write to the memory of an agent. *)
Definition on_memory {A} (agent : string) (m : AgentMemory) (w : M (AgentMemory * TransactionBuffer) A) :
    M subsystem A := λ s,
  let '(r, (m', b')) := w (m, transaction_buffer s) in (r, set_memory agent m' b' s).

Definition _lookup (cx : LegacyKb.ToolContext) (s : subsystem) : option (AgentMemory * RecallIndex) :=
  match dget (LegacyKb.cx_agent cx) (agent_memories s), dget (LegacyKb.cx_agent cx) (recall_engines s) with
  | Some m, Some i => Some (m, i)
  | _, _ => None
  end.

Definition failed (name : string) (cx : LegacyKb.ToolContext) (msg : string) (code : option string) :
    LegacyKb.ToolResult :=
  LegacyKb.mkResult false VNone (Some msg) code true (LegacyKb.cx_agent cx) name (LegacyKb.cx_tick cx).
Definition invalid (name : string) (cx : LegacyKb.ToolContext) (msg : string) : LegacyKb.ToolResult :=
  failed name cx msg (Some "INVALID_ARGUMENT").
Definition _missing_subsystem (name : string) (cx : LegacyKb.ToolContext) (what : string) : LegacyKb.ToolResult :=
  failed name cx (name +:+ ": agent " +:+ LegacyKb.cx_agent cx +:+ " 无 " +:+ what +:+ "（未接线）") None.
Definition not_stored (name id : string) (cx : LegacyKb.ToolContext) : LegacyKb.ToolResult :=
  failed name cx (name +:+ ": 条目 " +:+ id +:+ " 不在 store（外加载条目不可改写）") None.

Definition done_ (name : string) (cx : LegacyKb.ToolContext) (id : string) (v : Z) (flag : string) :
    LegacyKb.ToolResult :=
  LegacyKb.tool_ok name cx (VDict [("entry_id", VStr id); ("version", VInt v); (flag, VBool true)]).

(** What a handler does on the agent's own memory, where it has one. *)
Definition with_memory (name : string) (cx : LegacyKb.ToolContext)
    (k : AgentMemory → RecallIndex → M subsystem LegacyKb.ToolResult) : M subsystem LegacyKb.ToolResult :=
  found ← gets (_lookup cx);
  match found with
  | Some (m, i) => k m i
  | None => mret (_missing_subsystem name cx "AgentMemory/RecallEngine")
  end.

Section Handlers.
Variable word : string → bool.
Variable dump : MemoryEntry → value.

Definition _build_content (t : MemoryEntryType) (text : string) : res Content :=
  content_new word
    match t with
    | M_TASK => TaskContent text "" ""
    | M_SKILL => SkillContent text []
    | M_TOOL => ToolContent text "" ""
    | M_PERSON => PersonContent text "" ""
    end.

(** The next version of an entry, built without the identifiers associated with it. *)
Definition revised (e : MemoryEntry) (ttl : string) (c : Content) (points : list string) : res MemoryEntry :=
  entry_new (mkEntry (entry_id e) (e_type e) ttl c points [] (version e + 1) (provenance e)).
Definition or_else (s d : string) : string := if nonempty s then s else d.

Definition store_put (cx : LegacyKb.ToolContext) (m : AgentMemory) (i : RecallIndex) (e : MemoryEntry) : M subsystem () :=
  on_memory (LegacyKb.cx_agent cx) m (put dump e);;
  modify (set_engine (LegacyKb.cx_agent cx) (on_put e i)).

Definition handle_memory_fold (cx : LegacyKb.ToolContext) (id content_text ttl : string)
    (points : option (list string)) : M subsystem LegacyKb.ToolResult :=
  if negb (nonempty id) || negb (nonempty content_text)
  then mret (invalid "memory_fold" cx "memory_fold 需要 entry_id 与 content_text") else
  with_memory "memory_fold" cx (λ m i,
    match get id m with
    | None => mret (not_stored "memory_fold" id cx)
    | Some e =>
        c ← lift (_build_content (e_type e) content_text);
        folded ← lift (revised e (or_else ttl (title e)) c (default (memory_points e) points));
        on_memory (LegacyKb.cx_agent cx) m (fold dump id folded);;
        modify (set_engine (LegacyKb.cx_agent cx) (on_fold folded i));;
        mret (done_ "memory_fold" cx (entry_id e) (version folded) "folded")
    end).

Definition newline : string := byte_str [10%nat].
Definition py_str (v : value) : string := match v with VStr s => s | _ => repr v end.
(** [content.model_dump().items()] *)
Definition content_items (c : Content) : list (string * value) :=
  match c with
  | TaskContent a b d => [("notes", VStr a); ("progress", VStr b); ("decision_rationale", VStr d)]
  | SkillContent a l => [("sop_text", VStr a); ("applies_to", strs l)]
  | ToolContent a b d => [("source", VStr a); ("entry", VStr b); ("capability_decl", VStr d)]
  | PersonContent a b d => [("profile", VStr a); ("relations", VStr b); ("preferences", VStr d)]
  end.
Definition promoted_text (e : MemoryEntry) : string :=
  str_join newline (title e :: map (λ kv, kv.1 +:+ ": " +:+ py_str kv.2)
                            (List.filter (λ kv, truthy kv.2) (content_items (e_content e)))).

Definition handle_memory_promote (new_id : string) (cx : LegacyKb.ToolContext) (id ttl sop_text : string)
    (applies_to points : list string) (task_id outcome note : string) : M subsystem LegacyKb.ToolResult :=
  with_memory "memory_promote" cx (λ m i,
    let source := if nonempty id then get id m else None in
    if nonempty id && negb (bool_decide (is_Some source))
    then mret (failed "memory_promote" cx ("memory_promote: 源条目 " +:+ id +:+ " 不在 store") None) else
    match (if nonempty sop_text then Some sop_text else promoted_text <$> source) with
    | None => mret (invalid "memory_promote" cx "memory_promote 需要 sop_text 或有效 entry_id")
    | Some text =>
        let p := mkProvenance OWN None (if nonempty task_id then [mkTaskResult task_id outcome note] else []) "" in
        let ttl := or_else ttl (match source with Some e => title e | None => "提炼技能" end) in
        e ← lift (make_entry word new_id ttl (SkillContent text applies_to) points [] 1 (Some p));
        store_put cx m i e;;
        mret (done_ "memory_promote" cx (entry_id e) (version e) "promoted")
    end).

Definition handle_memory_edit (cx : LegacyKb.ToolContext) (id content_text ttl : string)
    (points : option (list string)) : M subsystem LegacyKb.ToolResult :=
  if negb (nonempty id) then mret (invalid "memory_edit" cx "memory_edit 需要 entry_id") else
  with_memory "memory_edit" cx (λ m i,
    match get id m with
    | None => mret (not_stored "memory_edit" id cx)
    | Some e =>
        c ← lift (if nonempty content_text then _build_content (e_type e) content_text else Ok (e_content e));
        e' ← lift (revised e (or_else ttl (title e)) c (default (memory_points e) points));
        store_put cx m i e';;
        mret (done_ "memory_edit" cx (entry_id e) (version e') "edited")
    end).

Definition handle_memory_retag (cx : LegacyKb.ToolContext) (id : string) (points : list string) :
    M subsystem LegacyKb.ToolResult :=
  if negb (nonempty id) || bool_decide (points = [])
  then mret (invalid "memory_retag" cx "memory_retag 需要 entry_id 与 memory_points") else
  with_memory "memory_retag" cx (λ m i,
    match get id m with
    | None => mret (not_stored "memory_retag" id cx)
    | Some e =>
        e' ← lift (revised e (title e) (e_content e) points);
        store_put cx m i e';;
        mret (done_ "memory_retag" cx (entry_id e) (version e') "retagged")
    end).

Definition handle_memory_evict (cx : LegacyKb.ToolContext) (id : string) : M subsystem LegacyKb.ToolResult :=
  if negb (nonempty id) then mret (invalid "memory_evict" cx "memory_evict 需要 entry_id") else
  with_memory "memory_evict" cx (λ m i,
    eff ← on_memory (LegacyKb.cx_agent cx) m (evict dump id);
    match eff with
    | None => mret (failed "memory_evict" cx ("memory_evict: 条目 " +:+ id +:+ " 不在 store") None)
    | Some _ =>
        modify (set_engine (LegacyKb.cx_agent cx) (on_evict id i));;
        mret (LegacyKb.tool_ok "memory_evict" cx (VDict [("entry_id", VStr id); ("evicted", VBool true)]))
    end).

Definition pin_entry (cx : LegacyKb.ToolContext) (e : MemoryEntry) (c : RecallConfig) :
    M subsystem LegacyKb.ToolResult := λ s,
  let '(eff, c', b') := apply_pin_effect (LegacyKb.cx_agent cx) e c (transaction_buffer s) in
  (Ok (LegacyKb.tool_ok "memory_pin" cx
         (VDict [("entry_id", VStr (entry_id e)); ("pinned", VBool true);
                 ("added_terms", default (VList []) (dget "added_terms" (data eff)))])),
   set_config (LegacyKb.cx_agent cx) c' b' s).
Definition handle_memory_pin (cx : LegacyKb.ToolContext) (id : string) : M subsystem LegacyKb.ToolResult :=
  if negb (nonempty id) then mret (invalid "memory_pin" cx "memory_pin 需要 entry_id") else
  with_memory "memory_pin" cx (λ m i,
    config ← gets (λ s, dget (LegacyKb.cx_agent cx) (recall_configs s));
    match config, get id m with
    | None, _ => mret (_missing_subsystem "memory_pin" cx "RecallConfig")
    | _, None => mret (not_stored "memory_pin" id cx)
    | Some c, Some e => pin_entry cx e c
    end).
End Handlers.

(** A call of one of the tools; [new_id] is the identifier a promotion would draw. *)
Inductive tool_call :=
| TFold (id text ttl : string) (points : option (list string))
| TPromote (new_id id ttl sop_text : string) (applies_to points : list string) (task_id outcome note : string)
| TEdit (id text ttl : string) (points : option (list string))
| TRetag (id : string) (points : list string)
| TEvict (id : string)
| TPin (id : string).
Definition handle (word : string → bool) (dump : MemoryEntry → value) (cx : LegacyKb.ToolContext) (t : tool_call) :
    M subsystem LegacyKb.ToolResult :=
  match t with
  | TFold id text ttl points => handle_memory_fold word dump cx id text ttl points
  | TPromote n id ttl sop at_ points task outcome note =>
      handle_memory_promote word dump n cx id ttl sop at_ points task outcome note
  | TEdit id text ttl points => handle_memory_edit word dump cx id text ttl points
  | TRetag id points => handle_memory_retag dump cx id points
  | TEvict id => handle_memory_evict dump cx id
  | TPin id => handle_memory_pin cx id
  end.

(** ** The indices follow the memories *)

Definition tools_ok (s : subsystem) : Prop :=
  fresh_buffer (transaction_buffer s) ∧
  (∀ a m, dget a (agent_memories s) = Some m → memory_ok m) ∧
  (∀ a m i, dget a (agent_memories s) = Some m → dget a (recall_engines s) = Some i → in_sync i m).

Lemma lookup_some cx s m i : _lookup cx s = Some (m, i) →
  dget (LegacyKb.cx_agent cx) (agent_memories s) = Some m ∧
  dget (LegacyKb.cx_agent cx) (recall_engines s) = Some i.
Proof. unfold _lookup. destruct (dget _ _); [|done]. destruct (dget _ (recall_engines s)); [|done]. intros. by simplify_eq. Qed.

(** A write to the memory and the matching change of the index keep it. *)
Lemma tools_ok_write a m' i' b' s : tools_ok s →
  fresh_buffer b' → memory_ok m' → in_sync i' m' → tools_ok (set_engine a i' (set_memory a m' b' s)).
Proof.
  intros (_ & Hm & Hs) Hb Hm' Hs'. split; [done|]. split.
  - intros j m. cbn. rewrite dget_dset. case_decide; [intros; by simplify_eq|apply Hm].
  - intros j m i. cbn. rewrite !dget_dset. case_decide; [intros; by simplify_eq|apply Hs].
Qed.
(** So does a write that leaves the memory alone. *)
Lemma tools_ok_staged a m b' s : tools_ok s → dget a (agent_memories s) = Some m →
  fresh_buffer b' → tools_ok (set_memory a m b' s).
Proof.
  intros (_ & Hm & Hs) Ha Hb. split; [done|]. split.
  - intros j m'. cbn. rewrite dget_dset. case_decide as Hj; [subst; intros; simplify_eq; by eapply Hm|apply Hm].
  - intros j m' i. cbn. rewrite dget_dset. case_decide as Hj; [subst; intros; simplify_eq; by eapply Hs|apply Hs].
Qed.

Section Sync.
Variable word : string → bool.
Variable dump : MemoryEntry → value.
Variable cx : LegacyKb.ToolContext.

Lemma put_run e m b : memory_ok m → fresh_buffer b →
  match put dump e (m, b) with
  | (Ok _, (m', b')) => fresh_buffer b' ∧ memory_ok m' ∧ get (entry_id e) m' = Some e ∧
      (∀ j, j ≠ entry_id e → dget j (_store m') = dget j (_store m)) ∧
      get_chain (entry_id e) m' = get_chain (entry_id e) m ++ [e]
  | (Raise _, (m', b')) => m' = m ∧ fresh_buffer b'
  end.
Proof.
  intros Hm Hb. unfold put. destruct (decide _); [done|]. cbv zeta.
  pose proof (stage_memory_undoes dump MEMORY_ENTRY_WRITE (entry_id e)
    [("entry_id", VStr (entry_id e)); ("version", VInt (version e))] m b ltac:(unfold MEMORY_TYPES; set_solver) Hb) as H.
  destruct (stage_memory _ _ _ _ _ _) as [eff b']. destruct H as (Hb' & _ & _).
  destruct (_apply_write e m) as [[[]|x] m'] eqn:E; [|split; [by eapply apply_write_raise|done]].
  destruct (apply_write_ok _ _ _ Hm E) as (Hm' & _ & Hj & Hc). split_and!; [done|done| |done|done].
  unfold get_chain in Hc. unfold get. destruct (dget (entry_id e) (_store m')) as [c|] eqn:E'.
  - cbn. f_equal. pose proof (history_current c) as Hh. rewrite Hc in Hh.
    assert (length (newer c) = length (match dget (entry_id e) (_store m) with Some c => history c | None => [] end)) as Hl.
    { pose proof (f_equal length Hc) as Hl. rewrite history_length, length_app in Hl. simpl in Hl. lia. }
    rewrite Hl, list_lookup_middle in Hh by done. congruence.
  - by destruct (match dget (entry_id e) (_store m) with Some c => history c | None => [] end).
Qed.

(** A put with its change of the index: it succeeds and extends one chain, or raises. *)
Lemma store_put_run e m i s : tools_ok s → _lookup cx s = Some (m, i) →
  let '(r, s') := store_put dump cx m i e s in
  tools_ok s' ∧ recall_configs s' = recall_configs s ∧
  match r with
  | Ok _ => ∃ m', dget (LegacyKb.cx_agent cx) (agent_memories s') = Some m' ∧
      get_chain (entry_id e) m' = get_chain (entry_id e) m ++ [e] ∧
      (∀ j, j ≠ entry_id e → dget j (_store m') = dget j (_store m))
  | Raise _ => dget (LegacyKb.cx_agent cx) (agent_memories s') = Some m
  end.
Proof.
  intros Hok [Ha Hi]%lookup_some. pose proof Hok as (Hb & Hm & Hs). unfold store_put. rewrite run_bind. unfold on_memory.
  pose proof (put_run e m (transaction_buffer s) (Hm _ _ Ha) Hb) as Hp.
  destruct (put dump e (m, transaction_buffer s)) as [[eff|x] [m' b']]; cbn [modify].
  - destruct Hp as (Hb' & Hm' & He & Hj & Hc). split; [|split; [done|]].
    + apply tools_ok_write; [done|done|done|]. eapply sync_put; [by eapply Hs|done|done].
    + exists m'. cbn. by rewrite dget_dset_eq.
  - destruct Hp as [-> Hb']. split; [by apply tools_ok_staged|]. split; [done|]. cbn. by rewrite dget_dset_eq.
Qed.

Lemma fold_run id e m i (res_ : LegacyKb.ToolResult) s : tools_ok s → _lookup cx s = Some (m, i) →
  tools_ok ((on_memory (LegacyKb.cx_agent cx) m (fold dump id e);;
             modify (set_engine (LegacyKb.cx_agent cx) (on_fold e i));; mret res_) s).2.
Proof.
  intros Hok [Ha Hi]%lookup_some. pose proof Hok as (Hb & Hm & Hs). rewrite run_bind. unfold on_memory, fold.
  destruct (decide _) as [<-|]; [|by apply tools_ok_staged].
  destruct (dget (entry_id e) (_store m)) as [c|] eqn:E; [|by apply tools_ok_staged].
  pose proof (stage_memory_undoes dump MEMORY_ENTRY_FOLD (entry_id e)
    [("entry_id", VStr (entry_id e)); ("fold_to_version", VInt (version e))] m (transaction_buffer s)
    ltac:(unfold MEMORY_TYPES; set_solver) Hb) as H.
  destruct (stage_memory _ _ _ _ _ _) as [eff b']. destruct H as (Hb' & _ & _). rewrite run_bind. unfold modify. cbn [snd].
  apply tools_ok_write; [done|done|apply memory_ok_set; [by eapply Hm|apply chain_new_ok]|].
  eapply sync_put; [by eapply Hs| |].
  - unfold get. cbn [_store set_store]. by rewrite dget_dset_eq.
  - intros j Hj. cbn [_store set_store]. by rewrite dget_dset_ne.
Qed.

Lemma with_memory_ok name k s : tools_ok s →
  (∀ m i, _lookup cx s = Some (m, i) → tools_ok (k m i s).2) → tools_ok (with_memory name cx k s).2.
Proof.
  intros Hs Hk. unfold with_memory. rewrite run_bind. cbn [gets].
  change (gets (_lookup cx) s) with (Ok (_lookup cx s), s). cbv beta iota.
  destruct (_lookup cx s) as [[m i]|]; [by apply Hk|done].
Qed.
Lemma lift_bind {A B} (r : res A) (f : A → M subsystem B) s :
  (lift r ≫= f) s = match r with Ok a => f a s | Raise x => (Raise x, s) end.
Proof. by destruct r. Qed.
(** A put at the end of a handler. *)
Lemma put_then_ok e m i (res_ : LegacyKb.ToolResult) s : tools_ok s → _lookup cx s = Some (m, i) →
  tools_ok ((store_put dump cx m i e;; mret res_) s).2.
Proof.
  intros Hs Hl. rewrite run_bind. pose proof (store_put_run e m i s Hs Hl) as H.
  destruct (store_put dump cx m i e s) as [[[]|x] s']; apply H.
Qed.

Lemma handle_ok t s : tools_ok s → tools_ok (handle word dump cx t s).2.
Proof.
  intros Hs. destruct t as [id text ttl points|n id ttl sop at_ points task outcome note|id text ttl points|id points|id|id];
    cbn [handle].
  - unfold handle_memory_fold. destruct (_ || _); [done|]. apply with_memory_ok; [done|]. intros m i Hl.
    destruct (get id m) as [e|]; [|done]. rewrite lift_bind. destruct (_build_content _ _ _) as [c|]; [|done].
    rewrite lift_bind. destruct (revised _ _ _ _) as [e'|]; [|done].
    by apply fold_run.
  - unfold handle_memory_promote. apply with_memory_ok; [done|]. intros m i Hl. cbv zeta.
    destruct (_ && _); [done|]. destruct (if nonempty sop then _ else _) as [text|]; [|done].
    rewrite lift_bind. destruct (make_entry _ _ _ _ _ _ _ _) as [e|]; [|done]. by apply put_then_ok.
  - unfold handle_memory_edit. destruct (negb _); [done|]. apply with_memory_ok; [done|]. intros m i Hl.
    destruct (get id m) as [e|]; [|done]. rewrite lift_bind. destruct (if nonempty text then _ else _) as [c|]; [|done].
    rewrite lift_bind. destruct (revised _ _ _ _) as [e'|]; [|done]. by apply put_then_ok.
  - unfold handle_memory_retag. destruct (_ || _); [done|]. apply with_memory_ok; [done|]. intros m i Hl.
    destruct (get id m) as [e|]; [|done]. rewrite lift_bind. destruct (revised _ _ _ _) as [e'|]; [|done].
    by apply put_then_ok.
  - unfold handle_memory_evict. destruct (negb _); [done|]. apply with_memory_ok; [done|]. intros m i Hl.
    pose proof Hs as (Hb & Hm & Hsy). apply lookup_some in Hl as [Ha Hi]. rewrite run_bind. unfold on_memory, evict.
    destruct (dget id (_store m)) as [c|] eqn:E; [|by apply tools_ok_staged].
    pose proof (stage_memory_undoes dump MEMORY_ENTRY_EVICT id [("entry_id", VStr id)] m (transaction_buffer s)
      ltac:(unfold MEMORY_TYPES; set_solver) Hb) as H.
    destruct (stage_memory _ _ _ _ _ _) as [eff b']. destruct H as (Hb' & _ & _). rewrite run_bind. unfold modify.
    cbn [snd]. apply tools_ok_write; [done|done|apply memory_ok_pop; by eapply Hm|].
    eapply sync_evict; [by eapply Hsy|cbn [_store set_store]; by rewrite dget_dpop_eq|].
    intros j Hj. cbn [_store set_store]. by rewrite dget_dpop_ne.
  - unfold handle_memory_pin. destruct (negb _); [done|]. apply with_memory_ok; [done|]. intros m i Hl.
    rewrite run_bind. unfold gets. destruct (dget _ (recall_configs s)) as [c|]; [|done].
    destruct (get id m) as [e|]; [|done]. unfold pin_entry, apply_pin_effect.
    pose proof Hs as (Hb & Hm & Hsy).
    pose proof (stage_undo_spec MEMORY_PIN (LegacyKb.cx_agent cx)
      ("recall_config:" +:+ LegacyKb.cx_agent cx +:+ ":pin:" +:+ entry_id e)
      [("entry_id", VStr (entry_id e)); ("added_terms", strs (pin_added e c))]
      "recall_config_before" (strs (persistent_query_terms c)) _ Hb) as H.
    destruct (stage_undo _ _ _ _ _ _ _) as [eff b']. destruct H as (Hb' & _). by split.
Qed.
End Sync.

Definition tools_run (word : string → bool) (dump : MemoryEntry → value)
    (calls : list (LegacyKb.ToolContext * tool_call)) (s : subsystem) : subsystem :=
  foldl (λ s call, (handle word dump call.1 call.2 s).2) s calls.

(** C10: After any calls of the memory tools, by any agents and failing ones included, every version
    chain is well formed and the index of every agent knows exactly the triggers of the latest
    versions its memory holds. *)
Theorem memory_tools_in_sync word dump calls s : tools_ok s → tools_ok (tools_run word dump calls s).
Proof.
  revert s. induction calls as [|[cx t] calls IH]; intros s Hs; [done|]. cbn. apply IH. by apply handle_ok.
Qed.

(** ** What an edit does *)

Definition chain_of (a id : string) (s : subsystem) : list MemoryEntry :=
  match dget a (agent_memories s) with Some m => get_chain id m | None => [] end.
Definition extends (a id : string) (e : MemoryEntry) (s s' : subsystem) : Prop :=
  ∀ b j, chain_of b j s' = chain_of b j s ++ (if decide (b = a ∧ j = id) then [e] else []).
Definition same_chains (s s' : subsystem) : Prop := ∀ b j, chain_of b j s' = chain_of b j s.

Lemma store_put_chains dump cx e m i s : tools_ok s → _lookup cx s = Some (m, i) →
  let '(r, s') := store_put dump cx m i e s in
  match r with
  | Ok _ => extends (LegacyKb.cx_agent cx) (entry_id e) e s s'
  | Raise _ => same_chains s s'
  end.
Proof.
  intros Hok [Ha Hi]%lookup_some. pose proof Hok as (Hb & Hm & _). unfold store_put. rewrite run_bind. unfold on_memory.
  pose proof (put_run dump e m (transaction_buffer s) (Hm _ _ Ha) Hb) as Hp.
  destruct (put dump e (m, transaction_buffer s)) as [[eff|x] [m' b']]; cbn [modify].
  - destruct Hp as (_ & _ & _ & Hj & Hc). intros a j. unfold chain_of. cbn. rewrite dget_dset.
    destruct (decide (a = LegacyKb.cx_agent cx)) as [->|Hne].
    + rewrite Ha. destruct (decide (j = entry_id e)) as [->|Hne]; [by rewrite decide_True|].
      rewrite decide_False by naive_solver. rewrite app_nil_r. unfold get_chain. by rewrite Hj.
    + rewrite decide_False by naive_solver. by rewrite app_nil_r.
  - destruct Hp as [-> _]. intros a j. unfold chain_of. cbn. rewrite dget_dset. case_decide; [subst; by rewrite Ha|done].
Qed.

(** The outcome of a revision of the entry [id] with a change [change] of its latest version. *)
Definition revision (a id : string) (change : MemoryEntry → MemoryEntry → Prop) (r : res LegacyKb.ToolResult)
    (s s' : subsystem) : Prop :=
  (∃ res_ e e', r = Ok res_ ∧ LegacyKb.success res_ = true ∧ last (chain_of a id s) = Some e ∧
     extends a id e' s s' ∧ version e' = version e + 1 ∧ e_type e' = e_type e ∧ provenance e' = provenance e ∧
     associated e' = [] ∧ change e e') ∨
  ((∀ res_, r = Ok res_ → LegacyKb.success res_ = false) ∧ same_chains s s').

Lemma get_last id m e : get id m = Some e → last (get_chain id m) = Some e.
Proof.
  unfold get, get_chain. destruct (dget id (_store m)) as [c|]; [|done]. cbn. intros [= <-].
  rewrite last_lookup, history_length. apply history_current.
Qed.

Lemma revise_outcome dump name cx id ttl c points (change : MemoryEntry → MemoryEntry → Prop) flag s :
  tools_ok s →
  (∀ e c', c e = Ok c' →
     change e (mkEntry (entry_id e) (e_type e) (ttl e) c' (points e) [] (version e + 1) (provenance e))) →
  let '(r, s') := with_memory name cx (λ m i,
    match get id m with
    | None => mret (not_stored name id cx)
    | Some e => c' ← lift (c e); e' ← lift (revised e (ttl e) c' (points e));
                store_put dump cx m i e';; mret (done_ name cx (entry_id e) (version e') flag)
    end) s in
  revision (LegacyKb.cx_agent cx) id change r s s'.
Proof.
  intros Hs Hch. unfold with_memory. rewrite run_bind. unfold gets.
  destruct (_lookup cx s) as [[m i]|] eqn:El; [|by right; split; [intros ? [= <-]|]].
  destruct (get id m) as [e|] eqn:Eg; [|by right; split; [intros ? [= <-]|]].
  rewrite lift_bind. destruct (c e) as [c'|] eqn:Ec; [|by right]. rewrite lift_bind.
  destruct (revised e (ttl e) c' (points e)) as [e'|] eqn:Er; [|by right].
  rewrite run_bind. pose proof (store_put_chains dump cx e' m i s Hs El) as Hp.
  destruct (store_put dump cx m i e' s) as [[[]|x] s']; [|by right]. left.
  destruct (lookup_some _ _ _ _ El) as [Ha _].
  assert (entry_id e = id) as Hid by (eapply get_some; [by eapply Hs|done]).
  unfold revised, entry_new in Er. destruct (_ <? 1); [done|]. destruct (decide _); [|done]. simplify_eq.
  eexists _, e, _. split; [done|]. split; [done|]. split; [|split; [exact Hp|]].
  - unfold chain_of. rewrite Ha. by apply get_last.
  - cbn. split_and!; try done. by apply Hch.
Qed.

(** An edit of a memory of the agent's own appends one version, with the texts and points given,
    the others kept and the associated identifiers dropped, to that chain and no other; an edit that
    is refused or raises leaves every memory of every agent as it was. *)
Theorem edit_outcome word dump cx id text ttl points s : tools_ok s →
  let '(r, s') := handle_memory_edit word dump cx id text ttl points s in
  revision (LegacyKb.cx_agent cx) id (λ e e',
    title e' = or_else ttl (title e) ∧ memory_points e' = default (memory_points e) points ∧
    (text = "" → e_content e' = e_content e) ∧ (text ≠ "" → _build_content word (e_type e) text = Ok (e_content e')))
    r s s'.
Proof.
  intros Hs. unfold handle_memory_edit. destruct (negb (nonempty id)); [by right; split; [intros ? [= <-]|]|].
  apply (revise_outcome dump "memory_edit" cx id (λ e, or_else ttl (title e))
    (λ e, if nonempty text then _build_content word (e_type e) text else Ok (e_content e))
    (λ e, default (memory_points e) points)); [done|].
  intros e c'. cbn. unfold nonempty. case_bool_decide as Ht; cbn; intros Hc; split_and!; try done; naive_solver.
Qed.
Lemma retag_outcome dump cx id points s : tools_ok s →
  let '(r, s') := handle_memory_retag dump cx id points s in
  revision (LegacyKb.cx_agent cx) id (λ e e',
    title e' = title e ∧ e_content e' = e_content e ∧ memory_points e' = points) r s s'.
Proof.
  intros Hs. unfold handle_memory_retag. destruct (_ || _); [by right; split; [intros ? [= <-]|]|].
  pose proof (revise_outcome dump "memory_retag" cx id (λ e, title e) (λ e, Ok (e_content e)) (λ _, points)
    (λ e e', title e' = title e ∧ e_content e' = e_content e ∧ memory_points e' = points) "retagged" s Hs) as H.
  apply H. intros e c' [= <-]. done.
Qed.

(** ** Consolidation: what a model wrote *)

(** The text before and after the first [sub]. *)
Fixpoint find_sub (sub s : string) : option (string * string) :=
  if startswith sub s then Some ("", str_drop (String.length sub) s) else
  match s with
  | EmptyString => None
  | String c s' => match find_sub sub s' with Some (a, b) => Some (String c a, b) | None => None end
  end.
(** The contents of the fenced blocks: [_JSON_FENCE_RE.findall], up to white space around them. *)
Fixpoint fences (fuel : nat) (s : string) : list string :=
  match fuel with
  | O => []
  | S f =>
      match find_sub "```" s with
      | None => []
      | Some (_, rest) =>
          match find_sub "```" (removeprefix "json" rest) with
          | Some (block, rest) => block :: fences f rest
          | None => []
          end
      end
  end.
Definition fence_blocks (s : string) : list string := fences (String.length s) s.

(** [s[:s.rfind(c) + 1]] *)
Fixpoint upto_last (c : ascii) (s : string) : string :=
  match s with
  | EmptyString => ""
  | String a s' =>
      let r := upto_last c s' in
      if nonempty r then String a r else if decide (a = c) then String a "" else ""
  end.
Definition between_braces (s : string) : list string :=
  match find_sub "{" s with
  | Some (a, b) => if str_has "}"%char s then [upto_last "}"%char ("{" +:+ b)] else []
  | None => []
  end.

Fixpoint first_object (l : list string) : option (dict value) :=
  match l with
  | [] => None
  | s :: l' => match loads s with Some (VDict d) => Some d | _ => first_object l' end
  end.
Definition _extract_json_object (text : string) : option (dict value) :=
  first_object (map strip (fence_blocks text) ++ [strip text] ++ between_braces text).

Record ConsolidationSummary := mkSummary {
  reflection_and_growth : string; lessons_learned : string; process_optimization : string;
  memory_links : list string; assigner_ref : string; kpi_ref : string }.
Record ConsolidationOutput := mkOutput { o_summary : option ConsolidationSummary; exit_requested : bool }.

Section Parse.
Variable validate_summary : dict value → option ConsolidationSummary.

Definition parse_consolidation_output (content : string) : ConsolidationOutput :=
  match _extract_json_object content with
  | None => mkOutput None false
  | Some obj =>
      mkOutput (match dget "consolidation_summary" obj with Some (VDict d) => validate_summary d | _ => None end)
        (truthy (default (VBool false) (dget "exit" obj)))
  end.
Definition parse_consolidation_summary (content : string) : option ConsolidationSummary :=
  o_summary (parse_consolidation_output content).
End Parse.

Definition parse_consolidation_request (content : string) : bool :=
  str_contains "memory_consolidate" (lower content) || str_contains "consolidate memory" (lower content)
  || match _extract_json_object content with
     | Some obj => truthy (default (VBool false) (dget "memory_consolidate" obj))
     | None => false
     end.

(** ** The gate *)

Record ConsolidationConfig := mkGate { enter_ratio : Q; exit_ratio : Q }.
Definition ConsolidationConfig_default : ConsolidationConfig := mkGate (9 # 10) (8 # 10).
Definition gate_new (g : ConsolidationConfig) : res ConsolidationConfig :=
  let unit q := Qle_bool 0 q && Qle_bool q 1 in
  if unit (enter_ratio g) && unit (exit_ratio g) then Ok g
  else Raise (Exn ValidationError "a ratio must lie between 0 and 1").
Definition should_enter (g : ConsolidationConfig) (pending : bool) (usage : Q) (active : bool) : bool :=
  active || pending || Qle_bool (enter_ratio g) usage.
Definition should_exit (g : ConsolidationConfig) (usage : Q) (self_decided : bool) : bool :=
  self_decided || negb (Qle_bool (exit_ratio g) usage).

Abbreviation cont := LegacyContinuation.AgentContinuation.
Definition in_session (c : cont) : bool := bool_decide (LegacyContinuation.resume_phase c ≠ None).
Definition pending_result (c : cont) : bool :=
  bool_decide (LegacyContinuation.phase c = LegacyContinuation.PROCESSING_RESULT)
  && (bool_decide (LegacyContinuation.last_llm_result c ≠ [])
      || bool_decide (LegacyContinuation.last_tool_result c ≠ [])).
(** The gate of [_phase_decide], before the agent decides. *)
Definition decide_gate (g : ConsolidationConfig) (pending : bool) (usage : Q) (tick : Z) (c : cont) : cont :=
  if pending_result c then c
  else if negb (in_session c) && should_enter g pending usage false
  then LegacyContinuation.enter_consolidating tick c
  else if in_session c && should_exit g usage false
  then LegacyContinuation.exit_consolidating tick c
  else c.

(** ** Summaries *)

Definition summary_lines (s : ConsolidationSummary) : list string :=
  ["反思与进步: " +:+ reflection_and_growth s; "经验教训: " +:+ lessons_learned s;
   "流程优化: " +:+ process_optimization s]
  ++ (match memory_links s with [] => [] | l => ["记忆链接: " +:+ str_join ", " l] end)
  ++ (if nonempty (assigner_ref s) || nonempty (kpi_ref s)
      then ["JUDGE 预留: assigner_ref=" +:+ or_else (assigner_ref s) "-" +:+ ", kpi_ref=" +:+ or_else (kpi_ref s) "-"]
      else []).
Definition make_summary_entry (word : string → bool) (new_id : string) (s : ConsolidationSummary) (agent : string)
    (tick : Z) : res MemoryEntry :=
  make_entry word new_id ("整理摘要 tick" +:+ pretty tick) (SkillContent (str_join newline (summary_lines s)) (memory_links s))
    (memory_links s) [] 1
    (Some (mkProvenance OWN None [] ("consolidating:" +:+ agent +:+ ":" +:+ pretty tick))).

Section Write.
Variable word : string → bool.
Variable dump : MemoryEntry → value.
Variable validate_summary : dict value → option ConsolidationSummary.

Definition write_summary_entry (new_id : string) (cx : LegacyKb.ToolContext) (m : AgentMemory) (i : RecallIndex)
    (s : ConsolidationSummary) : M subsystem MemoryEntry :=
  e ← lift (make_summary_entry word new_id s (LegacyKb.cx_agent cx) (LegacyKb.cx_tick cx));
  store_put dump cx m i e;; mret e.

Definition _write_consolidation_summary (new_id : string) (cx : LegacyKb.ToolContext) (d : dict value) :
    M subsystem () :=
  match validate_summary d with
  | None => raise ValidationError "not a summary"
  | Some s =>
      found ← gets (_lookup cx);
      match found with
      | None => raise RuntimeError ("agent " +:+ LegacyKb.cx_agent cx +:+ " 无记忆子系统（未接线）")
      | Some (m, i) => write_summary_entry new_id cx m i s;; mret ()
      end
  end.

(** A [MemoryConsolidateIntent] in the Validate phase of a tick: the result of the action. *)
Inductive consolidate_result := CPhase (p : string) | CFailed (msg : string) (code : option string).
Definition phase_text (c : option cont) : string :=
  match c with Some c => LegacyContinuation.phase_value (LegacyContinuation.phase c) | None => "unknown" end.
Definition consolidate_intent (new_id action : string) (structured : dict value) (cx : LegacyKb.ToolContext)
    (c : option cont) (s : subsystem) : consolidate_result * option cont * subsystem :=
  if decide (action = "enter") then
    let c := (λ c, if in_session c then c else LegacyContinuation.enter_consolidating (LegacyKb.cx_tick cx) c) <$> c in
    (CPhase (phase_text c), c, s)
  else if decide (action = "exit") then
    match c with
    | Some c =>
        if in_session c then
          let '(r, s) := match structured with
                         | [] => (Ok (), s)
                         | _ => _write_consolidation_summary new_id cx structured s
                         end in
          match r with
          | Raise _ => (CFailed "摘要写入失败" None, Some c, s)
          | Ok _ => let c := LegacyContinuation.exit_consolidating (LegacyKb.cx_tick cx) c in
                    (CPhase (phase_text (Some c)), Some c, s)
          end
        else (CPhase (phase_text (Some c)), Some c, s)
    | None => (CPhase "unknown", None, s)
    end
  else (CFailed ("未知 memory_consolidate action: " +:+ action) (Some "INVALID_ARGUMENT"), c, s).
End Write.

(** ** Reading *)

Lemma str_drop_app p t : str_drop (String.length p) (p +:+ t) = t.
Proof. apply substring_app. Qed.
Lemma startswith_split p s : startswith p s = true → s = p +:+ str_drop (String.length p) s.
Proof.
  intros H. assert (∃ t, s = p +:+ t) as [t ->]; [|by rewrite str_drop_app].
  revert s H. unfold startswith. induction p as [|c p IH]; intros s H; [by exists s|].
  destruct s as [|a s]; [done|]. cbn in H. destruct (Ascii.ascii_dec c a) as [->|]; [|done].
  destruct (IH s H) as [t ->]. by exists t.
Qed.
Lemma find_sub_split sub s a b : find_sub sub s = Some (a, b) → s = a +:+ sub +:+ b.
Proof.
  revert a b. induction s as [|c s IH]; intros a b; cbn [find_sub].
  - destruct (startswith sub "") eqn:E; [|done]. intros [= <- <-]. by apply startswith_split.
  - destruct (startswith sub (String c s)) eqn:E; [intros [= <- <-]; by apply startswith_split|].
    destruct (find_sub sub s) as [[a' b']|]; [|done]. intros [= <- <-].
    by rewrite (IH a' b' eq_refl) at 1.
Qed.
Lemma removeprefix_length p s : (String.length (removeprefix p s) ≤ String.length s)%nat.
Proof.
  unfold removeprefix. destruct (startswith p s) eqn:E; [|done].
  apply startswith_split in E. rewrite E at 2. rewrite length_str_app. lia.
Qed.

(** The fuel of [fence_blocks] is enough. *)
Lemma fences_enough f s : (String.length s ≤ f)%nat → fences f s = fence_blocks s.
Proof.
  unfold fence_blocks. assert (∀ f g s, (String.length s ≤ f)%nat → (String.length s ≤ g)%nat → fences f s = fences g s) as H.
  2:{ intros. by apply H. }
  clear. induction f as [|f IH]; intros [|g] s Hf Hg; cbn [fences].
  - done.
  - assert (s = "") as -> by (destruct s; [done|cbn in Hf; lia]). done.
  - assert (s = "") as -> by (destruct s; [done|cbn in Hg; lia]). done.
  - destruct (find_sub "```" s) as [[a b]|] eqn:E; [|done]. apply find_sub_split in E.
    destruct (find_sub "```" (removeprefix "json" b)) as [[c d]|] eqn:E2; [|done]. apply find_sub_split in E2. f_equal.
    pose proof (removeprefix_length "json" b) as Hl. rewrite E2 in Hl. rewrite E in Hf, Hg.
    rewrite !length_str_app in *. cbn [String.length] in *. apply IH; lia.
Qed.

Lemma find_sub_here sub t : find_sub sub (sub +:+ t) = Some ("", t).
Proof.
  pose proof (prefix_app sub t) as H. pose proof (str_drop_app sub t) as Hd.
  destruct (sub +:+ t) as [|c s]; cbn [find_sub]; unfold startswith; by rewrite H, Hd.
Qed.

(** A fence that opens with no fence before it. *)
Definition no_tick (s : string) : Prop := str_has "`"%char s = false.
Lemma no_tick_cons c s : no_tick (String c s) → c ≠ "`"%char ∧ no_tick s.
Proof. unfold no_tick. cbn. intros [H ?]%orb_false_iff. split; [by apply bool_decide_eq_false in H|done]. Qed.
Lemma find_fence a b : no_tick a → find_sub "```" (a +:+ "```" +:+ b) = Some (a, b).
Proof.
  induction a as [|c a IH]; intros Ha.
  - apply (find_sub_here "```" b).
  - apply no_tick_cons in Ha as [Hc Ha]. change (String c a +:+ "```" +:+ b) with (String c (a +:+ "```" +:+ b)).
    cbn [find_sub]. assert (startswith "```" (String c (a +:+ "```" +:+ b)) = false) as ->.
    { unfold startswith. cbn [String.prefix]. destruct (Ascii.ascii_dec "`" c); [congruence|done]. }
    by rewrite IH.
Qed.

(** An answer that ends with the block the directive asks for is read, whatever text surrounds it. *)
Lemma answer_read before block after d :
  no_tick before → no_tick block → loads (strip block) = Some (VDict d) →
  _extract_json_object (before +:+ "```json" +:+ block +:+ "```" +:+ after) = Some d.
Proof.
  intros Hb Hk Hd. unfold _extract_json_object.
  assert (∃ l, fence_blocks (before +:+ "```json" +:+ block +:+ "```" +:+ after) = block :: l) as [l ->].
  { unfold fence_blocks. set (s := before +:+ _).
    assert (Hs : s = before +:+ "```" +:+ ("json" +:+ (block +:+ "```" +:+ after))) by done.
    destruct (String.length s) as [|f] eqn:Ef.
    { rewrite Hs, !length_str_app in Ef. cbn in Ef. lia. }
    cbn [fences]. rewrite Hs, find_fence by done. unfold removeprefix, startswith. rewrite prefix_app, str_drop_app.
    rewrite find_fence by done. by eexists. }
  cbn [map app first_object]. by rewrite Hd.
Qed.

(** ** Sessions *)

(** The gate of a tick starts a session only for a pending consolidation or at the entry ratio,
    ends one only below the exit ratio, leaves a continuation alone in between, and never comes
    before a result that waits to be processed. *)
Theorem gate_hysteresis g pending usage tick c :
  let c' := decide_gate g pending usage tick c in
  (in_session c = false → in_session c' = true →
     (pending = true ∨ (enter_ratio g <= usage)%Q) ∧
     LegacyContinuation.resume_phase c' = Some (LegacyContinuation.phase c)) ∧
  (in_session c = true → in_session c' = false →
     (usage < exit_ratio g)%Q ∧ LegacyContinuation.resume_phase c = Some (LegacyContinuation.phase c')) ∧
  (pending = false → (exit_ratio g <= usage)%Q → (usage < enter_ratio g)%Q → c' = c) ∧
  (pending_result c = true → c' = c).
Proof.
  unfold decide_gate. cbv zeta. destruct (pending_result c) eqn:Ep; [split_and!; congruence|].
  unfold should_enter, should_exit. cbn [orb].
  destruct (in_session c) eqn:Es; cbn [negb andb].
  - destruct (Qle_bool (exit_ratio g) usage) eqn:Ex; cbn [negb].
    + split_and!; congruence.
    + split_and!; [congruence| | |congruence].
      * intros _. unfold LegacyContinuation.exit_consolidating.
        unfold in_session in Es. destruct (LegacyContinuation.resume_phase c) as [p|]; [|done].
        intros _. split; [|done]. apply Qnot_le_lt. intros H%Qle_bool_iff. congruence.
      * intros _ H _. apply Qle_bool_iff in H. congruence.
  - destruct (pending || Qle_bool (enter_ratio g) usage) eqn:Ee.
    + split_and!; [|congruence| |congruence].
      * intros _. unfold LegacyContinuation.enter_consolidating. set (x := orb _ _). intros Hin.
        assert (x = false) as Hx by (destruct x; [congruence|done]). rewrite Hx in *. split; [|done].
        apply orb_true_iff in Ee as [->|He]; [by left|right; by apply Qle_bool_iff].
      * intros -> _ H. cbn in Ee. apply Qle_bool_iff in Ee. by apply Qlt_not_le in H.
    + split_and!; congruence.
Qed.

Section Intents.
Variable word : string → bool.
Variable dump : MemoryEntry → value.
Variable validate_summary : dict value → option ConsolidationSummary.

(** A session an agent asks for is over before the agent decides again, unless its memory is
    nearly full: the gate of the next tick ends it. *)
Lemma requested_session_over g cx new_id structured c s t' pending usage :
  in_session c = false → LegacyContinuation.phase c ≠ LegacyContinuation.CONSOLIDATING →
  (usage < exit_ratio g)%Q →
  let '(r, c', s') := consolidate_intent word dump validate_summary new_id "enter" structured cx (Some c) s in
  r = CPhase "consolidating" ∧ s' = s ∧
  ∃ c1, c' = Some c1 ∧ in_session c1 = true ∧ in_session (decide_gate g pending usage t' c1) = false ∧
    LegacyContinuation.phase (decide_gate g pending usage t' c1) = LegacyContinuation.phase c.
Proof.
  intros Hs Hp Hu. unfold consolidate_intent. rewrite decide_True by done. cbn [fmap option_fmap option_map]. rewrite Hs.
  unfold in_session in Hs. apply bool_decide_eq_false in Hs.
  assert (LegacyContinuation.enter_consolidating (LegacyKb.cx_tick cx) c =
    LegacyContinuation._log "enter_consolidating"
      [("resume_phase", VStr (LegacyContinuation.phase_value (LegacyContinuation.phase c)));
       ("tick", VInt (LegacyKb.cx_tick cx))]
      (LegacyContinuation.set_phase LegacyContinuation.CONSOLIDATING (Some (LegacyContinuation.phase c)) c)) as ->.
  { unfold LegacyContinuation.enter_consolidating. by rewrite !bool_decide_eq_false_2. }
  split; [done|]. split; [done|]. eexists. split; [done|]. split; [done|].
  unfold decide_gate, pending_result. cbn. unfold should_exit. cbn.
  assert (Qle_bool (exit_ratio g) usage = false) as ->; [|done].
  apply not_true_iff_false. intros H%Qle_bool_iff. by apply Qlt_not_le in Hu.
Qed.

(** An exit either ends the session, back in the phase it interrupted, with the summary stored
    and findable by each of its links, or fails with the session and every memory as before. *)
Theorem exit_outcome new_id structured cx c p s :
  tools_ok s → LegacyContinuation.resume_phase c = Some p →
  let '(r, c', s') := consolidate_intent word dump validate_summary new_id "exit" structured cx (Some c) s in
  tools_ok s' ∧
  ((r = CPhase (LegacyContinuation.phase_value p) ∧
    (∃ c1, c' = Some c1 ∧ LegacyContinuation.phase c1 = p ∧ in_session c1 = false) ∧
    match validate_summary structured with
    | Some sm => structured = [] ∧ s' = s ∨
        ∃ e, extends (LegacyKb.cx_agent cx) new_id e s s' ∧ memory_points e = memory_links sm ∧
          ∀ l u, l ∈ memory_links sm → nonempty l = true → lower u = lower l → term_hits u e = true
    | None => structured = [] ∧ s' = s
    end)
   ∨ (r = CFailed "摘要写入失败" None ∧ c' = Some c ∧ same_chains s s')).
Proof.
  intros Hs Hr. unfold consolidate_intent. rewrite decide_False, decide_True by done.
  assert (in_session c = true) as -> by (unfold in_session; by rewrite Hr).
  assert (Hx : ∃ c1, Some (LegacyContinuation.exit_consolidating (LegacyKb.cx_tick cx) c) = Some c1 ∧
                 LegacyContinuation.phase c1 = p ∧ in_session c1 = false).
  { eexists. split; [done|]. unfold LegacyContinuation.exit_consolidating. by rewrite Hr. }
  assert (Hph : phase_text (Some (LegacyContinuation.exit_consolidating (LegacyKb.cx_tick cx) c)) =
                LegacyContinuation.phase_value p).
  { unfold LegacyContinuation.exit_consolidating. by rewrite Hr. }
  destruct structured as [|kv d] eqn:Ed.
  { rewrite Hph. split; [done|]. left. split; [done|]. split; [done|]. destruct (validate_summary []); [by left|done]. }
  unfold _write_consolidation_summary. destruct (validate_summary (kv :: d)) as [sm|]; [|split; [done|by right]].
  rewrite run_bind. unfold gets. destruct (_lookup cx s) as [[m i]|] eqn:El; [|split; [done|by right]].
  rewrite run_bind. unfold write_summary_entry. rewrite lift_bind.
  destruct (make_summary_entry _ _ _ _ _) as [e|] eqn:Ee; [|split; [done|by right]].
  rewrite run_bind. pose proof (store_put_run dump cx e m i s Hs El) as Hrun.
  pose proof (store_put_chains dump cx e m i s Hs El) as Hc.
  destruct (store_put dump cx m i e s) as [[[]|x] s1]; destruct Hrun as (Hok & _); [|split; [done|by right]].
  cbn [mret M_ret]. rewrite Hph. split; [done|]. left. split; [done|]. split; [done|]. right. exists e.
  unfold make_summary_entry, make_entry in Ee. destruct (content_new _ _) as [c0|]; [|done]. cbn in Ee.
  unfold entry_new in Ee. cbn in Ee. destruct (decide _); [|done]. simplify_eq. cbn in Hc |- *.
  split; [done|]. split; [done|]. intros l u Hl Hn Hu. eapply term_hits_own; [|done].
  unfold pin_terms. apply elem_of_bfilter. split; [|done]. by right.
Qed.
End Intents.

(** *** Sample data *)

Definition cx : LegacyKb.ToolContext := LegacyKb.Context_ "ann" 7.
Definition ann : subsystem :=
  mkSub [("ann", (filled library).1)] [("ann", (filled library).2)] [("ann", RecallConfig_init)] TransactionBuffer_init.
Lemma ann_ok : tools_ok ann.
Proof.
  split; [apply buffer_init_fresh|]. split.
  - intros a m. cbn [agent_memories ann dget]. case_decide; [|done]. intros [= <-]. apply (proj1 (filled_ok library)).
  - intros a m i. cbn [agent_memories recall_engines ann dget]. case_decide; [|done]. intros [= <-] [= <-]. apply (proj2 (filled_ok library)).
Qed.

Definition sample_calls : list (LegacyKb.ToolContext * tool_call) :=
  [(cx, TEdit "a" "pay back" "" None); (cx, TFold "a" "pay" "Money" (Some ["cash"])); (cx, TRetag "b" ["anger"]);
   (cx, TEvict "c"); (cx, TPin "b"); (cx, TPromote "d" "a" "" "" [] ["cash"] "t1" "completed" "")].
Lemma memory_tools_in_sync_witness :
  map version (chain_of "ann" "a" (tools_run no_word write_entry sample_calls ann)) = [3] ∧
  tools_ok (tools_run no_word write_entry sample_calls ann).
Proof. split; [by vm_compute|]. apply (memory_tools_in_sync no_word write_entry sample_calls), ann_ok. Defined.

(** The identifiers associated with an entry do not survive an edit of its title. *)
Example edit_drops_associated :
  let e := mkEntry "a" M_TASK "Refund" (TaskContent "" "" "") [] ["agent-7"] 1 EntryProvenance_default in
  let s := mkSub [("ann", AgentMemory_init "ann")] [("ann", RecallIndex_init)] [] TransactionBuffer_init in
  let s1 := (store_put write_entry cx (AgentMemory_init "ann") RecallIndex_init e s).2 in
  let s2 := (handle_memory_edit no_word write_entry cx "a" "" "Repay" None s1).2 in
  map associated (chain_of "ann" "a" s2) = [["agent-7"]; []].
Proof. by vm_compute. Qed.

Lemma edit_outcome_witness :
  let '(r, s') := handle_memory_edit no_word write_entry cx "a" "text" "" None ann in
  revision "ann" "a" (λ e e',
    title e' = or_else "" (title e) ∧ memory_points e' = default (memory_points e) None ∧
    ("text" = "" → e_content e' = e_content e) ∧
    ("text" ≠ "" → _build_content no_word (e_type e) "text" = Ok (e_content e')))
    r ann s'.
Proof. apply (edit_outcome no_word write_entry cx "a" "text" "" None ann ann_ok). Defined.

Definition idle (p : option LegacyContinuation.ContinuationPhase) : cont :=
  LegacyContinuation.set_phase LegacyContinuation.CONSOLIDATING p (LegacyContinuation.AgentContinuation_init "ann").
Definition links (l : list string) (d : dict value) : option ConsolidationSummary := Some (mkSummary "grew" "" "" l "" "").
(** A summary that links a memory by its identifier is refused, and the session goes on. *)
Example link_by_id_fails :
  let '(r, c, _) := consolidate_intent no_word write_entry (links [sample_id]) "n" "exit" [("memory_links", VNone)] cx
                      (Some (idle (Some LegacyContinuation.FRESH))) ann in
  r = CFailed "摘要写入失败" None ∧ c = Some (idle (Some LegacyContinuation.FRESH)).
Proof. by vm_compute. Qed.

Lemma exit_outcome_witness :
  let d := [("reflection_and_growth", VStr "grew")] in
  let '(r, c', s') := consolidate_intent no_word write_entry (links ["refund"]) "n" "exit" d cx
                        (Some (idle (Some LegacyContinuation.FRESH))) ann in
  tools_ok s' ∧
  ((r = CPhase "fresh" ∧
    (∃ c1, c' = Some c1 ∧ LegacyContinuation.phase c1 = LegacyContinuation.FRESH ∧ in_session c1 = false) ∧
    (d = [] ∧ s' = ann ∨
     ∃ e, extends "ann" "n" e ann s' ∧ memory_points e = ["refund"] ∧
       ∀ l u, l ∈ ["refund"] → nonempty l = true → lower u = lower l → term_hits u e = true))
   ∨ (r = CFailed "摘要写入失败" None ∧ c' = Some (idle (Some LegacyContinuation.FRESH)) ∧ same_chains ann s')).
Proof.
  apply (exit_outcome no_word write_entry (links ["refund"]) "n" [("reflection_and_growth", VStr "grew")] cx
           (idle (Some LegacyContinuation.FRESH)) LegacyContinuation.FRESH ann); [apply ann_ok|done].
Defined.
