(* ===== verification/LegacyContext.v ===== *)
(** * Contexts of agents in the previous architecture (legacy/context_compiler.py)

    What an agent sees in a tick: a fixed part of its memory, granted by the Authority, a recalled
    part, both within budgets of tokens, and the sections of the snapshot that concern it.

    A snapshot has the shape the simulation gives it, with strings for texts.  The recall uses the
    keyword backend, which raises nothing.  The text of a percentage is a parameter, as is the
    directory of an agent. *)

From stdpp Require Import base gmap strings list pretty sorting.
From Stdlib Require Import ZArith QArith Sorted Ascii Lia.
From S2P Require Import Prelude PyValue.
From S2P Require LegacyKb LegacyOrg Sha256.
From S2P Require Import LlmRuntime LegacyMemory LegacyRecall LegacyMemoryTools.

Open Scope string_scope.
Open Scope list_scope.
Open Scope Z_scope.

Definition _UNOVERRIDABLE_SOURCE_TAGS : list string := ["[POLICY]"; "[POSITION_JD]"].
Definition _UNTRUSTED_SOURCE_TAGS : list string := ["[UNTRUSTED_CUSTOMER_CONTENT]"].

Inductive DetailLevel := FULL | SUMMARY | TITLE_ONLY.
#[global] Instance DetailLevel_eq_dec : EqDecision DetailLevel.
Proof. solve_decision. Defined.
Definition detail_value (d : DetailLevel) : string :=
  match d with FULL => "full" | SUMMARY => "summary" | TITLE_ONLY => "title_only" end.

Record InjectionSlot := mkSlot {
  s_tag : string; priority_class : string; detail_level : DetailLevel; s_content : string;
  entry_ref : string; stamp_token : string }.
Definition is_untrusted (s : InjectionSlot) : bool := bool_decide (s_tag s ∈ _UNTRUSTED_SOURCE_TAGS).
Definition is_unoverridable (s : InjectionSlot) : bool := bool_decide (s_tag s ∈ _UNOVERRIDABLE_SOURCE_TAGS).

(** ** Layouts *)

Record InjectionLayout := mkLayout {
  fixed_slots : list InjectionSlot; recalled_slots : list InjectionSlot;
  pending_consolidation : bool; fixed_usage_ratio : Q }.
Definition all_slots (l : InjectionLayout) : list InjectionSlot := fixed_slots l ++ recalled_slots l.
Definition with_ref (l : InjectionLayout) : list InjectionSlot :=
  List.filter (λ s, nonempty (entry_ref s)) (all_slots l).
Definition layout_refs (l : InjectionLayout) : list string := map entry_ref (with_ref l).
(** [s[:n]] in code points *)
Definition take_chars (n : nat) (s : string) : string := fold_right String.append "" (take n (utf8_chars s)).
Definition stamp_hash (l : InjectionLayout) : string :=
  take_chars 16 (Sha256.hexdigest (str_join "|"
    (map (λ s, entry_ref s +:+ ":" +:+ stamp_token s +:+ ":" +:+ detail_value (detail_level s)) (all_slots l)))).
Definition to_meta_dict (l : InjectionLayout) : dict value :=
  [("layout_refs", strs (layout_refs l));
   ("detail_levels", VDict (foldl (λ d s, dset (entry_ref s) (VStr (detail_value (detail_level s))) d) [] (with_ref l)));
   ("stamp_hash", VStr (stamp_hash l)); ("pending_consolidation", VBool (pending_consolidation l));
   ("fixed_usage_ratio", VFloat (fixed_usage_ratio l));
   ("fixed_count", VInt (Z.of_nat (length (fixed_slots l)))); ("recalled_count", VInt (Z.of_nat (length (recalled_slots l))))].

(** ** Policies *)

Inductive TaskScope := FOCUS | OWNED | SUBTREE | ALL.
Inductive ObservationSection :=
| MISSION | TASK_TREE_SUMMARY | TASK_DETAIL | KPI_DASHBOARD | EMAILS | KB_SNAPSHOT | WORKSPACE_FILES
| LOCK_STATES | ESCALATIONS | PENDING_DECISIONS.
Record ObservationPolicy := mkPolicy {
  sections : list ObservationSection; task_scope : TaskScope; kb_injection : bool; max_tokens : Z;
  include_email_body : bool }.
Definition ObservationPolicy_default : ObservationPolicy := mkPolicy [TASK_DETAIL; EMAILS] ALL true 8000 true.
Definition DEFAULT_POLICIES : dict ObservationPolicy :=
  [("root_decision_agent",
    mkPolicy [MISSION; TASK_TREE_SUMMARY; KPI_DASHBOARD; ESCALATIONS; PENDING_DECISIONS; EMAILS; KB_SNAPSHOT]
      ALL true 8000 true);
   ("manager", mkPolicy [TASK_TREE_SUMMARY; TASK_DETAIL; EMAILS; KB_SNAPSHOT] SUBTREE true 6000 true);
   ("worker", mkPolicy [TASK_DETAIL; EMAILS; WORKSPACE_FILES; KB_SNAPSHOT] FOCUS true 4000 true)].

Definition _estimate_tokens (text : string) : Z := Z.max 1 (Z.of_nat (length (utf8_chars text)) / 4).

(** ** Fixed injection *)

(** One injection per entity, that of the least priority. *)
Definition keep_best (best : dict LegacyOrg.MemoryInjection) (j : LegacyOrg.MemoryInjection) :
    dict LegacyOrg.MemoryInjection :=
  match dget (LegacyOrg.m_entity j) best with
  | Some b => if LegacyOrg.m_priority j <? LegacyOrg.m_priority b then dset (LegacyOrg.m_entity j) j best else best
  | None => dset (LegacyOrg.m_entity j) j best
  end.
Definition best_of_raw (raw : list LegacyOrg.MemoryInjection) : list LegacyOrg.MemoryInjection :=
  dvalues (foldl keep_best [] raw).

Definition key_leb (i j : LegacyOrg.MemoryInjection) : bool :=
  if LegacyOrg.m_priority i =? LegacyOrg.m_priority j
  then String.leb (LegacyOrg.m_entity i) (LegacyOrg.m_entity j)
  else LegacyOrg.m_priority i <? LegacyOrg.m_priority j.
Definition fixed_injections (raw : list LegacyOrg.MemoryInjection) : list LegacyOrg.MemoryInjection :=
  py_sorted key_leb (List.filter (λ j, LegacyOrg.m_priority j <? 10) (best_of_raw raw)).

Definition tag_of (j : LegacyOrg.MemoryInjection) : string := or_else (LegacyOrg.m_tag j) "[MEMORY]".
Definition untrusted (j : LegacyOrg.MemoryInjection) : bool := bool_decide (tag_of j ∈ _UNTRUSTED_SOURCE_TAGS).
Definition slot_of (class : string) (j : LegacyOrg.MemoryInjection) : InjectionSlot :=
  mkSlot (tag_of j) class FULL (LegacyOrg.m_content j) (LegacyOrg.m_entity j)
    ("v:" +:+ pretty (LegacyOrg.m_priority j) +:+ ":" +:+ take_chars 8 (Sha256.hexdigest (LegacyOrg.m_content j))).

(** The loop: the slots, the tokens used, the tokens asked for, and whether something was left out. *)
Record fixed_state := mkFixed { f_slots : list InjectionSlot; f_used : Z; f_demand : Z; f_pending : bool }.
Definition fixed_turn (budget : Z) (st : fixed_state) (j : LegacyOrg.MemoryInjection) : fixed_state :=
  if untrusted j then st else
  let tok := _estimate_tokens (LegacyOrg.m_content j) in
  if budget <? f_used st + tok then mkFixed (f_slots st) (f_used st) (f_demand st + tok) true
  else mkFixed (f_slots st ++ [slot_of "fixed" j]) (f_used st + tok) (f_demand st + tok) (f_pending st).
Definition usage_ratio (demand budget : Z) : Q :=
  if 0 <? budget then (inject_Z demand / inject_Z budget)%Q else if 0 <? demand then 1%Q else 0%Q.
Definition _build_fixed_injection (budget : Z) (raw : option (list LegacyOrg.MemoryInjection)) :
    list InjectionSlot * bool * Q :=
  match raw with
  | None => ([], false, 0%Q)
  | Some raw =>
      let st := foldl (fixed_turn budget) (mkFixed [] 0 0 false) (fixed_injections raw) in
      (f_slots st, f_pending st, usage_ratio (f_demand st) budget)
  end.

(** ** Recalled injection *)

Fixpoint split_lines (l : list string) (cur : string) : list string :=
  match l with
  | [] => [cur]
  | c :: l' => if decide (c = newline) then cur :: split_lines l' "" else split_lines l' (cur +:+ c)
  end.
(** [s.split("\n")] *)
Definition split_newline (s : string) : list string := split_lines (utf8_chars s) "".
Definition _get_title (s : InjectionSlot) : string := strip (hd "" (split_newline (s_content s))).
Definition _get_summary (s : InjectionSlot) : string :=
  str_join " | " (take 2 (List.filter nonempty (map strip (take 3 (split_newline (s_content s)))))).

(** [s.upper()] on ASCII letters *)
Definition upper_ascii (c : ascii) : ascii := if in_codes 97 122 c then ascii_of_nat (nat_of_ascii c - 32) else c.
Fixpoint upper (s : string) : string :=
  match s with EmptyString => "" | String c s' => String (upper_ascii c) (upper s') end.
Definition _render_entry_full (e : MemoryEntry) : string :=
  str_join newline
    (("[" +:+ upper (type_value (e_type e)) +:+ "] " +:+ title e)
     :: map (λ kv, "  " +:+ kv.1 +:+ ": " +:+ py_str kv.2) (List.filter (λ kv, truthy kv.2) (content_items (e_content e)))
     ++ (match memory_points e with [] => [] | l => ["  triggers: " +:+ str_join ", " l] end)).

Definition set_detail (d : DetailLevel) (c : string) (s : InjectionSlot) : InjectionSlot :=
  mkSlot (s_tag s) (priority_class s) d c (entry_ref s) (stamp_token s).
Definition levels (s : InjectionSlot) : list InjectionSlot :=
  let ttl := "[" +:+ s_tag s +:+ "] " +:+ _get_title s in
  [set_detail FULL (s_content s) s; set_detail SUMMARY (ttl +:+ ": " +:+ _get_summary s) s;
   set_detail TITLE_ONLY ttl s].
(** One turn of the loop: the first level of detail that fits. *)
Definition detail_turn (budget : Z) (st : list InjectionSlot * Z) (s : InjectionSlot) : list InjectionSlot * Z :=
  match List.find (λ x, st.2 + _estimate_tokens (s_content x) <=? budget) (levels s) with
  | Some x => (st.1 ++ [x], st.2 + _estimate_tokens (s_content x))
  | None => st
  end.
Definition _apply_detail_budget (budget : Z) (slots : list InjectionSlot) : list InjectionSlot :=
  (foldl (detail_turn budget) ([], 0) slots).1.

Definition granted_slots (raw : list LegacyOrg.MemoryInjection) : list InjectionSlot :=
  map (slot_of "recalled")
    (List.filter (λ j, negb (LegacyOrg.m_priority j <? 10) && negb (untrusted j))
       (py_sorted (λ i j, LegacyOrg.m_priority i <=? LegacyOrg.m_priority j) (best_of_raw raw))).
Definition recalled_slot (c : RecallCandidate) : InjectionSlot :=
  mkSlot (or_else (source_tag c) "[MEMORY]") "recalled" FULL (_render_entry_full (c_entry c)) (entry_id (c_entry c))
    ("v" +:+ pretty (version (c_entry c)) +:+ ":" +:+ take_chars 8 (entry_id (c_entry c))).
Definition add_candidate (slots : list InjectionSlot) (c : RecallCandidate) : list InjectionSlot :=
  if decide (entry_id (c_entry c) ∈ map entry_ref slots) then slots else slots ++ [recalled_slot c].

(** The compiler's services and budgets. *)
Record ContextCompiler := mkCompiler {
  agents : list (string * dict value);
  policies : dict ObservationPolicy;
  cc_authority : option LegacyOrg.Authority;
  fixed_memory_tokens : Z; recall_memory_tokens : Z; context_tokens : Z; recall_top_k : Z }.
Definition get_policy (role : string) (cc : ContextCompiler) : ObservationPolicy :=
  default ObservationPolicy_default (dget role (policies cc)).

Section Compiler.
Variable iter : gset string → list string.
Variable agent_home : string → string.
Variable percent : Z → Z → string.

Definition raw_injections (agent : string) (cc : ContextCompiler) : option (list LegacyOrg.MemoryInjection) :=
  LegacyOrg.injection_for iter agent <$> cc_authority cc.

Definition _build_recalled_injection (agent : string) (terms : list string) (cc : ContextCompiler) (s : subsystem) :
    list InjectionSlot * subsystem :=
  let slots := match raw_injections agent cc with Some raw => granted_slots raw | None => [] end in
  let '(slots, s) :=
    match dget agent (recall_engines s), dget agent (recall_configs s), dget agent (agent_memories s) with
    | Some i, Some c, Some m =>
        let '(l, c') := recall (H := keyword_query iter) m i terms (recall_top_k cc) None true c in
        (foldl add_candidate slots l, set_config agent c' (transaction_buffer s) s)
    | _, _, _ => (slots, s)
    end in
  (_apply_detail_budget (recall_memory_tokens cc) slots, s).

(** ** Sections of the snapshot *)

Record Snapshot := mkSnapshot {
  sn_tick : Z; sn_tasks : dict (dict value); sn_emails : list (dict value); sn_kb : dict value;
  sn_files : dict (list string); sn_locks : dict (dict value); sn_tokens : dict value }.
(** [d.get(k, dflt)] on a text *)
Definition text_of (k dflt : string) (d : dict value) : string :=
  match dget k d with Some (VStr s) => s | _ => dflt end.
Definition addressed (agent : string) (email : dict value) : bool :=
  match dget "to" email with Some (VList l) => existsb (λ v, veq_str v agent) l | _ => false end.

Definition task_summary_of (tasks : dict (dict value)) : dict Z :=
  foldl (λ d t, dset (text_of "status" "unknown" t) (default 0 (dget (text_of "status" "unknown" t) d) + 1) d)
    [] (dvalues tasks).
Definition count_status (l : list string) (tasks : dict (dict value)) : Z :=
  Z.of_nat (length (List.filter (λ t, bool_decide (text_of "status" "" t ∈ l)) (dvalues tasks))).

Definition _budget_truncate_email (max : Z) (email : dict value) : dict value :=
  if max <=? 0 then email else
  let body := text_of "body" "" email in
  if _estimate_tokens body <=? max then email else
  dset "body" (VStr (if nonempty body
                     then take_chars (Z.to_nat (Z.max (max / 2) 1 * 4)) body +:+ "... [truncated]"
                     else "... [truncated]")) email.

Definition lock_entry (agent : string) (tokens : dict value) (resource : string) (info : dict value) : dict value :=
  match dget "owner" info, dget resource tokens with
  | Some (VStr o), Some tok => if decide (o = agent) then dset "lock_token" tok info else info
  | _, _ => info
  end.
Definition escalation (kv : string * dict value) : option (dict value) :=
  let st := text_of "status" "" kv.2 in
  if bool_decide (st ∈ ["failed"; "blocked"])
  then Some [("task_id", VStr kv.1); ("status", VStr st); ("title", VStr (text_of "title" "" kv.2))]
  else None.
Definition pending_decision (kv : string * dict value) : option (dict value) :=
  let st := text_of "status" "" kv.2 in
  if bool_decide (st ∈ ["draft"; "assigned"])
  then Some [("task_id", VStr kv.1); ("status", VStr st); ("title", VStr (text_of "title" "" kv.2));
             ("assignee", VStr (text_of "assignee" "" kv.2))]
  else None.

Record Observation := mkObservation {
  o_agent : string; o_tick : Z; o_path : string; o_mission : option value;
  task_states : dict (dict value); task_summary : dict Z; o_kpi : dict value;
  emails : list (dict value); shared_kb_snapshot : dict value; workspace_files : list string;
  lock_states : dict (dict value); escalations : list (dict value); pending_decisions : list (dict value);
  memory_injection : dict value }.

Definition _get_agent_config (agent : string) (cc : ContextCompiler) : option (dict value) :=
  snd <$> List.find (λ a, bool_decide (a.1 = agent)) (agents cc).
Definition mission (agent : string) (cc : ContextCompiler) : option value :=
  v ← (metadata ← _get_agent_config agent cc; dget "mission" metadata);
  if truthy v then Some v else None.
(** The task the agent is at; a continuation names one or the empty text. *)
Definition focused (focus : string) (sn : Snapshot) : option (dict value) :=
  if nonempty focus then dget focus (sn_tasks sn) else None.

Definition _fill_context_sections (agent focus : string) (sn : Snapshot) (policy : ObservationPolicy)
    (cc : ContextCompiler) : dict value → Observation :=
  let tasks := sn_tasks sn in
  let total := Z.of_nat (length tasks) in
  let completed := count_status ["completed"; "failed"] tasks in
  mkObservation agent (sn_tick sn) (agent_home agent) (mission agent cc)
    (match focused focus sn with Some t => [(focus, t)] | None => tasks end)
    (task_summary_of tasks)
    [("total_tasks", VInt total); ("completed", VInt completed);
     ("in_progress", VInt (count_status ["in_progress"] tasks));
     ("completion_rate", VStr (if 0 <? total then percent completed total else "0%"))]
    (map (_budget_truncate_email (max_tokens policy)) (List.filter (addressed agent) (sn_emails sn)))
    (if kb_injection policy then sn_kb sn else [])
    (default [] (dget agent (sn_files sn)))
    (map (λ kv, (kv.1, lock_entry agent (sn_tokens sn) kv.1 kv.2)) (sn_locks sn))
    (omap escalation tasks) (omap pending_decision tasks).

Definition _extract_contextual_terms (agent focus : string) (sn : Snapshot) : list string :=
  (match focused focus sn with
   | Some t => List.filter nonempty [text_of "title" "" t; text_of "status" "" t]
   | None => []
   end)
  ++ List.filter nonempty (map (text_of "subject" "") (List.filter (addressed agent) (sn_emails sn))).

Definition build_layout (agent focus : string) (sn : Snapshot) (cc : ContextCompiler) (s : subsystem) :
    InjectionLayout * subsystem :=
  let '(fixed, pending, ratio) := _build_fixed_injection (fixed_memory_tokens cc) (raw_injections agent cc) in
  let '(recalled, s) := _build_recalled_injection agent (_extract_contextual_terms agent focus sn) cc s in
  (mkLayout fixed recalled pending ratio, s).

(** The audit log of the compiler, where it has one. *)
Definition compile (agent role focus : string) (sn : Snapshot) (cc : ContextCompiler)
    (st : subsystem * option (list LegacyKb.AuditEntry)) :
    Observation * (subsystem * option (list LegacyKb.AuditEntry)) :=
  let '(layout, s) := build_layout agent focus sn cc st.1 in
  let o := _fill_context_sections agent focus sn (get_policy role cc) cc (to_meta_dict layout) in
  (o, (s, LegacyKb.record "memory.injection_stamp" agent (sn_tick sn) (to_meta_dict layout) true None <$> st.2)).
End Compiler.

(** The order the Observe phase of a tick (legacy/simulation.py) compiles in: the runtimes of the agents that
    are ready and configured. *)
Record Runtime := mkRuntime { rt_agent : string; rt_role : string; rt_focus : string }.
Definition _phase_observe (iter : gset string → list string) (agent_home : string → string)
    (percent : Z → Z → string) (ready : gset string) (human : dict (list value)) (sn : Snapshot) (cc : ContextCompiler) :
    list Runtime → subsystem * option (list LegacyKb.AuditEntry) →
    dict (Observation * list value) * (subsystem * option (list LegacyKb.AuditEntry)) :=
  fix go l st :=
    match l with
    | [] => ([], st)
    | r :: l' =>
        if bool_decide (rt_agent r ∈ ready) && bool_decide (is_Some (_get_agent_config (rt_agent r) cc)) then
          let '(o, st) := compile iter agent_home percent (rt_agent r) (rt_role r) (rt_focus r) sn cc st in
          let '(d, st) := go l' st in
          ((rt_agent r, (o, default [] (dget (rt_agent r) human))) :: d, st)
        else go l' st
    end.

(** ** The fixed part *)

Abbreviation Injection := LegacyOrg.MemoryInjection.
Definition tokens_of (l : list Injection) : Z := foldr (λ j n, _estimate_tokens (LegacyOrg.m_content j) + n) 0 l.
Definition slot_tokens (l : list InjectionSlot) : Z := foldr (λ s n, _estimate_tokens (s_content s) + n) 0 l.
(** An injection no other for its entity undercuts. *)
Definition is_best (raw : list Injection) (j : Injection) : Prop :=
  j ∈ raw ∧ ∀ i, i ∈ raw → LegacyOrg.m_entity i = LegacyOrg.m_entity j → LegacyOrg.m_priority j ≤ LegacyOrg.m_priority i.

Lemma tokens_pos t : 1 ≤ _estimate_tokens t.
Proof. unfold _estimate_tokens. lia. Qed.
Lemma tokens_app l j : tokens_of (l ++ [j]) = tokens_of l + _estimate_tokens (LegacyOrg.m_content j).
Proof. unfold tokens_of. induction l as [|i l IH]; cbn; [lia|]. rewrite IH. lia. Qed.
Lemma slot_tokens_app l s : slot_tokens (l ++ [s]) = slot_tokens l + _estimate_tokens (s_content s).
Proof. unfold slot_tokens. induction l as [|i l IH]; cbn; [lia|]. rewrite IH. lia. Qed.

Definition best_ok (raw : list Injection) (d : dict Injection) : Prop :=
  NoDup (dkeys d) ∧
  (∀ k j, dget k d = Some j → LegacyOrg.m_entity j = k ∧ is_best raw j) ∧
  (∀ i, i ∈ raw → ∃ j, dget (LegacyOrg.m_entity i) d = Some j).
Lemma keep_best_ok raw d j : best_ok raw d → best_ok (raw ++ [j]) (keep_best d j).
Proof.
  intros (Hn & Hb & Hc). unfold keep_best. set (k := LegacyOrg.m_entity j).
  assert (Hold : ∀ k' i, dget k' d = Some i → k' ≠ k → LegacyOrg.m_entity i = k' ∧ is_best (raw ++ [j]) i).
  { intros k' i Hi Hne. destruct (Hb k' i Hi) as [He [Hin Hmin]]. split; [done|]. split; [apply elem_of_app; by left|].
    intros x [Hx|Hx%list_elem_of_singleton]%elem_of_app Hxe; [by apply Hmin|]. subst x. unfold k in *. congruence. }
  assert (Hset : (∀ i, i ∈ raw → LegacyOrg.m_entity i = k → LegacyOrg.m_priority j ≤ LegacyOrg.m_priority i) →
                 best_ok (raw ++ [j]) (dset k j d)).
  { intros Hmin. split; [by apply dkeys_dset_NoDup|]. split.
    - intros k' i. rewrite dget_dset. case_decide as Hk; [|intros Hi; by apply Hold].
      intros [= <-]. split; [done|]. split; [apply elem_of_app; right; by apply list_elem_of_singleton|].
      intros x [Hx|Hx%list_elem_of_singleton]%elem_of_app Hxe; [by apply Hmin|]. by subst.
    - intros i [Hi|Hi%list_elem_of_singleton]%elem_of_app; rewrite dget_dset; case_decide; eauto; subst; done. }
  destruct (dget k d) as [b|] eqn:E.
  - destruct (Hb k b E) as [He [Hin Hmin]]. destruct (Z.ltb_spec (LegacyOrg.m_priority j) (LegacyOrg.m_priority b)) as [Hlt|Hle].
    + apply Hset. intros i Hi Hie. specialize (Hmin i Hi). rewrite He in Hmin. specialize (Hmin Hie). lia.
    + split; [done|]. split.
      * intros k' i Hi. destruct (decide (k' = k)) as [->|Hne]; [|by apply Hold]. rewrite E in Hi. simplify_eq.
        split; [done|]. split; [apply elem_of_app; by left|].
        intros x [Hx|Hx%list_elem_of_singleton]%elem_of_app Hxe; [by apply Hmin|]. by subst x.
      * intros i [Hi|Hi%list_elem_of_singleton]%elem_of_app; [by apply Hc|]. subst i. by exists b.
  - apply Hset. intros i Hi Hie. destruct (Hc i Hi) as [x Hx]. rewrite Hie in Hx. congruence.
Qed.
Lemma keep_best_run raw : best_ok raw (foldl keep_best [] raw).
Proof.
  induction raw as [|j raw IH] using rev_ind.
  - split; [apply NoDup_nil_2|]. split; [done|]. by intros i ?%elem_of_nil.
  - rewrite foldl_snoc. by apply keep_best_ok.
Qed.

Lemma fixed_leb_total i j : key_leb i j = true ∨ key_leb j i = true.
Proof.
  unfold key_leb. rewrite (Z.eqb_sym (LegacyOrg.m_priority j)).
  destruct (Z.eqb_spec (LegacyOrg.m_priority i) (LegacyOrg.m_priority j)); [apply String.leb_total|]. rewrite !Z.ltb_lt. lia.
Qed.
Lemma fixed_leb_trans i j k : key_leb i j = true → key_leb j k = true → key_leb i k = true.
Proof.
  unfold key_leb.
  destruct (Z.eqb_spec (LegacyOrg.m_priority i) (LegacyOrg.m_priority j)),
    (Z.eqb_spec (LegacyOrg.m_priority j) (LegacyOrg.m_priority k)),
    (Z.eqb_spec (LegacyOrg.m_priority i) (LegacyOrg.m_priority k)); rewrite ?Z.ltb_lt; try lia; apply string_leb_trans.
Qed.

(** The injections of the fixed part: the best of each entity, the least priority first. *)
Lemma fixed_injections_spec raw :
  (∀ j, j ∈ fixed_injections raw → is_best raw j ∧ LegacyOrg.m_priority j < 10) ∧
  (∀ i, i ∈ raw → LegacyOrg.m_priority i < 10 →
     ∃ j, j ∈ fixed_injections raw ∧ LegacyOrg.m_entity j = LegacyOrg.m_entity i) ∧
  NoDup (map LegacyOrg.m_entity (fixed_injections raw)) ∧
  StronglySorted (λ i j, key_leb i j = true) (fixed_injections raw).
Proof.
  destruct (keep_best_run raw) as (Hn & Hb & Hc). set (d := foldl keep_best [] raw) in *.
  assert (Hin : ∀ j, j ∈ fixed_injections raw ↔ dget (LegacyOrg.m_entity j) d = Some j ∧ LegacyOrg.m_priority j < 10).
  { intros j. unfold fixed_injections, best_of_raw. rewrite py_sorted_elem, elem_of_bfilter, Z.ltb_lt. fold d.
    unfold dvalues. split; intros [H ?]; (split; [|done]).
    - apply list_elem_of_fmap in H as ([k x] & -> & H). apply (elem_dget k x) in H; [|done]. cbn.
      by destruct (Hb k x H) as [-> _].
    - apply list_elem_of_fmap. exists (LegacyOrg.m_entity j, j). split; [done|]. by apply dget_Some_elem. }
  split_and!.
  - intros j [Hj Hp]%Hin. split; [by apply (Hb _ _ Hj)|done].
  - intros i Hi Hp. destruct (Hc i Hi) as [j Hj]. destruct (Hb _ _ Hj) as [He [_ Hm]]. exists j. split; [|done].
    apply Hin. rewrite He. split; [done|]. specialize (Hm i Hi). rewrite He in Hm. specialize (Hm eq_refl). lia.
  - assert (fixed_injections raw ≡ₚ List.filter (λ j, LegacyOrg.m_priority j <? 10) (dvalues d)) as Hp by apply py_sorted_perm.
    assert (map LegacyOrg.m_entity (fixed_injections raw) ≡ₚ
            map LegacyOrg.m_entity (List.filter (λ j, LegacyOrg.m_priority j <? 10) (dvalues d))) as ->
      by (change (LegacyOrg.m_entity <$> fixed_injections raw ≡ₚ
                  LegacyOrg.m_entity <$> List.filter (λ j, LegacyOrg.m_priority j <? 10) (dvalues d)); by rewrite Hp).
    clear -Hn Hb. assert (Hb' : ∀ k j, (k, j) ∈ d → LegacyOrg.m_entity j = k).
    { intros k j Hj. apply (elem_dget k j) in Hj; [|done]. by apply Hb. }
    clear Hb. induction d as [|[k j] d IH]; [apply NoDup_nil_2|]. cbn [dkeys map fst] in Hn. apply NoDup_cons in Hn as [Hk Hn].
    assert (Hd : NoDup (map LegacyOrg.m_entity (List.filter (λ j, LegacyOrg.m_priority j <? 10) (dvalues d)))).
    { apply IH; [done|]. intros k' j' ?. apply Hb'. by right. }
    cbn [dvalues map snd List.filter]. destruct (_ <? _); [|exact Hd]. cbn [map]. apply NoDup_cons. split; [|exact Hd].
    rewrite (Hb' k j) by left. intros (x & Hx & Hxin)%list_elem_of_fmap. apply elem_of_bfilter in Hxin as [Hxin _].
    apply list_elem_of_fmap in Hxin as ([k' x'] & Hx' & Hin). cbn in Hx'. subst x'. apply Hk.
    apply list_elem_of_fmap. exists (k', x). split; [|done]. cbn. rewrite Hx. apply Hb'. by right.
  - unfold fixed_injections. apply py_sorted_sorted; [apply fixed_leb_total|apply fixed_leb_trans].
Qed.

Definition trusted (raw : list Injection) : list Injection :=
  List.filter (λ j, negb (untrusted j)) (fixed_injections raw).
(** What the loop keeps, after the injections [l]. *)
Definition fixed_inv (budget : Z) (l : list Injection) (st : fixed_state) : Prop :=
  ∃ taken, f_slots st = map (slot_of "fixed") taken ∧ taken `sublist_of` l ∧
    f_used st = tokens_of taken ∧ f_used st ≤ budget ∧ f_demand st = tokens_of l ∧ f_used st ≤ f_demand st ∧
    (f_pending st = false → taken = l) ∧ (f_pending st = true → budget < f_demand st) ∧
    ∀ j, j ∈ l → j ∈ taken ∨ budget < tokens_of taken + _estimate_tokens (LegacyOrg.m_content j).

Lemma fixed_turn_inv budget l st j : untrusted j = false → fixed_inv budget l st →
  fixed_inv budget (l ++ [j]) (fixed_turn budget st j).
Proof.
  intros Hu (taken & Hs & Hsub & Hused & Hle & Hd & Hud & Hp & Hq & Hj). unfold fixed_turn. rewrite Hu. cbv zeta.
  destruct (Z.ltb_spec budget (f_used st + _estimate_tokens (LegacyOrg.m_content j))) as [Hlt|Hge].
  - exists taken. cbn. rewrite tokens_app. split_and!; try done; try lia.
    + by apply sublist_inserts_r.
    + intros i [Hi|Hi%list_elem_of_singleton]%elem_of_app; [by apply Hj|]. subst i. right. lia.
  - exists (taken ++ [j]). cbn. rewrite !tokens_app, map_app, Hs. split_and!; try done; try lia.
    + by apply sublist_app.
    + intros Hf. by rewrite (Hp Hf).
    + intros Hf. specialize (Hq Hf). pose proof (tokens_pos (LegacyOrg.m_content j)). lia.
    + intros i [Hi|Hi%list_elem_of_singleton]%elem_of_app.
      * destruct (Hj i Hi); [left; apply elem_of_app; by left|right].
        pose proof (tokens_pos (LegacyOrg.m_content j)). lia.
      * subst i. left. apply elem_of_app. right. by apply list_elem_of_singleton.
Qed.
Lemma fixed_run budget l : 0 ≤ budget →
  fixed_inv budget (List.filter (λ j, negb (untrusted j)) l) (foldl (fixed_turn budget) (mkFixed [] 0 0 false) l).
Proof.
  intros Hb. induction l as [|j l IH] using rev_ind.
  { exists []. cbn. split_and!; try done. by intros j ?%elem_of_nil. }
  rewrite foldl_snoc, List.filter_app. cbn [List.filter]. destruct (untrusted j) eqn:E; cbn [negb].
  - rewrite app_nil_r. unfold fixed_turn. by rewrite E.
  - by apply fixed_turn_inv.
Qed.

(** The fixed part of a context takes, of every entity granted to the agent with a priority below
    ten, the grant of the least priority, without untrusted content, in ascending order of priority,
    within its budget; an injection is left out only when it does not fit, and consolidation is
    pending exactly when all of them together exceed the budget, which the usage ratio measures. *)
Theorem fixed_injection_exact budget raw : 0 ≤ budget →
  let '(slots, pending, ratio) := _build_fixed_injection budget (Some raw) in
  ∃ taken, slots = map (slot_of "fixed") taken ∧ taken `sublist_of` trusted raw ∧
    tokens_of taken ≤ budget ∧
    (∀ j, j ∈ taken → is_best raw j ∧ LegacyOrg.m_priority j < 10 ∧ untrusted j = false) ∧
    NoDup (map LegacyOrg.m_entity taken) ∧ StronglySorted (λ i j, key_leb i j = true) taken ∧
    (∀ j, j ∈ trusted raw → j ∈ taken ∨ budget < tokens_of taken + _estimate_tokens (LegacyOrg.m_content j)) ∧
    (pending = true ↔ budget < tokens_of (trusted raw)) ∧ (pending = false → taken = trusted raw) ∧
    ratio = usage_ratio (tokens_of (trusted raw)) budget.
Proof.
  intros Hb. unfold _build_fixed_injection. cbv zeta.
  destruct (fixed_run budget (fixed_injections raw) Hb) as (taken & Hs & Hsub & Hused & Hle & Hd & Hud & Hp & Hq & Hj).
  fold (trusted raw) in *. set (st := foldl _ _ _) in *. exists taken.
  destruct (fixed_injections_spec raw) as (Hf & _ & Hn & Hso).
  assert (Hsub' : taken `sublist_of` fixed_injections raw).
  { etrans; [done|]. unfold trusted. clear. induction (fixed_injections raw) as [|j l IH]; [done|].
    cbn. destruct (negb _); [by apply sublist_skip|by apply sublist_cons]. }
  split_and!; try done; try lia.
  - intros j Hj'. destruct (Hf j) as [? ?]; [by eapply elem_of_sublist|].
    split; [done|]. split; [done|]. apply (elem_of_sublist _ _ _ Hj') in Hsub. unfold trusted in Hsub.
    apply elem_of_bfilter in Hsub as [_ ?]. by apply negb_true_iff.
  - eapply sublist_NoDup; [done|]. change (LegacyOrg.m_entity <$> taken `sublist_of` LegacyOrg.m_entity <$> fixed_injections raw).
    by apply fmap_sublist.
  - clear -Hsub' Hso. induction Hsub' as [|x l k H IH|x l k H IH]; [constructor| |].
    + apply StronglySorted_inv in Hso as [Hso Ha]. constructor; [by apply IH|].
      rewrite Forall_forall in *. intros y Hy. apply Ha. by eapply elem_of_sublist.
    + apply StronglySorted_inv in Hso as [Hso _]. by apply IH.
  - split; [intros H; specialize (Hq H); lia|]. intros H. destruct (f_pending st) eqn:E; [done|].
    specialize (Hp eq_refl). subst taken. lia.
  - by rewrite Hd.
Qed.

(** ** The recalled part *)

Definition detail_inv (budget : Z) (l : list InjectionSlot) (st : list InjectionSlot * Z) : Prop :=
  st.2 = slot_tokens st.1 ∧ st.2 ≤ budget ∧
  ∃ kept, kept `sublist_of` l ∧ Forall2 (λ s x, x ∈ levels s) kept st.1 ∧
    ∀ s, s ∈ l → s ∈ kept ∨ ∀ x, x ∈ levels s → budget < slot_tokens st.1 + _estimate_tokens (s_content x).
Lemma find_some_elem {A} (f : A → bool) l x : List.find f l = Some x → x ∈ l ∧ f x = true.
Proof. intros [H ?]%List.find_some. split; [by apply list_elem_of_In|done]. Qed.
Lemma detail_run budget l : 0 ≤ budget → detail_inv budget l (foldl (detail_turn budget) ([], 0) l).
Proof.
  intros Hb. induction l as [|s l IH] using rev_ind.
  { split; [done|]. split; [done|]. exists []. split; [done|]. split; [constructor|]. by intros s ?%elem_of_nil. }
  rewrite foldl_snoc. destruct IH as (Hu & Hle & kept & Hsub & Hk & Hj). set (st := foldl _ _ _) in *.
  unfold detail_turn. destruct (List.find _ (levels s)) as [x|] eqn:E.
  - apply find_some_elem in E as [Hx Hfit%Z.leb_le]. unfold detail_inv. cbn [fst snd]. rewrite slot_tokens_app.
    split; [lia|]. split; [lia|]. exists (kept ++ [s]). split; [by apply sublist_app|].
    split; [apply Forall2_app; [done|]; constructor; [done|constructor]|].
    intros t [Ht|Ht%list_elem_of_singleton]%elem_of_app.
    + destruct (Hj t Ht) as [?|Ho]; [left; apply elem_of_app; by left|right]. intros y Hy. specialize (Ho y Hy).
      pose proof (tokens_pos (s_content x)). lia.
    + subst t. left. apply elem_of_app. right. by apply list_elem_of_singleton.
  - split; [done|]. split; [done|]. exists kept. split; [by apply sublist_inserts_r|]. split; [done|].
    intros t [Ht|Ht%list_elem_of_singleton]%elem_of_app; [by apply Hj|]. subst t. right. intros x Hx.
    apply list_elem_of_In in Hx. pose proof (List.find_none _ _ E x Hx) as Hn. cbn in Hn. apply Z.leb_gt in Hn. lia.
Qed.

(** The recalled part stays within its budget, keeps the order of what was recalled, shows each
    item at one of its levels of detail, and leaves out only what does not fit even by its title. *)
Theorem detail_budget_exact budget slots : 0 ≤ budget →
  let out := _apply_detail_budget budget slots in
  slot_tokens out ≤ budget ∧
  ∃ kept, kept `sublist_of` slots ∧ Forall2 (λ s x, x ∈ levels s) kept out ∧
    ∀ s, s ∈ slots → s ∈ kept ∨ ∀ x, x ∈ levels s → budget < slot_tokens out + _estimate_tokens (s_content x).
Proof.
  intros Hb. unfold _apply_detail_budget. destruct (detail_run budget slots Hb) as (Hu & Hle & H).
  split; [lia|exact H].
Qed.

(** ** What an agent sees *)

Section Sees.
Variable iter : gset string → list string.
Variable agent_home : string → string.
Variable percent : Z → Z → string.

(** Two states that differ at most in the terms for one use of one agent. *)
Definition consumed (agent : string) (s s' : subsystem) : Prop :=
  agent_memories s' = agent_memories s ∧ recall_engines s' = recall_engines s ∧
  transaction_buffer s' = transaction_buffer s ∧
  (∀ a, a ≠ agent → dget a (recall_configs s') = dget a (recall_configs s)) ∧
  (persistent_query_terms <$> dget agent (recall_configs s')) = (persistent_query_terms <$> dget agent (recall_configs s)).
Lemma consumed_refl agent s : consumed agent s s.
Proof. done. Qed.

Lemma recalled_consumes agent terms cc s : consumed agent s (_build_recalled_injection iter agent terms cc s).2.
Proof.
  unfold _build_recalled_injection. cbv zeta.
  destruct (dget agent (recall_engines s)) as [i|]; [|apply consumed_refl].
  destruct (dget agent (recall_configs s)) as [c|] eqn:Ec; [|apply consumed_refl].
  destruct (dget agent (agent_memories s)) as [m|]; [|apply consumed_refl].
  destruct (recall m i terms (recall_top_k cc) None true c) as [l c'] eqn:Er. cbn [snd].
  assert (persistent_query_terms c' = persistent_query_terms c) as Hc.
  { unfold recall in Er. destruct (merge_terms _); by simplify_eq. }
  split_and!; try done; cbn [recall_configs set_config].
  - intros a Ha. by rewrite dget_dset_ne.
  - rewrite dget_dset_eq, Ec. cbn. by rewrite Hc.
Qed.
Lemma layout_consumes agent focus sn cc s : consumed agent s (build_layout iter agent focus sn cc s).2.
Proof.
  unfold build_layout. destruct (_build_fixed_injection _ _) as [[fixed pending] ratio].
  pose proof (recalled_consumes agent (_extract_contextual_terms agent focus sn) cc s) as H.
  by destruct (_build_recalled_injection _ _ _ _ _) as [recalled s'].
Qed.

(** An agent sees the mails addressed to it, texts possibly cut, the tokens of the locks it owns
    and no others, and its own focus or every task; looking changes no memory, index or effect, and
    of the recall states only the terms for one use of that agent; the layout is logged. *)
Theorem compile_confined agent role focus sn cc s log :
  (∀ r info, (r, info) ∈ sn_locks sn → dget "lock_token" info = None) →
  let '(o, (s', log')) := compile iter agent_home percent agent role focus sn cc (s, log) in
  (∀ e, e ∈ emails o → ∃ e0, e0 ∈ sn_emails sn ∧ addressed agent e0 = true ∧
     ∀ k, k ≠ "body" → dget k e = dget k e0) ∧
  (∀ r info t, (r, info) ∈ lock_states o → dget "lock_token" info = Some t →
     dget "owner" info = Some (VStr agent) ∧ dget r (sn_tokens sn) = Some t) ∧
  (∀ k d, (k, d) ∈ task_states o → (k, d) ∈ sn_tasks sn) ∧
  consumed agent s s' ∧
  log' = LegacyKb.record "memory.injection_stamp" agent (sn_tick sn) (memory_injection o) true None <$> log.
Proof.
  intros Hl. unfold compile. cbn [fst snd]. pose proof (layout_consumes agent focus sn cc s) as Hc.
  destruct (build_layout _ _ _ _ _ _) as [layout s']. cbn [snd] in Hc. split_and!; [| | |done|done].
  - cbn. intros e (e0 & -> & He)%list_elem_of_fmap. apply elem_of_bfilter in He as [He Ha]. exists e0. split; [done|].
    split; [done|]. intros k Hk. unfold _budget_truncate_email. destruct (_ <=? 0); [done|]. cbv zeta.
    destruct (_ <=? _); [done|]. by rewrite dget_dset_ne.
  - cbn. intros r info t ([r' info'] & [= -> ->] & Hin)%list_elem_of_fmap Ht. specialize (Hl r' info' Hin).
    unfold lock_entry in *. cbn [fst snd] in *. destruct (dget "owner" info') as [[| | | |o| |]|] eqn:Eo; try congruence.
    destruct (dget r' (sn_tokens sn)) as [tok|]; [|congruence]. destruct (decide (o = agent)) as [->|]; [|congruence].
    rewrite dget_dset_eq in Ht. simplify_eq. rewrite dget_dset_ne by done. done.
  - cbn. unfold focused. intros k d. destruct (nonempty focus); [|done]. destruct (dget focus (sn_tasks sn)) as [t|] eqn:E; [|done].
    intros [= -> ->]%list_elem_of_singleton. by apply dget_Some_elem.
Qed.
End Sees.

(** *** Sample data *)

Definition granted (e text tag : string) (p : Z) : Injection := LegacyOrg.Memory e "dev" text tag "pos" p.
Definition sample_raw : list Injection :=
  [granted "style" "be brief" "[SKILL_INSTRUCTION]" 5; granted "policy" "never pay twice; ask before" "[POLICY]" 0;
   granted "mail" "buy now" "[UNTRUSTED_CUSTOMER_CONTENT]" 1; granted "style" "be brief" "[SKILL_INSTRUCTION]" 2].

(** A policy that does not fit is left out, and what is less important takes the room. *)
Example policy_left_out :
  map entry_ref (_build_fixed_injection 4 (Some sample_raw)).1.1 = ["style"] ∧
  (_build_fixed_injection 4 (Some sample_raw)).1.2 = true.
Proof. by vm_compute. Qed.
(** The shortened text of a short item is longer than the item. *)
Example summary_is_longer :
  map s_content (levels (mkSlot "[TASK_CONTEXT]" "recalled" FULL "go" "e" "")) =
    ["go"; "[[TASK_CONTEXT]] go: go"; "[[TASK_CONTEXT]] go"].
Proof. by vm_compute. Qed.

Definition sample_compiler : ContextCompiler :=
  mkCompiler [("ann", [("mission", VStr "help")])] DEFAULT_POLICIES None 4000 8000 8000 10.
Definition sample_snapshot : Snapshot :=
  mkSnapshot 3 [("t1", [("status", VStr "blocked"); ("title", VStr "Refund")])]
    [[("to", VList [VStr "ann"]); ("subject", VStr "travel"); ("body", VStr "hello")];
     [("to", VList [VStr "bob"]); ("body", VStr "secret")]]
    [] [] [("kb/a", [("owner", VStr "bob")]); ("kb/b", [("owner", VStr "ann")])]
    [("kb/a", VStr "tok1"); ("kb/b", VStr "tok2")].
Definition home (a : string) : string := "private/" +:+ a.
Definition no_percent (a b : Z) : string := "".

(** A layout built for an audit uses up the terms of a recall. *)
Example layout_uses_terms :
  let s := mkSub (agent_memories ann) (recall_engines ann) [("ann", mkConfig [] ["refund"])] (transaction_buffer ann) in
  let '(l1, s1) := build_layout elems "ann" "" (mkSnapshot 0 [] [] [] [] [] []) sample_compiler s in
  let '(l2, _) := build_layout elems "ann" "" (mkSnapshot 0 [] [] [] [] [] []) sample_compiler s1 in
  (layout_refs l1, layout_refs l2) = (["a"], []).
Proof. by vm_compute. Qed.

Lemma fixed_injection_exact_witness :
  let '(slots, pending, ratio) := _build_fixed_injection 4 (Some sample_raw) in
  ∃ taken, slots = map (slot_of "fixed") taken ∧ taken `sublist_of` trusted sample_raw ∧
    tokens_of taken ≤ 4 ∧
    (∀ j, j ∈ taken → is_best sample_raw j ∧ LegacyOrg.m_priority j < 10 ∧ untrusted j = false) ∧
    NoDup (map LegacyOrg.m_entity taken) ∧ StronglySorted (λ i j, key_leb i j = true) taken ∧
    (∀ j, j ∈ trusted sample_raw → j ∈ taken ∨ 4 < tokens_of taken + _estimate_tokens (LegacyOrg.m_content j)) ∧
    (pending = true ↔ 4 < tokens_of (trusted sample_raw)) ∧ (pending = false → taken = trusted sample_raw) ∧
    ratio = usage_ratio (tokens_of (trusted sample_raw)) 4.
Proof. apply (fixed_injection_exact 4 sample_raw). lia. Defined.

Lemma compile_confined_witness :
  let '(o, (s', log')) := compile elems home no_percent "ann" "worker" "" sample_snapshot sample_compiler (ann, Some []) in
  (∀ e, e ∈ emails o → ∃ e0, e0 ∈ sn_emails sample_snapshot ∧ addressed "ann" e0 = true ∧
     ∀ k, k ≠ "body" → dget k e = dget k e0) ∧
  (∀ r info t, (r, info) ∈ lock_states o → dget "lock_token" info = Some t →
     dget "owner" info = Some (VStr "ann") ∧ dget r (sn_tokens sample_snapshot) = Some t) ∧
  (∀ k d, (k, d) ∈ task_states o → (k, d) ∈ sn_tasks sample_snapshot) ∧
  consumed "ann" ann s' ∧
  log' = LegacyKb.record "memory.injection_stamp" "ann" 3 (memory_injection o) true None <$> Some [].
Proof.
  apply (compile_confined elems home no_percent "ann" "worker" "" sample_snapshot sample_compiler ann (Some [])).
  intros r info H. cbn in H. apply elem_of_cons in H as [[= -> ->]|[[= -> ->]|[]%elem_of_nil]%elem_of_cons]; done.
Defined.
