(* ===== verification/LegacyCredentials.v ===== *)
(** * Credentials in the previous architecture (legacy/credential_store.py)

    References to secrets and the backends that hold them: the environment, and an encrypted
    file.  The world is the environment and the texts of the files; what [os.urandom] returns is an
    argument.  The key derivation is a parameter, about which nothing is assumed; the stream cipher
    and its tag are written out with [hmac_sha256]. *)

From stdpp Require Import base strings list.
From Stdlib Require Import ZArith Ascii Lia.
From S2P Require Import Prelude PyValue Json JsonRound Codec LlmRuntime.

Open Scope string_scope.
Open Scope list_scope.
Open Scope nat_scope.

Inductive cred_class :=
| CredentialStoreError | MissingCredentialRefError | CredentialNotFoundError | CredentialDecryptError.
(** What a call raises: an error of the module, or one of Python. *)
Inductive failure := Cred (k : cred_class) (msg : string) | Py (e : exn).
Inductive out (A : Type) := Done (a : A) | Failed (f : failure).
Arguments Done {A} a.
Arguments Failed {A} f.
#[global] Instance out_ret : MRet out := λ A a, Done a.
#[global] Instance out_bind : MBind out := λ A B f m, match m with Done a => f a | Failed e => Failed e end.
#[global] Instance out_fmap : FMap out := λ A B f m, match m with Done a => Done (f a) | Failed e => Failed e end.

Record World := mkWorld { environ : dict string; files : dict string }.
Definition set_files (f : dict string) (w : World) : World := mkWorld (environ w) f.

(** ** The cipher *)

(** [bytes(a ^ b for a, b in zip(s, t))] *)
Fixpoint xor_str (s t : string) : string :=
  match s, t with
  | String a s', String b t' => String (chr (Z.lxor (ord a) (ord b))) (xor_str s' t')
  | _, _ => ""
  end.
Definition be8 (n : Z) : string := bytes_of (Sha256.be_bytes 8 n).
Fixpoint keystream_loop (fuel : nat) (key nonce : string) (len : nat) (counter : Z) (acc : string) : string :=
  match fuel with
  | O => acc
  | S f => if String.length acc <? len
           then keystream_loop f key nonce len (counter + 1) (acc +:+ hmac_sha256 key (nonce +:+ be8 counter))
           else acc
  end.
Definition _keystream (key nonce : string) (len : nat) : string :=
  String.substring 0 len (keystream_loop (S len) key nonce len 0 "").
Definition tag_of (key nonce ciphertext : string) : string :=
  hmac_sha256 key ("credential-store-tag" +:+ nonce +:+ ciphertext).
Definition _encrypt (nonce plaintext key : string) : string * string :=
  let ciphertext := xor_str plaintext (_keystream key nonce (String.length plaintext)) in
  (ciphertext, tag_of key nonce ciphertext).
Definition _decrypt (nonce ciphertext tag key : string) : out string :=
  if bool_decide (tag_of key nonce ciphertext = tag)
  then Done (xor_str ciphertext (_keystream key nonce (String.length ciphertext)))
  else Failed (Cred CredentialDecryptError
                 "credential file failed integrity check (wrong passphrase or tampered payload)").

(** ** Backends *)

Record CredentialBackend := mkBackend {
  b_kind : string;
  b_contains : World → string → out bool;
  b_resolve : World → string → out string;
  b_entries : World → out (list string);
  b_snapshot : World → out (dict value) }.

Definition sorted_names (l : list string) : list string := py_sorted String.leb l.

Definition env_resolve (w : World) (name : string) : out string :=
  match dget name (environ w) with
  | Some v => Done v
  | None => Failed (Cred CredentialNotFoundError ("credential env var '" +:+ name +:+ "' is not set"))
  end.
Definition env_entries (prefix : option string) (w : World) : list string :=
  match prefix with
  | None => []
  | Some p => sorted_names (List.filter (startswith p) (dkeys (environ w)))
  end.
Definition EnvCredentialBackend (prefix : option string) : CredentialBackend :=
  mkBackend "env" (λ w name, Done (dmem name (environ w))) env_resolve (λ w, Done (env_entries prefix w))
    (λ w, Done [("kind", VStr "env"); ("entries", VList (map VStr (env_entries prefix w)))]).

Section File.
Variable scrypt : string → string → string.

Definition bad_file (path what : string) : failure :=
  Cred CredentialDecryptError ("credential file '" +:+ path +:+ "' " +:+ what).
(** [base64.b64decode(doc[k])] where KeyError and ValueError are caught. *)
Definition field (path : string) (doc : value) (k : string) : out string :=
  match vget doc k with
  | None => Failed (bad_file path "is malformed")
  | Some (VStr s) => match b64decode s with Ok b => Done b | Raise _ => Failed (bad_file path "is malformed") end
  | Some v => Failed (Py (Exn TypeError ("argument should be a bytes-like object or ASCII string, not '"
                                         +:+ type_name v +:+ "'")))
  end.
Fixpoint read_entries (d : dict value) : option (dict string) :=
  match d with
  | [] => Some []
  | (k, VStr s) :: d' => cons (k, s) <$> read_entries d'
  | _ => None
  end.
(** The entries of a decrypted payload. *)
Definition read_payload (path payload : string) : out (dict string) :=
  match (if valid_text payload then loads payload else None) with
  | None => Failed (bad_file path "payload is corrupt")
  | Some (VDict d) =>
      match read_entries d with
      | Some entries => Done entries
      | None => Failed (bad_file path "payload is not a string-to-string map")
      end
  | Some _ => Failed (bad_file path "payload is not a string-to-string map")
  end.
Definition _load_entries (path pass : string) (w : World) : out (dict string) :=
  match dget path (files w) with
  | None => Done []
  | Some text =>
      match loads text with
      | None => Failed (bad_file path "is not readable JSON")
      | Some doc =>
          if negb (is_dict doc) || negb (py_eq (default VNone (vget doc "version")) (VInt 1))
          then Failed (bad_file path "has an unsupported format") else
          salt ← field path doc "salt";
          nonce ← field path doc "nonce";
          tag ← field path doc "tag";
          ciphertext ← field path doc "ciphertext";
          payload ← _decrypt nonce ciphertext tag (scrypt pass salt);
          read_payload path payload
      end
  end.

(** [json.dumps(d, sort_keys=True)], on a dict of texts and numbers *)
Definition by_key {A} (x y : string * A) : bool := String.leb x.1 y.1.
Definition dumps_sorted (d : dict value) : string := dumps (VDict (py_sorted by_key d)).
Definition text_values (d : dict string) : dict value := map (λ kv, (kv.1, VStr kv.2)) d.

Definition document (pass salt nonce : string) (entries : dict string) : dict value :=
  let '(ciphertext, tag) := _encrypt nonce (dumps_sorted (text_values entries)) (scrypt pass salt) in
  [("version", VInt 1); ("kdf", VStr "scrypt"); ("salt", VStr (b64encode salt)); ("nonce", VStr (b64encode nonce));
   ("tag", VStr (b64encode tag)); ("ciphertext", VStr (b64encode ciphertext))].

(** What a save does to the files, a step for a system call; a crash may leave a part of a text. *)
Inductive file_step := Write (path text : string) | Replace (src dst : string).
Definition do_step (st : file_step) (fs : dict string) : dict string :=
  match st with
  | Write p t => dset p t fs
  | Replace src dst => match dget src fs with Some t => dset dst t (dpop src fs) | None => fs end
  end.
Inductive crashed : list file_step → dict string → dict string → Prop :=
| crash_before l fs : crashed l fs fs
| crash_within p t t' l fs : String.prefix t' t = true → crashed (Write p t :: l) fs (dset p t' fs)
| crash_after st l fs fs' : crashed l (do_step st fs) fs' → crashed (st :: l) fs fs'.

Definition _save_entries (path pass salt nonce : string) (entries : dict string) : list file_step :=
  let tmp := path +:+ ".tmp" in
  [Write tmp (dumps_sorted (document pass salt nonce entries)); Replace tmp path].

Definition file_contains (path pass : string) (w : World) (name : string) : out bool :=
  dmem name <$> _load_entries path pass w.
Definition file_resolve (path pass : string) (w : World) (name : string) : out string :=
  entries ← _load_entries path pass w;
  match dget name entries with
  | Some s => Done s
  | None => Failed (Cred CredentialNotFoundError
                      ("credential entry '" +:+ name +:+ "' not found in file '" +:+ path +:+ "'"))
  end.
Definition file_entries (path pass : string) (w : World) : out (list string) :=
  (λ d, sorted_names (dkeys d)) <$> _load_entries path pass w.
Definition EncryptedFileCredentialBackend (path pass : string) : CredentialBackend :=
  mkBackend "file" (file_contains path pass) (file_resolve path pass) (file_entries path pass)
    (λ w, (λ l, [("kind", VStr "file"); ("path", VStr path); ("entries", VList (map VStr l))]) <$> file_entries path pass w).

Definition file_put (path pass salt nonce name secret : string) (w : World) : out World :=
  entries ← _load_entries path pass w;
  Done (set_files (foldl (λ fs st, do_step st fs) (files w)
                     (_save_entries path pass salt nonce (dset name secret entries))) w).
End File.

(** ** The store *)

Record CredentialStore := mkStore { _backends : dict CredentialBackend; _default_backend : option string }.
Definition register (b : CredentialBackend) (s : CredentialStore) : out CredentialStore :=
  if dmem (b_kind b) (_backends s)
  then Failed (Py (Exn ValueError ("credential backend kind '" +:+ b_kind b +:+ "' already registered")))
  else Done (mkStore (dset (b_kind b) b (_backends s)) (_default_backend s)).
Fixpoint register_all (l : list CredentialBackend) (s : CredentialStore) : out CredentialStore :=
  match l with [] => Done s | b :: l' => s ← register b s; register_all l' s end.
Definition CredentialStore_init (l : list CredentialBackend) (dflt : option string) : out CredentialStore :=
  register_all l (mkStore [] dflt).

(** [s.partition(":")]: what is before the first colon, whether there is one, and what follows *)
Fixpoint partition_colon (s : string) : string * bool * string :=
  match s with
  | EmptyString => ("", false, "")
  | String c s' =>
      if bool_decide (c = ":"%char) then ("", true, s')
      else let '(a, sep, b) := partition_colon s' in (String c a, sep, b)
  end.
Definition _backend_for (ref : string) (s : CredentialStore) : out (CredentialBackend * string) :=
  let '(kind, sep, name) := partition_colon ref in
  if sep && nonempty kind && nonempty name then
    match dget kind (_backends s) with
    | Some b => Done (b, name)
    | None => Failed (Cred CredentialNotFoundError
                        ("credential_ref '" +:+ ref +:+ "' names unknown backend kind '" +:+ kind +:+ "'"))
    end
  else
    match _default_backend s with
    | Some d =>
        match dget d (_backends s) with
        | Some b => Done (b, ref)
        | None => Failed (Cred CredentialStoreError ("default backend '" +:+ d +:+ "' is not registered"))
        end
    | None => Failed (Cred CredentialNotFoundError
                        ("credential_ref '" +:+ ref +:+ "' has no backend kind and no default backend is configured"))
    end.

Definition has (ref : string) (s : CredentialStore) (w : World) : out bool :=
  if negb (nonempty ref) then Done false else
  match _backend_for ref s with
  | Done (b, name) => b_contains b w name
  | Failed (Cred CredentialNotFoundError _) => Done false
  | Failed e => Failed e
  end.
Definition resolve (ref : string) (s : CredentialStore) (w : World) : out string :=
  if negb (nonempty ref) || negb (nonempty (strip ref))
  then Failed (Cred MissingCredentialRefError
                 "credential_ref is empty: a credential reference is required to resolve a credential")
  else '(b, name) ← _backend_for ref s; b_resolve b w name.
Fixpoint snapshots (l : list CredentialBackend) (w : World) : out (list value) :=
  match l with
  | [] => Done []
  | b :: l' => d ← b_snapshot b w; rest ← snapshots l' w; Done (VDict d :: rest)
  end.
Definition store_snapshot (s : CredentialStore) (w : World) : out (dict value) :=
  l ← snapshots (dvalues (_backends s)) w;
  Done [("default_backend", match _default_backend s with Some d => VStr d | None => VNone end); ("backends", VList l)].

(** ** The cipher gives back the plaintext *)

Lemma xor_str_length s t : String.length s ≤ String.length t → String.length (xor_str s t) = String.length s.
Proof.
  revert t. induction s as [|a s IH]; intros [|b t]; cbn [String.length xor_str]; try lia. intros H. rewrite IH; lia.
Qed.
Lemma xor_str_involutive s t : String.length s ≤ String.length t → xor_str (xor_str s t) t = s.
Proof.
  revert t. induction s as [|a s IH]; intros [|b t] H; cbn [String.length] in H; try done; [lia|].
  cbn [xor_str]. rewrite IH by lia. f_equal. apply chr_eq.
  pose proof (ord_range a). pose proof (ord_range b).
  assert (0 <= Z.lxor (ord a) (ord b) < 256)%Z.
  { split; [apply Z.lxor_nonneg; lia|]. destruct (Z.eq_dec (Z.lxor (ord a) (ord b)) 0) as [->|Hne]; [lia|].
    change 256%Z with (2 ^ 8)%Z. apply Z.log2_lt_pow2; [pose proof (Z.lxor_nonneg (ord a) (ord b)); lia|].
    eapply Z.le_lt_trans; [apply Z.log2_lxor; lia|].
    apply Z.max_lub_lt; (destruct (Z.eq_dec (ord a) 0) as [->|]; [|apply Z.log2_lt_pow2; lia]) ||
      (destruct (Z.eq_dec (ord b) 0) as [->|]; [|apply Z.log2_lt_pow2; lia]); cbn; lia. }
  rewrite ord_chr by done. rewrite Z.lxor_assoc, Z.lxor_nilpotent, Z.lxor_0_r. done.
Qed.

(** The stream is as long as asked for: each round adds 32 bytes. *)
Lemma keystream_loop_length fuel key nonce len n acc :
  len < fuel + String.length acc → len ≤ String.length (keystream_loop fuel key nonce len n acc).
Proof.
  revert n acc. induction fuel as [|f IH]; intros n acc H; cbn [keystream_loop]; [lia|].
  destruct (Nat.ltb_spec (String.length acc) len) as [Hl|]; [|done]. apply IH.
  rewrite length_str_app. unfold hmac_sha256. rewrite digest_length. lia.
Qed.
Lemma substring_length n s : n ≤ String.length s → String.length (String.substring 0 n s) = n.
Proof.
  revert n. induction s as [|c s IH]; intros [|n]; cbn [String.length String.substring]; try lia. intros H. rewrite IH; lia.
Qed.
Lemma keystream_length key nonce len : String.length (_keystream key nonce len) = len.
Proof. unfold _keystream. apply substring_length, keystream_loop_length. cbn. lia. Qed.
(** More rounds change nothing. *)
Lemma keystream_loop_enough fuel fuel' key nonce len n acc :
  len < fuel + String.length acc → len < fuel' + String.length acc →
  keystream_loop fuel key nonce len n acc = keystream_loop fuel' key nonce len n acc.
Proof.
  revert fuel' n acc. induction fuel as [|f IH]; intros [|f'] n acc H H'; cbn [keystream_loop]; [done| | |].
  1,2: destruct (Nat.ltb_spec (String.length acc) len); [lia|done].
  destruct (Nat.ltb_spec (String.length acc) len); [|done].
  apply IH; rewrite length_str_app; unfold hmac_sha256; rewrite digest_length; lia.
Qed.

Lemma decrypt_encrypt nonce plaintext key :
  let '(ciphertext, tag) := _encrypt nonce plaintext key in _decrypt nonce ciphertext tag key = Done plaintext.
Proof.
  unfold _encrypt, _decrypt. rewrite bool_decide_eq_true_2 by done.
  rewrite xor_str_length by (rewrite keystream_length; lia). by rewrite xor_str_involutive by (rewrite keystream_length; lia).
Qed.

(** ** What is written is read *)

Lemma ascii_app s t : ascii_text (s +:+ t) = ascii_text s && ascii_text t.
Proof. unfold ascii_text. by rewrite Sha256.list_ascii_app, forallb_app. Qed.
Lemma ascii_char n : (n < 128)%Z → (0 <= n)%Z → ascii_text (char_str n) = true.
Proof. intros H H0. unfold ascii_text, char_str. cbn. rewrite ord_chr by lia. by apply andb_true_iff; split; [apply Z.ltb_lt|]. Qed.
Lemma ascii_hex4 n : ascii_text (hex4 n) = true.
Proof.
  assert (H : ∀ m, ascii_text (hex1 (m mod 16)) = true).
  { intros m. unfold hex1. pose proof (Z.mod_pos_bound m 16 ltac:(lia)).
    destruct (Z.ltb_spec (m mod 16) 10); apply ascii_char; lia. }
  unfold hex4. rewrite !ascii_app. by rewrite !H.
Qed.
Lemma ascii_escape c : valid_char c = true → ascii_text (escape_char c) = true.
Proof.
  unfold valid_char. intros [Hs He%bool_decide_eq_true]%andb_true_iff. unfold escape_char.
  repeat match goal with |- context [if ?b then _ else _] => destruct b eqn:?; [try reflexivity|] end.
  - rewrite <-He. unfold utf8_encode.
    match goal with H : _ && _ = true |- _ => apply andb_true_iff in H as [?%Z.leb_le ?%Z.leb_le] end.
    destruct (Z.ltb_spec (code_point c) 128); [|lia]. by apply ascii_char; lia.
  - rewrite ascii_app, ascii_hex4. done.
  - rewrite !ascii_app, !ascii_hex4. done.
Qed.
Lemma ascii_fold l : Forall (λ s, ascii_text s = true) l → ascii_text (fold_right String.append "" l) = true.
Proof. induction 1 as [|s l Hs _ IH]; [done|]. cbn [fold_right]. by rewrite ascii_app, Hs, IH. Qed.
Lemma ascii_dumps_str s : valid_text s = true → ascii_text (dumps_str s) = true.
Proof.
  intros H. unfold dumps_str. rewrite !ascii_app. rewrite !ascii_char by lia. cbn. rewrite andb_true_r.
  apply ascii_fold, Forall_forall. intros x (c & -> & Hc)%list_elem_of_fmap. apply ascii_escape.
  unfold valid_text in H. rewrite forallb_forall in H. apply H. by apply list_elem_of_In.
Qed.
Lemma ascii_join sep l : ascii_text sep = true → Forall (λ s, ascii_text s = true) l → ascii_text (str_join sep l) = true.
Proof.
  intros Hs. induction 1 as [|s l H _ IH]; [done|]. destruct l as [|t l]; [done|].
  change (str_join sep (s :: t :: l)) with (s +:+ sep +:+ str_join sep (t :: l)). by rewrite !ascii_app, H, Hs, IH.
Qed.

Lemma ascii_valid s : ascii_text s = true → valid_text s = true.
Proof.
  unfold ascii_text, valid_text. induction s as [|c s IH]; [done|]. cbn [String.list_ascii_of_string forallb].
  intros [Hc%Z.ltb_lt Hs]%andb_true_iff. specialize (IH Hs). cbn [utf8_chars].
  assert (Hv : valid_char (String c "") = true).
  { unfold valid_char. cbn [code_point]. pose proof (ord_range c). unfold scalar, utf8_encode.
    destruct (Z.ltb_spec (ord c) 128); [|lia]. unfold char_str. rewrite chr_ord.
    rewrite bool_decide_eq_true_2, andb_true_r by done.
    apply andb_true_iff; split; [by apply andb_true_iff; split; [apply Z.leb_le|apply Z.ltb_lt]; lia|].
    apply negb_true_iff, andb_false_iff. left. apply Z.leb_gt. lia. }
  assert (Hn : starts_cont s = false).
  { destruct s as [|a s]; [done|]. cbn in Hs. apply andb_true_iff in Hs as [Ha%Z.ltb_lt _]. unfold starts_cont, utf8_cont.
    unfold ord in Ha. pose proof (N_ascii_bounded a). unfold nat_of_ascii. rewrite andb_false_iff. left. apply Nat.leb_gt. lia. }
  destruct (utf8_chars s) as [|x l] eqn:E; cbn [forallb]; [by rewrite Hv|]. rewrite Hn. cbn [forallb] in *. by rewrite Hv.
Qed.

(** Texts that a file can hold: distinct names, and names and secrets in UTF-8. *)
Definition good_entries (d : dict string) : Prop :=
  NoDup (dkeys d) ∧ ∀ k s, (k, s) ∈ d → valid_text k = true ∧ valid_text s = true.

Lemma dget_perm {V} (d d' : dict V) k : NoDup (dkeys d) → d ≡ₚ d' → dget k d = dget k d'.
Proof.
  intros Hn Hp. assert (Hn' : NoDup (dkeys d')) by (unfold dkeys in *; by rewrite <-Hp).
  destruct (dget k d) as [v|] eqn:E.
  - symmetry. apply elem_dget; [done|]. rewrite <-Hp. by apply dget_Some_elem.
  - destruct (dget k d') as [v|] eqn:E'; [|done]. apply dget_Some_elem in E'. rewrite <-Hp in E'.
    apply elem_dget in E'; [congruence|done].
Qed.
Lemma good_perm d d' : d ≡ₚ d' → good_entries d → good_entries d'.
Proof. intros Hp [Hn Hv]. split; [unfold dkeys in *; by rewrite <-Hp|]. intros k s. rewrite <-Hp. apply Hv. Qed.
Lemma good_set name secret d : good_entries d → valid_text name = true → valid_text secret = true →
  good_entries (dset name secret d).
Proof.
  intros [Hn Hv] H1 H2. split; [by apply dkeys_dset_NoDup|]. intros k s Hin.
  apply elem_dget in Hin; [|by apply dkeys_dset_NoDup]. rewrite dget_dset in Hin.
  case_decide; [by simplify_eq|]. apply (Hv k s). by apply dget_Some_elem.
Qed.

Lemma json_texts d : good_entries d → json_ok (VDict (text_values d)) = true.
Proof.
  intros [Hn Hv]. cbn. apply andb_true_iff. split.
  - apply bool_decide_eq_true. unfold text_values, dkeys in *. rewrite map_map. cbn. done.
  - apply forallb_forall. intros [k v] (x & [= <- <-] & Hx)%in_map_iff. apply list_elem_of_In in Hx.
    destruct x as [k s]. cbn [fst snd json_ok]. by destruct (Hv k s Hx) as [-> ->].
Qed.
Lemma json_perm d d' : d ≡ₚ d' → json_ok (VDict d) = true → json_ok (VDict d') = true.
Proof.
  intros Hp. cbn. rewrite !andb_true_iff, !bool_decide_eq_true, !forallb_forall. intros [Hn Hv]. split.
  - by rewrite <-Hp.
  - intros x Hx. apply Hv. apply list_elem_of_In. rewrite Hp. by apply list_elem_of_In.
Qed.
Lemma loads_sorted d : json_ok (VDict d) = true → loads (dumps_sorted d) = Some (VDict (py_sorted by_key d)).
Proof. intros H. unfold dumps_sorted. apply loads_dumps. eapply json_perm; [|done]. by rewrite py_sorted_perm. Qed.

Lemma sorted_texts d : py_sorted by_key (text_values d) = text_values (py_sorted by_key d).
Proof.
  unfold text_values. induction d as [|x d IH]; [done|]. cbn [map py_sorted]. rewrite IH.
  generalize (py_sorted by_key d). intros l. induction l as [|y l IHl]; [done|]. cbn [map insert_sorted].
  change (by_key (x.1, VStr x.2) (y.1, VStr y.2)) with (by_key x y). destruct (by_key x y); [done|]. cbn. by rewrite IHl.
Qed.
Lemma read_texts d : read_entries (text_values d) = Some d.
Proof.
  induction d as [|[k s] d IH]; [done|].
  change (read_entries (text_values ((k, s) :: d))) with (cons (k, s) <$> read_entries (text_values d)). by rewrite IH.
Qed.
Lemma dumps_texts_valid d : good_entries d → valid_text (dumps_sorted (text_values d)) = true.
Proof.
  intros Hg. apply ascii_valid. unfold dumps_sorted. rewrite sorted_texts.
  assert (Hg' : good_entries (py_sorted by_key d)) by (eapply good_perm; [|done]; by rewrite py_sorted_perm).
  destruct Hg' as [_ Hv]. cbn [dumps]. rewrite !ascii_app.
  change (ascii_text "{") with true. change (ascii_text "}") with true. rewrite andb_true_r.
  apply ascii_join; [done|]. apply Forall_forall. intros x ([k v] & -> & H)%list_elem_of_fmap.
  unfold text_values in H. apply list_elem_of_fmap in H as ([k' s] & [= -> ->] & H). destruct (Hv k' s H) as [Hk Hs]. cbn [fst snd dumps].
  by rewrite !ascii_app, !ascii_dumps_str.
Qed.

Section RoundTrip.
Variable scrypt : string → string → string.
Variables path pass : string.

Lemma b64_field doc k s : vget doc k = Some (VStr (b64encode s)) → field path doc k = Done s.
Proof. intros H. unfold field. by rewrite H, b64_round_trip. Qed.

(** A document the backend wrote is read back, with the entries in order. *)
Lemma document_read salt nonce d w : good_entries d →
  dget path (files w) = Some (dumps_sorted (document scrypt pass salt nonce d)) →
  _load_entries scrypt path pass w = Done (py_sorted by_key d).
Proof.
  intros Hg Hf. unfold _load_entries. rewrite Hf. unfold document.
  destruct (_encrypt nonce (dumps_sorted (text_values d)) (scrypt pass salt)) as [ciphertext tag] eqn:E.
  rewrite loads_sorted.
  2: { cbn. rewrite (bool_decide_eq_true_2 (NoDup _)) by (by eapply bool_decide_unpack; vm_compute).
       by rewrite !(ascii_valid (b64encode _) (b64_ascii _)). }
  set (doc := VDict (py_sorted _ _)).
  rewrite (b64_field doc "salt" salt eq_refl), (b64_field doc "nonce" nonce eq_refl), (b64_field doc "tag" tag eq_refl),
    (b64_field doc "ciphertext" ciphertext eq_refl).
  change (py_eq (default VNone (vget doc "version")) (VInt 1)) with true. cbn [is_dict negb orb doc].
  unfold mbind, out_bind.
  pose proof (decrypt_encrypt nonce (dumps_sorted (text_values d)) (scrypt pass salt)) as Hd. rewrite E in Hd.
  rewrite Hd. unfold read_payload.
  rewrite dumps_texts_valid by done. rewrite loads_sorted by by apply json_texts.
  by rewrite sorted_texts, read_texts.
Qed.

Lemma tmp_ne p : p +:+ ".tmp" ≠ p.
Proof. intros H. apply (f_equal String.length) in H. rewrite length_str_app in H. cbn in H. lia. Qed.
Lemma saved salt nonce d fs :
  let fs' := foldl (λ fs st, do_step st fs) fs (_save_entries scrypt path pass salt nonce d) in
  dget path fs' = Some (dumps_sorted (document scrypt pass salt nonce d)) ∧
  ∀ p, p ≠ path → p ≠ path +:+ ".tmp" → dget p fs' = dget p fs.
Proof.
  cbn. rewrite dget_dset_eq. split; [by rewrite dget_dset_eq|]. intros p H1 H2.
  by rewrite dget_dset_ne, dget_dpop_ne, dget_dset_ne by done.
Qed.

(** A host that puts entries, one after the other. *)
Record put_call := mkPut { p_salt : string; p_nonce : string; p_name : string; p_secret : string }.
Fixpoint run_puts (l : list put_call) (w : World) : out World :=
  match l with
  | [] => Done w
  | p :: l' => w' ← file_put scrypt path pass (p_salt p) (p_nonce p) (p_name p) (p_secret p) w; run_puts l' w'
  end.
Definition latest (l : list put_call) : dict string := foldl (λ d p, dset (p_name p) (p_secret p) d) [] l.
Definition loads_as (d : dict string) (w : World) : Prop :=
  good_entries d ∧ ∃ d', _load_entries scrypt path pass w = Done d' ∧ d' ≡ₚ d.

Lemma put_loads d p w : loads_as d w → valid_text (p_name p) = true → valid_text (p_secret p) = true →
  ∃ w', file_put scrypt path pass (p_salt p) (p_nonce p) (p_name p) (p_secret p) w = Done w' ∧
    loads_as (dset (p_name p) (p_secret p) d) w' ∧ environ w' = environ w ∧
    ∀ q, q ≠ path → q ≠ path +:+ ".tmp" → dget q (files w') = dget q (files w).
Proof.
  intros (Hg & d' & Hl & Hp) Hn Hs. unfold file_put. rewrite Hl. unfold mbind, out_bind. eexists. split; [done|].
  assert (Hd' : good_entries d') by (by eapply (good_perm d d')).
  assert (Hg' : good_entries (dset (p_name p) (p_secret p) d')) by by apply good_set.
  destruct (saved (p_salt p) (p_nonce p) (dset (p_name p) (p_secret p) d') (files w)) as [H1 H2].
  split; [|split; [done|apply H2]]. split; [by apply good_set|].
  eexists. split; [eapply document_read; [done|exact H1]|]. rewrite py_sorted_perm.
  apply NoDup_Permutation.
  - eapply (NoDup_fmap_1 fst). by apply dkeys_dset_NoDup, Hd'.
  - eapply (NoDup_fmap_1 fst). by apply dkeys_dset_NoDup, Hg.
  - intros [k s].
    assert (H : ∀ e : dict string, NoDup (dkeys e) → (k, s) ∈ e ↔ dget k e = Some s)
      by (intros e He; split; [by apply elem_dget|apply dget_Some_elem]).
    rewrite !H by (apply dkeys_dset_NoDup; apply Hd' || apply Hg).
    rewrite !dget_dset. case_decide; [done|]. by rewrite (dget_perm d' d k (proj1 Hd') Hp).
Qed.

(** C26: After any puts into a store without a file, an entry resolves to the secret that was put
    last under its name, the other names are not found, and no other file is touched. *)
Theorem puts_resolve l w : dget path (files w) = None →
  Forall (λ p, valid_text (p_name p) = true ∧ valid_text (p_secret p) = true) l →
  ∃ w', run_puts l w = Done w' ∧
    (∀ name, match dget name (latest l) with
             | Some secret => file_resolve scrypt path pass w' name = Done secret
             | None => ∃ msg, file_resolve scrypt path pass w' name = Failed (Cred CredentialNotFoundError msg)
             end) ∧
    environ w' = environ w ∧
    ∀ q, q ≠ path → q ≠ path +:+ ".tmp" → dget q (files w') = dget q (files w).
Proof.
  intros Hf Hl.
  assert (H : ∀ d w0, loads_as d w0 → ∃ w', run_puts l w0 = Done w' ∧
            loads_as (foldl (λ d p, dset (p_name p) (p_secret p) d) d l) w' ∧ environ w' = environ w0 ∧
            ∀ q, q ≠ path → q ≠ path +:+ ".tmp" → dget q (files w') = dget q (files w0)).
  { clear Hf w. induction Hl as [|p l [Hn Hs] _ IH]; intros d w0 H0; [by exists w0|].
    destruct (put_loads d p w0 H0 Hn Hs) as (w1 & E & H1 & He & Hq).
    destruct (IH _ _ H1) as (w' & E' & H' & He' & Hq'). exists w'. cbn [run_puts]. rewrite E. unfold mbind, out_bind.
    split_and!; [done|done|congruence|]. intros q ??. by rewrite Hq', Hq. }
  destruct (H [] w) as (w' & E & (Hg & d' & Hload & Hp) & He & Hq).
  { split; [by split; [apply NoDup_nil_2|intros ?? ?%elem_of_nil]|]. exists []. split; [|done].
    unfold _load_entries. by rewrite Hf. }
  exists w'. split_and!; [done| |done|done]. intros name. unfold file_resolve. rewrite Hload. unfold mbind, out_bind.
  fold (latest l) in *. rewrite <-(dget_perm (latest l) d' name (proj1 Hg) (symmetry Hp)).
  destruct (dget name (latest l)); [done|by eexists].
Qed.

(** A crash at any point of a put leaves the credential file as it was before the put or as the
    put leaves it, so every entry resolves as before or as after. *)
Theorem put_crash_safe salt nonce d w fs' :
  crashed (_save_entries scrypt path pass salt nonce d) (files w) fs' →
  let done := foldl (λ fs st, do_step st fs) (files w) (_save_entries scrypt path pass salt nonce d) in
  (∀ name, file_resolve scrypt path pass (set_files fs' w) name = file_resolve scrypt path pass w name) ∨
  (∀ name, file_resolve scrypt path pass (set_files fs' w) name =
           file_resolve scrypt path pass (set_files done w) name).
Proof.
  intros H. set (fs := files w) in *. cbn zeta.
  assert (Hr : ∀ g g', dget path g = dget path g' → ∀ name,
            file_resolve scrypt path pass (set_files g w) name = file_resolve scrypt path pass (set_files g' w) name).
  { intros g g' Hg name. unfold file_resolve, _load_entries. cbn [files set_files]. by rewrite Hg. }
  assert (Hw : set_files fs w = w) by by destruct w.
  assert (dget path fs' = dget path fs ∨
          dget path fs' = dget path (foldl (λ g st, do_step st g) fs (_save_entries scrypt path pass salt nonce d))) as [E|E].
  - unfold _save_entries in *. pose proof (not_eq_sym (tmp_ne path)) as Hne.
    inversion H as [|? ? t' ? ? Hp|? ? ? ? H1]; subst; [by left|left; by rewrite dget_dset_ne|].
    cbn [do_step] in H1. inversion H1 as [|? ? t' ? ? Hp|? ? ? ? H2]; subst; [left; by rewrite dget_dset_ne|].
    inversion H2; subst. by right.
  - left. intros name. by rewrite (Hr fs' fs E name), Hw.
  - right. by apply Hr.
Qed.
End RoundTrip.

(** ** The gate and the resolution agree *)

(** What a backend promises the store. *)
Class BackendLaws (b : CredentialBackend) : Prop :=
  contains_resolves w name :
    match b_contains b w name with
    | Done true => ∃ s, b_resolve b w name = Done s
    | Done false => ∃ msg, b_resolve b w name = Failed (Cred CredentialNotFoundError msg)
    | Failed e => b_resolve b w name = Failed e
    end.
#[global] Instance env_laws prefix : BackendLaws (EnvCredentialBackend prefix).
Proof. intros w name. cbn. unfold dmem, env_resolve. destruct (dget name (environ w)); by eexists. Qed.
#[global] Instance file_laws scrypt path pass : BackendLaws (EncryptedFileCredentialBackend scrypt path pass).
Proof.
  intros w name. cbn. unfold file_contains, file_resolve, mbind, out_bind, fmap, out_fmap.
  destruct (_load_entries scrypt path pass w) as [d|e]; [|done]. unfold dmem. destruct (dget name d); by eexists.
Qed.

(** For a reference that is not blank the gate says that it exists exactly when resolving it gives
    a secret, that it does not exactly when resolving reports it as not found, and raises what
    resolving raises otherwise. *)
Theorem gate_exact ref s w :
  (∀ k b, dget k (_backends s) = Some b → BackendLaws b) → nonempty (strip ref) = true →
  match has ref s w with
  | Done true => ∃ secret, resolve ref s w = Done secret
  | Done false => ∃ msg, resolve ref s w = Failed (Cred CredentialNotFoundError msg)
  | Failed e => resolve ref s w = Failed e
  end.
Proof.
  intros Hb Hr. assert (Hne : nonempty ref = true) by by destruct ref.
  unfold has, resolve. rewrite Hr, Hne. cbn [negb orb]. unfold mbind, out_bind.
  destruct (_backend_for ref s) as [[b name]|e] eqn:E.
  - assert (BackendLaws b) as Hl; [|apply Hl]. unfold _backend_for in E.
    destruct (partition_colon ref) as [[kind sep] rest]. destruct (sep && nonempty kind && nonempty rest).
    + destruct (dget kind (_backends s)) eqn:Ed; simplify_eq. by eapply Hb.
    + destruct (_default_backend s) as [d|]; [|done]. destruct (dget d (_backends s)) eqn:Ed; simplify_eq. by eapply Hb.
  - destruct e as [[]|]; try done. by eexists.
Qed.

(** ** Instances and corner cases *)

Definition sample_kdf (pass salt : string) : string := pass +:+ salt.
Definition sample_puts : list put_call :=
  [mkPut "salt-1" "nonce-1" "smtp" "hunter2"; mkPut "salt-2" "nonce-2" "erp" "clé";
   mkPut "salt-3" "nonce-3" "smtp" "correct horse"].
Definition empty_world : World := mkWorld [] [("notes.txt", "hello")].

Example put_three_times :
  match run_puts sample_kdf "creds.json" "pass" sample_puts empty_world with
  | Done w => file_resolve sample_kdf "creds.json" "pass" w "smtp" = Done "correct horse" ∧
      file_entries sample_kdf "creds.json" "pass" w = Done ["erp"; "smtp"] ∧
      dget "notes.txt" (files w) = Some "hello" ∧ dget "creds.json.tmp" (files w) = None ∧
      file_resolve sample_kdf "creds.json" "pqss" w "smtp" =
        Failed (Cred CredentialDecryptError
                  "credential file failed integrity check (wrong passphrase or tampered payload)")
  | Failed _ => False
  end.
Proof. by vm_compute. Qed.

Lemma puts_resolve_witness :
  dget "creds.json" (files empty_world) = None ∧
  ∃ w', run_puts sample_kdf "creds.json" "pass" sample_puts empty_world = Done w' ∧
    (∀ name, match dget name (latest sample_puts) with
             | Some secret => file_resolve sample_kdf "creds.json" "pass" w' name = Done secret
             | None => ∃ msg, file_resolve sample_kdf "creds.json" "pass" w' name =
                              Failed (Cred CredentialNotFoundError msg)
             end) ∧
    environ w' = [] ∧
    ∀ q, q ≠ "creds.json" → q ≠ "creds.json.tmp" → dget q (files w') = dget q [("notes.txt", "hello")].
Proof.
  split; [reflexivity|].
  apply (puts_resolve sample_kdf "creds.json" "pass" sample_puts empty_world); [reflexivity|].
  repeat constructor.
Defined.

Lemma put_crash_safe_witness :
  let steps := _save_entries sample_kdf "creds.json" "pass" "salt" "nonce" [("smtp", "hunter2")] in
  let fs' := dset "creds.json.tmp" "{" (files empty_world) in
  crashed steps (files empty_world) fs' ∧
  ((∀ name, file_resolve sample_kdf "creds.json" "pass" (set_files fs' empty_world) name =
            file_resolve sample_kdf "creds.json" "pass" empty_world name) ∨
   (∀ name, file_resolve sample_kdf "creds.json" "pass" (set_files fs' empty_world) name =
            file_resolve sample_kdf "creds.json" "pass"
              (set_files (foldl (λ fs st, do_step st fs) (files empty_world) steps) empty_world) name)).
Proof.
  assert (H : crashed (_save_entries sample_kdf "creds.json" "pass" "salt" "nonce" [("smtp", "hunter2")])
                (files empty_world) (dset "creds.json.tmp" "{" (files empty_world)))
    by (apply crash_within; vm_compute; reflexivity).
  split; [exact H|]. exact (put_crash_safe sample_kdf "creds.json" "pass" "salt" "nonce" _ empty_world _ H).
Defined.

Definition env_store : CredentialStore := mkStore [("env", EnvCredentialBackend None)] (Some "env").
Definition env_world : World := mkWorld [("TOKEN", "t0"); (" ", "blank")] [].

Lemma gate_exact_witness :
  has "TOKEN" env_store env_world = Done true ∧ ∃ secret, resolve "TOKEN" env_store env_world = Done secret.
Proof.
  split; [reflexivity|].
  apply (gate_exact "TOKEN" env_store env_world); [|reflexivity].
  intros k b Hb. cbn in Hb. case_decide; [|discriminate]. simplify_eq. apply env_laws.
Defined.

(** A kind that is not registered does not fall back to the default backend. *)
Example unknown_kind_no_default :
  has "db:main" env_store env_world = Done false ∧ has "env:TOKEN" env_store env_world = Done true.
Proof. by vm_compute. Qed.
(** The gate raises where the default backend is missing, or the file is damaged. *)
Example gate_raises :
  has "TOKEN" (mkStore [] (Some "file")) env_world =
    Failed (Cred CredentialStoreError "default backend 'file' is not registered") ∧
  has "file:smtp" (mkStore [("file", EncryptedFileCredentialBackend sample_kdf "c" "p")] None)
    (mkWorld [] [("c", "{}")]) = Failed (bad_file "c" "has an unsupported format").
Proof. by vm_compute. Qed.
(** A salt that is a number is not reported as a malformed file. *)
Example numeric_salt :
  file_resolve sample_kdf "c" "p"
    (mkWorld [] [("c", dumps (VDict [("version", VInt 1); ("salt", VInt 5)]))]) "smtp" =
  Failed (Py (Exn TypeError "argument should be a bytes-like object or ASCII string, not 'int'")).
Proof. by vm_compute. Qed.
(** A blank reference exists where a backend has a blank name, and does not resolve. *)
Example blank_reference :
  has " " env_store env_world = Done true ∧
  resolve " " env_store env_world =
    Failed (Cred MissingCredentialRefError
              "credential_ref is empty: a credential reference is required to resolve a credential").
Proof. by vm_compute. Qed.
