(* ===== verification/LegacyJournal.v ===== *)
(** * The journal of ticks in the previous architecture (legacy/journal.py, AuditLog of audit.py)

    One record per started tick; the audit log writes every event also into the record that is
    current.  What legacy/simulation.py captures into it, and when it closes it, is included.  An
    object the code appends to is an index into the records.  Timestamps are left out. *)

From stdpp Require Import base strings list.
From Stdlib Require Import ZArith Lia.
From S2P Require Import Prelude PyValue.
From S2P Require LegacyTransaction LegacyOps LegacyOutbox.
From S2P Require Import LegacyKb.

Open Scope string_scope.
Open Scope list_scope.
Open Scope nat_scope.

Inductive TickRecordStatus := J_COMMITTED | J_ABORTED.
Record IntentSummary := mkIntentSummary {
  is_id : string; is_type : string; is_agent : string; is_task : string; is_success : bool; is_error : option string }.
Record EffectSummary := mkEffectSummary {
  es_id : string; es_type : string; es_agent : string; es_resource : string; es_status : string; es_error : option string }.
Record PendingOpSummary := mkOpSummary { po_id : string; po_type : string; po_agent : string; po_tick : Z }.
Record OutboxSummary := mkOutboxSummary {
  ob_entry : string; ob_effect : string; ob_from : string; ob_to : list string; ob_subject : string }.
Record TickRecord := mkTickRecord {
  tr_tick : Z; tr_epoch : Z; snapshot_hash : string; tr_intents : list IntentSummary;
  tr_validation : list IntentSummary; tr_effects : list EffectSummary; tr_pending_ops : list PendingOpSummary;
  tr_outbox : list OutboxSummary; audit_events : list AuditEntry; tr_status : TickRecordStatus;
  tr_error : option string }.
Definition TickRecord_new (tick epoch : Z) : TickRecord :=
  mkTickRecord tick epoch "" [] [] [] [] [] [] J_COMMITTED None.

Definition add_intents (l : list IntentSummary) (r : TickRecord) : TickRecord :=
  mkTickRecord (tr_tick r) (tr_epoch r) (snapshot_hash r) (tr_intents r ++ l) (tr_validation r) (tr_effects r)
    (tr_pending_ops r) (tr_outbox r) (audit_events r) (tr_status r) (tr_error r).
Definition add_validation (l : list IntentSummary) (r : TickRecord) : TickRecord :=
  mkTickRecord (tr_tick r) (tr_epoch r) (snapshot_hash r) (tr_intents r) (tr_validation r ++ l) (tr_effects r)
    (tr_pending_ops r) (tr_outbox r) (audit_events r) (tr_status r) (tr_error r).
Definition add_commit (es : list EffectSummary) (ps : list PendingOpSummary) (os : list OutboxSummary)
    (r : TickRecord) : TickRecord :=
  mkTickRecord (tr_tick r) (tr_epoch r) (snapshot_hash r) (tr_intents r) (tr_validation r) (tr_effects r ++ es)
    (tr_pending_ops r ++ ps) (tr_outbox r ++ os) (audit_events r) (tr_status r) (tr_error r).
Definition add_audit (e : AuditEntry) (r : TickRecord) : TickRecord :=
  mkTickRecord (tr_tick r) (tr_epoch r) (snapshot_hash r) (tr_intents r) (tr_validation r) (tr_effects r)
    (tr_pending_ops r) (tr_outbox r) (audit_events r ++ [e]) (tr_status r) (tr_error r).
Definition set_hash (h : string) (r : TickRecord) : TickRecord :=
  mkTickRecord (tr_tick r) (tr_epoch r) h (tr_intents r) (tr_validation r) (tr_effects r)
    (tr_pending_ops r) (tr_outbox r) (audit_events r) (tr_status r) (tr_error r).
Definition set_final (st : TickRecordStatus) (err : option string) (r : TickRecord) : TickRecord :=
  mkTickRecord (tr_tick r) (tr_epoch r) (snapshot_hash r) (tr_intents r) (tr_validation r) (tr_effects r)
    (tr_pending_ops r) (tr_outbox r) (audit_events r) st err.

(** ** The journal *)

(** [_current_record]: the place of the record in [_records]. *)
Record TickJournal := mkJournal { _records : list TickRecord; _current_record : option nat }.
Definition TickJournal_init : TickJournal := mkJournal [] None.
Definition start_tick (tick epoch : Z) (j : TickJournal) : TickJournal :=
  mkJournal (_records j ++ [TickRecord_new tick epoch]) (Some (length (_records j))).
Definition current_record (j : TickJournal) : option TickRecord := i ← _current_record j; _records j !! i.
(** A change of the record that is current, where one is. *)
Definition on_current (f : TickRecord → TickRecord) (j : TickJournal) : TickJournal :=
  match _current_record j with
  | Some i => mkJournal (alter f i (_records j)) (Some i)
  | None => j
  end.
Definition finalize (st : TickRecordStatus) (err : option string) : M TickJournal () := λ j,
  match _current_record j with
  | None => (Raise (Exn RuntimeError "No active tick record to finalize"), j)
  | Some _ => (Ok (), mkJournal (_records (on_current (set_final st err) j)) None)
  end.
Definition for_tick (tick : Z) (j : TickJournal) : option TickRecord :=
  List.find (λ r, bool_decide (tr_tick r = tick)) (_records j).
(** [l[-n:]] *)
Definition last_records (n : Z) (j : TickJournal) : list TickRecord :=
  let len := Z.of_nat (length (_records j)) in
  let from := if (n <? 0)%Z then (- n)%Z else if (n =? 0)%Z then 0%Z else (len - n)%Z in
  drop (Z.to_nat from) (_records j).

(** ** The audit log on top of it *)

Record AuditLog := mkAudit { _entries : list AuditEntry; _counter : nat }.
Record logs := mkLogs { audit_log : AuditLog; journal : TickJournal }.
Definition logs_init : logs := mkLogs (mkAudit [] 0) TickJournal_init.
Definition on_journal (f : TickJournal → TickJournal) (w : logs) : logs := mkLogs (audit_log w) (f (journal w)).
Definition record_event (ty agent : string) (tick : Z) (d : dict value) (ok : bool) (err : option string) (w : logs) : logs :=
  let n := S (_counter (audit_log w)) in
  let e := Audit n ty agent tick d ok err in
  mkLogs (mkAudit (_entries (audit_log w) ++ [e]) n) (on_current (add_audit e) (journal w)).
Definition clear (w : logs) : logs := mkLogs (mkAudit [] 0) (journal w).

(** ** What a tick captures (legacy/simulation.py) *)

(** An intent as the capture sees it: attributes it may lack, and the name of its class. *)
Record intent := mkIntent { i_id : option string; i_type : option string; i_class : string; i_task : option string }.
Definition intent_summary (agent : string) (i : intent) (ok : bool) (err : option string) : IntentSummary :=
  mkIntentSummary (default "" (i_id i)) (default (i_class i) (i_type i)) agent (default "" (i_task i)) ok err.
Definition intent_summaries (plans : dict (list intent)) : list IntentSummary :=
  p ← plans; (λ i, intent_summary p.1 i true None) <$> p.2.
Definition _capture_intents (plans : dict (list intent)) : logs → logs :=
  on_journal (on_current (add_intents (intent_summaries plans))).
(** The results of an agent, success and error, go with its intents by position. *)
Definition validation_summaries (plans : dict (list intent)) (validated : dict (list (bool * option string))) :
    list IntentSummary :=
  p ← plans;
  let results := default [] (dget p.1 validated) in
  imap (λ n i, match results !! n with
               | Some (ok, err) => intent_summary p.1 i ok err
               | None => intent_summary p.1 i true None
               end) p.2.
Definition _capture_validation (plans : dict (list intent)) (validated : dict (list (bool * option string))) :
    logs → logs :=
  on_journal (on_current (add_validation (validation_summaries plans validated))).

Definition effect_status_value (s : LegacyTransaction.EffectStatus) : string :=
  match s with
  | LegacyTransaction.STAGED => "staged" | LegacyTransaction.VALIDATED => "validated"
  | LegacyTransaction.COMMITTED => "committed" | LegacyTransaction.FAILED => "failed"
  | LegacyTransaction.ROLLED_BACK => "rolled_back"
  end.
Definition effect_summary (e : LegacyTransaction.StagedEffect) : EffectSummary :=
  mkEffectSummary (LegacyTransaction.effect_id e) (LegacyTransaction.effect_value (LegacyTransaction.effect_type e))
    (LegacyTransaction.agent_id e) (LegacyTransaction.resource e) (effect_status_value (LegacyTransaction.status e))
    (LegacyTransaction.error e).
Definition op_summary (o : LegacyOps.PendingOperation) : PendingOpSummary :=
  mkOpSummary (LegacyOps.request_id o) (LegacyOps.type_value (LegacyOps.op_type o)) (LegacyOps.agent_id o)
    (LegacyOps.created_tick o).
Definition outbox_summary (e : LegacyOutbox.OutboxEntry) : OutboxSummary :=
  mkOutboxSummary (LegacyOutbox.entry_id e) (LegacyOutbox.effect_id e) (LegacyOutbox.from_agent (LegacyOutbox.mail e))
    (LegacyOutbox.to (LegacyOutbox.mail e)) (LegacyOutbox.subject (LegacyOutbox.mail e)).
(** Entries of the outbox that are still committed and come from an effect of this tick. *)
Definition staged_this_tick (committed : list LegacyTransaction.StagedEffect) (o : LegacyOutbox.Outbox) :
    list LegacyOutbox.OutboxEntry :=
  List.filter (λ e, nonempty (LegacyOutbox.effect_id e)
                    && bool_decide (LegacyOutbox.effect_id e ∈ map LegacyTransaction.effect_id committed))
    (LegacyOutbox.entries_by_status LegacyOutbox.COMMITTED o).
(** At the end of a commit; a rolled back one records its effects only. *)
Definition _capture_commit (rolled_back : bool) (committed : list LegacyTransaction.StagedEffect)
    (ops : list LegacyOps.PendingOperation) (o : LegacyOutbox.Outbox) : logs → logs :=
  on_journal (on_current
    (if rolled_back then add_commit (map effect_summary committed) [] []
     else add_commit (map effect_summary committed) (map op_summary ops)
            (map outbox_summary (staged_this_tick committed o)))).

(** The end of a tick. *)
Definition close_tick (hash : string) (rolled_back : bool) (err : option string) (w : logs) : logs :=
  match current_record (journal w) with
  | None => w
  | Some _ =>
      let j := on_current (set_hash hash) (journal w) in
      mkLogs (audit_log w)
        (if rolled_back then finalize J_ABORTED err j else finalize J_COMMITTED None j).2
  end.

(** ** Histories *)

Inductive capture :=
| C_event (ty agent : string) (tick : Z) (d : dict value) (ok : bool) (err : option string)
| C_intents (plans : dict (list intent))
| C_validation (plans : dict (list intent)) (validated : dict (list (bool * option string)))
| C_commit (rolled_back : bool) (committed : list LegacyTransaction.StagedEffect)
    (ops : list LegacyOps.PendingOperation) (o : LegacyOutbox.Outbox).
Definition do_capture (c : capture) : logs → logs :=
  match c with
  | C_event ty agent tick d ok err => record_event ty agent tick d ok err
  | C_intents plans => _capture_intents plans
  | C_validation plans validated => _capture_validation plans validated
  | C_commit rb es ops o => _capture_commit rb es ops o
  end.
(** A tick ends, or an exception leaves it; events are recorded outside of ticks, too. *)
Inductive ending := Finished (hash : string) (rolled_back : bool) (err : option string) | Escaped.
Inductive episode :=
| Tick (tick epoch : Z) (l : list capture) (e : ending)
| Between (ty agent : string) (tick : Z) (d : dict value) (ok : bool) (err : option string).
Definition run_captures (l : list capture) (w : logs) : logs := foldl (λ w c, do_capture c w) w l.
Definition run_episode (w : logs) (p : episode) : logs :=
  match p with
  | Tick tick epoch l e =>
      let w := run_captures l (on_journal (start_tick tick epoch) w) in
      match e with Finished hash rb err => close_tick hash rb err w | Escaped => w end
  | Between ty agent tick d ok err => record_event ty agent tick d ok err w
  end.
Definition run_history (l : list episode) (w : logs) : logs := foldl run_episode w l.

(** ** What the journal says of a history *)

Definition event_of (e : AuditEntry) : string * string * Z * dict value * bool * option string :=
  (event_type e, ae_agent e, ae_tick e, details e, ae_success e, ae_error e).
Definition capture_events (l : list capture) : list (string * string * Z * dict value * bool * option string) :=
  c ← l; match c with C_event ty agent tick d ok err => [(ty, agent, tick, d, ok, err)] | _ => [] end.
Definition events (l : list episode) : list (string * string * Z * dict value * bool * option string) :=
  p ← l; match p with
         | Tick _ _ c _ => capture_events c
         | Between ty agent tick d ok err => [(ty, agent, tick, d, ok, err)]
         end.
Definition outcome (e : ending) : TickRecordStatus := match e with Finished _ true _ => J_ABORTED | _ => J_COMMITTED end.
(** The ticks with the status their records end in. *)
Definition ticks (l : list episode) : list (Z * Z * TickRecordStatus) :=
  p ← l; match p with Tick t ep _ e => [(t, ep, outcome e)] | Between _ _ _ _ _ _ => [] end.
(** Whether the last tick was left by an exception. *)
Definition escaped (e : ending) : bool := match e with Escaped => true | Finished _ _ _ => false end.
Definition left_open (l : list episode) : bool :=
  foldl (λ b p, match p with Tick _ _ _ e => escaped e | Between _ _ _ _ _ _ => b end) false l.
(** The events within ticks, and those after a tick that an exception left. *)
Fixpoint journalled (open : bool) (l : list episode) : list (string * string * Z * dict value * bool * option string) :=
  match l with
  | [] => []
  | Tick _ _ c e :: l' =>
      capture_events c ++ journalled (escaped e) l'
  | Between ty agent tick d ok err :: l' =>
      (if open then [(ty, agent, tick, d, ok, err)] else []) ++ journalled open l'
  end.

Definition signature (r : TickRecord) : Z * Z * TickRecordStatus := (tr_tick r, tr_epoch r, tr_status r).

(** The logs with [r] current, after the records [rs]. *)
Definition opened_with (rs : list TickRecord) (r : TickRecord) (w : logs) : Prop :=
  journal w = mkJournal (rs ++ [r]) (Some (length rs)).
Definition counted (w : logs) : Prop :=
  map event_id (_entries (audit_log w)) = seq 1 (length (_entries (audit_log w))) ∧
  _counter (audit_log w) = length (_entries (audit_log w)).

Lemma on_current_opened f rs r w : opened_with rs r w → opened_with rs (f r) (on_journal (on_current f) w).
Proof.
  unfold opened_with, on_current. cbn. intros ->. cbn. f_equal.
  pose proof (alter_app_r f rs [r] 0) as H. by rewrite Nat.add_0_r in H.
Qed.
Lemma record_event_opened ty agent tick d ok err rs r w : opened_with rs r w → counted w →
  let w' := record_event ty agent tick d ok err w in
  ∃ e, opened_with rs (add_audit e r) w' ∧ _entries (audit_log w') = _entries (audit_log w) ++ [e] ∧
    event_of e = (ty, agent, tick, d, ok, err) ∧ counted w'.
Proof.
  intros Ho [Hi Hc]. eexists. cbn. split_and!; [|done|done|].
  - apply (on_current_opened (add_audit _) rs r w Ho).
  - split; cbn; rewrite ?length_app; simpl; [|lia]. by rewrite map_app, Hi, Nat.add_1_r, seq_S, Hc.
Qed.
Lemma capture_opened c rs r w : opened_with rs r w → counted w →
  ∃ es r', opened_with rs r' (do_capture c w) ∧ signature r' = signature r ∧ audit_events r' = audit_events r ++ es ∧
    _entries (audit_log (do_capture c w)) = _entries (audit_log w) ++ es ∧ map event_of es = capture_events [c] ∧
    counted (do_capture c w).
Proof.
  intros Ho Hc. destruct c as [ty agent tick d ok err|plans|plans validated|rb es ops o]; cbn [do_capture].
  - destruct (record_event_opened ty agent tick d ok err rs r w Ho Hc) as (e & H1 & H2 & H3 & H4).
    exists [e]. eexists. split_and!; [done|done|done|done|by cbn; rewrite H3|done].
  - exists [], (add_intents (intent_summaries plans) r). rewrite !app_nil_r. split_and!; try done. by apply on_current_opened.
  - exists [], (add_validation (validation_summaries plans validated) r). rewrite !app_nil_r. split_and!; try done.
    by apply on_current_opened.
  - unfold _capture_commit. exists []. eexists. rewrite !app_nil_r. split_and!; [by apply on_current_opened|by destruct rb|by destruct rb|done|done|done].
Qed.
Lemma captures_opened l rs r w : opened_with rs r w → counted w →
  ∃ es r', opened_with rs r' (run_captures l w) ∧ signature r' = signature r ∧ audit_events r' = audit_events r ++ es ∧
    _entries (audit_log (run_captures l w)) = _entries (audit_log w) ++ es ∧ map event_of es = capture_events l ∧
    counted (run_captures l w).
Proof.
  revert r w. induction l as [|c l IH]; intros r w Ho Hc.
  - exists [], r. by rewrite !app_nil_r.
  - destruct (capture_opened c rs r w Ho Hc) as (es & r1 & H1 & Hs & Ha & He & Hm & Hc1).
    destruct (IH r1 (do_capture c w) H1 Hc1) as (es' & r' & H1' & Hs' & Ha' & He' & Hm' & Hc').
    exists (es ++ es'), r'. cbn [run_captures foldl]. unfold run_captures in *.
    rewrite He', He, Ha', Ha, map_app, Hm, Hm', !app_assoc. split_and!; try done; [congruence|].
    unfold capture_events. cbn. by rewrite app_nil_r.
Qed.
Lemma close_opened hash rb err rs r w : opened_with rs r w →
  close_tick hash rb err w =
  mkLogs (audit_log w)
    (mkJournal (rs ++ [set_final (if rb then J_ABORTED else J_COMMITTED) (if rb then err else None) (set_hash hash r)]) None).
Proof.
  intros Ho. unfold close_tick. assert (current_record (journal w) = Some r) as ->.
  { unfold opened_with in Ho. destruct w as [a j]. cbn in *. subst j. change ((rs ++ [r]) !! length rs = Some r). by rewrite list_lookup_middle. }
  pose proof (on_current_opened (set_hash hash) rs r w Ho) as H1.
  pose proof (λ f, on_current_opened f rs _ _ H1) as H2. unfold opened_with in H1, H2. cbn [on_journal journal] in H1, H2.
  rewrite H1 in *. f_equal. destruct rb; unfold finalize; cbn [_current_record snd]; by rewrite H2.
Qed.

Lemma start_opened tick epoch w :
  opened_with (_records (journal w)) (TickRecord_new tick epoch) (on_journal (start_tick tick epoch) w).
Proof. done. Qed.
Lemma journalled_snoc b l p :
  journalled b (l ++ [p]) =
  journalled b l ++ journalled (foldl (λ b p, match p with Tick _ _ _ e => escaped e | Between _ _ _ _ _ _ => b end) b l) [p].
Proof.
  revert b. induction l as [|q l IH]; intros b; [done|]. destruct q; cbn [app journalled foldl]; rewrite IH; by rewrite app_assoc.
Qed.
Lemma bind_snoc {A B} (f : A → list B) l x : (l ++ [x]) ≫= f = (l ≫= f) ++ f x.
Proof. rewrite bind_app. cbn. by rewrite app_nil_r. Qed.

Lemma history_state l :
  let w := run_history l logs_init in
  map signature (_records (journal w)) = ticks l ∧
  map event_of (_entries (audit_log w)) = events l ∧ counted w ∧
  map event_of (_records (journal w) ≫= audit_events) = journalled false l ∧
  (_records (journal w) ≫= audit_events) `sublist_of` _entries (audit_log w) ∧
  if left_open l then ∃ rs r, opened_with rs r w else _current_record (journal w) = None.
Proof.
  induction l as [|p l IH] using rev_ind; [done|]. cbv zeta in *.
  assert (E : run_history (l ++ [p]) logs_init = run_episode (run_history l logs_init) p)
    by (unfold run_history; by rewrite foldl_snoc).
  rewrite E. clear E. set (w := run_history l logs_init) in *. destruct IH as (Hs & He & Hc & Hj & Hsub & Ho).
  unfold ticks, events in *. rewrite !bind_snoc, journalled_snoc. fold (left_open l).
  assert (left_open (l ++ [p]) = match p with Tick _ _ _ e => escaped e | Between _ _ _ _ _ _ => left_open l end) as ->
    by (unfold left_open; by rewrite foldl_snoc).
  destruct p as [tick epoch cs e|ty agent tick d ok err]; cbn [run_episode].
  - destruct (captures_opened cs _ _ _ (start_opened tick epoch w) Hc) as (es & r & H1 & Hr & Ha & Hen & Hm & Hc1).
    set (w1 := run_captures cs (on_journal (start_tick tick epoch) w)) in *. cbn in Ha, Hr, Hen.
    assert (Hfin : ∀ st f w2, audit_log w2 = audit_log w1 → _records (journal w2) = _records (journal w) ++ [f r] →
              signature (f r) = (tick, epoch, st) → audit_events (f r) = audit_events r →
              map signature (_records (journal w2)) = ticks l ++ [(tick, epoch, st)] ∧
              map event_of (_entries (audit_log w2)) = events l ++ capture_events cs ∧ counted w2 ∧
              map event_of (_records (journal w2) ≫= audit_events) = journalled false l ++ capture_events cs ∧
              (_records (journal w2) ≫= audit_events) `sublist_of` _entries (audit_log w2)).
    { intros st f w2 Ew Er Hst Hae. assert (counted w2) by (unfold counted; by rewrite Ew).
      rewrite Ew, Er, bind_snoc, Hae, Ha, Hen, !map_app, Hs, He, Hj, Hm.
      cbn [map]. rewrite Hst. split_and!; [done|done|done|done|by apply sublist_app]. }
    cbn [journalled]. rewrite app_nil_r. destruct e as [hash rb err|]; cbn [escaped outcome].
    + rewrite (close_opened hash rb err _ _ _ H1).
      destruct (Hfin (if rb then J_ABORTED else J_COMMITTED)
                  (λ r, set_final (if rb then J_ABORTED else J_COMMITTED) (if rb then err else None) (set_hash hash r))
                  (mkLogs (audit_log w1) (mkJournal (_records (journal w) ++ [set_final (if rb then J_ABORTED else J_COMMITTED)
                     (if rb then err else None) (set_hash hash r)]) None))) as (? & ? & ? & ? & ?);
        [done|done|unfold signature in *; cbn in *; congruence|done|].
      by split_and!; try done; destruct rb.
    + destruct (Hfin J_COMMITTED (λ r, r) w1) as (? & ? & ? & ? & ?); [done|by rewrite H1|done|done|].
      split_and!; try done. by exists (_records (journal w)), r.
  - rewrite app_nil_r. cbn [journalled]. rewrite app_nil_r. destruct (left_open l) eqn:El.
    + destruct Ho as (rs & r & Ho). destruct (record_event_opened ty agent tick d ok err rs r w Ho Hc) as (x & H1 & H2 & H3 & H4).
      rewrite H2, map_app, He. cbn [map]. rewrite H3. rewrite H1. cbn [_records]. rewrite Ho in Hs, Hj, Hsub. cbn [_records] in *.
      rewrite bind_snoc in *. cbn [audit_events add_audit]. rewrite app_assoc, !map_app in *. cbn [map]. rewrite H3, <-Hj.
      split_and!; try done; [by apply sublist_app|]. by eexists _, _.
    + unfold record_event, on_current. rewrite Ho. cbn. rewrite map_app, He, app_nil_r. destruct Hc as [Hi Hc].
      split_and!; try done; [|by apply sublist_inserts_r].
      split; cbn; rewrite ?length_app; simpl; [|lia]. by rewrite map_app, Hi, Nat.add_1_r, seq_S, Hc.
Qed.

(** Over any history of ticks, crashed and rolled back ones included, the journal has one record
    per started tick in order, aborted exactly where the tick was rolled back; the audit log has
    every event once, numbered without gaps; and the records hold, in order, exactly the events
    within ticks and those between a crash and the next tick. *)
Theorem journal_exact l :
  let w := run_history l logs_init in
  map signature (_records (journal w)) = ticks l ∧
  map event_of (_entries (audit_log w)) = events l ∧
  map event_id (_entries (audit_log w)) = seq 1 (length (events l)) ∧
  map event_of (_records (journal w) ≫= audit_events) = journalled false l ∧
  (_records (journal w) ≫= audit_events) `sublist_of` _entries (audit_log w).
Proof.
  destruct (history_state l) as (Hs & He & [Hi _] & Hj & Hsub & _). split_and!; try done.
  rewrite Hi, <-(length_map event_of), He. done.
Qed.

(** A record of a tick that ended is never altered: what follows only adds records. *)
Lemma run_history_prefix l' w : _current_record (journal w) = None →
  _records (journal w) `prefix_of` _records (journal (run_history l' w)).
Proof.
  intros Hn.
  assert (H : ∀ rs, rs `prefix_of` _records (journal w) →
            (∀ i, _current_record (journal w) = Some i → length rs ≤ i) →
            rs `prefix_of` _records (journal (run_history l' w))); [|by apply (H (_records (journal w))); [|intros i; rewrite Hn]].
  clear Hn. revert w. induction l' as [|p l IH]; intros w rs Hp Hi; [done|]. cbn [run_history foldl].
  change (foldl run_episode (run_episode w p) l) with (run_history l (run_episode w p)).
  assert (Hev : ∀ f w, rs `prefix_of` _records (journal w) → (∀ i, _current_record (journal w) = Some i → length rs ≤ i) →
            rs `prefix_of` _records (on_current f (journal w)) ∧ _current_record (on_current f (journal w)) = _current_record (journal w)).
  { clear. intros f w [k Hk] Hi. unfold on_current. destruct (_current_record (journal w)) as [i|] eqn:E; [|by split; [exists k|]].
    cbn. split; [|done]. exists (alter f (i - length rs) k). rewrite Hk.
    rewrite <-(alter_app_r f rs k). do 2 f_equal. specialize (Hi i eq_refl). lia. }
  assert (Hcap : ∀ cs w, rs `prefix_of` _records (journal w) → (∀ i, _current_record (journal w) = Some i → length rs ≤ i) →
            rs `prefix_of` _records (journal (run_captures cs w)) ∧
            _current_record (journal (run_captures cs w)) = _current_record (journal w)).
  { clear -Hev. induction cs as [|c cs IH]; intros w Hp Hi; [done|]. cbn [run_captures foldl]. unfold run_captures in IH.
    assert (Hc : ∃ f, journal (do_capture c w) = on_current f (journal w)) by (destruct c; by eexists).
    destruct Hc as [f Hc]. destruct (Hev f w Hp Hi) as [H1 H2].
    destruct (IH (do_capture c w)) as [H3 H4]; [by rewrite Hc|intros i; rewrite Hc, H2; apply Hi|].
    rewrite Hc, H2 in H4. done. }
  destruct p as [tick epoch cs e|ty agent tick d ok err]; cbn [run_episode].
  - destruct (Hcap cs (on_journal (start_tick tick epoch) w)) as [H1 H2].
    { cbn. by apply prefix_app_r. }
    { cbn. intros i [= <-]. destruct Hp as [k ->]. rewrite length_app. lia. }
    change (_current_record (journal (on_journal (start_tick tick epoch) w))) with (Some (length (_records (journal w)))) in H2.
    destruct e as [hash rb err|]; [|apply IH; [done|]; intros i; rewrite H2; intros [= <-]; destruct Hp as [k ->]; rewrite length_app; lia].
    set (w1 := run_captures _ _) in *. assert (Hle : length rs ≤ length (_records (journal w)))
      by (destruct Hp as [k ->]; rewrite length_app; lia).
    unfold close_tick. destruct (current_record (journal w1)); [|apply IH; [done|]; intros i; rewrite H2; by intros [= <-]].
    assert (Hi1 : ∀ i, _current_record (journal w1) = Some i → length rs ≤ i) by (intros i; rewrite H2; by intros [= <-]).
    destruct (Hev (set_hash hash) w1 H1 Hi1) as [H3 H4].
    assert (Hfin : ∀ st err, rs `prefix_of` _records (finalize st err (on_current (set_hash hash) (journal w1))).2 ∧
              _current_record (finalize st err (on_current (set_hash hash) (journal w1))).2 = None).
    { intros st er. unfold finalize. rewrite H4, H2. cbn.
      destruct (Hev (set_final st er) (on_journal (on_current (set_hash hash)) w1)) as [H5 _]; [done|by intros i; cbn; rewrite H4, H2; intros [= <-]|done]. }
    apply IH; cbn; destruct rb; try apply Hfin; destruct (Hfin J_ABORTED err), (Hfin J_COMMITTED None); congruence.
  - destruct (Hev (add_audit (Audit (S (_counter (audit_log w))) ty agent tick d ok err)) w Hp Hi) as [H1 H2].
    apply IH; cbn; [done|by intros i; rewrite H2; apply Hi].
Qed.
Lemma journal_append l l' : left_open l = false →
  _records (journal (run_history l logs_init)) `prefix_of` _records (journal (run_history (l ++ l') logs_init)).
Proof.
  intros Ho. unfold run_history at 2. rewrite foldl_app. apply run_history_prefix.
  destruct (history_state l) as (_ & _ & _ & _ & _ & H). by rewrite Ho in H.
Qed.

(** ** Corner cases *)

(** The record of a tick an exception left says committed; the tick is run again under the same
    number, and the query by tick finds the first record.  What is audited in between goes to it. *)
Example crashed_tick_committed :
  let l := [Tick 3 0 [C_event "lock.acquire" "ann" 3 [] true None] Escaped;
            Between "system.crash" "" 3 [] false (Some "boom");
            Tick 3 0 [C_event "lock.acquire" "ann" 3 [] true None] (Finished "h" false None)] in
  let w := run_history l logs_init in
  map signature (_records (journal w)) = [(3, 0, J_COMMITTED); (3, 0, J_COMMITTED)]%Z ∧
  (λ r, map event_type (audit_events r)) <$> for_tick 3 (journal w) = Some ["lock.acquire"; "system.crash"].
Proof. by vm_compute. Qed.

Definition sent : LegacyOutbox.Mail := LegacyOutbox.mkMail "ann" ["bob"] "hello" "" "info" "" [].
Definition sent_effect : LegacyTransaction.StagedEffect :=
  LegacyTransaction.mkEffect "e1" LegacyTransaction.EMAIL_SEND "ann" "mail" [] None None LegacyTransaction.COMMITTED
    None true "" "" [].
(** The capture follows the dispatch, so a mail that went out is not in the record of its tick. *)
Example dispatched_mail_unrecorded :
  let o := (LegacyOutbox.commit "out.1" (LegacyOutbox.stage sent "e1" "k" "1" "" (LegacyOutbox.Outbox_init 3)).2).2 in
  let o' := (LegacyOutbox.dispatch (λ _, None) 5 o).2 in
  map outbox_summary (staged_this_tick [sent_effect] o) = [mkOutboxSummary "out.1" "e1" "ann" ["bob"] "hello"] ∧
  map outbox_summary (staged_this_tick [sent_effect] o') = [].
Proof. by vm_compute. Qed.
(** [last(0)] is the whole journal. *)
Example last_zero_records :
  let j := journal (run_history [Tick 1 0 [] (Finished "" false None); Tick 2 0 [] (Finished "" true (Some "x"))] logs_init) in
  (map tr_tick (last_records 0 j), map tr_tick (last_records 1 j), map tr_tick (last_records 5 j)) = ([1; 2], [2], [1; 2])%Z.
Proof. by vm_compute. Qed.
