(* ===== verification/LegacyStores.v ===== *)
(** * Stores of the previous architecture (legacy/persistence.py, legacy/asset_store.py)

    [SimulationStore]: components as JSON texts in a table of an SQLite file, written in one
    transaction.  The file is a value: its tables, with the rows in the order of their row numbers.
    Creating a table takes effect at once, inserts with the commit.  [AssetStore]: bytes under the
    hash of their content, with a snapshot in base64.  The entity the asset store registers as a
    device is left out. *)

From stdpp Require Import base gmap strings list pretty.
From Stdlib Require Import ZArith Ascii Lia.
From S2P Require Import Prelude PyValue Json JsonRound Codec.
From S2P Require Sha256.

Open Scope string_scope.
Open Scope list_scope.
Open Scope Z_scope.

(** ** The database *)

Definition SCHEMA_VERSION : Z := 2.

(** A table, or none of that name. *)
Record Db := mkDb { meta : option (dict string); state : option (dict string) }.
(** [INSERT OR REPLACE]: the row moves to the end. *)
Definition replace_row (k v : string) (t : dict string) : dict string :=
  List.filter (λ r, negb (bool_decide (r.1 = k))) t ++ [(k, v)].
Definition create_meta (d : Db) : Db := mkDb (Some (default [] (meta d))) (state d).
Definition create_state (d : Db) : Db := mkDb (meta d) (Some (default [] (state d))).

(** What a caller may hand over: JSON data, or an object [json.dumps] does not know. *)
Inductive payload := Plain (v : value) | Object (type : string).
Definition json_dumps (p : payload) : res string :=
  match p with
  | Plain v => Ok (dumps v)
  | Object t => Raise (Exn TypeError ("Object of type " +:+ t +:+ " is not JSON serializable"))
  end.
(** The inserts of a save, before the commit. *)
Fixpoint insert_all (l : list (string * payload)) (t : dict string) : res (dict string) :=
  match l with
  | [] => Ok t
  | (k, p) :: l' => s ← json_dumps p; insert_all l' (replace_row k s t)
  end.

(** The file, when it exists. *)
Definition file : Type := option Db.
Definition opened (f : file) : Db := default (mkDb None None) f.
Definition with_tables (f : file) : Db := create_state (create_meta (opened f)).
Definition save (components : dict payload) (f : file) : res () * file :=
  let d := with_tables f in
  match insert_all components (default [] (state d)) with
  | Ok t => (Ok (), Some (mkDb (replace_row "schema_version" (pretty SCHEMA_VERSION) <$> meta d) (Some t)))
  | Raise e => (Raise e, Some d)
  end.
(** What a crash within a save may leave on disk. *)
Definition crash_points (components : dict payload) (f : file) : list file :=
  [f; Some (opened f); Some (create_meta (opened f)); Some (with_tables f); (save components f).2].

Definition read_rows (t : dict string) : res (dict value) :=
  res_mapM (λ r, match loads r.2 with
                 | Some v => Ok (r.1, v)
                 | None => Raise (Exn ValueError "Expecting value")
                 end) t.
Definition load (f : file) : res (option (dict value)) :=
  match f with
  | None => Ok None
  | Some d =>
      match state d with
      | None => Raise (Exn Sqlite3Error "no such table: state")
      | Some [] => Ok None
      | Some t => d ← read_rows t; Ok (Some d)
      end
  end.
(** [int(row[0])], on the text a save writes *)
Definition schema_version (f : file) : res (option Z) :=
  match f with
  | None => Ok None
  | Some d =>
      match meta d with
      | None => Raise (Exn Sqlite3Error "no such table: meta")
      | Some t =>
          match dget "schema_version" t with
          | None => Ok None
          | Some s => match loads s with
                      | Some (VInt n) => Ok (Some n)
                      | _ => Raise (Exn ValueError ("invalid literal for int() with base 10: " +:+ repr_str s))
                      end
          end
      end
  end.
Definition wipe (f : file) : file := None.

(** Lemmas on the rows *)

Lemma replace_all_rows l t : NoDup (map fst l) →
  (∀ k p, (k, p) ∈ l → ∃ v, p = Plain v) →
  insert_all l t =
  Ok (List.filter (λ r, negb (bool_decide (r.1 ∈ map fst l))) t ++
      map (λ kp, (kp.1, match kp.2 with Plain v => dumps v | Object _ => "" end)) l).
Proof.
  revert t. induction l as [|[k p] l IH]; intros t Hn Hp.
  - cbn. rewrite app_nil_r. f_equal. symmetry. apply filter_all. intros x _. by rewrite bool_decide_eq_false_2 by (apply not_elem_of_nil).
  - cbn [map fst] in Hn. apply NoDup_cons in Hn as [Hk Hn]. destruct (Hp k p) as [v ->]; [by left|].
    cbn [insert_all json_dumps]. unfold mbind, res_bind. rewrite IH; [|done|intros k' p' H; apply (Hp k' p'); by right].
    f_equal. unfold replace_row. rewrite List.filter_app. cbn [List.filter map fst snd].
    rewrite bool_decide_eq_false_2 by done. cbn [negb]. rewrite <-app_assoc. cbn. f_equal.
    induction t as [|[k' s] t IHt]; [done|]. cbn.
    destruct (decide (k' = k)) as [->|Hne].
    + rewrite bool_decide_eq_true_2 by done. rewrite (bool_decide_eq_true_2 (k ∈ k :: _)) by left. done.
    + rewrite bool_decide_eq_false_2 by done. cbn.
      rewrite (bool_decide_ext (k' ∈ k :: map fst l) (k' ∈ map fst l)) by (rewrite elem_of_cons; naive_solver).
      destruct (negb _); cbn; by rewrite IHt.
Qed.
Lemma read_rows_app t t' : read_rows (t ++ t') = (a ← read_rows t; b ← read_rows t'; Ok (a ++ b)).
Proof.
  unfold read_rows. induction t as [|[k s] t IH]; cbn [app res_mapM].
  - unfold mbind, res_bind. by destruct (res_mapM _ t').
  - cbn [fst snd]. destruct (loads s); [|done]. unfold mbind, res_bind in *. rewrite IH.
    destruct (res_mapM _ t); [|done]. by destruct (res_mapM _ t').
Qed.
Lemma read_written (d : dict value) : Forall (λ kv, json_ok kv.2 = true) d →
  read_rows (map (λ kv, (kv.1, dumps kv.2)) d) = Ok d.
Proof.
  unfold read_rows. induction 1 as [|[k v] d Hv _ IH]; [done|]. cbn [map res_mapM fst snd] in *.
  rewrite loads_dumps by done. unfold mbind, res_bind in *. by rewrite IH.
Qed.

(** The components as a caller hands them over. *)
Definition plain (d : dict value) : dict payload := map (λ kv, (kv.1, Plain kv.2)) d.
Definition rest {A} (d : dict value) (t : dict A) : dict A :=
  List.filter (λ r, negb (bool_decide (r.1 ∈ dkeys d))) t.

Lemma insert_plain d t : NoDup (dkeys d) →
  insert_all (plain d) t = Ok (rest d t ++ map (λ kv, (kv.1, dumps kv.2)) d).
Proof.
  intros Hn. rewrite replace_all_rows.
  - unfold rest, plain, dkeys. rewrite !map_map. done.
  - unfold plain. rewrite map_map. done.
  - unfold plain. intros k p ([k' v] & [= -> ->] & _)%list_elem_of_fmap. by exists v.
Qed.
Lemma read_rest (d : dict value) t r : read_rows t = Ok r → read_rows (rest d t) = Ok (rest d r).
Proof.
  unfold read_rows, rest. revert r. induction t as [|[k s] t IH]; intros r; cbn [res_mapM fst snd].
  - by intros [= <-].
  - destruct (loads s) as [v|] eqn:E; [|done]. unfold mbind, res_bind. destruct (res_mapM _ t) as [r'|]; [|done].
    intros [= <-]. cbn [List.filter fst]. destruct (negb _); [|by apply IH].
    cbn [res_mapM fst snd]. rewrite E. unfold mbind, res_bind. by rewrite (IH _ eq_refl).
Qed.

(** Saving components that JSON carries succeeds, and loading gives them back, in order, behind
    the components of an earlier save that this one does not name; the version read is the
    current one.  A save of something else raises and loading gives what it gave before. *)
Theorem save_load d f old : NoDup (dkeys d) → d ≠ [] → Forall (λ kv, json_ok kv.2 = true) d →
  load f = Ok old →
  ∃ f', save (plain d) f = (Ok (), f') ∧ load f' = Ok (Some (rest d (default [] old) ++ d)) ∧
        schema_version f' = Ok (Some SCHEMA_VERSION).
Proof.
  intros Hn Hne Hj Hl. unfold save. rewrite insert_plain by done. eexists. split; [done|].
  assert (Hr : read_rows (default [] (state (with_tables f))) = Ok (default [] old)).
  { unfold load in Hl. destruct f as [[mt [t|]]|]; [|done|by simplify_eq]. cbn [state] in Hl.
    change (read_rows t = Ok (default [] old)). destruct t as [|x t]; [by simplify_eq|].
    unfold mbind, res_bind in Hl. destruct (read_rows (x :: t)); by simplify_eq. }
  split.
  - unfold load. cbn [state]. destruct (rest d (default [] (state (with_tables f))) ++ map (λ kv, (kv.1, dumps kv.2)) d) as [|x t] eqn:E.
    { apply app_eq_nil in E as [_ E]. by destruct d. }
    rewrite <-E, read_rows_app, (read_rest d _ _ Hr), read_written by done. done.
  - unfold schema_version. cbn [meta with_tables create_meta create_state fmap option_fmap option_map].
    generalize (default [] (meta (opened f))). intros t.
    assert (dget "schema_version" (replace_row "schema_version" (pretty SCHEMA_VERSION) t) = Some (pretty SCHEMA_VERSION)) as ->;
      [|done].
    unfold replace_row. induction t as [|[k s] t IH]; [done|]. cbn [List.filter fst].
    destruct (decide (k = "schema_version")) as [->|Hk]; [by rewrite bool_decide_eq_true_2|].
    rewrite bool_decide_eq_false_2 by done. cbn [negb app dget]. by rewrite decide_False.
Qed.

(** A save leaves the tables' rows as they were, or has written all of its own. *)
Lemma load_with_tables f old : load f = Ok old → load (Some (with_tables f)) = Ok old.
Proof. by destruct f as [[mt [t|]]|]. Qed.
(** Wherever a save crashes, loading gives what it gave before or what the finished save gives;
    only where no save had created the tables may it raise the error of a missing one. *)
Theorem save_atomic components f f' old : load f = Ok old → f' ∈ crash_points components f →
  load f' = Ok old ∨ load f' = load (save components f).2 ∨
  f = None ∧ load f' = Raise (Exn Sqlite3Error "no such table: state").
Proof.
  intros Hl [->|[->|[->|[->|[->|[]%elem_of_nil]%elem_of_cons]%elem_of_cons]%elem_of_cons]%elem_of_cons]%elem_of_cons.
  - by left.
  - destruct f as [d|]; [by left|by right; right].
  - destruct f as [d|]; [left; by destruct d|by right; right].
  - left. by apply load_with_tables.
  - by right; left.
Qed.
Lemma failed_save_keeps components f old e f' : load f = Ok old → save components f = (Raise e, f') → load f' = Ok old.
Proof.
  intros Hl. unfold save. destruct (insert_all _ _); [done|]. intros [= _ <-]. by apply load_with_tables.
Qed.

(** A component that the new state has no more is still loaded. *)
Example stale_component :
  let f := (save (plain [("tasks", VInt 1); ("budget", VInt 2)]) None).2 in
  load (save (plain [("tasks", VInt 3)]) f).2 = Ok (Some [("budget", VInt 2); ("tasks", VInt 3)]).
Proof. by vm_compute. Qed.
(** A crash before the tables exist leaves a file that cannot be loaded, nor counts as empty. *)
Example crash_before_tables :
  load (Some (opened None)) = Raise (Exn Sqlite3Error "no such table: state").
Proof. done. Qed.
Example object_refused :
  let f := (save (plain [("tasks", VInt 1)]) None).2 in
  let r := save [("tasks", Plain (VInt 2)); ("locks", Object "set")] f in
  r.1 = Raise (Exn TypeError "Object of type set is not JSON serializable") ∧ load r.2 = load f.
Proof. by vm_compute. Qed.

Lemma save_load_witness :
  let f := (save (plain [("budget", VInt 2)]) None).2 in
  ∃ f', save (plain [("tasks", VList [VStr "t1"]); ("pause", VStr "暂停")]) f = (Ok (), f') ∧
    load f' = Ok (Some [("budget", VInt 2); ("tasks", VList [VStr "t1"]); ("pause", VStr "暂停")]) ∧
    schema_version f' = Ok (Some 2).
Proof.
  apply (save_load [("tasks", VList [VStr "t1"]); ("pause", VStr "暂停")]
           (save (plain [("budget", VInt 2)]) None).2 (Some [("budget", VInt 2)])).
  - by eapply bool_decide_unpack; vm_compute.
  - discriminate.
  - repeat constructor.
  - reflexivity.
Defined.
Lemma save_atomic_witness :
  let f := (save (plain [("budget", VInt 2)]) None).2 in
  let c := plain [("tasks", VInt 1)] in
  load (Some (with_tables f)) = Ok (Some [("budget", VInt 2)]) ∨
  load (Some (with_tables f)) = load (save c f).2 ∨
  f = None ∧ load (Some (with_tables f)) = Raise (Exn Sqlite3Error "no such table: state").
Proof.
  apply (save_atomic (plain [("tasks", VInt 1)]) (save (plain [("budget", VInt 2)]) None).2
           (Some (with_tables (save (plain [("budget", VInt 2)]) None).2))); [reflexivity|].
  right. right. right. left.
Defined.

(** ** Assets *)

Definition DEFAULT_MIME : string := "application/octet-stream".
Definition AssetNotFoundError (h : string) : exn := Exn KeyError ("Asset not found: " +:+ h).
Record AssetMeta := mkMeta { a_sha256 : string; a_size : Z; a_mime : string; stored_at_tick : Z }.
Record AttachmentRef := mkRef {
  ref_type : string; ref_path : string; ref_version : Z; ref_hash : string; ref_size : Z; ref_mime : string }.
Definition from_asset (m : AssetMeta) (path : string) : AttachmentRef :=
  mkRef "asset" (if nonempty path then path else a_sha256 m) 0 (a_sha256 m) (a_size m) (a_mime m).
Definition _sha256 (data : string) : string := Sha256.hexdigest data.

Record AssetStore := mkAssets { _blobs : dict string; _meta : dict AssetMeta; _counter : nat }.
Definition AssetStore_init : AssetStore := mkAssets [] [] 0.
Definition put (data mime : string) (tick : Z) (s : AssetStore) : AssetMeta * AssetStore :=
  let digest := _sha256 data in
  match dget digest (_meta s) with
  | Some m => (m, s)
  | None =>
      let m := mkMeta digest (Z.of_nat (String.length data)) mime tick in
      (m, mkAssets (dset digest data (_blobs s)) (dset digest m (_meta s)) (S (_counter s)))
  end.
Definition get (h : string) (s : AssetStore) : res string :=
  match dget h (_blobs s) with Some b => Ok b | None => Raise (AssetNotFoundError h) end.
Definition stat (h : string) (s : AssetStore) : res AssetMeta :=
  match dget h (_meta s) with Some m => Ok m | None => Raise (AssetNotFoundError h) end.
Definition ref (h path : string) (s : AssetStore) : res AttachmentRef := m ← stat h s; Ok (from_asset m path).
Definition contains (h : string) (s : AssetStore) : bool := dmem h (_meta s).
Definition asset_count (s : AssetStore) : nat := length (_meta s).

Definition meta_dict (m : AssetMeta) : value :=
  VDict [("sha256", VStr (a_sha256 m)); ("size", VInt (a_size m)); ("mime", VStr (a_mime m));
         ("stored_at_tick", VInt (stored_at_tick m))].
Definition asset_snapshot (s : AssetStore) : dict value :=
  [("blobs", VDict (map (λ hb, (hb.1, VStr (b64encode hb.2))) (_blobs s)));
   ("meta", VDict (map (λ hm, (hm.1, meta_dict hm.2)) (_meta s)))].

(** [AssetMeta] called with a dict as keywords, with the types a snapshot has. *)
Definition read_meta (v : value) : res AssetMeta :=
  match v with
  | VDict d =>
      if forallb (λ k, bool_decide (k ∈ ["sha256"; "size"; "mime"; "stored_at_tick"])) (dkeys d) then
        match dget "sha256" d, dget "size" d, dget "mime" d, dget "stored_at_tick" d with
        | Some (VStr h), Some (VInt n), Some (VStr m), Some (VInt t) => Ok (mkMeta h n m t)
        | Some (VStr h), Some (VInt n), Some (VStr m), None => Ok (mkMeta h n m 0)
        | _, _, _, _ => Raise (Exn TypeError "AssetMeta.__init__() missing required arguments")
        end
      else Raise (Exn TypeError "AssetMeta.__init__() got an unexpected keyword argument")
  | _ => Raise (Exn TypeError "argument after ** must be a mapping")
  end.
Definition read_blob (v : value) : res string :=
  match v with
  | VStr s => b64decode s
  | _ => Raise (Exn TypeError "argument should be a bytes-like object or ASCII string")
  end.
Definition items_of (k : string) (d : dict value) : res (dict value) :=
  match dget k d with
  | None => Ok []
  | Some (VDict l) => Ok l
  | Some v => Raise (Exn AttributeError ("'" +:+ type_name v +:+ "' object has no attribute 'items'"))
  end.
Definition read_items {A} (f : value → res A) (l : dict value) : res (dict A) :=
  res_mapM (λ kv, a ← f kv.2; Ok (kv.1, a)) l.
Definition asset_restore (d : dict value) : res AssetStore :=
  bs ← items_of "blobs" d; blobs ← read_items read_blob bs;
  ms ← items_of "meta" d; meta ← read_items read_meta ms;
  Ok (mkAssets blobs meta (length meta)).

(** Every content lies under its hash, with its size. *)
Definition assets_ok (s : AssetStore) : Prop :=
  dkeys (_blobs s) = dkeys (_meta s) ∧ NoDup (dkeys (_meta s)) ∧ _counter s = length (_meta s) ∧
  (∀ h b, dget h (_blobs s) = Some b → _sha256 b = h ∧
     ∃ m, dget h (_meta s) = Some m ∧ a_sha256 m = h ∧ a_size m = Z.of_nat (String.length b)).

Lemma assets_init_ok : assets_ok AssetStore_init.
Proof. split_and!; [done|apply NoDup_nil_2|done|done]. Qed.

Lemma blob_of h s : assets_ok s → is_Some (dget h (_meta s)) ↔ is_Some (dget h (_blobs s)).
Proof.
  intros (Hk & _). rewrite <-!not_eq_None_Some, !dget_None_keys, Hk. done.
Qed.
Lemma put_ok data mime tick s : assets_ok s → assets_ok (put data mime tick s).2.
Proof.
  intros Hok. pose proof Hok as (Hk & Hn & Hc & Hb). unfold put.
  destruct (dget (_sha256 data) (_meta s)) as [m|] eqn:E; [done|]. split_and!; cbn [snd _blobs _meta _counter].
  - rewrite !dkeys_dset, Hk. done.
  - by apply dkeys_dset_NoDup.
  - rewrite Hc, dset_new; [rewrite length_app; simpl; lia|]. by apply dget_None_keys.
  - intros h b. rewrite !dget_dset. case_decide as Hd; [|apply Hb]. intros [= <-]. subst h. split; [done|]. by eexists.
Qed.
(** Putting bytes returns the hash of the bytes; what is found under it afterwards has that hash,
    and is the bytes themselves unless others with the same hash were there; every content the
    store held stays as it was, under its own hash and with its own size. *)
Theorem put_get data mime tick s : assets_ok s →
  let '(m, s') := put data mime tick s in
  assets_ok s' ∧ a_sha256 m = _sha256 data ∧ stat (_sha256 data) s' = Ok m ∧
  (∃ b, get (_sha256 data) s' = Ok b ∧ _sha256 b = _sha256 data ∧ a_size m = Z.of_nat (String.length b) ∧
        (contains (_sha256 data) s = false → b = data)) ∧
  ∀ h b, get h s = Ok b → get h s' = Ok b.
Proof.
  intros Hok. pose proof (put_ok data mime tick s Hok) as Hok'. pose proof Hok as (_ & _ & _ & Hb).
  unfold put, contains, dmem in *. destruct (dget (_sha256 data) (_meta s)) as [m|] eqn:E.
  - destruct (proj1 (blob_of (_sha256 data) s Hok)) as [b Eb]; [by exists m|].
    destruct (Hb _ _ Eb) as (Hh & m' & Em & Hs & Hz). simplify_eq. split_and!; [done|done|by unfold stat; rewrite E| |done].
    exists b. unfold get. by rewrite Eb.
  - assert (Enb : dget (_sha256 data) (_blobs s) = None).
    { apply eq_None_not_Some. rewrite <-blob_of, E by done. by apply is_Some_None. }
    split_and!; [done|done|by unfold stat; cbn; rewrite dget_dset_eq| |].
    + exists data. unfold get. cbn. by rewrite dget_dset_eq.
    + intros h b. unfold get. cbn. rewrite dget_dset. case_decide as Hd; [subst h; by rewrite Enb|done].
Qed.

(** A store is restored from its snapshot as it was. *)
Theorem assets_restored s : assets_ok s → asset_restore (asset_snapshot s) = Ok s.
Proof.
  intros (_ & _ & Hc & _). unfold asset_restore.
  assert (Hb : ∀ l : dict string, read_items read_blob (map (λ hb, (hb.1, VStr (b64encode hb.2))) l) = Ok l).
  { unfold read_items. induction l as [|[h b] l IH]; [done|]. cbn [map res_mapM fst snd read_blob]. rewrite b64_round_trip.
    unfold mbind, res_bind in *. by rewrite IH. }
  assert (Hm : ∀ l : dict AssetMeta, read_items read_meta (map (λ hm, (hm.1, meta_dict hm.2)) l) = Ok l).
  { unfold read_items. induction l as [|[h m] l IH]; [done|]. cbn [map res_mapM fst snd].
    assert (read_meta (meta_dict m) = Ok m) as -> by by destruct m.
    unfold mbind, res_bind in *. by rewrite IH. }
  change (items_of "blobs" (asset_snapshot s)) with (Ok (map (λ hb, (hb.1, VStr (b64encode hb.2))) (_blobs s))).
  change (items_of "meta" (asset_snapshot s)) with (Ok (map (λ hm, (hm.1, meta_dict hm.2)) (_meta s))).
  unfold mbind, res_bind. rewrite Hb, Hm, <-Hc. by destruct s.
Qed.

Definition sample_assets : AssetStore := (put "light work." "text/plain" 3 AssetStore_init).2.
Lemma sample_assets_ok : assets_ok sample_assets.
Proof. apply (put_ok "light work." "text/plain" 3 AssetStore_init assets_init_ok). Qed.
Lemma put_get_witness :
  assets_ok sample_assets ∧
  let '(m, s') := put "light work." "text/html" 5 sample_assets in
  assets_ok s' ∧ a_sha256 m = _sha256 "light work." ∧ stat (_sha256 "light work.") s' = Ok m ∧
  (∃ b, get (_sha256 "light work.") s' = Ok b ∧ _sha256 b = _sha256 "light work." ∧
        a_size m = Z.of_nat (String.length b) ∧ (contains (_sha256 "light work.") sample_assets = false → b = "light work.")) ∧
  ∀ h b, get h sample_assets = Ok b → get h s' = Ok b.
Proof. split; [apply sample_assets_ok|]. apply (put_get "light work." "text/html" 5 sample_assets), sample_assets_ok. Defined.
Lemma assets_restored_witness : asset_restore (asset_snapshot sample_assets) = Ok sample_assets.
Proof. apply (assets_restored sample_assets), sample_assets_ok. Defined.

(** The type of a content is the one it was first stored with. *)
Example first_mime_stays : a_mime (put "light work." "text/html" 5 sample_assets).1 = "text/plain".
Proof. by vm_compute. Qed.
(** A restore does not compare contents with the hashes they lie under. *)
Example tampered_blob_restored :
  (s ← asset_restore [("blobs", VDict [(_sha256 "a", VStr (b64encode "b"))])]; get (_sha256 "a") s) = Ok "b".
Proof. by vm_compute. Qed.
